(* ===== verification/_CoqProject ===== *)
-Q . S2P
Prelude.v
Decimal.v
Os.v
OsSim.v
WlOs.v
WlRing.v
WlConnection.v
WlSession.v
WlList.v
WlSignal.v
WlArray.v
WlMap.v
WlMessage.v
WlClosure.v
WlTransmit.v
WlDemarshal.v
WlProtocol.v
WlPrint.v
WlServer.v
WlServerSpec.v
WlServerRun.v
WlTimer.v
WlTimerOps.v
WlEventLoop.v
WlDispatch.v
WlDispatchSpec.v
WlDispatchRun.v
XkbAtom.v
XkbUtf8.v
XkbKeysymTables.v
XkbKeysym.v
XkbKeysymSpec.v
XkbKeysymIter.v
XkbKeysymUtf.v
XkbCase.v
XkbKeymap.v
XkbState.v
XkbHeld.v
XkbEvents.v
XkbText.v
XkbCompose.v
XkbComposeTree.v
XkbComposeSpec.v
XkbComposeRun.v
XkbComposeList.v
XkbScanner.v
XkbComposeLex.v
XkbComposeParse.v
XkbComposeDump.v
XkbComposePath.v
K1Color.v
K1Term.v
K1TermSpec.v
K1Render.v
K1Pixels.v
K1Input.v
K1Drm.v
K1Main.v
