(* ===== verification/Prelude.v ===== *)
(** * Verification of the display stack shipped with K1OS

    K1OS is a Linux distribution whose graphical part consists of packages
    built from source.  Three of them carry the logic that is verified here:
    libwayland (the display protocol), libxkbcommon (the keyboard) and k1de
    (the console of the distribution, a terminal drawn straight to the
    screen).  Paths below are under src/packages/; a definition has the name
    of the function, type or constant it models, wherever the language allows
    it.

    ** Conventions

    Machine integers are [Z], with [u16], [u32], [u64], [i16] and [i32] where
    the source wraps; bytes and characters are [Z] too, strings are lists.  A
    result [None] is undefined behaviour in C, a panic in Rust, a failed
    assertion, or a loop that has run out of fuel; a theorem that gives
    [Some] excludes all of these.  [cres] holds the results of functions that
    set errno.  Calls into the C library and the kernel are operations of the
    type classes of [Os] over a world [W], with the documented behaviour some
    theorems need in classes of laws, and [OsSim] is an implementation on
    which the witnesses run.

    ** libwayland (wayland/build/src)

    The bytes of the protocol.  [WlOs] is wayland-os.c.  [WlRing] has the ring
    buffers and [WlConnection] the buffered socket of connection.c; [WlSession]
    shows that any sequence of calls on a connection whose buffers have a
    maximal size is a pair of exact byte and descriptor streams.  [WlMessage], [WlClosure], [WlTransmit],
    [WlDemarshal], [WlProtocol] and [WlPrint] model the rest of connection.c:
    signatures, building, serialising, sending, receiving, resolving, calling
    and printing a message.  What is sent is received; any received bytes are
    decoded without leaving the message and without losing a descriptor.

    The data structures of wayland-util.c.  [WlList] (intrusive lists over a
    store of nodes), [WlArray] and [WlMap] (object ids) are each refined to an
    abstract list or finite map.

    Signals and the server.  [WlSignal] has the signals of wayland-server-core.h
    and wayland-server.c; their callbacks may add and remove listeners.
    [WlServer] is the core of wayland-server.c: the clients of a display, their
    resources, the globals and the registries that announce them.  Events go
    through the class [EventSink], which connections implement.  Listeners,
    destructors and loggers act on the world only; the events sent to a
    resource are recorded in it for the theorems; [address] gives the place of
    a new object, or none.  [WlServerSpec] shows that every operation (of
    globals, registries, resources with their implementations and events,
    clients, errors and serials) keeps the invariant that relates object maps,
    resources and clients, and that a registry has been told exactly the
    globals its client may bind; events that carry descriptors are left to the
    theorems on connections.  [WlServerRun] is a run.  [WlDispatch] is [wl_client_connection_data], which
    serves the requests of a client and puts all of the above together, and
    [WlDispatchSpec] shows that no bytes a client may send get the server into
    trouble, provided that the functions of the compositor return with the
    client in place; [WlDispatchRun] is a run.

    The event loop, event-loop.c.  [WlTimer] is the heap of timers and
    [WlTimerOps] the timer sources, refined to a map of deadlines, for up to
    2^29 timers, so that no [int] of the heap overflows; [WlEventLoop] has the
    other sources and the dispatch, with callbacks as functions on the whole
    state.

    ** libxkbcommon (libxkbcommon/build/src)

    [XkbAtom] (atom.c) is refined to a list of strings, [XkbUtf8] (utf8.c) to
    the encoding of code points.  [XkbKeysymTables], [XkbKeysym],
    [XkbKeysymSpec], [XkbKeysymIter], [XkbKeysymUtf] and [XkbCase] are
    keysym.c, keysym-utf.c and their tables: names and keysyms, the perfect
    hash, iteration, Unicode and case; the facts on the tables are checked by
    evaluation.  [XkbKeymap] holds the queries of a compiled keymap, [XkbState]
    the state machine of state.c, [XkbHeld] and [XkbEvents] its contract for
    keymaps without latches ([plain_keymap]: the depressed modifiers are those
    of the held keys, over any sequence of events that overflows no [int]), [XkbText] the text of a key.

    [XkbCompose] is the compose table (compose/table.c, table.h, state.c and
    [add_production] of parser.c).  [XkbComposeTree] refines its array of nodes
    to a ternary search tree, [XkbComposeSpec] the tree to a finite map from
    sequences to results; [XkbComposeRun] and [XkbComposeList] show that
    composing and iterating follow that map.  [XkbScanner] (scanner-utils.h),
    [XkbComposeLex] and [XkbComposeParse] are the parser of Compose files, in
    which every access to the text, the token buffer and the arrays of a
    production is checked against its bound; it is safe and terminating on any
    bytes.  [XkbComposeDump] prints a table and proves that the text reads back
    when its entries are printable ([printable_entry]), and [XkbComposePath]
    finds the file of a locale (compose/paths.c and the constructors of
    table.c): which of the files is read, and what it gives.

    ** k1de (k1de/src)

    [K1Color], [K1Term] and [K1TermSpec] are the terminal of main.rs: colours,
    grid, escape sequences, and what they do to the screen, with the
    arithmetic of a release build, which wraps, and the limit of a vector's
    capacity.  [K1Render] and [K1Pixels] draw it with the font of font.rs into
    the bytes of a framebuffer, and say which colour each pixel gets.
    [K1Input] is input.rs, compared with the rows of a US keyboard.  [K1Drm] is
    drm.rs over an interface of ioctls, and [K1Main] is the main loop, which
    uses the display through the class [Display] that [K1Drm] implements: as long as the modes of the display are at least one cell of the
    font large ([modes_fit]), the loop does not panic, whatever else display,
    shell and keyboards do, and what is typed reaches the shell; a lower mode
    can make it panic.

    ** Fuel and bounds

    Loops that are not structural run on fuel computed from the data: the size
    of a heap, a table or a text, the length of a signature, the number of
    nodes of a tree, the bytes a client has sent.  That it is enough is part of the theorems, which state
    results [Some]; interrupted system calls are retried as often as the world
    interrupts them.  The parser of Compose files has a measure that each turn
    of its automaton decreases, and recursion into includes is bounded by the
    source's own limit.

    ** Not modelled

    Messages for logs are left out everywhere, and so are reference counts and
    failing allocations where the sources only pass them on.  Of libwayland:
    the sockets, the main loop and the credentials of the server and its
    deprecated interface for resources, the pools of shared memory, whose work
    is done by system calls and a signal handler, the client side, which is
    shared between threads, the scanner of protocol descriptions, a build-time
    generator over an XML library, the conversions of [wl_fixed_t] from and to
    double, and the cursor and EGL helpers.  Of libxkbcommon: the keymap compiler, whose grammar is
    input of a parser generator, the registry, which reads XML, and the X11
    protocol; a compiled keymap is an argument, constrained by [keymap_ok].  Of
    k1de: opening the pseudo terminal and starting the shell, which are system
    calls; their results are inputs of the main loop.  The build scripts, the
    kernel configuration and the root file system are run by other programs. *)

From stdpp Require Export prelude list numbers gmap.
From Stdlib Require Export ZArith Lia.

Declare Scope k1_scope.
Delimit Scope k1_scope with k1.
Open Scope Z_scope.

(** ** Machine integers

    A C integer is a [Z] together with the explicit conversion applied where
    the source stores or casts it. *)

Definition u16 (x : Z) : Z := x mod 2 ^ 16.
Definition u32 (x : Z) : Z := x mod 2 ^ 32.
Definition u64 (x : Z) : Z := x mod 2 ^ 64.
Definition i16 (x : Z) : Z := (x + 2 ^ 15) mod 2 ^ 16 - 2 ^ 15.
Definition i32 (x : Z) : Z := (x + 2 ^ 31) mod 2 ^ 32 - 2 ^ 31.

(** Sizes in bytes of the C types the sources take [sizeof] of (LP64). *)
Definition sizeof_u32 : Z := 4.
Definition sizeof_int32 : Z := 4.
Definition sizeof_size_t : Z := 8.

(** The [errno] values the sources set or test. *)
Inductive errno : Type :=
  | ENOMEM | EINVAL | ENOSPC | E2BIG | EOVERFLOW | ERANGE
  | EAGAIN | EINTR | EPIPE | ENOSYS | EOTHER.

#[export] Instance errno_eq_dec : EqDecision errno.
Proof. solve_decision. Defined.

(** The outcome of a C function that returns [-1] (or [NULL]) with [errno]. *)
Inductive cres (A : Type) : Type :=
  | Ret (a : A)
  | Fail (e : errno).
Arguments Ret {_} _.
Arguments Fail {_} _.

(** The option monad of the models: [None] is undefined behaviour (an access
    outside a block, a wild pointer) or a failed [assert].  stdpp's
    [x ← m; k] notation sequences it. *)

(** [memcpy] and friends on a block of memory, a list of cells. *)
Definition in_range (len off n : Z) : bool :=
  (0 <=? off) && (0 <=? n) && (off + n <=? len).

Definition read_range {A} (l : list A) (off n : Z) : option (list A) :=
  if in_range (Z.of_nat (length l)) off n
  then Some (take (Z.to_nat n) (drop (Z.to_nat off) l))
  else None.

Definition splice {A} (l : list A) (off : nat) (src : list A) : list A :=
  take off l ++ src ++ drop (off + length src) l.

Definition write_range {A} (l : list A) (off : Z) (src : list A) : option (list A) :=
  if in_range (Z.of_nat (length l)) off (Z.of_nat (length src))
  then Some (splice l (Z.to_nat off) src)
  else None.

(** ** Little-endian encodings (the byte order of the supported targets) *)

Fixpoint le_split (n : nat) (w : Z) : list Z :=
  match n with
  | O => []
  | S n => w mod 256 :: le_split n (w / 256)
  end.

Fixpoint le_combine (bs : list Z) : Z :=
  match bs with
  | [] => 0
  | b :: bs => b + 256 * le_combine bs
  end.

Definition is_byte (b : Z) : Prop := 0 <= b < 256.

(** ** Tactics *)

(** Split every boolean comparison of a hypothesis or of the goal into the
    proposition it decides. *)
Ltac zbool :=
  repeat match goal with
  | H : _ && _ = true |- _ => apply andb_prop in H; destruct H
  | H : _ && _ = false |- _ => apply andb_false_iff in H; destruct H
  | H : _ || _ = true |- _ => apply orb_prop in H; destruct H
  | H : _ || _ = false |- _ => apply orb_false_elim in H; destruct H
  | H : negb _ = true |- _ => apply negb_true_iff in H
  | H : negb _ = false |- _ => apply negb_false_iff in H
  | H : (_ <=? _) = true |- _ => apply Z.leb_le in H
  | H : (_ <=? _) = false |- _ => apply Z.leb_gt in H
  | H : (_ <? _) = true |- _ => apply Z.ltb_lt in H
  | H : (_ <? _) = false |- _ => apply Z.ltb_ge in H
  | H : (_ =? _) = true |- _ => apply Z.eqb_eq in H
  | H : (_ =? _) = false |- _ => apply Z.eqb_neq in H
  end.

(** Case analysis on the scrutinee of a visible [if]/[match], keeping the
    equation. *)
Ltac case_step :=
  match goal with
  | |- context [match ?x with _ => _ end] => destruct x eqn:?
  end.

Ltac case_step_in H :=
  match type of H with
  | context [match ?x with _ => _ end] => destruct x eqn:?
  end.

(** [lia] after replacing quotients and remainders by their equations. *)
Ltac mlia := Z.div_mod_to_equations; lia.

Create HintDb k1.

(** ** Machine-integer lemmas *)

Lemma u64_small x : 0 <= x < 2 ^ 64 → u64 x = x.
Proof. apply Z.mod_small. Qed.

Lemma u32_small x : 0 <= x < 2 ^ 32 → u32 x = x.
Proof. apply Z.mod_small. Qed.

Lemma u64_bound x : 0 <= u64 x < 2 ^ 64.
Proof. apply Z.mod_pos_bound. lia. Qed.

Lemma u64_idemp_sub_l x y : u64 (u64 x - y) = u64 (x - y).
Proof. apply Zminus_mod_idemp_l. Qed.

Lemma u64_idemp_sub_r x y : u64 (x - u64 y) = u64 (x - y).
Proof. apply Zminus_mod_idemp_r. Qed.

Lemma u64_idemp_add_l x y : u64 (u64 x + y) = u64 (x + y).
Proof. apply Zplus_mod_idemp_l. Qed.

Lemma u64_idemp_add_r x y : u64 (x + u64 y) = u64 (x + y).
Proof. apply Zplus_mod_idemp_r. Qed.

Lemma u32_bound x : 0 <= u32 x < 2 ^ 32.
Proof. apply Z.mod_pos_bound. lia. Qed.

Lemma i32_bound x : - 2 ^ 31 <= i32 x < 2 ^ 31.
Proof. unfold i32. pose proof (Z.mod_pos_bound (x + 2 ^ 31) (2 ^ 32)). lia. Qed.

Lemma i32_small x : - 2 ^ 31 <= x < 2 ^ 31 → i32 x = x.
Proof. intros H. unfold i32. rewrite Z.mod_small; lia. Qed.

Lemma i16_small x : - 2 ^ 15 <= x < 2 ^ 15 → i16 x = x.
Proof. intros H. unfold i16. rewrite Z.mod_small; lia. Qed.

Lemma i32_u32 x : - 2 ^ 31 <= x < 2 ^ 31 → i32 (u32 x) = x.
Proof.
  intros H. unfold i32, u32. rewrite Zplus_mod_idemp_l, Z.mod_small by lia. lia.
Qed.

#[export] Hint Resolve u64_bound u32_bound i32_bound : k1.

(** ** Bit fields *)

Lemma land_1 x : Z.land x 1 = x mod 2.
Proof. apply (Z.land_ones x 1). lia. Qed.

Lemma testbit_above v k n : 0 <= v < 2 ^ k → k <= n → Z.testbit v n = false.
Proof.
  intros Hv Hn. destruct (decide (v = 0)) as [->|]; [apply Z.bits_0|].
  apply Z.bits_above_log2; [lia|]. apply Z.log2_lt_pow2; [lia|].
  apply Z.lt_le_trans with (2 ^ k); [lia|]. apply Z.pow_le_mono_r; lia.
Qed.

Lemma testbit_below a k n : a mod 2 ^ k = 0 → n < k → Z.testbit a n = false.
Proof.
  intros Ha Hn. destruct (decide (n < 0)); [by apply Z.testbit_neg_r|].
  rewrite <- (Z.mod_pow2_bits_low a k n) by done. rewrite Ha. apply Z.bits_0.
Qed.

(** A low field next to a high field: [|] is [+]. *)
Lemma lor_low a b k : a mod 2 ^ k = 0 → 0 <= b < 2 ^ k → Z.lor a b = a + b.
Proof.
  intros Ha Hb. symmetry. apply Z.add_nocarry_lor. apply Z.bits_inj'. intros n Hn.
  rewrite Z.land_spec, Z.bits_0. destruct (decide (n < k)).
  - by rewrite (testbit_below a k n).
  - by rewrite (testbit_above b k n), andb_false_r by lia.
Qed.

(** ** Blocks of memory *)

Lemma in_range_true len off n :
  in_range len off n = true ↔ 0 <= off ∧ 0 <= n ∧ off + n <= len.
Proof. unfold in_range. rewrite !andb_true_iff, !Z.leb_le. tauto. Qed.

Lemma read_range_Some {A} (l : list A) off n :
  0 <= off → 0 <= n → off + n <= Z.of_nat (length l) →
  read_range l off n = Some (take (Z.to_nat n) (drop (Z.to_nat off) l)).
Proof.
  intros. unfold read_range.
  by rewrite (proj2 (in_range_true _ _ _)).
Qed.

Lemma write_range_Some {A} (l src : list A) off :
  0 <= off → off + Z.of_nat (length src) <= Z.of_nat (length l) →
  write_range l off src = Some (splice l (Z.to_nat off) src).
Proof.
  intros. unfold write_range.
  rewrite (proj2 (in_range_true _ _ _)); [done|lia].
Qed.

Lemma length_splice {A} (l src : list A) off :
  (off + length src <= length l)%nat → length (splice l off src) = length l.
Proof.
  intros. unfold splice. rewrite !length_app, length_take, length_drop. lia.
Qed.

Lemma lookup_splice {A} (l src : list A) off i :
  (off + length src <= length l)%nat →
  splice l off src !! i =
    if decide (off <= i < off + length src)%nat then src !! (i - off)%nat
    else l !! i.
Proof.
  intros Hlen. unfold splice.
  destruct (decide (i < off)%nat) as [Hi|Hi].
  { rewrite lookup_app_l by (rewrite length_take; lia).
    rewrite lookup_take_lt by lia. case_decide; [lia|done]. }
  rewrite lookup_app_r by (rewrite length_take; lia).
  rewrite length_take, Nat.min_l by lia.
  case_decide as Hin.
  - rewrite lookup_app_l by lia. done.
  - rewrite lookup_app_r by lia. rewrite lookup_drop. f_equal. lia.
Qed.

Lemma splice_nil {A} (l : list A) off : splice l off [] = l.
Proof. unfold splice. simpl. rewrite Nat.add_0_r. apply take_drop. Qed.

(** Reads after writes. *)
Lemma read_splice_same {A} (l src : list A) off :
  (off + length src <= length l)%nat →
  read_range (splice l off src) (Z.of_nat off) (Z.of_nat (length src)) = Some src.
Proof.
  intros Hlen. rewrite read_range_Some by (rewrite ?length_splice; lia).
  rewrite !Nat2Z.id. unfold splice. rewrite drop_app_length' by (rewrite length_take; lia).
  by rewrite take_app_length.
Qed.

Lemma read_splice_disjoint {A} (l src : list A) off o n :
  (off + length src <= length l)%nat → 0 <= o → 0 <= n →
  o + n <= Z.of_nat off ∨ Z.of_nat (off + length src) <= o →
  read_range (splice l off src) o n = read_range l o n.
Proof.
  intros Hlen Ho Hn Hd. unfold read_range. rewrite length_splice by done.
  destruct (in_range _ o n) eqn:Hin; [|done]. apply in_range_true in Hin. f_equal.
  apply list_eq. intros i. destruct (decide (i < Z.to_nat n)%nat).
  - rewrite !lookup_take_lt, !lookup_drop, lookup_splice by lia. by rewrite decide_False by lia.
  - by rewrite !lookup_take_ge by lia.
Qed.

Lemma read_range_app_l {A} (l k : list A) o n :
  0 <= o → 0 <= n → o + n <= Z.of_nat (length l) → read_range (l ++ k) o n = read_range l o n.
Proof.
  intros. rewrite !read_range_Some by (rewrite ?length_app; lia). f_equal.
  rewrite drop_app_le by lia. rewrite take_app_le; [done|]. rewrite length_drop. lia.
Qed.

Lemma read_range_take {A} (l : list A) m o n :
  0 <= o → 0 <= n → o + n <= Z.of_nat m → (m <= length l)%nat →
  read_range (take m l) o n = read_range l o n.
Proof.
  intros. rewrite !read_range_Some by (rewrite ?length_take; lia). f_equal.
  replace m with (Z.to_nat o + (m - Z.to_nat o))%nat by lia.
  rewrite <- take_drop_commute, take_take. f_equal. lia.
Qed.

Lemma drop_eq_cons {A} (l r : list A) i a :
  drop i l = a :: r → l !! i = Some a ∧ drop (S i) l = r.
Proof.
  intros Hd. split.
  - rewrite <- (Nat.add_0_r i), <- lookup_drop. by rewrite Hd.
  - rewrite <- (Nat.add_1_r i), <- drop_drop. by rewrite Hd.
Qed.

(** Adjacent writes are one write. *)
Lemma splice_adjacent {A} (l a b : list A) o :
  (o + length a + length b <= length l)%nat →
  splice (splice l o a) (o + length a) b = splice l o (a ++ b).
Proof.
  intros Hlen. unfold splice. rewrite length_app.
  rewrite take_app_ge by (rewrite length_take; lia). rewrite length_take, Nat.min_l by lia.
  replace (o + length a - o)%nat with (length a) by lia. rewrite take_app_length.
  rewrite drop_app_ge by (rewrite length_take; lia). rewrite length_take, Nat.min_l by lia.
  rewrite drop_app_ge by lia. rewrite drop_drop, <- !app_assoc. do 4 f_equal. lia.
Qed.

(** Writing back what is there changes nothing. *)
Lemma splice_keep {A} (l a : list A) o n :
  (o + length a + n <= length l)%nat →
  splice l o (a ++ take n (drop (o + length a) l)) = splice l o a.
Proof.
  intros Hlen. unfold splice. rewrite !length_app, length_take, length_drop, <- app_assoc.
  do 2 f_equal. rewrite <- (take_drop n (drop (o + length a) l)) at 2. f_equal.
  rewrite drop_drop. f_equal. lia.
Qed.

Lemma drop_splice {A} (l a : list A) o :
  (o + length a <= length l)%nat → drop (o + length a) (splice l o a) = drop (o + length a) l.
Proof.
  intros Hlen. unfold splice. rewrite drop_app_ge by (rewrite length_take; lia).
  rewrite length_take, Nat.min_l by lia. replace (o + length a - o)%nat with (length a) by lia.
  by rewrite drop_app_length.
Qed.

(** A block filled from both sides. *)
Lemma splice_fill {A} (l h body : list A) :
  length l = (length h + length body)%nat →
  splice (splice l (length h) body) 0 h = h ++ body.
Proof.
  intros Hl. unfold splice at 1. rewrite take_0. cbn [app]. f_equal.
  unfold splice. rewrite Nat.add_0_l, drop_app_length' by (rewrite length_take; lia).
  rewrite drop_ge by lia. apply app_nil_r.
Qed.

(** ** Little-endian round trips *)

Lemma length_le_split n w : length (le_split n w) = n.
Proof. revert w. induction n; intros w; simpl; [done|by rewrite IHn]. Qed.

Lemma le_split_bytes n w : Forall is_byte (le_split n w).
Proof.
  revert w. induction n; intros w; simpl; constructor; [|done].
  apply Z.mod_pos_bound. lia.
Qed.

Lemma le_combine_split n w :
  le_combine (le_split n w) = w mod 2 ^ (8 * Z.of_nat n).
Proof.
  revert w. induction n as [|n IH]; intros w.
  { simpl. by rewrite Z.mod_1_r. }
  cbn [le_split le_combine]. rewrite IH.
  replace (8 * Z.of_nat (S n)) with (8 + 8 * Z.of_nat n) by lia.
  rewrite Z.pow_add_r by lia. change (2 ^ 8) with 256.
  rewrite Z.rem_mul_r; [done|lia|]. apply Z.pow_pos_nonneg; lia.
Qed.

Lemma le_split_combine bs :
  Forall is_byte bs → le_split (length bs) (le_combine bs) = bs.
Proof.
  induction 1 as [|b bs Hb Hbs IH]; [done|]. cbn [length le_split le_combine].
  unfold is_byte in Hb. f_equal.
  - rewrite Z.mul_comm, Z_mod_plus_full. by apply Z.mod_small.
  - rewrite Z.mul_comm, Z.div_add, Z.div_small, Z.add_0_l by lia. exact IH.
Qed.

Lemma le_combine_bound bs :
  Forall is_byte bs → 0 <= le_combine bs < 2 ^ (8 * Z.of_nat (length bs)).
Proof.
  induction 1 as [|b bs Hb Hbs IH]; [simpl; lia|].
  cbn [length le_combine]. unfold is_byte in Hb.
  replace (8 * Z.of_nat (S (length bs))) with (8 + 8 * Z.of_nat (length bs)) by lia.
  rewrite Z.pow_add_r by lia. lia.
Qed.
