(* ===== verification/Decimal.v ===== *)
(** * Decimal numbers

    The conversions of [printf] the sources use to print numbers, as lists of
    character codes, and the value of a string of digits. *)

From S2P Require Import Prelude.
Open Scope Z_scope.

(** [%u] and [%zu]; twenty digits hold every 64-bit number. *)
Fixpoint dec_loop (fuel : nat) (n : Z) (acc : list Z) : list Z :=
  match fuel with
  | O => acc
  | S fuel =>
      let acc := (48 + n mod 10) :: acc in
      if n <? 10 then acc else dec_loop fuel (n / 10) acc
  end.
Definition fmt_u (n : Z) : list Z := dec_loop 20 n [].

(** [%d]. *)
Definition fmt_d (n : Z) : list Z := if n <? 0 then 45 :: fmt_u (- n) else fmt_u n.

(** [%7u] and [%03u], [%08d] of non-negative numbers. *)
Definition fmt_pad (c : Z) (width : nat) (l : list Z) : list Z :=
  replicate (width - length l) c ++ l.

Definition is_digit (c : Z) : bool := (48 <=? c) && (c <=? 57).

Definition digits_value (l : list Z) : Z := foldl (λ v c, v * 10 + (c - 48)) 0 l.

Lemma digits_value_cons c l :
  digits_value (c :: l) = (c - 48) * 10 ^ Z.of_nat (length l) + digits_value l.
Proof.
  unfold digits_value. cbn [foldl]. rewrite Z.mul_0_l, Z.add_0_l. generalize (c - 48) as v.
  assert (H : ∀ v, foldl (λ v c, v * 10 + (c - 48)) v l =
    v * 10 ^ Z.of_nat (length l) + foldl (λ v c, v * 10 + (c - 48)) 0 l); [|apply H].
  induction l as [|d l IH]; intros v; cbn [foldl length]; [lia|].
  rewrite (IH (v * 10 + _)), (IH (0 * 10 + _)), Nat2Z.inj_succ, Z.pow_succ_r by lia. lia.
Qed.

Lemma dec_loop_spec fuel n acc :
  0 <= n < 10 ^ Z.of_nat fuel → (0 < fuel)%nat →
  ∃ ds, dec_loop fuel n acc = ds ++ acc ∧ Forall (λ c, is_digit c = true) ds ∧ ds ≠ [] ∧
    (∀ k, (0 < k)%nat → n < 10 ^ Z.of_nat k → (length ds <= k)%nat) ∧
    digits_value (ds ++ acc) = n * 10 ^ Z.of_nat (length acc) + digits_value acc.
Proof.
  revert n acc. induction fuel as [|fuel IH]; intros n acc Hn Hf; [lia|]. cbn [dec_loop].
  assert (Hd : is_digit (48 + n mod 10) = true).
  { unfold is_digit. pose proof (Z.mod_pos_bound n 10). apply andb_true_iff. split; apply Z.leb_le; lia. }
  destruct (Z.ltb_spec n 10) as [Hlt|Hge].
  { exists [48 + n mod 10]. split_and!; [done|by constructor|done|cbn; lia|].
    cbn [app]. rewrite digits_value_cons, Z.mod_small by lia. lia. }
  rewrite Nat2Z.inj_succ, Z.pow_succ_r in Hn by lia.
  destruct (IH (n / 10) ((48 + n mod 10) :: acc)) as (ds&->&Hds&Hne&Hlen&Hv).
  { split; [apply Z.div_pos; lia|apply Z.div_lt_upper_bound; lia]. }
  { destruct fuel; [cbn in Hn; lia|lia]. }
  exists (ds ++ [48 + n mod 10]). rewrite <- app_assoc. split_and!; [done| | | |].
  - apply Forall_app. split; [done|by constructor].
  - by destruct ds.
  - intros k Hk Hnk. destruct k as [|k]; [lia|]. rewrite length_app. cbn [length].
    destruct k as [|k]; [cbn in Hnk; lia|]. assert (length ds <= S k)%nat; [|lia].
    apply Hlen; [lia|]. rewrite Nat2Z.inj_succ, Z.pow_succ_r in Hnk by lia.
    apply Z.div_lt_upper_bound; lia.
  - cbn [app]. rewrite Hv, digits_value_cons. cbn [length].
    rewrite Nat2Z.inj_succ, Z.pow_succ_r by lia. pose proof (Z.div_mod n 10). nia.
Qed.

Lemma fmt_u_spec n :
  0 <= n < 10 ^ 20 →
  Forall (λ c, is_digit c = true) (fmt_u n) ∧ fmt_u n ≠ [] ∧ digits_value (fmt_u n) = n ∧
  (∀ k, (0 < k)%nat → n < 10 ^ Z.of_nat k → (length (fmt_u n) <= k)%nat).
Proof.
  intros Hn. unfold fmt_u.
  destruct (dec_loop_spec 20 n []) as (ds&->&?&?&?&Hv); [done|lia|].
  rewrite app_nil_r in *. split_and!; try done. rewrite Hv. cbn. lia.
Qed.

Lemma digits_value_zeros k l : digits_value (replicate k 48 ++ l) = digits_value l.
Proof. induction k as [|k IH]; [done|]. cbn [replicate app]. rewrite digits_value_cons. lia. Qed.

Lemma fmt_pad_spec k n :
  0 <= n < 10 ^ Z.of_nat k → (0 < k <= 20)%nat →
  Forall (λ c, is_digit c = true) (fmt_pad 48 k (fmt_u n)) ∧
  length (fmt_pad 48 k (fmt_u n)) = k ∧ digits_value (fmt_pad 48 k (fmt_u n)) = n.
Proof.
  intros Hn Hk. destruct (fmt_u_spec n) as (Hd&_&Hv&Hl).
  { split; [lia|]. apply Z.lt_le_trans with (10 ^ Z.of_nat k); [lia|].
    apply (Z.pow_le_mono_r 10 _ 20); lia. }
  unfold fmt_pad. specialize (Hl k). split_and!.
  - apply Forall_app. split; [by apply Forall_replicate|done].
  - rewrite length_app, length_replicate. lia.
  - by rewrite digits_value_zeros.
Qed.

(** ** Hexadecimal numbers *)

(** [%x] and [%X]; sixteen digits hold every 64-bit number. *)
Definition hex_digit (ten d : Z) : Z := if d <? 10 then 48 + d else ten + (d - 10).
Fixpoint hex_loop (ten : Z) (fuel : nat) (n : Z) (acc : list Z) : list Z :=
  match fuel with
  | O => acc
  | S fuel =>
      let acc := hex_digit ten (n mod 16) :: acc in
      if n <? 16 then acc else hex_loop ten fuel (n / 16) acc
  end.
Definition fmt_x (n : Z) : list Z := hex_loop 97 16 n [].
Definition fmt_X (n : Z) : list Z := hex_loop 65 16 n [].

(** The number in exactly [w] digits. *)
Fixpoint hex_fixed (ten : Z) (w : nat) (n : Z) : list Z :=
  match w with
  | O => []
  | S w => hex_fixed ten w (n / 16) ++ [hex_digit ten (n mod 16)]
  end.

Lemma hex_fixed_0 ten w : hex_fixed ten w 0 = replicate w 48.
Proof.
  induction w as [|w IH]; [done|]. cbn [hex_fixed]. rewrite Z.div_0_l, IH by done.
  change (hex_digit ten (0 mod 16)) with 48. rewrite <- (replicate_S_end w 48). done.
Qed.

Lemma length_hex_fixed ten w n : length (hex_fixed ten w n) = w.
Proof. revert n. induction w as [|w IH]; intros n; [done|]. cbn [hex_fixed]. rewrite length_app, IH. cbn. lia. Qed.

(** Zero padding makes the digits of a small number the fixed ones. *)
Lemma hex_loop_fixed ten fuel w n acc :
  0 <= n < 16 ^ Z.of_nat w → (w <= fuel)%nat → (0 < w)%nat →
  ∃ ds, hex_loop ten fuel n acc = ds ++ acc ∧ (length ds <= w)%nat ∧ replicate (w - length ds) 48 ++ ds = hex_fixed ten w n.
Proof.
  revert w n acc. induction fuel as [|fuel IH]; intros w n acc Hn Hw H0; [lia|]. destruct w as [|w]; [lia|].
  cbn [hex_loop hex_fixed]. destruct (Z.ltb_spec n 16).
  - exists [hex_digit ten (n mod 16)]. split; [done|]. split; [cbn; lia|]. cbn [length].
    rewrite Z.div_small, hex_fixed_0 by lia. do 2 f_equal. lia.
  - rewrite Nat2Z.inj_succ, Z.pow_succ_r in Hn by lia.
    destruct (IH w (n / 16) (hex_digit ten (n mod 16) :: acc)) as (ds & -> & Hl & Hd).
    { split; [apply Z.div_pos; lia|apply Z.div_lt_upper_bound; lia]. }
    { lia. }
    { destruct w; [cbn in Hn; lia|lia]. }
    exists (ds ++ [hex_digit ten (n mod 16)]). rewrite <- app_assoc. split; [done|]. rewrite length_app. cbn [length].
    split; [lia|]. rewrite app_assoc. f_equal. rewrite <- Hd. do 2 f_equal. lia.
Qed.

Lemma fmt_pad_hex ten w n :
  0 <= n < 16 ^ Z.of_nat w → (0 < w <= 16)%nat → fmt_pad 48 w (hex_loop ten 16 n []) = hex_fixed ten w n.
Proof.
  intros Hn Hw. destruct (hex_loop_fixed ten 16 w n []) as (ds & E & _ & Hd); [done|lia|lia|].
  unfold fmt_pad. by rewrite E, app_nil_r.
Qed.
