(* ===== verification/Os.v ===== *)
(** * What the sources ask of the C library and of the kernel

    The C library and the kernel are not part of the sources: every call the
    code makes to them is an operation of one of these classes, on an abstract
    world [W].  The models of the components are definitions over these
    classes, so their theorems hold for every implementation.  The [...Laws]
    classes state the documented behaviour some theorems rely on; the file [OsSim]
    implements all of it, and the concrete instances of the
    theorems run on it. *)

From S2P Require Import Prelude.
Open Scope Z_scope.

(** [malloc], [calloc] and [realloc] of [n] bytes: [None] when there is no
    memory, otherwise what the new memory happens to hold. *)
Class OsMem (W : Type) := {
  os_alloc : Z → W → option (list Z) * W
}.

(** The block of [n] bytes [malloc] returns: [n] unspecified bytes. *)
Definition malloc_block (n : Z) (junk : list Z) : list Z :=
  take (Z.to_nat n) (junk ++ replicate (Z.to_nat n) 0).

(** The block [realloc] returns: the old contents, then unspecified bytes. *)
Definition realloc_block (old : list Z) (n : Z) (junk : list Z) : list Z :=
  take (Z.to_nat n) (old ++ malloc_block n junk).

Lemma length_malloc_block n junk : length (malloc_block n junk) = Z.to_nat n.
Proof.
  unfold malloc_block. rewrite length_take, length_app, length_replicate. lia.
Qed.

Lemma length_realloc_block old n junk : length (realloc_block old n junk) = Z.to_nat n.
Proof.
  unfold realloc_block. rewrite length_take, length_app, length_malloc_block. lia.
Qed.

(** [close], [fcntl] with [F_GETFD], [F_SETFD], [F_DUPFD] and
    [F_DUPFD_CLOEXEC] (the boolean). *)
Class OsFd (W : Type) := {
  os_close : Z → W → W;
  os_getfd : Z → W → cres Z * W;
  os_setfd : Z → Z → W → cres unit * W;
  os_dupfd : bool → Z → Z → W → cres Z * W
}.

(** An ancillary message of [struct msghdr]: is it [SOL_SOCKET]/[SCM_RIGHTS],
    and its payload bytes. *)
Record cmsg : Type := mk_cmsg { cmsg_is_rights : bool; cmsg_data : list Z }.

(** [sendmsg] of some bytes with the payload of one [SCM_RIGHTS] message
    ([] for none), and [recvmsg] into a given number of bytes and a given
    number of bytes of ancillary data, with [MSG_CMSG_CLOEXEC] (the boolean)
    or without it; an empty byte string is end of file. *)
Class OsSock (W : Type) := {
  os_sendmsg : Z → list Z → list Z → W → cres Z * W;
  os_recvmsg : bool → Z → Z → Z → W → cres (list Z * list cmsg) * W
}.

(** [socket], [accept4]/[accept], [epoll_create1]/[epoll_create]; the boolean
    asks for a close-on-exec descriptor. *)
Class OsOpen (W : Type) := {
  os_socket : bool → Z → Z → Z → W → cres Z * W;
  os_accept : bool → Z → W → cres Z * W;
  os_epoll_create : bool → W → cres Z * W
}.

(** The descriptors stored in a byte string, four bytes each. *)
Fixpoint fds_decode (bs : list Z) : list Z :=
  match bs with
  | b0 :: b1 :: b2 :: b3 :: bs => i32 (le_combine [b0; b1; b2; b3]) :: fds_decode bs
  | _ => []
  end.

Definition fd_bytes (fd : Z) : list Z := le_split 4 (u32 fd).

(** [CMSG_LEN] of the C library: the aligned 16-byte header plus the payload. *)
Definition CMSG_LEN (n : Z) : Z := 16 + n.

(** The ancillary data fits the buffer it was received in, and descriptors
    come in whole [int]s. *)
Definition cmsgs_ok (ctlspace : Z) (ms : list cmsg) : Prop :=
  Forall (λ m, CMSG_LEN (Z.of_nat (length (cmsg_data m))) <= ctlspace ∧
               (cmsg_is_rights m = true → Z.of_nat (length (cmsg_data m)) mod 4 = 0)) ms.

(** What the theorems say about the outside: the bytes and descriptors the peer
    has been sent so far, the bytes received, and a bound on how many more
    times a call is interrupted by a signal. *)
Class OsGhost (W : Type) := {
  sent_bytes : W → list Z;
  sent_fds : W → list Z;
  rcvd_bytes : W → list Z;
  eintr_budget : W → nat
}.

Section frames.
Context {W : Type} `{OsGhost W}.

(** Nothing is received, and nothing is sent. *)
Definition recv_frame (w w' : W) : Prop :=
  rcvd_bytes w' = rcvd_bytes w ∧ (eintr_budget w' <= eintr_budget w)%nat.
Definition send_frame (w w' : W) : Prop :=
  sent_bytes w' = sent_bytes w ∧ sent_fds w' = sent_fds w ∧
  (eintr_budget w' <= eintr_budget w)%nat.
Definition os_frame (w w' : W) : Prop := recv_frame w w' ∧ send_frame w w'.

#[global] Instance recv_frame_preorder : PreOrder recv_frame.
Proof.
  split; [done|]. unfold recv_frame. intros w1 w2 w3 [? ?] [? ?]. split; [congruence|lia].
Qed.

#[global] Instance send_frame_preorder : PreOrder send_frame.
Proof.
  split; [done|]. unfold send_frame. intros w1 w2 w3 (?&?&?) (?&?&?).
  split_and!; [congruence..|lia].
Qed.

#[global] Instance os_frame_preorder : PreOrder os_frame.
Proof.
  split; [by split|]. intros w1 w2 w3 [? ?] [? ?]. split; by etransitivity.
Qed.
End frames.

(** The documented behaviour of a connected stream socket, and that the other
    calls leave it alone. *)
Class OsSockLaws (W : Type) `{OsMem W, OsFd W, OsSock W, OsGhost W} : Prop := {
  os_sendmsg_law fd bs ctl w :
    match os_sendmsg fd bs ctl w with
    | (Ret n, w') =>
        recv_frame w w' ∧ (bs ≠ [] → 1 <= n) ∧ 0 <= n <= Z.of_nat (length bs) ∧
        sent_bytes w' = sent_bytes w ++ take (Z.to_nat n) bs ∧
        sent_fds w' = sent_fds w ++ fds_decode ctl
    | (Fail e, w') =>
        os_frame w w' ∧ (e = EINTR → eintr_budget w' < eintr_budget w)%nat
    end;
  os_recvmsg_law cloexec fd space ctlspace w :
    0 <= space →
    match os_recvmsg cloexec fd space ctlspace w with
    | (Ret (bs, ms), w') =>
        send_frame w w' ∧ Z.of_nat (length bs) <= space ∧ cmsgs_ok ctlspace ms ∧
        Forall is_byte bs ∧ rcvd_bytes w' = rcvd_bytes w ++ bs
    | (Fail e, w') =>
        os_frame w w' ∧ (e = EINTR → eintr_budget w' < eintr_budget w)%nat
    end;
  os_close_frame fd w : os_frame w (os_close fd w);
  os_alloc_frame n w : os_frame w (snd (os_alloc n w));
  os_setfd_frame fd flags w : os_frame w (snd (os_setfd fd flags w));
  os_getfd_frame fd w : os_frame w (snd (os_getfd fd w))
}.

(** The descriptors that are open, and what the calls do to them. *)
Class OsFdGhost (W : Type) := { open_fds : W → gset Z }.

Class OsFdLaws (W : Type) `{OsMem W, OsFd W, OsFdGhost W} : Prop := {
  os_dupfd_law cloexec fd minfd w :
    match os_dupfd cloexec fd minfd w with
    | (Ret d, w') => 0 <= d < 2 ^ 31 ∧ d ∉ open_fds w ∧ open_fds w' = {[d]} ∪ open_fds w
    | (Fail _, w') => open_fds w' = open_fds w
    end;
  os_close_law fd w : open_fds (os_close fd w) = open_fds w ∖ {[fd]};
  os_alloc_fds n w : open_fds (snd (os_alloc n w)) = open_fds w;
  os_getfd_fds fd w : open_fds (snd (os_getfd fd w)) = open_fds w;
  os_setfd_fds fd flags w : open_fds (snd (os_setfd fd flags w)) = open_fds w
}.
