(* ===== verification/OsSim.v ===== *)
(** * A simulated operating system

    An executable implementation of the interface of [Os]: memory that is
    available or not, a socket that takes a bounded number of bytes per call,
    delivers a script of batches and is interrupted a given number of times,
    and descriptors that count up.  It satisfies [OsSockLaws], which shows that
    the documented behaviour the theorems assume is consistent, and the
    concrete runs of the models use it. *)

From S2P Require Import Prelude Os.
Open Scope Z_scope.

Record sim : Type := mk_sim {
  sim_sent : list Z;                    (* bytes the peer has been sent *)
  sim_sent_fds : list Z;
  sim_rcvd : list Z;                    (* bytes received so far *)
  sim_script : list (list Z * list cmsg); (* the batches [recvmsg] will return *)
  sim_room : Z;                         (* bytes [sendmsg] takes at a time *)
  sim_eintr : nat;                      (* interruptions still to come *)
  sim_mem : bool;                       (* does [malloc] succeed *)
  sim_fds : list Z;                     (* the open descriptors *)
  sim_closed : list Z                   (* descriptors closed, latest first *)
}.

Definition sim_init : sim := mk_sim [] [] [] [] 4096 0 true [3] [].

Definition sim_use_eintr (w : sim) : sim :=
  mk_sim (sim_sent w) (sim_sent_fds w) (sim_rcvd w) (sim_script w) (sim_room w)
    (sim_eintr w - 1)%nat (sim_mem w) (sim_fds w) (sim_closed w).

Definition sim_send (bs : list Z) (ctl : list Z) (w : sim) : cres Z * sim :=
  if (0 <? Z.of_nat (sim_eintr w)) then (Fail EINTR, sim_use_eintr w)
  else if decide (bs ≠ [] ∧ sim_room w <= 0) then (Fail EAGAIN, w)
  else
    let n := Z.min (Z.max 0 (sim_room w)) (Z.of_nat (length bs)) in
    (Ret n, mk_sim (sim_sent w ++ take (Z.to_nat n) bs) (sim_sent_fds w ++ fds_decode ctl)
              (sim_rcvd w) (sim_script w) (sim_room w) (sim_eintr w) (sim_mem w)
              (sim_fds w) (sim_closed w)).

(** Does an ancillary message fit the space given for them. *)
Definition cmsg_fits (ctlspace : Z) (m : cmsg) : bool :=
  (CMSG_LEN (Z.of_nat (length (cmsg_data m))) <=? ctlspace) &&
  (negb (cmsg_is_rights m) || (Z.of_nat (length (cmsg_data m)) mod 4 =? 0)).

Definition sim_recv (space ctlspace : Z) (w : sim) : cres (list Z * list cmsg) * sim :=
  if (0 <? Z.of_nat (sim_eintr w)) then (Fail EINTR, sim_use_eintr w)
  else
    match sim_script w with
    | [] => (Fail EAGAIN, w)
    | (bs, ms) :: rest =>
        let bs := map (λ b, b mod 256) (take (Z.to_nat space) bs) in
        (Ret (bs, base.filter (λ m, cmsg_fits ctlspace m = true) ms),
         mk_sim (sim_sent w) (sim_sent_fds w) (sim_rcvd w ++ bs) rest (sim_room w)
           (sim_eintr w) (sim_mem w) (sim_fds w) (sim_closed w))
    end.

(** A new descriptor, above every open one. *)
Definition sim_open (w : sim) : cres Z * sim :=
  let fd := foldr Z.max 0 (sim_fds w) + 1 in
  if fd <? 2 ^ 31 then
    (Ret fd,
     mk_sim (sim_sent w) (sim_sent_fds w) (sim_rcvd w) (sim_script w) (sim_room w)
       (sim_eintr w) (sim_mem w) (fd :: sim_fds w) (sim_closed w))
  else (Fail EOTHER, w).

#[export] Instance sim_os_mem : OsMem sim := {|
  os_alloc _ w := (if sim_mem w then Some [] else None, w)
|}.

#[export] Instance sim_os_fd : OsFd sim := {|
  os_close fd w :=
    mk_sim (sim_sent w) (sim_sent_fds w) (sim_rcvd w) (sim_script w) (sim_room w)
      (sim_eintr w) (sim_mem w) (base.filter (λ x, x ≠ fd) (sim_fds w)) (fd :: sim_closed w);
  os_getfd _ w := (Ret 0, w);
  os_setfd _ _ w := (Ret tt, w);
  os_dupfd _ _ _ w := sim_open w
|}.

#[export] Instance sim_os_sock : OsSock sim := {|
  os_sendmsg _ bs ctl w := sim_send bs ctl w;
  os_recvmsg _ _ space ctlspace w := sim_recv space ctlspace w
|}.

#[export] Instance sim_os_open : OsOpen sim := {|
  os_socket _ _ _ _ w := sim_open w;
  os_accept _ _ w := sim_open w;
  os_epoll_create _ w := sim_open w
|}.

Lemma filter_cmsgs_ok ctlspace ms :
  cmsgs_ok ctlspace (base.filter (λ m, cmsg_fits ctlspace m = true) ms).
Proof.
  unfold cmsgs_ok. apply Forall_forall. intros m [Hm _]%list_elem_of_filter.
  unfold cmsg_fits in Hm. zbool; split; try done. congruence.
Qed.

#[export] Instance sim_os_ghost : OsGhost sim := {|
  sent_bytes := sim_sent;
  sent_fds := sim_sent_fds;
  rcvd_bytes := sim_rcvd;
  eintr_budget := sim_eintr
|}.

Lemma sim_use_eintr_frame w : os_frame w (sim_use_eintr w).
Proof. split; split_and!; cbn -[Nat.sub]; (done || lia). Qed.

#[export] Instance sim_sock_laws : OsSockLaws sim.
Proof.
  split; try done.
  - intros fd bs ctl w. cbn [os_sendmsg sim_os_sock]. unfold sim_send.
    destruct (0 <? _) eqn:He; zbool.
    { split; [apply sim_use_eintr_frame|]. intros _. cbn -[Nat.sub]. lia. }
    destruct (decide (bs ≠ [] ∧ _)) as [|Hne]; [by split|]. cbn. split_and!; try done; try lia.
    intros Hbs. destruct (decide (sim_room w <= 0)); [tauto|].
    destruct bs; [done|]. cbn [length]. lia.
  - intros cloexec fd space ctlspace w Hsp. cbn [os_recvmsg sim_os_sock]. unfold sim_recv.
    destruct (0 <? _) eqn:He; zbool.
    { split; [apply sim_use_eintr_frame|]. intros _. cbn -[Nat.sub]. lia. }
    destruct (sim_script w) as [|[bs ms] rest]; [by split|].
    split_and!; try done; [rewrite length_map, length_take; lia|apply filter_cmsgs_ok|].
    apply Forall_map, Forall_true. intros b. by apply Z.mod_pos_bound.
Qed.

#[export] Instance sim_os_fd_ghost : OsFdGhost sim := {|
  open_fds w := list_to_set (sim_fds w)
|}.

Lemma sim_fresh_above l x : x ∈ l → x <= foldr Z.max 0 l.
Proof.
  induction l as [|y l IH]; [by intros ?%not_elem_of_nil|].
  intros [->|Hx]%elem_of_cons; cbn; [lia|]. specialize (IH Hx). lia.
Qed.

Lemma sim_fresh_nonneg l : 0 <= foldr Z.max 0 l.
Proof. induction l as [|y l IH]; cbn; lia. Qed.

#[export] Instance sim_fd_laws : OsFdLaws sim.
Proof.
  split; try done.
  - intros cloexec fd minfd w. cbn [os_dupfd sim_os_fd]. unfold sim_open.
    destruct (_ <? 2 ^ 31) eqn:E; zbool; [|done]. pose proof (sim_fresh_nonneg (sim_fds w)). split_and!; [lia|lia|..].
    + intros Hin%elem_of_list_to_set%sim_fresh_above. lia.
    + done.
  - intros fd w. apply set_eq. intros x. cbn [open_fds sim_os_fd_ghost os_close sim_os_fd sim_fds].
    rewrite elem_of_difference, !elem_of_list_to_set, list_elem_of_filter. set_solver.
Qed.
