(* ===== verification/WlOs.v ===== *)
(** * The close-on-exec wrappers of wayland-os.c

    Models wayland/build/src/wayland-os.c: each wrapper first asks the kernel
    for a close-on-exec descriptor and, on a kernel that answers [EINVAL] (or
    [ENOSYS] for [accept4]), falls back to setting [FD_CLOEXEC] afterwards,
    closing the descriptor when that fails. *)

From S2P Require Import Prelude Os.
Open Scope Z_scope.

Definition FD_CLOEXEC : Z := 1.

Section wl_os.
Context {W : Type} `{OsFd W} `{OsSock W} `{OsOpen W}.

Definition set_cloexec_or_close (fd : Z) (w : W) : cres Z * W :=
  if fd =? -1 then (Fail EOTHER, w)
  else
    let '(flags, w) := os_getfd fd w in
    match flags with
    | Fail e => (Fail e, os_close fd w)
    | Ret flags =>
        let '(r, w) := os_setfd fd (Z.lor flags FD_CLOEXEC) w in
        match r with
        | Fail e => (Fail e, os_close fd w)
        | Ret _ => (Ret fd, w)
        end
    end.

(** [fd = ...; return set_cloexec_or_close(fd)], for the result of a call. *)
Definition cloexec_result (r : cres Z * W) : cres Z * W :=
  match r with
  | (Ret fd, w) => set_cloexec_or_close fd w
  | (Fail e, w) => (Fail e, w)
  end.

Definition wl_os_socket_cloexec (domain type protocol : Z) (w : W) : cres Z * W :=
  match os_socket true domain type protocol w with
  | (Fail EINVAL, w) => cloexec_result (os_socket false domain type protocol w)
  | r => r
  end.

Definition wl_os_dupfd_cloexec (fd minfd : Z) (w : W) : cres Z * W :=
  match os_dupfd true fd minfd w with
  | (Fail EINVAL, w) => cloexec_result (os_dupfd false fd minfd w)
  | r => r
  end.

Definition wl_os_epoll_create_cloexec (w : W) : cres Z * W :=
  match os_epoll_create true w with
  | (Fail EINVAL, w) => cloexec_result (os_epoll_create false w)
  | r => r
  end.

Definition wl_os_accept_cloexec (sockfd : Z) (w : W) : cres Z * W :=
  match os_accept true sockfd w with
  | (Fail ENOSYS, w) => cloexec_result (os_accept false sockfd w)
  | r => r
  end.

(** [*fd = set_cloexec_or_close( *fd)] over the payload of one message. *)
Fixpoint cloexec_payload (bs : list Z) (w : W) : list Z * W :=
  match bs with
  | b0 :: b1 :: b2 :: b3 :: bs =>
      let '(r, w) := set_cloexec_or_close (i32 (le_combine [b0; b1; b2; b3])) w in
      let '(bs, w) := cloexec_payload bs w in
      (fd_bytes (match r with Ret fd => fd | Fail _ => -1 end) ++ bs, w)
  | bs => (bs, w)
  end.

Fixpoint cloexec_cmsgs (ms : list cmsg) (w : W) : list cmsg * W :=
  match ms with
  | [] => ([], w)
  | m :: ms =>
      if cmsg_is_rights m then
        let '(d, w) := cloexec_payload (cmsg_data m) w in
        let '(ms, w) := cloexec_cmsgs ms w in
        (mk_cmsg true d :: ms, w)
      else
        let '(ms, w) := cloexec_cmsgs ms w in
        (m :: ms, w)
  end.

Definition recvmsg_cloexec_fallback (sockfd space ctlspace : Z) (w : W)
    : cres (list Z * list cmsg) * W :=
  match os_recvmsg false sockfd space ctlspace w with
  | (Fail e, w) => (Fail e, w)
  | (Ret (bs, ms), w) =>
      let '(ms, w) := cloexec_cmsgs ms w in
      (Ret (bs, ms), w)
  end.

Definition wl_os_recvmsg_cloexec (sockfd space ctlspace : Z) (w : W)
    : cres (list Z * list cmsg) * W :=
  match os_recvmsg true sockfd space ctlspace w with
  | (Fail EINVAL, w) => recvmsg_cloexec_fallback sockfd space ctlspace w
  | r => r
  end.
End wl_os.

(** ** The wrapper of [recvmsg] keeps the socket's promises *)

Section recv.
Context {W : Type} `{OsSockLaws W}.

Lemma set_cloexec_frame fd (w : W) r w' :
  set_cloexec_or_close fd w = (r, w') → os_frame w w'.
Proof.
  unfold set_cloexec_or_close. case_step; intros Heq; [by simplify_eq|].
  pose proof (os_getfd_frame fd w) as Hget. destruct (os_getfd fd w) as [[flags|e] w1];
    cbn in Hget.
  - pose proof (os_setfd_frame fd (Z.lor flags FD_CLOEXEC) w1) as Hset.
    destruct (os_setfd fd (Z.lor flags FD_CLOEXEC) w1) as [[|e] w2]; cbn in Hset;
      simplify_eq; repeat (etransitivity; [done|]); [done|apply os_close_frame].
  - simplify_eq. etransitivity; [done|]. apply os_close_frame.
Qed.

Lemma cloexec_payload_frame bs (w : W) bs' w' :
  cloexec_payload bs w = (bs', w') → length bs' = length bs ∧ os_frame w w'.
Proof.
  remember (length bs) as n eqn:Hn. revert bs w bs' Hn.
  induction (Nat.lt_wf_0 n) as [n _ IH]. intros bs w bs' ->.
  destruct bs as [|b0 [|b1 [|b2 [|b3 bs]]]]; try (intros [= <- <-]; by split).
  cbn [cloexec_payload]. destruct (set_cloexec_or_close _ w) as [r w1] eqn:Hset.
  destruct (cloexec_payload bs w1) as [bs1 w2] eqn:Hrec. intros [= <- <-].
  apply set_cloexec_frame in Hset.
  apply (IH (length bs)) in Hrec as [Hl Hf]; [|simpl; lia|done].
  split; [|by etransitivity]. cbn. lia.
Qed.

Lemma cloexec_cmsgs_frame ctl ms (w : W) ms' w' :
  cmsgs_ok ctl ms → cloexec_cmsgs ms w = (ms', w') → cmsgs_ok ctl ms' ∧ os_frame w w'.
Proof.
  intros Hms. revert w ms'. induction Hms as [|m ms [Hm1 Hm2] Hms IH]; intros w ms'; cbn.
  { intros [= <- <-]. by split; [constructor|]. }
  destruct (cmsg_is_rights m) eqn:Hr.
  - destruct (cloexec_payload _ w) as [d w1] eqn:Hp.
    destruct (cloexec_cmsgs ms w1) as [ms1 w2] eqn:Hrec. intros [= <- <-].
    apply cloexec_payload_frame in Hp as [Hl Hf]. apply IH in Hrec as [? ?].
    split; [|by etransitivity]. constructor; [|done]. cbn. rewrite Hl. auto.
  - destruct (cloexec_cmsgs ms w) as [ms1 w2] eqn:Hrec. intros [= <- <-].
    apply IH in Hrec as [? ?]. split; [|done]. constructor; [|done]. split; [done|].
    congruence.
Qed.

(** The wrapper behaves as [recvmsg] does, also where it falls back to
    setting the flag on each received descriptor. *)
Lemma wl_os_recvmsg_cloexec_spec fd space ctl (w : W) :
  0 <= space →
  match wl_os_recvmsg_cloexec fd space ctl w with
  | (Ret (bs, ms), w') =>
      send_frame w w' ∧ Z.of_nat (length bs) <= space ∧ cmsgs_ok ctl ms ∧
      Forall is_byte bs ∧ rcvd_bytes w' = rcvd_bytes w ++ bs
  | (Fail e, w') =>
      os_frame w w' ∧ (e = EINTR → eintr_budget w' < eintr_budget w)%nat
  end.
Proof.
  intros Hsp. unfold wl_os_recvmsg_cloexec.
  pose proof (os_recvmsg_law true fd space ctl w Hsp) as Hlaw.
  destruct (os_recvmsg true fd space ctl w) as [[[bs ms]|e] w1]; [done|].
  destruct (decide (e = EINVAL)) as [->|]; [|by destruct e].
  destruct Hlaw as [[[Hrc Hb] Hs] _]. unfold recvmsg_cloexec_fallback.
  pose proof (os_recvmsg_law false fd space ctl w1 Hsp) as Hlaw.
  destruct (os_recvmsg false fd space ctl w1) as [[[bs ms]|e] w2].
  - destruct Hlaw as (?&?&?&?&Hrc2). destruct (cloexec_cmsgs ms w2) as [ms' w3] eqn:Hc.
    apply (cloexec_cmsgs_frame ctl) in Hc as [? [[Hrc3 ?] ?]]; [|done]. split_and!; try done.
    + do 2 (etransitivity; [done|]). done.
    + by rewrite Hrc3, Hrc2, Hrc.
  - destruct Hlaw as [Hf Hb2]. split; [transitivity w1; [by split|done]|].
    intros ->. specialize (Hb2 eq_refl). lia.
Qed.
End recv.

(** ** No wrapper leaks a descriptor *)

Section dup.
Context {W : Type} `{OsFdLaws W}.

(** The descriptor is kept, or closed and reported. *)
Lemma set_cloexec_fds fd (w : W) :
  fd ≠ -1 →
  match set_cloexec_or_close fd w with
  | (Ret d, w') => d = fd ∧ open_fds w' = open_fds w
  | (Fail _, w') => open_fds w' = open_fds w ∖ {[fd]}
  end.
Proof.
  intros Hfd. unfold set_cloexec_or_close. rewrite (proj2 (Z.eqb_neq _ _)) by done.
  pose proof (os_getfd_fds fd w) as Hget. destruct (os_getfd fd w) as [[flags|e] w1]; cbn in Hget.
  - pose proof (os_setfd_fds fd (Z.lor flags FD_CLOEXEC) w1) as Hset.
    destruct (os_setfd fd (Z.lor flags FD_CLOEXEC) w1) as [[|e] w2]; cbn in Hset.
    + split; congruence.
    + rewrite os_close_law. congruence.
  - rewrite os_close_law. congruence.
Qed.

Lemma wl_os_dupfd_cloexec_spec fd minfd (w : W) :
  match wl_os_dupfd_cloexec fd minfd w with
  | (Ret d, w') => 0 <= d < 2 ^ 31 ∧ d ∉ open_fds w ∧ open_fds w' = {[d]} ∪ open_fds w
  | (Fail _, w') => open_fds w' = open_fds w
  end.
Proof.
  unfold wl_os_dupfd_cloexec. pose proof (os_dupfd_law true fd minfd w) as Hlaw.
  destruct (os_dupfd true fd minfd w) as [[d|e] w1]; [done|].
  destruct (decide (e = EINVAL)) as [->|]; [|by destruct e].
  pose proof (os_dupfd_law false fd minfd w1) as Hlaw2. rewrite Hlaw in Hlaw2.
  destruct (os_dupfd false fd minfd w1) as [[d|e] w2]; cbn [cloexec_result]; [|done].
  destruct Hlaw2 as (Hd&Hni&Ho). pose proof (set_cloexec_fds d w2) as Hc.
  destruct (set_cloexec_or_close d w2) as [[d'|e] w3].
  - destruct Hc as [-> ->]; [lia|]. done.
  - rewrite Hc by lia. set_solver.
Qed.
End dup.
