(* ===== verification/WlRing.v ===== *)
(** * The ring buffers of a Wayland connection

    Models [struct wl_ring_buffer] and its operations
    (wayland/build/src/connection.c, lines 48-294, 333-351 and 389-442): the
    power-of-two ring with free-running 64-bit cursors, its growth and shrink
    policy, the scatter/gather descriptors handed to the socket, and the
    file-descriptor flavour of the ring.  The abstract view of a ring is the
    list of bytes [ring_contents]; the lemmas say what each operation does to
    that list. *)

From S2P Require Import Prelude Os.
Open Scope Z_scope.

(** ** Data and operations *)

Record wl_ring_buffer : Type := mk_ring {
  rb_data : list Z;          (* the block [data] points to; [] for NULL *)
  rb_head : Z;               (* size_t *)
  rb_tail : Z;               (* size_t *)
  rb_size_bits : Z;          (* uint32_t *)
  rb_max_size_bits : Z       (* uint32_t, 0 for unlimited *)
}.

Definition rb_set_data (d : list Z) (b : wl_ring_buffer) : wl_ring_buffer :=
  mk_ring d (rb_head b) (rb_tail b) (rb_size_bits b) (rb_max_size_bits b).
Definition rb_set_head (h : Z) (b : wl_ring_buffer) : wl_ring_buffer :=
  mk_ring (rb_data b) h (rb_tail b) (rb_size_bits b) (rb_max_size_bits b).
Definition rb_set_tail (t : Z) (b : wl_ring_buffer) : wl_ring_buffer :=
  mk_ring (rb_data b) (rb_head b) t (rb_size_bits b) (rb_max_size_bits b).
Definition rb_set_max (m : Z) (b : wl_ring_buffer) : wl_ring_buffer :=
  mk_ring (rb_data b) (rb_head b) (rb_tail b) (rb_size_bits b) m.

Ltac rb_simpl :=
  cbn [rb_data rb_head rb_tail rb_size_bits rb_max_size_bits
       rb_set_data rb_set_head rb_set_tail rb_set_max].

(** A zero-initialised ring ([zalloc]). *)
Definition ring_zero : wl_ring_buffer := mk_ring [] 0 0 0 0.

Definition WL_BUFFER_DEFAULT_SIZE_POT : Z := 12.
Definition WL_BUFFER_DEFAULT_MAX_SIZE : Z := Z.shiftl 1 WL_BUFFER_DEFAULT_SIZE_POT.
Definition MAX_FDS_OUT : Z := 28.

Definition CLEN : Z := CMSG_LEN (MAX_FDS_OUT * sizeof_int32).

Definition div_roundup (n a : Z) : Z := u32 (u64 (n + (a - 1)) / a).

Definition size_pot (size_bits : Z) : option Z :=
  if size_bits <? 8 * sizeof_size_t then Some (Z.shiftl 1 size_bits) else None.

Definition ring_buffer_capacity (b : wl_ring_buffer) : option Z :=
  size_pot (rb_size_bits b).

Definition ring_buffer_mask (b : wl_ring_buffer) (i : Z) : option Z :=
  c ← ring_buffer_capacity b;
  Some (Z.land i (u64 (c - 1))).

Definition ring_buffer_size (b : wl_ring_buffer) : Z :=
  u64 (rb_head b - rb_tail b).

Definition ring_buffer_put (b : wl_ring_buffer) (data : list Z) : option wl_ring_buffer :=
  let count := Z.of_nat (length data) in
  if count =? 0 then Some b
  else
    head ← ring_buffer_mask b (rb_head b);
    cap ← ring_buffer_capacity b;
    d ← (if u64 (head + count) <=? cap then
           write_range (rb_data b) head data
         else
           let size := u64 (cap - head) in
           first ← read_range data 0 size;
           rest ← read_range data size (u64 (count - size));
           d ← write_range (rb_data b) head first;
           write_range d 0 rest);
    Some (rb_set_head (u64 (rb_head b + count)) (rb_set_data d b)).

(** An [iovec] into the ring: offset from [b->data] and length. *)
Definition iovec : Type := Z * Z.

Definition ring_buffer_put_iov (b : wl_ring_buffer) : option (list iovec) :=
  head ← ring_buffer_mask b (rb_head b);
  tail ← ring_buffer_mask b (rb_tail b);
  cap ← ring_buffer_capacity b;
  if head <? tail then Some [(head, tail - head)]
  else if tail =? 0 then Some [(head, cap - head)]
  else Some [(head, cap - head); (0, tail)].

Definition ring_buffer_get_iov (b : wl_ring_buffer) : option (list iovec) :=
  head ← ring_buffer_mask b (rb_head b);
  tail ← ring_buffer_mask b (rb_tail b);
  cap ← ring_buffer_capacity b;
  if tail <? head then Some [(tail, head - tail)]
  else if head =? 0 then Some [(tail, cap - tail)]
  else Some [(tail, cap - tail); (0, head)].

Definition ring_buffer_copy (b : wl_ring_buffer) (count : Z) : option (list Z) :=
  if count =? 0 then Some []
  else
    tail ← ring_buffer_mask b (rb_tail b);
    cap ← ring_buffer_capacity b;
    if u64 (tail + count) <=? cap then read_range (rb_data b) tail count
    else
      let size := u64 (cap - tail) in
      first ← read_range (rb_data b) tail size;
      rest ← read_range (rb_data b) 0 (u64 (count - size));
      Some (first ++ rest).

Definition ring_buffer_tail (b : wl_ring_buffer) : option Z :=
  ring_buffer_mask b (rb_tail b).

(** The [while] loop of [get_max_size_bits_for_size]; 64 iterations are enough
    because the loop stops at [8 * sizeof(size_t)]. *)
Fixpoint max_size_bits_loop (fuel : nat) (bits buffer_size : Z) : option Z :=
  match fuel with
  | O => None
  | S fuel =>
      if bits <? 8 * sizeof_size_t then
        p ← size_pot bits;
        if p <? buffer_size then max_size_bits_loop fuel (bits + 1) buffer_size
        else Some bits
      else Some bits
  end.

Definition get_max_size_bits_for_size (buffer_size : Z) : option Z :=
  if buffer_size =? 0 then Some 0
  else max_size_bits_loop 64 WL_BUFFER_DEFAULT_SIZE_POT buffer_size.

Definition ring_buffer_get_bits_for_size (b : wl_ring_buffer) (net_size : Z) : option Z :=
  m ← get_max_size_bits_for_size net_size;
  let m := if m <? WL_BUFFER_DEFAULT_SIZE_POT then WL_BUFFER_DEFAULT_SIZE_POT else m in
  Some (if (0 <? rb_max_size_bits b) && (rb_max_size_bits b <? m)
        then rb_max_size_bits b else m).

Definition ring_buffer_is_max_size_reached (b : wl_ring_buffer) : option bool :=
  let net_size := u64 (ring_buffer_size b + 1) in
  size_bits ← ring_buffer_get_bits_for_size b net_size;
  p ← size_pot size_bits;
  Some (p <=? net_size).

Section ring_os.
Context {W : Type} `{OsMem W} `{OsFd W}.

Definition ring_buffer_allocate (b : wl_ring_buffer) (size_bits : Z) (w : W)
    : option (cres unit * wl_ring_buffer * W) :=
  p ← size_pot size_bits;
  match os_alloc p w with
  | (None, w) => Some (Fail ENOMEM, b, w)
  | (Some junk, w) =>
      c ← ring_buffer_copy b (ring_buffer_size b);
      new_data ← write_range (malloc_block p junk) 0 c;
      Some (Ret tt,
            mk_ring new_data (ring_buffer_size b) 0 (u32 size_bits) (rb_max_size_bits b),
            w)
  end.

Definition ring_buffer_ensure_space (b : wl_ring_buffer) (count : Z) (w : W)
    : option (cres unit * wl_ring_buffer * W) :=
  let net_size := u64 (ring_buffer_size b + count) in
  size_bits ← ring_buffer_get_bits_for_size b net_size;
  p ← size_pot size_bits;
  if p <? net_size then Some (Fail E2BIG, b, w)
  else if size_bits =? rb_size_bits b then Some (Ret tt, b, w)
  else ring_buffer_allocate b size_bits w.

(** The [for] loop of [ring_buffer_close_fds]: [p] is the read offset. *)
Fixpoint ring_buffer_close_fds_loop (n : nat) (data : list Z) (size p : Z) (w : W)
    : option W :=
  match n with
  | O => Some w
  | S n =>
      let p := if size <=? p then 0 else p in
      fd ← read_range data p sizeof_int32;
      ring_buffer_close_fds_loop n data size (p + sizeof_int32)
        (os_close (i32 (le_combine fd)) w)
  end.

Definition ring_buffer_close_fds (b : wl_ring_buffer) (count : Z) (w : W) : option W :=
  size ← ring_buffer_capacity b;
  tail ← ring_buffer_mask b (rb_tail b);
  ring_buffer_close_fds_loop (Z.to_nat count) (rb_data b) size tail w.

Definition close_fds (b : wl_ring_buffer) (max : Z) (w : W) : option (wl_ring_buffer * W) :=
  let size := ring_buffer_size b in
  if size =? 0 then Some (b, w)
  else
    let count := i32 (size / sizeof_int32) in
    let count := if (0 <? max) && (max <? count) then max else count in
    w ← ring_buffer_close_fds b count w;
    Some (rb_set_tail (u64 (rb_tail b + u64 (count * sizeof_int32))) b, w).

(** The control message for a flush: the copied descriptors and [*clen]. *)
Definition build_cmsg (b : wl_ring_buffer) : option (list Z * Z) :=
  let size := ring_buffer_size b in
  let size := if MAX_FDS_OUT * sizeof_int32 <? size
              then MAX_FDS_OUT * sizeof_int32 else size in
  if 0 <? size then
    d ← ring_buffer_copy b size;
    Some (d, CMSG_LEN size)
  else Some ([], 0).

(** [close] each of the [int]s of a control message payload. *)
Fixpoint close_payload (n : nat) (data : list Z) (w : W) : W :=
  match n with
  | O => w
  | S n => close_payload n (drop 4 data) (os_close (i32 (le_combine (take 4 data))) w)
  end.

Fixpoint decode_cmsg_loop (b : wl_ring_buffer) (msgs : list cmsg) (overflow : bool) (w : W)
    : option (bool * wl_ring_buffer * W) :=
  match msgs with
  | [] => Some (overflow, b, w)
  | m :: msgs =>
      if negb (cmsg_is_rights m) then decode_cmsg_loop b msgs overflow w
      else
        let size := Z.of_nat (length (cmsg_data m)) in
        '(r, b, w) ← ring_buffer_ensure_space b size w;
        match r with
        | Ret _ =>
            if overflow then
              decode_cmsg_loop b msgs true
                (close_payload (Z.to_nat (size / sizeof_int32)) (cmsg_data m) w)
            else
              b ← ring_buffer_put b (cmsg_data m);
              decode_cmsg_loop b msgs overflow w
        | Fail _ =>
            decode_cmsg_loop b msgs true
              (close_payload (Z.to_nat (size / sizeof_int32)) (cmsg_data m) w)
        end
  end.

Definition decode_cmsg (b : wl_ring_buffer) (msgs : list cmsg) (w : W)
    : option (cres unit * wl_ring_buffer * W) :=
  '(overflow, b, w) ← decode_cmsg_loop b msgs false w;
  Some ((if (overflow : bool) then Fail EOVERFLOW else Ret tt), b, w).
End ring_os.

(** ** The abstract view *)

(** The ring read from offset [t]: what [memcpy] in two pieces yields. *)
Definition rot {A} (t : nat) (l : list A) : list A := drop t l ++ take t l.

Definition ring_cap (b : wl_ring_buffer) : Z := 2 ^ rb_size_bits b.

Definition ring_wf (b : wl_ring_buffer) : Prop :=
  0 <= rb_size_bits b < 64 ∧
  Z.of_nat (length (rb_data b)) = ring_cap b ∧
  0 <= rb_head b < 2 ^ 64 ∧
  0 <= rb_tail b < 2 ^ 64 ∧
  0 <= rb_max_size_bits b <= 64 ∧
  ring_buffer_size b <= ring_cap b.

(** The bytes queued in the ring, oldest first. *)
Definition ring_contents (b : wl_ring_buffer) : list Z :=
  take (Z.to_nat (ring_buffer_size b))
    (rot (Z.to_nat (rb_tail b mod ring_cap b)) (rb_data b)).

(** A ring as [zalloc] leaves it: no block yet. *)
Definition ring_null (b : wl_ring_buffer) : Prop :=
  rb_data b = [] ∧ rb_head b = 0 ∧ rb_tail b = 0 ∧ rb_size_bits b = 0 ∧
  0 <= rb_max_size_bits b <= 64.

(** What the socket layer reads through, and writes through, an [iovec] list. *)
Fixpoint gather (d : list Z) (iov : list iovec) : option (list Z) :=
  match iov with
  | [] => Some []
  | (off, len) :: iov =>
      a ← read_range d off len;
      r ← gather d iov;
      Some (a ++ r)
  end.

Fixpoint scatter (d : list Z) (iov : list iovec) (bs : list Z) : option (list Z) :=
  match iov with
  | [] => if decide (bs = []) then Some d else None
  | (off, len) :: iov =>
      d ← write_range d off (take (Z.to_nat len) bs);
      scatter d iov (drop (Z.to_nat len) bs)
  end.

Definition iov_len (iov : list iovec) : Z := foldr (λ v a, snd v + a) 0 iov.

(** ** Arithmetic of the cursors *)

Lemma size_pot_Some k : k < 64 → size_pot k = Some (2 ^ k).
Proof.
  intros. unfold size_pot, sizeof_size_t.
  rewrite (proj2 (Z.ltb_lt _ _)) by lia. by rewrite Z.shiftl_1_l.
Qed.

Lemma ring_cap_pos b : 0 <= rb_size_bits b → 0 < ring_cap b.
Proof. intros. unfold ring_cap. apply Z.pow_pos_nonneg; lia. Qed.

Lemma ring_cap_le b : 0 <= rb_size_bits b < 64 → ring_cap b <= 2 ^ 63.
Proof. intros. unfold ring_cap. apply Z.pow_le_mono_r; lia. Qed.

Lemma ring_cap_divide b : 0 <= rb_size_bits b < 64 → (ring_cap b | 2 ^ 64).
Proof.
  intros. exists (2 ^ (64 - rb_size_bits b)). unfold ring_cap.
  rewrite <- Z.pow_add_r by lia. f_equal. lia.
Qed.

Lemma ring_size_bound b : 0 <= ring_buffer_size b < 2 ^ 64.
Proof. apply u64_bound. Qed.

Section wf.
Context (b : wl_ring_buffer) (Hwf : ring_wf b).

Let T := rb_tail b mod ring_cap b.
Let S := ring_buffer_size b.

Lemma ring_capacity_eq : ring_buffer_capacity b = Some (ring_cap b).
Proof. destruct Hwf as (?&_). apply size_pot_Some. lia. Qed.

Lemma ring_mask_eq i : 0 <= i → ring_buffer_mask b i = Some (i mod ring_cap b).
Proof.
  intros Hi. destruct Hwf as (Hb&_). unfold ring_buffer_mask.
  rewrite ring_capacity_eq. cbn [mbind option_bind].
  pose proof (ring_cap_pos b). pose proof (ring_cap_le b).
  rewrite u64_small by lia. unfold ring_cap at 1.
  replace (2 ^ rb_size_bits b - 1) with (Z.ones (rb_size_bits b))
    by (rewrite Z.ones_equiv; lia).
  rewrite Z.land_ones by lia. done.
Qed.

Lemma ring_bounds :
  0 <= T < ring_cap b ∧ 0 <= S <= ring_cap b ∧ 0 < ring_cap b <= 2 ^ 63.
Proof.
  destruct Hwf as (Hb&_&_&_&_&Hs). pose proof (ring_cap_pos b).
  pose proof (ring_cap_le b). pose proof (ring_size_bound b).
  pose proof (Z.mod_pos_bound (rb_tail b) (ring_cap b)).
  unfold S, T. lia.
Qed.

(** The head offset follows the tail offset by the size, around the ring. *)
Lemma ring_head_pos :
  rb_head b mod ring_cap b = if T + S <? ring_cap b then T + S else T + S - ring_cap b.
Proof.
  destruct Hwf as (Hb&_&Hh&Ht&_&_).
  assert (rb_head b mod ring_cap b = (rb_tail b + S) mod ring_cap b) as ->.
  { rewrite <- (Z.mod_mod_divide (rb_tail b + S) (2 ^ 64)) by by apply ring_cap_divide.
    f_equal. unfold S, ring_buffer_size, u64.
    rewrite Zplus_mod_idemp_r. replace (rb_tail b + _) with (rb_head b) by lia.
    rewrite Z.mod_small; lia. }
  rewrite <- Zplus_mod_idemp_l. fold T.
  destruct ring_bounds as (?&?&?). case_match; zbool.
  - apply Z.mod_small. lia.
  - rewrite <- (Z.mod_small (T + S - ring_cap b) (ring_cap b)) by lia.
    rewrite Zminus_mod, Z.mod_same, Z.sub_0_r, Z.mod_mod by lia. done.
Qed.

Lemma ring_data_length : length (rb_data b) = Z.to_nat (ring_cap b).
Proof. destruct Hwf as (_&Hl&_). lia. Qed.
End wf.

(** ** Circular reads and writes *)

Lemma length_rot {A} t (l : list A) : (t <= length l)%nat → length (rot t l) = length l.
Proof. intros. unfold rot. rewrite length_app, length_drop, length_take. lia. Qed.

Lemma lookup_rot {A} t (l : list A) i :
  (t <= length l)%nat → (i < length l)%nat →
  rot t l !! i =
    l !! (if decide (t + i < length l)%nat then t + i else t + i - length l)%nat.
Proof.
  intros. unfold rot. case_decide.
  - rewrite lookup_app_l by (rewrite length_drop; lia). by rewrite lookup_drop.
  - rewrite lookup_app_r by (rewrite length_drop; lia).
    rewrite lookup_take_lt by (rewrite length_drop; lia). rewrite length_drop. f_equal. lia.
Qed.

(** The two-piece [memcpy] into the ring at offset [h]. *)
Definition circ_write {A} (d : list A) (h : nat) (src : list A) : list A :=
  if decide (h + length src <= length d)%nat then splice d h src
  else splice (splice d h (take (length d - h) src)) 0 (drop (length d - h) src).

Lemma length_circ_write {A} (d : list A) h src :
  (h <= length d)%nat → (length src <= length d)%nat →
  length (circ_write d h src) = length d.
Proof.
  intros. unfold circ_write. case_decide; rewrite !length_splice; try done;
    rewrite ?length_take, ?length_drop; try lia.
  rewrite length_splice; rewrite ?length_take; lia.
Qed.

Lemma lookup_circ_write {A} (d : list A) h src j :
  (h < length d)%nat → (length src <= length d)%nat → (j < length d)%nat →
  circ_write d h src !! j =
    let k := (if decide (h <= j) then j - h else j + length d - h)%nat in
    if decide (k < length src)%nat then src !! k else d !! j.
Proof.
  intros Hh Hs Hj. cbn zeta. unfold circ_write. case_decide as Hfit.
  - rewrite lookup_splice by lia. repeat case_decide; try done; lia.
  - rewrite lookup_splice.
    2: { rewrite length_splice; rewrite ?length_drop, ?length_take; lia. }
    rewrite length_drop. rewrite lookup_splice by (rewrite length_take; lia).
    rewrite length_take, lookup_drop.
    repeat case_decide; try lia; try done.
    + f_equal. lia.
    + rewrite lookup_take_lt by lia. done.
Qed.

(** Writing at the head leaves the queued cells alone and appends the source. *)
Lemma rot_circ_write {A} (d : list A) t s src :
  (t < length d)%nat → (s + length src <= length d)%nat → (0 < length src)%nat →
  take (s + length src) (rot t (circ_write d
      (if decide (t + s < length d) then t + s else t + s - length d)%nat src)) =
  take s (rot t d) ++ src.
Proof.
  intros Ht Hs Hpos. set (h := (if decide _ then _ else _)%nat).
  assert (h < length d)%nat by (subst h; case_decide; lia).
  assert (length (circ_write d h src) = length d) as Hlen
    by (apply length_circ_write; lia).
  apply list_eq. intros i. destruct (decide (i < s + length src)%nat) as [Hi|Hi].
  2: { rewrite lookup_take_ge by lia. symmetry. apply lookup_ge_None_2.
       rewrite length_app, length_take, length_rot; lia. }
  rewrite lookup_take_lt by lia. rewrite lookup_rot by lia. rewrite Hlen.
  rewrite lookup_circ_write by (try case_decide; lia). cbn zeta.
  destruct (decide (i < s)%nat).
  - rewrite lookup_app_l by (rewrite length_take, length_rot; lia).
    rewrite lookup_take_lt by lia. rewrite lookup_rot by lia.
    rewrite decide_False; [done|]. subst h. repeat case_decide; lia.
  - rewrite lookup_app_r by (rewrite length_take, length_rot; lia).
    rewrite length_take, length_rot by lia. rewrite Nat.min_l by lia.
    rewrite decide_True by (subst h; repeat case_decide; lia).
    f_equal. subst h. repeat case_decide; lia.
Qed.

(** ** Operations on the contents *)

Section ops.
Context (b : wl_ring_buffer) (Hwf : ring_wf b).

Lemma length_ring_contents : length (ring_contents b) = Z.to_nat (ring_buffer_size b).
Proof.
  pose proof (ring_bounds b Hwf) as (?&?&?). pose proof (ring_data_length b Hwf).
  unfold ring_contents. rewrite length_take, length_rot; lia.
Qed.

Lemma ring_copy_spec n :
  0 <= n <= ring_buffer_size b →
  ring_buffer_copy b n = Some (take (Z.to_nat n) (ring_contents b)).
Proof.
  intros Hn. pose proof (ring_bounds b Hwf) as (?&?&?).
  pose proof (ring_data_length b Hwf) as Hlen.
  destruct Hwf as (_&_&_&?&_). unfold ring_buffer_copy.
  case_match; zbool; [subst; done|].
  rewrite ring_mask_eq by (done || lia). cbn [mbind option_bind].
  rewrite ring_capacity_eq by done. cbn [mbind option_bind].
  set (t := rb_tail b mod ring_cap b) in *.
  unfold ring_contents. fold t. rewrite take_take, Nat.min_l by lia.
  unfold rot. rewrite u64_small by lia. case_match; zbool.
  - rewrite read_range_Some by lia. rewrite take_app_le; [done|].
    rewrite length_drop. lia.
  - rewrite (u64_small (ring_cap b - t)) by lia. rewrite u64_small by lia.
    rewrite !read_range_Some by lia. cbn [mbind option_bind].
    rewrite drop_0. f_equal. rewrite take_app, length_drop. f_equal.
    + rewrite !take_ge by (rewrite length_drop; lia). done.
    + rewrite take_take. f_equal. lia.
Qed.

Lemma ring_put_circ src :
  ring_buffer_size b + Z.of_nat (length src) <= ring_cap b → src ≠ [] →
  ring_buffer_put b src =
    Some (rb_set_head (u64 (rb_head b + Z.of_nat (length src)))
           (rb_set_data (circ_write (rb_data b) (Z.to_nat (rb_head b mod ring_cap b)) src) b)).
Proof.
  intros Hfit Hne. pose proof (ring_bounds b Hwf) as (?&?&?).
  pose proof (ring_data_length b Hwf) as Hlen.
  destruct Hwf as (_&_&?&?&_). unfold ring_buffer_put.
  assert (length src ≠ 0%nat) by (by destruct src).
  rewrite (proj2 (Z.eqb_neq _ _)) by lia.
  rewrite ring_mask_eq by (done || lia). cbn [mbind option_bind].
  rewrite ring_capacity_eq by done. cbn [mbind option_bind].
  pose proof (Z.mod_pos_bound (rb_head b) (ring_cap b)).
  set (h := rb_head b mod ring_cap b) in *.
  rewrite (u64_small (h + Z.of_nat (length src))) by lia. unfold circ_write. case_match; zbool.
  - rewrite write_range_Some by lia. cbn [mbind option_bind].
    rewrite decide_True by lia. done.
  - rewrite (u64_small (ring_cap b - h)) by lia.
    rewrite (u64_small (Z.of_nat (length src) - _)) by lia.
    rewrite !read_range_Some by lia. cbn [mbind option_bind].
    rewrite drop_0. rewrite write_range_Some by (rewrite ?length_take; lia).
    cbn [mbind option_bind]. rewrite write_range_Some.
    2-3: rewrite ?length_splice; rewrite ?length_take, ?length_drop; lia.
    cbn [mbind option_bind]. rewrite decide_False by lia.
    rewrite (take_ge (drop _ _)) by (rewrite length_drop; lia).
    replace (Z.to_nat (ring_cap b - h)) with (length (rb_data b) - Z.to_nat h)%nat by lia.
    done.
Qed.

(** Advancing the head after writing at it appends to the contents. *)
Lemma ring_append src :
  ring_buffer_size b + Z.of_nat (length src) <= ring_cap b → src ≠ [] →
  let b' := rb_set_head (u64 (rb_head b + Z.of_nat (length src)))
    (rb_set_data (circ_write (rb_data b) (Z.to_nat (rb_head b mod ring_cap b)) src) b) in
  ring_wf b' ∧ ring_contents b' = ring_contents b ++ src ∧
  ring_buffer_size b' = ring_buffer_size b + Z.of_nat (length src).
Proof.
  intros Hfit Hne b'. pose proof (ring_bounds b Hwf) as (HT&HS&Hc).
  pose proof (ring_data_length b Hwf) as Hlen. pose proof (ring_head_pos b Hwf) as Hh.
  destruct Hwf as (?&?&?&?&?&?). assert (length src ≠ 0%nat) by by destruct src.
  pose proof (Z.mod_pos_bound (rb_head b) (ring_cap b)).
  assert (ring_buffer_size b' = ring_buffer_size b + Z.of_nat (length src)) as Hsize.
  { unfold ring_buffer_size at 1, b'; rb_simpl. rewrite u64_idemp_sub_l.
    replace (rb_head b + Z.of_nat (length src) - rb_tail b)
      with (rb_head b - rb_tail b + Z.of_nat (length src)) by lia.
    rewrite <- u64_idemp_add_l. fold (ring_buffer_size b). apply u64_small. lia. }
  assert (length (rb_data b') = length (rb_data b)) as Hlen'
    by (unfold b'; rb_simpl; apply length_circ_write; lia).
  split_and!; [|..|done].
  - unfold ring_wf. rewrite Hsize, Hlen'. unfold ring_cap in *. unfold b'; rb_simpl.
    pose proof (u64_bound (rb_head b + Z.of_nat (length src))). lia.
  - unfold ring_contents. rewrite Hsize.
    replace (Z.to_nat (ring_buffer_size b + _))
      with (Z.to_nat (ring_buffer_size b) + length src)%nat by lia.
    change (ring_cap b') with (ring_cap b). unfold b'; rb_simpl. rewrite <- rot_circ_write by lia.
    do 3 f_equal. rewrite Hh. case_match; zbool; case_decide; lia.
Qed.

Lemma ring_put_spec src :
  ring_buffer_size b + Z.of_nat (length src) <= ring_cap b →
  ∃ b', ring_buffer_put b src = Some b' ∧ ring_wf b' ∧
    ring_contents b' = ring_contents b ++ src ∧
    rb_size_bits b' = rb_size_bits b ∧ rb_max_size_bits b' = rb_max_size_bits b.
Proof.
  intros Hfit. destruct (decide (src = [])) as [->|Hne].
  - exists b. rewrite app_nil_r. by split_and!.
  - rewrite ring_put_circ by done. eexists. split; [done|].
    destruct (ring_append src Hfit Hne) as (?&?&?). by split_and!.
Qed.

(** Consuming [n] bytes from the tail drops them from the contents. *)
Lemma ring_consume_spec n :
  0 <= n <= ring_buffer_size b →
  let b' := rb_set_tail (u64 (rb_tail b + n)) b in
  ring_wf b' ∧ ring_contents b' = drop (Z.to_nat n) (ring_contents b) ∧
  ring_buffer_size b' = ring_buffer_size b - n.
Proof.
  intros Hn b'. pose proof (ring_bounds b Hwf) as (HT&HS&Hc).
  pose proof (ring_data_length b Hwf) as Hlen.
  destruct Hwf as (?&?&?&?&?&?).
  assert (ring_buffer_size b' = ring_buffer_size b - n) as Hsize.
  { unfold ring_buffer_size at 1, b'; rb_simpl. rewrite u64_idemp_sub_r.
    replace (rb_head b - (rb_tail b + n)) with (rb_head b - rb_tail b - n) by lia.
    rewrite <- u64_idemp_sub_l. fold (ring_buffer_size b). apply u64_small. lia. }
  split_and!; [|..|done].
  - unfold ring_wf. rewrite Hsize. unfold ring_cap in *. unfold b'; rb_simpl.
    pose proof (u64_bound (rb_tail b + n)). lia.
  - unfold ring_contents. rewrite Hsize. change (ring_cap b') with (ring_cap b).
    unfold b'; rb_simpl. set (t := rb_tail b mod ring_cap b) in *.
    assert (u64 (rb_tail b + n) mod ring_cap b = (t + n) mod ring_cap b) as ->.
    { unfold u64. rewrite Z.mod_mod_divide by by apply ring_cap_divide.
      unfold t. by rewrite Zplus_mod_idemp_l. }
    assert ((t + n) mod ring_cap b =
            if t + n <? ring_cap b then t + n else t + n - ring_cap b) as ->.
    { case_match; zbool; [apply Z.mod_small; lia|].
      rewrite <- (Z.mod_small (t + n - ring_cap b) (ring_cap b)) by lia.
      rewrite (Zminus_mod (t + n)), Z.mod_same, Z.sub_0_r, Z.mod_mod by lia. done. }
    apply list_eq. intros i. rewrite lookup_drop.
    destruct (decide (i < Z.to_nat (ring_buffer_size b - n))%nat).
    + rewrite !lookup_take_lt by lia. rewrite !lookup_rot by (try case_match; zbool; lia).
      f_equal. repeat case_decide; repeat case_match; zbool; lia.
    + rewrite !lookup_take_ge by lia. done.
Qed.

(** The gather list handed to [sendmsg] reads exactly the contents. *)
Lemma ring_get_iov_spec :
  0 < ring_buffer_size b →
  ∃ iov, ring_buffer_get_iov b = Some iov ∧
    gather (rb_data b) iov = Some (ring_contents b).
Proof.
  intros Hpos. pose proof (ring_bounds b Hwf) as (HT&HS&Hc).
  pose proof (ring_data_length b Hwf) as Hlen. pose proof (ring_head_pos b Hwf) as Hh.
  destruct Hwf as (_&_&?&?&_). unfold ring_buffer_get_iov, ring_contents, rot.
  rewrite !ring_mask_eq by (done || lia). cbn [mbind option_bind].
  rewrite ring_capacity_eq by done. cbn [mbind option_bind].
  set (t := rb_tail b mod ring_cap b) in *. rewrite Hh.
  destruct (Z.ltb_spec (t + ring_buffer_size b) (ring_cap b)).
  { rewrite (proj2 (Z.ltb_lt _ _)) by lia. eexists. split; [done|]. cbn [gather].
    rewrite read_range_Some by lia. cbn [mbind option_bind]. rewrite app_nil_r, take_app_le.
    - do 2 f_equal. lia.
    - rewrite length_drop. lia. }
  rewrite (proj2 (Z.ltb_ge _ _)) by lia.
  rewrite take_app_ge by (rewrite length_drop; lia). rewrite length_drop, take_take.
  case_match; zbool; eexists; (split; [done|]); cbn [gather];
    rewrite !read_range_Some by lia; cbn [mbind option_bind]; rewrite app_nil_r, take_ge
      by (rewrite length_drop; lia).
  - replace (_ `min` _)%nat with 0%nat by lia. by rewrite take_0, app_nil_r.
  - rewrite drop_0. do 3 f_equal. lia.
Qed.

(** Filling the scatter list of [recvmsg] writes the free cells after the
    head, in order, and offers exactly the free space. *)
Lemma ring_put_iov_spec bs :
  ring_buffer_size b < ring_cap b →
  ring_buffer_size b + Z.of_nat (length bs) <= ring_cap b →
  ∃ iov, ring_buffer_put_iov b = Some iov ∧
    iov_len iov = ring_cap b - ring_buffer_size b ∧
    scatter (rb_data b) iov bs =
      Some (circ_write (rb_data b) (Z.to_nat (rb_head b mod ring_cap b)) bs).
Proof.
  intros Hroom Hfit. pose proof (ring_bounds b Hwf) as (HT&HS&Hc).
  pose proof (ring_data_length b Hwf) as Hlen. pose proof (ring_head_pos b Hwf) as Hh.
  destruct Hwf as (_&_&?&?&_). unfold ring_buffer_put_iov.
  rewrite !ring_mask_eq by (done || lia). cbn [mbind option_bind].
  rewrite ring_capacity_eq by done. cbn [mbind option_bind].
  pose proof (Z.mod_pos_bound (rb_head b) (ring_cap b)).
  set (t := rb_tail b mod ring_cap b) in *. set (h := rb_head b mod ring_cap b) in *.
  assert (∀ off len, 0 <= off → Z.of_nat (length bs) <= len →
    off + Z.of_nat (length bs) <= ring_cap b → off = h →
    (d ← write_range (rb_data b) off (take (Z.to_nat len) bs);
     scatter d [] (drop (Z.to_nat len) bs)) = Some (circ_write (rb_data b) (Z.to_nat h) bs))
    as Hone.
  { intros off len ??? ->. rewrite take_ge, drop_ge by lia.
    rewrite write_range_Some by lia. cbn [mbind option_bind scatter].
    rewrite decide_True by done. unfold circ_write. rewrite decide_True by lia. done. }
  assert (h = t + ring_buffer_size b ∧ t + ring_buffer_size b < ring_cap b ∨
          h = t + ring_buffer_size b - ring_cap b ∧ ring_cap b <= t + ring_buffer_size b)
    as Hh' by (rewrite Hh; case_match; zbool; lia).
  clear Hh. destruct (Z.ltb_spec h t); [|destruct (Z.eqb_spec t 0)];
    eexists; (split; [done|]); (split; [unfold iov_len; cbn [foldr snd]; lia|]).
  1,2: apply Hone; lia.
  cbn [scatter]. unfold circ_write.
  destruct (decide (Z.to_nat h + length bs <= length (rb_data b))%nat).
  - rewrite (take_ge bs), (drop_ge bs) by lia. rewrite write_range_Some by lia. cbn [mbind option_bind].
    rewrite take_nil, drop_nil. rewrite write_range_Some by (simpl; lia).
    cbn [mbind option_bind]. rewrite decide_True, splice_nil by done. done.
  - rewrite write_range_Some by (rewrite ?length_take; lia). cbn [mbind option_bind].
    rewrite (take_ge (drop _ _)), (drop_ge (drop _ _)) by (rewrite length_drop; lia).
    rewrite write_range_Some.
    2-3: rewrite ?length_splice; rewrite ?length_take, ?length_drop; lia.
    cbn [mbind option_bind]. rewrite decide_True by done.
    replace (Z.to_nat (ring_cap b - h)) with (length (rb_data b) - Z.to_nat h)%nat by lia.
    done.
Qed.

(** Writing past the head without advancing it leaves the contents alone. *)
Lemma ring_write_free src :
  ring_buffer_size b + Z.of_nat (length src) <= ring_cap b → src ≠ [] →
  let b' := rb_set_data
    (circ_write (rb_data b) (Z.to_nat (rb_head b mod ring_cap b)) src) b in
  ring_wf b' ∧ ring_contents b' = ring_contents b.
Proof.
  intros Hfit Hne b'. destruct (ring_append src Hfit Hne) as (Hwf'&Hcon&Hsz).
  pose proof (length_ring_contents) as HL. pose proof Hwf as (?&?&?&?&?&?).
  split.
  { destruct Hwf' as (_&Hl&_). unfold ring_wf. change (ring_buffer_size b')
      with (ring_buffer_size b). change (ring_cap b') with (ring_cap b) in *.
    unfold b' in *; rb_simpl. split_and!; (done || lia). }
  apply (f_equal (take (Z.to_nat (ring_buffer_size b)))) in Hcon.
  rewrite take_app_le, (take_ge (ring_contents b)) in Hcon by lia. rewrite <- Hcon.
  unfold ring_contents at 2. rewrite Hsz, take_take, Nat.min_l by lia. done.
Qed.
End ops.

(** ** The size policy *)

Lemma max_size_bits_loop_spec fuel bits n :
  0 <= bits <= 64 → 64 - bits < Z.of_nat fuel →
  ∃ r, max_size_bits_loop fuel bits n = Some r ∧ bits <= r <= 64 ∧
    (r < 64 → n <= 2 ^ r) ∧ (r = bits ∨ 2 ^ (r - 1) < n).
Proof.
  revert bits. induction fuel as [|fuel IH]; intros bits Hb Hf; [lia|].
  cbn [max_size_bits_loop]. unfold sizeof_size_t. case_match; zbool.
  2: { exists bits. split_and!; [done|lia..]. }
  rewrite size_pot_Some by lia. cbn [mbind option_bind]. case_match; zbool.
  - destruct (IH (bits + 1)) as (r&->&?&?&Hr); [lia..|].
    exists r. split_and!; [done|lia..|]. right. destruct Hr as [->|]; [|done].
    by replace (bits + 1 - 1) with bits by lia.
  - exists bits. split_and!; [done|lia..].
Qed.

Lemma get_max_size_bits_spec n :
  0 < n <= 2 ^ 63 →
  ∃ r, get_max_size_bits_for_size n = Some r ∧ 12 <= r <= 63 ∧ n <= 2 ^ r ∧
    (r = 12 ∨ 2 ^ (r - 1) < n).
Proof.
  intros Hn. unfold get_max_size_bits_for_size.
  rewrite (proj2 (Z.eqb_neq _ _)) by lia.
  destruct (max_size_bits_loop_spec 64 12 n) as (r&Hr&?&?&Hor); [lia..|].
  exists r. assert (r < 64).
  { destruct Hor as [->|Hlt]; [lia|]. apply (Z.pow_lt_mono_r_iff 2); [lia..|].
    assert (2 ^ r = 2 * 2 ^ (r - 1)).
    { rewrite <- Z.pow_succ_r by lia. f_equal. lia. }
    destruct (decide (r = 64)) as [->|]; [lia|].
    apply Z.pow_lt_mono_r; lia. }
  split_and!; [done|lia..|by destruct Hor; auto].
Qed.

(** The caps [get_max_size_bits_for_size] produces. *)
Definition max_ok (b : wl_ring_buffer) : Prop :=
  rb_max_size_bits b = 0 ∨ 12 <= rb_max_size_bits b <= 64.

(** The number of bits the policy picks: the least that holds [n], 12 at
    least, and the cap at most. *)
Lemma get_bits_exact b n :
  0 <= n <= 2 ^ 63 →
  ∃ m, 12 <= m <= 63 ∧ n <= 2 ^ m ∧ (m = 12 ∨ 2 ^ (m - 1) < n) ∧
    ring_buffer_get_bits_for_size b n =
      Some (if (0 <? rb_max_size_bits b) && (rb_max_size_bits b <? m)
            then rb_max_size_bits b else m).
Proof.
  intros Hn. unfold ring_buffer_get_bits_for_size, WL_BUFFER_DEFAULT_SIZE_POT.
  destruct (decide (n = 0)) as [->|].
  - exists 12. split_and!; (done || lia || by left).
  - destruct (get_max_size_bits_spec n) as (r&->&?&?&?); [lia|].
    exists r. cbn [mbind option_bind]. rewrite (proj2 (Z.ltb_ge r 12)) by lia.
    split_and!; (done || lia).
Qed.

Lemma get_bits_spec b n :
  0 <= n <= 2 ^ 63 → 0 <= rb_max_size_bits b <= 64 →
  ∃ k, ring_buffer_get_bits_for_size b n = Some k ∧ 0 < k < 64 ∧
    (n <= 2 ^ k ∨ (0 < rb_max_size_bits b ∧ k = rb_max_size_bits b)) ∧
    (0 < rb_max_size_bits b → k <= rb_max_size_bits b) ∧ (max_ok b → 12 <= k).
Proof.
  intros Hn Hm. destruct (get_bits_exact b n Hn) as (m&?&?&_&->).
  eexists. split; [done|]. case_step; zbool; split_and!; try lia; intros [|]; lia.
Qed.

(** When [ring_buffer_is_max_size_reached] answers yes: the cap leaves no room
    for a byte more, or the next size is a power of two (also when the ring
    could still grow). *)
Lemma is_max_size_reached_spec b :
  ring_buffer_size b + 1 <= 2 ^ 63 → max_ok b →
  ∃ r, ring_buffer_is_max_size_reached b = Some r ∧
    (r = true ↔ (0 < rb_max_size_bits b ∧ 2 ^ rb_max_size_bits b <= ring_buffer_size b + 1) ∨
                ∃ j, 12 <= j ∧ ring_buffer_size b + 1 = 2 ^ j).
Proof.
  intros Hs Hmax. pose proof (ring_size_bound b). unfold ring_buffer_is_max_size_reached.
  rewrite u64_small by lia. set (n := ring_buffer_size b + 1) in *.
  destruct (get_bits_exact b n) as (m&Hm&Hn&Hmin&->); [lia|]. cbn [mbind option_bind].
  rewrite size_pot_Some by (case_step; zbool; lia). cbn [mbind option_bind].
  eexists. split; [done|]. rewrite Z.leb_le. case_step; zbool.
  - split; [by left|]. intros _. destruct Hmin as [->|Hlt].
    { destruct Hmax; lia. }
    apply Z.le_trans with (2 ^ (m - 1)); [apply Z.pow_le_mono_r; lia|lia].
  - split; [intros; right; exists m; lia|]. intros [[? ?]|(j&?&Hj)]; [lia|].
    rewrite Hj in *. destruct Hmin as [->|Hlt]; [apply Z.pow_le_mono_r; lia|].
    apply Z.pow_lt_mono_r_iff in Hlt; [|lia..]. apply Z.pow_le_mono_r; lia.
  - split; [intros; right; exists m; lia|]. intros [[? Hc]|(j&?&Hj)].
    + apply Z.le_trans with (2 ^ rb_max_size_bits b); [apply Z.pow_le_mono_r; lia|lia].
    + rewrite Hj in *. destruct Hmin as [->|Hlt]; [apply Z.pow_le_mono_r; lia|].
      apply Z.pow_lt_mono_r_iff in Hlt; [|lia..]. apply Z.pow_le_mono_r; lia.
Qed.

(** ** Growing and shrinking *)

Definition ring_ok (b : wl_ring_buffer) : Prop := ring_wf b ∨ ring_null b.

Lemma ring_null_size b : ring_null b → ring_buffer_size b = 0.
Proof. intros (_&Hh&Ht&_). unfold ring_buffer_size. rewrite Hh, Ht. done. Qed.

Lemma ring_null_contents b : ring_null b → ring_contents b = [].
Proof. intros Hn. unfold ring_contents. rewrite ring_null_size by done. done. Qed.

Lemma ring_ok_wf b : ring_ok b → 0 < ring_buffer_size b → ring_wf b.
Proof. intros [?|Hn] ?; [done|]. rewrite ring_null_size in * by done. lia. Qed.

Lemma ring_ok_copy b :
  ring_ok b → ring_buffer_copy b (ring_buffer_size b) = Some (ring_contents b).
Proof.
  intros [Hwf|Hn].
  - rewrite ring_copy_spec by (done || pose proof (ring_size_bound b); lia).
    by rewrite take_ge by by rewrite length_ring_contents.
  - rewrite ring_null_size, ring_null_contents by done. done.
Qed.

Lemma ring_ok_length b :
  ring_ok b → Z.of_nat (length (ring_contents b)) = ring_buffer_size b.
Proof.
  pose proof (ring_size_bound b). intros [Hwf|Hn].
  - rewrite length_ring_contents by done. lia.
  - rewrite ring_null_contents, ring_null_size by done. done.
Qed.

Lemma ring_ok_size_eq b b' :
  ring_ok b → ring_ok b' → ring_contents b' = ring_contents b →
  ring_buffer_size b' = ring_buffer_size b.
Proof. intros. rewrite <- !ring_ok_length by done. congruence. Qed.

Lemma ring_ok_max b : ring_ok b → 0 <= rb_max_size_bits b <= 64.
Proof. by intros [(_&_&_&_&?&_)|(_&_&_&_&?)]. Qed.

Lemma ring_ok_consume b n :
  ring_ok b → 0 <= n <= ring_buffer_size b →
  let b' := rb_set_tail (u64 (rb_tail b + n)) b in
  ring_ok b' ∧ ring_contents b' = drop (Z.to_nat n) (ring_contents b).
Proof.
  intros [Hwf|Hn] Hle b'.
  - destruct (ring_consume_spec b Hwf n Hle) as (?&?&_). by split; [left|].
  - rewrite ring_null_size in Hle by done. assert (n = 0) as -> by lia.
    assert (b' = b) as ->; [|by split; [right|]].
    destruct Hn as (_&_&Ht&_). unfold b'. rewrite Ht. destruct b; cbn in *. by subst.
Qed.

Lemma ring_ok_copy_prefix b n :
  ring_ok b → 0 <= n <= ring_buffer_size b →
  ring_buffer_copy b n = Some (take (Z.to_nat n) (ring_contents b)).
Proof.
  intros [Hwf|Hn] Hle; [by apply ring_copy_spec|].
  rewrite ring_null_size in Hle by done. assert (n = 0) as -> by lia. done.
Qed.

(** A ring laid out from offset 0, as [ring_buffer_allocate] leaves it. *)
Lemma ring_fresh_spec junk c n bits max :
  0 <= bits < 64 → 0 <= max <= 64 → n = Z.of_nat (length c) → n <= 2 ^ bits →
  let b := mk_ring (splice (malloc_block (2 ^ bits) junk) 0 c) n 0 bits max in
  ring_wf b ∧ ring_contents b = c ∧ ring_buffer_size b = n.
Proof.
  intros Hb Hmax -> Hn b. assert (0 < 2 ^ bits) by (apply Z.pow_pos_nonneg; lia).
  assert (2 ^ bits <= 2 ^ 63) by (apply Z.pow_le_mono_r; lia).
  assert (ring_buffer_size b = Z.of_nat (length c)) as Hs.
  { unfold ring_buffer_size, b; rb_simpl. rewrite u64_small; lia. }
  split_and!; [|..|done].
  - unfold ring_wf, ring_cap. rewrite Hs. unfold b; rb_simpl.
    rewrite length_splice; rewrite length_malloc_block; lia.
  - unfold ring_contents. rewrite Hs. unfold b, ring_cap; rb_simpl.
    rewrite Z.mod_0_l by lia. unfold rot, splice. change (Z.to_nat 0) with 0%nat.
    rewrite !take_0, drop_0, !app_nil_l, app_nil_r, Nat2Z.id. by rewrite take_app_length.
Qed.

Section space.
Context {W : Type} `{OsMem W}.

Lemma ring_allocate_spec b bits (w : W) :
  ring_ok b → 0 <= bits < 64 → ring_buffer_size b <= 2 ^ bits →
  ∃ r b' w', ring_buffer_allocate b bits w = Some (r, b', w') ∧
    match r with
    | Ret _ => ring_wf b' ∧ ring_contents b' = ring_contents b ∧
               rb_size_bits b' = bits ∧ rb_tail b' = 0 ∧
               rb_max_size_bits b' = rb_max_size_bits b
    | Fail e => b' = b ∧ e = ENOMEM
    end.
Proof.
  intros Hok Hbits Hfit. unfold ring_buffer_allocate.
  rewrite size_pot_Some by lia. cbn [mbind option_bind].
  destruct (os_alloc (2 ^ bits) w) as [[junk|] w'].
  2: { eexists _, _, _. split; [done|]. done. }
  rewrite ring_ok_copy by done. cbn [mbind option_bind].
  pose proof (ring_ok_length b Hok) as Hl.
  assert (0 < 2 ^ bits) by (apply Z.pow_pos_nonneg; lia).
  rewrite write_range_Some by (rewrite ?length_malloc_block; lia).
  cbn [mbind option_bind]. eexists _, _, _. split; [done|].
  rewrite u32_small by lia.
  destruct (ring_fresh_spec junk (ring_contents b) (ring_buffer_size b) bits
              (rb_max_size_bits b)) as (?&?&?);
    [done|by apply ring_ok_max|lia|done|]. by split_and!.
Qed.

Lemma ring_ensure_space_spec b count (w : W) :
  ring_ok b → 0 <= count → ring_buffer_size b + count <= 2 ^ 63 →
  ∃ r b' w', ring_buffer_ensure_space b count w = Some (r, b', w') ∧
    match r with
    | Ret _ => ring_wf b' ∧ ring_contents b' = ring_contents b ∧
               ring_buffer_size b + count <= ring_cap b' ∧
               rb_max_size_bits b' = rb_max_size_bits b ∧
               (b' = b ∨ rb_tail b' = 0 ∧ (max_ok b → 12 <= rb_size_bits b') ∧
                         (0 < rb_max_size_bits b → rb_size_bits b' <= rb_max_size_bits b))
    | Fail ENOMEM => b' = b
    | Fail E2BIG => b' = b ∧ w' = w ∧ 0 < rb_max_size_bits b ∧
                    2 ^ rb_max_size_bits b < ring_buffer_size b + count
    | Fail _ => False
    end.
Proof.
  intros Hok Hc Hn. pose proof (ring_size_bound b).
  unfold ring_buffer_ensure_space. rewrite u64_small by lia.
  destruct (get_bits_spec b (ring_buffer_size b + count)) as (k&->&Hk&Hor&Hkmax&Hk12);
    [lia|by apply ring_ok_max|].
  cbn [mbind option_bind]. rewrite size_pot_Some by lia. cbn [mbind option_bind].
  case_match; zbool.
  { eexists _, _, _. split; [done|]. destruct Hor as [|[? ->]]; [lia|].
    by split_and!. }
  case_match; zbool.
  - eexists _, _, _. split; [done|]. destruct Hok as [Hwf|Hnull].
    + unfold ring_cap. split_and!; try done; [subst k; lia|by left].
    + destruct Hnull as (_&_&_&?&_). lia.
  - destruct (ring_allocate_spec b k w) as (r&b'&w'&->&Hr); [done|lia..|].
    eexists _, _, _. split; [done|]. destruct r as [|e].
    + destruct Hr as (?&?&Hbits&Htail&?). unfold ring_cap. rewrite Hbits.
      split_and!; try done. by right.
    + by destruct Hr as [-> ->].
Qed.

(** The only call [ring_buffer_ensure_space] makes is an allocation. *)
Lemma ring_ensure_space_world b count (w : W) r b' w' :
  ring_buffer_ensure_space b count w = Some (r, b', w') →
  w' = w ∨ ∃ n, w' = snd (os_alloc n w).
Proof.
  unfold ring_buffer_ensure_space, ring_buffer_allocate. intros Hens.
  destruct (ring_buffer_get_bits_for_size _ _) as [k|]; [|done]. cbn [mbind option_bind] in Hens.
  destruct (size_pot k) as [p|]; [|done]. cbn [mbind option_bind] in Hens.
  destruct (p <? _); [left; congruence|]. destruct (k =? _); [left; congruence|].
  right. exists p. destruct (os_alloc p w) as [[junk|] w1]; [|cbn; congruence].
  destruct (ring_buffer_copy _ _) as [d|]; [|done]. cbn [mbind option_bind] in Hens.
  destruct (write_range _ _ _) as [d'|]; [|done]. cbn in *. congruence.
Qed.
End space.

(** ** Rings of file descriptors *)

(** A ring whose cursors only ever move by whole descriptors. *)
Definition fd_ring_wf (b : wl_ring_buffer) : Prop :=
  ring_wf b ∧ 2 <= rb_size_bits b ∧ rb_tail b mod 4 = 0 ∧ ring_buffer_size b mod 4 = 0 ∧
  ring_buffer_size b < 2 ^ 33.

(** The same, possibly without a block yet. *)
Definition fd_ring_ok (b : wl_ring_buffer) : Prop := fd_ring_wf b ∨ ring_null b.

Lemma fd_ring_ok_ok b : fd_ring_ok b → ring_ok b.
Proof. intros [[? _]|?]; [by left|by right]. Qed.

Lemma fd_ring_ok_size b :
  fd_ring_ok b → ring_buffer_size b mod 4 = 0 ∧ 0 <= ring_buffer_size b < 2 ^ 33.
Proof.
  pose proof (ring_size_bound b). intros [(_&_&_&?&?)|Hn]; [by split_and!; (done || lia)|].
  by rewrite ring_null_size.
Qed.

Lemma fds_decode_app4 a bs :
  length a = 4%nat → fds_decode (a ++ bs) = i32 (le_combine a) :: fds_decode bs.
Proof. destruct a as [|? [|? [|? [|? [|]]]]]; intros; done. Qed.

Lemma fds_decode_fd_bytes fd bs :
  - 2 ^ 31 <= fd < 2 ^ 31 → fds_decode (fd_bytes fd ++ bs) = fd :: fds_decode bs.
Proof.
  intros Hfd. unfold fd_bytes. rewrite fds_decode_app4 by apply length_le_split.
  f_equal. rewrite le_combine_split. change (8 * Z.of_nat 4) with 32.
  unfold u32. rewrite Z.mod_mod by lia. unfold i32. rewrite Zplus_mod_idemp_l.
  rewrite Z.mod_small; lia.
Qed.

Lemma take_rot_step {A} (l : list A) t k n :
  (t + k <= length l)%nat → (t < length l)%nat → (k + n <= length l)%nat →
  take n (rot (t + k) l) = take n (drop k (rot t l)).
Proof.
  intros. apply list_eq. intros i. destruct (decide (i < n)%nat).
  - rewrite !lookup_take_lt, lookup_drop, !lookup_rot by lia.
    f_equal. repeat case_decide; lia.
  - by rewrite !lookup_take_ge by lia.
Qed.

Lemma fds_decode_take k bs : fds_decode (take (4 * k) bs) = take k (fds_decode bs).
Proof.
  revert bs. induction k as [|k IH]; intros bs; [done|].
  replace (4 * S k)%nat with (S (S (S (S (4 * k)))))%nat by lia.
  destruct bs as [|? [|? [|? [|? bs]]]]; try done.
  cbn [take fds_decode]. by rewrite IH.
Qed.

Lemma fds_decode_drop k bs : fds_decode (drop (4 * k) bs) = drop k (fds_decode bs).
Proof.
  revert bs. induction k as [|k IH]; intros bs; [done|].
  replace (4 * S k)%nat with (S (S (S (S (4 * k)))))%nat by lia.
  destruct bs as [|? [|? [|? [|? bs]]]]; try done.
  cbn [drop fds_decode]. by rewrite IH.
Qed.

Lemma fds_decode_app n a bs :
  length a = (4 * n)%nat → fds_decode (a ++ bs) = fds_decode a ++ fds_decode bs.
Proof.
  revert a. induction n as [|n IH]; intros a Ha.
  { by destruct a. }
  destruct a as [|? [|? [|? [|? a]]]]; try (simpl in Ha; lia).
  cbn [app fds_decode]. rewrite IH by (simpl in Ha; lia). done.
Qed.

Lemma u64_mod4 x : u64 x mod 4 = x mod 4.
Proof. apply Z.mod_mod_divide. by exists (2 ^ 62). Qed.

(** [ring_buffer_ensure_space] and [ring_buffer_put] on rings of descriptors. *)
Lemma fd_ring_ensure_space_spec {W : Type} `{OsMem W} b count (w : W) :
  fd_ring_ok b → max_ok b → 0 <= count <= 2 ^ 62 →
  ∃ r b' w', ring_buffer_ensure_space b count w = Some (r, b', w') ∧
    match r with
    | Ret _ => fd_ring_wf b' ∧ ring_contents b' = ring_contents b ∧
               ring_buffer_size b + count <= ring_cap b' ∧
               rb_max_size_bits b' = rb_max_size_bits b ∧
               (0 < rb_max_size_bits b → rb_size_bits b <= rb_max_size_bits b →
                rb_size_bits b' <= rb_max_size_bits b)
    | Fail _ => b' = b
    end.
Proof.
  intros Hb Hmax Hc.
  pose proof (fd_ring_ok_ok b Hb) as Hok. pose proof (fd_ring_ok_size b Hb) as (Hs4&Hs).
  destruct (ring_ensure_space_spec b count w Hok) as (r&b'&w'&->&Hr); [lia..|].
  eexists _, _, _. split; [done|]. destruct r as [|e].
  2: { destruct e; try done. by destruct Hr. }
  destruct Hr as (Hwf&Hcon&Hfit&Hmx&Hor). split_and!; try done.
  2: { destruct Hor as [->|(_&_&?)]; auto. }
  assert (ring_buffer_size b' = ring_buffer_size b) as Hsz
    by (apply ring_ok_size_eq; [done|by left|done]).
  unfold fd_ring_wf. rewrite Hsz. destruct Hor as [->|(Ht&Hbits&_)].
  - destruct Hb as [|Hnull]; [done|]. destruct Hwf as (_&Hl&_), Hnull as (Hd&_&_&Hbz&_).
    unfold ring_cap in Hl. rewrite Hd, Hbz in Hl. done.
  - specialize (Hbits Hmax). rewrite Ht. split_and!; (done || lia).
Qed.

Lemma fd_ring_put_spec b src :
  fd_ring_wf b → Z.of_nat (length src) mod 4 = 0 →
  ring_buffer_size b + Z.of_nat (length src) <= ring_cap b →
  ring_buffer_size b + Z.of_nat (length src) < 2 ^ 33 →
  ∃ b', ring_buffer_put b src = Some b' ∧ fd_ring_wf b' ∧
    ring_contents b' = ring_contents b ++ src ∧
    rb_max_size_bits b' = rb_max_size_bits b ∧ rb_size_bits b' = rb_size_bits b.
Proof.
  intros (Hwf&Hb&Ht&Hs&Hs33) Hl4 Hfit H33. destruct (decide (src = [])) as [->|Hne].
  - exists b. rewrite app_nil_r. by split_and!.
  - rewrite ring_put_circ by done. eexists. split; [done|].
    destruct (ring_append b Hwf src Hfit Hne) as (?&?&Hsz). split_and!; try done.
    split_and!; try done; rewrite Hsz; [|done]. mlia.
Qed.

Lemma fds_decode_contents_app b bs :
  fd_ring_ok b →
  fds_decode (ring_contents b ++ bs) = fds_decode (ring_contents b) ++ fds_decode bs.
Proof.
  intros Hok. apply (fds_decode_app (Z.to_nat (ring_buffer_size b / 4))).
  pose proof (ring_ok_length b (fd_ring_ok_ok b Hok)).
  pose proof (fd_ring_ok_size b Hok). mlia.
Qed.

Section fds.
Context {W : Type} `{OsMem W} `{OsFd W}.

Definition close_all (fds : list Z) (w : W) : W := foldl (λ w fd, os_close fd w) w fds.

Lemma close_payload_spec n bs (w : W) :
  (4 * n <= length bs)%nat →
  close_payload n bs w = close_all (fds_decode (take (4 * n) bs)) w.
Proof.
  revert bs w. induction n as [|n IH]; intros bs w Hn; [done|].
  cbn [close_payload]. rewrite IH by (rewrite length_drop; lia).
  replace (4 * S n)%nat with (4 + 4 * n)%nat by lia.
  rewrite <- take_take_drop.
  rewrite fds_decode_app4 by (rewrite length_take; lia). done.
Qed.

Lemma close_fds_loop_spec n d p (w : W) :
  Z.of_nat (length d) mod 4 = 0 → 0 <= p <= Z.of_nat (length d) → p mod 4 = 0 →
  (4 * n <= length d)%nat →
  ring_buffer_close_fds_loop n d (Z.of_nat (length d)) p w =
    Some (close_all (fds_decode (take (4 * n) (rot (Z.to_nat p) d))) w).
Proof.
  revert p w. induction n as [|n IH]; intros p w Hd Hp Hp4 Hn; [done|].
  cbn [ring_buffer_close_fds_loop]. unfold sizeof_int32.
  set (p' := if Z.of_nat (length d) <=? p then 0 else p).
  assert (0 <= p' < Z.of_nat (length d) ∧ p' mod 4 = 0 ∧
          rot (Z.to_nat p) d = rot (Z.to_nat p') d) as (Hp'&Hp4'&->).
  { unfold p'. case_match; zbool; split_and!; try lia; try done.
    unfold rot. rewrite take_ge, drop_ge by lia. change (Z.to_nat 0) with 0%nat.
    by rewrite take_0, drop_0, app_nil_r. }
  clearbody p'. assert (p' + 4 <= Z.of_nat (length d)) by mlia.
  assert ((p' + 4) mod 4 = 0) by mlia.
  rewrite read_range_Some by lia. cbn [mbind option_bind].
  rewrite IH by lia.
  replace (Z.to_nat (p' + 4)) with (Z.to_nat p' + 4)%nat by lia.
  rewrite take_rot_step by lia.
  replace (4 * S n)%nat with (4 + 4 * n)%nat by lia. rewrite <- take_take_drop.
  rewrite fds_decode_app4 by (rewrite length_take, length_rot; lia).
  cbn [close_all foldl]. unfold rot at 2. rewrite take_app_le by (rewrite length_drop; lia).
  done.
Qed.

(** [close_fds] closes the oldest descriptors, in order, and consumes them. *)
Lemma close_fds_spec b max (w : W) :
  fd_ring_ok b →
  let k := if (0 <? max) && (max <? ring_buffer_size b / 4)
           then Z.to_nat max else Z.to_nat (ring_buffer_size b / 4) in
  ∃ b', close_fds b max w = Some (b', close_all (take k (fds_decode (ring_contents b))) w) ∧
    fd_ring_ok b' ∧ ring_contents b' = drop (4 * k) (ring_contents b) ∧
    rb_max_size_bits b' = rb_max_size_bits b ∧ rb_size_bits b' = rb_size_bits b.
Proof.
  intros [Hok|Hn] k.
  2: { assert (k = 0%nat) as -> by (unfold k; rewrite ring_null_size by done; case_step; zbool; mlia).
       exists b. unfold close_fds. rewrite ring_null_size by done. split; [done|].
       rewrite drop_0. by split_and!; [right|..]. }
  pose proof Hok as (Hwf&Hb2&Ht4&Hs4&Hs33). pose proof (ring_size_bound b) as Hs.
  pose proof (ring_bounds b Hwf) as (HT&HS&Hc). pose proof (length_ring_contents b Hwf) as HL.
  pose proof (ring_data_length b Hwf) as Hlen. pose proof Hwf as (_&Hdl&_).
  assert (ring_cap b mod 4 = 0) as Hcap4.
  { unfold ring_cap. replace (rb_size_bits b) with (rb_size_bits b - 2 + 2) by lia.
    rewrite Z.pow_add_r by lia. apply Z.mod_mul. lia. }
  assert (Z.of_nat k <= ring_buffer_size b / 4) as Hk
    by (unfold k; case_match; zbool; mlia).
  unfold close_fds. case_match; zbool.
  { exists b. assert (k = 0%nat) as -> by mlia. rewrite drop_0. by split_and!; [|left|..]. }
  assert (0 <= ring_buffer_size b / 4 < 2 ^ 31)
    by (split; [apply Z.div_pos|apply Z.div_lt_upper_bound]; lia).
  unfold sizeof_int32. rewrite i32_small by lia.
  replace (if (0 <? max) && (max <? ring_buffer_size b / 4) then max
           else ring_buffer_size b / 4) with (Z.of_nat k)
    by (unfold k; case_match; zbool; lia).
  unfold ring_buffer_close_fds. rewrite ring_capacity_eq by done. cbn [mbind option_bind].
  rewrite ring_mask_eq by (done || destruct Hwf as (_&_&_&?&_); lia).
  cbn [mbind option_bind]. rewrite <- Hdl, Nat2Z.id.
  rewrite close_fds_loop_spec; [|rewrite ?Hdl; mlia..].
  rewrite Hdl. cbn [mbind option_bind]. rewrite (u64_small (Z.of_nat k * 4)) by mlia.
  destruct (ring_consume_spec b Hwf (Z.of_nat k * 4)) as (Hwf'&Hcon'&Hs'); [mlia|].
  assert (take (4 * k) (rot (Z.to_nat (rb_tail b mod ring_cap b)) (rb_data b)) =
          take (4 * k) (ring_contents b)) as ->
    by (unfold ring_contents; rewrite take_take, Nat.min_l by mlia; done).
  rewrite fds_decode_take. eexists. split; [done|]. split_and!; try done.
  - left. split_and!; try done; [rb_simpl; rewrite u64_mod4; mlia|rewrite Hs'; mlia..].
  - rewrite Hcon'. f_equal. lia.
Qed.
End fds.

Lemma ring_first_byte b :
  ring_wf b → 0 < ring_buffer_size b →
  ∃ t, ring_buffer_tail b = Some t ∧
    gather (rb_data b) [(t, 1)] = Some (take 1 (ring_contents b)).
Proof.
  intros Hwf Hs. pose proof (ring_bounds b Hwf) as (HT&HS&Hc).
  pose proof (ring_data_length b Hwf) as Hlen.
  exists (rb_tail b mod ring_cap b). unfold ring_buffer_tail.
  rewrite ring_mask_eq by (done || destruct Hwf as (_&_&_&?&_); lia). split; [done|].
  cbn [gather]. rewrite read_range_Some by lia. cbn [mbind option_bind].
  rewrite app_nil_r. unfold ring_contents, rot. rewrite take_take, Nat.min_l by lia.
  rewrite take_app_le by (rewrite length_drop; lia). done.
Qed.

(** The control message of a flush carries the oldest descriptors, 28 at most. *)
Lemma build_cmsg_spec b :
  fd_ring_ok b →
  let k := Nat.min 28 (Z.to_nat (ring_buffer_size b / 4)) in
  build_cmsg b = Some (take (4 * k) (ring_contents b),
                       if decide (k = 0%nat) then 0 else CMSG_LEN (4 * Z.of_nat k)).
Proof.
  intros [(Hwf&_&_&Hs4&_)|Hn] k.
  2: { unfold k, build_cmsg. rewrite ring_null_size by done. done. }
  pose proof (ring_size_bound b). unfold build_cmsg, MAX_FDS_OUT, sizeof_int32.
  replace (if 28 * 4 <? ring_buffer_size b then 28 * 4 else ring_buffer_size b)
    with (4 * Z.of_nat k) by (unfold k; case_match; zbool; mlia).
  case_match; zbool.
  - rewrite ring_copy_spec by (done || unfold k; mlia). cbn [mbind option_bind].
    rewrite decide_False by lia. repeat f_equal; lia.
  - rewrite decide_True by lia. replace k with 0%nat by lia. done.
Qed.

Lemma fds_length b :
  fd_ring_ok b → length (fds_decode (ring_contents b)) = Z.to_nat (ring_buffer_size b / 4).
Proof.
  intros Hok. pose proof (ring_ok_length b (fd_ring_ok_ok b Hok)) as HL.
  pose proof (fd_ring_ok_size b Hok).
  assert (∀ n bs, length bs = (4 * n)%nat → length (fds_decode bs) = n) as Hl.
  { induction n as [|n IH]; intros bs Hbs; [by destruct bs|].
    destruct bs as [|? [|? [|? [|? bs]]]]; try (simpl in Hbs; lia).
    cbn [fds_decode length]. rewrite IH by (simpl in Hbs; lia). done. }
  apply Hl. mlia.
Qed.

(** ** Receiving descriptors *)

Definition fd_ring_bounded (m : Z) (b : wl_ring_buffer) : Prop :=
  fd_ring_ok b ∧ rb_max_size_bits b = m ∧ 0 <= rb_size_bits b <= m.

(** The descriptors the [SCM_RIGHTS] messages carry. *)
Definition rights_bytes (ms : list cmsg) : list Z :=
  concat (map cmsg_data (base.filter (λ m, cmsg_is_rights m = true) ms)).

Section decode.
Context {W : Type} `{OsMem W} `{OsFd W}.

Lemma fd_ring_bounded_cap m b :
  m <= 30 → fd_ring_bounded m b → ring_cap b <= 2 ^ 30.
Proof.
  intros Hm (_&_&Hsb). unfold ring_cap. apply Z.pow_le_mono_r; lia.
Qed.

(** What the world goes through while control messages are decoded: blocks are
    allocated, and the listed descriptors are closed in that order. *)
Inductive fd_calls : W → list Z → W → Prop :=
  | fd_calls_done w : fd_calls w [] w
  | fd_calls_close w fd fds w' : fd_calls (os_close fd w) fds w' → fd_calls w (fd :: fds) w'
  | fd_calls_alloc w n fds w' : fd_calls (snd (os_alloc n w)) fds w' → fd_calls w fds w'.

Lemma fd_calls_trans w1 l1 w2 l2 w3 :
  fd_calls w1 l1 w2 → fd_calls w2 l2 w3 → fd_calls w1 (l1 ++ l2) w3.
Proof. induction 1; cbn; eauto using fd_calls. Qed.

Lemma fd_calls_close_all fds (w : W) : fd_calls w fds (close_all fds w).
Proof.
  revert w. induction fds as [|fd fds IH]; intros w; [constructor|].
  apply fd_calls_close, IH.
Qed.

Lemma fd_calls_ensure b n (w : W) r b' w' :
  ring_buffer_ensure_space b n w = Some (r, b', w') → fd_calls w [] w'.
Proof. intros [->|[k ->]]%ring_ensure_space_world; eauto using fd_calls. Qed.

(** The outcome of decoding [ms]: every descriptor is in the ring or has been
    closed, and nothing has been closed unless the result is an overflow. *)
Definition decode_post (m : Z) (b : wl_ring_buffer) (ms : list cmsg) (ov : bool) (w : W)
    (ov' : bool) (b' : wl_ring_buffer) (w' : W) : Prop :=
  fd_ring_bounded m b' ∧
  ∃ closed, fd_calls w closed w' ∧
    fds_decode (ring_contents b') ++ closed ≡ₚ
      fds_decode (ring_contents b) ++ fds_decode (rights_bytes ms) ∧
    (ov' = false → ov = false ∧ closed = [] ∧
                   ring_contents b' = ring_contents b ++ rights_bytes ms).

Lemma fds_decode_whole bs cs :
  Z.of_nat (length bs) mod 4 = 0 → fds_decode (bs ++ cs) = fds_decode bs ++ fds_decode cs.
Proof. intros Hm. apply (fds_decode_app (Z.to_nat (Z.of_nat (length bs) / 4))). mlia. Qed.

Lemma close_payload_whole bs (w : W) :
  Z.of_nat (length bs) mod 4 = 0 →
  close_payload (Z.to_nat (Z.of_nat (length bs) / sizeof_int32)) bs w =
    close_all (fds_decode bs) w.
Proof.
  intros Hm. unfold sizeof_int32. rewrite close_payload_spec by mlia.
  by rewrite take_ge by mlia.
Qed.

(** One control message whose descriptors are closed, or stored. *)
Lemma decode_post_closed m b c ms ov w w1 ov' b' w' :
  cmsg_is_rights c = true → Z.of_nat (length (cmsg_data c)) mod 4 = 0 →
  fd_calls w [] w1 →
  decode_post m b ms true (close_all (fds_decode (cmsg_data c)) w1) ov' b' w' →
  decode_post m b (c :: ms) ov w ov' b' w'.
Proof.
  intros Hr Hm Hw1 (Hb'&closed&Hcalls&Hperm&Hov). split; [done|].
  exists (fds_decode (cmsg_data c) ++ closed). unfold rights_bytes in *.
  rewrite filter_cons_True by done. cbn [map concat]. split_and!.
  - eapply (fd_calls_trans _ [] _ _ _ Hw1), fd_calls_trans; [apply fd_calls_close_all|done].
  - rewrite fds_decode_whole by done.
    rewrite (Permutation_app_swap_app _ (fds_decode (cmsg_data c)) closed).
    by rewrite Hperm, Permutation_app_swap_app.
  - intros Hf. by destruct (Hov Hf).
Qed.

Lemma decode_post_stored m b b2 c ms w w1 ov' b' w' :
  fd_ring_ok b → cmsg_is_rights c = true → Z.of_nat (length (cmsg_data c)) mod 4 = 0 →
  fd_calls w [] w1 → ring_contents b2 = ring_contents b ++ cmsg_data c →
  decode_post m b2 ms false w1 ov' b' w' →
  decode_post m b (c :: ms) false w ov' b' w'.
Proof.
  intros Hb Hr Hm Hw1 Hcon (Hb'&closed&Hcalls&Hperm&Hov). split; [done|].
  exists closed. unfold rights_bytes in *. rewrite filter_cons_True by done. cbn [map concat].
  rewrite Hcon in *. split_and!.
  - by apply (fd_calls_trans _ [] _ _ _ Hw1).
  - rewrite Hperm, (fds_decode_whole (cmsg_data c)), fds_decode_contents_app by done.
    by rewrite app_assoc.
  - intros Hf. destruct (Hov Hf) as (?&?&->). by rewrite app_assoc.
Qed.

Lemma decode_cmsg_loop_spec m ms b ov (w : W) :
  12 <= m <= 30 → fd_ring_bounded m b → cmsgs_ok CLEN ms →
  ∃ ov' b' w', decode_cmsg_loop b ms ov w = Some (ov', b', w') ∧
    decode_post m b ms ov w ov' b' w'.
Proof.
  intros Hm Hb Hms. revert b ov w Hb.
  induction Hms as [|c ms [Hlen Hmod] Hms IH]; intros b ov w Hb.
  { eexists _, _, _. split; [done|]. split; [done|]. exists []. cbn. rewrite !app_nil_r.
    split_and!; [constructor|done..]. }
  cbn [decode_cmsg_loop]. destruct (cmsg_is_rights c) eqn:Hr; cbn [negb].
  2: { destruct (IH b ov w Hb) as (?&?&?&->&Hpost). eexists _, _, _. split; [done|].
       unfold decode_post, rights_bytes in *. by rewrite filter_cons_False by congruence. }
  specialize (Hmod eq_refl).
  set (size := Z.of_nat (length (cmsg_data c))) in *.
  assert (0 <= size <= 112)
    by (unfold CLEN, CMSG_LEN, MAX_FDS_OUT, sizeof_int32 in Hlen; lia).
  pose proof Hb as (Hwf&Hmx&Hsb).
  destruct (fd_ring_ensure_space_spec b size w) as (r&b1&w1&Hens&Hres);
    [done|right; lia|lia|].
  pose proof (fd_calls_ensure _ _ _ _ _ _ Hens) as Hw1. rewrite Hens. cbn [mbind option_bind].
  unfold size. rewrite close_payload_whole by done.
  assert (∀ b2, fd_ring_bounded m b2 → ring_contents b2 = ring_contents b → ∃ ov' b' w',
    decode_cmsg_loop b2 ms true (close_all (fds_decode (cmsg_data c)) w1) =
      Some (ov', b', w') ∧ decode_post m b (c :: ms) ov w ov' b' w') as Hover.
  { intros b2 Hb2 Hcon. destruct (IH b2 true (close_all (fds_decode (cmsg_data c)) w1) Hb2)
      as (ov'&b'&w'&->&Hpost). eexists _, _, _. split; [done|].
    eapply decode_post_closed; try done. unfold decode_post in *. by rewrite Hcon in Hpost. }
  destruct r as [u|e]; [|subst b1; by apply Hover].
  destruct Hres as (Hwf1&Hcon1&Hfit1&Hmx1&Hsb1).
  assert (fd_ring_bounded m b1) as Hb1
    by (pose proof Hwf1 as ((?&_)&_); split_and!; [by left|lia..]).
  destruct ov; [by apply Hover|].
  assert (ring_cap b1 <= 2 ^ 30) by (apply (fd_ring_bounded_cap m); [lia|done]).
  assert (ring_buffer_size b1 = ring_buffer_size b) as Hsz.
  { destruct Hwf1 as [? _]. apply ring_ok_size_eq; [by apply fd_ring_ok_ok|by left|done]. }
  destruct (fd_ring_put_spec b1 (cmsg_data c)) as (b2&Hput&Hwf2&Hcon2&Hmx2&Hsb2);
    [done|done|fold size; lia|fold size; lia|].
  rewrite Hput. cbn [mbind option_bind].
  destruct (IH b2 false w1) as (ov'&b'&w'&->&Hpost).
  { split_and!; [by left|destruct Hb1 as (_&?&?); lia..]. }
  eexists _, _, _. split; [done|]. eapply decode_post_stored; try done. congruence.
Qed.

Lemma decode_cmsg_spec m ms b (w : W) :
  12 <= m <= 30 → fd_ring_bounded m b → cmsgs_ok CLEN ms →
  ∃ r b' w', decode_cmsg b ms w = Some (r, b', w') ∧
    (r = Ret tt ∨ r = Fail EOVERFLOW) ∧
    decode_post m b ms false w (match r with Ret _ => false | Fail _ => true end) b' w'.
Proof.
  intros Hm Hb Hms. unfold decode_cmsg.
  destruct (decode_cmsg_loop_spec m ms b false w Hm Hb Hms) as (ov&b'&w'&->&Hpost).
  cbn [mbind option_bind]. eexists _, _, _. split; [done|].
  destruct ov; (split; [|done]); [by right|by left].
Qed.
End decode.
