(* ===== verification/WlConnection.v ===== *)
(** * The buffered connection: rings, socket and file descriptors

    Models [struct wl_connection] and the operations that move bytes and
    descriptors between its four rings and the socket
    (wayland/build/src/connection.c, lines 68-73, 296-331, 353-387, 444-601 and
    616-635). *)

From S2P Require Import Prelude Os WlOs WlRing.
Open Scope Z_scope.

Record wl_connection : Type := mk_connection {
  c_in : wl_ring_buffer;
  c_out : wl_ring_buffer;
  c_fds_in : wl_ring_buffer;
  c_fds_out : wl_ring_buffer;
  c_fd : Z;
  c_want_flush : bool
}.

Definition c_set_in (b : wl_ring_buffer) (c : wl_connection) : wl_connection :=
  mk_connection b (c_out c) (c_fds_in c) (c_fds_out c) (c_fd c) (c_want_flush c).
Definition c_set_out (b : wl_ring_buffer) (c : wl_connection) : wl_connection :=
  mk_connection (c_in c) b (c_fds_in c) (c_fds_out c) (c_fd c) (c_want_flush c).
Definition c_set_fds_in (b : wl_ring_buffer) (c : wl_connection) : wl_connection :=
  mk_connection (c_in c) (c_out c) b (c_fds_out c) (c_fd c) (c_want_flush c).
Definition c_set_fds_out (b : wl_ring_buffer) (c : wl_connection) : wl_connection :=
  mk_connection (c_in c) (c_out c) (c_fds_in c) b (c_fd c) (c_want_flush c).
Definition c_set_fd (fd : Z) (c : wl_connection) : wl_connection :=
  mk_connection (c_in c) (c_out c) (c_fds_in c) (c_fds_out c) fd (c_want_flush c).
Definition c_set_want_flush (f : bool) (c : wl_connection) : wl_connection :=
  mk_connection (c_in c) (c_out c) (c_fds_in c) (c_fds_out c) (c_fd c) f.

Ltac c_simpl :=
  cbn [c_in c_out c_fds_in c_fds_out c_fd c_want_flush c_set_in c_set_out c_set_fds_in
       c_set_fds_out c_set_fd c_set_want_flush].

(** The [zalloc]ed connection. *)
Definition connection_zero : wl_connection :=
  mk_connection ring_zero ring_zero ring_zero ring_zero 0 false.
Definition sizeof_wl_connection : Z := 136.

Section connection.
Context {W : Type} `{OsMem W} `{OsFd W} `{OsSock W}.

(** The four calls to [ring_buffer_ensure_space] ignore its result. *)
Definition wl_connection_set_max_buffer_size (c : wl_connection) (max_buffer_size : Z) (w : W)
    : option (wl_connection * W) :=
  max_size_bits ← get_max_size_bits_for_size max_buffer_size;
  '(_, b, w) ← ring_buffer_ensure_space (rb_set_max max_size_bits (c_fds_in c)) 0 w;
  let c := c_set_fds_in b c in
  '(_, b, w) ← ring_buffer_ensure_space (rb_set_max max_size_bits (c_fds_out c)) 0 w;
  let c := c_set_fds_out b c in
  '(_, b, w) ← ring_buffer_ensure_space (rb_set_max max_size_bits (c_in c)) 0 w;
  let c := c_set_in b c in
  '(_, b, w) ← ring_buffer_ensure_space (rb_set_max max_size_bits (c_out c)) 0 w;
  Some (c_set_out b c, w).

Definition wl_connection_create (fd max_buffer_size : Z) (w : W)
    : option (cres wl_connection * W) :=
  match os_alloc sizeof_wl_connection w with
  | (None, w) => Some (Fail ENOMEM, w)
  | (Some _, w) =>
      '(c, w) ← wl_connection_set_max_buffer_size connection_zero max_buffer_size w;
      Some (Ret (c_set_fd fd c), w)
  end.

Definition wl_connection_close_fds_in (c : wl_connection) (max : Z) (w : W)
    : option (wl_connection * W) :=
  '(b, w) ← close_fds (c_fds_in c) max w;
  Some (c_set_fds_in b c, w).

(** The connection is freed: what is left is the descriptor and the world. *)
Definition wl_connection_destroy (c : wl_connection) (w : W) : option (Z * W) :=
  '(_, w) ← close_fds (c_fds_out c) (-1) w;
  '(_, w) ← close_fds (c_fds_in c) (-1) w;
  Some (c_fd c, w).

Definition wl_connection_copy (c : wl_connection) (size : Z) : option (list Z) :=
  ring_buffer_copy (c_in c) size.

Definition wl_connection_consume (c : wl_connection) (size : Z) : wl_connection :=
  c_set_in (rb_set_tail (u64 (rb_tail (c_in c) + size)) (c_in c)) c.

Definition wl_connection_pending_input (c : wl_connection) : Z :=
  u32 (ring_buffer_size (c_in c)).

Definition wl_connection_get_fd (c : wl_connection) : Z := c_fd c.

(** [do { len = sendmsg(...); } while (len == -1 && errno == EINTR);] *)
Fixpoint sendmsg_retry (fuel : nat) (fd : Z) (bytes ctl : list Z) (w : W)
    : option (cres Z * W) :=
  match fuel with
  | O => None
  | S fuel =>
      match os_sendmsg fd bytes ctl w with
      | (Fail EINTR, w) => sendmsg_retry fuel fd bytes ctl w
      | r => Some r
      end
  end.

(** The [while] loop of [wl_connection_flush]. *)
Fixpoint flush_loop (fuel : nat) (c : wl_connection) (w : W)
    : option (cres unit * wl_connection * W) :=
  match fuel with
  | O => None
  | S fuel =>
      if negb (0 <? ring_buffer_size (c_out c)) then Some (Ret tt, c, w)
      else
        '(ctl, clen) ← build_cmsg (c_fds_out c);
        iov ← (if CLEN <=? clen then
                 t ← ring_buffer_tail (c_out c);
                 Some [(t, 1)]
               else ring_buffer_get_iov (c_out c));
        bytes ← gather (rb_data (c_out c)) iov;
        '(r, w) ← sendmsg_retry (S fuel) (c_fd c) bytes ctl w;
        match r with
        | Fail e => Some (Fail e, c, w)
        | Ret len =>
            '(b, w) ← close_fds (c_fds_out c) MAX_FDS_OUT w;
            let c := c_set_fds_out b c in
            let c := c_set_out (rb_set_tail (u64 (rb_tail (c_out c) + len)) (c_out c)) c in
            flush_loop fuel c w
        end
  end.

Definition wl_connection_flush (fuel : nat) (c : wl_connection) (w : W)
    : option (cres Z * wl_connection * W) :=
  if negb (c_want_flush c) then Some (Ret 0, c, w)
  else
    let tail := rb_tail (c_out c) in
    '(r, c, w) ← flush_loop fuel c w;
    match r with
    | Fail e => Some (Fail e, c, w)
    | Ret _ =>
        let c := c_set_want_flush false c in
        Some (Ret (i32 (u64 (rb_head (c_out c) - tail))), c, w)
    end.

Fixpoint recvmsg_retry (fuel : nat) (fd space : Z) (w : W)
    : option (cres (list Z * list cmsg) * W) :=
  match fuel with
  | O => None
  | S fuel =>
      match wl_os_recvmsg_cloexec fd space CLEN w with
      | (Fail EINTR, w) => recvmsg_retry fuel fd space w
      | r => Some r
      end
  end.

(** The [while (1)] loop of [wl_connection_read]. *)
Fixpoint wl_connection_read (fuel : nat) (c : wl_connection) (w : W)
    : option (cres Z * wl_connection * W) :=
  match fuel with
  | O => None
  | S fuel =>
      let data_size := i32 (ring_buffer_size (c_in c)) in
      reached ← ring_buffer_is_max_size_reached (c_in c);
      if (reached : bool) then Some (Ret data_size, c, w)
      else
        '(r, b, w) ← ring_buffer_ensure_space (c_in c) 1 w;
        let c := c_set_in b c in
        match r with
        | Fail e => Some (Fail e, c, w)
        | Ret _ =>
            iov ← ring_buffer_put_iov (c_in c);
            '(r, w) ← recvmsg_retry (S fuel) (c_fd c) (iov_len iov) w;
            match r with
            | Fail e =>
                if decide (e = EAGAIN) then
                  if 0 <? data_size then Some (Ret data_size, c, w) else Some (Fail e, c, w)
                else Some (Fail e, c, w)
            | Ret (bs, msgs) =>
                let len := Z.of_nat (length bs) in
                if len =? 0 then Some (Ret data_size, c, w)
                else
                  d ← scatter (rb_data (c_in c)) iov bs;
                  let c := c_set_in (rb_set_data d (c_in c)) c in
                  '(r, b, w) ← decode_cmsg (c_fds_in c) msgs w;
                  let c := c_set_fds_in b c in
                  match r with
                  | Fail e => Some (Fail e, c, w)
                  | Ret _ =>
                      wl_connection_read fuel
                        (c_set_in (rb_set_head (u64 (rb_head (c_in c) + len)) (c_in c)) c) w
                  end
            end
        end
  end.

(** [connection->want_flush = 1;
    if (wl_connection_flush(connection) < 0 && errno != EAGAIN) return -1;] *)
Definition force_flush (fuel : nat) (c : wl_connection) (w : W)
    : option (cres unit * wl_connection * W) :=
  '(r, c, w) ← wl_connection_flush fuel (c_set_want_flush true c) w;
  Some (match r with
        | Fail e => if decide (e = EAGAIN) then Ret tt else Fail e
        | Ret _ => Ret tt
        end, c, w).

Definition wl_connection_queue (fuel : nat) (c : wl_connection) (data : list Z) (w : W)
    : option (cres unit * wl_connection * W) :=
  let count := Z.of_nat (length data) in
  '(r, c, w) ← (if WL_BUFFER_DEFAULT_MAX_SIZE <? u64 (ring_buffer_size (c_out c) + count) then
                  force_flush fuel c w
                else Some (Ret tt, c, w));
  match r with
  | Fail e => Some (Fail e, c, w)
  | Ret _ =>
      '(r, b, w) ← ring_buffer_ensure_space (c_out c) count w;
      let c := c_set_out b c in
      match r with
      | Fail e => Some (Fail e, c, w)
      | Ret _ =>
          b ← ring_buffer_put (c_out c) data;
          Some (Ret tt, c_set_out b c, w)
      end
  end.

Definition wl_connection_write (fuel : nat) (c : wl_connection) (data : list Z) (w : W)
    : option (cres unit * wl_connection * W) :=
  '(r, c, w) ← wl_connection_queue fuel c data w;
  match r with
  | Fail e => Some (Fail e, c, w)
  | Ret _ => Some (Ret tt, c_set_want_flush true c, w)
  end.

Definition wl_connection_put_fd (fuel : nat) (c : wl_connection) (fd : Z) (w : W)
    : option (cres unit * wl_connection * W) :=
  '(r, c, w) ← (if MAX_FDS_OUT * sizeof_int32 <=? ring_buffer_size (c_fds_out c) then
                  force_flush fuel c w
                else Some (Ret tt, c, w));
  match r with
  | Fail e => Some (Fail e, c, w)
  | Ret _ =>
      '(r, b, w) ← ring_buffer_ensure_space (c_fds_out c) sizeof_int32 w;
      let c := c_set_fds_out b c in
      match r with
      | Fail e => Some (Fail e, c, w)
      | Ret _ =>
          b ← ring_buffer_put (c_fds_out c) (fd_bytes fd);
          Some (Ret tt, c_set_fds_out b c, w)
      end
  end.
End connection.

(** ** Sending: nothing is lost, duplicated or reordered *)

Section sending.
Context {W : Type} `{OsSockLaws W}.

Definition conn_out_ok (c : wl_connection) : Prop :=
  ring_ok (c_out c) ∧ fd_ring_ok (c_fds_out c).

(** Everything the program has asked to send: already sent, then queued. *)
Definition out_stream (c : wl_connection) (w : W) : list Z :=
  sent_bytes w ++ ring_contents (c_out c).
Definition out_fds (c : wl_connection) : list Z :=
  fds_decode (ring_contents (c_fds_out c)).
Definition out_fd_stream (c : wl_connection) (w : W) : list Z :=
  sent_fds w ++ out_fds c.

(** What a flush may not touch. *)
Definition same_input (c c' : wl_connection) : Prop :=
  c_in c' = c_in c ∧ c_fds_in c' = c_fds_in c ∧ c_fd c' = c_fd c.

(** A flush only takes bytes and descriptors out. *)
Definition rings_shrink (c c' : wl_connection) : Prop :=
  rb_max_size_bits (c_out c') = rb_max_size_bits (c_out c) ∧
  rb_max_size_bits (c_fds_out c') = rb_max_size_bits (c_fds_out c) ∧
  rb_size_bits (c_out c') = rb_size_bits (c_out c) ∧
  rb_size_bits (c_fds_out c') = rb_size_bits (c_fds_out c) ∧
  ring_buffer_size (c_out c') <= ring_buffer_size (c_out c) ∧
  ring_buffer_size (c_fds_out c') <= ring_buffer_size (c_fds_out c).

Lemma rings_shrink_trans c1 c2 c3 :
  rings_shrink c1 c2 → rings_shrink c2 c3 → rings_shrink c1 c3.
Proof. unfold rings_shrink. intuition (congruence || lia). Qed.

Lemma close_all_frame fds (w : W) :
  os_frame w (close_all fds w).
Proof.
  revert w. induction fds as [|fd fds IH]; intros w; [done|].
  change (close_all (fd :: fds) w) with (close_all fds (os_close fd w)).
  etransitivity; [apply os_close_frame|apply IH].
Qed.

Lemma sendmsg_retry_spec fuel fd bs ctl (w : W) :
  (eintr_budget w < fuel)%nat →
  ∃ r w', sendmsg_retry fuel fd bs ctl w = Some (r, w') ∧ recv_frame w w' ∧
    match r with
    | Ret n => (bs ≠ [] → 1 <= n) ∧ 0 <= n <= Z.of_nat (length bs) ∧
               sent_bytes w' = sent_bytes w ++ take (Z.to_nat n) bs ∧
               sent_fds w' = sent_fds w ++ fds_decode ctl
    | Fail e => e ≠ EINTR ∧ sent_bytes w' = sent_bytes w ∧ sent_fds w' = sent_fds w
    end.
Proof.
  revert w. induction fuel as [|fuel IH]; intros w Hf; [lia|].
  cbn [sendmsg_retry]. pose proof (os_sendmsg_law fd bs ctl w) as Hlaw.
  destruct (os_sendmsg fd bs ctl w) as [[n|e] w'].
  - destruct Hlaw as (?&?&?&?&?). eexists _, _. by split_and!.
  - destruct Hlaw as ((Hrf&Hb&Hfd&_)&He). destruct (decide (e = EINTR)) as [->|Hne].
    + destruct (IH w') as (r&w''&->&?&Hr); [specialize (He eq_refl); lia|].
      eexists _, _. split; [done|]. rewrite Hb, Hfd in Hr. split; [by etransitivity|done].
    + exists (Fail e), w'. split; [by destruct e|]. done.
Qed.

Lemma length_out_fds c :
  fd_ring_ok (c_fds_out c) →
  length (out_fds c) = Z.to_nat (ring_buffer_size (c_fds_out c) / 4).
Proof. apply fds_length. Qed.

(** The bytes one iteration offers to the socket: a non-empty prefix of the
    queue, of one byte when more descriptors may be waiting. *)
Lemma flush_batch_spec c clen :
  conn_out_ok c → 0 < ring_buffer_size (c_out c) →
  ∃ bytes rest, ring_contents (c_out c) = bytes ++ rest ∧ bytes ≠ [] ∧
    (CLEN <= clen → length bytes = 1%nat) ∧
    (iov ← (if CLEN <=? clen then
              t ← ring_buffer_tail (c_out c);
              Some [(t, 1)]
            else ring_buffer_get_iov (c_out c));
     gather (rb_data (c_out c)) iov) = Some bytes.
Proof.
  intros [Hok _] Hpos. pose proof (ring_ok_wf _ Hok Hpos) as Hout.
  pose proof (length_ring_contents _ Hout) as HL.
  assert (ring_contents (c_out c) ≠ []) as Hne by (intros E; rewrite E in HL; simpl in HL; lia).
  case_match; zbool.
  - destruct (ring_first_byte _ Hout Hpos) as (t&Ht&Hg). rewrite Ht.
    cbn [mbind option_bind] in *. eexists _, (drop 1 _). split_and!; [by rewrite take_drop|..|done].
    + by destruct (ring_contents (c_out c)).
    + rewrite length_take. lia.
  - destruct (ring_get_iov_spec _ Hout Hpos) as (iov&->&Hg). cbn [mbind option_bind].
    eexists _, []. split_and!; [by rewrite app_nil_r|done|lia|done].
Qed.

(** What one iteration does once [sendmsg] has taken [len] bytes. *)
Definition flush_sent (c : wl_connection) (b : wl_ring_buffer) (len : Z) : wl_connection :=
  c_set_out (rb_set_tail (u64 (rb_tail (c_out c) + len)) (c_out c)) (c_set_fds_out b c).

Lemma flush_sent_spec c bytes rest len (w w1 : W) :
  let k := Nat.min 28 (Z.to_nat (ring_buffer_size (c_fds_out c) / 4)) in
  conn_out_ok c → 0 < ring_buffer_size (c_out c) → ring_contents (c_out c) = bytes ++ rest →
  0 <= len <= Z.of_nat (length bytes) →
  sent_bytes w1 = sent_bytes w ++ take (Z.to_nat len) bytes →
  sent_fds w1 = sent_fds w ++ fds_decode (take (4 * k) (ring_contents (c_fds_out c))) →
  ∃ b w2, close_fds (c_fds_out c) MAX_FDS_OUT w1 = Some (b, w2) ∧
    recv_frame w1 w2 ∧
    let c1 := flush_sent c b len in
    conn_out_ok c1 ∧ rings_shrink c c1 ∧ out_stream c1 w2 = out_stream c w ∧
    out_fd_stream c1 w2 = out_fd_stream c w ∧ out_fds c1 = drop k (out_fds c) ∧
    ring_buffer_size (c_out c1) = ring_buffer_size (c_out c) - len.
Proof.
  intros k [Hok Hfds] Hpos Hsplit Hlen Hb Hfd. pose proof (ring_ok_wf _ Hok Hpos) as Hout.
  pose proof (length_ring_contents _ Hout) as HL. rewrite Hsplit, length_app in HL.
  destruct (close_fds_spec (c_fds_out c) MAX_FDS_OUT w1 Hfds)
    as (b&Hclose&Hfds'&Hfcon&Hfmax&Hfbits).
  assert ((if (0 <? MAX_FDS_OUT) && (MAX_FDS_OUT <? ring_buffer_size (c_fds_out c) / 4)
           then Z.to_nat MAX_FDS_OUT else Z.to_nat (ring_buffer_size (c_fds_out c) / 4)) = k)
    as Hk by (unfold k, MAX_FDS_OUT; case_step; zbool; lia).
  rewrite Hk in Hclose, Hfcon. clear Hk.
  destruct (ring_consume_spec (c_out c) Hout len) as (Hout'&Hocon&Hosz); [lia|].
  eexists b, _. split; [done|]. set (w2 := close_all _ w1).
  destruct (close_all_frame (take k (fds_decode (ring_contents (c_fds_out c)))) w1)
    as (Hrf2&Hs2&Hf2&_). fold w2 in Hrf2, Hs2, Hf2. split; [done|]. intros c1.
  assert (out_fds c1 = drop k (out_fds c)) as Hfds1.
  { unfold out_fds, c1, flush_sent; c_simpl. by rewrite Hfcon, fds_decode_drop. }
  split_and!; try done.
  - split; [by left|done].
  - unfold rings_shrink, c1, flush_sent; c_simpl. rewrite Hosz. split_and!; try done; [lia|].
    apply fd_ring_ok_ok in Hfds, Hfds'. rewrite <- !ring_ok_length by done.
    rewrite Hfcon, length_drop. lia.
  - unfold out_stream, c1, flush_sent; c_simpl. rewrite Hs2, Hb, Hocon, Hsplit.
    rewrite <- app_assoc. f_equal. rewrite drop_app_le by lia.
    by rewrite app_assoc, take_drop.
  - unfold out_fd_stream. rewrite Hfds1, Hf2, Hfd, fds_decode_take.
    fold (out_fds c). by rewrite <- app_assoc, take_drop.
Qed.

Lemma flush_loop_spec fuel c (w : W) :
  conn_out_ok c → (Z.to_nat (ring_buffer_size (c_out c)) + eintr_budget w < fuel)%nat →
  ∃ r c' w', flush_loop fuel c w = Some (r, c', w') ∧ conn_out_ok c' ∧ same_input c c' ∧
    c_want_flush c' = c_want_flush c ∧ rb_head (c_out c') = rb_head (c_out c) ∧
    rings_shrink c c' ∧
    out_stream c' w' = out_stream c w ∧ out_fd_stream c' w' = out_fd_stream c w ∧
    recv_frame w w' ∧
    match r with
    | Ret _ => ring_contents (c_out c') = [] ∧
        (Z.of_nat (length (out_fds c)) <= 28 * ring_buffer_size (c_out c) → out_fds c' = [])
    | Fail e => e ≠ EINTR
    end.
Proof.
  revert c w. induction fuel as [|fuel IH]; intros c w Hok Hf; [lia|]. pose proof Hok as [Hout Hfds].
  cbn [flush_loop]. pose proof (ring_size_bound (c_out c)) as Hsb.
  pose proof (ring_ok_length _ Hout) as HL.
  destruct (0 <? ring_buffer_size (c_out c)) eqn:Hpos; zbool; cbn [negb].
  2: { eexists _, _, _. split; [done|]. split_and!; try done.
       - apply nil_length_inv. lia.
       - intros Hle. apply nil_length_inv. rewrite length_out_fds in * by done. lia. }
  rewrite build_cmsg_spec by done. cbn [mbind option_bind].
  set (k := Nat.min 28 _). set (clen := if decide (k = 0%nat) then _ else _).
  destruct (flush_batch_spec c clen) as (bytes&rest&Hsplit&Hne&Hone&Hbatch); [done..|].
  destruct (if CLEN <=? clen then _ else _) as [iov|]; [|done].
  cbn [mbind option_bind] in *. rewrite Hbatch. cbn [mbind option_bind].
  destruct (sendmsg_retry_spec (S fuel) (c_fd c) bytes
              (take (4 * k) (ring_contents (c_fds_out c))) w) as (r&w1&->&[Hrc Hbud]&Hr); [lia|].
  cbn [mbind option_bind]. destruct r as [len|e].
  2: { destruct Hr as (?&Hb&Hfd). eexists _, _, _. split; [done|].
       unfold out_stream, out_fd_stream. rewrite Hb, Hfd. by split_and!. }
  destruct Hr as (Hlen1&Hlen&Hb&Hfd). specialize (Hlen1 Hne).
  destruct (flush_sent_spec c bytes rest len w w1)
    as (b&w2&->&[Hrc2 Hbud2]&Hok1&Hshr1&Hs1&Hfs1&Hfds1&Hosz); [done..|].
  cbn [mbind option_bind].
  change (c_set_out _ (c_set_fds_out b c)) with (flush_sent c b len).
  destruct (IH (flush_sent c b len) w2) as (r&c'&w'&->&?&(?&?&?)&?&?&?&?&?&?&Hfin);
    [done|rewrite Hosz; lia|]. assert (recv_frame w w2) by (split; [congruence|lia]).
  eexists _, _, _. split; [done|]. rewrite <- Hs1, <- Hfs1.
  split_and!; try done; [by eapply rings_shrink_trans|by etransitivity|].
  destruct r as [u|e]; [|done].
  destruct Hfin as [Hemp Hall]. split; [done|]. intros Hle. apply Hall.
  rewrite Hfds1, length_drop, Hosz. rewrite length_out_fds in * by done. fold k.
  rewrite Hsplit, length_app in HL.
  destruct (decide (k = 28)%nat) as [Hk28|]; [|unfold k in *; lia].
  assert (length bytes = 1%nat); [|lia].
  apply Hone. unfold clen. rewrite decide_False by lia.
  unfold CLEN, CMSG_LEN, MAX_FDS_OUT, sizeof_int32. lia.
Qed.

Lemma flush_spec fuel c (w : W) :
  conn_out_ok c → (Z.to_nat (ring_buffer_size (c_out c)) + eintr_budget w < fuel)%nat →
  ∃ r c' w', wl_connection_flush fuel c w = Some (r, c', w') ∧ conn_out_ok c' ∧
    same_input c c' ∧ out_stream c' w' = out_stream c w ∧
    out_fd_stream c' w' = out_fd_stream c w ∧
    rings_shrink c c' ∧ recv_frame w w' ∧
    match r with
    | Ret n =>
        if c_want_flush c then
          c_want_flush c' = false ∧ ring_contents (c_out c') = [] ∧
          n = i32 (ring_buffer_size (c_out c)) ∧
          (Z.of_nat (length (out_fds c)) <= 28 * ring_buffer_size (c_out c) → out_fds c' = [])
        else c' = c ∧ w' = w ∧ n = 0
    | Fail e => e ≠ EINTR ∧ c_want_flush c' = c_want_flush c
    end.
Proof.
  intros Hok Hf. unfold wl_connection_flush. destruct (c_want_flush c) eqn:Hwant; cbn [negb].
  2: { eexists _, _, _. split; [done|]. unfold rings_shrink. by split_and!. }
  destruct (flush_loop_spec fuel c w Hok Hf) as (r&c'&w'&->&?&?&?&Hhead&?&?&?&?&Hr).
  cbn [mbind option_bind].
  destruct r as [u|e].
  - destruct Hr. eexists _, _, _. split; [done|]. split_and!; try done. c_simpl.
    rewrite Hhead. done.
  - eexists _, _, _. split; [done|]. split_and!; try done. congruence.
Qed.

Lemma force_flush_spec fuel c (w : W) :
  conn_out_ok c → (Z.to_nat (ring_buffer_size (c_out c)) + eintr_budget w < fuel)%nat →
  ∃ r c' w', force_flush fuel c w = Some (r, c', w') ∧ conn_out_ok c' ∧ same_input c c' ∧
    out_stream c' w' = out_stream c w ∧ out_fd_stream c' w' = out_fd_stream c w ∧
    rings_shrink c c' ∧ recv_frame w w'.
Proof.
  intros Hok Hf. unfold force_flush.
  destruct (flush_spec fuel (c_set_want_flush true c) w) as (r&c'&w'&->&?&?&?&?&?&?&_);
    [done..|].
  cbn [mbind option_bind]. eexists _, _, _. split; [done|]. by split_and!.
Qed.

Lemma ensure_space_frame b count (w : W) r b' w' :
  ring_buffer_ensure_space b count w = Some (r, b', w') →
  os_frame w w'.
Proof.
  intros [->|[n ->]]%ring_ensure_space_world; [done|]. apply os_alloc_frame.
Qed.

(** Room for the bytes and descriptors a program may still queue. *)
Definition conn_out_small (c : wl_connection) : Prop :=
  ring_buffer_size (c_out c) <= 2 ^ 62 ∧ ring_buffer_size (c_fds_out c) + 4 < 2 ^ 33 ∧
  max_ok (c_out c) ∧ max_ok (c_fds_out c).

Lemma conn_out_small_shrink c c' :
  rings_shrink c c' → conn_out_small c → conn_out_small c'.
Proof. unfold rings_shrink, conn_out_small, max_ok. intros (->&->&?&?). lia. Qed.

(** Rings under a cap of [2^m] bytes. *)
Definition ring_capped (m : Z) (b : wl_ring_buffer) : Prop :=
  rb_max_size_bits b = m ∧ 0 <= rb_size_bits b <= m.
Definition conn_out_capped (m : Z) (c : wl_connection) : Prop :=
  ring_capped m (c_out c) ∧ ring_capped m (c_fds_out c).

Lemma conn_out_capped_shrink m c c' :
  rings_shrink c c' → conn_out_capped m c → conn_out_capped m c'.
Proof. unfold rings_shrink, conn_out_capped, ring_capped. intros (->&->&->&->&_). done. Qed.

Lemma ring_ok_capped m b :
  m <= 30 → ring_ok b → ring_capped m b → 0 <= ring_buffer_size b <= 2 ^ 30.
Proof.
  intros Hm [Hwf|Hn] [_ Hb]; [|by rewrite ring_null_size].
  pose proof (ring_bounds b Hwf) as (_&Hs&_). split; [lia|].
  transitivity (ring_cap b); [lia|]. apply Z.pow_le_mono_r; lia.
Qed.

Lemma conn_out_capped_small m c :
  12 <= m <= 30 → conn_out_ok c → conn_out_capped m c → conn_out_small c.
Proof.
  intros Hm [Ho Hf] [Hco Hcf]. pose proof (ring_ok_capped m _ (proj2 Hm) Ho Hco).
  pose proof (ring_ok_capped m _ (proj2 Hm) (fd_ring_ok_ok _ Hf) Hcf).
  destruct Hco, Hcf. unfold conn_out_small, max_ok. split_and!; try lia; right; lia.
Qed.

(** The flush both queueing operations start with. *)
Lemma pre_flush_spec (cond : bool) fuel c (w : W) :
  conn_out_ok c → (Z.to_nat (ring_buffer_size (c_out c)) + eintr_budget w < fuel)%nat →
  ∃ r c' w', (if cond then force_flush fuel c w else Some (Ret tt, c, w)) = Some (r, c', w') ∧
    conn_out_ok c' ∧ same_input c c' ∧
    out_stream c' w' = out_stream c w ∧ out_fd_stream c' w' = out_fd_stream c w ∧
    rings_shrink c c' ∧ recv_frame w w'.
Proof.
  intros. destruct cond; [by apply force_flush_spec|].
  eexists _, _, _. split; [done|]. unfold rings_shrink. by split_and!.
Qed.

Lemma queue_spec fuel c data (w : W) :
  conn_out_ok c → conn_out_small c → Z.of_nat (length data) <= 2 ^ 62 →
  (Z.to_nat (ring_buffer_size (c_out c)) + eintr_budget w < fuel)%nat →
  ∃ r c' w', wl_connection_queue fuel c data w = Some (r, c', w') ∧ conn_out_ok c' ∧
    same_input c c' ∧ out_fd_stream c' w' = out_fd_stream c w ∧
    out_stream c' w' = out_stream c w ++ (match r with Ret _ => data | Fail _ => [] end) ∧
    recv_frame w w' ∧
    (∀ m, 0 < m → conn_out_capped m c → conn_out_capped m c').
Proof.
  intros Hok Hsmall Hdata Hf. unfold wl_connection_queue.
  destruct (pre_flush_spec (WL_BUFFER_DEFAULT_MAX_SIZE <? u64 (ring_buffer_size (c_out c) +
    Z.of_nat (length data))) fuel c w Hok Hf)
    as (r&c1&w1&->&[Hout Hfds]&(?&?&?)&Hs&Hfs&Hshr&Hbud).
  apply (conn_out_small_shrink _ _ Hshr) in Hsmall as (?&?&?&?).
  pose proof (λ m, conn_out_capped_shrink m _ _ Hshr) as Hcap.
  cbn [mbind option_bind]. destruct r as [u|e].
  2: { eexists _, _, _. split; [done|]. rewrite app_nil_r. split_and!; try done; auto. }
  destruct (ring_ensure_space_spec (c_out c1) (Z.of_nat (length data)) w1)
    as (r&b&w2&Hens&Hr); [done|lia..|].
  pose proof (ensure_space_frame _ _ _ _ _ _ Hens) as (Hrf2&Hw1&Hw2&_).
  assert (recv_frame w w2) by (by etransitivity).
  rewrite Hens. cbn [mbind option_bind]. unfold out_stream, out_fd_stream, out_fds in *.
  destruct r as [u'|e].
  - destruct Hr as (Hwf&Hcon&Hfit&Hmx&Hor). c_simpl.
    destruct (ring_put_spec b Hwf data) as (b'&->&Hwf'&Hcon'&Hbits&Hmx').
    { by rewrite (ring_ok_size_eq (c_out c1) b) by (done || (by left)). }
    cbn [mbind option_bind]. eexists _, _, _. split; [done|]. c_simpl.
    rewrite Hw1, Hw2, Hcon', Hcon. split_and!; try done; [by split; [left|]|by rewrite app_assoc, Hs|].
    intros m Hm Hc. destruct (Hcap m Hc) as [[? ?] ?]. split; [|done].
    split; c_simpl; [congruence|]. rewrite Hbits. destruct Hwf as [? _].
    destruct Hor as [->|(_&_&Hle)]; [done|]. lia.
  - assert (b = c_out c1) as -> by (destruct e; try done; tauto).
    eexists _, _, _. split; [done|]. c_simpl. rewrite Hw1, Hw2, app_nil_r.
    split_and!; try done. intros m Hm Hc. by apply Hcap.
Qed.

Lemma put_fd_spec fuel c fd (w : W) :
  conn_out_ok c → conn_out_small c → - 2 ^ 31 <= fd < 2 ^ 31 →
  (Z.to_nat (ring_buffer_size (c_out c)) + eintr_budget w < fuel)%nat →
  ∃ r c' w', wl_connection_put_fd fuel c fd w = Some (r, c', w') ∧ conn_out_ok c' ∧
    same_input c c' ∧ out_stream c' w' = out_stream c w ∧
    out_fd_stream c' w' =
      out_fd_stream c w ++ (match r with Ret _ => [fd] | Fail _ => [] end) ∧
    recv_frame w w' ∧
    (∀ m, 0 < m → conn_out_capped m c → conn_out_capped m c').
Proof.
  intros Hok Hsmall Hfd Hf. unfold wl_connection_put_fd.
  destruct (pre_flush_spec (MAX_FDS_OUT * sizeof_int32 <=? ring_buffer_size (c_fds_out c))
    fuel c w Hok Hf) as (r&c1&w1&->&[Hout Hfds]&(?&?&?)&Hs&Hfs&Hshr&Hbud).
  apply (conn_out_small_shrink _ _ Hshr) in Hsmall as (?&?&?&?).
  pose proof (λ m, conn_out_capped_shrink m _ _ Hshr) as Hcap.
  cbn [mbind option_bind]. destruct r as [u|e].
  2: { eexists _, _, _. split; [done|]. rewrite app_nil_r. split_and!; try done; auto. }
  destruct (fd_ring_ensure_space_spec (c_fds_out c1) sizeof_int32 w1)
    as (r&b&w2&Hens&Hr); [done|done|unfold sizeof_int32; lia|].
  pose proof (ensure_space_frame _ _ _ _ _ _ Hens) as (Hrf2&Hw1&Hw2&_).
  assert (recv_frame w w2) by (by etransitivity).
  rewrite Hens. cbn [mbind option_bind]. unfold out_stream, out_fd_stream, out_fds in *.
  destruct r as [u'|e].
  - destruct Hr as (Hwf&Hcon&Hfit&Hmx&Hbits). c_simpl.
    assert (ring_buffer_size b = ring_buffer_size (c_fds_out c1)) as Hsz.
    { destruct Hwf as [? _]. apply fd_ring_ok_ok in Hfds. by apply ring_ok_size_eq; [|left|]. }
    destruct (fd_ring_put_spec b (fd_bytes fd)) as (b'&->&Hwf'&Hcon'&?&Hbits'); try done;
      try (change (length (fd_bytes fd)) with 4%nat; unfold sizeof_int32 in *; lia).
    cbn [mbind option_bind]. eexists _, _, _. split; [done|]. c_simpl.
    rewrite Hw1, Hw2, Hcon', Hcon. split_and!; try done; [by split; [|left]|..].
    + rewrite fds_decode_contents_app by done.
      rewrite <- (app_nil_r (fd_bytes fd)), fds_decode_fd_bytes by done.
      by rewrite app_assoc, Hfs.
    + intros m Hm Hc. destruct (Hcap m Hc) as [? [? ?]]. split; [done|].
      split; c_simpl; [congruence|]. rewrite Hbits'. destruct Hwf as [[? _] _]. lia.
  - subst b. eexists _, _, _. split; [done|]. c_simpl. rewrite Hw1, Hw2, app_nil_r.
    split_and!; try done. intros m Hm Hc. by apply Hcap.
Qed.
End sending.

(** ** Receiving *)

Section receiving.
Context {W : Type} `{OsSockLaws W}.

(** The input side of a connection whose rings are capped at [2^m] bytes. *)
Definition conn_in_ok (m : Z) (c : wl_connection) : Prop :=
  ring_ok (c_in c) ∧ ring_capped m (c_in c) ∧
  fd_ring_bounded m (c_fds_in c).

Definition same_output (c c' : wl_connection) : Prop :=
  c_out c' = c_out c ∧ c_fds_out c' = c_fds_out c ∧ c_fd c' = c_fd c ∧
  c_want_flush c' = c_want_flush c.

Lemma fd_calls_frame (w : W) fds w' : fd_calls w fds w' → os_frame w w'.
Proof.
  induction 1 as [|w fd fds w' _ IH|w n fds w' _ IH]; [done|..].
  - etransitivity; [apply os_close_frame|done].
  - etransitivity; [apply os_alloc_frame|done].
Qed.

Lemma recvmsg_retry_spec fuel fd space (w : W) :
  0 <= space → (eintr_budget w < fuel)%nat →
  ∃ r w', recvmsg_retry fuel fd space w = Some (r, w') ∧ send_frame w w' ∧
    match r with
    | Ret (bs, ms) => Z.of_nat (length bs) <= space ∧ cmsgs_ok CLEN ms ∧ Forall is_byte bs ∧
                      rcvd_bytes w' = rcvd_bytes w ++ bs
    | Fail e => e ≠ EINTR ∧ rcvd_bytes w' = rcvd_bytes w
    end.
Proof.
  intros Hsp. revert w. induction fuel as [|fuel IH]; intros w Hf; [lia|].
  cbn [recvmsg_retry]. pose proof (wl_os_recvmsg_cloexec_spec fd space CLEN w Hsp) as Hlaw.
  destruct (wl_os_recvmsg_cloexec fd space CLEN w) as [[[bs ms]|e] w1].
  - destruct Hlaw as (?&?&?&?&?). eexists _, _. by split_and!.
  - destruct Hlaw as [[[Hrc _] Hsf] He]. destruct (decide (e = EINTR)) as [->|Hne].
    + destruct (IH w1) as (r&w2&->&?&Hr); [specialize (He eq_refl); lia|]. eexists _, _.
      rewrite Hrc in Hr. split_and!; [done|by etransitivity|done].
    + eexists _, _. split; [by destruct e|]. by split_and!.
Qed.

(** What a call to [wl_connection_read] does: the bytes received ([got]) are
    appended to the input ring.  Only a received batch whose descriptors do
    not fit ([EOVERFLOW]) is dropped. *)
Definition read_post (m : Z) (c : wl_connection) (w : W)
    (r : cres Z) (c' : wl_connection) (w' : W) : Prop :=
  conn_in_ok m c' ∧ same_output c c' ∧ send_frame w w' ∧
  ∃ got, Forall is_byte got ∧ rcvd_bytes w' = rcvd_bytes w ++ got ∧
    match r with
    | Ret n => ring_contents (c_in c') = ring_contents (c_in c) ++ got ∧
               n = ring_buffer_size (c_in c')
    | Fail e => e ≠ EINTR ∧ (e = EAGAIN → ring_contents (c_in c') = []) ∧ ∃ kept lost, got = kept ++ lost ∧ (e ≠ EOVERFLOW → lost = []) ∧
                ring_contents (c_in c') = ring_contents (c_in c) ++ kept
    end.

Lemma conn_in_ok_size m c :
  12 <= m <= 30 → conn_in_ok m c →
  0 <= ring_buffer_size (c_in c) <= ring_cap (c_in c) ∧ ring_cap (c_in c) <= 2 ^ m ∧
  2 ^ m <= 2 ^ 30.
Proof.
  intros Hm (Hin&(Hmx&Hsb)&_).
  assert (0 <= ring_buffer_size (c_in c) <= ring_cap (c_in c)).
  { destruct Hin as [Hwf|Hn]; [apply (ring_bounds _ Hwf)|]. rewrite ring_null_size by done.
    pose proof (ring_cap_pos (c_in c)). lia. }
  unfold ring_cap in *. split_and!; try lia; apply Z.pow_le_mono_r; lia.
Qed.

Lemma read_post_stop m c w c' w' :
  12 <= m <= 30 → conn_in_ok m c → conn_in_ok m c' → same_output c c' → os_frame w w' →
  ring_contents (c_in c') = ring_contents (c_in c) →
  read_post m c w (Ret (i32 (ring_buffer_size (c_in c)))) c' w'.
Proof.
  intros Hm Hok Hok' Hso [[Hrc _] ?] Hcon. split_and!; try done. exists [].
  rewrite !app_nil_r. split_and!; try done.
  pose proof (conn_in_ok_size m c Hm Hok). rewrite i32_small by lia.
  destruct Hok' as [? _], Hok as [? _]. symmetry. by apply ring_ok_size_eq.
Qed.

Lemma read_post_fail m c w e c' w' :
  conn_in_ok m c' → same_output c c' → os_frame w w' → e ≠ EINTR → (e = EAGAIN → ring_contents (c_in c') = []) →
  ring_contents (c_in c') = ring_contents (c_in c) →
  read_post m c w (Fail e) c' w'.
Proof.
  intros Hok' Hso [[Hrc _] ?] He Hag Hcon. split_and!; try done. exists [].
  rewrite !app_nil_r. split_and!; try done. exists [], []. rewrite !app_nil_r. by split_and!.
Qed.

Lemma read_post_step m c w bs c1 w1 r c' w' :
  same_output c c1 → Forall is_byte bs → rcvd_bytes w1 = rcvd_bytes w ++ bs →
  ring_contents (c_in c1) = ring_contents (c_in c) ++ bs →
  send_frame w w1 →
  read_post m c1 w1 r c' w' → read_post m c w r c' w'.
Proof.
  intros (?&?&?&?) Hbs Hrc Hcon Hbud (Hok&(?&?&?&?)&?&got&Hgb&Hgot&Hr).
  split; [done|]. split; [unfold same_output; split_and!; congruence|]. split; [by etransitivity|].
  exists (bs ++ got). split; [by apply Forall_app|]. split; [by rewrite app_assoc, <- Hrc|].
  destruct r as [n|e].
  - destruct Hr as [-> ->]. split; [|done]. by rewrite app_assoc, <- Hcon.
  - destruct Hr as (?&?&kept&lost&->&?&Hk). split; [done|]. split; [done|].
    exists (bs ++ kept), lost. split_and!; [by rewrite app_assoc|done|].
    by rewrite Hk, Hcon, app_assoc.
Qed.

(** Making room changes neither the contents nor anything else. *)
Lemma read_ensure_spec m c (w : W) :
  12 <= m <= 30 → conn_in_ok m c → ring_buffer_size (c_in c) + 1 < 2 ^ m →
  ∃ r b w1, ring_buffer_ensure_space (c_in c) 1 w = Some (r, b, w1) ∧
    os_frame w w1 ∧
    conn_in_ok m (c_set_in b c) ∧ ring_contents b = ring_contents (c_in c) ∧
    match r with
    | Ret _ => ring_wf b ∧ ring_buffer_size b < ring_cap b
    | Fail e => e ≠ EINTR ∧ e ≠ EAGAIN
    end.
Proof.
  intros Hm Hok Hroom. pose proof (conn_in_ok_size m c Hm Hok).
  pose proof Hok as (Hin&(Hmx&Hsb)&Hfds).
  destruct (ring_ensure_space_spec (c_in c) 1 w) as (r&b&w1&Hens&Hr); [done|lia..|].
  pose proof (ensure_space_frame _ _ _ _ _ _ Hens) as Hframe.
  exists r, b, w1. split; [done|]. split; [done|].
  destruct r as [u|e].
  - destruct Hr as (Hwf&Hcon&Hfit&Hmx'&Hor).
    assert (ring_buffer_size b = ring_buffer_size (c_in c)) as Hsz
      by (by apply ring_ok_size_eq; [|left|]).
    assert (0 <= rb_size_bits b <= m) by (destruct Hwf as [? _], Hor as [->|(_&_&?)]; lia).
    split_and!; try done; [|lia]. split_and!; c_simpl; try done; [by left|].
    split; [congruence|done].
  - assert (b = c_in c) as -> by (destruct e; try done; by destruct Hr).
    split_and!; try done; by destruct e.
Qed.

(** A received batch [bs] with its control messages: it goes behind the
    queued bytes, or an overflow of the descriptor ring drops it. *)
Lemma read_batch_spec m c iov bs msgs (w : W) :
  12 <= m <= 30 → conn_in_ok m c → ring_wf (c_in c) →
  ring_buffer_size (c_in c) < ring_cap (c_in c) →
  ring_buffer_put_iov (c_in c) = Some iov → bs ≠ [] → Z.of_nat (length bs) <= iov_len iov →
  cmsgs_ok CLEN msgs →
  ∃ d r b w', scatter (rb_data (c_in c)) iov bs = Some d ∧
    decode_cmsg (c_fds_in c) msgs w = Some (r, b, w') ∧ os_frame w w' ∧
    let c1 := c_set_fds_in b (c_set_in (rb_set_data d (c_in c)) c) in
    match r with
    | Fail e => e = EOVERFLOW ∧ conn_in_ok m c1 ∧
                ring_contents (c_in c1) = ring_contents (c_in c)
    | Ret _ =>
        let c2 := c_set_in (rb_set_head (u64 (rb_head (c_in c1) + Z.of_nat (length bs)))
                              (c_in c1)) c1 in
        conn_in_ok m c2 ∧ ring_contents (c_in c2) = ring_contents (c_in c) ++ bs ∧
        ring_buffer_size (c_in c2) = ring_buffer_size (c_in c) + Z.of_nat (length bs)
    end.
Proof.
  intros Hm Hok Hwf Hroom Hiov Hne Hlen Hms. pose proof Hok as (_&Hcap&Hfds).
  destruct (ring_put_iov_spec (c_in c) Hwf []) as (iov0&Hiov0&Hiovl&_); [done|cbn; lia|].
  rewrite Hiov in Hiov0. injection Hiov0 as <-.
  destruct (ring_put_iov_spec (c_in c) Hwf bs) as (iov'&Hiov'&_&Hsc); [done|lia|].
  rewrite Hiov in Hiov'. injection Hiov' as <-.
  destruct (ring_write_free (c_in c) Hwf bs) as (Hwf3&Hcon3); [lia|done|].
  destruct (ring_append (c_in c) Hwf bs) as (Hwf4&Hcon4&Hsz4); [lia|done|].
  destruct (decode_cmsg_spec m msgs (c_fds_in c) w) as (r&b&w'&Hdec&Hr&Hb&closed&Hcalls&_);
    [done..|].
  eexists _, r, b, w'. split; [done|]. split; [done|].
  split; [by eapply fd_calls_frame|]. intros c1. destruct r as [u|e].
  - intros c2. split_and!; [|done..]. split_and!; [by left|done|done].
  - destruct Hr as [?|[= ->]]; [done|]. split_and!; [done| |done].
    split_and!; [by left|done|done].
Qed.

Lemma read_spec m fuel c (w : W) :
  12 <= m <= 30 → conn_in_ok m c →
  (Z.to_nat (2 ^ m - ring_buffer_size (c_in c)) + eintr_budget w < fuel)%nat →
  ∃ r c' w', wl_connection_read fuel c w = Some (r, c', w') ∧ read_post m c w r c' w'.
Proof.
  intros Hm. revert c w. induction fuel as [|fuel IH]; intros c w Hok Hf; [lia|].
  cbn [wl_connection_read]. pose proof (conn_in_ok_size m c Hm Hok) as (Hsz&Hcap&H30).
  pose proof Hok as (Hin&(Hmx&Hsb)&Hfds).
  destruct (is_max_size_reached_spec (c_in c)) as (reached&->&Hreached);
    [lia|right; lia|]. cbn [mbind option_bind].
  destruct reached.
  { eexists _, _, _. split; [done|]. by apply read_post_stop. }
  assert (ring_buffer_size (c_in c) + 1 < 2 ^ m) as Hroom.
  { apply Z.nle_gt. intros ?. assert (false = true) by (apply Hreached; left; rewrite Hmx; lia).
    done. }
  destruct (read_ensure_spec m c w) as (r&b&w1&->&Hw1&Hok1&Hcon1&Hr); [done..|].
  cbn [mbind option_bind]. destruct r as [u|e].
  2: { eexists _, _, _. split; [done|]. destruct Hr. by apply read_post_fail. }
  destruct Hr as [Hbwf Hbroom].
  destruct (ring_put_iov_spec b Hbwf []) as (iov&Hiov&Hiovl&_); [done|cbn; lia|].
  cbn [c_in c_set_in]. rewrite Hiov. cbn [mbind option_bind].
  destruct (recvmsg_retry_spec (S fuel) (c_fd c) (iov_len iov) w1) as (r&w2&Hrecv&Hsf2&Hr2);
    [lia|destruct Hw1 as [[_ ?] _]; lia|].
  change (c_fd (c_set_in b c)) with (c_fd c). rewrite Hrecv. cbn [mbind option_bind].
  destruct r as [[bs msgs]|e].
  2: { destruct Hr2 as [He Hrc2]. assert (os_frame w w2) as Hw2.
       { etransitivity; [done|]. split; [|done]. by destruct Hsf2 as (_&_&?). }
       case_step; [case_step|]; eexists _, _, _; (split; [done|]); [by apply read_post_stop|apply read_post_fail; try done..].
       intros _. rewrite i32_small in * by lia. zbool. pose proof (ring_ok_length (c_in c) Hin). c_simpl. rewrite Hcon1.
       destruct (ring_contents (c_in c)); [done|]. cbn [length] in *. lia. }
  destruct Hr2 as (Hlen&Hms&Hbytes&Hrc2). destruct Hw1 as [[Hrc1 ?] Hsf1].
  assert (send_frame w w2) as Hsf by (by etransitivity). clear Hsf1 Hsf2.
  case_step; zbool.
  { eexists _, _, _. split; [done|]. apply read_post_stop; try done.
    destruct bs; [|simpl in *; lia]. rewrite app_nil_r in Hrc2.
    pose proof Hsf as (_&_&?). split; [split; [congruence|done]|done]. }
  assert (bs ≠ []) as Hne by (by destruct bs).
  destruct (read_batch_spec m (c_set_in b c) iov bs msgs w2)
    as (d&r&b'&w3&Hd&Hdec&[[Hrc3 _] Hsf3]&Hr3); [done..|].
  assert (send_frame w w3) as Hsf4 by (by etransitivity).
  cbn [c_in c_set_in] in Hd. rewrite Hd. cbn [mbind option_bind].
  change (c_fds_in (c_set_in _ _)) with (c_fds_in (c_set_in b c)).
  rewrite Hdec. cbn [mbind option_bind]. destruct r as [u'|e].
  - destruct Hr3 as (Hok4&Hcon4&Hsz4). set (c4 := c_set_in (rb_set_head _ _) _) in *.
    cbn [c_in c_set_in] in Hcon4, Hsz4.
    assert (ring_buffer_size b = ring_buffer_size (c_in c)) as Hszb
      by (by apply ring_ok_size_eq; [|left|]).
    destruct (IH c4 w3) as (r&c'&w'&->&Hpost); [done|rewrite Hsz4; destruct Hsf4 as (_&_&?); lia|].
    eexists _, _, _. split; [done|]. eapply (read_post_step m c w bs c4 w3); try done.
    + by rewrite Hrc3, Hrc2, Hrc1.
    + by rewrite Hcon4, Hcon1.
  - destruct Hr3 as (->&Hok4&Hcon4). eexists _, _, _. split; [done|].
    split; [done|]. split; [by split_and!|]. split; [done|]. exists bs. split; [done|]. split; [congruence|].
    split; [done|]. split; [done|]. exists [], bs. split_and!; try done. rewrite app_nil_r.
    etransitivity; [exact Hcon4|done].
Qed.
End receiving.

(** ** Creating, resizing and destroying a connection *)

Section lifecycle.
Context {W : Type} `{OsMem W} `{OsFd W}.

Lemma ring_set_max_ok m b : 0 <= m <= 64 → ring_ok b → ring_ok (rb_set_max m b).
Proof.
  intros Hm [(?&?&?&?&?&?)|(?&?&?&?&?)]; [left|right]; split_and!;
    rb_simpl; (done || lia).
Qed.

Lemma fd_ring_set_max_ok m b : 0 <= m <= 64 → fd_ring_ok b → fd_ring_ok (rb_set_max m b).
Proof.
  intros Hm [(Hwf&?&?&?&?)|(?&?&?&?&?)]; [left|right].
  - destruct Hwf as (?&?&?&?&?&?). split_and!; rb_simpl; (done || lia).
  - split_and!; rb_simpl; (done || lia).
Qed.

(** Resizing a ring to a new cap keeps its contents, whether or not the
    reallocation it asks for succeeds. *)
Lemma set_max_ring_spec m b (w : W) :
  m = 0 ∨ 12 <= m <= 64 → ring_ok b → ring_buffer_size b <= 2 ^ 63 →
  ∃ r b' w', ring_buffer_ensure_space (rb_set_max m b) 0 w = Some (r, b', w') ∧
    ring_ok b' ∧ (fd_ring_ok b → fd_ring_ok b') ∧ ring_contents b' = ring_contents b ∧
    rb_max_size_bits b' = m ∧ (0 < m → 0 <= rb_size_bits b <= m → ring_capped m b').
Proof.
  intros Hm Hok Hs. pose proof (ring_set_max_ok m b ltac:(lia) Hok) as Hok1.
  destruct (ring_ensure_space_spec (rb_set_max m b) 0 w Hok1) as (r&b'&w'&Hens&Hr);
    [lia|change (ring_buffer_size (rb_set_max m b)) with (ring_buffer_size b); lia|].
  eexists r, b', w'. split; [done|].
  assert (fd_ring_ok b → fd_ring_ok b') as Hfd.
  { intros Hfd. destruct (fd_ring_ensure_space_spec (rb_set_max m b) 0 w)
      as (r2&b2&w2&Hens2&Hr2); [apply fd_ring_set_max_ok; [lia|done]|done|lia|].
    rewrite Hens in Hens2. injection Hens2 as <- <- <-. destruct r; [left; tauto|].
    subst. apply fd_ring_set_max_ok; [lia|done]. }
  destruct r as [u|e].
  - destruct Hr as (Hwf&Hcon&_&Hmx&Hor). split_and!; try done; [by left|].
    intros Hm0 Hb. split; [done|]. destruct Hor as [->|(_&_&Hle)]; [done|].
    destruct Hwf as [? _]. specialize (Hle Hm0). cbn in Hle. lia.
  - assert (b' = rb_set_max m b) as -> by (destruct e; try done; tauto). by split_and!.
Qed.

(** A connection in working order: each ring is well formed or not allocated. *)
Definition conn_ok (c : wl_connection) : Prop :=
  ring_ok (c_in c) ∧ ring_ok (c_out c) ∧ fd_ring_ok (c_fds_in c) ∧ fd_ring_ok (c_fds_out c).

Definition conn_capped (m : Z) (c : wl_connection) : Prop :=
  ring_capped m (c_in c) ∧ ring_capped m (c_out c) ∧
  ring_capped m (c_fds_in c) ∧ ring_capped m (c_fds_out c).

Definition bits_within (m : Z) (c : wl_connection) : Prop :=
  0 <= rb_size_bits (c_in c) <= m ∧ 0 <= rb_size_bits (c_out c) <= m ∧
  0 <= rb_size_bits (c_fds_in c) <= m ∧ 0 <= rb_size_bits (c_fds_out c) <= m.

Definition same_contents (c c' : wl_connection) : Prop :=
  ring_contents (c_in c') = ring_contents (c_in c) ∧
  ring_contents (c_out c') = ring_contents (c_out c) ∧
  ring_contents (c_fds_in c') = ring_contents (c_fds_in c) ∧
  ring_contents (c_fds_out c') = ring_contents (c_fds_out c).

Lemma set_max_spec c n (w : W) :
  conn_ok c → 0 <= n <= 2 ^ 63 →
  ring_buffer_size (c_in c) <= 2 ^ 63 → ring_buffer_size (c_out c) <= 2 ^ 63 →
  ∃ m c' w', get_max_size_bits_for_size n = Some m ∧
    wl_connection_set_max_buffer_size c n w = Some (c', w') ∧
    conn_ok c' ∧ same_contents c c' ∧ c_fd c' = c_fd c ∧ c_want_flush c' = c_want_flush c ∧
    (0 < n → bits_within m c → conn_capped m c').
Proof.
  intros (Hin&Hout&Hfi&Hfo) Hn Hsi Hso.
  assert (∃ m, get_max_size_bits_for_size n = Some m ∧ (m = 0 ∨ 12 <= m <= 64) ∧
               (0 < n → 12 <= m)) as (m&Hm&Hmr&Hm0).
  { destruct (decide (n = 0)) as [->|]; [exists 0; split_and!; [done|by left|lia]|].
    destruct (get_max_size_bits_spec n) as (m&?&?&_); [lia|]. exists m.
    split_and!; [done|right; lia|lia]. }
  unfold wl_connection_set_max_buffer_size. rewrite Hm. cbn [mbind option_bind].
  pose proof (fd_ring_ok_size _ Hfi). pose proof (fd_ring_ok_size _ Hfo).
  destruct (set_max_ring_spec m (c_fds_in c) w) as (?&b1&w1&->&_&?&?&?&?);
    [done|by apply fd_ring_ok_ok|lia|]. cbn [mbind option_bind]. c_simpl.
  destruct (set_max_ring_spec m (c_fds_out c) w1) as (?&b2&w2&->&_&?&?&?&?);
    [done|by apply fd_ring_ok_ok|lia|]. cbn [mbind option_bind]. c_simpl.
  destruct (set_max_ring_spec m (c_in c) w2) as (?&b3&w3&->&?&_&?&?&?); [done..|].
  cbn [mbind option_bind]. c_simpl.
  destruct (set_max_ring_spec m (c_out c) w3) as (?&b4&w4&->&?&_&?&?&?); [done..|].
  cbn [mbind option_bind]. c_simpl. eexists m, _, _. split; [done|]. split; [done|].
  unfold conn_ok, same_contents, conn_capped; c_simpl. split_and!; try done; auto.
  intros Hn0 (?&?&?&?). specialize (Hm0 Hn0). split_and!; auto with lia.
Qed.

Lemma connection_zero_ok : conn_ok connection_zero.
Proof. split_and!; right; by split_and!. Qed.

Lemma create_spec fd n (w : W) :
  0 <= n <= 2 ^ 63 →
  ∃ m r w', get_max_size_bits_for_size n = Some m ∧
    wl_connection_create fd n w = Some (r, w') ∧
    match r with
    | Ret c => conn_ok c ∧ same_contents connection_zero c ∧ c_fd c = fd ∧
               c_want_flush c = false ∧ (0 < n → conn_capped m c)
    | Fail e => e = ENOMEM
    end.
Proof.
  intros Hn. unfold wl_connection_create. destruct (os_alloc sizeof_wl_connection w) as [ok w1].
  destruct (set_max_spec connection_zero n w1) as (m&c&w2&Hm&Hset&Hok&Hcon&_&Hwant&Hcap);
    [apply connection_zero_ok|done..|].
  exists m. destruct ok; [|by eexists _, _; split_and!].
  rewrite Hset. cbn [mbind option_bind]. eexists _, _. split; [done|]. split; [done|].
  split_and!; try done. intros Hn0. apply Hcap; [done|].
  assert (0 <= m).
  { destruct (get_max_size_bits_spec n) as (m'&Hm'&?&_); [lia|].
    rewrite Hm in Hm'. injection Hm' as <-. lia. }
  unfold bits_within. cbn. lia.
Qed.

(** Destroying closes every descriptor still queued, in either direction. *)
Lemma destroy_spec c (w : W) :
  conn_ok c →
  wl_connection_destroy c w =
    Some (c_fd c, close_all (fds_decode (ring_contents (c_fds_out c)) ++
                             fds_decode (ring_contents (c_fds_in c))) w).
Proof.
  intros (_&_&Hfi&Hfo). unfold wl_connection_destroy.
  destruct (close_fds_spec (c_fds_out c) (-1) w Hfo) as (b1&->&_). cbn [mbind option_bind].
  set (w1 := close_all _ w).
  destruct (close_fds_spec (c_fds_in c) (-1) w1 Hfi) as (b2&->&_). cbn [mbind option_bind].
  cbn [Z.ltb Z.compare andb]. rewrite !take_ge by (rewrite fds_length; done).
  unfold w1. cbn [Z.ltb Z.compare andb]. rewrite take_ge by (rewrite fds_length; done).
  unfold close_all. by rewrite foldl_app.
Qed.
End lifecycle.
