(* ===== verification/WlSession.v ===== *)
(** * Sessions on a connection

    What a program sees of a [wl_connection] it uses through the operations of
    [WlConnection]: from [wl_connection_create] on, in any order, the bytes and
    descriptors it hands over reach the socket once, in order, and the bytes it
    takes out are the bytes received, once, in order. *)

From S2P Require Import Prelude Os OsSim WlOs WlRing WlConnection.
Open Scope Z_scope.

(** The operations a program calls; [OpTake n] is [wl_connection_copy] followed
    by [wl_connection_consume], guarded by [wl_connection_pending_input] as in
    [wl_client_connection_data] and [queue_event]. *)
Inductive conn_op : Type :=
  | OpWrite (data : list Z)
  | OpQueue (data : list Z)
  | OpPutFd (fd : Z)
  | OpFlush
  | OpRead
  | OpTake (n : Z).

(** What the program has seen: the bytes and descriptors accepted, the bytes
    taken, and whether every read so far has succeeded. *)
Record log : Type := mk_log {
  log_out : list Z;
  log_fds : list Z;
  log_in : list Z;
  log_ok : bool
}.

Definition log_empty : log := mk_log [] [] [] true.

Section session.
Context {W : Type} `{OsMem W} `{OsFd W} `{OsSock W}.

Definition is_ret {A} (r : cres A) : bool := match r with Ret _ => true | Fail _ => false end.

Definition conn_step (fuel : nat) (op : conn_op) (c : wl_connection) (w : W) (l : log)
    : option (wl_connection * W * log) :=
  match op with
  | OpWrite data =>
      '(r, c, w) ← wl_connection_write fuel c data w;
      Some (c, w, if is_ret r then mk_log (log_out l ++ data) (log_fds l) (log_in l) (log_ok l)
                  else l)
  | OpQueue data =>
      '(r, c, w) ← wl_connection_queue fuel c data w;
      Some (c, w, if is_ret r then mk_log (log_out l ++ data) (log_fds l) (log_in l) (log_ok l)
                  else l)
  | OpPutFd fd =>
      '(r, c, w) ← wl_connection_put_fd fuel c fd w;
      Some (c, w, if is_ret r then mk_log (log_out l) (log_fds l ++ [fd]) (log_in l) (log_ok l)
                  else l)
  | OpFlush =>
      '(r, c, w) ← wl_connection_flush fuel c w;
      Some (c, w, l)
  | OpRead =>
      '(r, c, w) ← wl_connection_read fuel c w;
      Some (c, w, mk_log (log_out l) (log_fds l) (log_in l) (log_ok l && is_ret r))
  | OpTake n =>
      if wl_connection_pending_input c <? n then Some (c, w, l)
      else
        bs ← wl_connection_copy c n;
        Some (wl_connection_consume c n, w,
              mk_log (log_out l) (log_fds l) (log_in l ++ bs) (log_ok l))
  end.

Fixpoint conn_run (fuel : nat) (ops : list conn_op) (c : wl_connection) (w : W) (l : log)
    : option (wl_connection * W * log) :=
  match ops with
  | [] => Some (c, w, l)
  | op :: ops =>
      '(c, w, l) ← conn_step fuel op c w l;
      conn_run fuel ops c w l
  end.
End session.

(** The arguments the C types allow, with writes below a gigabyte. *)
Definition op_ok (op : conn_op) : Prop :=
  match op with
  | OpWrite data | OpQueue data => Z.of_nat (length data) <= 2 ^ 30
  | OpPutFd fd => - 2 ^ 31 <= fd < 2 ^ 31
  | OpTake n => 0 <= n
  | OpFlush | OpRead => True
  end.

#[export] Instance op_ok_dec op : Decision (op_ok op).
Proof. destruct op; cbn; apply _. Defined.

(** A connection in working order whose rings are capped at [2^m] bytes. *)
Definition conn_inv (m : Z) (c : wl_connection) : Prop := conn_ok c ∧ conn_capped m c.

Lemma conn_inv_split m c :
  conn_inv m c ↔ conn_out_ok c ∧ conn_out_capped m c ∧ conn_in_ok m c.
Proof.
  unfold conn_inv, conn_ok, conn_capped, conn_out_ok, conn_out_capped, conn_in_ok,
    fd_ring_bounded, ring_capped. tauto.
Qed.

Section session_spec.
Context {W : Type} `{OsSockLaws W} (m : Z) (w0 : W) (Hm : 12 <= m <= 30).

(** The invariant of a session that started in [w0] with an empty log. *)
Definition session_inv (c : wl_connection) (w : W) (l : log) : Prop :=
  conn_inv m c ∧ (eintr_budget w <= eintr_budget w0)%nat ∧
  out_stream c w = sent_bytes w0 ++ log_out l ∧
  out_fd_stream c w = sent_fds w0 ++ log_fds l ∧
  (log_ok l = true → rcvd_bytes w0 ++ log_in l ++ ring_contents (c_in c) = rcvd_bytes w).

Lemma conn_in_ok_same c c' : same_input c c' → conn_in_ok m c → conn_in_ok m c'.
Proof. unfold conn_in_ok. intros (->&->&_). done. Qed.

(** A session that only sends. *)
Lemma session_inv_sent c w l c' w' out fds :
  session_inv c w l → conn_out_ok c' → conn_out_capped m c' → same_input c c' →
  recv_frame w w' →
  out_stream c' w' = out_stream c w ++ out → out_fd_stream c' w' = out_fd_stream c w ++ fds →
  session_inv c' w' (mk_log (log_out l ++ out) (log_fds l ++ fds) (log_in l) (log_ok l)).
Proof.
  intros ((_&_&Hin)%conn_inv_split&Hb&Ho&Hf&Hi) Hout Hcap Hsame [Hrc ?] Ho' Hf'.
  split; [apply conn_inv_split; split_and!; try done; by eapply conn_in_ok_same|].
  cbn [log_out log_fds log_in log_ok]. split_and!; [lia|..].
  - by rewrite Ho', Ho, app_assoc.
  - by rewrite Hf', Hf, app_assoc.
  - destruct Hsame as (->&_). intros Hl. rewrite Hrc. auto.
Qed.

Lemma session_inv_log c w l l' : session_inv c w l → l = l' → session_inv c w l'.
Proof. by intros ? <-. Qed.

(** The fuel of every loop: a full ring, and every interruption. *)
Definition fuel_ok (fuel : nat) : Prop := (Z.to_nat (2 ^ m) + eintr_budget w0 < fuel)%nat.

Lemma ring_capped_size b : ring_ok b → ring_capped m b → 0 <= ring_buffer_size b <= 2 ^ m.
Proof.
  intros [Hwf|Hn] [_ Hb]; [|rewrite ring_null_size by done; lia].
  pose proof (ring_bounds b Hwf) as (_&Hs&_). split; [lia|].
  transitivity (ring_cap b); [lia|]. apply Z.pow_le_mono_r; lia.
Qed.

Section step.
Context (fuel : nat) (c : wl_connection) (w : W) (l : log).
Hypothesis (Hfuel : fuel_ok fuel) (Hinv : session_inv c w l).

Lemma session_parts :
  conn_out_ok c ∧ conn_out_capped m c ∧ conn_in_ok m c ∧ conn_out_small c ∧
  (Z.to_nat (ring_buffer_size (c_out c)) + eintr_budget w < fuel)%nat ∧
  (Z.to_nat (2 ^ m - ring_buffer_size (c_in c)) + eintr_budget w < fuel)%nat.
Proof.
  destruct Hinv as ((Hout&Hcap&Hin)%conn_inv_split&Hbud&_). split_and!; try done.
  - by eapply conn_out_capped_small.
  - pose proof (ring_capped_size _ (proj1 Hout) (proj1 Hcap)). unfold fuel_ok in *. lia.
  - pose proof (ring_size_bound (c_in c)). unfold fuel_ok in *. lia.
Qed.

Lemma queue_step data :
  Z.of_nat (length data) <= 2 ^ 30 →
  ∃ r c' w', wl_connection_queue fuel c data w = Some (r, c', w') ∧
    session_inv c' w' (if is_ret r
      then mk_log (log_out l ++ data) (log_fds l) (log_in l) (log_ok l) else l).
Proof.
  intros Hd. destruct session_parts as (Hout&Hcap&_&Hsmall&Hf&_).
  destruct (queue_spec fuel c data w) as (r&c'&w'&->&Hout'&Hsame&Hfds&Hstr&Hrf&Hcap');
    [done..|lia|done|].
  eexists _, _, _. split; [done|].
  eapply session_inv_log; [eapply (session_inv_sent c w l c' w' _ []); try done|].
  - apply Hcap'; [lia|done].
  - by rewrite app_nil_r.
  - destruct r; cbn [is_ret]; by rewrite !app_nil_r; try destruct l.
Qed.

Lemma put_fd_step fd :
  - 2 ^ 31 <= fd < 2 ^ 31 →
  ∃ r c' w', wl_connection_put_fd fuel c fd w = Some (r, c', w') ∧
    session_inv c' w' (if is_ret r
      then mk_log (log_out l) (log_fds l ++ [fd]) (log_in l) (log_ok l) else l).
Proof.
  intros Hd. destruct session_parts as (Hout&Hcap&_&Hsmall&Hf&_).
  destruct (put_fd_spec fuel c fd w) as (r&c'&w'&->&Hout'&Hsame&Hstr&Hfds&Hrf&Hcap');
    [done..|].
  eexists _, _, _. split; [done|].
  eapply session_inv_log; [eapply (session_inv_sent c w l c' w' [] _); try done|].
  - apply Hcap'; [lia|done].
  - by rewrite app_nil_r.
  - destruct r; cbn [is_ret]; by rewrite !app_nil_r; try destruct l.
Qed.

Lemma flush_step :
  ∃ r c' w', wl_connection_flush fuel c w = Some (r, c', w') ∧ session_inv c' w' l.
Proof.
  destruct session_parts as (Hout&Hcap&_&_&Hf&_).
  destruct (flush_spec fuel c w) as (r&c'&w'&->&Hout'&Hsame&Hstr&Hfds&Hshr&Hrf&_); [done..|].
  eexists _, _, _. split; [done|].
  eapply session_inv_log; [eapply (session_inv_sent c w l c' w' [] []); try done|].
  - by eapply conn_out_capped_shrink.
  - by rewrite app_nil_r.
  - by rewrite app_nil_r.
  - rewrite !app_nil_r. by destruct l.
Qed.

Lemma read_step :
  ∃ r c' w', wl_connection_read fuel c w = Some (r, c', w') ∧
    session_inv c' w' (mk_log (log_out l) (log_fds l) (log_in l) (log_ok l && is_ret r)).
Proof.
  destruct session_parts as (Hout&Hcap&Hin&_&_&Hf).
  destruct (read_spec m fuel c w Hm Hin Hf) as (r&c'&w'&->&Hin'&(Eo&Ef&_)&(Hs1&Hs2&Hb)&got&_&Hg&Hr).
  eexists _, _, _. split; [done|]. destruct Hinv as (_&Hbud&Ho&Hfd&Hi).
  split_and!; cbn [log_out log_fds log_in log_ok]; try lia.
  - apply conn_inv_split. unfold conn_out_ok, conn_out_capped. by rewrite Eo, Ef.
  - unfold out_stream. by rewrite Eo, Hs1.
  - unfold out_fd_stream, out_fds. by rewrite Ef, Hs2.
  - intros [Hl Hret]%andb_prop. destruct r; [|done]. destruct Hr as [-> _].
    rewrite Hg, <- (Hi Hl), <- !app_assoc. done.
Qed.

Lemma take_step n :
  0 <= n → n <= wl_connection_pending_input c →
  ∃ bs, wl_connection_copy c n = Some bs ∧
    session_inv (wl_connection_consume c n) w
      (mk_log (log_out l) (log_fds l) (log_in l ++ bs) (log_ok l)).
Proof.
  intros Hn Hle. destruct session_parts as (_&_&Hin&_). destruct Hinv as (Hc&Hbud&Ho&Hfd&Hi).
  pose proof (conn_in_ok_size m c Hm Hin) as Hsz. unfold wl_connection_pending_input in Hle.
  rewrite u32_small in Hle by lia. unfold wl_connection_copy.
  destruct Hin as (Hin&_). rewrite ring_ok_copy_prefix by (done || lia).
  eexists. split; [done|]. destruct (ring_ok_consume (c_in c) n Hin) as [Hok' Hcon]; [lia|].
  split_and!; cbn [log_out log_fds log_in log_ok]; try done.
  - destruct Hc as [(_&?&?&?) Hcap]. split; [by split_and!|done].
  - intros Hl. unfold wl_connection_consume. cbn [c_in c_set_in].
    rewrite Hcon, <- (Hi Hl), <- app_assoc, take_drop. done.
Qed.

Lemma conn_step_spec op :
  op_ok op → ∃ c' w' l', conn_step fuel op c w l = Some (c', w', l') ∧ session_inv c' w' l'.
Proof.
  intros Hop. destruct op as [data|data|fd| | |n]; cbn [conn_step op_ok] in *.
  - destruct (queue_step data Hop) as (r&c'&w'&Hq&Hs). unfold wl_connection_write.
    rewrite Hq. cbn [mbind option_bind]. destruct r; by eexists _, _, _.
  - destruct (queue_step data Hop) as (r&c'&w'&->&Hs). by eexists _, _, _.
  - destruct (put_fd_step fd Hop) as (r&c'&w'&->&Hs). by eexists _, _, _.
  - destruct flush_step as (r&c'&w'&->&Hs). by eexists _, _, _.
  - destruct read_step as (r&c'&w'&->&Hs). by eexists _, _, _.
  - case_step; zbool; [by eexists _, _, _|].
    destruct (take_step n Hop) as (bs&->&Hs); [done|]. by eexists _, _, _.
Qed.
End step.

Lemma conn_run_spec fuel ops c w l :
  fuel_ok fuel → Forall op_ok ops → session_inv c w l →
  ∃ c' w' l', conn_run fuel ops c w l = Some (c', w', l') ∧ session_inv c' w' l'.
Proof.
  intros Hfuel Hops. revert c w l. induction Hops as [|op ops Hop Hops IH]; intros c w l Hinv.
  { by eexists _, _, _. }
  cbn [conn_run]. destruct (conn_step_spec fuel c w l Hfuel Hinv op Hop) as (c'&w'&l'&->&Hinv').
  cbn [mbind option_bind]. by apply IH.
Qed.

Lemma session_start c :
  conn_ok c → conn_capped m c → same_contents connection_zero c →
  session_inv c w0 log_empty.
Proof.
  intros Hok Hcap (Hci&Hco&_&Hcf). split; [done|]. cbn [log_out log_fds log_in log_ok log_empty].
  unfold out_stream, out_fd_stream, out_fds. rewrite Hci, Hco, Hcf.
  split_and!; try done. intros _. apply app_nil_r.
Qed.
End session_spec.

(** ** The properties *)

(** C1: From [wl_connection_create] with a maximal buffer size of at least 1 and
    at most 2^30 on (0, for buffers without a maximum, is not covered), any
    sequence of writes, queueings (of at most 2^30 bytes each), descriptors,
    flushes, reads and takes runs without undefined behaviour;
    afterwards the bytes sent followed by the bytes still queued are exactly the
    bytes accepted, the same holds of the descriptors, and as long as no read
    has failed the bytes taken followed by the bytes buffered are exactly the
    bytes received. *)
Theorem connection_session {W : Type} `{OsSockLaws W} fd max_buffer_size ops (w w1 : W) c fuel :
  0 < max_buffer_size <= 2 ^ 30 → Forall op_ok ops →
  wl_connection_create fd max_buffer_size w = Some (Ret c, w1) →
  (Z.to_nat (2 * max_buffer_size + 4096) + eintr_budget w1 < fuel)%nat →
  ∃ c' w' l, conn_run fuel ops c w1 log_empty = Some (c', w', l) ∧
    sent_bytes w' ++ ring_contents (c_out c') = sent_bytes w1 ++ log_out l ∧
    sent_fds w' ++ fds_decode (ring_contents (c_fds_out c')) = sent_fds w1 ++ log_fds l ∧
    (log_ok l = true →
     rcvd_bytes w1 ++ log_in l ++ ring_contents (c_in c') = rcvd_bytes w').
Proof.
  intros Hn Hops Hc Hf. destruct (create_spec fd max_buffer_size w) as (m&r&w2&Hm&Hc'&Hr); [lia|].
  rewrite Hc in Hc'. injection Hc' as <- <-. destruct Hr as (Hok&Hcon&_&_&Hcap).
  destruct (get_max_size_bits_spec max_buffer_size) as (m'&Hm'&Hb&Hle&Hor); [lia|].
  rewrite Hm in Hm'. injection Hm' as <-.
  assert (12 <= m <= 30 ∧ 2 ^ m <= 2 * max_buffer_size + 4096) as [Hmr Hmf].
  { destruct Hor as [->|Hlt]; [lia|]. assert (m - 1 < 30).
    { apply (Z.pow_lt_mono_r_iff 2); lia. }
    replace m with (m - 1 + 1) at 3 by lia. rewrite Z.pow_add_r; lia. }
  destruct (conn_run_spec m w1 Hmr fuel ops c w1 log_empty) as (c'&w'&l&->&_&_&?&?&?); [|done|..].
  - unfold fuel_ok. lia.
  - apply session_start; [done|by apply Hcap; lia|done].
  - by eexists _, _, _.
Qed.

(** A concrete session: two writes around a descriptor, a flush that the socket
    takes in pieces of three bytes, and a read. *)
Definition demo_world : sim :=
  mk_sim [] [] [] [([1; 2; 3; 4], [mk_cmsg true (fd_bytes 9)])] 3 2 true [3] [].
Definition demo_ops : list conn_op :=
  [OpWrite [10; 11; 12; 13; 14]; OpPutFd 7; OpRead; OpFlush; OpQueue [15]; OpTake 2].
Definition demo_conn : wl_connection * sim :=
  match wl_connection_create 3 4096 demo_world with
  | Some (Ret c, w) => (c, w)
  | _ => (connection_zero, demo_world)
  end.

Lemma demo_conn_created :
  wl_connection_create 3 4096 demo_world = Some (Ret (fst demo_conn), snd demo_conn).
Proof. vm_compute. reflexivity. Qed.

Lemma demo_conn_inv : conn_inv 12 (fst demo_conn).
Proof.
  destruct (create_spec 3 4096 demo_world) as (m&r&w&Hm&Hc&Hr); [lia|].
  rewrite demo_conn_created in Hc. injection Hc as <- <-.
  assert (m = 12) as -> by (vm_compute in Hm; congruence).
  destruct Hr as (?&_&_&_&Hcap). split; [done|]. by apply Hcap.
Qed.

Lemma connection_session_witness :
  ∃ c' w' l, conn_run (Z.to_nat 20000) demo_ops (fst demo_conn) (snd demo_conn) log_empty =
      Some (c', w', l) ∧
    sent_bytes w' ++ ring_contents (c_out c') = sent_bytes (snd demo_conn) ++ log_out l ∧
    sent_fds w' ++ fds_decode (ring_contents (c_fds_out c')) =
      sent_fds (snd demo_conn) ++ log_fds l ∧
    (log_ok l = true →
     rcvd_bytes (snd demo_conn) ++ log_in l ++ ring_contents (c_in c') = rcvd_bytes w').
Proof.
  apply (connection_session 3 4096 demo_ops demo_world).
  - lia.
  - by apply (bool_decide_unpack _).
  - exact demo_conn_created.
  - change (eintr_budget (snd demo_conn)) with 2%nat. lia.
Defined.

(** C33: [wl_connection_flush] on a connection that wants a flush: it returns; on
    success the peer has been sent the whole output ring, in order, the ring is
    empty, and with at most 28 descriptors per byte all descriptors are sent as
    well; on failure what has been sent and what is still queued add up to the
    same streams, so a later flush resumes where this one stopped. *)
Theorem flush_delivers {W : Type} `{OsSockLaws W} fuel c (w : W) :
  conn_out_ok c → c_want_flush c = true →
  (Z.to_nat (ring_buffer_size (c_out c)) + eintr_budget w < fuel)%nat →
  ∃ r c' w', wl_connection_flush fuel c w = Some (r, c', w') ∧
    sent_bytes w' ++ ring_contents (c_out c') = sent_bytes w ++ ring_contents (c_out c) ∧
    sent_fds w' ++ out_fds c' = sent_fds w ++ out_fds c ∧
    match r with
    | Ret n => sent_bytes w' = sent_bytes w ++ ring_contents (c_out c) ∧
               ring_contents (c_out c') = [] ∧ c_want_flush c' = false ∧
               n = i32 (ring_buffer_size (c_out c)) ∧
               (Z.of_nat (length (out_fds c)) <= 28 * ring_buffer_size (c_out c) →
                sent_fds w' = sent_fds w ++ out_fds c)
    | Fail e => e ≠ EINTR ∧ c_want_flush c' = true
    end.
Proof.
  intros Hok Hw Hf.
  destruct (flush_spec fuel c w Hok Hf) as (r&c'&w'&->&_&_&Hs&Hfs&_&_&Hr).
  rewrite Hw in Hr. unfold out_stream, out_fd_stream in *.
  eexists _, _, _. split; [done|]. split; [done|]. split; [done|].
  destruct r as [n|e]; [|done]. destruct Hr as (?&Hc&?&Hfd). rewrite Hc, app_nil_r in Hs.
  split_and!; try done. intros Hle. by rewrite (Hfd Hle), app_nil_r in Hfs.
Qed.

(** A connection with three bytes and one descriptor queued. *)
Definition demo_flush_conn : wl_connection :=
  match conn_run 100 [OpWrite [10; 11; 12]; OpPutFd 7] (fst demo_conn) (snd demo_conn) log_empty
  with
  | Some (c, _, _) => c
  | None => connection_zero
  end.

Lemma demo_flush_conn_ok : conn_out_ok demo_flush_conn.
Proof.
  split; left; repeat split;
    try (by vm_compute); try (intros Hx; by vm_compute in Hx).
Qed.

Lemma flush_delivers_witness :
  ∃ r c' w', wl_connection_flush 100 demo_flush_conn demo_world = Some (r, c', w') ∧
    sent_bytes w' ++ ring_contents (c_out c') =
      sent_bytes demo_world ++ ring_contents (c_out demo_flush_conn) ∧
    sent_fds w' ++ out_fds c' = sent_fds demo_world ++ out_fds demo_flush_conn ∧
    match r with
    | Ret n => sent_bytes w' = sent_bytes demo_world ++ ring_contents (c_out demo_flush_conn) ∧
               ring_contents (c_out c') = [] ∧ c_want_flush c' = false ∧
               n = i32 (ring_buffer_size (c_out demo_flush_conn)) ∧
               (Z.of_nat (length (out_fds demo_flush_conn)) <=
                  28 * ring_buffer_size (c_out demo_flush_conn) →
                sent_fds w' = sent_fds demo_world ++ out_fds demo_flush_conn)
    | Fail e => e ≠ EINTR ∧ c_want_flush c' = true
    end.
Proof.
  apply (flush_delivers 100 demo_flush_conn demo_world).
  - exact demo_flush_conn_ok.
  - vm_compute. reflexivity.
  - apply Nat.ltb_lt. vm_compute. reflexivity.
Defined.

(** C32: [wl_connection_read] returns, for every behaviour of the socket; the
    bytes it received go behind the bytes already buffered, in order, the
    result is the number of bytes buffered, and no byte is dropped unless it
    reports [EOVERFLOW]. *)
Theorem read_delivers {W : Type} `{OsSockLaws W} m fuel c (w : W) :
  12 <= m <= 30 → conn_in_ok m c →
  (Z.to_nat (2 ^ m - ring_buffer_size (c_in c)) + eintr_budget w < fuel)%nat →
  ∃ r c' w' got, wl_connection_read fuel c w = Some (r, c', w') ∧ conn_in_ok m c' ∧
    rcvd_bytes w' = rcvd_bytes w ++ got ∧
    match r with
    | Ret n => ring_contents (c_in c') = ring_contents (c_in c) ++ got ∧
               n = Z.of_nat (length (ring_contents (c_in c')))
    | Fail e => ∃ kept lost, got = kept ++ lost ∧ (e ≠ EOVERFLOW → lost = []) ∧
                ring_contents (c_in c') = ring_contents (c_in c) ++ kept
    end.
Proof.
  intros Hm Hok Hf. destruct (read_spec m fuel c w Hm Hok Hf)
    as (r&c'&w'&->&Hok'&_&_&got&_&Hg&Hr).
  eexists _, _, _, got. split; [done|]. split; [done|]. split; [done|].
  destruct r as [n|e]; [|tauto]. by rewrite ring_ok_length by apply Hok'.
Qed.

Lemma read_delivers_witness :
  ∃ r c' w' got, wl_connection_read (Z.to_nat 5000) (fst demo_conn) (snd demo_conn) =
      Some (r, c', w') ∧ conn_in_ok 12 c' ∧
    rcvd_bytes w' = rcvd_bytes (snd demo_conn) ++ got ∧
    match r with
    | Ret n => ring_contents (c_in c') = ring_contents (c_in (fst demo_conn)) ++ got ∧
               n = Z.of_nat (length (ring_contents (c_in c')))
    | Fail e => ∃ kept lost, got = kept ++ lost ∧ (e ≠ EOVERFLOW → lost = []) ∧
                ring_contents (c_in c') = ring_contents (c_in (fst demo_conn)) ++ kept
    end.
Proof.
  apply (read_delivers 12 (Z.to_nat 5000) (fst demo_conn) (snd demo_conn)).
  - lia.
  - apply (conn_inv_split 12 (fst demo_conn)), demo_conn_inv.
  - change (ring_buffer_size (c_in (fst demo_conn))) with 0.
    change (eintr_budget (snd demo_conn)) with 2%nat. lia.
Defined.

(** C36: When ancillary data arrives, every descriptor it carries ends up in the
    ring of received descriptors or is closed, none leaks and none is closed
    twice; they are all stored, in order, unless [EOVERFLOW] is reported. *)
Theorem decode_cmsg_no_leak {W : Type} `{OsMem W} `{OsFd W} m ms b (w : W) :
  12 <= m <= 30 → fd_ring_bounded m b → cmsgs_ok CLEN ms →
  ∃ r b' w' closed, decode_cmsg b ms w = Some (r, b', w') ∧ fd_calls w closed w' ∧
    fds_decode (ring_contents b') ++ closed ≡ₚ
      fds_decode (ring_contents b) ++ fds_decode (rights_bytes ms) ∧
    match r with
    | Ret _ => closed = [] ∧ ring_contents b' = ring_contents b ++ rights_bytes ms
    | Fail e => e = EOVERFLOW
    end.
Proof.
  intros Hm Hb Hms. destruct (decode_cmsg_spec m ms b w Hm Hb Hms)
    as (r&b'&w'&->&Hr&_&closed&Hcalls&Hperm&Hok).
  eexists _, _, _, closed. split; [done|]. split; [done|]. split; [done|].
  destruct r as [u|e]; [by destruct (Hok eq_refl) as (_&?&?)|]. by destruct Hr as [|[= ->]].
Qed.

Lemma decode_cmsg_no_leak_witness :
  ∃ r b' w' closed,
    decode_cmsg (c_fds_in (fst demo_conn)) [mk_cmsg true (fd_bytes 9)] demo_world =
      Some (r, b', w') ∧ fd_calls demo_world closed w' ∧
    fds_decode (ring_contents b') ++ closed ≡ₚ
      fds_decode (ring_contents (c_fds_in (fst demo_conn))) ++
      fds_decode (rights_bytes [mk_cmsg true (fd_bytes 9)]) ∧
    match r with
    | Ret _ => closed = [] ∧ ring_contents b' = ring_contents (c_fds_in (fst demo_conn)) ++
                 rights_bytes [mk_cmsg true (fd_bytes 9)]
    | Fail e => e = EOVERFLOW
    end.
Proof.
  apply (decode_cmsg_no_leak 12 [mk_cmsg true (fd_bytes 9)] (c_fds_in (fst demo_conn))).
  - lia.
  - apply (conn_inv_split 12 (fst demo_conn)), demo_conn_inv.
  - repeat constructor; by vm_compute.
Defined.

(** [wl_connection_read] receives nothing, and reports the bytes buffered,
    exactly when one byte more would reach the cap or any power of two from
    4096 on.  With 4095 bytes of a 4096-byte message buffered, no further call
    ever completes the message, even on a connection without a cap. *)
Theorem read_stalls {W : Type} `{OsMem W} `{OsFd W} `{OsSock W} fuel c j (w : W) :
  ring_ok (c_in c) → max_ok (c_in c) → 12 <= j <= 30 →
  ring_buffer_size (c_in c) = 2 ^ j - 1 →
  wl_connection_read (S fuel) c w = Some (Ret (2 ^ j - 1), c, w).
Proof.
  intros Hok Hmax Hj Hs. assert (2 ^ j <= 2 ^ 30) by (apply Z.pow_le_mono_r; lia).
  assert (2 ^ 12 <= 2 ^ j) by (apply Z.pow_le_mono_r; lia).
  cbn [wl_connection_read].
  destruct (is_max_size_reached_spec (c_in c)) as (r&->&Hr); [lia|done|].
  assert (r = true) as ->. { apply Hr. right. exists j. lia. }
  cbn [mbind option_bind]. rewrite Hs, i32_small by lia. done.
Qed.

Definition stalled_conn : wl_connection :=
  c_set_in (mk_ring (replicate (Z.to_nat 4096) 0) 4095 0 12 0) connection_zero.

Lemma read_stalls_witness :
  wl_connection_read 1 stalled_conn demo_world = Some (Ret (2 ^ 12 - 1), stalled_conn, demo_world).
Proof.
  apply (read_stalls 0 stalled_conn 12 demo_world).
  - left. split_and!; try (by vm_compute); try (intros Hx; by vm_compute in Hx).
  - by left.
  - lia.
  - vm_compute. reflexivity.
Defined.

(** [wl_connection_create] yields a connection in working order with empty
    rings even where the blocks of the rings cannot be allocated, and
    [wl_connection_destroy] of any connection in working order closes exactly
    the descriptors still queued in either direction, each once. *)
Theorem create_destroy {W : Type} `{OsMem W} `{OsFd W} fd max_buffer_size c' (w w' : W) :
  0 <= max_buffer_size <= 2 ^ 63 → conn_ok c' →
  (∃ r w1, wl_connection_create fd max_buffer_size w = Some (r, w1) ∧
     match r with
     | Ret c => conn_ok c ∧ same_contents connection_zero c ∧ wl_connection_get_fd c = fd
     | Fail e => e = ENOMEM
     end) ∧
  wl_connection_destroy c' w' =
    Some (wl_connection_get_fd c',
          close_all (fds_decode (ring_contents (c_fds_out c')) ++
                     fds_decode (ring_contents (c_fds_in c'))) w').
Proof.
  intros Hn Hok. split; [|by apply destroy_spec].
  destruct (create_spec fd max_buffer_size w Hn) as (m&r&w1&_&->&Hr).
  eexists _, _. split; [done|]. destruct r; [|done]. tauto.
Qed.

Definition no_memory : sim := mk_sim [] [] [] [] 3 2 false [3] [].

Lemma create_destroy_witness :
  (∃ r w1, wl_connection_create 3 0 no_memory = Some (r, w1) ∧
     match r with
     | Ret c => conn_ok c ∧ same_contents connection_zero c ∧ wl_connection_get_fd c = 3
     | Fail e => e = ENOMEM
     end) ∧
  wl_connection_destroy connection_zero no_memory =
    Some (wl_connection_get_fd connection_zero,
          close_all (fds_decode (ring_contents (c_fds_out connection_zero)) ++
                     fds_decode (ring_contents (c_fds_in connection_zero))) no_memory).
Proof.
  apply (create_destroy 3 0 connection_zero no_memory no_memory).
  - lia.
  - exact connection_zero_ok.
Defined.
