(* ===== verification/WlList.v ===== *)
(** * The intrusive doubly linked lists of libwayland

    Models [struct wl_list] and its operations (wayland/build/src/wayland-util.c,
    lines 37-94) on an explicit store: an address maps to the [prev] and [next]
    fields found there, and a dereference outside the store is [None].  The
    abstract view is [is_list], a head and the addresses linked after it. *)

From S2P Require Import Prelude.
Open Scope Z_scope.

Record wl_list : Type := mk_wl_list { l_prev : Z; l_next : Z }.

Notation store := (gmap Z wl_list).
Definition NULL : Z := 0.

(** ** The operations *)

Definition get_prev (h : store) (p : Z) : option Z := l_prev <$> h !! p.
Definition get_next (h : store) (p : Z) : option Z := l_next <$> h !! p.
Definition set_prev (p v : Z) (h : store) : option store :=
  n ← h !! p; Some (<[p := mk_wl_list v (l_next n)]> h).
Definition set_next (p v : Z) (h : store) : option store :=
  n ← h !! p; Some (<[p := mk_wl_list (l_prev n) v]> h).

Definition wl_list_init (list : Z) (h : store) : option store :=
  h ← set_prev list list h;
  set_next list list h.

Definition wl_list_insert (list elm : Z) (h : store) : option store :=
  h ← set_prev elm list h;
  n ← get_next h list;
  h ← set_next elm n h;
  h ← set_next list elm h;
  n ← get_next h elm;
  set_prev n elm h.

Definition wl_list_remove (elm : Z) (h : store) : option store :=
  p ← get_prev h elm;
  n ← get_next h elm;
  h ← set_next p n h;
  n ← get_next h elm;
  p ← get_prev h elm;
  h ← set_prev n p h;
  h ← set_next elm NULL h;
  set_prev elm NULL h.

(** The [while] loop of [wl_list_length]; [count] is an [int]. *)
Fixpoint wl_list_length_loop (fuel : nat) (h : store) (list e count : Z) : option Z :=
  match fuel with
  | O => None
  | S fuel =>
      if e =? list then Some count
      else
        e ← get_next h e;
        if count <? 2 ^ 31 - 1 then wl_list_length_loop fuel h list e (count + 1) else None
  end.

Definition wl_list_length (fuel : nat) (list : Z) (h : store) : option Z :=
  e ← get_next h list;
  wl_list_length_loop fuel h list e 0.

Definition wl_list_empty (list : Z) (h : store) : option bool :=
  n ← get_next h list;
  Some (n =? list).

Definition wl_list_insert_list (list other : Z) (h : store) : option store :=
  b ← wl_list_empty other h;
  if (b : bool) then Some h
  else
    n ← get_next h other;
    h ← set_prev n list h;
    p ← get_prev h other;
    n ← get_next h list;
    h ← set_next p n h;
    n ← get_next h list;
    p ← get_prev h other;
    h ← set_prev n p h;
    n ← get_next h other;
    set_next list n h.

(** ** Segments and lists *)

(** [a] links forward to the nodes of [l] and then to [z], and back. *)
Fixpoint links (h : store) (a : Z) (l : list Z) (z : Z) : Prop :=
  match l with
  | [] => get_next h a = Some z ∧ get_prev h z = Some a
  | b :: l => get_next h a = Some b ∧ get_prev h b = Some a ∧ links h b l z
  end.

(** The circular list with head [a]. *)
Definition is_list (h : store) (a : Z) (l : list Z) : Prop :=
  NoDup (a :: l) ∧ links h a l a.

Lemma links_app h a l1 b l2 z :
  links h a (l1 ++ b :: l2) z ↔ links h a l1 b ∧ links h b l2 z.
Proof.
  revert a. induction l1 as [|c l1 IH]; intros a; cbn [links app]; [tauto|].
  rewrite IH. tauto.
Qed.

(** Every node of a circular list is the head of the rotated list. *)
Lemma is_list_rotate h a l1 b l2 :
  is_list h a (l1 ++ b :: l2) → is_list h b (l2 ++ a :: l1).
Proof.
  intros [Hnd [? ?]%links_app]. split; [|by apply links_app].
  assert (b :: l2 ++ a :: l1 ≡ₚ a :: l1 ++ b :: l2) as -> by solve_Permutation. done.
Qed.

Lemma links_frame h h' a l z :
  links h a l z →
  (∀ x, x ∈ a :: l → get_next h' x = get_next h x) →
  (∀ x, x ∈ l ++ [z] → get_prev h' x = get_prev h x) →
  links h' a l z.
Proof.
  revert a. induction l as [|b l IH]; intros a; cbn [links app].
  - intros [? ?] Hn Hp. rewrite Hn, Hp by set_solver. done.
  - intros (?&?&?) Hn Hp. rewrite (Hn a), (Hp b) by set_solver. split_and!; try done.
    apply IH; [done|intros x Hx; apply Hn; set_solver +Hx|intros x Hx; apply Hp; set_solver +Hx].
Qed.

(** What field writes do to reads. *)
Lemma set_prev_spec p v h :
  p ∈ dom h → ∃ h', set_prev p v h = Some h' ∧ dom h' = dom h ∧
    (∀ q, get_next h' q = get_next h q) ∧
    (∀ q, get_prev h' q = if decide (p = q) then Some v else get_prev h q).
Proof.
  intros [n Hn]%elem_of_dom. unfold set_prev. rewrite Hn. eexists. split; [done|].
  unfold get_next, get_prev. split_and!.
  - rewrite dom_insert_L. apply elem_of_dom_2 in Hn. set_solver.
  - intros q. rewrite lookup_insert. case_decide; [|done]. subst. by rewrite Hn.
  - intros q. rewrite lookup_insert. by case_decide.
Qed.

Lemma set_next_spec p v h :
  p ∈ dom h → ∃ h', set_next p v h = Some h' ∧ dom h' = dom h ∧
    (∀ q, get_prev h' q = get_prev h q) ∧
    (∀ q, get_next h' q = if decide (p = q) then Some v else get_next h q).
Proof.
  intros [n Hn]%elem_of_dom. unfold set_next. rewrite Hn. eexists. split; [done|].
  unfold get_next, get_prev. split_and!.
  - rewrite dom_insert_L. apply elem_of_dom_2 in Hn. set_solver.
  - intros q. rewrite lookup_insert. case_decide; [|done]. subst. by rewrite Hn.
  - intros q. rewrite lookup_insert. by case_decide.
Qed.

Lemma get_next_dom h p v : get_next h p = Some v → p ∈ dom h.
Proof. unfold get_next. intros (n&Hn&_)%fmap_Some. by apply elem_of_dom_2 in Hn. Qed.

Lemma get_prev_dom h p v : get_prev h p = Some v → p ∈ dom h.
Proof. unfold get_prev. intros (n&Hn&_)%fmap_Some. by apply elem_of_dom_2 in Hn. Qed.

(** One field write: run it, and keep what it does to reads as [Hn] and [Hp]. *)
Ltac write_field h' Hd Hn Hp :=
  match goal with
  | |- context [set_prev ?p ?v ?h ≫= _] =>
      destruct (set_prev_spec p v h) as (h'&->&Hd&Hn&Hp); [|cbn [mbind option_bind]]
  | |- context [set_next ?p ?v ?h ≫= _] =>
      destruct (set_next_spec p v h) as (h'&->&Hd&Hp&Hn); [|cbn [mbind option_bind]]
  | |- context [set_prev ?p ?v ?h] =>
      destruct (set_prev_spec p v h) as (h'&->&Hd&Hn&Hp)
  | |- context [set_next ?p ?v ?h] =>
      destruct (set_next_spec p v h) as (h'&->&Hd&Hp&Hn)
  end.

Lemma wl_list_init_spec p h :
  p ∈ dom h → ∃ h', wl_list_init p h = Some h' ∧ dom h' = dom h ∧
    (∀ q, get_next h' q = if decide (p = q) then Some p else get_next h q) ∧
    (∀ q, get_prev h' q = if decide (p = q) then Some p else get_prev h q).
Proof.
  intros Hp. unfold wl_list_init. write_field h1 Hd1 Hn1 Hp1; [done|].
  write_field h2 Hd2 Hn2 Hp2; [by rewrite Hd1|].
  eexists. split; [done|]. split_and!; [congruence|..]; intros q;
    rewrite ?Hn2, ?Hp2, ?Hn1, ?Hp1; done.
Qed.

Lemma wl_list_insert_spec list elm n h :
  get_next h list = Some n → n ∈ dom h → elm ∈ dom h → elm ≠ list → elm ≠ n →
  ∃ h', wl_list_insert list elm h = Some h' ∧ dom h' = dom h ∧
    (∀ q, get_next h' q = if decide (list = q) then Some elm
                          else if decide (elm = q) then Some n else get_next h q) ∧
    (∀ q, get_prev h' q = if decide (n = q) then Some elm
                          else if decide (elm = q) then Some list else get_prev h q).
Proof.
  intros Hl Hn He Hne Hne'. pose proof (get_next_dom _ _ _ Hl). unfold wl_list_insert.
  write_field h1 Hd1 Hn1 Hp1; [done|]. rewrite Hn1, Hl. cbn [mbind option_bind].
  write_field h2 Hd2 Hn2 Hp2; [by rewrite Hd1|].
  write_field h3 Hd3 Hn3 Hp3; [by rewrite Hd2, Hd1|].
  rewrite Hn3, decide_False, Hn2, decide_True by done. cbn [mbind option_bind].
  write_field h4 Hd4 Hn4 Hp4; [by rewrite Hd3, Hd2, Hd1|].
  eexists. split; [done|]. split_and!; [congruence|..]; intros q.
  - rewrite Hn4, Hn3, Hn2, Hn1. done.
  - rewrite Hp4, Hp3, Hp2, Hp1. done.
Qed.

Lemma wl_list_remove_spec elm p n h :
  get_prev h elm = Some p → get_next h elm = Some n → p ∈ dom h → n ∈ dom h →
  p ≠ elm → n ≠ elm →
  ∃ h', wl_list_remove elm h = Some h' ∧ dom h' = dom h ∧
    (∀ q, get_next h' q = if decide (elm = q) then Some NULL
                          else if decide (p = q) then Some n else get_next h q) ∧
    (∀ q, get_prev h' q = if decide (elm = q) then Some NULL
                          else if decide (n = q) then Some p else get_prev h q).
Proof.
  intros Hp Hn Hpd Hnd Hpe Hne. pose proof (get_next_dom _ _ _ Hn). unfold wl_list_remove.
  rewrite Hp, Hn. cbn [mbind option_bind]. write_field h1 Hd1 Hn1 Hp1; [done|].
  rewrite Hn1, Hp1, decide_False, Hn, Hp by done. cbn [mbind option_bind].
  write_field h2 Hd2 Hn2 Hp2; [by rewrite Hd1|].
  write_field h3 Hd3 Hn3 Hp3; [by rewrite Hd2, Hd1|].
  write_field h4 Hd4 Hn4 Hp4; [by rewrite Hd3, Hd2, Hd1|].
  eexists. split; [done|]. split_and!; [congruence|..]; intros q.
  - rewrite Hn4, Hn3, Hn2, Hn1. done.
  - rewrite Hp4, Hp3, Hp2, Hp1. done.
Qed.

(** ** The operations on lists *)

(** Nothing outside [xs] is written. *)
Definition frame (h h' : store) (xs : list Z) : Prop :=
  dom h' = dom h ∧
  ∀ q, q ∉ xs → get_next h' q = get_next h q ∧ get_prev h' q = get_prev h q.

(** Membership facts only: the hypotheses about field reads are dropped. *)
Ltac nodes :=
  repeat match goal with
  | H : ∀ q, get_next _ q = _ |- _ => clear H
  | H : ∀ q, get_prev _ q = _ |- _ => clear H
  | H : get_next _ _ = _ |- _ => clear H
  | H : get_prev _ _ = _ |- _ => clear H
  | H : links _ _ _ _ |- _ => clear H
  | H : is_list _ _ _ |- _ => clear H
  | H : frame _ _ _ |- _ => clear H
  | H : _ ∈ dom _ |- _ => clear H
  | H : dom _ = dom _ |- _ => clear H
  end;
  set_solver.

(** Decide the address comparisons the context settles. *)
Ltac addr :=
  repeat first [rewrite decide_True by done|rewrite decide_False by (done || congruence || nodes)].

Lemma links_next h a l z : links h a l z → get_next h a = Some (hd z l).
Proof. destruct l; cbn; tauto. Qed.

(** The last node of a segment from [a] through [l]. *)
Fixpoint last_node (a : Z) (l : list Z) : Z :=
  match l with
  | [] => a
  | b :: l => last_node b l
  end.

Lemma links_prev h a l z : links h a l z → get_prev h z = Some (last_node a l).
Proof.
  revert a. induction l as [|b l IH]; intros a; cbn [links last_node]; [tauto|].
  intros (_&_&Hl). by apply IH.
Qed.

Lemma last_node_in a l : last_node a l ∈ a :: l.
Proof.
  revert a. induction l as [|b l IH]; intros a; cbn [last_node]; [set_solver|].
  specialize (IH b). set_solver.
Qed.

Lemma links_dom h a l z : links h a l z → Forall (λ x, x ∈ dom h) (a :: l ++ [z]).
Proof.
  revert a. induction l as [|b l IH]; intros a; cbn [links app].
  - intros [?%get_next_dom ?%get_prev_dom]. auto.
  - intros (?%get_next_dom&_&Hl). constructor; [done|]. by apply IH.
Qed.

Lemma is_list_dom h a l x : is_list h a l → x ∈ a :: l → x ∈ dom h.
Proof.
  intros [_ Hl%links_dom] Hx. rewrite Forall_forall in Hl. apply Hl. set_solver.
Qed.

(** Lists that do not share a node with what is written are kept. *)
Lemma is_list_frame h h' xs a l :
  frame h h' xs → (∀ x, x ∈ a :: l → x ∉ xs) → is_list h a l → is_list h' a l.
Proof.
  intros [_ Hf] Hx [Hnd Hl]. split; [done|]. apply (links_frame h); [done|..];
    intros q Hq; apply Hf, Hx; set_solver.
Qed.

Lemma init_is_list p h :
  p ∈ dom h →
  ∃ h', wl_list_init p h = Some h' ∧ is_list h' p [] ∧ frame h h' [p].
Proof.
  intros Hp. destruct (wl_list_init_spec p h Hp) as (h'&->&Hd&Hn&Hpr).
  eexists. split; [done|]. split.
  - split; [apply NoDup_singleton|]. cbn. rewrite Hn, Hpr. by addr.
  - split; [done|]. intros q Hq. rewrite Hn, Hpr. by addr.
Qed.

(** Inserting after the head. *)
Lemma insert_is_list_head h a l elm :
  is_list h a l → elm ∈ dom h → elm ∉ a :: l →
  ∃ h', wl_list_insert a elm h = Some h' ∧ is_list h' a (elm :: l) ∧ frame h h' (elm :: a :: l).
Proof.
  intros Hl He Hni. pose proof Hl as [Hnd Hlk].
  assert (hd a l ∈ a :: l) as Hhd by (destruct l; set_solver).
  destruct (wl_list_insert_spec a elm (hd a l) h) as (h'&->&Hd&Hn&Hp).
  { by apply links_next. } { by apply (is_list_dom h a l). } { done. } { set_solver. }
  { intros ->. done. }
  eexists. split; [done|]. split.
  2: { split; [done|]. intros q Hq. rewrite Hn, Hp. by addr. }
  split; [apply NoDup_cons in Hnd as [? ?]; apply NoDup_cons; split; [set_solver|];
          apply NoDup_cons; split; [set_solver|done]|].
  cbn [links]. split; [rewrite Hn; by addr|]. split; [rewrite Hp; by addr|]. destruct l as [|b l]; cbn [links hd] in *.
  - rewrite Hn, Hp. by addr.
  - destruct Hlk as (?&?&Hlk). apply NoDup_cons in Hnd as [Ha [Hb Hnd]%NoDup_cons].
    split; [rewrite Hn; by addr|]. split; [rewrite Hp; by addr|].
    apply (links_frame h); [done|..]; intros q Hq.
    + rewrite Hn. by addr.
    + rewrite Hp. by addr.
Qed.

(** Inserting after any node. *)
Lemma insert_is_list h a l1 b l2 elm :
  is_list h a (l1 ++ b :: l2) → elm ∈ dom h → elm ∉ a :: l1 ++ b :: l2 →
  ∃ h', wl_list_insert b elm h = Some h' ∧ is_list h' a (l1 ++ b :: elm :: l2) ∧
    frame h h' (elm :: a :: l1 ++ b :: l2).
Proof.
  intros Hl%is_list_rotate He Hni.
  destruct (insert_is_list_head h b (l2 ++ a :: l1) elm) as (h'&->&Hl'&Hf); [done..|set_solver|].
  eexists. split; [done|]. split; [by apply (is_list_rotate h' b (elm :: l2) a l1)|].
  destruct Hf as [? Hf]. split; [done|]. intros q Hq. apply Hf. set_solver.
Qed.

(** Removing the node after the head. *)
Lemma remove_is_list_head h a e l :
  is_list h a (e :: l) →
  ∃ h', wl_list_remove e h = Some h' ∧ is_list h' a l ∧ frame h h' (e :: a :: l) ∧
    get_next h' e = Some NULL ∧ get_prev h' e = Some NULL.
Proof.
  intros Hl. pose proof Hl as [Hnd Hlk]. cbn [links] in Hlk. destruct Hlk as (Han&Hep&Hlk).
  apply NoDup_cons in Hnd as [Ha [He Hnd]%NoDup_cons].
  assert (hd a l ∈ a :: l) as Hhd by (destruct l; set_solver).
  assert (hd a l ≠ e) as Hne by (intros E; rewrite E in Hhd; set_solver).
  destruct (wl_list_remove_spec e a (hd a l) h) as (h'&->&Hd&Hn&Hp).
  { done. } { by apply links_next. }
  { apply (is_list_dom h a (e :: l)); [done|set_solver]. }
  { apply (is_list_dom h a (e :: l)); [done|set_solver]. } { set_solver. } { done. }
  eexists. split; [done|]. split_and!; [|split; [done|]|rewrite Hn; by addr|rewrite Hp; by addr].
  2: { intros q Hq. rewrite Hn, Hp. by addr. }
  split; [apply NoDup_cons; set_solver|]. destruct l as [|b l]; cbn [links hd] in *.
  - rewrite Hn, Hp. by addr.
  - split; [rewrite Hn; by addr|]. split; [rewrite Hp; by addr|].
    apply NoDup_cons in Hnd as [Hb Hnd]. destruct Hlk as (_&_&Hlk).
    apply (links_frame h); [done|..]; intros q Hq.
    + rewrite Hn. by addr.
    + rewrite Hp. by addr.
Qed.

(** Removing any node. *)
Lemma remove_is_list h a l1 e l2 :
  is_list h a (l1 ++ e :: l2) →
  ∃ h', wl_list_remove e h = Some h' ∧ is_list h' a (l1 ++ l2) ∧
    frame h h' (a :: l1 ++ e :: l2) ∧ get_next h' e = Some NULL ∧ get_prev h' e = Some NULL.
Proof.
  destruct l1 as [|p l1 _] using rev_ind; intros Hl.
  { destruct (remove_is_list_head h a e l2 Hl) as (h'&->&?&[? Hf]&?).
    eexists. split; [done|]. split_and!; try tauto. split; [done|].
    intros q Hq. apply Hf. set_solver. }
  rewrite <- app_assoc in Hl. apply is_list_rotate in Hl.
  destruct (remove_is_list_head h p e (l2 ++ a :: l1) Hl) as (h'&->&Hl'&[? Hf]&?).
  eexists. split; [done|]. split_and!; try tauto.
  - rewrite <- app_assoc. by apply is_list_rotate.
  - split; [done|]. intros q Hq. apply Hf. set_solver.
Qed.

(** A segment whose last node is linked to another end. *)
Lemma links_retarget h h' a l z z' :
  NoDup (a :: l) → links h a l z →
  get_next h' (last_node a l) = Some z' → get_prev h' z' = Some (last_node a l) →
  (∀ x, x ∈ a :: l → x ≠ last_node a l → get_next h' x = get_next h x) →
  (∀ x, x ∈ l → get_prev h' x = get_prev h x) →
  links h' a l z'.
Proof.
  revert a. induction l as [|b l IH]; intros a Hnd; cbn [links last_node]; [done|].
  intros (Hab&Hba&Hl) Hn Hp Hnf Hpf. apply NoDup_cons in Hnd as [Ha Hnd].
  pose proof (last_node_in b l). rewrite (Hnf a), (Hpf b) by set_solver.
  split_and!; try done. apply IH; try done; intros x Hx; [intros; apply Hnf|apply Hpf]; set_solver.
Qed.

Lemma insert_list_spec list other n y t h :
  get_next h list = Some n → get_next h other = Some y → get_prev h other = Some t →
  n ∈ dom h → y ∈ dom h → t ∈ dom h → y ≠ other → t ≠ list → n ≠ other → t ≠ other →
  other ≠ list → n ≠ y →
  ∃ h', wl_list_insert_list list other h = Some h' ∧ dom h' = dom h ∧
    (∀ q, get_next h' q = if decide (list = q) then Some y
                          else if decide (t = q) then Some n else get_next h q) ∧
    (∀ q, get_prev h' q = if decide (n = q) then Some t
                          else if decide (y = q) then Some list else get_prev h q).
Proof.
  intros Hln Hoy Hot Hn Hy Ht ? ? ? ? ? ?. pose proof (get_next_dom _ _ _ Hln).
  unfold wl_list_insert_list, wl_list_empty. rewrite Hoy. cbn [mbind option_bind].
  rewrite (proj2 (Z.eqb_neq y other)) by done.
  write_field h1 Hd1 Hn1 Hp1; [done|]. rewrite Hp1, Hn1, decide_False, Hot, Hln by done.
  cbn [mbind option_bind]. write_field h2 Hd2 Hn2 Hp2; [by rewrite Hd1|].
  rewrite (Hn2 list), (Hp2 other), (Hn1 list), (Hp1 other), !decide_False, Hot, Hln by done.
  cbn [mbind option_bind]. write_field h3 Hd3 Hn3 Hp3; [by rewrite Hd2, Hd1|].
  rewrite Hn3, Hn2, Hn1, decide_False, Hoy by done. cbn [mbind option_bind].
  write_field h4 Hd4 Hn4 Hp4; [by rewrite Hd3, Hd2, Hd1|].
  eexists. split; [done|]. split_and!; [congruence|..]; intros q.
  - rewrite Hn4, Hn3, Hn2, Hn1. done.
  - rewrite Hp4, Hp3, Hp2, Hp1. done.
Qed.

(** Splicing a whole list in after the head. *)
Lemma insert_list_is_list h a l o ys :
  is_list h a l → is_list h o ys → (∀ x, x ∈ a :: l → x ∉ o :: ys) →
  ∃ h', wl_list_insert_list a o h = Some h' ∧ is_list h' a (ys ++ l) ∧
    frame h h' (a :: l ++ ys).
Proof.
  intros Hl Ho Hdis. pose proof Hl as [Hnd Hlk]. pose proof Ho as [Hndo Hlko].
  destruct ys as [|y ys].
  { exists h. split_and!; try done. unfold wl_list_insert_list, wl_list_empty.
    cbn in Hlko. destruct Hlko as [-> _]. cbn [mbind option_bind]. by rewrite Z.eqb_refl. }
  pose proof (links_next _ _ _ _ Hlk) as Hln. pose proof (links_prev _ _ _ _ Hlko) as Hot.
  cbn [links] in Hlko. destruct Hlko as (Hoy&Hyo&Hys). cbn [last_node] in Hot.
  pose proof (last_node_in y ys) as Ht. set (t := last_node y ys) in *.
  assert (hd a l ∈ a :: l) as Hhd by (destruct l; set_solver). set (n := hd a l) in *.
  apply NoDup_cons in Hndo as [Hoy' Hndo].
  assert (∀ x, x ∈ y :: ys → x ∈ dom h) as Hydom.
  { intros x Hx. apply (is_list_dom h o (y :: ys)); [done|by apply list_elem_of_further]. }
  assert (∀ x, x ∈ y :: ys → x ≠ o) as Hyo' by (by intros x Hx ->).
  assert (∀ x, x ∈ a :: l → x ≠ o) as Hao.
  { intros x Hx ->. by apply (Hdis o Hx), list_elem_of_here. }
  assert (∀ x z, x ∈ y :: ys → z ∈ a :: l → x ≠ z) as Hne.
  { intros x z Hx Hz ->. by apply (Hdis z Hz), list_elem_of_further. }
  assert (y ∈ y :: ys) as Hy by apply list_elem_of_here.
  assert (a ∈ a :: l) as Ha by apply list_elem_of_here.
  destruct (insert_list_spec a o n y t h) as (h'&->&Hd&Hn&Hp); auto.
  { by apply (is_list_dom h a l). } { by symmetry; apply Hao. } { by symmetry; apply Hne. }
  eexists. split; [done|]. split.
  2: { split; [done|]. intros q Hq. rewrite Hn, Hp.
       assert (q ∉ a :: l ∧ q ∉ y :: ys) as [? ?] by set_solver +Hq.
       rewrite !decide_False; [done|by intros ->..]. }
  split.
  { change (a :: (y :: ys) ++ l) with ([a] ++ (y :: ys) ++ l).
    rewrite (Permutation_app_swap_app [a]). apply NoDup_app. split_and!; [done| |done].
    intros x Hx Hx'. by apply (Hne x x). }
  assert (links h' a (y :: ys) n) as Hseg.
  { cbn [links]. split; [rewrite Hn; by addr|].
    split; [rewrite Hp, decide_False by (symmetry; by apply Hne); by addr|].
    apply (links_retarget h h' y ys o n); try done.
    - rewrite Hn, decide_False by (symmetry; by apply Hne). by addr.
    - rewrite Hp. by addr.
    - intros x Hx Hxt. rewrite Hn, !decide_False; [done| |symmetry; by apply Hne]. done.
    - intros x Hx. apply NoDup_cons in Hndo as [? ?].
      assert (x ∈ y :: ys) by by apply list_elem_of_further.
      rewrite Hp, !decide_False; [done|by intros ->|symmetry; by apply Hne]. }
  destruct l as [|b l]; [by rewrite app_nil_r|]. apply links_app. split; [done|].
  cbn [links] in Hlk. apply NoDup_cons in Hnd as [Ha' [Hb Hnd]%NoDup_cons]. cbn in n.
  destruct Hlk as (_&_&Hlk). subst n. apply (links_frame h); [done|..]; intros q Hq.
  - assert (q ∈ a :: b :: l) by by apply list_elem_of_further.
    rewrite Hn, !decide_False; [done|by apply Hne|by intros ->].
  - assert (q ∈ a :: b :: l) by set_solver +Hq.
    rewrite Hp, !decide_False; [done|by apply Hne|]. intros ->. set_solver +Hq Hb Ha'.
Qed.

(** ** Traversal *)

Lemma length_loop_spec fuel h a e l k :
  links h e l a → e ≠ a → a ∉ l → 0 <= k → k + Z.of_nat (S (length l)) <= 2 ^ 31 - 1 →
  (S (length l) < fuel)%nat →
  wl_list_length_loop fuel h a e k = Some (k + Z.of_nat (S (length l))).
Proof.
  revert e k fuel. induction l as [|b l IH]; intros e k [|fuel] Hl Hne Ha Hk Hle Hf;
    cbn [links length] in *; try lia; cbn [wl_list_length_loop];
    rewrite (proj2 (Z.eqb_neq e a)) by done.
  - destruct Hl as [-> _]. cbn [mbind option_bind].
    rewrite (proj2 (Z.ltb_lt _ _)) by lia. destruct fuel; [lia|]. cbn. by rewrite Z.eqb_refl.
  - destruct Hl as (->&_&Hl). cbn [mbind option_bind].
    rewrite (proj2 (Z.ltb_lt _ _)) by lia. rewrite IH; try done; try lia; try set_solver.
    f_equal. lia.
Qed.

Lemma length_is_list h a l fuel :
  is_list h a l → Z.of_nat (length l) <= 2 ^ 31 - 1 → (length l < fuel)%nat →
  wl_list_length fuel a h = Some (Z.of_nat (length l)).
Proof.
  intros [Hnd Hl] Hle Hf. unfold wl_list_length. rewrite (links_next _ _ _ _ Hl).
  cbn [mbind option_bind]. destruct l as [|b l]; cbn [hd].
  { destruct fuel; [lia|]. cbn. by rewrite Z.eqb_refl. }
  cbn [links] in Hl. apply NoDup_cons in Hnd as [Ha _].
  rewrite (length_loop_spec fuel h a b l 0); try tauto; try (cbn [length] in *; lia); set_solver.
Qed.

Lemma empty_is_list h a l :
  is_list h a l → wl_list_empty a h = Some (bool_decide (l = [])).
Proof.
  intros [Hnd Hl]. unfold wl_list_empty. rewrite (links_next _ _ _ _ Hl).
  cbn [mbind option_bind]. f_equal. destruct l as [|b l]; cbn [hd].
  - by rewrite Z.eqb_refl.
  - apply NoDup_cons in Hnd as [Ha _]. rewrite (proj2 (Z.eqb_neq _ _)) by set_solver.
    by rewrite bool_decide_eq_false_2.
Qed.

(** ** The properties *)

(** [wl_list_insert] links a new node right after any node of a circular
    list, head included by rotation, [wl_list_remove] takes it out again and
    leaves its links null; both leave every list that shares no node with this
    one as it is. *)
Theorem list_insert_remove h a l1 b l2 elm c l :
  is_list h a (l1 ++ b :: l2) → elm ∈ dom h → elm ∉ a :: l1 ++ b :: l2 →
  is_list h c l → (∀ x, x ∈ c :: l → x ∉ elm :: a :: l1 ++ b :: l2) →
  ∃ h1 h2, wl_list_insert b elm h = Some h1 ∧ is_list h1 a (l1 ++ b :: elm :: l2) ∧
    is_list h1 c l ∧
    wl_list_remove elm h1 = Some h2 ∧ is_list h2 a (l1 ++ b :: l2) ∧ is_list h2 c l ∧
    get_next h2 elm = Some NULL ∧ get_prev h2 elm = Some NULL.
Proof.
  intros Hl He Hni Hc Hdis.
  destruct (insert_is_list h a l1 b l2 elm Hl He Hni) as (h1&->&Hl1&Hf1).
  assert (is_list h1 c l) as Hc1 by (by eapply is_list_frame).
  pose proof Hl1 as Hl1'. rewrite (cons_middle b), app_assoc in Hl1.
  destruct (remove_is_list h1 a _ elm l2 Hl1) as (h2&Hr&Hl2&Hf2&?&?).
  exists h1, h2. rewrite <- app_assoc in Hl2. split_and!; try done.
  eapply is_list_frame; [done| |done]. intros x Hx. specialize (Hdis x Hx). set_solver.
Qed.

(** Two lists, 1 -> 2 -> 3 and 10 -> 11, and a free node 20. *)
Definition demo_store : store :=
  list_to_map [(1, mk_wl_list 3 2); (2, mk_wl_list 1 3); (3, mk_wl_list 2 1);
               (10, mk_wl_list 11 11); (11, mk_wl_list 10 10); (20, mk_wl_list 0 0)].

Lemma list_insert_remove_witness :
  ∃ h1 h2, wl_list_insert 2 20 demo_store = Some h1 ∧ is_list h1 1 ([] ++ 2 :: 20 :: [3]) ∧
    is_list h1 10 [11] ∧
    wl_list_remove 20 h1 = Some h2 ∧ is_list h2 1 ([] ++ 2 :: [3]) ∧ is_list h2 10 [11] ∧
    get_next h2 20 = Some NULL ∧ get_prev h2 20 = Some NULL.
Proof.
  apply (list_insert_remove demo_store 1 [] 2 [3] 20 10 [11]).
  - split; [apply (bool_decide_unpack _); by vm_compute|by vm_compute].
  - apply elem_of_dom. by eexists.
  - apply (bool_decide_unpack _). by vm_compute.
  - split; [apply (bool_decide_unpack _); by vm_compute|by vm_compute].
  - intros x Hx. apply list_elem_of_In in Hx. cbn in Hx.
    intros Hy%list_elem_of_In. cbn in Hy. lia.
Defined.

(** [wl_list_insert_list] splices a whole list in after the head, in order,
    and does nothing for an empty one; afterwards [wl_list_length] counts the
    nodes of both and [wl_list_empty] answers accordingly. *)
Theorem list_splice h a l o ys fuel :
  is_list h a l → is_list h o ys → (∀ x, x ∈ a :: l → x ∉ o :: ys) →
  Z.of_nat (length ys + length l) < 2 ^ 31 → (length ys + length l < fuel)%nat →
  ∃ h', wl_list_insert_list a o h = Some h' ∧ is_list h' a (ys ++ l) ∧
    wl_list_length fuel a h' = Some (Z.of_nat (length ys + length l)) ∧
    wl_list_empty a h' = Some (bool_decide (ys ++ l = [])).
Proof.
  intros Hl Ho Hdis Hlen Hf.
  destruct (insert_list_is_list h a l o ys Hl Ho Hdis) as (h'&->&Hl'&_).
  exists h'. split_and!; try done.
  - rewrite <- length_app in *. apply length_is_list; [done|lia|lia].
  - by apply empty_is_list.
Qed.

Lemma list_splice_witness :
  ∃ h', wl_list_insert_list 1 10 demo_store = Some h' ∧ is_list h' 1 ([11] ++ [2; 3]) ∧
    wl_list_length 5 1 h' = Some (Z.of_nat (1 + 2)) ∧
    wl_list_empty 1 h' = Some (bool_decide ([11] ++ [2; 3] = [])).
Proof.
  apply (list_splice demo_store 1 [2; 3] 10 [11] 5).
  - split; [apply (bool_decide_unpack _); by vm_compute|by vm_compute].
  - split; [apply (bool_decide_unpack _); by vm_compute|by vm_compute].
  - intros x Hx. apply list_elem_of_In in Hx. cbn in Hx.
    intros Hy%list_elem_of_In. cbn in Hy. lia.
  - cbn. lia.
  - cbn. lia.
Defined.
