(* ===== verification/WlSignal.v ===== *)
(** * Signals and listeners

    Models the signals of libwayland-server: [struct wl_signal] with its inline
    functions (wayland/build/src/wayland-server-core.h, lines 432-514),
    [wl_signal_emit_mutable] and [struct wl_priv_signal]
    (wayland-server.c, lines 2258-2319 and 2349-2474).  The lists are those of
    [WlList].  A callback is a function on the whole state, since it may add
    and remove listeners of the signal that calls it and emit it again.

    The theorems give the contract of the comments: emission survives any
    additions and removals, calls exactly the listeners that were there and
    have not been removed before their turn, once and in order, and keeps the
    list intact; and since an emission meets the requirement it makes of
    callbacks, emissions may be nested. *)

From S2P Require Import Prelude WlList.
Open Scope Z_scope.

(** The field [notify] of a listener: the function that does nothing, or a
    function of the program. *)
Inductive notify_fn : Type := handle_noop | Notify (f : Z).

Record sig_state (W : Type) : Type := mk_sig { ss_links : gmap Z wl_list; ss_notify : gmap Z notify_fn; ss_world : W }.
Arguments mk_sig {_} _ _ _.
Arguments ss_links {_} _.
Arguments ss_notify {_} _.
Arguments ss_world {_} _.

(** Some listeners are taken out and others added at the end. *)
Definition edit (rem add xs : list Z) : list Z := filter (λ x, x ∉ rem) xs ++ add.

Lemma edit_nil xs : edit [] [] xs = xs.
Proof.
  unfold edit. rewrite app_nil_r. induction xs as [|x xs IH]; [done|]. rewrite filter_cons_True by (apply not_elem_of_nil). by rewrite IH.
Qed.
Lemma edit_edit r1 a1 r2 a2 xs : edit r2 a2 (edit r1 a1 xs) = edit (r1 ++ r2) (filter (λ x, x ∉ r2) a1 ++ a2) xs.
Proof.
  unfold edit. rewrite filter_app, <- app_assoc. f_equal. rewrite list_filter_filter. apply list_filter_iff. intros x. rewrite not_elem_of_app. tauto.
Qed.

Section signal.
Context {W : Type}.

Definition on_links (f : gmap Z wl_list → option (gmap Z wl_list)) (s : sig_state W) : option (sig_state W) :=
  h ← f (ss_links s); Some (mk_sig h (ss_notify s) (ss_world s)).
Definition set_notify (l : Z) (f : notify_fn) (s : sig_state W) : sig_state W :=
  mk_sig (ss_links s) (<[l := f]> (ss_notify s)) (ss_world s).

(** A listener on the stack, at an address that is not in use. *)
Definition push_local (s : sig_state W) : Z * sig_state W :=
  let a := fresh (dom (ss_links s) ∪ dom (ss_notify s)) in
  (a, mk_sig (<[a := mk_wl_list NULL NULL]> (ss_links s)) (<[a := handle_noop]> (ss_notify s)) (ss_world s)).
Definition pop_local (a : Z) (s : sig_state W) : sig_state W :=
  mk_sig (delete a (ss_links s)) (delete a (ss_notify s)) (ss_world s).

(** ** The operations *)

(** A signal is the address of its list. *)
Definition wl_signal_init (signal : Z) (s : sig_state W) : option (sig_state W) := on_links (wl_list_init signal) s.
Definition wl_signal_add (signal listener : Z) (s : sig_state W) : option (sig_state W) :=
  p ← get_prev (ss_links s) signal;
  on_links (wl_list_insert p listener) s.

(** The listener with a given function; the result 0 is [NULL]. *)
Fixpoint get_loop (fuel : nat) (s : sig_state W) (head pos : Z) (notify : notify_fn) (k : option Z) : option Z :=
  match fuel with
  | O => None
  | S fuel =>
      if pos =? head then k
      else
        f ← ss_notify s !! pos;
        if match f, notify with Notify f, Notify g => f =? g | handle_noop, handle_noop => true | _, _ => false end then Some pos
        else n ← get_next (ss_links s) pos; get_loop fuel s head n notify k
  end.
Definition list_fuel (s : sig_state W) : nat := S (size (ss_links s)).
Definition wl_signal_get (signal : Z) (notify : notify_fn) (s : sig_state W) : option Z :=
  n ← get_next (ss_links s) signal;
  get_loop (list_fuel s) s signal n notify (Some NULL).

(** [user f l data] is the call of the function [f] for the listener [l]. *)
Context (user : Z → Z → Z → sig_state W → option (sig_state W)).
Definition call (l data : Z) (s : sig_state W) : option (sig_state W) :=
  f ← ss_notify s !! l;
  match f with handle_noop => Some s | Notify f => user f l data s end.

(** [wl_list_for_each_safe] reads the next node before the call. *)
Fixpoint signal_emit_loop (fuel : nat) (head pos next data : Z) (s : sig_state W) : option (sig_state W) :=
  match fuel with
  | O => None
  | S fuel =>
      if pos =? head then Some s
      else
        s ← call pos data s;
        n ← get_next (ss_links s) next;
        signal_emit_loop fuel head next n data s
  end.
Definition wl_signal_emit (signal data : Z) (s : sig_state W) : option (sig_state W) :=
  pos ← get_next (ss_links s) signal;
  next ← get_next (ss_links s) pos;
  signal_emit_loop (list_fuel s) signal pos next data s.

Fixpoint emit_loop (fuel : nat) (cursor end_ data : Z) (s : sig_state W) : option (sig_state W) :=
  match fuel with
  | O => None
  | S fuel =>
      pos ← get_next (ss_links s) cursor;
      if pos =? end_ then Some s
      else
        s ← on_links (wl_list_remove cursor) s;
        s ← on_links (wl_list_insert pos cursor) s;
        s ← call pos data s;
        emit_loop fuel cursor end_ data s
  end.

Definition wl_signal_emit_mutable (signal data : Z) (s : sig_state W) : option (sig_state W) :=
  let '(cursor, s) := push_local s in
  let '(end_, s) := push_local s in
  s ← on_links (wl_list_insert signal cursor) s;
  let s := set_notify cursor handle_noop s in
  p ← get_prev (ss_links s) signal;
  s ← on_links (wl_list_insert p end_) s;
  let s := set_notify end_ handle_noop s in
  s ← emit_loop (list_fuel s) cursor end_ data s;
  s ← on_links (wl_list_remove cursor) s;
  s ← on_links (wl_list_remove end_) s;
  Some (pop_local cursor (pop_local end_ s)).

(** *** Private signals *)

(** The addresses of the two lists. *)
Record wl_priv_signal : Type := mk_priv { listener_list : Z; emit_list : Z }.

Definition wl_priv_signal_init (signal : wl_priv_signal) (s : sig_state W) : option (sig_state W) :=
  s ← on_links (wl_list_init (listener_list signal)) s;
  on_links (wl_list_init (emit_list signal)) s.
Definition wl_priv_signal_add (signal : wl_priv_signal) (listener : Z) (s : sig_state W) : option (sig_state W) :=
  p ← get_prev (ss_links s) (listener_list signal);
  on_links (wl_list_insert p listener) s.
Definition wl_priv_signal_get (signal : wl_priv_signal) (notify : notify_fn) (s : sig_state W) : option Z :=
  n ← get_next (ss_links s) (listener_list signal);
  get_loop (list_fuel s) s (listener_list signal) n notify
    (n ← get_next (ss_links s) (emit_list signal);
     get_loop (list_fuel s) s (emit_list signal) n notify (Some NULL)).

Fixpoint priv_emit_loop (fuel : nat) (signal : wl_priv_signal) (data : Z) (s : sig_state W) : option (sig_state W) :=
  match fuel with
  | O => None
  | S fuel =>
      b ← wl_list_empty (emit_list signal) (ss_links s);
      if (b : bool) then Some s
      else
        pos ← get_next (ss_links s) (emit_list signal);
        s ← on_links (wl_list_remove pos) s;
        s ← on_links (wl_list_insert (listener_list signal) pos) s;
        s ← call pos data s;
        priv_emit_loop fuel signal data s
  end.
Definition wl_priv_signal_emit (signal : wl_priv_signal) (data : Z) (s : sig_state W) : option (sig_state W) :=
  s ← on_links (wl_list_insert_list (emit_list signal) (listener_list signal)) s;
  s ← on_links (wl_list_init (listener_list signal)) s;
  priv_emit_loop (list_fuel s) signal data s.

(** There is no bound on the number of turns when callbacks add listeners, so
    the fuel is an argument. *)
Fixpoint priv_final_loop (fuel : nat) (signal : wl_priv_signal) (data : Z) (s : sig_state W) : option (sig_state W) :=
  match fuel with
  | O => None
  | S fuel =>
      b ← wl_list_empty (listener_list signal) (ss_links s);
      if (b : bool) then Some s
      else
        pos ← get_next (ss_links s) (listener_list signal);
        s ← on_links (wl_list_remove pos) s;
        s ← on_links (wl_list_init pos) s;
        s ← call pos data s;
        priv_final_loop fuel signal data s
  end.
Definition wl_priv_signal_final_emit (fuel : nat) (signal : wl_priv_signal) (data : Z) (s : sig_state W) : option (sig_state W) :=
  priv_final_loop fuel signal data s.

(** ** Lists of listeners *)

Definition listeners (s : sig_state W) (head : Z) (xs : list Z) : Prop :=
  is_list (ss_links s) head xs ∧ Forall (λ x, x ∈ dom (ss_notify s)) xs.
Definition marker (s : sig_state W) (x : Z) : Prop := ss_notify s !! x = Some handle_noop.

(** What is asked of a callback for the listener [l]: listeners come and go,
    but those that are no functions of the program stay. *)
Definition keeps (head : Z) (s : sig_state W) (xs : list Z) (r : option (sig_state W)) : Prop :=
  ∃ s' rem add, r = Some s' ∧ listeners s' head (edit rem add xs) ∧ ∀ x, x ∈ xs → marker s x → x ∉ rem ∧ marker s' x.
Definition respects (head f l data : Z) : Prop := ∀ s xs,
  listeners s head xs → l ∈ xs → ss_notify s !! l = Some (Notify f) → keeps head s xs (user f l data s).
End signal.

(** ** Emission *)

Section emission.
Context {W : Type} (user : Z → Z → Z → sig_state W → option (sig_state W)).

Lemma filter_out_notin (rem : list Z) x l : x ∉ rem → filter (λ x, x ∉ rem) (x :: l) = x :: filter (λ x, x ∉ rem) l.
Proof. intros H. by rewrite filter_cons_True. Qed.

(** The list around the two markers. *)
Lemma edit_marked rem add xs cursor todo end_ new :
  cursor ∉ rem → end_ ∉ rem →
  edit rem add (xs ++ cursor :: todo ++ end_ :: new) =
    filter (λ x, x ∉ rem) xs ++ cursor :: filter (λ x, x ∉ rem) todo ++ end_ :: edit rem add new.
Proof.
  intros Hc He. unfold edit. rewrite filter_app, filter_out_notin by done. rewrite filter_app, filter_out_notin by done.
  by rewrite <- app_assoc, <- app_comm_cons, <- app_assoc.
Qed.
Lemma edit_unmarked rem add xs todo new :
  edit rem add (xs ++ todo ++ new) = filter (λ x, x ∉ rem) xs ++ filter (λ x, x ∉ rem) todo ++ edit rem add new.
Proof. unfold edit. by rewrite !filter_app, <- !app_assoc. Qed.

Lemma on_links_some f (s : sig_state W) h : f (ss_links s) = Some h → on_links f s = Some (mk_sig h (ss_notify s) (ss_world s)).
Proof. unfold on_links. by intros ->. Qed.

(** The cursor moves behind the next listener. *)
Definition move_cursor (cursor pos : Z) (s : sig_state W) : option (sig_state W) :=
  s ← on_links (wl_list_remove cursor) s; on_links (wl_list_insert pos cursor) s.

Lemma cursor_moves (s : sig_state W) head xs cursor a todo :
  listeners s head (xs ++ cursor :: a :: todo) →
  ∃ s', move_cursor cursor a s = Some s' ∧ listeners s' head (xs ++ a :: cursor :: todo) ∧ ss_notify s' = ss_notify s.
Proof.
  intros [Hl Hn]. unfold move_cursor. destruct (remove_is_list _ _ _ _ _ Hl) as (h1 & E1 & Hl1 & Hf1 & _). rewrite (on_links_some _ _ _ E1). cbn [mbind option_bind].
  pose proof (is_list_dom _ _ _ cursor Hl ltac:(set_solver)) as Hd. pose proof Hl as [Hnd _].
  destruct (insert_is_list h1 head xs a todo cursor) as (h2 & E2 & Hl2 & _); [done|by rewrite (proj1 Hf1)| |].
  { clear - Hnd. assert (head :: xs ++ cursor :: a :: todo ≡ₚ cursor :: head :: xs ++ a :: todo) as E by solve_Permutation.
    rewrite E in Hnd. by apply NoDup_cons in Hnd as [? _]. }
  eexists. split; [by apply on_links_some|]. split; [|done]. split; [exact Hl2|].
  rewrite Forall_forall in *. intros x Hx. apply Hn. clear - Hx. set_solver.
Qed.

(** What a call does, whatever the listener is. *)
Lemma call_respects head l data : (∀ f, respects user head f l data) →
  ∀ (s : sig_state W) xs, listeners s head xs → l ∈ xs → keeps head s xs (call user l data s).
Proof.
  intros Hu s xs Hl Hx. pose proof Hl as [_ Hn]. rewrite Forall_forall in Hn. pose proof (Hn l Hx) as [f Hf]%elem_of_dom. unfold call. rewrite Hf. cbn [mbind option_bind].
  destruct f as [|f]; [|by apply Hu]. exists s, [], []. rewrite edit_nil. split_and!; [done..|]. intros x _ Hm. split; [apply not_elem_of_nil|done].
Qed.

(** The calls of an emission, each with the listeners it removes and adds. *)
Definition effects : Type := list (Z * list Z * list Z).

(** The listeners in [todo] are called in order, except those that a call
    before has removed. *)
Fixpoint schedule (todo : list Z) (calls : effects) : Prop :=
  match calls with
  | [] => todo = []
  | (a, rem, _) :: calls => ∃ todo', todo = a :: todo' ∧ schedule (filter (λ x, x ∉ rem) todo') calls
  end.
Definition edit_all (xs : list Z) (calls : effects) : list Z := foldl (λ xs c, edit c.1.2 c.2 xs) xs calls.

Lemma schedule_sublist calls todo : schedule todo calls → map (λ k, k.1.1) calls `sublist_of` todo.
Proof.
  revert todo. induction calls as [|[[a rem] add] calls IH]; intros todo; cbn [schedule map]; [intros ->; constructor|].
  intros (todo' & -> & Hs%IH). cbn. apply sublist_skip. etrans; [exact Hs|]. apply sublist_filter.
Qed.

(** The calls as they happen: the list is [xs ++ cursor :: todo ++ end_ :: new]
    before a turn, and the callback runs with the cursor behind its listener. *)
Inductive runs (head cursor end_ data : Z) : list Z → list Z → list Z → sig_state W → effects → sig_state W → Prop :=
  | runs_end xs new s :
      listeners s head (xs ++ cursor :: end_ :: new) → runs head cursor end_ data xs [] new s [] s
  | runs_call xs a todo new s t t' rem add calls s' :
      listeners s head (xs ++ cursor :: a :: todo ++ end_ :: new) →
      move_cursor cursor a s = Some t → listeners t head (xs ++ a :: cursor :: todo ++ end_ :: new) →
      call user a data t = Some t' → cursor ∉ rem → end_ ∉ rem →
      runs head cursor end_ data (filter (λ x, x ∉ rem) (xs ++ [a])) (filter (λ x, x ∉ rem) todo) (edit rem add new) t' calls s' →
      runs head cursor end_ data xs (a :: todo) new s ((a, rem, add) :: calls) s'.

Lemma runs_schedule head c e data xs todo new s calls s' : runs head c e data xs todo new s calls s' → schedule todo calls.
Proof. induction 1; cbn [schedule]; eauto. Qed.

Lemma runs_edit head c e data xs todo new s calls s' : runs head c e data xs todo new s calls s' →
  ∃ xs' new', listeners s' head (xs' ++ c :: e :: new') ∧ xs' ++ new' = edit_all (xs ++ todo ++ new) calls.
Proof.
  induction 1 as [xs new s Hl|xs a todo new s t t' rem add calls s' Hl Em Hl' Ec Hc He Hr IH]; [by exists xs, new|].
  destruct IH as (xs' & new' & Hl2 & E). exists xs', new'. split; [exact Hl2|]. rewrite E. cbn [edit_all foldl fst snd]. f_equal.
  rewrite <- edit_unmarked. f_equal. by rewrite <- app_assoc.
Qed.

(** One turn of the loop. *)
Lemma emit_loop_turn fuel head c e data (s : sig_state W) xs a todo new :
  listeners s head (xs ++ c :: a :: todo ++ e :: new) →
  emit_loop user (S fuel) c e data s = (t ← move_cursor c a s; t' ← call user a data t; emit_loop user fuel c e data t').
Proof.
  intros [[Hnd Hl] _]. cbn [emit_loop]. apply links_app in Hl as [_ Hl]. cbn [links] in Hl. destruct Hl as [-> _]. cbn [mbind option_bind].
  assert (a ≠ e) as Hae.
  { intros ->. apply NoDup_cons in Hnd as [_ Hnd]. apply NoDup_app in Hnd as (_ & _ & Hnd). apply NoDup_cons in Hnd as [_ Hnd].
    apply NoDup_cons in Hnd as [Hnd _]. apply Hnd. set_solver. }
  rewrite (proj2 (Z.eqb_neq a e) Hae). unfold move_cursor. by destruct (on_links (wl_list_remove c) s).
Qed.
Lemma emit_loop_end fuel head c e data (s : sig_state W) xs new :
  listeners s head (xs ++ c :: e :: new) → emit_loop user (S fuel) c e data s = Some s.
Proof.
  intros [[_ Hl] _]. cbn [emit_loop]. apply links_app in Hl as [_ Hl]. cbn [links] in Hl. destruct Hl as [-> _]. cbn [mbind option_bind].
  by rewrite Z.eqb_refl.
Qed.

(** Everything a callback may not touch stays through a whole emission. *)
Lemma emit_loop_runs head c e data : (∀ f l, respects user head f l data) → ∀ fuel (s : sig_state W) xs todo new,
  listeners s head (xs ++ c :: todo ++ e :: new) → marker s c → marker s e → (length todo < fuel)%nat →
  ∃ calls s', emit_loop user fuel c e data s = Some s' ∧ runs head c e data xs todo new s calls s' ∧
    ∀ x, x ∈ xs ++ todo ++ new → marker s x → marker s' x ∧ Forall (λ k, x ∉ k.1.2) calls.
Proof.
  intros Hu. induction fuel as [|fuel IH]; intros s xs todo new Hl Hmc Hme Hf; [lia|]. destruct todo as [|a todo].
  { exists [], s. rewrite (emit_loop_end _ head _ _ _ _ xs new) by done. split_and!; [done|by constructor|]. intros x _ Hm. by split. }
  rewrite (emit_loop_turn _ head _ _ _ _ xs a todo new) by done.
  destruct (cursor_moves s head xs c a (todo ++ e :: new) Hl) as (t & Em & Hl1 & En). rewrite Em. cbn [mbind option_bind].
  destruct (call_respects head a data (λ f, Hu f a) t _ Hl1 ltac:(set_solver)) as (t' & rem & add & Ec & Hl2 & Hm). rewrite Ec. cbn [mbind option_bind].
  assert (∀ x, marker s x ↔ marker t x) as Hst by (intros x; unfold marker; by rewrite En). apply Hst in Hmc, Hme.
  destruct (Hm c ltac:(set_solver) Hmc) as [Hc Hmc'], (Hm e ltac:(set_solver) Hme) as [He Hme'].
  assert (xs ++ a :: c :: todo ++ e :: new = (xs ++ [a]) ++ c :: todo ++ e :: new) as Ea by (by rewrite <- app_assoc).
  rewrite Ea, edit_marked in Hl2 by done.
  destruct (IH t' _ _ _ Hl2 Hmc' Hme') as (calls & s' & Er & Hr & Hk).
  { cbn [length] in Hf. pose proof (length_filter (λ x, x ∉ rem) todo). lia. }
  exists ((a, rem, add) :: calls), s'. split_and!; [exact Er|by econstructor|]. intros x Hx Hsx. apply Hst in Hsx.
  destruct (Hm x ltac:(set_solver) Hsx) as [Hxr Hxt]. destruct (Hk x) as [? ?]; [|done|by split; [|constructor]].
  unfold edit. rewrite !elem_of_app, !list_elem_of_filter in *. set_solver.
Qed.

(** *** The markers *)

Lemma links_delete_other h a l z x : links h a l z → x ∉ a :: l ++ [z] → links (delete x h) a l z.
Proof.
  intros Hl Hx. apply (links_frame h); [done|..]; intros q Hq; unfold get_next, get_prev; rewrite lookup_delete_ne; try done; set_solver.
Qed.
Lemma is_list_delete h a l x : is_list h a l → x ∉ a :: l → is_list (delete x h) a l.
Proof. intros [Hnd Hl] Hx. split; [done|]. apply links_delete_other; [done|set_solver]. Qed.
Lemma is_list_alloc h a l x n : is_list h a l → x ∉ dom h → is_list (<[x := n]> h) a l.
Proof.
  intros Hl Hx. pose proof Hl as [Hnd Hk]. split; [done|].
  apply (links_frame h); [done|..]; intros q Hq; unfold get_next, get_prev; rewrite lookup_insert_ne; try done; intros ->; apply Hx, (is_list_dom h a l); try done; set_solver.
Qed.

Lemma push_local_spec (s : sig_state W) head xs : listeners s head xs →
  ∃ a s', push_local s = (a, s') ∧ listeners s' head xs ∧ a ∉ head :: xs ∧ a ∈ dom (ss_links s') ∧ marker s' a ∧
    (∀ x, x ≠ a → ss_notify s' !! x = ss_notify s !! x) ∧ a ∉ dom (ss_notify s) ∧ ss_world s' = ss_world s.
Proof.
  intros [Hl Hn]. unfold push_local. pose proof (is_fresh (dom (ss_links s) ∪ dom (ss_notify s))) as Hf. revert Hf. generalize (fresh (dom (ss_links s) ∪ dom (ss_notify s))). intros a Hf.
  apply not_elem_of_union in Hf as [Hf1 Hf2].
  eexists _, _. split; [done|]. unfold marker. cbn [ss_links ss_notify ss_world]. rewrite lookup_insert_eq. split_and!; try done.
  - split; [by apply is_list_alloc|]. eapply Forall_impl; [exact Hn|]. cbn. intros x Hx. set_solver.
  - intros Hin. apply Hf1. by apply (is_list_dom _ head xs).
  - rewrite dom_insert. set_solver.
  - intros x Hx. by rewrite lookup_insert_ne.
Qed.

Lemma insert_tail_is_list h a l elm : is_list h a l → elm ∈ dom h → elm ∉ a :: l →
  ∃ p h', get_prev h a = Some p ∧ wl_list_insert p elm h = Some h' ∧ is_list h' a (l ++ [elm]) ∧ dom h' = dom h.
Proof.
  intros Hl Hd Hx. pose proof Hl as [_ Hk]. exists (last_node a l). rewrite (links_prev _ _ _ _ Hk).
  destruct l as [|b l _] using rev_ind; cbn [last_node].
  - destruct (insert_is_list_head h a [] elm Hl Hd Hx) as (h' & -> & Hl' & Hf). exists h'. split_and!; try done. apply Hf.
  - assert (last_node a (l ++ [b]) = b) as -> by (clear; revert a; induction l as [|c l IH]; intros a; [done|]; apply IH).
    destruct (insert_is_list h a l b [] elm Hl Hd Hx) as (h' & -> & Hl' & Hf). exists h'. split_and!; try done; [|apply Hf]. by rewrite <- app_assoc.
Qed.

Lemma listeners_length (s : sig_state W) head xs : listeners s head xs → (length xs ≤ size (ss_links s))%nat.
Proof.
  intros [Hl _]. pose proof Hl as [Hnd _]. apply NoDup_cons in Hnd as [_ Hnd]. rewrite <- size_dom, <- (size_list_to_set (C := gset Z) xs Hnd).
  apply subseteq_size. intros x Hx%elem_of_list_to_set. apply (is_list_dom _ head xs); [done|]. set_solver.
Qed.

(** The start: both markers are in place. *)
Definition place_markers (signal : Z) (s : sig_state W) : option (Z * Z * sig_state W) :=
  let '(cursor, s) := push_local s in
  let '(end_, s) := push_local s in
  s ← on_links (wl_list_insert signal cursor) s;
  let s := set_notify cursor handle_noop s in
  p ← get_prev (ss_links s) signal;
  s ← on_links (wl_list_insert p end_) s;
  Some (cursor, end_, set_notify end_ handle_noop s).
Definition take_markers (cursor end_ : Z) (s : sig_state W) : option (sig_state W) :=
  s ← on_links (wl_list_remove cursor) s;
  s ← on_links (wl_list_remove end_) s;
  Some (pop_local cursor (pop_local end_ s)).

Lemma emit_mutable_phases signal data (s : sig_state W) : wl_signal_emit_mutable user signal data s =
  ('(cursor, end_, s) ← place_markers signal s; s ← emit_loop user (list_fuel s) cursor end_ data s; take_markers cursor end_ s).
Proof.
  unfold wl_signal_emit_mutable, place_markers, take_markers. destruct (push_local s) as [c s1]. destruct (push_local s1) as [e s2].
  destruct (on_links _ s2) as [s3|]; [|done]. cbn [mbind option_bind]. destruct (get_prev _ signal); [|done]. cbn [mbind option_bind]. by destruct (on_links _ _).
Qed.

Lemma set_notify_marker l (s : sig_state W) : ss_notify s !! l = Some handle_noop → set_notify l handle_noop s = s.
Proof. intros H. unfold set_notify. rewrite insert_id by done. by destruct s. Qed.

Lemma place_markers_spec (s : sig_state W) head xs : listeners s head xs →
  ∃ c e s', place_markers head s = Some (c, e, s') ∧ listeners s' head (c :: xs ++ [e]) ∧ marker s' c ∧ marker s' e ∧
    (∀ x, x ≠ c → x ≠ e → ss_notify s' !! x = ss_notify s !! x) ∧ c ∉ dom (ss_notify s) ∧ e ∉ dom (ss_notify s) ∧ ss_world s' = ss_world s.
Proof.
  intros Hl. unfold place_markers. destruct (push_local_spec s head xs Hl) as (c & s1 & -> & Hl1 & Hc & Hcd & Hcm & Hs1 & Hcf & Hw1).
  destruct (push_local_spec s1 head xs Hl1) as (e & s2 & E2 & Hl2 & He & Hed & Hem & Hs2 & Hef & Hw2). rewrite E2.
  assert (c ∈ dom (ss_links s2)) as Hcd2 by (unfold push_local in E2; injection E2 as _ <-; cbn; set_solver).
  assert (e ≠ c) as Hne by (intros ->; apply Hef, elem_of_dom; eauto).
  pose proof Hl2 as [Hi2 Hn2]. destruct (insert_is_list_head _ head xs c Hi2 Hcd2 Hc) as (h3 & E3 & Hl3 & [Hd3 _]).
  rewrite (on_links_some _ _ _ E3). cbn [mbind option_bind].
  assert (ss_notify s2 !! c = Some handle_noop) as Hcm2 by (by rewrite Hs2).
  rewrite set_notify_marker by done. cbn [ss_links].
  destruct (insert_tail_is_list h3 head (c :: xs) e Hl3) as (p & h4 & Ep & E4 & Hl4 & Hd4); [by rewrite Hd3|set_solver|].
  rewrite Ep. cbn [mbind option_bind]. erewrite on_links_some by exact E4. cbn [mbind option_bind ss_notify ss_world]. rewrite set_notify_marker by done.
  exists c, e, (mk_sig h4 (ss_notify s2) (ss_world s2)). unfold marker. cbn [ss_notify ss_world]. split_and!; try done; [split; [exact Hl4|]| | |].
  - change ((c :: xs) ++ [e]) with (c :: xs ++ [e]). constructor; [by apply elem_of_dom_2 in Hcm2|]. apply Forall_app. split; [done|]. constructor; [by apply elem_of_dom_2 in Hem|done].
  - intros x Hx1 Hx2. by rewrite Hs2, Hs1.
  - intros Hx. apply Hef, elem_of_dom. rewrite Hs1 by done. by apply elem_of_dom.
  - congruence.
Qed.

Lemma take_markers_spec (s : sig_state W) head c e xs new : listeners s head (xs ++ c :: e :: new) →
  ∃ s', take_markers c e s = Some s' ∧ listeners s' head (xs ++ new) ∧ (∀ x, x ≠ c → x ≠ e → ss_notify s' !! x = ss_notify s !! x) ∧ ss_world s' = ss_world s.
Proof.
  intros [Hl Hn]. unfold take_markers. pose proof Hl as [Hnd _]. destruct (remove_is_list _ _ _ _ _ Hl) as (h1 & E1 & Hl1 & _). rewrite (on_links_some _ _ _ E1). cbn [mbind option_bind ss_links].
  destruct (remove_is_list _ _ _ _ _ Hl1) as (h2 & E2 & Hl2 & _). erewrite on_links_some by exact E2. cbn [mbind option_bind ss_notify ss_world].
  assert (c ∉ head :: xs ++ new ∧ e ∉ head :: xs ++ new) as [Hc He].
  { assert (head :: xs ++ c :: e :: new ≡ₚ c :: e :: head :: xs ++ new) as E by solve_Permutation. rewrite E, !NoDup_cons in Hnd. set_solver. }
  eexists. split; [done|]. unfold pop_local. cbn [ss_links ss_notify ss_world]. split_and!; [split| |done]; cbn [ss_links ss_notify].
  - by repeat apply is_list_delete.
  - rewrite Forall_forall in *. intros x Hx. assert (x ∈ dom (ss_notify s)) by (apply Hn; set_solver). set_solver.
  - intros x Hxc Hxe. by rewrite !lookup_delete_ne.
Qed.

(** A whole emission. *)
Lemma emit_mutable_runs head data : (∀ f l, respects user head f l data) → ∀ (s : sig_state W) xs, listeners s head xs →
  ∃ c e s1 calls s2 s', wl_signal_emit_mutable user head data s = Some s' ∧
    place_markers head s = Some (c, e, s1) ∧ ss_world s1 = ss_world s ∧ runs head c e data [] xs [] s1 calls s2 ∧ ss_world s' = ss_world s2 ∧
    listeners s' head (edit_all xs calls) ∧ ∀ x, x ∈ xs → marker s x → marker s' x ∧ Forall (λ k, x ∉ k.1.2) calls.
Proof.
  intros Hu s xs Hl. rewrite emit_mutable_phases. destruct (place_markers_spec s head xs Hl) as (c & e & s1 & Ep & Hl1 & Hmc & Hme & Hs1 & Hc & He & Hw1). rewrite Ep. cbn [mbind option_bind].
  destruct (emit_loop_runs head c e data Hu (list_fuel s1) s1 [] xs [] Hl1 Hmc Hme) as (calls & s2 & El & Hr & Hm).
  { pose proof (listeners_length _ _ _ Hl1) as Hlen. cbn [length] in Hlen. rewrite length_app in Hlen. cbn in Hlen. unfold list_fuel. lia. }
  rewrite El. cbn [mbind option_bind]. destruct (runs_edit _ _ _ _ _ _ _ _ _ _ Hr) as (xs' & new' & Hl2 & Ex). cbn [app] in Ex. rewrite app_nil_r in Ex.
  destruct (take_markers_spec _ _ _ _ _ _ Hl2) as (s' & Et & Hl3 & Hs3 & Hw3). rewrite Ex in Hl3.
  exists c, e, s1, calls, s2, s'. split_and!; try done. intros x Hx Hmx. pose proof Hmx as Hxd%elem_of_dom_2.
  assert (x ≠ c ∧ x ≠ e) as [Hxc Hxe] by (split; intros ->; done).
  destruct (Hm x) as [Hm2 Hf]; [by rewrite app_nil_r|unfold marker; by rewrite Hs1|]. split; [|done]. unfold marker. by rewrite Hs3.
Qed.

Lemma edit_all_edit calls xs : ∃ rem add, edit_all xs calls = edit rem add xs ∧ ∀ x, Forall (λ k, x ∉ k.1.2) calls → x ∉ rem.
Proof.
  revert xs. induction calls as [|[[a rem] add] calls IH]; intros xs.
  - exists [], []. rewrite edit_nil. split; [done|]. intros x _. apply not_elem_of_nil.
  - destruct (IH (edit rem add xs)) as (rem' & add' & E & Hx). cbn [edit_all foldl fst snd]. unfold edit_all in E. rewrite E, edit_edit. eexists _, _. split; [done|].
    intros x [H1 H2]%Forall_cons. apply not_elem_of_app. split; [exact H1|by apply Hx].
Qed.

(** C14: Emission is safe for any callbacks that add and remove listeners of
    the signal, in the way the comment of the function promises: it returns;
    it calls the listeners that are in the list when it starts, in their
    order, each once, except those that a call before has removed; listeners
    added or added again meanwhile are not called; afterwards the list holds
    what the callbacks made of it, without the two markers.  An emission
    itself keeps the markers of others, so it may run inside a callback of
    the same signal. *)
Theorem emit_mutable_contract head data : (∀ f l, respects user head f l data) → ∀ (s : sig_state W) xs, listeners s head xs →
  ∃ c e s1 calls s2 s', wl_signal_emit_mutable user head data s = Some s' ∧
    place_markers head s = Some (c, e, s1) ∧ ss_world s1 = ss_world s ∧ runs head c e data [] xs [] s1 calls s2 ∧ ss_world s' = ss_world s2 ∧
    schedule xs calls ∧ (map (λ k, k.1.1) calls) `sublist_of` xs ∧ listeners s' head (edit_all xs calls) ∧
    keeps head s xs (wl_signal_emit_mutable user head data s).
Proof.
  intros Hu s xs Hl. destruct (emit_mutable_runs head data Hu s xs Hl) as (c & e & s1 & calls & s2 & s' & E & Ep & Hw & Hr & Hw' & Hl' & Hm).
  exists c, e, s1, calls, s2, s'. pose proof (runs_schedule _ _ _ _ _ _ _ _ _ _ Hr) as Hs. split_and!; try done; [by apply schedule_sublist|].
  destruct (edit_all_edit calls xs) as (rem & add & Ee & Hx). exists s', rem, add. split_and!; [done|by rewrite <- Ee|]. intros x Hxx Hmx.
  destruct (Hm x Hxx Hmx) as [? ?%Hx]. done.
Qed.
End emission.

(** ** Private signals *)

Section private.
Context {W : Type} (user : Z → Z → Z → sig_state W → option (sig_state W)).
Implicit Types s : sig_state W.

(** The two lists of a private signal. *)
Definition priv_lists (signal : wl_priv_signal) s (ls es : list Z) : Prop :=
  listeners s (listener_list signal) ls ∧ listeners s (emit_list signal) es ∧
  ∀ x, x ∈ listener_list signal :: ls → x ∉ emit_list signal :: es.

(** A callback removes some listeners, from either list, and adds others with
    [wl_priv_signal_add]. *)
Definition priv_respects (signal : wl_priv_signal) (f l data : Z) : Prop := ∀ s ls es,
  priv_lists signal s ls es → l ∈ ls → ss_notify s !! l = Some (Notify f) →
  ∃ s' rem add, user f l data s = Some s' ∧ priv_lists signal s' (edit rem add ls) (filter (λ x, x ∉ rem) es).

(** Each call sees its listener in front of the list. *)
Definition stack_all (ls : list Z) (calls : effects) : list Z := foldl (λ ls c, edit c.1.2 c.2 (c.1.1 :: ls)) ls calls.

Lemma priv_call signal l data : (∀ f, priv_respects signal f l data) → ∀ s ls es, priv_lists signal s ls es → l ∈ ls →
  ∃ s' rem add, call user l data s = Some s' ∧ priv_lists signal s' (edit rem add ls) (filter (λ x, x ∉ rem) es).
Proof.
  intros Hu s ls es Hp Hl. pose proof Hp as [[_ Hn] _]. rewrite Forall_forall in Hn. pose proof (Hn l Hl) as [f Hf]%elem_of_dom.
  unfold call. rewrite Hf. cbn [mbind option_bind]. destruct f as [|f]; [|by apply Hu]. exists s, [], []. split; [done|].
  pose proof (edit_nil es) as E. unfold edit in E. rewrite app_nil_r in E. by rewrite edit_nil, E.
Qed.

(** The first listener of the one list goes to the front of the other. *)
Lemma priv_move signal s ls a es : priv_lists signal s ls (a :: es) →
  ∃ s', (s ← on_links (wl_list_remove a) s; on_links (wl_list_insert (listener_list signal) a) s) = Some s' ∧
    priv_lists signal s' (a :: ls) es.
Proof.
  intros ([Hl Hln] & [He Hen] & Hd). pose proof Hl as [Hnl _]. pose proof He as [Hne _].
  destruct (remove_is_list_head _ _ _ _ He) as (h1 & E1 & He1 & Hf1 & _). rewrite (on_links_some _ _ _ E1). cbn [mbind option_bind].
  assert (is_list h1 (listener_list signal) ls) as Hl1 by (apply (is_list_frame _ _ _ _ _ Hf1); [set_solver|done]).
  assert (a ∉ listener_list signal :: ls) as Ha by (intros Hx; apply (Hd a Hx); set_solver).
  destruct (insert_is_list_head h1 _ ls a Hl1) as (h2 & E2 & Hl2 & Hf2); [rewrite (proj1 Hf1); apply (is_list_dom _ _ _ a He); set_solver|exact Ha|].
  eexists. split; [by apply on_links_some|]. apply Forall_cons in Hen as [Hea Hen]. apply NoDup_cons in Hne as [Hne1 [Hne2 _]%NoDup_cons].
  assert (∀ x, x ∈ emit_list signal :: es → x ∉ a :: listener_list signal :: ls) as Hx2.
  { intros x Hx Hx'. apply elem_of_cons in Hx' as [->|Hx']; [set_solver|]. apply (Hd x Hx'). set_solver. }
  split_and!; [split; [exact Hl2|by constructor]|split; [|exact Hen]|].
  - by apply (is_list_frame _ _ _ _ _ Hf2).
  - intros x Hx Hx'. apply (Hx2 x Hx'). set_solver.
Qed.

Lemma priv_emit_loop_runs signal data : (∀ f l, priv_respects signal f l data) → ∀ fuel s ls es,
  priv_lists signal s ls es → (length es < fuel)%nat →
  ∃ calls s', priv_emit_loop user fuel signal data s = Some s' ∧ schedule es calls ∧ priv_lists signal s' (stack_all ls calls) [].
Proof.
  intros Hu. induction fuel as [|fuel IH]; intros s ls es Hp Hf; [lia|]. cbn [priv_emit_loop]. pose proof Hp as (_ & [[Hnd Hk] _] & _).
  unfold wl_list_empty. rewrite (links_next _ _ _ _ Hk). cbn [mbind option_bind]. destruct es as [|a es]; cbn [hd].
  { rewrite Z.eqb_refl. by exists [], s. }
  assert (a ≠ emit_list signal) as Ha by (intros ->; apply NoDup_cons in Hnd as [Hnd _]; set_solver).
  rewrite (proj2 (Z.eqb_neq _ _) Ha). destruct (priv_move _ _ _ _ _ Hp) as (t & Em & Hp1).
  destruct (priv_call signal a data (λ f, Hu f a) t (a :: ls) es Hp1 ltac:(set_solver)) as (t' & rem & add & Ec & Hp2).
  destruct (IH t' _ _ Hp2) as (calls & s' & El & Hs & Hp'); [pose proof (length_filter (λ x, x ∉ rem) es); cbn [length] in Hf; lia|].
  exists ((a, rem, add) :: calls), s'. split_and!; [|cbn [schedule]; eauto|exact Hp'].
  destruct (on_links (wl_list_remove a) s) as [s1|]; [|done]. cbn [mbind option_bind] in *. rewrite Em. cbn [mbind option_bind]. by rewrite Ec.
Qed.

(** The whole list is taken over first. *)
Lemma priv_emit_start signal s xs : priv_lists signal s xs [] →
  ∃ s', (s ← on_links (wl_list_insert_list (emit_list signal) (listener_list signal)) s; on_links (wl_list_init (listener_list signal)) s) = Some s' ∧
    priv_lists signal s' [] xs.
Proof.
  intros ([Hl Hn] & [He _] & Hd). destruct (insert_list_is_list _ _ [] _ xs He Hl) as (h1 & E1 & He1 & Hf1); [set_solver|].
  rewrite (on_links_some _ _ _ E1). cbn [mbind option_bind]. rewrite app_nil_r in He1.
  destruct (init_is_list (listener_list signal) h1) as (h2 & E2 & Hl2 & Hf2); [rewrite (proj1 Hf1); apply (is_list_dom _ _ _ _ Hl); set_solver|].
  eexists. split; [by apply on_links_some|]. pose proof Hl as [Hnd _]. apply NoDup_cons in Hnd as [Hnl _].
  assert (listener_list signal ≠ emit_list signal) as Hne by (intros E; apply (Hd (listener_list signal)); set_solver).
  split_and!; [split; [exact Hl2|done]|split; [|exact Hn]|set_solver]. apply (is_list_frame _ _ _ _ _ Hf2); [set_solver|exact He1].
Qed.

Lemma priv_emit_runs signal data : (∀ f l, priv_respects signal f l data) → ∀ s xs, priv_lists signal s xs [] →
  ∃ calls s', wl_priv_signal_emit user signal data s = Some s' ∧ schedule xs calls ∧ priv_lists signal s' (stack_all [] calls) [].
Proof.
  intros Hu s xs Hp. destruct (priv_emit_start _ _ _ Hp) as (t & Et & Hp1). pose proof Hp1 as (_ & Hle & _).
  destruct (priv_emit_loop_runs signal data Hu (list_fuel t) t [] xs Hp1) as (calls & s' & El & Hs & Hp'); [pose proof (listeners_length user _ _ _ Hle); unfold list_fuel; lia|].
  exists calls, s'. split_and!; try done. unfold wl_priv_signal_emit. destruct (on_links _ s) as [s1|]; [|done]. cbn [mbind option_bind] in *. by rewrite Et.
Qed.

(** When no callback adds or removes anything, the emission turns the list round. *)
Lemma stack_quiet xs ls : stack_all ls (map (λ a, (a, [], [])) xs) = reverse xs ++ ls.
Proof.
  revert ls. induction xs as [|a xs IH]; intros ls; [done|]. cbn [map stack_all foldl fst snd]. unfold stack_all in IH. rewrite IH, edit_nil, reverse_cons.
  by rewrite <- app_assoc.
Qed.

(** *** The last emission *)

(** A callback of the last emission may free its listener, which is in no list
    any more, and remove others. *)
Definition final_respects (head f l data : Z) : Prop := ∀ s xs,
  listeners s head xs → l ∉ xs → is_list (ss_links s) l [] → ss_notify s !! l = Some (Notify f) →
  ∃ s' (rem : list Z), user f l data s = Some s' ∧ listeners s' head (filter (λ x, x ∉ rem) xs).

Lemma final_call head l data : (∀ f, final_respects head f l data) → ∀ s xs,
  listeners s head xs → l ∉ xs → is_list (ss_links s) l [] → l ∈ dom (ss_notify s) →
  ∃ s' (rem : list Z), call user l data s = Some s' ∧ listeners s' head (filter (λ x, x ∉ rem) xs).
Proof.
  intros Hu s xs Hl Hx Hi [f Hf]%elem_of_dom. unfold call. rewrite Hf. cbn [mbind option_bind]. destruct f as [|f]; [|by apply Hu]. exists s, []. split; [done|].
  pose proof (edit_nil xs) as E. unfold edit in E. rewrite app_nil_r in E. by rewrite E.
Qed.

Lemma isolate s head a xs : listeners s head (a :: xs) →
  ∃ s', (s ← on_links (wl_list_remove a) s; on_links (wl_list_init a) s) = Some s' ∧ listeners s' head xs ∧ is_list (ss_links s') a [] ∧ ss_notify s' = ss_notify s.
Proof.
  intros [Hl Hn]. pose proof Hl as [Hnd _]. destruct (remove_is_list_head _ _ _ _ Hl) as (h1 & E1 & Hl1 & Hf1 & _). rewrite (on_links_some _ _ _ E1). cbn [mbind option_bind].
  destruct (init_is_list a h1) as (h2 & E2 & Hl2 & Hf2); [rewrite (proj1 Hf1); apply (is_list_dom _ _ _ _ Hl); set_solver|].
  eexists. split; [by apply on_links_some|]. apply Forall_cons in Hn as [_ Hn]. apply NoDup_cons in Hnd as [Ha [Ha' _]%NoDup_cons].
  split_and!; [split; [|exact Hn]|exact Hl2|done]. apply (is_list_frame _ _ _ _ _ Hf2); [set_solver|exact Hl1].
Qed.

Lemma priv_final_runs signal data : (∀ f l, final_respects (listener_list signal) f l data) → ∀ fuel s xs,
  listeners s (listener_list signal) xs → (length xs < fuel)%nat →
  ∃ calls s', wl_priv_signal_final_emit user fuel signal data s = Some s' ∧ schedule xs calls ∧ listeners s' (listener_list signal) [].
Proof.
  intros Hu. unfold wl_priv_signal_final_emit. induction fuel as [|fuel IH]; intros s xs Hl Hf; [lia|]. cbn [priv_final_loop]. pose proof Hl as [[Hnd Hk] Hn].
  unfold wl_list_empty. rewrite (links_next _ _ _ _ Hk). cbn [mbind option_bind]. destruct xs as [|a xs]; cbn [hd].
  { rewrite Z.eqb_refl. by exists [], s. }
  apply NoDup_cons in Hnd as [Ha [Hax _]%NoDup_cons]. apply not_elem_of_cons in Ha as [Ha _]. apply not_eq_sym, Z.eqb_neq in Ha. rewrite Ha.
  destruct (isolate _ _ _ _ Hl) as (t & Em & Hl1 & Hi & En). apply Forall_cons in Hn as [Hna _].
  destruct (final_call _ a data (λ f, Hu f a) t xs Hl1 Hax Hi) as (t' & rem & Ec & Hl2); [by rewrite En|].
  destruct (IH t' _ Hl2) as (calls & s' & El & Hs & Hl'); [pose proof (length_filter (λ x, x ∉ rem) xs); cbn [length] in Hf; lia|].
  exists ((a, rem, []) :: calls), s'. split_and!; [|cbn [schedule]; eauto|exact Hl'].
  destruct (on_links (wl_list_remove a) s) as [s1|]; [|done]. cbn [mbind option_bind] in *. rewrite Em. cbn [mbind option_bind]. by rewrite Ec.
Qed.
End private.

(** ** A signal with three listeners *)

Section example.
(** The world is the list of the listeners called.  Function 1 is a listener
    that removes itself; function 2 removes the listener 30. *)
Definition log (l : Z) (s : sig_state (list Z)) : sig_state (list Z) := mk_sig (ss_links s) (ss_notify s) (l :: ss_world s).
Definition once (f l data : Z) (s : sig_state (list Z)) : option (sig_state (list Z)) :=
  if f =? 1 then on_links (wl_list_remove l) (log l s) else if f =? 2 then on_links (wl_list_remove 30) (log l s) else Some (log l s).
Definition once_only (f l data : Z) (s : sig_state (list Z)) : option (sig_state (list Z)) := once (if f =? 1 then 1 else 0) l data s.

Definition cells : gmap Z wl_list := list_to_map (map (λ a, (a, mk_wl_list 0 0)) [10; 20; 30; 40]).
Definition three (f : Z) : option (sig_state (list Z)) :=
  s ← wl_signal_init 10 (mk_sig cells (list_to_map [(20, Notify f); (30, Notify 0); (40, Notify 1)]) []);
  s ← wl_signal_add 10 20 s; s ← wl_signal_add 10 30 s; wl_signal_add 10 40 s.

(** The listener 20 removes the one after it: the plain emission then follows
    the link of a removed node. *)
Example emit_next_removed :
  (s ← three 2; wl_signal_emit once 10 0 s) = None ∧
  (s ← three 2; s ← wl_signal_emit_mutable once 10 0 s; Some (ss_world s)) = Some [40; 20].
Proof. vm_compute. done. Qed.

Lemma once_respects head f l data : respects once_only head f l data.
Proof.
  intros s xs [Hl Hn] Hx Hf. unfold once_only, once. destruct (f =? 1); cbn [Z.eqb Pos.eqb].
  - apply list_elem_of_split in Hx as (l1 & l2 & ->). destruct (remove_is_list _ _ _ _ _ Hl) as (h & E & Hl' & _). pose proof Hl as [Hnd _].
    exists (mk_sig h (ss_notify s) (l :: ss_world s)), [l], []. split_and!; [exact (on_links_some (wl_list_remove l) (log l s) h E)| |].
    + unfold edit. rewrite app_nil_r, filter_app, filter_cons_False by (intros H; apply H; set_solver).
      assert (head :: l1 ++ l :: l2 ≡ₚ l :: head :: l1 ++ l2) as Ep by solve_Permutation. rewrite Ep in Hnd. apply NoDup_cons in Hnd as [Hnl _].
      assert (∀ k : list Z, l ∉ k → filter (λ x, x ∉ [l]) k = k) as Hk.
      { induction k as [|y k IH]; intros Hy; [done|]. rewrite filter_cons_True by set_solver. rewrite IH; [done|set_solver]. }
      rewrite !Hk by set_solver. split; [done|]. rewrite Forall_forall in *. intros x Hx. apply Hn. set_solver.
    + intros x _ Hm. split; [|done]. intros ->%list_elem_of_singleton. unfold marker in Hm. congruence.
  - exists (log l s), [], []. rewrite edit_nil. split_and!; [done|done|]. intros x _ Hm. split; [apply not_elem_of_nil|done].
Qed.

Lemma three_listeners : ∃ s, three 1 = Some s ∧ listeners s 10 [20; 30; 40].
Proof.
  eexists. split; [vm_compute; reflexivity|]. split; [split; [apply (bool_decide_unpack _); vm_compute; exact I|vm_compute; split_and!; reflexivity]|].
  apply (bool_decide_unpack _). vm_compute. exact I.
Qed.

(** The emission with listeners that remove themselves, at the concrete list. *)
Lemma emit_mutable_contract_witness : ∃ s s' calls, three 1 = Some s ∧ wl_signal_emit_mutable once_only 10 7 s = Some s' ∧ schedule [20; 30; 40] calls.
Proof.
  destruct three_listeners as (s & E & Hl).
  destruct (emit_mutable_contract once_only 10 7 (λ f l, once_respects 10 f l 7) s [20; 30; 40] Hl) as (c & e & s1 & calls & s2 & s' & E' & _ & _ & _ & _ & Hs & _).
  exists s, s', calls. split_and!; assumption.
Defined.
End example.
