(* ===== verification/WlArray.v ===== *)
(** * The growable arrays of libwayland

    Models [struct wl_array] (wayland/build/src/wayland-util.c, lines 96-155):
    a block of bytes, the number of bytes in use and the number allocated.
    Fresh memory holds unspecified bytes. *)

From S2P Require Import Prelude Os OsSim.
Open Scope Z_scope.

Record wl_array : Type := mk_array {
  a_size : Z;            (* size_t *)
  a_alloc : Z;           (* size_t *)
  a_data : list Z        (* the block [data] points to; [] for NULL *)
}.

Definition wl_array_init : wl_array := mk_array 0 0 [].

(** The block is freed and [data] poisoned: no access through it is defined. *)
Definition wl_array_release (a : wl_array) : wl_array :=
  mk_array (a_size a) (a_alloc a) [].

(** [while (alloc < array->size + size) alloc *= 2;] *)
Fixpoint alloc_loop (fuel : nat) (alloc want : Z) : option Z :=
  match fuel with
  | O => None
  | S fuel => if alloc <? want then alloc_loop fuel (u64 (alloc * 2)) want else Some alloc
  end.

Section array.
Context {W : Type} `{OsMem W}.

(** The result is the offset of the new bytes in the block. *)
Definition wl_array_add (a : wl_array) (size : Z) (w : W) : option (cres Z * wl_array * W) :=
  alloc ← alloc_loop 64 (if 0 <? a_alloc a then a_alloc a else 16) (u64 (a_size a + size));
  let add (a : wl_array) :=
    mk_array (u64 (a_size a + size)) (a_alloc a) (a_data a) in
  if a_alloc a <? alloc then
    match os_alloc alloc w with
    | (None, w) => Some (Fail ENOMEM, a, w)
    | (Some junk, w) =>
        let data := if 0 <? a_alloc a then realloc_block (a_data a) alloc junk
                    else malloc_block alloc junk in
        Some (Ret (a_size a), add (mk_array (a_size a) alloc data), w)
    end
  else Some (Ret (a_size a), add a, w).

Definition wl_array_copy (a source : wl_array) (w : W) : option (cres unit * wl_array * W) :=
  '(r, a, w) ← (if a_size a <? a_size source then
                  '(r, a, w) ← wl_array_add a (u64 (a_size source - a_size a)) w;
                  Some (match r with Ret _ => Ret tt | Fail e => Fail e end, a, w)
                else Some (Ret tt, mk_array (a_size source) (a_alloc a) (a_data a), w));
  match r with
  | Fail e => Some (Fail e, a, w)
  | Ret _ =>
      if 0 <? a_size source then
        src ← read_range (a_data source) 0 (a_size source);
        d ← write_range (a_data a) 0 src;
        Some (Ret tt, mk_array (a_size a) (a_alloc a) d, w)
      else Some (Ret tt, a, w)
  end.
End array.

(** ** Well-formed arrays *)

Definition array_wf (a : wl_array) : Prop :=
  0 <= a_size a <= a_alloc a ∧ Z.of_nat (length (a_data a)) = a_alloc a ∧
  (a_alloc a = 0 ∨ ∃ k, 4 <= k <= 63 ∧ a_alloc a = 2 ^ k).

(** The bytes in use. *)
Definition array_contents (a : wl_array) : list Z := take (Z.to_nat (a_size a)) (a_data a).

Lemma array_wf_init : array_wf wl_array_init.
Proof. split_and!; (done || by left). Qed.

Lemma array_wf_bound a : array_wf a → 0 <= a_size a <= a_alloc a ∧ a_alloc a <= 2 ^ 63.
Proof.
  intros (?&_&[E|(k&?&E)]); rewrite E in *; split; try lia. apply Z.pow_le_mono_r; lia.
Qed.

(** The loop finds the least power of two that is large enough. *)
Lemma alloc_loop_spec fuel k want :
  4 <= k <= 63 → 0 <= want <= 2 ^ 63 → 63 - k < Z.of_nat fuel →
  ∃ k', alloc_loop fuel (2 ^ k) want = Some (2 ^ k') ∧ k <= k' <= 63 ∧ want <= 2 ^ k' ∧
    (k' = k ∨ 2 ^ (k' - 1) < want).
Proof.
  revert k. induction fuel as [|fuel IH]; intros k Hk Hw Hf; [lia|]. cbn [alloc_loop].
  case_step; zbool.
  - assert (k < 63) by (apply (Z.pow_lt_mono_r_iff 2); lia).
    assert (2 ^ k * 2 = 2 ^ (k + 1)) as E by (rewrite Z.pow_add_r; lia).
    assert (2 ^ (k + 1) <= 2 ^ 63) by (apply Z.pow_le_mono_r; lia).
    rewrite E, u64_small by lia. destruct (IH (k + 1)) as (k'&->&?&?&Hor); [lia..|].
    exists k'. split; [done|]. split; [lia|]. split; [done|]. right.
    destruct Hor as [->|?]; [|done]. by replace (k + 1 - 1) with k by lia.
  - exists k. split; [done|]. split; [lia|]. split; [done|]. by left.
Qed.

(** Once [alloc] has wrapped to zero, or started there, it stays below. *)
Lemma alloc_loop_zero fuel want : 0 < want → alloc_loop fuel 0 want = None.
Proof.
  intros Hw. induction fuel as [|fuel IH]; [done|]. cbn [alloc_loop].
  rewrite (proj2 (Z.ltb_lt _ _)) by done. exact IH.
Qed.

Lemma alloc_loop_diverges fuel k want :
  4 <= k <= 63 → 2 ^ 63 < want → alloc_loop fuel (2 ^ k) want = None.
Proof.
  revert k. induction fuel as [|fuel IH]; intros k Hk Hw; [done|]. cbn [alloc_loop].
  assert (2 ^ k <= 2 ^ 63) by (apply Z.pow_le_mono_r; lia).
  rewrite (proj2 (Z.ltb_lt _ _)) by lia.
  destruct (decide (k = 63)) as [->|].
  - change (u64 (2 ^ 63 * 2)) with 0. apply alloc_loop_zero. lia.
  - assert (2 ^ k * 2 = 2 ^ (k + 1)) as E by (rewrite Z.pow_add_r; lia).
    assert (2 ^ (k + 1) <= 2 ^ 63) by (apply Z.pow_le_mono_r; lia).
    rewrite E, u64_small by lia. apply IH; lia.
Qed.

Lemma array_start_alloc a :
  array_wf a → ∃ k, 4 <= k <= 63 ∧ (if 0 <? a_alloc a then a_alloc a else 16) = 2 ^ k ∧
    (a_alloc a = 0 ∨ a_alloc a = 2 ^ k).
Proof.
  intros (_&_&[->|(k&?&->)]); [by exists 4; split_and!; [..|left]|].
  exists k. rewrite (proj2 (Z.ltb_lt _ _)) by (apply Z.pow_pos_nonneg; lia).
  split; [done|]. split; [done|]. by right.
Qed.

Section array_spec.
Context {W : Type} `{OsMem W}.

Lemma array_add_spec a n (w : W) :
  array_wf a → 0 <= n → a_size a + n <= 2 ^ 63 →
  ∃ r a' w', wl_array_add a n w = Some (r, a', w') ∧
    match r with
    | Ret p => p = a_size a ∧ array_wf a' ∧ a_size a' = a_size a + n ∧
               take (length (a_data a)) (a_data a') = a_data a
    | Fail e => e = ENOMEM ∧ a' = a
    end.
Proof.
  intros Hwf Hn Hle. pose proof (array_wf_bound a Hwf) as [Hs Ha]. unfold wl_array_add.
  destruct (array_start_alloc a Hwf) as (k&Hk&->&Hor). pose proof Hwf as (_&Hl&_).
  rewrite u64_small by lia.
  destruct (alloc_loop_spec 64 k (a_size a + n)) as (k'&->&Hk'&Hfit&_); [lia..|].
  cbn [mbind option_bind]. assert (0 < 2 ^ k') by (apply Z.pow_pos_nonneg; lia).
  case_step; zbool.
  - destruct (os_alloc (2 ^ k') w) as [[junk|] w']; [|by eexists _, _, _; split_and!].
    eexists _, _, _. split; [done|]. cbn [a_size a_alloc a_data].
    rewrite u64_small by lia. split_and!; try done.
    + split_and!; cbn [a_size a_alloc a_data]; try lia; [|right; exists k'; split_and!; (done || lia)].
      case_step; rewrite ?length_realloc_block, ?length_malloc_block; lia.
    + case_step; zbool.
      * unfold realloc_block. rewrite take_take, Nat.min_l by lia. apply take_app_length.
      * assert (length (a_data a) = 0%nat) as E by lia. rewrite E.
        by apply nil_length_inv in E as ->.
  - eexists _, _, _. split; [done|]. cbn [a_size a_alloc a_data].
    assert (a_alloc a = 2 ^ k') as E.
    { destruct Hor as [E|E]; [lia|]. assert (2 ^ k <= 2 ^ k') by (apply Z.pow_le_mono_r; lia). lia. }
    split_and!; try done; [|by rewrite take_ge].
    split_and!; cbn [a_size a_alloc a_data]; try lia. right. exists k'. split_and!; (done || lia).
Qed.

Lemma array_copy_spec a source (w : W) :
  array_wf a → array_wf source →
  ∃ r a' w', wl_array_copy a source w = Some (r, a', w') ∧
    match r with
    | Ret _ => array_wf a' ∧ array_contents a' = array_contents source
    | Fail e => e = ENOMEM ∧ a' = a
    end.
Proof.
  intros Ha Hs. pose proof (array_wf_bound a Ha). pose proof (array_wf_bound _ Hs) as [Hs1 Hs2].
  unfold wl_array_copy. set (pre := if a_size a <? _ then _ else _).
  assert (∃ r a' w', pre = Some (r, a', w') ∧
    match r with
    | Ret _ => array_wf a' ∧ a_size a' = a_size source
    | Fail e => e = ENOMEM ∧ a' = a
    end) as (r&a'&w'&->&Hr).
  { subst pre. case_step; zbool.
    - rewrite u64_small by lia.
      destruct (array_add_spec a (a_size source - a_size a) w) as (r&a'&w'&->&Hr); [done|lia..|].
      cbn [mbind option_bind]. destruct r; eexists _, _, _; (split; [done|]); [|done].
      destruct Hr as (_&?&?&_). split; [done|lia].
    - eexists _, _, _. split; [done|]. split; [|done]. destruct Ha as (?&?&?).
      split_and!; cbn; try done; lia. }
  cbn [mbind option_bind]. destruct r as [u|e]; [|by eexists _, _, _].
  destruct Hr as [Hwf Hsz]. pose proof Hwf as (?&Hl&?). pose proof Hs as (_&Hls&_).
  case_step; zbool.
  - rewrite read_range_Some by lia. cbn [mbind option_bind]. rewrite drop_0.
    rewrite write_range_Some by (rewrite ?length_take; lia). cbn [mbind option_bind].
    eexists _, _, _. split; [done|]. unfold array_wf, array_contents; cbn.
    rewrite length_splice by (rewrite length_take; lia). split; [done|].
    unfold splice. rewrite take_0, app_nil_l, take_app_length' by (rewrite length_take; lia). done.
  - eexists _, _, _. split; [done|]. split; [done|]. unfold array_contents.
    assert (a_size source = 0) as E by lia. by rewrite Hsz, E.
Qed.
End array_spec.

(** ** The properties *)

(** [wl_array_add] returns exactly when the new size is at most 2^63 bytes
    (above it the doubling loop wraps to zero and never ends); when it returns
    it either reports that there is no memory and leaves the array alone, or
    yields the offset of the new bytes behind the old contents, which are kept
    across the reallocation. *)
Theorem array_add_total {W : Type} `{OsMem W} a n (w : W) :
  array_wf a → 0 <= n → a_size a + n < 2 ^ 64 →
  (2 ^ 63 < a_size a + n ∧
   (∀ fuel, alloc_loop fuel (if 0 <? a_alloc a then a_alloc a else 16) (u64 (a_size a + n)) = None)) ∨
  (a_size a + n <= 2 ^ 63 ∧
   ∃ r a' w', wl_array_add a n w = Some (r, a', w') ∧
     match r with
     | Ret p => p = a_size a ∧ array_wf a' ∧ a_size a' = a_size a + n ∧
                take (Z.to_nat p) (array_contents a') = array_contents a
     | Fail e => e = ENOMEM ∧ a' = a
     end).
Proof.
  intros Hwf Hn Hlt. pose proof (array_wf_bound a Hwf) as [Hs Ha].
  destruct (decide (2 ^ 63 < a_size a + n)) as [Hgt|Hle]; [left|right].
  - split; [done|]. intros fuel. rewrite u64_small by lia.
    destruct (array_start_alloc a Hwf) as (k&Hk&->&_). by apply alloc_loop_diverges.
  - split; [lia|]. destruct (array_add_spec a n w) as (r&a'&w'&->&Hr); [done|lia..|].
    eexists _, _, _. split; [done|]. destruct r as [p|e]; [|done].
    destruct Hr as (->&?&Hsz&Hpre). split_and!; try done. unfold array_contents.
    rewrite <- Hpre, !take_take. destruct Hwf as (?&?&_). f_equal. lia.
Qed.

Definition demo_array : wl_array := mk_array 3 16 (1 :: 2 :: 3 :: replicate 13 0).

Lemma array_add_total_witness :
  (2 ^ 63 < a_size demo_array + 20 ∧
   (∀ fuel, alloc_loop fuel (if 0 <? a_alloc demo_array then a_alloc demo_array else 16)
              (u64 (a_size demo_array + 20)) = None)) ∨
  (a_size demo_array + 20 <= 2 ^ 63 ∧
   ∃ r a' w', wl_array_add demo_array 20 sim_init = Some (r, a', w') ∧
     match r with
     | Ret p => p = a_size demo_array ∧ array_wf a' ∧ a_size a' = a_size demo_array + 20 ∧
                take (Z.to_nat p) (array_contents a') = array_contents demo_array
     | Fail e => e = ENOMEM ∧ a' = demo_array
     end).
Proof.
  apply (array_add_total demo_array 20 sim_init).
  - split; [by vm_compute|]. split; [by vm_compute|]. right. by exists 4.
  - lia.
  - cbn. lia.
Defined.

(** [wl_array_copy] makes the contents of the target equal to those of the
    source, growing or truncating it, or reports that there is no memory. *)
Theorem array_copy_contents {W : Type} `{OsMem W} a source (w : W) :
  array_wf a → array_wf source →
  ∃ r a' w', wl_array_copy a source w = Some (r, a', w') ∧
    match r with
    | Ret _ => array_wf a' ∧ array_contents a' = array_contents source
    | Fail e => e = ENOMEM ∧ a' = a
    end.
Proof. apply array_copy_spec. Qed.

Lemma array_copy_contents_witness :
  ∃ r a' w', wl_array_copy wl_array_init demo_array sim_init = Some (r, a', w') ∧
    match r with
    | Ret _ => array_wf a' ∧ array_contents a' = array_contents demo_array
    | Fail e => e = ENOMEM ∧ a' = wl_array_init
    end.
Proof.
  apply (array_copy_contents wl_array_init demo_array sim_init).
  - exact array_wf_init.
  - split; [by vm_compute|]. split; [by vm_compute|]. right. by exists 4.
Defined.
