(* ===== verification/WlMap.v ===== *)
(** * The object maps of libwayland

    Models [struct wl_map] (wayland/build/src/wayland-util.c, lines 172-447 and
    wayland-private.h, lines 45-48 and 81-91): two arrays of 64-bit entries, one
    per side of the connection, whose low two bits hold a flag and a mark of
    free entries, and the intrusive list of free entries of the own side.  The
    abstract view is a finite map from object ids to a pointer and a flag. *)

From S2P Require Import Prelude Os OsSim WlArray.
Open Scope Z_scope.

Definition WL_MAP_SERVER_SIDE : Z := 0.
Definition WL_MAP_CLIENT_SIDE : Z := 1.
Definition WL_SERVER_ID_START : Z := 0xff000000.
Definition WL_MAP_MAX_OBJECTS : Z := 0x00f00000.

Record wl_map : Type := mk_map {
  client_entries : wl_array;
  server_entries : wl_array;
  side : Z;              (* uint32_t *)
  free_list : Z          (* uint32_t *)
}.

Definition map_set_client (a : wl_array) (mp : wl_map) : wl_map :=
  mk_map a (server_entries mp) (side mp) (free_list mp).
Definition map_set_server (a : wl_array) (mp : wl_map) : wl_map :=
  mk_map (client_entries mp) a (side mp) (free_list mp).
Definition map_set_free (f : Z) (mp : wl_map) : wl_map :=
  mk_map (client_entries mp) (server_entries mp) (side mp) f.

(** ** Entries *)

Definition sizeof_map_entry : Z := 8.

(** [start[i]] read and written as [uintptr_t]. *)
Definition entry_get (a : wl_array) (i : Z) : option Z :=
  bs ← read_range (a_data a) (i * sizeof_map_entry) sizeof_map_entry;
  Some (le_combine bs).
Definition entry_set (a : wl_array) (i v : Z) : option wl_array :=
  d ← write_range (a_data a) (i * sizeof_map_entry) (le_split 8 v);
  Some (mk_array (a_size a) (a_alloc a) d).

Definition map_entry_is_free (e : Z) : bool := negb (Z.land e 1 =? 0).
Definition map_entry_get_data (e : Z) : Z := Z.land e (2 ^ 64 - 1 - 3).
Definition map_entry_get_flags (e : Z) : Z := Z.land (Z.shiftr e 1) 1.

(** [entry->data = data; entry->next |= (flags & 0x1) << 1;] *)
Definition entry_store (a : wl_array) (i flags data : Z) : option wl_array :=
  a ← entry_set a i data;
  e ← entry_get a i;
  entry_set a i (Z.lor e (Z.shiftl (Z.land flags 1) 1)).

(** ** The operations *)

Definition wl_map_init (sd : Z) : wl_map := mk_map wl_array_init wl_array_init sd 0.

Definition wl_map_release (mp : wl_map) : wl_map :=
  mk_map (wl_array_release (client_entries mp)) (wl_array_release (server_entries mp))
    (side mp) (free_list mp).

(** Which array an id belongs to ([true] for the server's), and its index. *)
Definition is_server_id (i : Z) : bool := negb (i <? WL_SERVER_ID_START).
Definition id_index (i : Z) : Z := if i <? WL_SERVER_ID_START then i else u32 (i - WL_SERVER_ID_START).
Definition entries (server : bool) (mp : wl_map) : wl_array :=
  if server then server_entries mp else client_entries mp.
Definition set_entries (server : bool) (a : wl_array) (mp : wl_map) : wl_map :=
  if server then map_set_server a mp else map_set_client a mp.

(** [entries->size / sizeof *start] as a [uint32_t]. *)
Definition entry_count (a : wl_array) : Z := u32 (a_size a / sizeof_map_entry).

Section map_os.
Context {W : Type} `{OsMem W}.

(** [Fail e] is a return of 0 with [errno] [e]. *)
Definition wl_map_insert_new (mp : wl_map) (flags data : Z) (w : W)
    : option (cres Z * wl_map * W) :=
  let server := negb (side mp =? WL_MAP_CLIENT_SIDE) in
  let base := if server then WL_SERVER_ID_START else 0 in
  let a := entries server mp in
  '(r, mp, w) ←
    (if negb (free_list mp =? 0) then
       let i := Z.shiftr (free_list mp) 1 in
       e ← entry_get a i;
       Some (Ret i, map_set_free (u32 e) mp, w)
     else
       '(r, a, w) ← wl_array_add a sizeof_map_entry w;
       Some (match r with Ret p => Ret (p / sizeof_map_entry) | Fail e => Fail e end,
             set_entries server a mp, w));
  match r with
  | Fail e => Some (Fail e, mp, w)
  | Ret i =>
      let count := u32 i in
      if WL_MAP_MAX_OBJECTS <? count then
        a ← entry_set (entries server mp) i 0;
        Some (Fail ENOSPC, set_entries server a mp, w)
      else
        a ← entry_store (entries server mp) i flags data;
        Some (Ret (u32 (count + base)), set_entries server a mp, w)
  end.

Definition wl_map_insert_at (mp : wl_map) (flags i data : Z) (w : W)
    : option (cres unit * wl_map * W) :=
  let server := is_server_id i in
  let i := id_index i in
  if WL_MAP_MAX_OBJECTS <? i then Some (Fail ENOSPC, mp, w)
  else
    let count := entry_count (entries server mp) in
    if count <? i then Some (Fail EINVAL, mp, w)
    else
      '(r, mp, w) ← (if count =? i then
                       '(r, a, w) ← wl_array_add (entries server mp) sizeof_map_entry w;
                       Some (r, set_entries server a mp, w)
                     else Some (Ret 0, mp, w));
      match r with
      | Fail e => Some (Fail e, mp, w)
      | Ret _ =>
          a ← entry_store (entries server mp) i flags data;
          Some (Ret tt, set_entries server a mp, w)
      end.

Definition wl_map_reserve_new (mp : wl_map) (i : Z) (w : W) : option (cres unit * wl_map * W) :=
  let server := is_server_id i in
  let i := id_index i in
  if side mp =? (if server then WL_MAP_SERVER_SIDE else WL_MAP_CLIENT_SIDE) then
    Some (Fail EINVAL, mp, w)
  else if WL_MAP_MAX_OBJECTS <? i then Some (Fail ENOSPC, mp, w)
  else
    let count := entry_count (entries server mp) in
    if count <? i then Some (Fail EINVAL, mp, w)
    else if count =? i then
      '(r, a, w) ← wl_array_add (entries server mp) sizeof_map_entry w;
      match r with
      | Fail e => Some (Fail e, set_entries server a mp, w)
      | Ret _ =>
          a ← entry_set a i 0;
          Some (Ret tt, set_entries server a mp, w)
      end
    else
      e ← entry_get (entries server mp) i;
      Some ((if negb (e =? 0) then Fail EINVAL else Ret tt), mp, w).
End map_os.

Definition wl_map_remove (mp : wl_map) (i : Z) : option wl_map :=
  let server := is_server_id i in
  if side mp =? (if server then WL_MAP_CLIENT_SIDE else WL_MAP_SERVER_SIDE) then Some mp
  else
    let i := id_index i in
    a ← entry_set (entries server mp) i (free_list mp);
    Some (map_set_free (Z.lor (u32 (Z.shiftl i 1)) 1) (set_entries server a mp)).

Definition wl_map_lookup (mp : wl_map) (i : Z) : option Z :=
  let a := entries (is_server_id i) mp in
  let i := id_index i in
  if i <? entry_count a then
    e ← entry_get a i;
    Some (if negb (map_entry_is_free e) then map_entry_get_data e else 0)
  else Some 0.

Definition wl_map_lookup_flags (mp : wl_map) (i : Z) : option Z :=
  let a := entries (is_server_id i) mp in
  let i := id_index i in
  if i <? entry_count a then
    e ← entry_get a i;
    Some (if negb (map_entry_is_free e) then map_entry_get_flags e else 0)
  else Some 0.

(** The result of a callback: [WL_ITERATOR_CONTINUE] or [WL_ITERATOR_STOP]. *)
Inductive wl_iterator_result : Type := WL_ITERATOR_STOP | WL_ITERATOR_CONTINUE.

Section for_each.
Context {X : Type} (func : Z → Z → wl_map → X → option (wl_iterator_result * wl_map * X)).

(** [start] and [count] are read once: an access through [start] after a
    callback has made the array grow is undefined. *)
Fixpoint for_each_loop (n : nat) (server : bool) (alloc idx : Z) (mp : wl_map) (x : X)
    : option (wl_iterator_result * wl_map * X) :=
  match n with
  | O => Some (WL_ITERATOR_CONTINUE, mp, x)
  | S n =>
      if a_alloc (entries server mp) =? alloc then
        e ← entry_get (entries server mp) idx;
        if negb (e =? 0) && negb (map_entry_is_free e) then
          '(ret, mp, x) ← func (map_entry_get_data e) (map_entry_get_flags e) mp x;
          match ret with
          | WL_ITERATOR_CONTINUE => for_each_loop n server alloc (idx + 1) mp x
          | WL_ITERATOR_STOP => Some (ret, mp, x)
          end
        else for_each_loop n server alloc (idx + 1) mp x
      else None
  end.

Definition for_each_helper (server : bool) (mp : wl_map) (x : X)
    : option (wl_iterator_result * wl_map * X) :=
  let a := entries server mp in
  for_each_loop (Z.to_nat (a_size a / sizeof_map_entry)) server (a_alloc a) 0 mp x.

Definition wl_map_for_each (mp : wl_map) (x : X) : option (wl_map * X) :=
  '(ret, mp, x) ← for_each_helper false mp x;
  match ret with
  | WL_ITERATOR_CONTINUE =>
      '(_, mp, x) ← for_each_helper true mp x;
      Some (mp, x)
  | WL_ITERATOR_STOP => Some (mp, x)
  end.
End for_each.

(** ** Bits of an entry *)

Lemma land_clear2 v : 0 <= v < 2 ^ 64 → Z.land v (2 ^ 64 - 1 - 3) = 4 * (v / 4).
Proof.
  intros Hv. replace (2 ^ 64 - 1 - 3) with (Z.shiftl (Z.ones 62) 2) by done.
  replace (4 * (v / 4)) with (Z.shiftl (Z.shiftr v 2) 2)
    by (rewrite Z.shiftl_mul_pow2, Z.shiftr_div_pow2 by lia; change (2 ^ 2) with 4; lia).
  apply Z.bits_inj'. intros n Hn. rewrite Z.land_spec, !Z.shiftl_spec by lia.
  destruct (decide (n < 2)); [by rewrite !(Z.testbit_neg_r _ (n - 2)), andb_false_r by lia|].
  rewrite Z.shiftr_spec by lia. replace (n - 2 + 2) with n by lia.
  destruct (decide (n < 64)).
  - by rewrite Z.ones_spec_low, andb_true_r by lia.
  - rewrite Z.ones_spec_high, andb_false_r by lia. symmetry.
    apply (testbit_above v 64); lia.
Qed.

(** An entry that holds a pointer and a flag. *)
Definition entry_word (flags data : Z) : Z := Z.lor data (Z.shiftl (Z.land flags 1) 1).

Section word.
Context (flags data : Z) (Hd : 0 <= data < 2 ^ 64) (Ha : data mod 4 = 0).

Lemma entry_word_eq : entry_word flags data = data + 2 * (flags mod 2).
Proof.
  unfold entry_word. rewrite land_1, Z.shiftl_mul_pow2 by lia.
  pose proof (Z.mod_pos_bound flags 2). rewrite (lor_low _ _ 2); change (2 ^ 2) with 4; lia.
Qed.

Lemma entry_word_bound : 0 <= entry_word flags data < 2 ^ 64.
Proof.
  rewrite entry_word_eq. pose proof (Z.mod_pos_bound flags 2). mlia.
Qed.

Lemma entry_word_live : map_entry_is_free (entry_word flags data) = false.
Proof.
  unfold map_entry_is_free. rewrite land_1, entry_word_eq.
  apply negb_false_iff, Z.eqb_eq. pose proof (Z.mod_pos_bound flags 2). mlia.
Qed.

Lemma entry_word_data : map_entry_get_data (entry_word flags data) = data.
Proof.
  unfold map_entry_get_data. rewrite land_clear2 by apply entry_word_bound.
  rewrite entry_word_eq. pose proof (Z.mod_pos_bound flags 2). mlia.
Qed.

Lemma entry_word_flags : map_entry_get_flags (entry_word flags data) = Z.land flags 1.
Proof.
  unfold map_entry_get_flags. rewrite !land_1, entry_word_eq, Z.shiftr_div_pow2 by lia.
  change (2 ^ 1) with 2. pose proof (Z.mod_pos_bound flags 2). mlia.
Qed.
End word.

(** A link of the free list: odd, so it marks the entry. *)
Lemma free_link i : 0 <= i < 2 ^ 31 → Z.lor (u32 (Z.shiftl i 1)) 1 = 2 * i + 1.
Proof.
  intros Hi. rewrite Z.shiftl_mul_pow2 by lia. change (2 ^ 1) with 2.
  rewrite u32_small by lia. rewrite (lor_low _ _ 1); [lia|change (2 ^ 1) with 2; mlia|lia].
Qed.

Lemma free_link_index i : Z.shiftr (2 * i + 1) 1 = i.
Proof. rewrite Z.shiftr_div_pow2 by lia. change (2 ^ 1) with 2. mlia. Qed.

(** ** Reading and writing entries *)

Definition ents_wf (a : wl_array) : Prop :=
  array_wf a ∧ a_size a mod 8 = 0 ∧ a_size a / 8 < 2 ^ 32.

Definition ents_count (a : wl_array) : Z := a_size a / 8.

Lemma entry_count_eq a : ents_wf a → entry_count a = ents_count a.
Proof.
  intros ((?&_)&_&?). apply u32_small. split; [|done]. apply Z.div_pos; lia.
Qed.

Lemma entry_get_Some a i : ents_wf a → 0 <= i < ents_count a → ∃ e, entry_get a i = Some e.
Proof.
  intros ((?&Hl&_)&?&_) Hi. unfold entry_get, sizeof_map_entry, ents_count in *.
  rewrite read_range_Some by mlia. by eexists.
Qed.

Lemma entry_set_spec a i v :
  ents_wf a → 0 <= i < ents_count a →
  ∃ a', entry_set a i v = Some a' ∧ ents_wf a' ∧ ents_count a' = ents_count a ∧
    entry_get a' i = Some (u64 v) ∧ ∀ j, 0 <= j → j ≠ i → entry_get a' j = entry_get a j.
Proof.
  intros ((?&Hl&?)&?&?) Hi. unfold entry_set, sizeof_map_entry, ents_count in *.
  rewrite write_range_Some by (rewrite ?length_le_split; mlia). cbn [mbind option_bind].
  set (off := Z.to_nat (i * 8)). assert (off + length (le_split 8 v) <= length (a_data a))%nat as Hoff
    by (rewrite length_le_split; unfold off; mlia).
  eexists. split; [done|]. split_and!; try done.
  - split; [|done]. unfold array_wf. cbn [a_data a_size a_alloc]. by rewrite length_splice.
  - unfold entry_get, sizeof_map_entry. cbn [a_data].
    replace (i * 8) with (Z.of_nat off) by (unfold off; lia).
    replace 8 with (Z.of_nat (length (le_split 8 v))) by done.
    rewrite read_splice_same by done. cbn [mbind option_bind]. by rewrite le_combine_split.
  - intros j Hj Hne. unfold entry_get, sizeof_map_entry. cbn [a_data].
    rewrite read_splice_disjoint; [done|done|lia|lia|]. rewrite length_le_split. unfold off. lia.
Qed.

Lemma entry_store_spec a i flags data :
  ents_wf a → 0 <= i < ents_count a → 0 <= data < 2 ^ 64 → data mod 4 = 0 →
  ∃ a', entry_store a i flags data = Some a' ∧ ents_wf a' ∧ ents_count a' = ents_count a ∧
    entry_get a' i = Some (entry_word flags data) ∧
    ∀ j, 0 <= j → j ≠ i → entry_get a' j = entry_get a j.
Proof.
  intros Ha Hi Hd Hal. unfold entry_store.
  destruct (entry_set_spec a i data Ha Hi) as (a1&->&Ha1&Hc1&Hg1&Ho1). cbn [mbind option_bind].
  rewrite Hg1, u64_small by done. cbn [mbind option_bind]. fold (entry_word flags data).
  destruct (entry_set_spec a1 i (entry_word flags data) Ha1) as (a2&->&Ha2&Hc2&Hg2&Ho2);
    [by rewrite Hc1|].
  rewrite u64_small in Hg2 by (by apply entry_word_bound).
  eexists. split; [done|]. split_and!; try done; [congruence|].
  intros j Hj Hne. rewrite Ho2, Ho1; done.
Qed.

(** Growing an array by one entry. *)
Lemma ents_add_spec {W : Type} `{OsMem W} a (w : W) :
  ents_wf a → ents_count a + 1 < 2 ^ 32 →
  ∃ r a' w', wl_array_add a sizeof_map_entry w = Some (r, a', w') ∧
    match r with
    | Ret p => p = 8 * ents_count a ∧ ents_wf a' ∧ ents_count a' = ents_count a + 1 ∧
               ∀ j, 0 <= j < ents_count a → entry_get a' j = entry_get a j
    | Fail e => e = ENOMEM ∧ a' = a
    end.
Proof.
  intros (Hwf&Hm&Hc) Hroom. unfold sizeof_map_entry, ents_count in *.
  destruct (array_add_spec a 8 w Hwf) as (r&a'&w'&->&Hr);
    [lia|destruct Hwf as (?&_); mlia|].
  eexists _, _, _. split; [done|]. destruct r as [p|e]; [|done].
  destruct Hr as (->&Hwf'&Hsz&Hpre). split; [destruct Hwf as (?&_); mlia|].
  split; [|split].
  - split; [done|]. rewrite Hsz. split; mlia.
  - rewrite Hsz. mlia.
  - intros j Hj. unfold entry_get, sizeof_map_entry. destruct Hwf as (?&Hl&_), Hwf' as (?&Hl'&_).
    rewrite <- Hpre, read_range_take; [done|lia|lia|mlia|].
    rewrite <- Hpre, length_take in Hl. rewrite <- Hpre, length_take. lia.
Qed.

(** ** The abstract map *)

(** The side whose ids this end allocates. *)
Definition own_side (mp : wl_map) : bool := negb (side mp =? WL_MAP_CLIENT_SIDE).

(** [f] is the head link of the free list through the indices [l]. *)
Inductive free_chain (g : Z → option Z) : Z → list Z → Prop :=
  | free_nil : free_chain g 0 []
  | free_cons i f l :
      g i = Some f → 0 <= f < 2 ^ 32 → free_chain g f l → free_chain g (2 * i + 1) (i :: l).

Definition map_inv (mp : wl_map) (free : list Z) : Prop :=
  (∀ s, ents_wf (entries s mp)) ∧
  (side mp = WL_MAP_SERVER_SIDE ∨ side mp = WL_MAP_CLIENT_SIDE) ∧
  NoDup free ∧
  Forall (λ k, 0 <= k < ents_count (entries (own_side mp) mp) ∧ k < 2 ^ 31) free ∧
  free_chain (entry_get (entries (own_side mp) mp)) (free_list mp) free.

(** Is entry [k] of a side in use. *)
Definition live (mp : wl_map) (free : list Z) (s : bool) (k : Z) : Prop :=
  0 <= k < ents_count (entries s mp) ∧ ¬ (s = own_side mp ∧ k ∈ free).

Definition entry_pair (e : Z) : Z * Z := (map_entry_get_data e, map_entry_get_flags e).

(** [mp] represents the finite map [A] from ids to pointers and flags. *)
Definition map_rep (mp : wl_map) (A : gmap Z (Z * Z)) (free : list Z) : Prop :=
  map_inv mp free ∧
  (∀ s k, live mp free s k →
     ∃ e, entry_get (entries s mp) k = Some e ∧ map_entry_is_free e = false) ∧
  (∀ i p, A !! i = Some p ↔
     0 <= i < 2 ^ 32 ∧ live mp free (is_server_id i) (id_index i) ∧
     ∃ e, entry_get (entries (is_server_id i) mp) (id_index i) = Some e ∧ p = entry_pair e).

(** The id of an entry, for entries that have one. *)
Definition id_of (s : bool) (k : Z) : Z := if s then k + WL_SERVER_ID_START else k.
Definition has_id (s : bool) (k : Z) : bool :=
  (0 <=? k) && (k <? (if s then 2 ^ 32 - WL_SERVER_ID_START else WL_SERVER_ID_START)).

Lemma id_slot i s k :
  0 <= i < 2 ^ 32 → (is_server_id i = s ∧ id_index i = k) ↔ (has_id s k = true ∧ i = id_of s k).
Proof.
  intros Hi. unfold is_server_id, id_index, has_id, id_of, WL_SERVER_ID_START.
  destruct (i <? 0xff000000) eqn:E; zbool; cbn [negb].
  - split.
    + intros [<- <-]. split; [|done]. apply andb_true_intro. split; [apply Z.leb_le|apply Z.ltb_lt]; lia.
    + intros [Hk ->]. destruct s; zbool; [lia|done].
  - rewrite u32_small by lia. split.
    + intros [<- <-]. split; [|lia]. apply andb_true_intro. split; [apply Z.leb_le|apply Z.ltb_lt]; lia.
    + intros [Hk ->]. destruct s; zbool; [split; [done|lia]|lia].
Qed.

Lemma id_slot_of s k :
  has_id s k = true → 0 <= id_of s k < 2 ^ 32 ∧ is_server_id (id_of s k) = s ∧
    id_index (id_of s k) = k.
Proof.
  intros Hk. assert (0 <= id_of s k < 2 ^ 32) as Hi.
  { revert Hk. unfold has_id, id_of, WL_SERVER_ID_START. destruct s; intros; zbool; lia. }
  split; [done|]. by apply (id_slot _ s k).
Qed.

Lemma free_chain_frame g g' f l :
  free_chain g f l → (∀ k, k ∈ l → g' k = g k) → free_chain g' f l.
Proof.
  induction 1 as [|i f l Hg Hf Hc IH]; intros Hk; [constructor|].
  apply (free_cons _ i f); [by rewrite Hk by set_solver|done|]. apply IH. set_solver.
Qed.

(** What [wl_map_lookup] and [wl_map_lookup_flags] answer for an entry. *)
Lemma free_entry_null g f l k :
  free_chain g f l → k ∈ l → ∃ e, g k = Some e ∧ (e = 0 ∨ map_entry_is_free e = true).
Proof.
  induction 1 as [|i f l Hg Hf Hc IH]; [by intros ?%not_elem_of_nil|].
  intros [->|Hk]%elem_of_cons; [|by apply IH]. exists f. split; [done|].
  inversion Hc; subst; [by left|]. right. unfold map_entry_is_free. rewrite land_1.
  apply negb_true_iff, Z.eqb_neq. mlia.
Qed.

Lemma entry_pair_0 : entry_pair 0 = (0, 0).
Proof. done. Qed.

Section lookups.
Context (mp : wl_map) (A : gmap Z (Z * Z)) (free : list Z) (Hrep : map_rep mp A free).

Lemma rep_entry i :
  0 <= i < 2 ^ 32 →
  (if id_index i <? entry_count (entries (is_server_id i) mp) then
     e ← entry_get (entries (is_server_id i) mp) (id_index i);
     Some (if negb (map_entry_is_free e) then entry_pair e else (0, 0))
   else Some (0, 0)) = Some (default (0, 0) (A !! i)).
Proof.
  intros Hi. destruct Hrep as ((Hwf&_&_&_&Hch)&Hlive&HA).
  set (s := is_server_id i) in *. set (k := id_index i) in *.
  assert (0 <= k) by (unfold k, id_index; case_step; [lia|apply u32_bound]).
  rewrite entry_count_eq by done. destruct (A !! i) as [p|] eqn:Ei.
  - apply HA in Ei as (_&Hl&e&He&->). fold s k in Hl, He. pose proof Hl as [? _].
    rewrite (proj2 (Z.ltb_lt _ _)) by lia. rewrite He. cbn [mbind option_bind default].
    destruct (Hlive s k Hl) as (e'&He'&Hf). rewrite He in He'. injection He' as <-. by rewrite Hf.
  - case_step; zbool; [|done]. cbn [default].
    destruct (decide (s = own_side mp ∧ k ∈ free)) as [[Hs Hk]|Hn].
    + destruct (free_entry_null _ _ _ k Hch Hk) as (e&He&[->|Hf]); rewrite Hs, He;
        cbn [mbind option_bind]; [done|by rewrite Hf].
    + destruct (Hlive s k) as (e&He&Hf); [done|].
      assert (A !! i = Some (entry_pair e)) as E; [|congruence].
      apply HA. split; [done|]. split; [done|]. by exists e.
Qed.

Lemma lookup_rep i :
  0 <= i < 2 ^ 32 →
  wl_map_lookup mp i = Some (default (0, 0) (A !! i)).1 ∧
  wl_map_lookup_flags mp i = Some (default (0, 0) (A !! i)).2.
Proof.
  intros Hi. pose proof (rep_entry i Hi) as He. unfold wl_map_lookup, wl_map_lookup_flags.
  destruct (id_index i <? _); [|by injection He as <-].
  destruct (entry_get _ _) as [e|]; [|done]. cbn [mbind option_bind] in *.
  injection He as <-. by destruct (map_entry_is_free e).
Qed.
End lookups.

(** ** Updates of the representation *)

Lemma entries_set s a mp : entries s (set_entries s a mp) = a.
Proof. by destruct s. Qed.

Lemma entries_set_other s s' a mp : s' ≠ s → entries s' (set_entries s a mp) = entries s' mp.
Proof. by destruct s, s'. Qed.

Lemma own_side_set s a mp : own_side (set_entries s a mp) = own_side mp.
Proof. by destruct s. Qed.

(** Every entry but entry [k] of side [s] is as before. *)
Definition same_entries (mp mp' : wl_map) (free free' : list Z) (s : bool) (k : Z) : Prop :=
  ∀ s' j, (s', j) ≠ (s, k) →
    (live mp' free' s' j ↔ live mp free s' j) ∧
    (live mp free s' j → entry_get (entries s' mp') j = entry_get (entries s' mp) j).

(** The abstract map once entry [k] of side [s] holds [p]. *)
Definition put_entry (s : bool) (k : Z) (p : Z * Z) (A : gmap Z (Z * Z)) : gmap Z (Z * Z) :=
  if has_id s k then <[id_of s k := p]> A else A.

Lemma put_entry_lookup s k p A i :
  0 <= i < 2 ^ 32 → put_entry s k p A !! i =
    if decide ((is_server_id i, id_index i) = (s, k)) then Some p else A !! i.
Proof.
  intros Hi. unfold put_entry. case_decide as E.
  - injection E as E1 E2. destruct (proj1 (id_slot i s k Hi)) as [-> ->]; [done|].
    by rewrite lookup_insert_eq.
  - case_step; [|done]. rewrite lookup_insert_ne; [done|]. intros <-. apply E.
    by destruct (proj2 (id_slot (id_of s k) s k Hi)) as [-> ->].
Qed.

Lemma put_entry_None s k p (A : gmap Z (Z * Z)) i :
  ¬ 0 <= i < 2 ^ 32 → A !! i = None → put_entry s k p A !! i = None.
Proof.
  intros Hi HA. unfold put_entry. case_step; [|done].
  rewrite lookup_insert_ne; [done|]. intros <-. by apply Hi, id_slot_of.
Qed.

Lemma map_rep_None mp A free i : map_rep mp A free → ¬ 0 <= i < 2 ^ 32 → A !! i = None.
Proof.
  intros (_&_&HA) Hi. destruct (A !! i) as [p|] eqn:E; [|done]. by apply HA in E as [? _].
Qed.

(** Entry [k] of side [s] becomes, or stays, live and holds [e]. *)
Lemma rep_put mp A free mp' free' s k e :
  map_rep mp A free → map_inv mp' free' → same_entries mp mp' free free' s k →
  live mp' free' s k → entry_get (entries s mp') k = Some e → map_entry_is_free e = false →
  map_rep mp' (put_entry s k (entry_pair e) A) free'.
Proof.
  intros Hrep Hinv Hsame Hl He Hf. pose proof Hrep as (_&Hlive&HA). split; [done|]. split.
  - intros s' j Hj. destruct (decide ((s', j) = (s, k))) as [[= -> ->]|Hne]; [by exists e|].
    destruct (Hsame s' j Hne) as [Hiff Heq]. rewrite Heq by by apply Hiff. by apply Hlive, Hiff.
  - intros i p. destruct (decide (0 <= i < 2 ^ 32)) as [Hi|Hi].
    2: { rewrite put_entry_None by (done || by eapply map_rep_None). naive_solver. }
    rewrite put_entry_lookup by done. case_decide as E.
    + injection E as -> ->. split.
      * intros [= <-]. split; [done|]. split; [done|]. by exists e.
      * intros (_&_&e'&He'&->). rewrite He in He'. by injection He' as ->.
    + destruct (Hsame _ _ E) as [Hiff Heq]. rewrite HA. split.
      * intros (?&?&e'&?&?). split_and!; [lia|lia|by apply Hiff|]. exists e'.
        by rewrite Heq.
      * intros (?&?&e'&He'&?). split_and!; [lia|lia|by apply Hiff|]. exists e'.
        rewrite Heq in He' by by apply Hiff. done.
Qed.

(** Entry [k] of side [s] is freed. *)
Lemma rep_del mp A free mp' free' s k :
  map_rep mp A free → map_inv mp' free' → same_entries mp mp' free free' s k →
  ¬ live mp' free' s k → has_id s k = true →
  map_rep mp' (delete (id_of s k) A) free'.
Proof.
  intros Hrep Hinv Hsame Hl Hid. pose proof Hrep as (_&Hlive&HA). split; [done|]. split.
  - intros s' j Hj. destruct (decide ((s', j) = (s, k))) as [[= -> ->]|Hne]; [done|].
    destruct (Hsame s' j Hne) as [Hiff Heq]. rewrite Heq by by apply Hiff. by apply Hlive, Hiff.
  - intros i p. destruct (decide (i = id_of s k)) as [->|Hne].
    { rewrite lookup_delete_eq. split; [done|]. intros (_&Hlv&_).
      destruct (id_slot_of s k Hid) as (_&E1&E2). by rewrite E1, E2 in Hlv. }
    rewrite lookup_delete_ne by done. rewrite HA.
    assert (0 <= i < 2 ^ 32 → (is_server_id i, id_index i) ≠ (s, k)) as Hslot.
    { intros Hi [= E1 E2]. by destruct (proj1 (id_slot i s k Hi)) as [_ ?]. }
    split; intros (Hi&Hlv&e&He&->); destruct (Hsame _ _ (Hslot Hi)) as [Hiff Heq];
      (split; [done|]); (split; [by apply Hiff|]); exists e; (split; [|done]).
    + by rewrite Heq.
    + by rewrite <- Heq by by apply Hiff.
Qed.

Lemma same_entries_intro mp mp' free free' s k :
  side mp' = side mp →
  (∀ s', s' ≠ s → entries s' mp' = entries s' mp) →
  (∀ j, j ≠ k → j < ents_count (entries s mp') ↔ j < ents_count (entries s mp)) →
  (∀ j, 0 <= j < ents_count (entries s mp) → j ≠ k →
     entry_get (entries s mp') j = entry_get (entries s mp) j) →
  (∀ s' j, (s', j) ≠ (s, k) → s' = own_side mp → j ∈ free' ↔ j ∈ free) →
  same_entries mp mp' free free' s k.
Proof.
  intros Hside Hother Hcount Hget Hfree s' j Hne. unfold live.
  assert (own_side mp' = own_side mp) as -> by (unfold own_side; by rewrite Hside).
  specialize (Hfree s' j Hne). destruct (decide (s' = s)) as [->|Hs].
  - assert (j ≠ k) as Hj by congruence. specialize (Hcount j Hj). split; [naive_solver lia|].
    intros [? _]. by apply Hget.
  - rewrite (Hother s' Hs). split; [naive_solver|done].
Qed.

(** The own side allocates an entry: the first free one, or a new one. *)
Section alloc.
Context (mp mp' : wl_map) (A : gmap Z (Z * Z)) (free : list Z) (a' : wl_array) (k e : Z).
Let s := own_side mp.
Let a := entries s mp.

Lemma rep_alloc :
  map_rep mp A free →
  side mp' = side mp → entries s mp' = a' → (∀ s', s' ≠ s → entries s' mp' = entries s' mp) →
  ents_wf a' → entry_get a' k = Some e → map_entry_is_free e = false →
  (∀ j, 0 <= j < ents_count a → j ≠ k → entry_get a' j = entry_get a j) →
  free_chain (entry_get a) (free_list mp') (tail free) →
  (∃ l, free = k :: l ∧ ents_count a' = ents_count a) ∨
  (free = [] ∧ k = ents_count a ∧ ents_count a' = ents_count a + 1) →
  map_rep mp' (put_entry s k (entry_pair e) A) (tail free) ∧
  (has_id s k = true → A !! id_of s k = None).
Proof.
  intros Hrep Hside Ha' Hother Hwf' He Hf Hget Hch Hor.
  pose proof Hrep as ((Hwf&Hsd&Hnd&Hfr&_)&_&HA). fold s a in Hfr.
  assert (own_side mp' = s) as Hown by (unfold own_side; by rewrite Hside).
  assert (0 <= ents_count a) as H0.
  { destruct (Hwf s) as ((?&_)&_). unfold ents_count, a. apply Z.div_pos; lia. }
  assert (¬ live mp free s k ∧ 0 <= k < ents_count a' ∧ k ∉ tail free ∧
          Forall (λ j, 0 <= j < ents_count a' ∧ j < 2 ^ 31 ∧ j ≠ k ∧ j < ents_count a) (tail free))
    as (Hnl&Hk&Hkt&Hft).
  { destruct Hor as [(l&->&->)|(->&->&->)]; cbn [tail].
    - apply NoDup_cons in Hnd as [Hkl Hnd]. apply Forall_cons in Hfr as [? Hfr].
      split_and!; try done; try lia; [intros [_ []]; split; [done|set_solver]|].
      rewrite Forall_forall in *. intros j Hj. specialize (Hfr j Hj).
      split_and!; try lia. by intros ->.
    - split_and!; try lia; [intros [? _]; unfold a in *; lia|set_solver|constructor]. }
  assert (NoDup (tail free)) by (destruct free; [done|by apply NoDup_cons in Hnd as [_ ?]]).
  split.
  2: { intros Hid. destruct (A !! id_of s k) as [p|] eqn:E; [|done].
       apply HA in E as (_&Hl&_). destruct (id_slot_of s k Hid) as (_&E1&E2).
       by rewrite E1, E2 in Hl. }
  apply (rep_put mp A free); try done.
  - split_and!; try (done || by rewrite Hside).
    + intros s'. destruct (decide (s' = s)) as [->|Hs]; [by rewrite Ha'|by rewrite Hother].
    + rewrite Hown, Ha'. eapply Forall_impl; [done|]. naive_solver.
    + rewrite Hown, Ha'. eapply free_chain_frame; [done|]. intros j Hj.
      rewrite Forall_forall in Hft. destruct (Hft j Hj) as (?&?&?&?). apply Hget; [lia|done].
  - apply same_entries_intro; try done.
    + intros j Hj. rewrite Ha'. fold a. destruct Hor as [(l&_&->)|(_&->&->)]; lia.
    + intros j Hj Hjk. rewrite Ha'. by apply Hget.
    + intros s' j Hne ->. destruct Hor as [(l&->&_)|(->&_)]; [|done]. cbn [tail].
      rewrite elem_of_cons. split; [by right|]. intros [->|?]; [|done]. by destruct Hne.
  - split; [by rewrite Ha'|]. by intros [_ ?].
  - by rewrite Ha'.
Qed.
End alloc.

(** ** The operations refine the abstract map *)

(** Pointers are aligned, so the low two bits are free. *)
Definition ptr_ok (data : Z) : Prop := 0 <= data < 2 ^ 64 ∧ data mod 4 = 0.

(** Fewer entries than a 32-bit index counts. *)
Definition map_room (mp : wl_map) : Prop := ∀ s, ents_count (entries s mp) + 1 < 2 ^ 32.

#[export] Instance map_room_dec mp : Decision (map_room mp).
Proof.
  destruct (decide (ents_count (entries true mp) + 1 < 2 ^ 32 ∧
                    ents_count (entries false mp) + 1 < 2 ^ 32)) as [[? ?]|Hn];
    [left; by intros []|right; intros Hr; by apply Hn].
Defined.

Lemma entry_pair_word flags data :
  ptr_ok data → entry_pair (entry_word flags data) = (data, Z.land flags 1).
Proof. intros [? ?]. unfold entry_pair. by rewrite entry_word_data, entry_word_flags. Qed.

Lemma set_entries_free s a mp f :
  set_entries s a (map_set_free f mp) = map_set_free f (set_entries s a mp).
Proof. by destruct s. Qed.

Lemma set_entries_twice s a a' mp : set_entries s a' (set_entries s a mp) = set_entries s a' mp.
Proof. by destruct s. Qed.

Lemma entries_free s f mp : entries s (map_set_free f mp) = entries s mp.
Proof. by destruct s. Qed.

Lemma side_set s a mp : side (set_entries s a mp) = side mp.
Proof. by destruct s. Qed.

Lemma free_list_set s a mp : free_list (set_entries s a mp) = free_list mp.
Proof. by destruct s. Qed.

Section ops.
Context {W : Type} `{OsMem W}.

(** Where [wl_map_insert_new] puts an entry. *)
Definition new_index (mp : wl_map) (free : list Z) : Z :=
  match free with
  | k :: _ => k
  | [] => ents_count (entries (own_side mp) mp)
  end.

(** The first half of [wl_map_insert_new]: an entry is taken or added. *)
Lemma insert_new_take mp A free (w : W) :
  map_rep mp A free → map_room mp →
  ∃ r mp1 w', (if negb (free_list mp =? 0) then
       e ← entry_get (entries (own_side mp) mp) (Z.shiftr (free_list mp) 1);
       Some (Ret (Z.shiftr (free_list mp) 1), map_set_free (u32 e) mp, w)
     else
       '(r, a, w) ← wl_array_add (entries (own_side mp) mp) sizeof_map_entry w;
       Some (match r with Ret p => Ret (p / sizeof_map_entry) | Fail e => Fail e end,
             set_entries (own_side mp) a mp, w)) = Some (r, mp1, w') ∧
    match r with
    | Fail e => e = ENOMEM ∧ mp1 = mp ∧ free = []
    | Ret k => k = new_index mp free ∧ 0 <= k < 2 ^ 32 ∧
        ∃ a1, ents_wf a1 ∧ entries (own_side mp) mp1 = a1 ∧
          (∀ a2, ∃ f, set_entries (own_side mp) a2 mp1 =
                        map_set_free f (set_entries (own_side mp) a2 mp) ∧
                      free_chain (entry_get (entries (own_side mp) mp)) f (tail free)) ∧
          (∀ j, 0 <= j < ents_count (entries (own_side mp) mp) →
             entry_get a1 j = entry_get (entries (own_side mp) mp) j) ∧
          0 <= k < ents_count a1 ∧
          ((∃ l, free = k :: l ∧ ents_count a1 = ents_count (entries (own_side mp) mp)) ∨
           (free = [] ∧ k = ents_count (entries (own_side mp) mp) ∧
            ents_count a1 = ents_count (entries (own_side mp) mp) + 1))
    end.
Proof.
  intros ((Hwf&_&Hnd&Hfr&Hch)&_&_) Hroom. set (s := own_side mp) in *.
  pose proof (Hwf s) as Hs. pose proof Hs as ((Hsz&_)&_&Hc32).
  assert (0 <= ents_count (entries s mp)) by (apply Z.div_pos; lia).
  inversion Hch as [Hf0 Hl|i f l Hg Hf Hch' Hfl Hl]; subst.
  - cbn [Z.eqb negb]. destruct (ents_add_spec (entries s mp) w Hs (Hroom s)) as (r&a1&w'&->&Hr).
    cbn [mbind option_bind]. destruct r as [p|e].
    + destruct Hr as (->&Hwf1&Hc1&Hget). eexists _, _, _. split; [done|].
      unfold sizeof_map_entry. rewrite (Z.mul_comm 8), Z.div_mul by lia.
      specialize (Hroom s). split_and!; [done|lia|lia|].
      exists a1. rewrite entries_set. split_and!; try done; try lia; [|by right].
      intros a2. exists 0. rewrite set_entries_twice. split; [|by rewrite Hf0].
      rewrite Hf0. by destruct s, mp.
    + destruct Hr as [-> ->]. eexists _, _, _. split; [done|]. split; [done|].
      split; [by destruct s, mp|done].
  - rewrite (proj2 (Z.eqb_neq _ _)) by lia. cbn [negb].
    rewrite free_link_index, Hg. cbn [mbind option_bind]. rewrite u32_small by lia.
    apply Forall_cons in Hfr as [[Hi1 Hi2] _].
    eexists _, _, _. split; [done|]. split_and!; [done|lia|lia|].
    exists (entries s mp). rewrite entries_free. split_and!; try done; try lia.
    + intros a2. exists f. by rewrite set_entries_free.
    + left. by exists l.
Qed.

Lemma insert_new_spec mp A free flags data (w : W) :
  map_rep mp A free → map_room mp → ptr_ok data →
  ∃ r mp' w', wl_map_insert_new mp flags data w = Some (r, mp', w') ∧
    match r with
    | Ret id => id = id_of (own_side mp) (new_index mp free) ∧ A !! id = None ∧
                map_rep mp' (<[id := (data, Z.land flags 1)]> A) (tail free)
    | Fail ENOMEM => mp' = mp ∧ free = []
    | Fail ENOSPC => WL_MAP_MAX_OBJECTS < new_index mp free ∧
                     map_rep mp' (put_entry (own_side mp) (new_index mp free) (0, 0) A) (tail free) ∧
                     (has_id (own_side mp) (new_index mp free) = true →
                      A !! id_of (own_side mp) (new_index mp free) = None)
    | Fail _ => False
    end.
Proof.
  intros Hrep Hroom Hptr. unfold wl_map_insert_new. fold (own_side mp). cbn zeta.
  destruct (insert_new_take mp A free w Hrep Hroom) as (r&mp1&w1&->&Hr).
  cbn [mbind option_bind]. destruct r as [k|e].
  2: { destruct Hr as (->&->&->). by eexists _, _, _. }
  destruct Hr as (->&Hk32&a1&Hwf1&Ha1&Hset&Hget&Hk1&Hor). set (k := new_index mp free) in *.
  rewrite u32_small by done. rewrite Ha1.
  assert (∀ a2 e, ents_wf a2 → ents_count a2 = ents_count a1 → entry_get a2 k = Some e →
    map_entry_is_free e = false →
    (∀ j, 0 <= j → j ≠ k → entry_get a2 j = entry_get a1 j) →
    map_rep (set_entries (own_side mp) a2 mp1)
      (put_entry (own_side mp) k (entry_pair e) A) (tail free) ∧
    (has_id (own_side mp) k = true → A !! id_of (own_side mp) k = None)) as Hdone.
  { intros a2 e Hwf2 Hc2 He Hf Ho. destruct (Hset a2) as (f&->&Hch).
    eapply (rep_alloc mp _ A free a2 k e); try done.
    - cbn. apply side_set.
    - by rewrite entries_free, entries_set.
    - intros s' Hs'. by rewrite entries_free, entries_set_other.
    - intros j Hj Hjk. rewrite Ho by (done || lia). by apply Hget.
    - by rewrite Hc2. }
  case_step; zbool.
  - destruct (entry_set_spec a1 k 0 Hwf1 Hk1) as (a2&->&Hwf2&Hc2&He2&Ho2). cbn [mbind option_bind].
    eexists _, _, _. split; [done|]. split; [done|]. rewrite <- entry_pair_0.
    by apply (Hdone a2 0).
  - destruct Hptr as [Hd Hal].
    destruct (entry_store_spec a1 k flags data Hwf1 Hk1 Hd Hal) as (a2&->&Hwf2&Hc2&He2&Ho2).
    cbn [mbind option_bind]. eexists _, _, _. split; [done|].
    destruct (Hdone a2 _ Hwf2 Hc2 He2 (entry_word_live flags data Hd Hal) Ho2) as [Hr Hn].
    assert (has_id (own_side mp) k = true) as Hid.
    { unfold has_id, WL_MAP_MAX_OBJECTS, WL_SERVER_ID_START in *. apply andb_true_intro.
      split; [apply Z.leb_le; lia|apply Z.ltb_lt]. destruct (own_side mp); lia. }
    assert (u32 (k + (if own_side mp then WL_SERVER_ID_START else 0)) = id_of (own_side mp) k) as ->.
    { destruct (id_slot_of _ _ Hid) as (Hi&_). unfold id_of in *. destruct (own_side mp);
        rewrite u32_small; lia. }
    split_and!; [done|by apply Hn|]. rewrite entry_pair_word in Hr by done.
    unfold put_entry in Hr. by rewrite Hid in Hr.
Qed.

(** Overwriting a live entry, or adding one at the end. *)
Lemma rep_store mp A free s a2 k e :
  map_rep mp A free → 0 <= k <= ents_count (entries s mp) → ¬ (s = own_side mp ∧ k ∈ free) →
  ents_wf a2 → entry_get a2 k = Some e → map_entry_is_free e = false →
  (∀ j, 0 <= j < ents_count (entries s mp) → j ≠ k →
     entry_get a2 j = entry_get (entries s mp) j) →
  ents_count a2 = Z.max (ents_count (entries s mp)) (k + 1) →
  map_rep (set_entries s a2 mp) (put_entry s k (entry_pair e) A) free.
Proof.
  intros Hrep Hk Hnf Hwf2 He Hf Hget Hc. pose proof Hrep as ((Hwf&Hsd&Hnd&Hfr&Hch)&_&_).
  apply (rep_put mp A free); try done.
  - split_and!; try done.
    + intros s'. destruct (decide (s' = s)) as [->|]; [by rewrite entries_set|].
      by rewrite entries_set_other.
    + by rewrite side_set.
    + rewrite own_side_set. destruct (decide (own_side mp = s)) as [<-|];
        [rewrite entries_set|by rewrite entries_set_other].
      eapply Forall_impl; [done|]. cbn. rewrite Hc. lia.
    + rewrite own_side_set, free_list_set. destruct (decide (own_side mp = s)) as [<-|];
        [rewrite entries_set|by rewrite entries_set_other].
      eapply free_chain_frame; [done|]. intros j Hj. rewrite Forall_forall in Hfr.
      apply Hget; [by apply Hfr|]. intros ->. by apply Hnf.
  - apply same_entries_intro; try done.
    + by rewrite side_set.
    + intros s' Hs'. by apply entries_set_other.
    + intros j Hj. rewrite entries_set, Hc. lia.
    + intros j Hj Hjk. rewrite entries_set. by apply Hget.
  - split; [rewrite entries_set, Hc; lia|by rewrite own_side_set].
  - by rewrite entries_set.
Qed.

Lemma id_index_bound i : 0 <= i → 0 <= id_index i.
Proof. intros. unfold id_index. case_step; [done|]. apply u32_bound. Qed.

Lemma insert_at_spec mp A free flags i data (w : W) :
  map_rep mp A free → map_room mp → ptr_ok data → 0 <= i < 2 ^ 32 →
  ¬ (is_server_id i = own_side mp ∧ id_index i ∈ free) →
  ∃ r mp' w', wl_map_insert_at mp flags i data w = Some (r, mp', w') ∧
    match r with
    | Ret _ => map_rep mp' (<[i := (data, Z.land flags 1)]> A) free
    | Fail e => mp' = mp ∧
        (e = ENOSPC ∧ WL_MAP_MAX_OBJECTS < id_index i ∨
         e = EINVAL ∧ ents_count (entries (is_server_id i) mp) < id_index i ∨
         e = ENOMEM ∧ ents_count (entries (is_server_id i) mp) = id_index i)
    end.
Proof.
  intros Hrep Hroom [Hd Hal] Hi Hnf. unfold wl_map_insert_at.
  pose proof (id_index_bound i (proj1 Hi)) as Hk0.
  pose proof (proj1 (id_slot i _ _ Hi) (conj eq_refl eq_refl)) as [Hid Hidof].
  set (s := is_server_id i) in *. set (k := id_index i) in *.
  pose proof Hrep as ((Hwf&_)&_). rewrite entry_count_eq by done.
  case_step; zbool; [by eexists _, _, _; split; [done|]; split; [done|left]|].
  case_step; zbool; [by eexists _, _, _; split; [done|]; split; [done|right; left]|].
  assert (∀ a1, ents_wf a1 → 0 <= k < ents_count a1 →
    ents_count a1 = Z.max (ents_count (entries s mp)) (k + 1) →
    (∀ j, 0 <= j < ents_count (entries s mp) → entry_get a1 j = entry_get (entries s mp) j) →
    ∃ a2, entry_store a1 k flags data = Some a2 ∧
      map_rep (set_entries s a2 mp) (<[i := (data, Z.land flags 1)]> A) free) as Hdone.
  { intros a1 Hwf1 Hk1 Hc1 Hget.
    destruct (entry_store_spec a1 k flags data Hwf1 Hk1 Hd Hal) as (a2&->&Hwf2&Hc2&He2&Ho2).
    exists a2. split; [done|].
    pose proof (rep_store mp A free s a2 k (entry_word flags data) Hrep) as Hr.
    rewrite entry_pair_word in Hr by done. unfold put_entry in Hr. rewrite Hid, <- Hidof in Hr.
    apply Hr; try done; [by apply entry_word_live| |by rewrite Hc2].
    intros j Hj Hjk. rewrite Ho2 by (done || lia). by apply Hget. }
  case_step; zbool.
  - destruct (ents_add_spec (entries s mp) w (Hwf s) (Hroom s)) as (r&a1&w1&->&Hr).
    cbn [mbind option_bind]. destruct r as [p|e].
    + destruct Hr as (_&Hwf1&Hc1&Hget). rewrite entries_set.
      destruct (Hdone a1 Hwf1) as (a2&->&Hr2); [lia|lia|done|]. cbn [mbind option_bind].
      eexists _, _, _. split; [done|]. by rewrite set_entries_twice.
    + destruct Hr as [-> ->]. eexists _, _, _. split; [done|].
      split; [by destruct s, mp|]. right. by right.
  - cbn [mbind option_bind]. destruct (Hdone (entries s mp) (Hwf s)) as (a2&->&Hr2); [lia|lia|done|].
    cbn [mbind option_bind]. by eexists _, _, _.
Qed.

Lemma set_entries_room s a mp :
  map_room mp → ents_count a + 1 < 2 ^ 32 → map_room (set_entries s a mp).
Proof. intros Hr Ha s'. specialize (Hr s'). by destruct s, s'. Qed.

(** A map into which nothing has been put beyond the limit, and whose entries
    are 64-bit words. *)
Definition ents_small (a : wl_array) : Prop :=
  ents_count a <= WL_MAP_MAX_OBJECTS + 1 ∧ ∀ j e, 0 <= j < ents_count a → entry_get a j = Some e → 0 <= e < 2 ^ 64.
Definition map_small (mp : wl_map) : Prop := ∀ s, ents_small (entries s mp).
Lemma map_small_room mp : map_small mp → map_room mp.
Proof. intros Hs s. destruct (Hs s) as [Hc _]. unfold WL_MAP_MAX_OBJECTS in Hc. lia. Qed.
Lemma set_entries_small s a mp : map_small mp → ents_small a → map_small (set_entries s a mp).
Proof. intros Hr Ha s'. specialize (Hr s'). by destruct s, s'. Qed.
Lemma map_small_init sd : map_small (wl_map_init sd).
Proof. intros []; (split; [done|]; intros j e Hj; change (0 <= j < 0) in Hj; lia). Qed.

Lemma entry_set_shape a i v a' : entry_set a i v = Some a' → a_size a' = a_size a ∧ a_alloc a' = a_alloc a.
Proof. unfold entry_set. destruct (write_range _ _ _); [|done]. by intros [= <-]. Qed.
Lemma entry_store_shape a i flags data a' : entry_store a i flags data = Some a' → a_size a' = a_size a ∧ a_alloc a' = a_alloc a.
Proof.
  unfold entry_store. destruct (entry_set a i data) as [a1|] eqn:E1; [|done]. cbn [mbind option_bind]. destruct (entry_get a1 i) as [e|]; [|done]. cbn [mbind option_bind].
  intros E2. apply entry_set_shape in E1 as [<- <-]. by eapply entry_set_shape.
Qed.

Lemma remove_shape mp i mp' : wl_map_remove mp i = Some mp' →
  ∀ s, a_size (entries s mp') = a_size (entries s mp) ∧ a_alloc (entries s mp') = a_alloc (entries s mp).
Proof.
  unfold wl_map_remove. destruct (_ =? _); [by intros [= <-]|]. destruct (entry_set _ _ _) as [a|] eqn:E; [|done]. cbn [mbind option_bind]. intros [= <-] s.
  apply entry_set_shape in E. rewrite entries_free. destruct (decide (s = is_server_id i)) as [->|Hne]; [by rewrite entries_set|by rewrite entries_set_other].
Qed.

Lemma remove_small mp A free i mp' : map_rep mp A free → map_small mp → 0 <= i < 2 ^ 32 → is_Some (A !! i) → wl_map_remove mp i = Some mp' → map_small mp'.
Proof.
  intros ((Hwf&_)&_&HA) Hsm Hi [p Hp]. apply HA in Hp as (_&[Hk _]&_). unfold wl_map_remove. destruct (_ =? _); [by intros [= <-]|].
  destruct (entry_set_spec (entries (is_server_id i) mp) (id_index i) (free_list mp) (Hwf _) Hk) as (a2&->&_&Hc2&He2&Ho2). cbn [mbind option_bind]. intros [= <-] s. rewrite entries_free. revert s.
  apply set_entries_small; [done|]. split; [rewrite Hc2; apply Hsm|]. rewrite Hc2. intros j e Hj. destruct (decide (j = id_index i)) as [->|Hne]; [rewrite He2; intros [= <-]; apply u64_bound|].
  rewrite Ho2 by lia. by apply (proj2 (Hsm _)).
Qed.

(** The limit is kept; an entry that is there is replaced in place. *)
Lemma insert_at_shape mp A free flags i data (w : W) r mp' w' :
  map_rep mp A free → map_small mp → ptr_ok data → 0 <= i < 2 ^ 32 →
  wl_map_insert_at mp flags i data w = Some (r, mp', w') → map_small mp' ∧ side mp' = side mp ∧
  (id_index i < ents_count (entries (is_server_id i) mp) →
   ∀ s, a_size (entries s mp') = a_size (entries s mp) ∧ a_alloc (entries s mp') = a_alloc (entries s mp)).
Proof.
  intros ((Hwf&_)&_) Hsm [Hd Hal] Hi. pose proof (map_small_room _ Hsm) as Hroom. unfold wl_map_insert_at. pose proof (id_index_bound i (proj1 Hi)) as Hk0.
  set (s := is_server_id i) in *. set (k := id_index i) in *. rewrite entry_count_eq by done.
  case_step; zbool; [by intros [= _ <- _]|]. case_step; zbool; [by intros [= _ <- _]|]. case_step; zbool.
  - destruct (ents_add_spec (entries s mp) w (Hwf s) (Hroom s)) as (r1&a1&w1&->&Hr). cbn [mbind option_bind]. destruct r1 as [p|e].
    2: { destruct Hr as [_ ->]. intros [= _ <- _]. by destruct s, mp. }
    destruct Hr as (_&Hwf1&Hc1&Hget). rewrite entries_set.
    destruct (entry_store_spec a1 k flags data Hwf1) as (a2&->&_&Hc2&He2&Ho2); [lia|done..|]. cbn [mbind option_bind]. intros [= _ <- _].
    rewrite set_entries_twice, side_set. split_and!; [apply set_entries_small; [done|]|done|lia]. split; [lia|]. intros j e Hj. destruct (decide (j = k)) as [->|Hjk].
    + rewrite He2. intros [= <-]. by apply entry_word_bound.
    + rewrite Ho2, Hget by lia. apply (proj2 (Hsm s)). lia.
  - cbn [mbind option_bind]. destruct (entry_store_spec (entries s mp) k flags data (Hwf s)) as (a2&Es&_&Hc2&He2&Ho2); [lia|done..|]. rewrite Es. cbn [mbind option_bind]. apply entry_store_shape in Es as [Hsz Hac].
    intros [= _ <- _]. rewrite side_set. split_and!; [apply set_entries_small; [done|]|done|].
    + split; [rewrite Hc2; apply Hsm|]. rewrite Hc2. intros j e Hj. destruct (decide (j = k)) as [->|Hjk]; [rewrite He2; intros [= <-]; by apply entry_word_bound|rewrite Ho2 by lia; by apply (proj2 (Hsm s))].
    + intros _ s'. destruct (decide (s' = s)) as [->|Hne]; [by rewrite entries_set|by rewrite entries_set_other].
Qed.

Lemma reserve_new_room mp A free i (w : W) :
  map_rep mp A free → map_room mp → 0 <= i < 2 ^ 32 →
  ∃ r mp' w', wl_map_reserve_new mp i w = Some (r, mp', w') ∧ map_room mp' ∧
    match r with
    | Ret _ => is_server_id i ≠ own_side mp ∧ default (0, 0) (A !! i) = (0, 0) ∧
               map_rep mp' (<[i := (0, 0)]> A) free
    | Fail e => mp' = mp ∧ (e = ENOSPC ∨ e = EINVAL ∨ e = ENOMEM)
    end.
Proof.
  intros Hrep Hroom Hi. unfold wl_map_reserve_new.
  pose proof (id_index_bound i (proj1 Hi)) as Hk0.
  pose proof (proj1 (id_slot i _ _ Hi) (conj eq_refl eq_refl)) as [Hid Hidof].
  pose proof (rep_entry mp A free Hrep i Hi) as Hent.
  set (s := is_server_id i) in *. set (k := id_index i) in *.
  pose proof Hrep as ((Hwf&Hsd&_)&_). rewrite entry_count_eq in * by done.
  assert (side mp =? (if s then WL_MAP_SERVER_SIDE else WL_MAP_CLIENT_SIDE) =
          bool_decide (s = own_side mp)) as ->.
  { unfold own_side. destruct Hsd as [-> | ->], s; done. }
  case_bool_decide as Hs; [eexists _, _, _; split; [done|]; split; [done|]; tauto|].
  case_step; zbool; [eexists _, _, _; split; [done|]; split; [done|]; tauto|].
  case_step; zbool; [eexists _, _, _; split; [done|]; split; [done|]; tauto|].
  case_step; zbool.
  - destruct (ents_add_spec (entries s mp) w (Hwf s) (Hroom s)) as (r&a1&w1&->&Hr).
    cbn [mbind option_bind]. destruct r as [p|e].
    2: { destruct Hr as [-> ->]. assert (set_entries s (entries s mp) mp = mp) as -> by (by destruct s, mp).
         eexists _, _, _. split; [done|]. split; [done|]. tauto. }
    destruct Hr as (_&Hwf1&Hc1&Hget).
    destruct (entry_set_spec a1 k 0 Hwf1) as (a2&->&Hwf2&Hc2&He2&Ho2); [lia|].
    cbn [mbind option_bind]. eexists _, _, _. split; [done|].
    split; [apply set_entries_room; [done|unfold WL_MAP_MAX_OBJECTS in *; lia]|].
    split; [done|].
    rewrite (proj2 (Z.ltb_ge _ _)) in Hent by lia. split; [congruence|].
    pose proof (rep_store mp A free s a2 k 0 Hrep) as Hr. rewrite entry_pair_0 in Hr.
    unfold put_entry in Hr. rewrite Hid, <- Hidof in Hr.
    apply Hr; try done; try lia; [tauto|]. intros j Hj Hjk. rewrite Ho2 by lia. by apply Hget.
  - destruct (entry_get_Some (entries s mp) k (Hwf s)) as [e He]; [lia|].
    rewrite He in *. cbn [mbind option_bind] in *.
    case_step; zbool; [eexists _, _, _; split; [done|]; split; [done|]; tauto|]. subst e.
    eexists _, _, _. split; [done|]. split; [done|]. split; [done|].
    rewrite (proj2 (Z.ltb_lt _ _)) in Hent by lia. injection Hent as Hent. split; [done|].
    rewrite insert_id; [done|]. destruct Hrep as (_&_&HA). apply HA. split; [done|].
    fold s k. split; [split; [lia|tauto]|]. by exists 0.
Qed.

Lemma reserve_new_spec mp A free i (w : W) :
  map_rep mp A free → map_room mp → 0 <= i < 2 ^ 32 →
  ∃ r mp' w', wl_map_reserve_new mp i w = Some (r, mp', w') ∧
    match r with
    | Ret _ => is_server_id i ≠ own_side mp ∧ default (0, 0) (A !! i) = (0, 0) ∧
               map_rep mp' (<[i := (0, 0)]> A) free
    | Fail e => mp' = mp ∧ (e = ENOSPC ∨ e = EINVAL ∨ e = ENOMEM)
    end.
Proof.
  intros Hrep Hroom Hi. destruct (reserve_new_room mp A free i w Hrep Hroom Hi)
    as (r&mp'&w'&?&_&?). by eexists _, _, _.
Qed.

Lemma reserve_small mp A free i (w : W) r mp' w' : map_rep mp A free → map_small mp → 0 <= i < 2 ^ 32 →
  wl_map_reserve_new mp i w = Some (r, mp', w') → map_small mp' ∧ side mp' = side mp.
Proof.
  intros ((Hwf&_)&_) Hsm Hi. pose proof (map_small_room _ Hsm) as Hroom. unfold wl_map_reserve_new. pose proof (id_index_bound i (proj1 Hi)) as Hk0.
  set (s := is_server_id i) in *. set (k := id_index i) in *. rewrite entry_count_eq by done.
  do 3 (case_step; zbool; [by intros [= _ <- _]|]). case_step; zbool.
  - destruct (ents_add_spec (entries s mp) w (Hwf s) (Hroom s)) as (r1&a1&w1&->&Hr). cbn [mbind option_bind]. destruct r1 as [p|e].
    2: { destruct Hr as [_ ->]. intros [= _ <- _]. by destruct s, mp. }
    destruct Hr as (_&Hwf1&Hc1&Hget). destruct (entry_set_spec a1 k 0 Hwf1) as (a2&->&_&Hc2&He2&Ho2); [lia|]. cbn [mbind option_bind]. intros [= _ <- _].
    rewrite side_set. split; [apply set_entries_small; [done|]|done]. split; [lia|]. intros j e Hj. destruct (decide (j = k)) as [->|Hjk].
    + rewrite He2. intros [= <-]. done.
    + rewrite Ho2, Hget by lia. apply (proj2 (Hsm s)). lia.
  - destruct (entry_get (entries s mp) k); [|done]. cbn [mbind option_bind]. by intros [= _ <- _].
Qed.

(** Some ids have been reserved, one after the other. *)
Inductive reserved : wl_map → list Z → wl_map → Prop :=
  | reserved_nil mp : reserved mp [] mp
  | reserved_cons mp i (w : W) mp1 w1 ids mp2 : 0 <= i < 2 ^ 32 → wl_map_reserve_new mp i w = Some (Ret tt, mp1, w1) →
      reserved mp1 ids mp2 → reserved mp (i :: ids) mp2.

Lemma reserved_app mp ids1 mp1 ids2 mp2 : reserved mp ids1 mp1 → reserved mp1 ids2 mp2 → reserved mp (ids1 ++ ids2) mp2.
Proof. induction 1; cbn; [done|]. eauto using reserved. Qed.

(** These were free, and nothing else changes. *)
Lemma reserved_spec mp ids mp' : reserved mp ids mp' → ∀ A free, map_rep mp A free → map_small mp →
  ∃ A', map_rep mp' A' free ∧ map_small mp' ∧ side mp' = side mp ∧
    (∀ i, i ∈ ids → 0 <= i < 2 ^ 32 ∧ is_server_id i ≠ own_side mp ∧ A' !! i = Some (0, 0)) ∧
    (∀ i, A' !! i = A !! i ∨ default (0, 0) (A !! i) = (0, 0) ∧ A' !! i = Some (0, 0)).
Proof.
  induction 1 as [mp|mp i w mp1 w1 ids mp2 Hi E _ IH]; intros A free Hrep Hsm.
  { exists A. split_and!; try done; [by intros i ?%elem_of_nil|]. by left. }
  destruct (reserve_new_spec mp A free i w Hrep (map_small_room _ Hsm) Hi) as (r & m1 & w2 & E' & Hr). rewrite E in E'. injection E' as <- <- <-. destruct Hr as (Hown & Hfree & Hrep1).
  destruct (reserve_small mp A free i w _ _ _ Hrep Hsm Hi E) as [Hsm1 Hsd1]. destruct (IH _ _ Hrep1 Hsm1) as (A' & Hrep' & Hsm' & Hsd' & Hin & Hold). exists A'.
  assert (own_side mp1 = own_side mp) as Eown by (unfold own_side; by rewrite Hsd1). split_and!; try done; [congruence|..].
  - intros j [->|Hj]%elem_of_cons; [|rewrite <- Eown; by apply Hin]. split_and!; [lia|lia|done|]. destruct (Hold i) as [->|[_ ?]]; [by rewrite lookup_insert_eq|done].
  - intros j. destruct (decide (j = i)) as [->|Hne].
    + right. split; [done|]. destruct (Hold i) as [->|[_ ?]]; [by rewrite lookup_insert_eq|done].
    + specialize (Hold j). by rewrite lookup_insert_ne in Hold.
Qed.
End ops.

Lemma remove_spec mp A free i :
  map_rep mp A free → 0 <= i < 2 ^ 32 → id_index i < 2 ^ 31 → is_Some (A !! i) →
  ∃ mp', wl_map_remove mp i = Some mp' ∧ own_side mp' = own_side mp ∧
    (∀ s, ents_count (entries s mp') = ents_count (entries s mp)) ∧
    if bool_decide (is_server_id i = own_side mp)
    then map_rep mp' (delete i A) (id_index i :: free)
    else mp' = mp.
Proof.
  intros Hrep Hi Hk31 [p Hp]. unfold wl_map_remove.
  pose proof (id_index_bound i (proj1 Hi)) as Hk0.
  pose proof (proj1 (id_slot i _ _ Hi) (conj eq_refl eq_refl)) as [Hid Hidof].
  pose proof Hrep as ((Hwf&Hsd&Hnd&Hfr&Hch)&_&HA). apply HA in Hp as (_&[Hk Hnf]&_).
  set (s := is_server_id i) in *. set (k := id_index i) in *.
  assert (side mp =? (if s then WL_MAP_CLIENT_SIDE else WL_MAP_SERVER_SIDE) =
          negb (bool_decide (s = own_side mp))) as ->.
  { unfold own_side. destruct Hsd as [-> | ->], s; done. }
  case_bool_decide as Hs; cbn [negb]; [|by eexists].
  assert (k ∉ free) as Hkf by tauto.
  destruct (entry_set_spec (entries s mp) k (free_list mp) (Hwf s) Hk) as (a2&->&Hwf2&Hc2&He2&Ho2).
  cbn [mbind option_bind]. rewrite free_link by lia. eexists. split; [done|].
  split; [apply own_side_set|]. split.
  { intros s'. rewrite entries_free. destruct (decide (s' = s)) as [->|];
      [by rewrite entries_set|by rewrite entries_set_other]. }
  assert (0 <= free_list mp < 2 ^ 32) as Hfl.
  { inversion Hch as [E|j f l _ _ _ E El]; [lia|]. rewrite <- El in Hfr.
    apply Forall_cons in Hfr as [? _]. lia. }
  rewrite u64_small in He2 by lia. clearbody s k. subst i. apply (rep_del mp A free); try done.
  - unfold map_inv. rewrite <- Hs in Hfr, Hch.
    assert (own_side (map_set_free (2 * k + 1) (set_entries s a2 mp)) = s) as ->
      by (rewrite Hs; apply own_side_set).
    rewrite entries_free, entries_set, Hc2. split_and!.
    + intros s'. rewrite entries_free. destruct (decide (s' = s)) as [->|];
        [by rewrite entries_set|by rewrite entries_set_other].
    + cbn. by rewrite side_set.
    + by apply NoDup_cons.
    + by constructor.
    + cbn. apply (free_cons _ k (free_list mp)); [done|done|].
      eapply free_chain_frame; [done|]. intros j Hj. rewrite Forall_forall in Hfr.
      apply Ho2; [by apply Hfr|]. by intros ->.
  - apply same_entries_intro.
    + cbn. apply side_set.
    + intros s' Hs'. by rewrite entries_free, entries_set_other.
    + intros j _. by rewrite entries_free, entries_set, Hc2.
    + intros j Hj Hjk. rewrite entries_free, entries_set. apply Ho2; [lia|done].
    + intros s' j Hne ->. rewrite elem_of_cons. split; [|by right].
      intros [->|?]; [|done]. destruct Hne. by rewrite Hs.
  - intros [_ []]. split; [|apply list_elem_of_here]. rewrite Hs. symmetry. apply own_side_set.
Qed.

Lemma map_rep_init sd :
  sd = WL_MAP_SERVER_SIDE ∨ sd = WL_MAP_CLIENT_SIDE → map_rep (wl_map_init sd) ∅ [].
Proof.
  intros Hsd. assert (∀ s, entries s (wl_map_init sd) = wl_array_init) as He by (by intros []).
  assert (∀ s k, ¬ live (wl_map_init sd) [] s k) as Hl.
  { intros s k [Hk _]. rewrite He in Hk. change (ents_count wl_array_init) with 0 in Hk. lia. }
  split; [|split].
  - split_and!; [|done|by apply NoDup_nil|by constructor|by constructor].
    intros s. rewrite He. split; [apply array_wf_init|done].
  - intros s k Hk. by apply Hl in Hk.
  - intros i p. rewrite lookup_empty. split; [done|]. by intros (_&?%Hl&_).
Qed.

(** ** Sessions *)

Inductive map_op : Type :=
  | MInsertNew (flags data : Z)
  | MInsertAt (flags i data : Z)
  | MReserve (i : Z)
  | MRemove (i : Z).

(** What the callers in wayland-server.c and wayland-client.c respect: aligned
    pointers, 32-bit ids, removal and replacement of allocated ids only. *)
Definition map_op_pre (op : map_op) (own : bool) (A : gmap Z (Z * Z)) : Prop :=
  match op with
  | MInsertNew _ data => ptr_ok data
  | MInsertAt _ i data =>
      ptr_ok data ∧ 0 <= i < 2 ^ 32 ∧ (is_server_id i = own → is_Some (A !! i))
  | MReserve i => 0 <= i < 2 ^ 32
  | MRemove i => 0 <= i < 2 ^ 32 ∧ id_index i < 2 ^ 31 ∧ is_Some (A !! i)
  end.

#[export] Instance map_op_pre_dec op own A : Decision (map_op_pre op own A).
Proof. destruct op; cbn; unfold ptr_ok; apply _. Defined.

Section session.
Context {W : Type} `{OsMem W}.

(** One call, with the abstract map updated by its result; [None] in the first
    component ends the session (the object space is exhausted). *)
Definition map_step (op : map_op) (mp : wl_map) (A : gmap Z (Z * Z)) (w : W)
    : option (bool * wl_map * gmap Z (Z * Z) * W) :=
  match op with
  | MInsertNew flags data =>
      '(r, mp, w) ← wl_map_insert_new mp flags data w;
      Some (match r with
            | Ret id => (true, mp, <[id := (data, Z.land flags 1)]> A, w)
            | Fail ENOSPC => (false, mp, A, w)
            | Fail _ => (true, mp, A, w)
            end)
  | MInsertAt flags i data =>
      '(r, mp, w) ← wl_map_insert_at mp flags i data w;
      Some (true, mp, match r with
                      | Ret _ => <[i := (data, Z.land flags 1)]> A
                      | Fail _ => A
                      end, w)
  | MReserve i =>
      '(r, mp, w) ← wl_map_reserve_new mp i w;
      Some (true, mp, match r with Ret _ => <[i := (0, 0)]> A | Fail _ => A end, w)
  | MRemove i =>
      let own := bool_decide (is_server_id i = own_side mp) in
      mp ← wl_map_remove mp i;
      Some (true, mp, if own then delete i A else A, w)
  end.

Fixpoint map_run (ops : list map_op) (mp : wl_map) (A : gmap Z (Z * Z)) (w : W)
    : option (wl_map * gmap Z (Z * Z) * W) :=
  match ops with
  | [] => Some (mp, A, w)
  | op :: ops =>
      if decide (map_room mp ∧ map_op_pre op (own_side mp) A) then
        '(go, mp, A, w) ← map_step op mp A w;
        if (go : bool) then map_run ops mp A w else Some (mp, A, w)
      else map_run ops mp A w
  end.

(** The map answers lookups as [A] does. *)
Definition map_answers (mp : wl_map) (A : gmap Z (Z * Z)) : Prop :=
  ∀ i, 0 <= i < 2 ^ 32 →
    wl_map_lookup mp i = Some (default (0, 0) (A !! i)).1 ∧
    wl_map_lookup_flags mp i = Some (default (0, 0) (A !! i)).2.

Lemma map_answers_put mp A s k free :
  map_rep mp (put_entry s k (0, 0) A) free →
  (has_id s k = true → A !! id_of s k = None) → map_answers mp A.
Proof.
  intros Hrep Hn i Hi. destruct (lookup_rep _ _ _ Hrep i Hi) as [-> ->].
  rewrite put_entry_lookup by done. case_decide as E; [|done]. injection E as E1 E2.
  destruct (proj1 (id_slot i s k Hi)) as [Hid ->]; [done|]. by rewrite Hn.
Qed.

Lemma map_step_spec op mp A free (w : W) :
  map_rep mp A free → map_room mp → map_op_pre op (own_side mp) A →
  ∃ go mp' A' w', map_step op mp A w = Some (go, mp', A', w') ∧ map_answers mp' A' ∧
    (go = true → ∃ free', map_rep mp' A' free').
Proof.
  intros Hrep Hroom Hpre.
  assert (∀ mp' A' (w' : W) free', map_rep mp' A' free' →
    ∃ go mp1 A1 w1, Some (true, mp', A', w') = Some (go, mp1, A1, w1) ∧ map_answers mp1 A1 ∧
      (go = true → ∃ free', map_rep mp1 A1 free')) as Hgo.
  { intros mp' A' w' free' Hrep'. eexists _, _, _, _. split; [done|]. split; [|by exists free'].
    intros i Hi. by eapply lookup_rep. }
  destruct op as [flags data|flags i data|i|i]; cbn [map_step map_op_pre] in *.
  - destruct (insert_new_spec mp A free flags data w Hrep Hroom Hpre) as (r&mp'&w'&->&Hr).
    cbn [mbind option_bind]. destruct r as [id|[]]; try done.
    + destruct Hr as (_&_&?). by eapply Hgo.
    + destruct Hr as [-> _]. by eapply Hgo.
    + destruct Hr as (_&Hr&Hn). eexists _, _, _, _. split; [done|]. split; [|done].
      by eapply map_answers_put.
  - destruct Hpre as (Hp&Hi&Hown).
    destruct (insert_at_spec mp A free flags i data w Hrep Hroom Hp Hi) as (r&mp'&w'&->&Hr).
    { intros [Hs Hk]. destruct (Hown Hs) as [p HA]. destruct Hrep as (_&_&Hr).
      apply Hr in HA as (_&[_ []]&_). done. }
    cbn [mbind option_bind]. destruct r; [by eapply Hgo|]. destruct Hr as [-> _]. by eapply Hgo.
  - destruct (reserve_new_spec mp A free i w Hrep Hroom Hpre) as (r&mp'&w'&->&Hr).
    cbn [mbind option_bind]. destruct r; [destruct Hr as (_&_&?)|destruct Hr as [-> _]];
      by eapply Hgo.
  - destruct Hpre as (Hi&Hk&HA).
    destruct (remove_spec mp A free i Hrep Hi Hk HA) as (mp'&->&_&_&Hr). cbn [mbind option_bind].
    destruct (bool_decide _); [by eapply Hgo|]. subst. by eapply Hgo.
Qed.

Lemma map_run_spec ops mp A free (w : W) :
  map_rep mp A free →
  ∃ mp' A' w', map_run ops mp A w = Some (mp', A', w') ∧ map_answers mp' A'.
Proof.
  revert mp A free w. induction ops as [|op ops IH]; intros mp A free w Hrep; cbn [map_run].
  { eexists _, _, _. split; [done|]. intros i Hi. by eapply lookup_rep. }
  case_step; [|by eapply IH]. destruct_and!.
  destruct (map_step_spec op mp A free w) as (go&mp'&A'&w'&->&Hans&Hrep'); [done..|].
  cbn [mbind option_bind]. destruct go; [|by eexists _, _, _].
  destruct Hrep' as [free' Hrep']; [done|]. by eapply IH.
Qed.
End session.

(** ** Iteration *)

(** The entries [wl_map_for_each] shows to its callback, in index order. *)
Definition visible_from (s : bool) (mp : wl_map) (start n : nat) : list (Z * Z) :=
  omap (λ j, e ← entry_get (entries s mp) (Z.of_nat j);
             if negb (e =? 0) && negb (map_entry_is_free e) then Some (entry_pair e) else None)
       (seq start n).
Definition visible (s : bool) (mp : wl_map) : list (Z * Z) :=
  visible_from s mp 0 (Z.to_nat (ents_count (entries s mp))).

Section iteration.
Context {X : Type} (g : Z → Z → X → wl_iterator_result * X).

(** Calling [g] on each element until it stops. *)
Fixpoint iterate (l : list (Z * Z)) (x : X) : wl_iterator_result * X :=
  match l with
  | [] => (WL_ITERATOR_CONTINUE, x)
  | (d, f) :: l =>
      match g d f x with
      | (WL_ITERATOR_CONTINUE, x) => iterate l x
      | r => r
      end
  end.

(** A callback that leaves the map alone. *)
Definition pure_func (d f : Z) (mp : wl_map) (x : X) : option (wl_iterator_result * wl_map * X) :=
  let '(r, x) := g d f x in Some (r, mp, x).

Lemma pure_func_eq d f mp x : pure_func d f mp x = let '(r, x) := g d f x in Some (r, mp, x).
Proof. done. Qed.

Lemma for_each_loop_spec n start s mp x :
  ents_wf (entries s mp) → Z.of_nat (start + n) <= ents_count (entries s mp) →
  for_each_loop pure_func n s (a_alloc (entries s mp)) (Z.of_nat start) mp x =
    let '(r, x) := iterate (visible_from s mp start n) x in Some (r, mp, x).
Proof.
  intros Hwf. revert start x. induction n as [|n IH]; intros start x Hle; [done|].
  cbn [for_each_loop]. rewrite Z.eqb_refl. unfold visible_from. cbn [seq omap list_omap].
  destruct (entry_get_Some (entries s mp) (Z.of_nat start) Hwf) as [e ->]; [lia|].
  cbn [mbind option_bind]. replace (Z.of_nat start + 1) with (Z.of_nat (S start)) by lia.
  destruct (negb (e =? 0) && negb (map_entry_is_free e)); [|by apply IH; lia].
  rewrite pure_func_eq. cbn [iterate entry_pair].
  destruct (g (map_entry_get_data e) (map_entry_get_flags e) x) as [[|] x']; cbn [mbind option_bind];
    [done|]. by apply IH; lia.
Qed.

Lemma for_each_spec mp x :
  (∀ s, ents_wf (entries s mp)) →
  wl_map_for_each pure_func mp x =
    let '(r, x) := iterate (visible false mp) x in
    Some (mp, match r with
              | WL_ITERATOR_CONTINUE => snd (iterate (visible true mp) x)
              | WL_ITERATOR_STOP => x
              end).
Proof.
  intros Hwf. assert (∀ s, 0 <= ents_count (entries s mp)) as H0.
  { intros s. destruct (Hwf s) as ((?&_)&_). apply Z.div_pos; lia. }
  pose proof (H0 true). pose proof (H0 false).
  unfold wl_map_for_each, for_each_helper, sizeof_map_entry. fold (ents_count (entries false mp)).
  rewrite (for_each_loop_spec _ 0) by (done || lia). fold (visible false mp).
  destruct (iterate (visible false mp) x) as [[|] x1]; cbn [mbind option_bind]; [done|].
  fold (ents_count (entries true mp)).
  rewrite (for_each_loop_spec _ 0) by (done || lia). fold (visible true mp).
  by destruct (iterate (visible true mp) x1).
Qed.
End iteration.

(** ** The properties *)

(** C4: From [wl_map_init] on, any sequence of calls that respects the
    callers' obligations runs without undefined behaviour, and afterwards
    [wl_map_lookup] and [wl_map_lookup_flags] answer for every id exactly as
    the finite map the results of the calls describe. *)
Theorem map_session {W : Type} `{OsMem W} sd ops (w : W) :
  sd = WL_MAP_SERVER_SIDE ∨ sd = WL_MAP_CLIENT_SIDE →
  ∃ mp A w', map_run ops (wl_map_init sd) ∅ w = Some (mp, A, w') ∧
    ∀ i, 0 <= i < 2 ^ 32 →
      wl_map_lookup mp i = Some (default (0, 0) (A !! i)).1 ∧
      wl_map_lookup_flags mp i = Some (default (0, 0) (A !! i)).2.
Proof. intros Hsd. eapply map_run_spec. by apply map_rep_init. Qed.

Definition demo_map_ops : list map_op :=
  [MInsertNew 0 0; MInsertNew 1 4096; MReserve 0xff000000; MRemove 1; MInsertNew 0 8192].

Lemma map_session_witness :
  ∃ mp A w', map_run demo_map_ops (wl_map_init WL_MAP_CLIENT_SIDE) ∅ sim_init = Some (mp, A, w') ∧
    ∀ i, 0 <= i < 2 ^ 32 →
      wl_map_lookup mp i = Some (default (0, 0) (A !! i)).1 ∧
      wl_map_lookup_flags mp i = Some (default (0, 0) (A !! i)).2.
Proof.
  apply (map_session WL_MAP_CLIENT_SIDE demo_map_ops sim_init). right. reflexivity.
Defined.

(** [wl_map_insert_new] hands out an id that was not allocated: the one
    freed last, or the next new one; the new binding is looked up under it and
    no other binding changes.  It fails only without memory, leaving the map
    alone, or beyond the 0xf00000th object. *)
Theorem map_insert_new_fresh {W : Type} `{OsMem W} mp A free flags data (w : W) :
  map_rep mp A free → map_room mp → ptr_ok data →
  ∃ r mp' w', wl_map_insert_new mp flags data w = Some (r, mp', w') ∧
    match r with
    | Ret id => id = id_of (own_side mp) (new_index mp free) ∧ A !! id = None ∧
                map_rep mp' (<[id := (data, Z.land flags 1)]> A) (tail free)
    | Fail e => e = ENOMEM ∧ mp' = mp ∨
                e = ENOSPC ∧ WL_MAP_MAX_OBJECTS < new_index mp free ∧ map_answers mp' A
    end.
Proof.
  intros Hrep Hroom Hp.
  destruct (insert_new_spec mp A free flags data w Hrep Hroom Hp) as (r&mp'&w'&->&Hr).
  eexists _, _, _. split; [done|]. destruct r as [id|[]]; try done; [left; tauto|right].
  destruct Hr as (?&Hr&Hn). split_and!; try done. by eapply map_answers_put.
Qed.

Lemma map_insert_new_fresh_witness :
  ∃ r mp' w', wl_map_insert_new (wl_map_init WL_MAP_SERVER_SIDE) 1 4096 sim_init =
      Some (r, mp', w') ∧
    match r with
    | Ret id => id = id_of (own_side (wl_map_init WL_MAP_SERVER_SIDE))
                       (new_index (wl_map_init WL_MAP_SERVER_SIDE) []) ∧
                (∅ : gmap Z (Z * Z)) !! id = None ∧
                map_rep mp' (<[id := (4096, Z.land 1 1)]> ∅) (tail [])
    | Fail e => e = ENOMEM ∧ mp' = wl_map_init WL_MAP_SERVER_SIDE ∨
                e = ENOSPC ∧ WL_MAP_MAX_OBJECTS <
                  new_index (wl_map_init WL_MAP_SERVER_SIDE) [] ∧ map_answers mp' ∅
    end.
Proof.
  apply (map_insert_new_fresh (wl_map_init WL_MAP_SERVER_SIDE) ∅ [] 1 4096 sim_init).
  - apply map_rep_init. left. reflexivity.
  - intros []; vm_compute; reflexivity.
  - split; [lia|reflexivity].
Defined.

(** [wl_map_remove] of an allocated id of the own side unbinds exactly
    that id and makes it the next one handed out, so a freed id is reused; on
    an id of the other side it does nothing. *)
Theorem map_remove_reuse {W : Type} `{OsMem W} mp A free i flags data (w : W) :
  map_rep mp A free → map_room mp → ptr_ok data → 0 <= i < 2 ^ 32 → id_index i < 2 ^ 31 →
  is_Some (A !! i) →
  ∃ mp', wl_map_remove mp i = Some mp' ∧
    (is_server_id i ≠ own_side mp → mp' = mp) ∧
    (is_server_id i = own_side mp → id_index i <= WL_MAP_MAX_OBJECTS →
     map_rep mp' (delete i A) (id_index i :: free) ∧
     ∃ mp'' w', wl_map_insert_new mp' flags data w = Some (Ret i, mp'', w') ∧
       map_rep mp'' (<[i := (data, Z.land flags 1)]> A) free).
Proof.
  intros Hrep Hroom Hp Hi Hk HA.
  destruct (remove_spec mp A free i Hrep Hi Hk HA) as (mp'&->&Hown&Hcount&Hr).
  exists mp'. split; [done|]. case_bool_decide as Hs; [|by split].
  split; [done|]. intros _ Hmax. split; [done|].
  destruct (insert_new_spec mp' (delete i A) (id_index i :: free) flags data w Hr)
    as (r&mp''&w'&->&Hr'); [intros s; by rewrite Hcount|done|].
  cbn [new_index tail] in Hr'. rewrite Hown, <- Hs in Hr'.
  destruct (proj1 (id_slot i _ _ Hi) (conj eq_refl eq_refl)) as [_ Hid]. rewrite <- Hid in Hr'.
  destruct r as [id|e].
  - destruct Hr' as (->&_&Hr'). eexists _, _. split; [done|]. by rewrite insert_delete_eq in Hr'.
  - destruct e; try done; [by destruct Hr' as [_ ?]|]. destruct Hr' as [? _]. lia.
Qed.

(** A client's map with one object. *)
Definition demo_map : wl_map :=
  match wl_map_insert_new (wl_map_init WL_MAP_CLIENT_SIDE) 1 4096 sim_init with
  | Some (_, mp, _) => mp
  | None => wl_map_init WL_MAP_CLIENT_SIDE
  end.
Definition demo_bindings : gmap Z (Z * Z) := {[0 := (4096, 1)]}.

Lemma demo_map_rep : map_rep demo_map demo_bindings [].
Proof.
  destruct (insert_new_spec (wl_map_init WL_MAP_CLIENT_SIDE) ∅ [] 1 4096 sim_init)
    as (r&mp&w&Hr&Hspec); [apply map_rep_init; by right|intros []; vm_compute; reflexivity|by split|].
  assert (wl_map_insert_new (wl_map_init WL_MAP_CLIENT_SIDE) 1 4096 sim_init =
          Some (Ret 0, demo_map, sim_init)) as E by (vm_compute; reflexivity).
  rewrite E in Hr. injection Hr as <- <- <-. by destruct Hspec as (_&_&?).
Qed.

Lemma map_remove_reuse_witness :
  ∃ mp', wl_map_remove demo_map 0 = Some mp' ∧
    (is_server_id 0 ≠ own_side demo_map → mp' = demo_map) ∧
    (is_server_id 0 = own_side demo_map → id_index 0 <= WL_MAP_MAX_OBJECTS →
     map_rep mp' (delete 0 demo_bindings) [id_index 0] ∧
     ∃ mp'' w', wl_map_insert_new mp' 0 8192 sim_init = Some (Ret 0, mp'', w') ∧
       map_rep mp'' (<[0 := (8192, Z.land 0 1)]> demo_bindings) []).
Proof.
  apply (map_remove_reuse demo_map demo_bindings [] 0 0 8192 sim_init).
  - exact demo_map_rep.
  - intros []; vm_compute; reflexivity.
  - split; [lia|reflexivity].
  - lia.
  - vm_compute. reflexivity.
  - by eexists.
Defined.

(** [wl_map_insert_at] binds exactly the given id, and fails with the map
    unchanged exactly beyond the object limit ([ENOSPC]), beyond the next new
    id ([EINVAL]), or without memory; [wl_map_reserve_new] only reserves ids of
    the other side that are not bound. *)
Theorem map_insert_at_reserve {W : Type} `{OsMem W} mp A free flags i data (w : W) :
  map_rep mp A free → map_room mp → ptr_ok data → 0 <= i < 2 ^ 32 →
  ¬ (is_server_id i = own_side mp ∧ id_index i ∈ free) →
  (∃ r mp' w', wl_map_insert_at mp flags i data w = Some (r, mp', w') ∧
    match r with
    | Ret _ => map_rep mp' (<[i := (data, Z.land flags 1)]> A) free
    | Fail e => mp' = mp ∧
        (e = ENOSPC ∧ WL_MAP_MAX_OBJECTS < id_index i ∨
         e = EINVAL ∧ ents_count (entries (is_server_id i) mp) < id_index i ∨
         e = ENOMEM ∧ ents_count (entries (is_server_id i) mp) = id_index i)
    end) ∧
  (∃ r mp' w', wl_map_reserve_new mp i w = Some (r, mp', w') ∧
    match r with
    | Ret _ => is_server_id i ≠ own_side mp ∧ default (0, 0) (A !! i) = (0, 0) ∧
               map_rep mp' (<[i := (0, 0)]> A) free
    | Fail e => mp' = mp ∧ (e = ENOSPC ∨ e = EINVAL ∨ e = ENOMEM)
    end).
Proof.
  intros. split; [by apply insert_at_spec|by apply reserve_new_spec].
Qed.

Lemma map_insert_at_reserve_witness :
  (∃ r mp' w', wl_map_insert_at demo_map 0 0xff000000 8192 sim_init = Some (r, mp', w') ∧
    match r with
    | Ret _ => map_rep mp' (<[0xff000000 := (8192, Z.land 0 1)]> demo_bindings) []
    | Fail e => mp' = demo_map ∧
        (e = ENOSPC ∧ WL_MAP_MAX_OBJECTS < id_index 0xff000000 ∨
         e = EINVAL ∧ ents_count (entries (is_server_id 0xff000000) demo_map) < id_index 0xff000000 ∨
         e = ENOMEM ∧ ents_count (entries (is_server_id 0xff000000) demo_map) = id_index 0xff000000)
    end) ∧
  (∃ r mp' w', wl_map_reserve_new demo_map 0xff000000 sim_init = Some (r, mp', w') ∧
    match r with
    | Ret _ => is_server_id 0xff000000 ≠ own_side demo_map ∧
               default (0, 0) (demo_bindings !! 0xff000000) = (0, 0) ∧
               map_rep mp' (<[0xff000000 := (0, 0)]> demo_bindings) []
    | Fail e => mp' = demo_map ∧ (e = ENOSPC ∨ e = EINVAL ∨ e = ENOMEM)
    end).
Proof.
  apply (map_insert_at_reserve demo_map demo_bindings [] 0 0xff000000 8192 sim_init).
  - exact demo_map_rep.
  - intros []; vm_compute; reflexivity.
  - split; [lia|reflexivity].
  - lia.
  - intros [_ Hk]. by apply not_elem_of_nil in Hk.
Defined.

(** [wl_map_for_each] calls its callback on the bound, non-null entries of
    the client's side and then of the server's, each in id order, until the
    callback stops it. *)
Theorem map_for_each_visits {X : Type} (g : Z → Z → X → wl_iterator_result * X) mp A free x :
  map_rep mp A free →
  wl_map_for_each (pure_func g) mp x =
    (let '(r, x) := iterate g (visible false mp) x in
     Some (mp, match r with
               | WL_ITERATOR_CONTINUE => snd (iterate g (visible true mp) x)
               | WL_ITERATOR_STOP => x
               end)).
Proof. intros ((Hwf&_)&_). by apply for_each_spec. Qed.

Lemma map_for_each_visits_witness :
  wl_map_for_each (pure_func (λ d f x, (WL_ITERATOR_CONTINUE, x + d))) demo_map 0 =
    (let '(r, x) := iterate (λ d f x, (WL_ITERATOR_CONTINUE, x + d)) (visible false demo_map) 0 in
     Some (demo_map, match r with
               | WL_ITERATOR_CONTINUE =>
                   snd (iterate (λ d f x, (WL_ITERATOR_CONTINUE, x + d)) (visible true demo_map) x)
               | WL_ITERATOR_STOP => x
               end)).
Proof.
  apply (map_for_each_visits (λ d f x, (WL_ITERATOR_CONTINUE, x + d)) demo_map demo_bindings []).
  exact demo_map_rep.
Defined.
