(* ===== verification/WlMessage.v ===== *)
(** * Protocol messages and their signatures

    Models the static description of a message ([struct wl_message],
    [struct wl_interface], [union wl_argument], wayland-util.h) and the functions
    that walk a signature (wayland/build/src/connection.c, lines 603-614,
    637-733 and wayland-util.c, lines 159-170). *)

From Stdlib Require Import Ascii.
From stdpp Require Import strings.
From S2P Require Import Prelude.
Open Scope Z_scope.

(** ** Data *)

Inductive wl_arg_type : Type :=
  | WL_ARG_INT | WL_ARG_UINT | WL_ARG_FIXED | WL_ARG_STRING
  | WL_ARG_OBJECT | WL_ARG_NEW_ID | WL_ARG_ARRAY | WL_ARG_FD.

#[export] Instance wl_arg_type_eq_dec : EqDecision wl_arg_type.
Proof. solve_decision. Defined.

(** The address of an interface description, and its name. *)
Record wl_interface : Type := mk_interface { if_addr : Z; if_name : string }.

Record wl_object : Type := mk_object { o_interface : wl_interface; o_id : Z }.

Record wl_message : Type := mk_message {
  msg_name : string;
  msg_signature : string;
  msg_types : list (option wl_interface)
}.

(** A [union wl_argument], by the member last stored; [arg_zero] is the union
    [calloc] leaves, in which every member reads as zero or null.  Strings and
    arrays are their contents ([None] for a null pointer), objects addresses. *)
Inductive wl_argument : Type :=
  | arg_zero
  | arg_i (i : Z)
  | arg_u (u : Z)
  | arg_f (f : Z)
  | arg_s (s : option (list Z))
  | arg_o (o : Z)
  | arg_n (n : Z)
  | arg_a (a : option (list Z))
  | arg_h (h : Z).

(** Reading a member: only the member stored, or one of a zeroed union. *)
Definition get_i (a : wl_argument) : option Z :=
  match a with arg_zero => Some 0 | arg_i i => Some i | _ => None end.
Definition get_u (a : wl_argument) : option Z :=
  match a with arg_zero => Some 0 | arg_u u => Some u | _ => None end.
Definition get_f (a : wl_argument) : option Z :=
  match a with arg_zero => Some 0 | arg_f f => Some f | _ => None end.
Definition get_s (a : wl_argument) : option (option (list Z)) :=
  match a with arg_zero => Some None | arg_s s => Some s | _ => None end.
Definition get_o (a : wl_argument) : option Z :=
  match a with arg_zero => Some 0 | arg_o o => Some o | _ => None end.
Definition get_n (a : wl_argument) : option Z :=
  match a with arg_zero => Some 0 | arg_n n => Some n | _ => None end.
Definition get_a (a : wl_argument) : option (option (list Z)) :=
  match a with arg_zero => Some None | arg_a a => Some a | _ => None end.
Definition get_h (a : wl_argument) : option Z :=
  match a with arg_zero => Some 0 | arg_h h => Some h | _ => None end.

Definition WL_CLOSURE_MAX_ARGS : nat := 20.

(** ** Signatures *)

Definition arg_type_of (c : ascii) : option wl_arg_type :=
  match c with
  | "i" => Some WL_ARG_INT
  | "u" => Some WL_ARG_UINT
  | "f" => Some WL_ARG_FIXED
  | "s" => Some WL_ARG_STRING
  | "o" => Some WL_ARG_OBJECT
  | "n" => Some WL_ARG_NEW_ID
  | "a" => Some WL_ARG_ARRAY
  | "h" => Some WL_ARG_FD
  | _ => None
  end%char.

(** The type ([None] for the end of the signature), whether the argument may be
    null, and the rest of the signature. *)
Fixpoint next_argument_loop (nullable : bool) (sig : string)
    : option wl_arg_type * bool * string :=
  match sig with
  | EmptyString => (None, nullable, sig)
  | String c rest =>
      match arg_type_of c with
      | Some t => (Some t, nullable, rest)
      | None => next_argument_loop (nullable || bool_decide (c = "?"%char)) rest
      end
  end.

Definition get_next_argument (sig : string) : option wl_arg_type * bool * string :=
  next_argument_loop false sig.

Fixpoint arg_count_for_signature (sig : string) : nat :=
  match sig with
  | EmptyString => 0
  | String c rest =>
      match arg_type_of c with
      | Some _ => S (arg_count_for_signature rest)
      | None => arg_count_for_signature rest
      end
  end.

Fixpoint count_arrays (sig : string) : nat :=
  match sig with
  | EmptyString => 0
  | String c rest =>
      if bool_decide (c = "a"%char) then S (count_arrays rest) else count_arrays rest
  end.

Definition wl_message_count_arrays (m : wl_message) : nat := count_arrays (msg_signature m).

(** [atoi]: white space, a sign, digits; overflow is undefined. *)
Definition is_space (c : ascii) : bool :=
  let n := Z.of_nat (nat_of_ascii c) in (n =? 32) || ((9 <=? n) && (n <=? 13)).

Fixpoint skip_space (s : string) : string :=
  match s with
  | String c rest => if is_space c then skip_space rest else s
  | EmptyString => s
  end.

Definition digit_of (c : ascii) : option Z :=
  let n := Z.of_nat (nat_of_ascii c) in
  if (48 <=? n) && (n <=? 57) then Some (n - 48) else None.

Fixpoint atoi_digits (neg : bool) (acc : Z) (s : string) : option Z :=
  match s with
  | String c rest =>
      match digit_of c with
      | Some d =>
          let acc := if neg then acc * 10 - d else acc * 10 + d in
          if (- 2 ^ 31 <=? acc) && (acc <? 2 ^ 31) then atoi_digits neg acc rest else None
      | None => Some acc
      end
  | EmptyString => Some acc
  end.

Definition atoi (s : string) : option Z :=
  match skip_space s with
  | String "-" rest => atoi_digits true 0 rest
  | String "+" rest => atoi_digits false 0 rest
  | s => atoi_digits false 0 s
  end.

Definition wl_message_get_since (m : wl_message) : option Z :=
  since ← atoi (msg_signature m);
  Some (if since =? 0 then 1 else since).

(** The arguments of a variadic call, by the type they are read with. *)
Inductive va_value : Type :=
  | va_int32 (i : Z)
  | va_uint32 (u : Z)
  | va_fixed (f : Z)
  | va_string (s : option (list Z))
  | va_object (o : Z)
  | va_array (a : option (list Z)).

Fixpoint from_va_list_loop (n i : nat) (sig : string) (args : list wl_argument)
    (ap : list va_value) : option (list wl_argument) :=
  match n with
  | O => Some args
  | S n =>
      let '(t, _, sig) := get_next_argument sig in
      match t, ap with
      | Some WL_ARG_INT, va_int32 v :: ap => from_va_list_loop n (S i) sig (<[i := arg_i v]> args) ap
      | Some WL_ARG_UINT, va_uint32 v :: ap => from_va_list_loop n (S i) sig (<[i := arg_u v]> args) ap
      | Some WL_ARG_FIXED, va_fixed v :: ap => from_va_list_loop n (S i) sig (<[i := arg_f v]> args) ap
      | Some WL_ARG_STRING, va_string v :: ap => from_va_list_loop n (S i) sig (<[i := arg_s v]> args) ap
      | Some WL_ARG_OBJECT, va_object v :: ap => from_va_list_loop n (S i) sig (<[i := arg_o v]> args) ap
      | Some WL_ARG_NEW_ID, va_object v :: ap => from_va_list_loop n (S i) sig (<[i := arg_o v]> args) ap
      | Some WL_ARG_ARRAY, va_array v :: ap => from_va_list_loop n (S i) sig (<[i := arg_a v]> args) ap
      | Some WL_ARG_FD, va_int32 v :: ap => from_va_list_loop n (S i) sig (<[i := arg_h v]> args) ap
      | None, ap => from_va_list_loop n (S i) sig args ap
      | Some _, _ => None
      end
  end.

Definition wl_argument_from_va_list (sig : string) (args : list wl_argument) (count : nat)
    (ap : list va_value) : option (list wl_argument) :=
  from_va_list_loop count 0 sig args ap.

(** Equal addresses, or equal names. *)
Definition wl_interface_equal (a b : wl_interface) : bool :=
  (if_addr a =? if_addr b) || bool_decide (if_name a = if_name b).

(** ** The parsed signature *)

(** The arguments a signature describes, in order. *)
Fixpoint parse_from (nullable : bool) (sig : string) : list (wl_arg_type * bool) :=
  match sig with
  | EmptyString => []
  | String c rest =>
      match arg_type_of c with
      | Some t => (t, nullable) :: parse_from false rest
      | None => parse_from (nullable || bool_decide (c = "?"%char)) rest
      end
  end.

Definition parse_signature (sig : string) : list (wl_arg_type * bool) := parse_from false sig.

Lemma next_argument_parse nullable sig :
  match parse_from nullable sig with
  | [] => (next_argument_loop nullable sig).1.1 = None
  | (t, b) :: l => ∃ rest, next_argument_loop nullable sig = (Some t, b, rest) ∧
                           parse_signature rest = l
  end.
Proof.
  revert nullable. induction sig as [|c rest IH]; intros nullable; [done|].
  cbn [parse_from next_argument_loop]. destruct (arg_type_of c); [by eexists|]. apply IH.
Qed.

(** Walking a signature with [get_next_argument] yields the parsed list. *)
Lemma get_next_argument_cons sig t b l :
  parse_signature sig = (t, b) :: l →
  ∃ rest, get_next_argument sig = (Some t, b, rest) ∧ parse_signature rest = l.
Proof.
  intros Hp. pose proof (next_argument_parse false sig) as H.
  unfold parse_signature in Hp. by rewrite Hp in H.
Qed.

Lemma get_next_argument_nil sig :
  parse_signature sig = [] → (get_next_argument sig).1.1 = None.
Proof.
  intros Hp. pose proof (next_argument_parse false sig) as H.
  unfold parse_signature in Hp. by rewrite Hp in H.
Qed.

Lemma arg_count_parse sig : arg_count_for_signature sig = length (parse_signature sig).
Proof.
  unfold parse_signature. generalize false. induction sig as [|c rest IH]; intros b; [done|].
  cbn [arg_count_for_signature parse_from]. destruct (arg_type_of c); cbn [length]; by rewrite <- ?IH.
Qed.

Definition is_array (p : wl_arg_type * bool) : bool := bool_decide (p.1 = WL_ARG_ARRAY).

(** [wl_message_count_arrays] counts the array arguments. *)
Lemma count_arrays_parse sig :
  count_arrays sig = length (base.filter (λ p, is_array p = true) (parse_signature sig)).
Proof.
  unfold parse_signature. generalize false. induction sig as [|c rest IH]; intros b; [done|].
  cbn [count_arrays parse_from]. case_bool_decide as Hc.
  - subst c. cbn [arg_type_of]. rewrite filter_cons_True by done. cbn [length]. by rewrite <- IH.
  - destruct (arg_type_of c) as [t|] eqn:Ht; [|by rewrite <- IH].
    rewrite filter_cons_False; [by rewrite <- IH|]. unfold is_array. cbn.
    case_bool_decide as E; [|done]. subst t. exfalso. revert Ht Hc. clear.
    destruct c as [[] [] [] [] [] [] [] []]; cbn; congruence.
Qed.

(** ** Loops over the arguments of a signature *)

(** One iteration continues, or leaves the loop for the error path. *)
Inductive loop_step (St : Type) : Type :=
  | Next (s : St)
  | Break (e : errno) (s : St).
Arguments Next {_} _.
Arguments Break {_} _ _.

Section loops.
Context {St : Type} (body : nat → option wl_arg_type → bool → St → option (loop_step St)).

(** [for (i = 0; i < count; i++) { signature = get_next_argument(signature, &arg); ... }] *)
Fixpoint for_args (n i : nat) (sig : string) (s : St) : option (loop_step St) :=
  match n with
  | O => Some (Next s)
  | S n =>
      let '(t, nullable, sig) := get_next_argument sig in
      r ← body i t nullable s;
      match r with
      | Next s => for_args n (S i) sig s
      | Break e s => Some (Break e s)
      end
  end.

(** The same loop over the parsed signature. *)
Fixpoint for_list (l : list (wl_arg_type * bool)) (i : nat) (s : St) : option (loop_step St) :=
  match l with
  | [] => Some (Next s)
  | (t, b) :: l =>
      r ← body i (Some t) b s;
      match r with
      | Next s => for_list l (S i) s
      | Break e s => Some (Break e s)
      end
  end.

Lemma for_args_parse n i sig s :
  n = length (parse_signature sig) → for_args n i sig s = for_list (parse_signature sig) i s.
Proof.
  revert i sig s. induction n as [|n IH]; intros i sig s Hn.
  { by destruct (parse_signature sig). }
  destruct (parse_signature sig) as [|[t b] l] eqn:Hp; [done|].
  destruct (get_next_argument_cons sig t b l Hp) as (rest&Hg&Hr).
  cbn [for_args for_list]. rewrite Hg. destruct (body i (Some t) b s) as [[|]|]; try done.
  cbn [mbind option_bind]. rewrite IH by (cbn in Hn; rewrite Hr; lia). by rewrite Hr.
Qed.

(** An invariant of the loop: [P i s] before argument [i], [Q] on the error path. *)
Lemma for_list_ind (P : nat → St → Prop) (Q : errno → St → Prop) l i s :
  P i s →
  (∀ j t b s, l !! j = Some (t, b) → P (i + j)%nat s →
     ∃ r, body (i + j) (Some t) b s = Some r ∧
       match r with Next s => P (S (i + j)) s | Break e s => Q e s end) →
  ∃ r, for_list l i s = Some r ∧
    match r with Next s => P (i + length l)%nat s | Break e s => Q e s end.
Proof.
  revert i s. induction l as [|[t b] l IH]; intros i s HP Hb.
  { eexists. split; [done|]. cbn. by rewrite Nat.add_0_r. }
  cbn [for_list]. destruct (Hb 0%nat t b s) as (r&Hr&Hpost); [done|by rewrite Nat.add_0_r|].
  rewrite Nat.add_0_r in Hr, Hpost. rewrite Hr. cbn [mbind option_bind].
  destruct r as [s'|e s']; [|by eexists].
  destruct (IH (S i) s' Hpost) as (r&->&Hr').
  { intros j t' b' s'' Hj HPj. rewrite Nat.add_succ_comm in *. by apply Hb. }
  eexists. split; [done|]. cbn [length]. by rewrite Nat.add_succ_comm in Hr'.
Qed.
End loops.
