(* ===== verification/WlClosure.v ===== *)
(** * Closures: a message with its arguments

    Models [struct wl_closure] and the operations that build, check, send,
    dispatch and destroy one (wayland/build/src/connection.c, lines 735-886,
    1076-1479 and 1585-1610).  Objects are addresses; [heap] is the store of
    [struct wl_object]s they point to.  Receiving a closure is in the file
    [WlDemarshal]. *)

From stdpp Require Import strings.
From S2P Require Import Prelude Os OsSim WlOs WlRing WlConnection WlArray WlMap WlMessage.
Open Scope Z_scope.

Record wl_closure : Type := mk_closure {
  cl_count : nat;
  cl_message : wl_message;
  cl_opcode : Z;
  cl_sender_id : Z;
  cl_args : list wl_argument      (* WL_CLOSURE_MAX_ARGS of them *)
}.

Definition cl_set_arg (i : nat) (a : wl_argument) (cl : wl_closure) : wl_closure :=
  mk_closure (cl_count cl) (cl_message cl) (cl_opcode cl) (cl_sender_id cl)
    (<[i := a]> (cl_args cl)).
Definition cl_set_header (sender_id opcode : Z) (cl : wl_closure) : wl_closure :=
  mk_closure (cl_count cl) (cl_message cl) opcode sender_id (cl_args cl).

Definition cl_signature (cl : wl_closure) : string := msg_signature (cl_message cl).
Definition cl_arg (cl : wl_closure) (i : nat) : option wl_argument := cl_args cl !! i.

Definition is_fd (t : option wl_arg_type) : bool := bool_decide (t = Some WL_ARG_FD).

(** The result of a loop that has no error path. *)
Definition loop_done {St} (r : loop_step St) : option St :=
  match r with Next s => Some s | Break _ _ => None end.

Definition clear_fds_body (i : nat) (t : option wl_arg_type) (_ : bool) (cl : wl_closure)
    : option (loop_step wl_closure) :=
  Some (Next (if is_fd t then cl_set_arg i (arg_h (-1)) cl else cl)).

Definition wl_closure_clear_fds (cl : wl_closure) : option wl_closure :=
  for_args clear_fds_body (cl_count cl) 0 (cl_signature cl) cl ≫= loop_done.

Definition sizeof_closure : Z := 208.
Definition sizeof_wl_array : Z := 24.

(** [size_to_allocate], an [int], for [size] bytes of message and the array
    headers in front of them. *)
Definition closure_alloc_size (size : Z) (num_arrays : nat) : Z :=
  if size =? 0 then sizeof_closure
  else i32 (sizeof_closure + size + Z.of_nat num_arrays * sizeof_wl_array).

Section closure_os.
Context {W : Type} `{OsMem W} `{OsFd W} `{OsSock W}.
Context (heap : Z → option wl_object).

(** [args] is [None] where the source passes [NULL]; the result carries
    [*num_arrays]. *)
Definition wl_closure_init (message : wl_message) (size : Z) (args : option (list wl_argument))
    (w : W) : option (cres (wl_closure * nat) * W) :=
  let count := arg_count_for_signature (msg_signature message) in
  if decide (WL_CLOSURE_MAX_ARGS < count)%nat then Some (Fail EINVAL, w)
  else
    let num_arrays := if size =? 0 then 0%nat else wl_message_count_arrays message in
    match os_alloc (u64 (closure_alloc_size size num_arrays)) w with
    | (None, w) => Some (Fail ENOMEM, w)
    | (Some _, w) =>
        let zero := replicate WL_CLOSURE_MAX_ARGS arg_zero in
        args ← (match args with
                | None => Some zero
                | Some args =>
                    if decide (length args < count)%nat then None
                    else Some (take count args ++ drop count zero)
                end);
        cl ← wl_closure_clear_fds (mk_closure count message 0 0 args);
        Some (Ret (cl, num_arrays), w)
    end.

Definition close_fds_body (cl : wl_closure) (i : nat) (t : option wl_arg_type) (_ : bool) (w : W)
    : option (loop_step W) :=
  if is_fd t then
    h ← (cl_arg cl i ≫= get_h);
    Some (Next (if h =? -1 then w else os_close h w))
  else Some (Next w).

Definition wl_closure_close_fds (cl : wl_closure) (w : W) : option W :=
  for_args (close_fds_body cl) (cl_count cl) 0 (cl_signature cl) w ≫= loop_done.

Definition wl_closure_destroy (cl : option wl_closure) (w : W) : option W :=
  match cl with
  | None => Some w
  | Some cl => wl_closure_close_fds cl w
  end.

Definition marshal_body (args : list wl_argument) (i : nat) (t : option wl_arg_type)
    (nullable : bool) (s : wl_closure * W) : option (loop_step (wl_closure * W)) :=
  let '(cl, w) := s in
  match t with
  | Some WL_ARG_FIXED | Some WL_ARG_UINT | Some WL_ARG_INT => Some (Next (cl, w))
  | Some WL_ARG_STRING =>
      v ← (args !! i ≫= get_s);
      Some (if negb nullable && bool_decide (v = None) then Break EINVAL (cl, w) else Next (cl, w))
  | Some WL_ARG_OBJECT =>
      o ← (args !! i ≫= get_o);
      Some (if negb nullable && (o =? 0) then Break EINVAL (cl, w) else Next (cl, w))
  | Some WL_ARG_NEW_ID =>
      o ← (args !! i ≫= get_o);
      if o =? 0 then Some (Break EINVAL (cl, w))
      else
        object ← heap o;
        Some (Next (cl_set_arg i (arg_n (o_id object)) cl, w))
  | Some WL_ARG_ARRAY =>
      v ← (args !! i ≫= get_a);
      Some (if bool_decide (v = None) then Break EINVAL (cl, w) else Next (cl, w))
  | Some WL_ARG_FD =>
      fd ← (args !! i ≫= get_h);
      match wl_os_dupfd_cloexec fd 0 w with
      | (Fail e, w) => Some (Break e (cl, w))
      | (Ret dup_fd, w) => Some (Next (cl_set_arg i (arg_h dup_fd) cl, w))
      end
  | None => None
  end.

Definition wl_closure_marshal (sender : wl_object) (opcode : Z) (args : list wl_argument)
    (message : wl_message) (w : W) : option (cres wl_closure * W) :=
  '(r, w) ← wl_closure_init message 0 (Some args) w;
  match r with
  | Fail e => Some (Fail e, w)
  | Ret (cl, _) =>
      r ← for_args (marshal_body args) (cl_count cl) 0 (msg_signature message) (cl, w);
      match r with
      | Next (cl, w) => Some (Ret (cl_set_header (o_id sender) opcode cl), w)
      | Break e (cl, w) =>
          w ← wl_closure_destroy (Some cl) w;
          Some (Fail e, w)
      end
  end.

(** [args0] is what the array of [union wl_argument] on the stack holds. *)
Definition wl_closure_vmarshal (args0 : list wl_argument) (sender : wl_object) (opcode : Z)
    (ap : list va_value) (message : wl_message) (w : W) : option (cres wl_closure * W) :=
  args ← wl_argument_from_va_list (msg_signature message) args0 WL_CLOSURE_MAX_ARGS ap;
  wl_closure_marshal sender opcode args message w.

(** ** Object arguments *)

Definition wl_object_is_zombie (map : wl_map) (id : Z) : option bool :=
  if side map =? WL_MAP_SERVER_SIDE then Some false
  else if WL_SERVER_ID_START <=? id then Some false
  else
    flags ← wl_map_lookup_flags map id;
    Some (negb (Z.land flags 1 =? 0)).

Definition lookup_objects_body (objects : wl_map) (i : nat) (t : option wl_arg_type) (_ : bool)
    (cl : wl_closure) : option (loop_step wl_closure) :=
  if bool_decide (t = Some WL_ARG_OBJECT) then
    id ← (cl_arg cl i ≫= get_n);
    let cl := cl_set_arg i (arg_o 0) cl in
    object ← wl_map_lookup objects id;
    zombie ← wl_object_is_zombie objects id;
    if negb zombie && (object =? 0) && negb (id =? 0) then Some (Break EINVAL cl)
    else
      let object := if (zombie : bool) then 0 else object in
      if object =? 0 then Some (Next (cl_set_arg i (arg_o object) cl))
      else
        type ← msg_types (cl_message cl) !! i;
        match type with
        | None => Some (Next (cl_set_arg i (arg_o object) cl))
        | Some type =>
            o ← heap object;
            if negb (wl_interface_equal (o_interface o) type) then Some (Break EINVAL cl)
            else Some (Next (cl_set_arg i (arg_o object) cl))
        end
  else Some (Next cl).

Definition wl_closure_lookup_objects (cl : wl_closure) (objects : wl_map)
    : option (cres unit * wl_closure) :=
  let count := arg_count_for_signature (cl_signature cl) in
  r ← for_args (lookup_objects_body objects) count 0 (cl_signature cl) cl;
  Some (match r with
        | Next cl => (Ret tt, cl)
        | Break e cl => (Fail e, cl)
        end).
End closure_os.

(** ** Calling a listener *)

Inductive ffi_type : Type := ffi_type_sint32 | ffi_type_uint32 | ffi_type_pointer.

(** What a listener is passed: [data], the target object, or an argument. *)
Inductive ffi_value : Type :=
  | ffi_data (data : Z)
  | ffi_target (target : Z)
  | ffi_argument (a : wl_argument).

Inductive wl_closure_invoke_flag : Type := WL_CLOSURE_INVOKE_CLIENT | WL_CLOSURE_INVOKE_SERVER.

Definition ffi_body (flag : wl_closure_invoke_flag) (args : list wl_argument) (i : nat)
    (t : option wl_arg_type) (_ : bool) (acc : list (ffi_type * ffi_value))
    : option (loop_step (list (ffi_type * ffi_value))) :=
  a ← args !! i;
  t ← t;
  let ty :=
    match t with
    | WL_ARG_INT | WL_ARG_FIXED | WL_ARG_FD => ffi_type_sint32
    | WL_ARG_UINT => ffi_type_uint32
    | WL_ARG_STRING | WL_ARG_OBJECT | WL_ARG_ARRAY => ffi_type_pointer
    | WL_ARG_NEW_ID =>
        match flag with
        | WL_CLOSURE_INVOKE_CLIENT => ffi_type_pointer
        | WL_CLOSURE_INVOKE_SERVER => ffi_type_uint32
        end
    end in
  Some (Next (acc ++ [(ty, ffi_argument a)])).

Definition convert_arguments_to_ffi (sig : string) (flag : wl_closure_invoke_flag)
    (args : list wl_argument) (count : nat) : option (list (ffi_type * ffi_value)) :=
  for_args (ffi_body flag args) count 0 sig [] ≫= loop_done.

(** [implementation] is the listener's table ([None] for a null entry);
    [ffi_call] the effect of calling an entry. *)
Definition wl_closure_invoke {F W : Type} (implementation : list (option F))
    (ffi_call : F → list (ffi_type * ffi_value) → W → W)
    (cl : wl_closure) (flag : wl_closure_invoke_flag) (target opcode data : Z) (w : W)
    : option (wl_closure * W) :=
  let count := arg_count_for_signature (cl_signature cl) in
  ffi ← convert_arguments_to_ffi (cl_signature cl) flag (cl_args cl) count;
  entry ← implementation !! Z.to_nat opcode;
  f ← entry;
  let w := ffi_call f ((ffi_type_pointer, ffi_data data) ::
                       (ffi_type_pointer, ffi_target target) :: ffi) w in
  cl ← wl_closure_clear_fds cl;
  Some (cl, w).

Definition wl_closure_dispatch {W : Type}
    (dispatcher : Z → Z → wl_message → list wl_argument → W → W)
    (cl : wl_closure) (target opcode : Z) (w : W) : option (wl_closure * W) :=
  let w := dispatcher target opcode (cl_message cl) (cl_args cl) w in
  cl ← wl_closure_clear_fds cl;
  Some (cl, w).

(** ** Serialisation *)

Definition buffer_size_body (cl : wl_closure) (i : nat) (t : option wl_arg_type) (_ : bool)
    (buffer_size : Z) : option (loop_step Z) :=
  match t with
  | Some WL_ARG_UINT | Some WL_ARG_INT | Some WL_ARG_FIXED | Some WL_ARG_OBJECT
  | Some WL_ARG_NEW_ID => Some (Next (u32 (buffer_size + 1)))
  | Some WL_ARG_STRING =>
      v ← (cl_arg cl i ≫= get_s);
      Some (Next (match v with
                  | None => u32 (buffer_size + 1)
                  | Some s =>
                      let size := u32 (Z.of_nat (length s) + 1) in
                      u32 (buffer_size + (1 + div_roundup size sizeof_u32))
                  end))
  | Some WL_ARG_ARRAY =>
      v ← (cl_arg cl i ≫= get_a);
      Some (Next (match v with
                  | None => u32 (buffer_size + 1)
                  | Some a =>
                      let size := u32 (Z.of_nat (length a)) in
                      u32 (buffer_size + (1 + div_roundup size sizeof_u32))
                  end))
  | Some WL_ARG_FD | None => Some (Next buffer_size)
  end.

Definition buffer_size_for_closure (cl : wl_closure) : option Z :=
  let count := arg_count_for_signature (cl_signature cl) in
  n ← (for_args (buffer_size_body cl) count 0 (cl_signature cl) 0 ≫= loop_done);
  Some (u32 (n + 2)).

Section serialize.
Context (heap : Z → option wl_object).

(** The buffer as bytes, with [p] counting 32-bit words. *)
Definition put_u32 (buf : list Z) (p v : Z) : option (list Z) :=
  write_range buf (p * sizeof_u32) (le_split 4 (u32 v)).

(** [*p++ = size; if (p + div_roundup(size, 4) > end) goto overflow;
    memcpy(p, bytes, size); p += div_roundup(size, 4);] *)
Definition put_block (end_ size : Z) (bytes : list Z) (buf : list Z) (p : Z)
    : option (loop_step (list Z * Z)) :=
  buf ← put_u32 buf p size;
  let p := p + 1 in
  if end_ <? p + div_roundup size sizeof_u32 then Some (Break ERANGE (buf, p))
  else
    src ← read_range bytes 0 size;
    buf ← write_range buf (p * sizeof_u32) src;
    Some (Next (buf, p + div_roundup size sizeof_u32)).

Definition serialize_body (cl : wl_closure) (end_ : Z) (i : nat) (t : option wl_arg_type)
    (_ : bool) (s : list Z * Z) : option (loop_step (list Z * Z)) :=
  let '(buf, p) := s in
  let word v := buf ← put_u32 buf p v; Some (Next (buf, p + 1)) in
  if is_fd t then Some (Next (buf, p))
  else if end_ <? p + 1 then Some (Break ERANGE (buf, p))
  else
    match t with
    | Some WL_ARG_UINT => u ← (cl_arg cl i ≫= get_u); word u
    | Some WL_ARG_INT => v ← (cl_arg cl i ≫= get_i); word v
    | Some WL_ARG_FIXED => f ← (cl_arg cl i ≫= get_f); word f
    | Some WL_ARG_OBJECT =>
        o ← (cl_arg cl i ≫= get_o);
        id ← (if o =? 0 then Some 0 else object ← heap o; Some (o_id object));
        word id
    | Some WL_ARG_NEW_ID => n ← (cl_arg cl i ≫= get_n); word n
    | Some WL_ARG_STRING =>
        v ← (cl_arg cl i ≫= get_s);
        match v with
        | None => word 0
        | Some str => put_block end_ (u32 (Z.of_nat (length str) + 1)) (str ++ [0]) buf p
        end
    | Some WL_ARG_ARRAY =>
        v ← (cl_arg cl i ≫= get_a);
        match v with
        | None => word 0
        | Some a => put_block end_ (u32 (Z.of_nat (length a))) a buf p
        end
    | Some WL_ARG_FD | None => Some (Next (buf, p))
    end.

Definition serialize_closure (cl : wl_closure) (buffer : list Z) (buffer_count : Z)
    : option (cres Z * list Z) :=
  if buffer_count <? 2 then Some (Fail ERANGE, buffer)
  else
    let count := arg_count_for_signature (cl_signature cl) in
    r ← for_args (serialize_body cl buffer_count) count 0 (cl_signature cl) (buffer, 2);
    match r with
    | Break e (buf, _) => Some (Fail e, buf)
    | Next (buf, p) =>
        let size := u32 (p * sizeof_u32) in
        buf ← put_u32 buf 0 (cl_sender_id cl);
        buf ← put_u32 buf 1 (Z.lor (u32 (Z.shiftl size 16)) (Z.land (cl_opcode cl) 0xffff));
        Some (Ret (i32 size), buf)
    end.

Section transmit.
Context {W : Type} `{OsMem W} `{OsFd W} `{OsSock W}.

Definition copy_fds_body (fuel : nat) (i : nat) (t : option wl_arg_type) (_ : bool)
    (s : wl_closure * wl_connection * W) : option (loop_step (wl_closure * wl_connection * W)) :=
  let '(cl, c, w) := s in
  if is_fd t then
    fd ← (cl_arg cl i ≫= get_h);
    '(r, c, w) ← wl_connection_put_fd fuel c fd w;
    Some (match r with
          | Fail e => Break e (cl, c, w)
          | Ret _ => Next (cl_set_arg i (arg_h (-1)) cl, c, w)
          end)
  else Some (Next (cl, c, w)).

Definition copy_fds_to_connection (fuel : nat) (cl : wl_closure) (c : wl_connection) (w : W)
    : option (loop_step (wl_closure * wl_connection * W)) :=
  let count := arg_count_for_signature (cl_signature cl) in
  for_args (copy_fds_body fuel) count 0 (cl_signature cl) (cl, c, w).

Definition wl_closure_send (fuel : nat) (cl : wl_closure) (c : wl_connection) (w : W)
    : option (cres unit * wl_closure * wl_connection * W) :=
  r ← copy_fds_to_connection fuel cl c w;
  match r with
  | Break e (cl, c, w) => Some (Fail e, cl, c, w)
  | Next (cl, c, w) =>
      buffer_size ← buffer_size_for_closure cl;
      match os_alloc (buffer_size * sizeof_u32) w with
      | (None, w) => Some (Fail ENOMEM, cl, c, w)
      | (Some _, w) =>
          (* zalloc *)
          let buffer := replicate (Z.to_nat (buffer_size * sizeof_u32)) 0 in
          '(r, buffer) ← serialize_closure cl buffer buffer_size;
          match r with
          | Fail e => Some (Fail e, cl, c, w)
          | Ret size =>
              if size <? 0 then Some (Fail EOTHER, cl, c, w)
              else
                data ← read_range buffer 0 size;
                '(r, c, w) ← wl_connection_write fuel c data w;
                Some (r, cl, c, w)
          end
      end
  end.

Definition wl_closure_queue (fuel : nat) (cl : wl_closure) (c : wl_connection) (w : W)
    : option (cres unit * wl_closure * wl_connection * W) :=
  r ← copy_fds_to_connection fuel cl c w;
  match r with
  | Break e (cl, c, w) => Some (Fail e, cl, c, w)
  | Next (cl, c, w) =>
      buffer_size ← buffer_size_for_closure cl;
      match os_alloc (buffer_size * sizeof_u32) w with
      | (None, w) => Some (Fail ENOMEM, cl, c, w)
      | (Some junk, w) =>
          (* malloc *)
          let buffer := malloc_block (buffer_size * sizeof_u32) junk in
          '(r, buffer) ← serialize_closure cl buffer buffer_size;
          match r with
          | Fail e => Some (Fail e, cl, c, w)
          | Ret size =>
              if size <? 0 then Some (Fail EOTHER, cl, c, w)
              else
                data ← read_range buffer 0 size;
                '(r, c, w) ← wl_connection_queue fuel c data w;
                Some (r, cl, c, w)
          end
      end
  end.
End transmit.
End serialize.

(** ** Well-typed closures and their wire format *)

Section wire.
Context (heap : Z → option wl_object).

(** The bytes before the terminator of a C string. *)
Definition c_string (s : list Z) : Prop := Forall (λ b, 0 < b < 256) s.

(** The argument has the member its type selects; object pointers are null or
    point to an object. *)
Definition arg_typed (t : wl_arg_type) (a : wl_argument) : Prop :=
  match t with
  | WL_ARG_INT => ∃ v, a = arg_i v
  | WL_ARG_UINT => ∃ v, a = arg_u v
  | WL_ARG_FIXED => ∃ v, a = arg_f v
  | WL_ARG_STRING => ∃ v, a = arg_s v ∧ (∀ s, v = Some s → c_string s)
  | WL_ARG_OBJECT => ∃ o, a = arg_o o ∧ (o = 0 ∨ is_Some (heap o))
  | WL_ARG_NEW_ID => ∃ n, a = arg_n n
  | WL_ARG_ARRAY => ∃ v, a = arg_a v
  | WL_ARG_FD => ∃ h, a = arg_h h
  end.

Fixpoint args_typed (ps : list (wl_arg_type * bool)) (args : list wl_argument) : Prop :=
  match ps, args with
  | [], _ => True
  | (t, _) :: ps, a :: args => arg_typed t a ∧ args_typed ps args
  | _, _ => False
  end.

Definition closure_wf (cl : wl_closure) : Prop :=
  cl_count cl = length (parse_signature (cl_signature cl)) ∧
  args_typed (parse_signature (cl_signature cl)) (cl_args cl).

(** The 32-bit words an argument takes. *)
Definition block_words (size : Z) : Z := 1 + (size + 3) / 4.
Definition arg_words (t : wl_arg_type) (a : wl_argument) : Z :=
  match t, a with
  | WL_ARG_FD, _ => 0
  | WL_ARG_STRING, arg_s (Some s) => block_words (Z.of_nat (length s) + 1)
  | WL_ARG_ARRAY, arg_a (Some l) => block_words (Z.of_nat (length l))
  | _, _ => 1
  end.

Fixpoint args_words (ps : list (wl_arg_type * bool)) (args : list wl_argument) : Z :=
  match ps, args with
  | (t, _) :: ps, a :: args => arg_words t a + args_words ps args
  | _, _ => 0
  end.

(** The size in words of the message, header included. *)
Definition closure_words (cl : wl_closure) : Z :=
  2 + args_words (parse_signature (cl_signature cl)) (cl_args cl).

(** [bs] encodes an argument; the bytes that pad strings and arrays to a
    multiple of four satisfy [P]. *)
Definition wire_word (v : Z) : list Z := le_split 4 (u32 v).
Definition wire_block (P : Z → Prop) (content bs : list Z) : Prop :=
  ∃ pad, bs = wire_word (Z.of_nat (length content)) ++ content ++ pad ∧
    Z.of_nat (length bs) = 4 * block_words (Z.of_nat (length content)) ∧ Forall P pad.
Definition object_id (o : Z) : Z :=
  match heap o with Some object => if o =? 0 then 0 else o_id object | None => 0 end.

Definition wire_arg (P : Z → Prop) (t : wl_arg_type) (a : wl_argument) (bs : list Z) : Prop :=
  match t, a with
  | WL_ARG_INT, arg_i v | WL_ARG_UINT, arg_u v | WL_ARG_FIXED, arg_f v
  | WL_ARG_NEW_ID, arg_n v => bs = wire_word v
  | WL_ARG_OBJECT, arg_o o => bs = wire_word (object_id o)
  | WL_ARG_STRING, arg_s None | WL_ARG_ARRAY, arg_a None => bs = wire_word 0
  | WL_ARG_STRING, arg_s (Some s) => wire_block P (s ++ [0]) bs
  | WL_ARG_ARRAY, arg_a (Some l) => wire_block P l bs
  | WL_ARG_FD, arg_h _ => bs = []
  | _, _ => False
  end.

Fixpoint wire_args (P : Z → Prop) (ps : list (wl_arg_type * bool)) (args : list wl_argument)
    (bs : list Z) : Prop :=
  match ps, args with
  | [], _ => bs = []
  | (t, _) :: ps, a :: args =>
      ∃ b1 b2, bs = b1 ++ b2 ∧ wire_arg P t a b1 ∧ wire_args P ps args b2
  | _, _ => False
  end.

(** The header: the sender, and the size and the opcode in one word. *)
Definition wire_header (sender opcode size : Z) : list Z :=
  wire_word sender ++ wire_word (Z.lor (u32 (Z.shiftl size 16)) (Z.land opcode 0xffff)).

Lemma length_wire_word v : length (wire_word v) = 4%nat.
Proof. apply length_le_split. Qed.

Lemma div_roundup_4 n : 0 <= n < 2 ^ 32 → div_roundup n 4 = (n + 3) / 4.
Proof.
  intros Hn. unfold div_roundup. rewrite u64_small by lia. rewrite u32_small; [f_equal; lia|].
  split; [apply Z.div_pos; lia|apply Z.div_lt_upper_bound; lia].
Qed.

Lemma block_words_pos n : 0 <= n → 1 <= block_words n.
Proof. intros. unfold block_words. pose proof (Z.div_pos (n + 3) 4). lia. Qed.

Lemma arg_words_pos t a : 0 <= arg_words t a.
Proof.
  destruct t, a as [| | | |[]| | |[]|]; cbn; try lia;
    (etransitivity; [|apply block_words_pos]); lia.
Qed.

Lemma arg_words_1 t a : t ≠ WL_ARG_FD → 1 <= arg_words t a.
Proof.
  destruct t, a as [| | | |[]| | |[]|]; cbn; intros; try (done || lia);
    apply block_words_pos; lia.
Qed.

Lemma is_fd_false t : t ≠ WL_ARG_FD → is_fd (Some t) = false.
Proof. by destruct t. Qed.

Lemma args_words_pos ps args : 0 <= args_words ps args.
Proof.
  revert args. induction ps as [|[t b] ps IH]; intros [|a args]; cbn; try lia.
  pose proof (arg_words_pos t a). specialize (IH args). lia.
Qed.

Lemma wire_arg_length P t a bs :
  wire_arg P t a bs → Z.of_nat (length bs) = 4 * arg_words t a.
Proof.
  destruct t, a as [| | | |[]| | |[]|]; cbn; try done; try (intros ->; by rewrite ?length_wire_word).
  - intros (pad&_&->&_). rewrite length_app. cbn. do 2 f_equal. lia.
  - by intros (pad&_&->&_).
Qed.

Lemma wire_args_length P ps args bs :
  wire_args P ps args bs → Z.of_nat (length bs) = 4 * args_words ps args.
Proof.
  revert args bs. induction ps as [|[t b] ps IH]; intros [|a args] bs; cbn; try done;
    try by intros ->.
  intros (b1&b2&->&H1%wire_arg_length&H2%IH). rewrite length_app. lia.
Qed.

Lemma put_u32_spec buf p v :
  0 <= p → (p + 1) * 4 <= Z.of_nat (length buf) →
  put_u32 buf p v = Some (splice buf (Z.to_nat (p * 4)) (wire_word v)).
Proof.
  intros Hp Hlen. unfold put_u32, sizeof_u32. fold (wire_word v).
  apply write_range_Some; [lia|]. rewrite length_wire_word. lia.
Qed.

(** What one argument adds to the buffer at word [p]. *)
Definition put_step (P : Z → Prop) (t : wl_arg_type) (a : wl_argument) (buf : list Z) (p : Z)
    (r : option (loop_step (list Z * Z))) : Prop :=
  ∃ bs, r = Some (Next (splice buf (Z.to_nat (p * 4)) bs, p + arg_words t a)) ∧
    wire_arg P t a bs.

Lemma put_block_spec (P : Z → Prop) buf p N content :
  0 <= p → Z.of_nat (length buf) = N * 4 → N < 2 ^ 30 →
  p + block_words (Z.of_nat (length content)) <= N →
  Forall P (drop (Z.to_nat (p * 4)) buf) →
  ∃ bs, put_block N (Z.of_nat (length content)) content buf p =
      Some (Next (splice buf (Z.to_nat (p * 4)) bs,
        p + block_words (Z.of_nat (length content)))) ∧
    wire_block P content bs.
Proof.
  intros Hp Hlen HN Hfit HP. set (n := Z.of_nat (length content)) in *.
  assert (Hn : 0 <= n < 2 ^ 32 ∧ n <= 4 * ((n + 3) / 4)).
  { unfold block_words in Hfit. mlia. }
  unfold put_block. rewrite put_u32_spec by (pose proof (block_words_pos n); lia).
  cbn [mbind option_bind]. unfold sizeof_u32. rewrite div_roundup_4 by lia.
  unfold block_words in *. set (k := (n + 3) / 4) in *.
  rewrite (proj2 (Z.ltb_ge _ _)) by lia.
  rewrite read_range_Some by lia. cbn [mbind option_bind].
  rewrite drop_0, take_ge by lia. set (o := Z.to_nat (p * 4)) in *.
  rewrite write_range_Some; [|lia|rewrite length_splice by (rewrite length_wire_word; lia); lia].
  cbn [mbind option_bind].
  replace (Z.to_nat ((p + 1) * 4)) with (o + length (wire_word n))%nat
    by (rewrite length_wire_word; lia).
  rewrite splice_adjacent by (rewrite length_wire_word; lia).
  set (pad := take (Z.to_nat (4 * k - n)) (drop (o + length (wire_word n ++ content)) buf)).
  exists ((wire_word n ++ content) ++ pad). split.
  { unfold pad. rewrite splice_keep; [by rewrite Z.add_assoc|].
    rewrite length_app, length_wire_word. lia. }
  exists pad. rewrite <- app_assoc. split_and!; [done| |].
  - unfold pad. rewrite !length_app, length_take, length_drop, length_wire_word.
    unfold block_words. fold n k. lia.
  - unfold pad. apply Forall_take. rewrite <- drop_drop. by apply Forall_drop.
Qed.

(** Every argument is written inside the buffer [buffer_size_for_closure] sized. *)
Lemma serialize_body_spec P cl N i t b a buf p :
  cl_arg cl i = Some a → arg_typed t a → 0 <= p → Z.of_nat (length buf) = N * 4 →
  N < 2 ^ 30 → p + arg_words t a <= N → Forall P (drop (Z.to_nat (p * 4)) buf) →
  put_step P t a buf p (serialize_body heap cl N i (Some t) b (buf, p)).
Proof.
  intros Ha Ht Hp Hlen HN Hfit HP.
  assert (Hword : ∀ v, p + 1 <= N →
    (x ← put_u32 buf p v; Some (Next (x, p + 1))) =
      Some (Next (splice buf (Z.to_nat (p * 4)) (wire_word v), p + 1))).
  { intros v Hv. by rewrite put_u32_spec by lia. }
  assert (Hblock : ∀ content, p + block_words (Z.of_nat (length content)) <= N →
    ∃ bs, put_block N (u32 (Z.of_nat (length content))) content buf p =
        Some (Next (splice buf (Z.to_nat (p * 4)) bs,
          p + block_words (Z.of_nat (length content)))) ∧ wire_block P content bs).
  { intros content Hc. rewrite u32_small; [by apply put_block_spec|].
    unfold block_words in Hc. mlia. }
  destruct (decide (t = WL_ARG_FD)) as [->|Hfd].
  { destruct Ht as [v ->]. exists []. split; [|done]. cbn. by rewrite splice_nil, Z.add_0_r. }
  assert (1 <= arg_words t a) as Hpos by (by apply arg_words_1).
  unfold put_step, serialize_body. rewrite is_fd_false, (proj2 (Z.ltb_ge _ _)), Ha by (done || lia).
  destruct t; cbn [arg_typed] in Ht; try done.
  1-3, 6: destruct Ht as [v ->]; cbn in *; rewrite Hword by lia; by eexists.
  - destruct Ht as ([str|]&->&Hs); cbn in *; [|rewrite Hword by lia; by eexists].
    destruct (Hblock (str ++ [0])) as (bs&Hbs&Hw).
    { rewrite length_app. cbn. by rewrite Nat2Z.inj_add. }
    rewrite length_app, Nat2Z.inj_add in Hbs. change (Z.of_nat (length [0])) with 1 in Hbs.
    rewrite Hbs. by eexists.
  - destruct Ht as (o&->&Ho). cbn in *. unfold object_id.
    destruct (Z.eqb_spec o 0) as [->|]; cbn.
    + rewrite Hword by lia. eexists. split; [done|]. by destruct (heap 0).
    + destruct Ho as [?|[obj ->]]; [done|]. cbn. rewrite Hword by lia. by eexists.
  - destruct Ht as [[l|] ->]; cbn in *; [|rewrite Hword by lia; by eexists].
    destruct (Hblock l) as (bs&->&Hw); [done|]. by eexists.
Qed.

Lemma serialize_loop_spec P cl N ps i buf p :
  args_typed ps (drop i (cl_args cl)) → 0 <= p → Z.of_nat (length buf) = N * 4 →
  N < 2 ^ 30 → p + args_words ps (drop i (cl_args cl)) <= N →
  Forall P (drop (Z.to_nat (p * 4)) buf) →
  ∃ bs, for_list (serialize_body heap cl N) ps i (buf, p) =
      Some (Next (splice buf (Z.to_nat (p * 4)) bs, p + args_words ps (drop i (cl_args cl)))) ∧
    wire_args P ps (drop i (cl_args cl)) bs.
Proof.
  revert i buf p. induction ps as [|[t b] ps IH]; intros i buf p Ht Hp Hlen HN Hfit HP.
  { exists []. cbn. by rewrite splice_nil, Z.add_0_r. }
  destruct (drop i (cl_args cl)) as [|a args] eqn:Hd; [done|].
  destruct (drop_eq_cons _ _ _ _ Hd) as [Ha Hd']. cbn [args_typed args_words] in *.
  destruct Ht as [Ht Hts]. pose proof (args_words_pos ps args) as Hpos.
  pose proof (arg_words_pos t a) as Hpos'.
  destruct (serialize_body_spec P cl N i t b a buf p) as (bs&Hb&Hw); try done; [lia|].
  cbn [for_list]. rewrite Hb. cbn [mbind option_bind]. pose proof (wire_arg_length P t a bs Hw).
  replace (Z.to_nat ((p + arg_words t a) * 4)) with (Z.to_nat (p * 4) + length bs)%nat by lia.
  specialize (IH (S i)). rewrite Hd' in IH.
  destruct (IH (splice buf (Z.to_nat (p * 4)) bs) (p + arg_words t a)) as (bs'&Hr&Hw');
    try done; try lia.
  - rewrite length_splice; lia.
  - replace (Z.to_nat ((p + arg_words t a) * 4)) with (Z.to_nat (p * 4) + length bs)%nat by lia.
    rewrite drop_splice by lia. rewrite <- drop_drop. by apply Forall_drop.
  - pose proof (wire_args_length P ps args bs' Hw'). exists (bs ++ bs'). rewrite Hr.
    split; [|by exists bs, bs'].
    replace (Z.to_nat ((p + arg_words t a) * 4)) with (Z.to_nat (p * 4) + length bs)%nat by lia.
    rewrite splice_adjacent by lia. by rewrite Z.add_assoc.
Qed.

Lemma buffer_size_body_spec cl i t b a n :
  cl_arg cl i = Some a → arg_typed t a → 0 <= n → n + arg_words t a < 2 ^ 30 →
  buffer_size_body cl i (Some t) b n = Some (Next (n + arg_words t a)).
Proof.
  intros Ha Ht Hn Hfit. unfold buffer_size_body. rewrite Ha.
  assert (Hblock : ∀ k, 0 <= k → n + block_words k < 2 ^ 30 →
    u32 (n + (1 + div_roundup (u32 k) sizeof_u32)) = n + block_words k).
  { intros k Hk Hb. unfold block_words, sizeof_u32 in *.
    rewrite (u32_small k), div_roundup_4 by mlia. apply u32_small. mlia. }
  assert (Hone : n + 1 < 2 ^ 30 → u32 (n + 1) = n + 1) by (intros; apply u32_small; lia).
  destruct t; cbn [arg_typed] in Ht.
  - destruct Ht as [v ->]. by apply Hone in Hfit as ->.
  - destruct Ht as [v ->]. by apply Hone in Hfit as ->.
  - destruct Ht as [v ->]. by apply Hone in Hfit as ->.
  - destruct Ht as ([s|]&->&_); cbn in *; [by rewrite Hblock by lia|by rewrite Hone].
  - destruct Ht as (o&->&_). by apply Hone in Hfit as ->.
  - destruct Ht as [v ->]. by apply Hone in Hfit as ->.
  - destruct Ht as ([l|]&->); cbn in *; [by rewrite Hblock by lia|by rewrite Hone].
  - cbn. by rewrite Z.add_0_r.
Qed.

Lemma buffer_size_loop_spec cl ps i n :
  args_typed ps (drop i (cl_args cl)) → 0 <= n →
  n + args_words ps (drop i (cl_args cl)) < 2 ^ 30 →
  for_list (buffer_size_body cl) ps i n = Some (Next (n + args_words ps (drop i (cl_args cl)))).
Proof.
  revert i n. induction ps as [|[t b] ps IH]; intros i n Ht Hn Hfit.
  { cbn. by rewrite Z.add_0_r. }
  destruct (drop i (cl_args cl)) as [|a args] eqn:Hd; [done|].
  destruct (drop_eq_cons _ _ _ _ Hd) as [Ha Hd']. cbn [args_typed args_words for_list] in *.
  pose proof (args_words_pos ps args). pose proof (arg_words_pos t a).
  rewrite (buffer_size_body_spec cl i t b a n) by (done || lia || tauto).
  specialize (IH (S i)). rewrite Hd' in IH. cbn [mbind option_bind].
  rewrite IH; [by rewrite Z.add_assoc|tauto|lia|lia].
Qed.

(** The size computed is the size used. *)
Lemma buffer_size_spec cl :
  closure_wf cl → closure_words cl < 2 ^ 30 →
  buffer_size_for_closure cl = Some (closure_words cl).
Proof.
  intros [_ Ht] Hfit. unfold closure_words in *. unfold buffer_size_for_closure.
  rewrite for_args_parse by apply arg_count_parse.
  set (ps := parse_signature (cl_signature cl)) in *.
  pose proof (args_words_pos ps (cl_args cl)).
  rewrite buffer_size_loop_spec; rewrite ?drop_0; [|done|lia|lia].
  cbn [mbind option_bind loop_done]. by rewrite u32_small, Z.add_0_l, Z.add_comm by lia.
Qed.

Lemma length_wire_header sender opcode size : length (wire_header sender opcode size) = 8%nat.
Proof. by unfold wire_header; rewrite length_app, !length_wire_word. Qed.

Definition message_of (P : Z → Prop) (cl : wl_closure) (bs : list Z) : Prop :=
  ∃ body, bs = wire_header (cl_sender_id cl) (cl_opcode cl) (4 * closure_words cl) ++ body ∧
    wire_args P (parse_signature (cl_signature cl)) (cl_args cl) body.

(** Serialisation fills exactly the buffer. *)
Lemma serialize_spec P cl buf :
  closure_wf cl → closure_words cl < 2 ^ 29 →
  Z.of_nat (length buf) = closure_words cl * 4 → Forall P buf →
  ∃ bs, serialize_closure heap cl buf (closure_words cl) =
      Some (Ret (4 * closure_words cl), bs) ∧
    Z.of_nat (length bs) = 4 * closure_words cl ∧ message_of P cl bs.
Proof.
  intros [_ Ht] Hfit Hlen HP. unfold serialize_closure, message_of.
  rewrite for_args_parse by apply arg_count_parse.
  pose proof (args_words_pos (parse_signature (cl_signature cl)) (cl_args cl)) as Hpos.
  assert (HN : closure_words cl = 2 + args_words (parse_signature (cl_signature cl)) (cl_args cl))
    by done.
  set (ps := parse_signature (cl_signature cl)) in *. set (N := closure_words cl) in *.
  rewrite (proj2 (Z.ltb_ge _ _)) by lia.
  destruct (serialize_loop_spec P cl N ps 0 buf 2) as (body&->&Hw); rewrite ?drop_0 in *;
    try done; try lia; [by apply Forall_drop|].
  pose proof (wire_args_length P ps (cl_args cl) body Hw). change (Z.to_nat (2 * 4)) with 8%nat.
  cbn [mbind option_bind]. unfold sizeof_u32. rewrite u32_small, <- HN by lia.
  assert (Hb : length buf = (8 + length body)%nat) by lia.
  rewrite put_u32_spec by (rewrite ?length_splice; lia). cbn [mbind option_bind].
  rewrite put_u32_spec by (rewrite ?length_splice; rewrite ?length_wire_word, ?length_splice; lia).
  cbn [mbind option_bind]. rewrite i32_small by lia. rewrite (Z.mul_comm N 4).
  eexists. split; [done|]. set (w0 := wire_word (cl_sender_id cl)).
  change (Z.to_nat (0 * 4)) with 0%nat. change (Z.to_nat (1 * 4)) with (0 + length w0)%nat.
  rewrite splice_adjacent by (rewrite length_splice; unfold w0; rewrite ?length_wire_word; lia).
  set (h := wire_header (cl_sender_id cl) (cl_opcode cl) (4 * N)).
  change (splice (splice buf 8 body) 0 _) with (splice (splice buf (length h) body) 0 h).
  rewrite splice_fill by done.
  split; [rewrite length_app; unfold h; rewrite length_wire_header; lia|by eexists].
Qed.

(** An argument that does not fit is refused, not written past the end. *)
Lemma put_block_overflow buf p N content :
  0 <= p → Z.of_nat (length buf) = N * 4 → N < 2 ^ 30 → p + 1 <= N →
  N < p + block_words (Z.of_nat (length content)) → Z.of_nat (length content) < 2 ^ 32 →
  ∃ s, put_block N (Z.of_nat (length content)) content buf p = Some (Break ERANGE s).
Proof.
  intros Hp Hlen HN Hp1 Hfit Hc. unfold put_block. rewrite put_u32_spec by lia.
  cbn [mbind option_bind]. unfold sizeof_u32. rewrite div_roundup_4 by lia.
  unfold block_words in Hfit. rewrite (proj2 (Z.ltb_lt _ _)) by lia. by eexists.
Qed.

Lemma serialize_body_overflow cl N i t b a buf p :
  cl_arg cl i = Some a → arg_typed t a → 0 <= p → Z.of_nat (length buf) = N * 4 →
  N < 2 ^ 30 → p <= N < p + arg_words t a → arg_words t a < 2 ^ 30 →
  ∃ s, serialize_body heap cl N i (Some t) b (buf, p) = Some (Break ERANGE s).
Proof.
  intros Ha Ht Hp Hlen HN Hfit Hw. unfold serialize_body.
  assert (t ≠ WL_ARG_FD) as Hfd by (intros ->; cbn in Hfit; lia).
  rewrite is_fd_false by done. destruct (Z.ltb_spec N (p + 1)); [by eexists|]. rewrite Ha.
  assert (Hblock : ∀ content, arg_words t a = block_words (Z.of_nat (length content)) →
    ∃ s, put_block N (u32 (Z.of_nat (length content))) content buf p = Some (Break ERANGE s)).
  { intros content Hc. assert (Z.of_nat (length content) < 2 ^ 32)
      by (rewrite Hc in Hw; unfold block_words in Hw; mlia).
    rewrite u32_small by lia. apply put_block_overflow; (done || lia). }
  destruct t; cbn [arg_typed] in Ht; try (destruct Ht as [v ->]; cbn in Hfit; lia).
  - destruct Ht as ([str|]&->&_); cbn in *; [|lia].
    assert (Hl : Z.of_nat (length str) + 1 = Z.of_nat (length (str ++ [0])))
      by (rewrite length_app; cbn; lia).
    rewrite Hl. apply Hblock. by rewrite Hl.
  - destruct Ht as (o&->&_); cbn in *; lia.
  - destruct Ht as [[l|] ->]; cbn in *; [by apply Hblock|lia].
Qed.

Lemma serialize_loop_overflow cl N ps i buf p :
  args_typed ps (drop i (cl_args cl)) → 0 <= p → Z.of_nat (length buf) = N * 4 →
  N < 2 ^ 30 → p <= N < p + args_words ps (drop i (cl_args cl)) →
  args_words ps (drop i (cl_args cl)) < 2 ^ 30 →
  ∃ s, for_list (serialize_body heap cl N) ps i (buf, p) = Some (Break ERANGE s).
Proof.
  revert i buf p. induction ps as [|[t b] ps IH]; intros i buf p Ht Hp Hlen HN Hfit Hw.
  { cbn in Hfit. lia. }
  destruct (drop i (cl_args cl)) as [|a args] eqn:Hd; [done|].
  destruct (drop_eq_cons _ _ _ _ Hd) as [Ha Hd']. cbn [args_typed args_words for_list] in *.
  destruct Ht as [Ht Hts]. pose proof (args_words_pos ps args). pose proof (arg_words_pos t a).
  destruct (decide (N < p + arg_words t a)).
  - destruct (serialize_body_overflow cl N i t b a buf p) as (s&->); try done; [lia|lia|].
    by eexists.
  - destruct (serialize_body_spec (λ _, True) cl N i t b a buf p) as (bs&->&Hwr); try done; try lia.
    { by apply Forall_true. }
    cbn [mbind option_bind]. pose proof (wire_arg_length _ t a bs Hwr).
    specialize (IH (S i)). rewrite Hd' in IH. apply IH; try done; try lia.
    rewrite length_splice; lia.
Qed.

Lemma serialize_overflow cl buf N :
  closure_wf cl → closure_words cl < 2 ^ 30 → 0 <= N < closure_words cl →
  Z.of_nat (length buf) = N * 4 →
  ∃ buf', serialize_closure heap cl buf N = Some (Fail ERANGE, buf').
Proof.
  intros [_ Ht] Hcw HN Hlen. unfold serialize_closure. destruct (Z.ltb_spec N 2); [by eexists|].
  rewrite for_args_parse by apply arg_count_parse. unfold closure_words in *.
  destruct (serialize_loop_overflow cl N (parse_signature (cl_signature cl)) 0 buf 2)
    as ([buf' p]&->); rewrite ?drop_0; try done; try lia. by eexists.
Qed.
End wire.
