(* ===== verification/WlTransmit.v ===== *)
(** * Building, sending and destroying closures

    What [wl_closure_marshal], [wl_closure_destroy], [wl_closure_send] and
    [wl_closure_queue] do to the file descriptors and to the connection: every
    descriptor is owned by exactly one of the closure, the connection and the
    socket, and the bytes written are the wire format of the arguments. *)

From stdpp Require Import strings.
From S2P Require Import Prelude Os OsSim WlOs WlRing WlConnection WlSession WlArray WlMap.
From S2P Require Import WlMessage WlClosure.
Open Scope Z_scope.

(** ** The descriptors of a closure *)

Fixpoint raw_fds (ps : list (wl_arg_type * bool)) (args : list wl_argument) : list Z :=
  match ps, args with
  | (WL_ARG_FD, _) :: ps, arg_h h :: args => h :: raw_fds ps args
  | _ :: ps, _ :: args => raw_fds ps args
  | _, _ => []
  end.

Definition live_fds (fds : list Z) : list Z := base.filter (λ fd, fd ≠ -1) fds.

(** The descriptors the closure owns. *)
Definition closure_fds (cl : wl_closure) : list Z :=
  live_fds (raw_fds (parse_signature (cl_signature cl)) (cl_args cl)).

(** Descriptor arguments hold a descriptor. *)
Fixpoint fds_typed (ps : list (wl_arg_type * bool)) (args : list wl_argument) : Prop :=
  match ps, args with
  | [], _ => True
  | (t, _) :: ps, a :: args => (t = WL_ARG_FD → ∃ h, a = arg_h h) ∧ fds_typed ps args
  | _, _ => False
  end.

Lemma fds_typed_lookup ps args : fds_typed ps args ↔ (length ps <= length args)%nat ∧
  ∀ i b, ps !! i = Some (WL_ARG_FD, b) → ∃ h, args !! i = Some (arg_h h).
Proof.
  revert args. induction ps as [|[t b] ps IH]; intros args; cbn [fds_typed]; [split; [split; [cbn; lia|done]|done]|].
  destruct args as [|a args]; [split; [done|intros [? _]; cbn in *; lia]|]. rewrite IH. split.
  - intros (Ha&Hl&Hi). split; [cbn; lia|]. intros [|i] b'; cbn; [intros [= -> _]; destruct Ha as [h ->]; eauto|apply Hi].
  - intros [Hl Hi]. split_and!; [|cbn in Hl; lia|by intros i; apply (Hi (S i))]. intros ->. destruct (Hi 0%nat b eq_refl) as [h [= ->]]. eauto.
Qed.

Definition closure_fds_ok (cl : wl_closure) : Prop :=
  cl_count cl = length (parse_signature (cl_signature cl)) ∧
  fds_typed (parse_signature (cl_signature cl)) (cl_args cl).

Fixpoint clear_args (ps : list (wl_arg_type * bool)) (args : list wl_argument)
    : list wl_argument :=
  match ps, args with
  | (t, _) :: ps, a :: args => (if is_fd (Some t) then arg_h (-1) else a) :: clear_args ps args
  | _, _ => args
  end.

Definition cl_with_args (args : list wl_argument) (cl : wl_closure) : wl_closure :=
  mk_closure (cl_count cl) (cl_message cl) (cl_opcode cl) (cl_sender_id cl) args.

Lemma cl_set_arg_middle cl pre a a' post :
  cl_args cl = pre ++ a :: post →
  cl_set_arg (length pre) a' cl = cl_with_args (pre ++ a' :: post) cl.
Proof.
  intros Ha. unfold cl_set_arg, cl_with_args. f_equal. rewrite Ha.
  by rewrite insert_app_r_alt, Nat.sub_diag by lia.
Qed.

Lemma cl_arg_middle cl pre a post :
  cl_args cl = pre ++ a :: post → cl_arg cl (length pre) = Some a.
Proof. intros Ha. unfold cl_arg. rewrite Ha. by apply list_lookup_middle. Qed.

Lemma cl_with_args_self cl args : cl_args cl = args → cl_with_args args cl = cl.
Proof. intros <-. by destruct cl. Qed.

Lemma length_snoc {A} (l : list A) a : length (l ++ [a]) = S (length l).
Proof. rewrite length_app. cbn. lia. Qed.

Lemma clear_fds_loop_spec ps pre post cl :
  cl_args cl = pre ++ post → (length ps <= length post)%nat →
  for_list clear_fds_body ps (length pre) cl =
    Some (Next (cl_with_args (pre ++ clear_args ps post) cl)).
Proof.
  revert pre post cl. induction ps as [|[t b] ps IH]; intros pre post cl Ha Hlen.
  { cbn. by rewrite cl_with_args_self. }
  destruct post as [|a post]; [cbn in Hlen; lia|]. cbn [for_list clear_fds_body mbind option_bind].
  set (a' := if is_fd (Some t) then arg_h (-1) else a).
  assert (Hcl : (if is_fd (Some t) then cl_set_arg (length pre) (arg_h (-1)) cl else cl) =
    cl_with_args ((pre ++ [a']) ++ post) cl).
  { rewrite <- app_assoc. unfold a'. destruct (is_fd (Some t)).
    - by apply cl_set_arg_middle with a.
    - symmetry. by apply cl_with_args_self. }
  rewrite Hcl, <- (length_snoc pre a'), IH with (post := post);
    [|done|cbn in Hlen; lia].
  by rewrite <- app_assoc.
Qed.

Lemma clear_fds_spec cl :
  cl_count cl = length (parse_signature (cl_signature cl)) →
  (cl_count cl <= length (cl_args cl))%nat →
  wl_closure_clear_fds cl =
    Some (cl_with_args (clear_args (parse_signature (cl_signature cl)) (cl_args cl)) cl).
Proof.
  intros Hc Hlen. unfold wl_closure_clear_fds. rewrite for_args_parse by done.
  by rewrite (clear_fds_loop_spec _ [] (cl_args cl) cl) by (done || lia).
Qed.

Lemma length_clear_args ps args : length (clear_args ps args) = length args.
Proof.
  revert args. induction ps as [|[t b] ps IH]; intros [|a args]; cbn; try done. by rewrite IH.
Qed.

Lemma live_cleared ps args : live_fds (raw_fds ps (clear_args ps args)) = [].
Proof.
  revert args. induction ps as [|[t b] ps IH]; intros [|a args]; cbn; try done.
  - by destruct t.
  - unfold live_fds in *. destruct (decide (t = WL_ARG_FD)) as [->|Ht].
    + cbn. apply IH.
    + rewrite is_fd_false by done. destruct t; try done; apply IH.
Qed.

(** ** Closing *)

Section closing.
Context {W : Type} `{OsMem W} `{OsFd W}.

Lemma close_fds_step cl i t b a (w : W) :
  cl_arg cl i = Some a → (t = WL_ARG_FD → ∃ h, a = arg_h h) →
  close_fds_body cl i (Some t) b w = Some (Next (close_all (live_fds (raw_fds [(t, b)] [a])) w)).
Proof.
  intros Ha Hfd. unfold close_fds_body. rewrite Ha.
  destruct (decide (t = WL_ARG_FD)) as [->|Hne].
  - destruct Hfd as [h ->]; [done|].
    change (raw_fds [(WL_ARG_FD, b)] [arg_h h]) with [h]. unfold live_fds. rewrite filter_cons.
    change (is_fd (Some WL_ARG_FD)) with true. cbn [get_h mbind option_bind].
    destruct (Z.eqb_spec h (-1)) as [->|Hh]; by case_decide.
  - rewrite is_fd_false by done. by destruct t.
Qed.

Lemma raw_fds_cons p ps a args : raw_fds (p :: ps) (a :: args) = raw_fds [p] [a] ++ raw_fds ps args.
Proof. by destruct p as [[] b], a. Qed.

Lemma closure_close_loop_spec ps pre post cl (w : W) :
  cl_args cl = pre ++ post → fds_typed ps post →
  for_list (close_fds_body cl) ps (length pre) w =
    Some (Next (close_all (live_fds (raw_fds ps post)) w)).
Proof.
  revert pre post w. induction ps as [|[t b] ps IH]; intros pre post w Ha Ht; [done|].
  destruct post as [|a post]; [done|]. destruct Ht as [Hfd Ht]. cbn [for_list].
  rewrite (close_fds_step cl (length pre) t b a w (cl_arg_middle cl pre a post Ha) Hfd).
  rewrite cons_middle, app_assoc in Ha. cbn [mbind option_bind].
  rewrite <- (length_snoc pre a), (IH _ _ _ Ha Ht), (raw_fds_cons (t, b) ps a post).
  unfold live_fds, close_all. by rewrite filter_app, foldl_app.
Qed.

(** Destroying closes exactly the descriptors the closure owns. *)
Lemma destroy_closure_spec cl (w : W) :
  closure_fds_ok cl → wl_closure_destroy (Some cl) w = Some (close_all (closure_fds cl) w).
Proof.
  intros [Hc Ht]. cbn [wl_closure_destroy]. unfold wl_closure_close_fds.
  rewrite for_args_parse by done. by rewrite (closure_close_loop_spec _ [] (cl_args cl) cl).
Qed.
End closing.

(** ** Marshalling *)

Section marshal.
Context {W : Type} `{OsFdLaws W}.
Context (heap : Z → option wl_object).

(** The arguments a caller passes: new objects by address. *)
Definition user_typed (t : wl_arg_type) (a : wl_argument) : Prop :=
  match t with
  | WL_ARG_NEW_ID => ∃ o, a = arg_o o ∧ (o = 0 ∨ is_Some (heap o))
  | _ => arg_typed heap t a
  end.

Fixpoint user_args (ps : list (wl_arg_type * bool)) (args : list wl_argument) : Prop :=
  match ps, args with
  | [], _ => True
  | (t, _) :: ps, a :: args => user_typed t a ∧ user_args ps args
  | _, _ => False
  end.

(** What the closure holds for an argument the caller passed: non-null unless
    nullable, the id of a new object, some duplicate of a descriptor. *)
Definition marshalled_arg (t : wl_arg_type) (nullable : bool) (a a' : wl_argument) : Prop :=
  match t with
  | WL_ARG_NEW_ID => ∃ o object, a = arg_o o ∧ o ≠ 0 ∧ heap o = Some object ∧
                                 a' = arg_n (o_id object)
  | WL_ARG_FD => ∃ fd, a' = arg_h fd ∧ 0 <= fd < 2 ^ 31
  | WL_ARG_STRING => a' = a ∧ (a = arg_s None → nullable = true)
  | WL_ARG_OBJECT => a' = a ∧ (a = arg_o 0 → nullable = true)
  | WL_ARG_ARRAY => a' = a ∧ a ≠ arg_a None
  | _ => a' = a
  end.

Fixpoint marshalled (ps : list (wl_arg_type * bool)) (args args' : list wl_argument) : Prop :=
  match ps, args, args' with
  | [], _, _ => True
  | (t, b) :: ps, a :: args, a' :: args' => marshalled_arg t b a a' ∧ marshalled ps args args'
  | _, _, _ => False
  end.

(** From [w] to [w'] exactly the descriptors [fds] were opened. *)
Definition opened (w : W) (fds : list Z) (w' : W) : Prop :=
  NoDup fds ∧ Forall (λ fd, 0 <= fd < 2 ^ 31 ∧ fd ∉ open_fds w) fds ∧
  open_fds w' = list_to_set fds ∪ open_fds w.

Lemma opened_nil w w' : open_fds w' = open_fds w → opened w [] w'.
Proof. intros E. split_and!; [constructor|constructor|set_solver]. Qed.

Lemma opened_cons w fd w1 fds w2 :
  0 <= fd < 2 ^ 31 → fd ∉ open_fds w → open_fds w1 = {[fd]} ∪ open_fds w →
  opened w1 fds w2 → opened w (fd :: fds) w2.
Proof.
  intros Hfd Hni E1 (Hnd&Hall&E2). rewrite Forall_forall in Hall. split_and!.
  - constructor; [|done]. intros Hin. destruct (Hall fd Hin) as [_ Hn]. set_solver.
  - constructor; [done|]. rewrite Forall_forall. intros x Hx.
    destruct (Hall x Hx) as [? Hn]. set_solver.
  - rewrite E2, E1. set_solver.
Qed.

Lemma close_all_fds fds (w : W) : open_fds (close_all fds w) = open_fds w ∖ list_to_set fds.
Proof.
  revert w. induction fds as [|fd fds IH]; intros w; [set_solver|].
  change (close_all (fd :: fds) w) with (close_all fds (os_close fd w)).
  rewrite IH, os_close_law. set_solver.
Qed.

(** Opening and closing the same descriptors. *)
Lemma opened_close w fds w' : opened w fds w' → open_fds (close_all fds w') = open_fds w.
Proof.
  intros (_&Hall&E). rewrite close_all_fds, E. rewrite Forall_forall in Hall.
  apply set_eq. intros x. rewrite elem_of_difference, elem_of_union, elem_of_list_to_set.
  split; [tauto|]. intros Hx. split; [tauto|]. intros Hin. by destruct (Hall x Hin).
Qed.

Lemma live_fds_pos fds : Forall (λ fd, 0 <= fd) fds → live_fds fds = fds.
Proof.
  intros Hall. unfold live_fds. induction Hall as [|fd fds Hfd _ IH]; [done|].
  rewrite filter_cons, IH. case_decide; [done|lia].
Qed.

(** One argument: the closure keeps it or opens a descriptor for it. *)
Lemma marshal_step uargs cl pre a a0 post t b (w : W) :
  cl_args cl = pre ++ a0 :: post → uargs !! length pre = Some a → user_typed t a →
  a0 = (if is_fd (Some t) then arg_h (-1) else a) →
  ∃ r, marshal_body heap uargs (length pre) (Some t) b (cl, w) = Some r ∧
    match r with
    | Next (cl', w') => ∃ a', cl' = cl_with_args (pre ++ a' :: post) cl ∧
        marshalled_arg t b a a' ∧ opened w (raw_fds [(t, b)] [a']) w'
    | Break _ (cl', w') => cl' = cl ∧ open_fds w' = open_fds w
    end.
Proof.
  intros Ha Hu Ht E. assert (Hself : a0 = a → cl = cl_with_args (pre ++ a :: post) cl).
  { intros <-. symmetry. by apply cl_with_args_self. }
  unfold marshal_body. rewrite Hu. destruct t; cbn [user_typed arg_typed] in Ht;
    change (is_fd _) with false in E || change (is_fd _) with true in E; cbn in E.
  1-3: eexists; split; [done|]; exists a; split_and!; [by apply Hself|done|];
    destruct Ht as [v ->]; by apply opened_nil.
  - destruct Ht as (v&->&_). cbn. eexists. split; [done|].
    destruct (negb b && bool_decide (v = None)) eqn:Hn; [done|]. exists (arg_s v).
    split_and!; [by apply Hself|done| |by apply opened_nil].
    intros [= ->]. by destruct b.
  - destruct Ht as (o&->&_). cbn. eexists. split; [done|].
    destruct (negb b && (o =? 0)) eqn:Hn; [done|]. exists (arg_o o).
    split_and!; [by apply Hself|done| |by apply opened_nil].
    intros [= ->]. by destruct b.
  - destruct Ht as (o&->&Ho). cbn. destruct (Z.eqb_spec o 0) as [->|Hne]; [by eexists|].
    destruct Ho as [?|[object Hob]]; [done|]. rewrite Hob. cbn. eexists. split; [done|].
    eexists. split_and!; [by eapply cl_set_arg_middle|by eexists _, _|by apply opened_nil].
  - destruct Ht as [v ->]. cbn. eexists. split; [done|].
    case_bool_decide as Hn; [done|]. exists (arg_a v).
    split_and!; [by apply Hself|done|congruence|by apply opened_nil].
  - destruct Ht as [h ->]. cbn. pose proof (wl_os_dupfd_cloexec_spec h 0 w) as Hd.
    destruct (wl_os_dupfd_cloexec h 0 w) as [[d|e] w1]; eexists; (split; [done|]); [|done].
    destruct Hd as (?&?&E1). eexists. split_and!; [by eapply cl_set_arg_middle|by eexists|].
    eapply opened_cons; [done..|]. by apply opened_nil.
Qed.

Lemma opened_app w fds1 w1 fds2 w2 :
  opened w fds1 w1 → opened w1 fds2 w2 → opened w (fds1 ++ fds2) w2.
Proof.
  intros (Hnd1&Hall1&E1) (Hnd2&Hall2&E2). rewrite Forall_forall in Hall1, Hall2. split_and!.
  - apply NoDup_app. split_and!; try done. intros x Hx Hx2.
    destruct (Hall2 x Hx2) as [_ Hn]. apply Hn. rewrite E1. set_solver.
  - rewrite Forall_forall. intros x [Hx|Hx]%elem_of_app; [by apply Hall1|].
    destruct (Hall2 x Hx) as [? Hn]. split; [done|]. intros Hin. apply Hn. rewrite E1. set_solver.
  - rewrite E2, E1, list_to_set_app_L. set_solver.
Qed.

Lemma opened_frame w w1 fds w2 : open_fds w1 = open_fds w → opened w1 fds w2 → opened w fds w2.
Proof. unfold opened. by intros ->. Qed.

Lemma marshalled_fds t b a a' : marshalled_arg t b a a' → t = WL_ARG_FD → ∃ h, a' = arg_h h.
Proof. intros Hm ->. destruct Hm as (fd&->&_). by eexists. Qed.

Lemma cleared_fds_typed ps args : (length ps <= length args)%nat → fds_typed ps (clear_args ps args).
Proof.
  revert args. induction ps as [|[t b] ps IH]; intros [|a args] Hlen; cbn in *; try done; [lia|].
  split; [|apply IH; lia]. intros ->. by eexists.
Qed.

Lemma fds_typed_app ps args tail : fds_typed ps args → fds_typed ps (args ++ tail).
Proof.
  revert args. induction ps as [|[t b] ps IH]; intros [|a args] Ht; cbn in *; try done.
  destruct Ht. auto.
Qed.

Lemma live_raw_app ps args tail :
  length ps = length args → raw_fds ps (args ++ tail) = raw_fds ps args.
Proof.
  revert args. induction ps as [|[t b] ps IH]; intros [|a args] Hl; try done.
  cbn [app]. rewrite (raw_fds_cons (t, b) ps a (args ++ tail)), (raw_fds_cons (t, b) ps a args).
  rewrite IH; [done|]. cbn in Hl. lia.
Qed.

(** The loop of [wl_closure_marshal]; on both exits the closure owns exactly the
    descriptors opened so far. *)
Lemma marshal_loop_spec uargs ps : ∀ pre us utail tail cl (w : W),
  cl_args cl = pre ++ clear_args ps us ++ tail → drop (length pre) uargs = us ++ utail →
  length us = length ps → user_args ps us →
  ∃ r, for_list (marshal_body heap uargs) ps (length pre) (cl, w) = Some r ∧
    ∃ mid cl' w', length mid = length ps ∧ cl' = cl_with_args (pre ++ mid ++ tail) cl ∧
      fds_typed ps mid ∧ opened w (live_fds (raw_fds ps mid)) w' ∧
      match r with
      | Next s => s = (cl', w') ∧ marshalled ps us mid
      | Break _ s => s = (cl', w')
      end.
Proof.
  induction ps as [|[t b] ps IH]; intros pre us utail tail cl w Ha Hd Hlen Ht.
  { destruct us; [|done]. eexists. split; [done|]. exists [], cl, w.
    split_and!; try done; [symmetry; by apply cl_with_args_self|by apply opened_nil]. }
  destruct us as [|a us]; [done|]. destruct Ht as [Ht Hts]. cbn [clear_args app] in Ha.
  destruct (drop_eq_cons _ _ _ _ Hd) as [Hu Hd'].
  destruct (marshal_step uargs cl pre a _ _ t b w Ha Hu Ht eq_refl) as (r&Hr&Hpost).
  cbn [for_list]. rewrite Hr. cbn [mbind option_bind]. destruct r as [[cl1 w1]|e [cl1 w1]].
  - destruct Hpost as (a'&->&Hm&Hop). rewrite <- (length_snoc pre a') in *.
    destruct (IH (pre ++ [a']) us utail tail
      (cl_with_args (pre ++ a' :: clear_args ps us ++ tail) cl) w1) as (r&->&Hr'); try done.
    { cbn. by rewrite <- app_assoc. }
    { cbn in Hlen. lia. }
    eexists. split; [done|]. destruct Hr' as (mid&cl'&w'&Hl&Hcl&Hf&Hop'&Hr').
    exists (a' :: mid), cl', w'. split_and!.
    + cbn. by rewrite Hl.
    + rewrite Hcl, <- app_assoc. done.
    + split; [|done]. by eapply marshalled_fds.
    + rewrite (raw_fds_cons (t, b) ps a' mid). unfold live_fds in *. rewrite filter_app. eapply opened_app; [|done].
      destruct Hop as (?&Hall&?). fold (live_fds (raw_fds [(t, b)] [a'])).
      rewrite live_fds_pos; [done|]. eapply Forall_impl; [done|]. cbn. lia.
    + destruct r; [|done]. by destruct Hr' as [-> ?].
  - destruct Hpost as [-> E]. eexists. split; [done|].
    exists (clear_args ((t, b) :: ps) (a :: us)), cl, w1. split_and!; try done.
    + by rewrite length_clear_args.
    + symmetry. by apply cl_with_args_self.
    + apply cleared_fds_typed. cbn in *. lia.
    + rewrite live_cleared. by apply opened_nil.
Qed.

Lemma marshalled_app ps us mid tail : marshalled ps us mid → marshalled ps us (mid ++ tail).
Proof.
  revert us mid. induction ps as [|[t b] ps IH]; intros [|a us] [|a' mid] Hm; try done.
  destruct Hm. split; auto.
Qed.

Lemma clear_args_app ps us tail :
  length us = length ps → clear_args ps (us ++ tail) = clear_args ps us ++ tail.
Proof.
  revert us. induction ps as [|[t b] ps IH]; intros [|a us] Hl; try done.
  cbn. by rewrite IH by (cbn in Hl; lia).
Qed.

Lemma init_spec args message (w : W) :
  let ps := parse_signature (msg_signature message) in
  (length ps <= length args)%nat → (length ps <= WL_CLOSURE_MAX_ARGS)%nat →
  ∃ tail, wl_closure_init message 0 (Some args) w =
    Some (match os_alloc sizeof_closure w with
          | (None, w) => (Fail ENOMEM, w)
          | (Some _, w) =>
              (Ret (mk_closure (length ps) message 0 0
                      (clear_args ps (take (length ps) args) ++ tail), 0%nat), w)
          end).
Proof.
  intros ps Hlen Hmax. eexists. unfold wl_closure_init. rewrite arg_count_parse. fold ps.
  rewrite decide_False by lia. cbn [Z.eqb]. change (u64 (closure_alloc_size 0 0)) with sizeof_closure.
  destruct (os_alloc sizeof_closure w) as [[junk|] w1]; [|done].
  rewrite decide_False by lia. cbn [mbind option_bind].
  rewrite clear_fds_spec; [|done|cbn [cl_count cl_args]; rewrite length_app, length_take; lia].
  cbn [mbind option_bind]. unfold cl_with_args, cl_signature.
  cbn [cl_message cl_args cl_count cl_opcode cl_sender_id]. fold ps.
  by rewrite clear_args_app by (rewrite length_take; lia).
Qed.

(** [wl_closure_marshal] returns a well-typed closure that owns exactly the
    descriptors it opened, or fails and leaves no descriptor open. *)
Lemma marshal_spec sender opcode args message (w : W) :
  let ps := parse_signature (msg_signature message) in
  (length ps <= length args)%nat → user_args ps (take (length ps) args) →
  ∃ r w', wl_closure_marshal heap sender opcode args message w = Some (r, w') ∧
    match r with
    | Ret cl => cl_message cl = message ∧ cl_sender_id cl = o_id sender ∧ cl_opcode cl = opcode ∧
        closure_fds_ok cl ∧ marshalled ps (take (length ps) args) (cl_args cl) ∧
        opened w (closure_fds cl) w'
    | Fail _ => open_fds w' = open_fds w
    end.
Proof.
  intros ps Hlen Ht. unfold wl_closure_marshal.
  destruct (decide (WL_CLOSURE_MAX_ARGS < length ps)%nat) as [Hmax|Hmax].
  { unfold wl_closure_init. rewrite arg_count_parse. fold ps.
    rewrite decide_True by done. by eexists _, _. }
  destruct (init_spec args message w Hlen) as [tail Hi]; [fold ps; lia|]. fold ps in Hi.
  pose proof (os_alloc_fds sizeof_closure w) as Ew. rewrite Hi. cbn [mbind option_bind].
  destruct (os_alloc sizeof_closure w) as [[junk|] w1]; cbn [snd] in Ew; [|by eexists _, _].
  set (cl0 := mk_closure _ _ _ _ _). rewrite for_args_parse by done. fold ps.
  destruct (marshal_loop_spec args ps [] (take (length ps) args) (drop (length ps) args) tail cl0 w1)
    as (r&Hr&mid&cl'&w'&Hl&Hcl&Hf&Hop&Hpost); try done.
  { by rewrite take_drop. }
  { rewrite length_take. lia. }
  cbn [length] in Hr. rewrite Hr. cbn [mbind option_bind app] in *.
  assert (Hok : closure_fds_ok cl').
  { subst cl'. split; [done|]. by apply fds_typed_app. }
  assert (Hfds : closure_fds cl' = live_fds (raw_fds ps mid)).
  { subst cl'. unfold closure_fds. cbn. fold ps. by rewrite live_raw_app. }
  rewrite <- Hfds in Hop. apply (opened_frame w w1 _ w' Ew) in Hop.
  destruct r as [s|e s].
  - destruct Hpost as [-> Hm]. eexists _, _. split; [done|]. subst cl'.
    split_and!; try done. by apply marshalled_app.
  - subst s. rewrite destroy_closure_spec by done. cbn [mbind option_bind].
    eexists _, _. split; [done|]. by apply opened_close.
Qed.

(** The closure built is one that can be serialised. *)
Lemma marshalled_typed ps us mid :
  user_args ps us → marshalled ps us mid → args_typed heap ps mid.
Proof.
  revert us mid. induction ps as [|[t b] ps IH]; intros [|a us] [|a' mid] Hu Hm; try done.
  destruct Hu as [Hu Hus], Hm as [Hm Hms]. split; [|by eapply IH].
  destruct t; cbn in *; try by subst.
  - by destruct Hm as [-> _].
  - by destruct Hm as [-> _].
  - destruct Hm as (o&object&_&_&_&->). by eexists.
  - by destruct Hm as [-> _].
  - destruct Hm as (fd&->&_). by eexists.
Qed.
End marshal.

(** ** Sending *)

(** Clearing the descriptors does not change the bytes of the message. *)
Section cleared.
Context (heap : Z → option wl_object).

Lemma cleared_typed ps args : args_typed heap ps args → args_typed heap ps (clear_args ps args).
Proof.
  revert args. induction ps as [|[t b] ps IH]; intros [|a args] Ht; try done.
  destruct Ht as [Ht Hts]. split; [|by apply IH].
  destruct (decide (t = WL_ARG_FD)) as [->|Hne]; [by eexists|]. by rewrite is_fd_false.
Qed.

Lemma cleared_words ps args : args_words ps (clear_args ps args) = args_words ps args.
Proof.
  revert args. induction ps as [|[t b] ps IH]; intros [|a args]; try done.
  cbn [clear_args args_words]. rewrite IH. f_equal.
  destruct (decide (t = WL_ARG_FD)) as [->|Hne]; [done|]. by rewrite is_fd_false.
Qed.

Lemma cleared_wire P ps args bs :
  args_typed heap ps args → wire_args heap P ps (clear_args ps args) bs →
  wire_args heap P ps args bs.
Proof.
  revert args bs. induction ps as [|[t b] ps IH]; intros [|a args] bs Ht Hw; try done.
  destruct Ht as [Ht Hts], Hw as (b1&b2&->&Hw&Hws). exists b1, b2.
  split_and!; [done| |by apply IH].
  destruct (decide (t = WL_ARG_FD)) as [->|Hne]; [|by rewrite is_fd_false in Hw].
  by destruct Ht as [h ->].
Qed.

Lemma typed_fds_typed ps args : args_typed heap ps args → fds_typed ps args.
Proof.
  revert args. induction ps as [|[t b] ps IH]; intros [|a args] Ht; try done.
  destruct Ht as [Ht Hts]. split; [by intros ->|auto].
Qed.
End cleared.

Section sending.
Context {W : Type} `{OsSockLaws W} (m : Z) (w0 : W) (Hm : 12 <= m <= 30) (fuel : nat).
Hypothesis (Hfuel : fuel_ok m w0 fuel).

Definition log_add (bytes fds : list Z) (l : log) : log :=
  mk_log (log_out l ++ bytes) (log_fds l ++ fds) (log_in l) (log_ok l).

Lemma log_add_nil l : log_add [] [] l = l.
Proof. unfold log_add. rewrite !app_nil_r. by destruct l. Qed.

Lemma session_inv_frame c (w w' : W) l :
  os_frame w w' → session_inv m w0 c w l → session_inv m w0 c w' l.
Proof.
  intros [[Hr Hb] (Hs&Hf&_)] (Hinv&Hbud&Ho&Hfo&Hi). split_and!; try done.
  - lia.
  - unfold out_stream in *. by rewrite Hs.
  - unfold out_fd_stream in *. by rewrite Hf.
  - by rewrite Hr.
Qed.

Definition int32_ok (fd : Z) : Prop := - 2 ^ 31 <= fd < 2 ^ 31.

(** The state in which [copy_fds_to_connection] leaves the arguments [post]:
    the connection has taken [sent], the closure still holds [rest]. *)
Definition fds_moved (ps : list (wl_arg_type * bool)) (post mid : list wl_argument)
    (sent rest : list Z) : Prop :=
  length mid = length post ∧ raw_fds ps post = sent ++ rest ∧
  live_fds (raw_fds ps mid) = live_fds rest ∧ fds_typed ps mid.

Lemma copy_fds_skip i t b (s : wl_closure * wl_connection * W) :
  t ≠ WL_ARG_FD → copy_fds_body fuel i (Some t) b s = Some (Next s).
Proof. intros Hne. destruct s as [[cl c] w]. cbn. by rewrite is_fd_false. Qed.

Lemma copy_fds_loop_spec ps : ∀ pre post cl c (w : W) l,
  session_inv m w0 c w l → cl_args cl = pre ++ post → fds_typed ps post →
  Forall int32_ok (raw_fds ps post) →
  ∃ r, for_list (copy_fds_body fuel) ps (length pre) (cl, c, w) = Some r ∧
    ∃ mid sent rest c' w', fds_moved ps post mid sent rest ∧
      session_inv m w0 c' w' (log_add [] sent l) ∧
      match r with
      | Next s => s = (cl_with_args (pre ++ mid) cl, c', w') ∧ rest = [] ∧ mid = clear_args ps post
      | Break _ s => s = (cl_with_args (pre ++ mid) cl, c', w')
      end.
Proof.
  induction ps as [|[t b] ps IH]; intros pre post cl c w l Hinv Ha Ht Hr.
  { eexists. split; [done|]. exists post, [], [], c, w. rewrite log_add_nil.
    split_and!; try done. by rewrite cl_with_args_self. }
  destruct post as [|a post]; [done|]. destruct Ht as [Hfd Ht]. cbn [for_list].
  rewrite (raw_fds_cons (t, b) ps a post) in Hr. apply Forall_app in Hr as [Hr1 Hr2].
  destruct (decide (t = WL_ARG_FD)) as [->|Hne].
  - destruct Hfd as [h ->]; [done|]. cbn [copy_fds_body].
    change (is_fd (Some WL_ARG_FD)) with true. rewrite (cl_arg_middle cl pre _ post Ha).
    cbn [get_h mbind option_bind].
    destruct (put_fd_step m w0 Hm fuel c w l Hfuel Hinv h) as (r&c1&w1&->&Hinv1).
    { by apply Forall_cons in Hr1 as [? _]. }
    cbn [mbind option_bind]. destruct r as [u|e]; cbn [is_ret] in Hinv1.
    + rewrite (cl_set_arg_middle cl pre _ (arg_h (-1)) post Ha), <- (length_snoc pre (arg_h (-1))).
      edestruct (IH (pre ++ [arg_h (-1)]) post) as (r&->&mid&sent&rest&c'&w'&Hmv&Hinv'&Hpost);
        [exact Hinv1| |done..|]; [cbn; by rewrite <- app_assoc|].
      eexists. split; [done|]. exists (arg_h (-1) :: mid), (h :: sent), rest, c', w'.
      destruct Hmv as (Hl&Hraw&Hlive&Htm). rewrite <- app_assoc in Hpost. split_and!.
      * split_and!; [by cbn; rewrite Hl|by cbn; rewrite Hraw| |split; [by eexists|done]].
        rewrite <- Hlive. apply (filter_cons_False (λ fd, fd ≠ -1)). tauto.
      * unfold log_add in *. cbn in Hinv'. by rewrite <- app_assoc in Hinv'.
      * destruct r; [|done]. by destruct Hpost as (->&->&->).
    + eexists. split; [done|]. exists (arg_h h :: post), [], (h :: raw_fds ps post), c1, w1.
      rewrite log_add_nil, cl_with_args_self by done. split_and!; [|done..].
      split_and!; try done. split; [by eexists|done].
  - rewrite copy_fds_skip by done. cbn [mbind option_bind]. rewrite <- (length_snoc pre a).
    edestruct (IH (pre ++ [a]) post cl c w l) as (r&->&mid&sent&rest&c'&w'&Hmv&Hinv'&Hpost);
      [done|by rewrite <- app_assoc|done..|].
    eexists. split; [done|]. exists (a :: mid), sent, rest, c', w'.
    destruct Hmv as (Hl&Hraw&Hlive&Htm). rewrite <- app_assoc in Hpost. split_and!; try done.
    + split_and!; [by cbn; rewrite Hl|by destruct t|by destruct t|by split].
    + destruct r; [|done]. destruct Hpost as (->&->&->). cbn [clear_args].
      by rewrite is_fd_false.
Qed.

Lemma copy_fds_spec cl c (w : W) l :
  session_inv m w0 c w l → closure_fds_ok cl →
  Forall int32_ok (raw_fds (parse_signature (cl_signature cl)) (cl_args cl)) →
  let ps := parse_signature (cl_signature cl) in
  ∃ r, copy_fds_to_connection fuel cl c w = Some r ∧
    ∃ mid sent rest c' w', fds_moved ps (cl_args cl) mid sent rest ∧
      session_inv m w0 c' w' (log_add [] sent l) ∧
      match r with
      | Next s => s = (cl_with_args mid cl, c', w') ∧ rest = [] ∧ mid = clear_args ps (cl_args cl)
      | Break _ s => s = (cl_with_args mid cl, c', w')
      end.
Proof.
  intros Hinv [_ Ht] Hr ps. unfold copy_fds_to_connection.
  rewrite for_args_parse by apply arg_count_parse.
  by apply (copy_fds_loop_spec ps [] (cl_args cl) cl c w l).
Qed.

(** What sending a closure does: the connection takes the descriptors in order,
    the closure keeps those it could not hand over, and on success the bytes of
    the message, padded with bytes that satisfy [P], follow what was accepted
    before. *)
Definition sent_post (heap : Z → option wl_object) (P : Z → Prop) (cl : wl_closure) (l : log)
    (r : cres unit) (cl' : wl_closure) (c' : wl_connection) (w' : W) : Prop :=
  ∃ bytes sent rest,
    session_inv m w0 c' w' (log_add bytes sent l) ∧
    raw_fds (parse_signature (cl_signature cl)) (cl_args cl) = sent ++ rest ∧
    closure_fds_ok cl' ∧ closure_fds cl' = live_fds rest ∧
    match r with
    | Ret _ => rest = [] ∧ message_of heap P cl bytes
    | Fail _ => bytes = []
    end.

Context (heap : Z → option wl_object).

(** What both functions assume of the closure. *)
Definition sendable (cl : wl_closure) : Prop :=
  closure_wf heap cl ∧ closure_words cl < 2 ^ 28 ∧
  Forall int32_ok (raw_fds (parse_signature (cl_signature cl)) (cl_args cl)).

Lemma sendable_cleared P cl mid :
  sendable cl → mid = clear_args (parse_signature (cl_signature cl)) (cl_args cl) →
  let cl' := cl_with_args mid cl in
  closure_wf heap cl' ∧ closure_words cl' = closure_words cl ∧
  (∀ bs, message_of heap P cl' bs → message_of heap P cl bs).
Proof.
  intros ([Hc Ht]&_&_) -> cl'. split_and!.
  - split; [done|]. by apply cleared_typed.
  - unfold closure_words. cbn. by rewrite cleared_words.
  - intros bs (body&->&Hw). exists body.
    change (parse_signature (cl_signature cl')) with (parse_signature (cl_signature cl)) in *.
    split; [|by apply cleared_wire].
    unfold closure_words. cbn. by rewrite cleared_words.
Qed.

(** The part the two functions share, after the descriptors have been copied. *)
Lemma transmit_spec P cl c (w : W) l (buf : list Z) :
  closure_wf heap cl → closure_words cl < 2 ^ 28 → session_inv m w0 c w l →
  Z.of_nat (length buf) = closure_words cl * 4 → Forall P buf →
  ∃ bytes, serialize_closure heap cl buf (closure_words cl) =
      Some (Ret (4 * closure_words cl), bytes) ∧ (4 * closure_words cl <? 0) = false ∧
    read_range bytes 0 (4 * closure_words cl) = Some bytes ∧ message_of heap P cl bytes ∧
    ∃ r c' w', wl_connection_queue fuel c bytes w = Some (r, c', w') ∧
      session_inv m w0 c' w' (if is_ret r then log_add bytes [] l else l).
Proof.
  intros Hwf Hsz Hinv Hlen HP.
  destruct (serialize_spec heap P cl buf Hwf) as (bytes&Hser&Hl&Hmsg); [lia|done..|].
  assert (0 <= closure_words cl).
  { unfold closure_words. pose proof (args_words_pos (parse_signature (cl_signature cl)) (cl_args cl)).
    lia. }
  exists bytes. split_and!; [done|by apply Z.ltb_ge; lia| |done|].
  - rewrite read_range_Some by lia. by rewrite drop_0, take_ge by lia.
  - destruct (queue_step m w0 Hm fuel c w l Hfuel Hinv bytes) as (r&c'&w'&->&Hinv'); [lia|].
    eexists _, _, _. split; [done|]. unfold log_add. by rewrite app_nil_r.
Qed.

Lemma fds_moved_closure cl mid sent rest :
  closure_fds_ok cl →
  fds_moved (parse_signature (cl_signature cl)) (cl_args cl) mid sent rest →
  raw_fds (parse_signature (cl_signature cl)) (cl_args cl) = sent ++ rest ∧
  closure_fds_ok (cl_with_args mid cl) ∧ closure_fds (cl_with_args mid cl) = live_fds rest.
Proof. intros [Hc _] (_&Hraw&Hlive&Ht). by split_and!. Qed.

Lemma sendable_fds cl : sendable cl → closure_fds_ok cl.
Proof. intros ([Hc Ht]&_&_). split; [done|]. by eapply typed_fds_typed. Qed.

Lemma log_add_add l b1 f1 b2 f2 :
  log_add b2 f2 (log_add b1 f1 l) = log_add (b1 ++ b2) (f1 ++ f2) l.
Proof. unfold log_add. cbn. by rewrite !app_assoc. Qed.

Lemma set_want_flush_inv c (w : W) l f :
  session_inv m w0 c w l → session_inv m w0 (c_set_want_flush f c) w l.
Proof. done. Qed.

(** Before the buffer is filled: a failed copy or a failed allocation. *)
Lemma sent_post_fail P cl mid sent rest c (w : W) l e :
  sendable cl → fds_moved (parse_signature (cl_signature cl)) (cl_args cl) mid sent rest →
  session_inv m w0 c w (log_add [] sent l) →
  sent_post heap P cl l (Fail e) (cl_with_args mid cl) c w.
Proof.
  intros Hs%sendable_fds Hmv Hinv. destruct (fds_moved_closure cl mid sent rest Hs Hmv) as (?&?&?).
  by exists [], sent, rest.
Qed.

Lemma sent_post_done P cl mid sent c (w : W) l (r : cres unit) bytes :
  sendable cl → fds_moved (parse_signature (cl_signature cl)) (cl_args cl) mid sent [] →
  message_of heap P cl bytes →
  session_inv m w0 c w (if is_ret r then log_add bytes [] (log_add [] sent l)
                        else log_add [] sent l) →
  sent_post heap P cl l r (cl_with_args mid cl) c w.
Proof.
  intros Hs%sendable_fds Hmv Hmsg Hinv.
  destruct (fds_moved_closure cl mid sent [] Hs Hmv) as (?&?&?).
  destruct r; cbn [is_ret] in Hinv; [|by exists [], sent, []].
  exists bytes, sent, []. rewrite log_add_add, app_nil_r in Hinv. by split_and!.
Qed.

(** [wl_closure_send] pads with zeros. *)
Lemma send_spec cl c (w : W) l :
  sendable cl → session_inv m w0 c w l →
  ∃ r cl' c' w', wl_closure_send heap fuel cl c w = Some (r, cl', c', w') ∧
    sent_post heap (λ b, b = 0) cl l r cl' c' w'.
Proof.
  intros Hs Hinv. unfold wl_closure_send. pose proof Hs as (Hwf&Hsz&Hr).
  destruct (copy_fds_spec cl c w l Hinv (sendable_fds cl Hs) Hr)
    as (r&->&mid&sent&rest&c1&w1&Hmv&Hinv1&Hpost).
  cbn [mbind option_bind]. destruct r as [s|e s].
  2:{ subst s. eexists _, _, _, _. split; [done|]. by eapply sent_post_fail. }
  destruct Hpost as (->&->&Hmid). set (cl1 := cl_with_args mid cl).
  destruct (sendable_cleared (λ b, b = 0) cl mid Hs Hmid) as (Hwf1&Hw1&Hmsg1).
  fold cl1 in Hwf1, Hw1, Hmsg1. rewrite (buffer_size_spec heap) by (done || lia). cbn [mbind option_bind].
  pose proof (os_alloc_frame (closure_words cl1 * sizeof_u32) w1) as Hfr.
  destruct (os_alloc (closure_words cl1 * sizeof_u32) w1) as [[junk|] w2]; cbn [snd] in Hfr;
    apply (session_inv_frame _ _ _ _ Hfr) in Hinv1.
  2:{ eexists _, _, _, _. split; [done|]. by eapply sent_post_fail. }
  destruct (transmit_spec (λ b, b = 0) cl1 c1 w2 (log_add [] sent l)
    (replicate (Z.to_nat (closure_words cl1 * sizeof_u32)) 0))
    as (bytes&->&Hneg&Hrd&Hmsg&r&c2&w3&Hq&Hinv2); try done; try lia.
  { rewrite length_replicate. unfold sizeof_u32, closure_words.
    pose proof (args_words_pos (parse_signature (cl_signature cl1)) (cl_args cl1)). lia. }
  { by apply Forall_replicate. }
  cbn [mbind option_bind]. rewrite Hneg, Hrd. cbn [mbind option_bind].
  unfold wl_connection_write. rewrite Hq. cbn [mbind option_bind].
  destruct r as [u|e]; eexists _, _, _, _; (split; [done|]);
    eapply sent_post_done; eauto.
Qed.

(** [wl_closure_queue] pads with whatever the heap held. *)
Lemma queue_closure_spec cl c (w : W) l :
  sendable cl → session_inv m w0 c w l →
  ∃ r cl' c' w', wl_closure_queue heap fuel cl c w = Some (r, cl', c', w') ∧
    sent_post heap (λ _, True) cl l r cl' c' w'.
Proof.
  intros Hs Hinv. unfold wl_closure_queue. pose proof Hs as (Hwf&Hsz&Hr).
  destruct (copy_fds_spec cl c w l Hinv (sendable_fds cl Hs) Hr)
    as (r&->&mid&sent&rest&c1&w1&Hmv&Hinv1&Hpost).
  cbn [mbind option_bind]. destruct r as [s|e s].
  2:{ subst s. eexists _, _, _, _. split; [done|]. by eapply sent_post_fail. }
  destruct Hpost as (->&->&Hmid). set (cl1 := cl_with_args mid cl).
  destruct (sendable_cleared (λ _, True) cl mid Hs Hmid) as (Hwf1&Hw1&Hmsg1).
  fold cl1 in Hwf1, Hw1, Hmsg1. rewrite (buffer_size_spec heap) by (done || lia). cbn [mbind option_bind].
  pose proof (os_alloc_frame (closure_words cl1 * sizeof_u32) w1) as Hfr.
  destruct (os_alloc (closure_words cl1 * sizeof_u32) w1) as [[junk|] w2]; cbn [snd] in Hfr;
    apply (session_inv_frame _ _ _ _ Hfr) in Hinv1.
  2:{ eexists _, _, _, _. split; [done|]. by eapply sent_post_fail. }
  destruct (transmit_spec (λ _, True) cl1 c1 w2 (log_add [] sent l)
    (malloc_block (closure_words cl1 * sizeof_u32) junk))
    as (bytes&->&Hneg&Hrd&Hmsg&r&c2&w3&Hq&Hinv2); try done; try lia.
  { rewrite length_malloc_block. unfold sizeof_u32, closure_words.
    pose proof (args_words_pos (parse_signature (cl_signature cl1)) (cl_args cl1)). lia. }
  { by apply Forall_true. }
  cbn [mbind option_bind]. rewrite Hneg, Hrd. cbn [mbind option_bind].
  rewrite Hq. cbn [mbind option_bind]. eexists _, _, _, _. split; [done|].
  eapply sent_post_done; eauto.
Qed.
End sending.

(** *** Messages without descriptors *)

(** No argument is a descriptor; the system is then only asked for the memory of
    the closure. *)
Definition plain (ps : list (wl_arg_type * bool)) : Prop := Forall (λ p, p.1 ≠ WL_ARG_FD) ps.

Lemma plain_raw ps args : plain ps → raw_fds ps args = [].
Proof.
  intros Hp. revert args. induction Hp as [|[t b] ps Ht _ IH]; intros [|a args]; cbn; try done; [by destruct t|].
  destruct t; try done; apply IH.
Qed.

Lemma plain_clear ps args : plain ps → clear_args ps args = args.
Proof.
  intros Hp. revert args. induction Hp as [|[t b] ps Ht _ IH]; intros [|a args]; cbn; try done.
  by rewrite is_fd_false, IH.
Qed.

Lemma plain_fds_typed ps args : plain ps → (length ps <= length args)%nat → fds_typed ps args.
Proof.
  intros Hp. revert args. induction Hp as [|[t b] ps Ht _ IH]; intros [|a args] Hl; cbn in *; try done; [lia|].
  split; [done|]. apply IH. lia.
Qed.

Section plain.
Context {W : Type} `{OsMem W} `{OsFd W} (heap : Z → option wl_object).

Lemma plain_step uargs cl pre a post t b (w : W) :
  t ≠ WL_ARG_FD → cl_args cl = pre ++ a :: post → uargs !! length pre = Some a → user_typed heap t a →
  ∃ r, marshal_body heap uargs (length pre) (Some t) b (cl, w) = Some r ∧
    match r with
    | Next s => ∃ a', s = (cl_with_args (pre ++ a' :: post) cl, w) ∧ marshalled_arg heap t b a a'
    | Break _ s => s = (cl, w)
    end.
Proof.
  intros Hfd Ha Hu Ht. assert (Hself : cl_with_args (pre ++ a :: post) cl = cl) by by apply cl_with_args_self.
  unfold marshal_body. rewrite Hu. destruct t; cbn [user_typed arg_typed] in Ht; [..|done].
  1-3: eexists; split; [done|]; exists a; by rewrite Hself.
  - destruct Ht as (v&->&_). cbn. eexists. split; [done|].
    destruct (negb b && bool_decide (v = None)) eqn:Hn; [done|]. exists (arg_s v). rewrite Hself.
    split_and!; [done|done|]. intros [= ->]. by destruct b.
  - destruct Ht as (o&->&_). cbn. eexists. split; [done|].
    destruct (negb b && (o =? 0)) eqn:Hn; [done|]. exists (arg_o o). rewrite Hself.
    split_and!; [done|done|]. intros [= ->]. by destruct b.
  - destruct Ht as (o&->&Ho). cbn. destruct (Z.eqb_spec o 0) as [->|Hne]; [by eexists|].
    destruct Ho as [?|[object Hob]]; [done|]. rewrite Hob. cbn. eexists. split; [done|].
    eexists. split; [by erewrite cl_set_arg_middle|by eexists _, _].
  - destruct Ht as [v ->]. cbn. eexists. split; [done|].
    case_bool_decide as Hn; [done|]. exists (arg_a v). rewrite Hself. split_and!; [done|done|congruence].
Qed.

Lemma plain_loop uargs ps : plain ps → ∀ pre us utail tail cl (w : W),
  cl_args cl = pre ++ us ++ tail → drop (length pre) uargs = us ++ utail → length us = length ps → user_args heap ps us →
  ∃ r, for_list (marshal_body heap uargs) ps (length pre) (cl, w) = Some r ∧
    ∃ mid, length mid = length ps ∧
      match r with
      | Next s => s = (cl_with_args (pre ++ mid ++ tail) cl, w) ∧ marshalled heap ps us mid
      | Break _ s => s = (cl_with_args (pre ++ mid ++ tail) cl, w)
      end.
Proof.
  induction 1 as [|[t b] ps Hfd _ IH]; intros pre us utail tail cl w Ha Hd Hlen Ht.
  { destruct us; [|done]. eexists. split; [done|]. exists []. by rewrite cl_with_args_self. }
  destruct us as [|a us]; [done|]. destruct Ht as [Ht Hts]. cbn [app] in Ha, Hd.
  destruct (drop_eq_cons _ _ _ _ Hd) as [Hu Hd'].
  destruct (plain_step uargs cl pre a (us ++ tail) t b w Hfd Ha Hu Ht) as (r&Hr&Hpost).
  cbn [for_list]. rewrite Hr. cbn [mbind option_bind]. destruct r as [s|e s].
  - destruct Hpost as (a'&->&Hm). rewrite <- (length_snoc pre a') in *.
    destruct (IH (pre ++ [a']) us utail tail (cl_with_args (pre ++ a' :: us ++ tail) cl) w) as (r&->&mid&Hl&Hr'); try done.
    { cbn. by rewrite <- app_assoc. } { cbn in Hlen. lia. }
    eexists. split; [done|]. exists (a' :: mid). split; [cbn; by rewrite Hl|]. rewrite <- app_assoc in Hr'.
    destruct r; [|done]. by destruct Hr' as [-> ?].
  - subst s. eexists. split; [done|]. exists (a :: us). by rewrite cl_with_args_self.
Qed.

Lemma marshalled_words ps us mid : marshalled heap ps us mid → args_words ps mid = args_words ps us.
Proof.
  revert us mid. induction ps as [|[t b] ps IH]; intros [|a us] [|a' mid] Hm; try done.
  destruct Hm as [Hm Hms]. cbn [args_words]. rewrite (IH us mid Hms). f_equal.
  destruct t; cbn in Hm; try by subst. all: first [by destruct Hm as [-> _]|by destruct Hm as (?&?&->&_&_&->)|done].
Qed.

Lemma args_words_app ps args tail : length args = length ps → args_words ps (args ++ tail) = args_words ps args.
Proof. revert args. induction ps as [|[t b] ps IH]; intros [|a args] Hl; try done. cbn in *. rewrite IH; lia. Qed.

(** A message without descriptors whose arguments are of their types and fit
    is marshalled into a closure that can be sent, or refused. *)
Lemma plain_marshal sender opcode args message (w : W) :
  let ps := parse_signature (msg_signature message) in
  plain ps → (length ps <= length args)%nat → user_args heap ps (take (length ps) args) →
  2 + args_words ps (take (length ps) args) < 2 ^ 28 →
  ∃ r w', wl_closure_marshal heap sender opcode args message w = Some (r, w') ∧
    (w' = w ∨ w' = snd (os_alloc sizeof_closure w)) ∧ match r with Ret cl => sendable heap cl | Fail _ => True end.
Proof.
  intros ps Hp Hlen Ht Hw. unfold wl_closure_marshal.
  destruct (decide (WL_CLOSURE_MAX_ARGS < length ps)%nat) as [Hmax|Hmax].
  { unfold wl_closure_init. rewrite arg_count_parse. fold ps. rewrite decide_True by done. eexists _, _. split; [done|]. by split; [left|]. }
  destruct (init_spec args message w Hlen) as [tail Hi]; [fold ps; lia|]. fold ps in Hi. rewrite Hi. cbn [mbind option_bind].
  destruct (os_alloc sizeof_closure w) as [[junk|] w1]; cbn [snd]; [|eexists _, _; split; [done|]; by split; [right|]].
  rewrite plain_clear by done. set (cl0 := mk_closure _ _ _ _ _). rewrite for_args_parse by done. fold ps.
  assert (length (take (length ps) args) = length ps) as Hlt by (rewrite length_take; lia).
  destruct (plain_loop args ps Hp [] (take (length ps) args) (drop (length ps) args) tail cl0 w1) as (r&Hr&mid&Hl&Hpost); try done.
  { by rewrite take_drop. }
  cbn [length] in Hr. rewrite Hr. cbn [mbind option_bind app] in *. destruct r as [s|e s].
  - destruct Hpost as [-> Hm]. eexists _, _. split; [done|]. split; [by right|]. split_and!.
    + split; [done|]. cbn. fold ps. pose proof (marshalled_typed heap ps _ _ Ht (marshalled_app heap ps _ _ tail Hm)). done.
    + assert (args_words ps (mid ++ tail) = args_words ps (take (length ps) args)) as E by (by rewrite args_words_app, (marshalled_words ps _ _ Hm)).
      unfold closure_words. change (2 + args_words ps (mid ++ tail) < 2 ^ 28). by rewrite E.
    + cbn. fold ps. by rewrite plain_raw.
  - subst s. rewrite destroy_closure_spec.
    + unfold closure_fds. cbn. fold ps. rewrite plain_raw by done. cbn. eexists _, _. split; [done|]. by split; [right|].
    + split; [done|]. change (fds_typed ps (mid ++ tail)). apply plain_fds_typed; [done|]. rewrite length_app, Hl. apply Nat.le_add_r.
Qed.
End plain.

(** ** Sending leaves the input alone *)

Section input.
Context {W : Type} `{OsMem W} `{OsFd W} `{OsSock W}.


Lemma flush_loop_input fuel c (w : W) r c' w' : flush_loop fuel c w = Some (r, c', w') → c_in c' = c_in c.
Proof.
  revert c w. induction fuel as [|fuel IH]; intros c w E; cbn [flush_loop] in E; [done|]. case_step_in E; [by simplify_eq|].
  destruct (build_cmsg (c_fds_out c)) as [[ctl clen]|]; [|done]. cbn [mbind option_bind] in E. 
  destruct (if CLEN <=? clen then _ else _) as [iov|]; [|done]. cbn [mbind option_bind] in E. 
  destruct (gather _ iov) as [bytes|]; [|done]. cbn [mbind option_bind] in E.
  destruct (sendmsg_retry _ _ _ _ _) as [[[len|e] w1]|]; [..|done]; cbn [mbind option_bind] in E; [|by simplify_eq].
  destruct (close_fds _ _ w1) as [[b w2]|]; [|done]. cbn [mbind option_bind] in E. by apply IH in E.
Qed.
Lemma flush_input fuel c (w : W) r c' w' : wl_connection_flush fuel c w = Some (r, c', w') → c_in c' = c_in c.
Proof.
  unfold wl_connection_flush. destruct (negb _); [by intros [= _ <- _]|]. destruct (flush_loop fuel c w) as [[[r1 c1] w1]|] eqn:E; [|done].
  apply flush_loop_input in E. cbn [mbind option_bind]. destruct r1; by intros [= _ <- _].
Qed.
Lemma force_flush_input (b : bool) fuel c (w : W) r c' w' : (if b then force_flush fuel c w else Some (Ret tt, c, w)) = Some (r, c', w') → c_in c' = c_in c.
Proof.
  destruct b; [|by intros [= _ <- _]]. unfold force_flush. destruct (wl_connection_flush _ _ w) as [[[r1 c1] w1]|] eqn:E; [|done].
  apply flush_input in E. by intros [= _ <- _].
Qed.
Lemma queue_input fuel c data (w : W) r c' w' : wl_connection_queue fuel c data w = Some (r, c', w') → c_in c' = c_in c.
Proof.
  unfold wl_connection_queue. destruct (if _ <? _ then force_flush fuel c w else _) as [[[r1 c1] w1]|] eqn:E; [|done]. apply force_flush_input in E as <-. cbn [mbind option_bind].
  destruct r1; [|by intros [= _ <- _]]. destruct (ring_buffer_ensure_space _ _ w1) as [[[r2 b2] w2]|]; [|done]. cbn [mbind option_bind].
  destruct r2; [|by intros [= _ <- _]]. destruct (ring_buffer_put _ data); [|done]. by intros [= _ <- _].
Qed.
Lemma write_input fuel c data (w : W) r c' w' : wl_connection_write fuel c data w = Some (r, c', w') → c_in c' = c_in c.
Proof.
  unfold wl_connection_write. destruct (wl_connection_queue _ _ _ w) as [[[r1 c1] w1]|] eqn:E; [|done]. apply queue_input in E as <-. destruct r1; by intros [= _ <- _].
Qed.
Lemma put_fd_input fuel c fd (w : W) r c' w' : wl_connection_put_fd fuel c fd w = Some (r, c', w') → c_in c' = c_in c.
Proof.
  unfold wl_connection_put_fd. destruct (if _ <=? _ then force_flush fuel c w else _) as [[[r1 c1] w1]|] eqn:E; [|done]. apply force_flush_input in E as <-. cbn [mbind option_bind].
  destruct r1; [|by intros [= _ <- _]]. destruct (ring_buffer_ensure_space _ _ w1) as [[[r2 b2] w2]|]; [|done]. cbn [mbind option_bind].
  destruct r2; [|by intros [= _ <- _]]. destruct (ring_buffer_put _ _); [|done]. by intros [= _ <- _].
Qed.
Lemma copy_fds_input fuel cl c (w : W) r : copy_fds_to_connection fuel cl c w = Some r →
  c_in (match r with Next s | Break _ s => s.1.2 end) = c_in c.
Proof.
  unfold copy_fds_to_connection. rewrite for_args_parse by apply arg_count_parse. generalize 0%nat as i, (parse_signature (cl_signature cl)) as ps. intros i ps. revert i cl c w.
  induction ps as [|[t b] ps IH]; intros i cl c w; cbn [for_list]; [by intros [= <-]|]. unfold copy_fds_body at 2.
  destruct (is_fd (Some t)); [|cbn [mbind option_bind]; apply IH]. destruct (cl_arg cl i ≫= get_h) as [fd|]; [|done]. cbn [mbind option_bind].
  destruct (wl_connection_put_fd fuel c fd w) as [[[r1 c1] w1]|] eqn:E; [|done]. apply put_fd_input in E as <-. cbn [mbind option_bind].
  destruct r1; [apply IH|by intros [= <-]].
Qed.
Lemma send_input heap fuel cl c (w : W) r cl' c' w' : wl_closure_send heap fuel cl c w = Some (r, cl', c', w') → c_in c' = c_in c.
Proof.
  unfold wl_closure_send. destruct (copy_fds_to_connection fuel cl c w) as [[[[cl1 c1] w1]|e [[cl1 c1] w1]]|] eqn:E; [..|done]; apply copy_fds_input in E; cbn in E; rewrite <- E; cbn [mbind option_bind].
  2: by intros [= _ _ <- _].
  destruct (buffer_size_for_closure cl1) as [n|]; [|done]. cbn [mbind option_bind]. destruct (os_alloc _ w1) as [[junk|] w2]; [|by intros [= _ _ <- _]].
  destruct (serialize_closure _ _ _ _) as [[[size|e] buffer]|]; [..|done]; cbn [mbind option_bind]; [|by intros [= _ _ <- _]].
  destruct (size <? 0); [by intros [= _ _ <- _]|]. destruct (read_range _ _ _) as [data|]; [|done]. cbn [mbind option_bind].
  destruct (wl_connection_write fuel c1 data w2) as [[[r3 c3] w3]|] eqn:Ew; [|done]. apply write_input in Ew as <-. by intros [= _ _ <- _].
Qed.
Lemma queue_closure_input heap fuel cl c (w : W) r cl' c' w' : wl_closure_queue heap fuel cl c w = Some (r, cl', c', w') → c_in c' = c_in c.
Proof.
  unfold wl_closure_queue. destruct (copy_fds_to_connection fuel cl c w) as [[[[cl1 c1] w1]|e [[cl1 c1] w1]]|] eqn:E; [..|done]; apply copy_fds_input in E; cbn in E; rewrite <- E; cbn [mbind option_bind].
  2: by intros [= _ _ <- _].
  destruct (buffer_size_for_closure cl1) as [n|]; [|done]. cbn [mbind option_bind]. destruct (os_alloc _ w1) as [[junk|] w2]; [|by intros [= _ _ <- _]].
  destruct (serialize_closure _ _ _ _) as [[[size|e] buffer]|]; [..|done]; cbn [mbind option_bind]; [|by intros [= _ _ <- _]].
  destruct (size <? 0); [by intros [= _ _ <- _]|]. destruct (read_range _ _ _) as [data|]; [|done]. cbn [mbind option_bind].
  destruct (wl_connection_queue fuel c1 data w2) as [[[r3 c3] w3]|] eqn:Ew; [|done]. apply queue_input in Ew as <-. by intros [= _ _ <- _].
Qed.
End input.
