(* ===== verification/WlDemarshal.v ===== *)
(** * Receiving a closure

    Models [wl_connection_demarshal] (wayland/build/src/connection.c, lines
    888-1074): the bytes of a message are copied out of the input ring and
    decoded by the signature; descriptors come from the ring of received
    descriptors, new ids are reserved in the object map.  Whatever the bytes,
    the decoder stays inside the message, and a failure closes the descriptors
    it had taken; the bytes [wl_closure_send] produced decode to the arguments
    they came from. *)

From stdpp Require Import strings.
From S2P Require Import Prelude Os OsSim WlOs WlRing WlConnection WlSession WlArray WlMap.
From S2P Require Import WlMessage WlClosure WlTransmit.
Open Scope Z_scope.

(** The word at index [p] of the message. *)
Definition get_u32 (buf : list Z) (p : Z) : option Z :=
  bs ← read_range buf (p * sizeof_u32) sizeof_u32;
  Some (le_combine bs).

(** The C string at a byte offset; [None] when no terminator follows. *)
Fixpoint c_str (bs : list Z) : option (list Z) :=
  match bs with
  | [] => None
  | b :: bs => if b =? 0 then Some [] else s ← c_str bs; Some (b :: s)
  end.

Section demarshal.
Context {W : Type} `{OsMem W} `{OsFd W}.

(** What the loop changes: the closure, the ring of descriptors received, the
    object map, [p] in words and the number of array headers used. *)
Record demarshal_state : Type := mk_demarshal {
  d_closure : wl_closure;
  d_fds_in : wl_ring_buffer;
  d_objects : wl_map;
  d_p : Z;
  d_arrays : nat;
  d_world : W
}.

Definition d_store (i : nat) (a : wl_argument) (p : Z) (s : demarshal_state) : demarshal_state :=
  mk_demarshal (cl_set_arg i a (d_closure s)) (d_fds_in s) (d_objects s) p (d_arrays s) (d_world s).
Definition d_set_fds_in (b : wl_ring_buffer) (s : demarshal_state) : demarshal_state :=
  mk_demarshal (d_closure s) b (d_objects s) (d_p s) (d_arrays s) (d_world s).
Definition d_set_objects (m : wl_map) (w : W) (s : demarshal_state) : demarshal_state :=
  mk_demarshal (d_closure s) (d_fds_in s) m (d_p s) (d_arrays s) w.
Definition d_next_array (s : demarshal_state) : demarshal_state :=
  mk_demarshal (d_closure s) (d_fds_in s) (d_objects s) (d_p s) (S (d_arrays s)) (d_world s).
Definition d_seek (p : Z) (s : demarshal_state) : demarshal_state :=
  mk_demarshal (d_closure s) (d_fds_in s) (d_objects s) p (d_arrays s) (d_world s).

Definition demarshal_body (buf : list Z) (end_ : Z) (num_arrays : nat) (i : nat)
    (t : option wl_arg_type) (nullable : bool) (s : demarshal_state)
    : option (loop_step demarshal_state) :=
  let p := d_p s in
  if negb (is_fd t) && (end_ <? p + 1) then Some (Break EINVAL s)
  else
    match t with
    | Some WL_ARG_UINT => v ← get_u32 buf p; Some (Next (d_store i (arg_u v) (p + 1) s))
    | Some WL_ARG_INT => v ← get_u32 buf p; Some (Next (d_store i (arg_i (i32 v)) (p + 1) s))
    | Some WL_ARG_FIXED => v ← get_u32 buf p; Some (Next (d_store i (arg_f (i32 v)) (p + 1) s))
    | Some WL_ARG_STRING =>
        length ← get_u32 buf p;
        let p := p + 1 in
        if (length =? 0) && negb nullable then Some (Break EINVAL (d_seek p s))
        else if length =? 0 then Some (Next (d_store i (arg_s None) p s))
        else
          let length_in_u32 := div_roundup length sizeof_u32 in
          if u32 (end_ - p) <? length_in_u32 then Some (Break EINVAL (d_seek p s))
          else
            let next := p + length_in_u32 in
            last ← buf !! Z.to_nat (p * sizeof_u32 + length - 1);
            if (0 <? length) && negb (last =? 0) then Some (Break EINVAL (d_seek p s))
            else
              str ← c_str (drop (Z.to_nat (p * sizeof_u32)) buf);
              Some (Next (d_store i (arg_s (Some str)) next s))
    | Some WL_ARG_OBJECT =>
        id ← get_u32 buf p;
        let s := d_store i (arg_n id) (p + 1) s in
        Some (if (id =? 0) && negb nullable then Break EINVAL s else Next s)
    | Some WL_ARG_NEW_ID =>
        id ← get_u32 buf p;
        let s := d_store i (arg_n id) (p + 1) s in
        if id =? 0 then Some (Break EINVAL s)
        else
          '(r, objects, w) ← wl_map_reserve_new (d_objects s) id (d_world s);
          let s := d_set_objects objects w s in
          Some (match r with Fail e => Break e s | Ret _ => Next s end)
    | Some WL_ARG_ARRAY =>
        length ← get_u32 buf p;
        let p := p + 1 in
        let length_in_u32 := div_roundup length sizeof_u32 in
        if u32 (end_ - p) <? length_in_u32 then Some (Break EINVAL (d_seek p s))
        else
          let next := p + length_in_u32 in
          if decide (num_arrays <= d_arrays s)%nat then None  (* past the array headers *)
          else
            data ← read_range buf (p * sizeof_u32) length;
            Some (Next (d_next_array (d_store i (arg_a (Some data)) next s)))
    | Some WL_ARG_FD =>
        if rb_tail (d_fds_in s) =? rb_head (d_fds_in s) then Some (Break EINVAL s)
        else
          bs ← ring_buffer_copy (d_fds_in s) sizeof_int32;
          let b := rb_set_tail (u64 (rb_tail (d_fds_in s) + sizeof_int32)) (d_fds_in s) in
          Some (Next (d_store i (arg_h (i32 (le_combine bs))) p (d_set_fds_in b s)))
    | None => None  (* wl_abort *)
    end.

(** The message has been copied to [buf]; decode it into the closure. *)
Definition demarshal_closure (c : wl_connection) (size : Z) (objects : wl_map)
    (message : wl_message) (cl : wl_closure) (num_arrays : nat) (buf : list Z) (w : W)
    : option (cres wl_closure * wl_connection * wl_map * W) :=
  let end_ := size / sizeof_u32 in
  sender_id ← get_u32 buf 0;
  word ← get_u32 buf 1;
  let cl := cl_set_header sender_id (Z.land word 0xffff) cl in
  r ← for_args (demarshal_body buf end_ num_arrays) (cl_count cl) 0 (msg_signature message)
        (mk_demarshal cl (c_fds_in c) objects 2 0 w);
  match r with
  | Next s =>
      Some (Ret (d_closure s), wl_connection_consume (c_set_fds_in (d_fds_in s) c) size,
            d_objects s, d_world s)
  | Break e s =>
      w ← wl_closure_destroy (Some (d_closure s)) (d_world s);
      Some (Fail e, wl_connection_consume (c_set_fds_in (d_fds_in s) c) size, d_objects s, w)
  end.

Definition wl_connection_demarshal (c : wl_connection) (size : Z) (objects : wl_map)
    (message : wl_message) (w : W) : option (cres wl_closure * wl_connection * wl_map * W) :=
  if size <? 2 * sizeof_u32 then
    Some (Fail EINVAL, wl_connection_consume c size, objects, w)
  else
    '(r, w) ← wl_closure_init message size None w;
    match r with
    | Fail e => Some (Fail e, wl_connection_consume c size, objects, w)
    | Ret (cl, num_arrays) =>
        let room := u64 (closure_alloc_size size num_arrays) - sizeof_closure
                    - Z.of_nat num_arrays * sizeof_wl_array in
        if room <? size then None  (* the copy overruns the block *)
        else
          buf ← wl_connection_copy c size;
          demarshal_closure c size objects message cl num_arrays buf w
    end.
End demarshal.

Arguments demarshal_state W : clear implicits.

(** ** Taking a descriptor from the ring *)

Lemma fd_ring_pop m b :
  fd_ring_bounded m b → rb_tail b ≠ rb_head b →
  ∃ bs, ring_buffer_copy b sizeof_int32 = Some bs ∧
    let b' := rb_set_tail (u64 (rb_tail b + sizeof_int32)) b in
    fd_ring_bounded m b' ∧
    fds_decode (ring_contents b) = i32 (le_combine bs) :: fds_decode (ring_contents b').
Proof.
  intros (Hok&Hmx&Hsb) Hne. unfold sizeof_int32.
  destruct Hok as [Hwf|Hn]; [|by destruct Hn as (_&Hh&Ht&_); rewrite Hh, Ht in Hne].
  destruct Hwf as (Hr&Hb2&Ht4&Hs4&Hs33).
  assert (4 <= ring_buffer_size b) as Hsz.
  { pose proof (ring_size_bound b). destruct Hr as (?&?&?&?&?&?).
    assert (ring_buffer_size b ≠ 0); [|mlia]. unfold ring_buffer_size, u64. intros E. mlia. }
  rewrite ring_ok_copy_prefix by (by left || lia). eexists. split; [done|].
  destruct (ring_consume_spec b Hr 4) as (Hr'&Hc'&Hs'); [lia|]. rewrite Hc'.
  assert (Hlen : Z.of_nat (length (ring_contents b)) = ring_buffer_size b)
    by (apply ring_ok_length; by left). split.
  - split_and!; [|rb_simpl; lia..]. left. split_and!; try done.
    + rb_simpl. rewrite u64_mod4. mlia.
    + rewrite Hs'. mlia.
    + lia.
  - rewrite <- (take_drop (Z.to_nat 4) (ring_contents b)) at 1.
    apply fds_decode_app4. rewrite length_take. lia.
Qed.

(** ** What the decoder accepts *)

(** A received argument has the type the signature gives it, and is null only
    where the signature allows it. *)
Definition received_typed (t : wl_arg_type) (nullable : bool) (a : wl_argument) : Prop :=
  match t with
  | WL_ARG_INT => ∃ v, a = arg_i v ∧ - 2 ^ 31 <= v < 2 ^ 31
  | WL_ARG_UINT => ∃ v, a = arg_u v ∧ 0 <= v < 2 ^ 32
  | WL_ARG_FIXED => ∃ v, a = arg_f v ∧ - 2 ^ 31 <= v < 2 ^ 31
  | WL_ARG_STRING => ∃ v, a = arg_s v ∧ (v = None → nullable = true) ∧
                          (∀ s, v = Some s → c_string s)
  | WL_ARG_OBJECT => ∃ id, a = arg_n id ∧ 0 <= id < 2 ^ 32 ∧ (id = 0 → nullable = true)
  | WL_ARG_NEW_ID => ∃ id, a = arg_n id ∧ 0 < id < 2 ^ 32
  | WL_ARG_ARRAY => ∃ bs, a = arg_a (Some bs) ∧ Forall is_byte bs
  | WL_ARG_FD => ∃ h, a = arg_h h
  end.

Fixpoint received_args (ps : list (wl_arg_type * bool)) (args : list wl_argument) : Prop :=
  match ps, args with
  | [], _ => True
  | (t, b) :: ps, a :: args => received_typed t b a ∧ received_args ps args
  | _, _ => False
  end.

(** The ids of the new objects. *)
Fixpoint new_ids (ps : list (wl_arg_type * bool)) (args : list wl_argument) : list Z :=
  match ps, args with
  | (WL_ARG_NEW_ID, _) :: ps, arg_n n :: args => u32 n :: new_ids ps args
  | _ :: ps, _ :: args => new_ids ps args
  | _, _ => []
  end.

Lemma new_ids_cons p ps a args : new_ids (p :: ps) (a :: args) = new_ids [p] [a] ++ new_ids ps args.
Proof. by destruct p as [[] b], a. Qed.

Lemma new_ids_app ps mid tail : length mid = length ps → new_ids ps (mid ++ tail) = new_ids ps mid.
Proof.
  revert mid. induction ps as [|[t b] ps IH]; intros [|a mid] Hl; try done. cbn [app]. rewrite (new_ids_cons _ ps a (mid ++ tail)), (new_ids_cons _ ps a mid).
  f_equal. apply IH. by injection Hl.
Qed.

Lemma c_str_some bs n :
  Forall is_byte bs → bs !! n = Some 0 → ∃ s, c_str bs = Some s ∧ c_string s.
Proof.
  intros Hb. revert n. induction Hb as [|b bs Hb Hbs IH]; intros n Hn; [done|].
  cbn. destruct (Z.eqb_spec b 0) as [->|Hne]; [by exists []; split; [|constructor]|].
  destruct n as [|n]; [cbn in Hn; congruence|].
  destruct (IH n Hn) as (s&->&Hs). exists (b :: s). split; [done|].
  constructor; [unfold is_byte in Hb; lia|done].
Qed.

Section decoding.
Context {W : Type} `{OsMem W} `{OsFd W}.
Context (buf : list Z) (end_ : Z) (num_arrays : nat) (m : Z).
Hypothesis (Hbytes : Forall is_byte buf) (Hend : 0 <= end_ < 2 ^ 30)
  (Hlen : end_ * 4 <= Z.of_nat (length buf)).

Lemma get_u32_spec p :
  0 <= p < end_ → ∃ v, get_u32 buf p = Some v ∧ 0 <= v < 2 ^ 32.
Proof.
  intros Hp. unfold get_u32, sizeof_u32. rewrite read_range_Some by lia. cbn [mbind option_bind].
  eexists. split; [done|].
  match goal with |- context [le_combine ?l] => set (bs := l) end.
  assert (length bs = 4%nat) as Hl by (unfold bs; rewrite length_take, length_drop; lia).
  pose proof (le_combine_bound bs) as Hb. rewrite Hl in Hb. apply Hb.
  apply Forall_take, Forall_drop, Hbytes.
Qed.

Lemma array_add_calls a n (w : W) r a' w' :
  wl_array_add a n w = Some (r, a', w') → fd_calls w [] w'.
Proof.
  unfold wl_array_add. intros Ha. destruct (alloc_loop _ _ _) as [k|]; [|done].
  cbn [mbind option_bind] in Ha. destruct (a_alloc a <? k); [|simplify_eq; constructor].
  apply fd_calls_alloc with k. destruct (os_alloc k w) as [[junk|] w1]; simplify_eq; constructor.
Qed.

Lemma reserve_calls mp i (w : W) r mp' w' :
  wl_map_reserve_new mp i w = Some (r, mp', w') → fd_calls w [] w'.
Proof.
  unfold wl_map_reserve_new. intros Hr. do 3 (case_step_in Hr; [simplify_eq; constructor|]).
  case_step_in Hr.
  - destruct (wl_array_add _ _ _) as [[[r1 a1] w1]|] eqn:Ha; [|done]. apply array_add_calls in Ha.
    cbn [mbind option_bind] in Hr. destruct r1; [|by simplify_eq].
    destruct (entry_set _ _ _); [|done]. cbn in Hr. by simplify_eq.
  - destruct (entry_get _ _); [|done]. cbn in Hr. simplify_eq. constructor.
Qed.

(** The state of the decoder. *)
Definition decoder_ok (s : demarshal_state W) : Prop :=
  0 <= d_p s <= end_ ∧ fd_ring_bounded m (d_fds_in s) ∧
  ∃ A free, map_rep (d_objects s) A free ∧ map_room (d_objects s).

Definition state_fds (s : demarshal_state W) : list Z :=
  fds_decode (ring_contents (d_fds_in s)).

(** One argument: it is stored and well typed, or the message is refused with no
    descriptor taken for it. *)
Definition step_post (pre post : list wl_argument) (a0 : wl_argument) (t : wl_arg_type) (b : bool)
    (s : demarshal_state W) (r : loop_step (demarshal_state W)) : Prop :=
  match r with
  | Next s' => ∃ a, d_closure s' = cl_with_args (pre ++ a :: post) (d_closure s) ∧
      received_typed t b a ∧ decoder_ok s' ∧
      state_fds s = raw_fds [(t, b)] [a] ++ state_fds s' ∧
      d_arrays s' = (d_arrays s + if bool_decide (t = WL_ARG_ARRAY) then 1 else 0)%nat ∧
      fd_calls (d_world s) [] (d_world s') ∧
      reserved (W := W) (d_objects s) (new_ids [(t, b)] [a]) (d_objects s')
  | Break _ s' => ∃ a, d_closure s' = cl_with_args (pre ++ a :: post) (d_closure s) ∧
      (t = WL_ARG_FD → a = a0) ∧ decoder_ok s' ∧ state_fds s' = state_fds s ∧
      fd_calls (d_world s) [] (d_world s') ∧ d_objects s' = d_objects s
  end.

Section step.
Context (pre post : list wl_argument) (a0 : wl_argument) (s : demarshal_state W) (b : bool).
Hypothesis (Hargs : cl_args (d_closure s) = pre ++ a0 :: post) (Hok : decoder_ok s).

Lemma step_break t e p :
  0 <= p <= end_ → step_post pre post a0 t b s (Break e (d_seek p s)).
Proof.
  intros Hp. exists a0. destruct Hok as (_&?&?). split_and!; try done.
  - symmetry. by apply cl_with_args_self.
  - constructor.
Qed.

Lemma step_store t a p :
  t ≠ WL_ARG_ARRAY → t ≠ WL_ARG_FD → t ≠ WL_ARG_NEW_ID → received_typed t b a → 0 <= p <= end_ →
  step_post pre post a0 t b s (Next (d_store (length pre) a p s)).
Proof.
  intros Hna Hnf Hnn Ha Hp. exists a. destruct Hok as (_&?&?). split_and!; try done.
  - by eapply cl_set_arg_middle.
  - by destruct t.
  - rewrite bool_decide_eq_false_2 by done. cbn. lia.
  - constructor.
  - destruct t; done || constructor.
Qed.

Lemma short_step t :
  t ≠ WL_ARG_FD → end_ < d_p s + 1 →
  demarshal_body buf end_ num_arrays (length pre) (Some t) b s = Some (Break EINVAL s) ∧
  step_post pre post a0 t b s (Break EINVAL s).
Proof.
  intros Hne Hp. unfold demarshal_body. rewrite is_fd_false, (proj2 (Z.ltb_lt _ _)) by done.
  split; [done|]. destruct Hok as (?&_). pose proof (step_break t EINVAL (d_p s)) as Hb.
  replace (d_seek (d_p s) s) with s in Hb by (by destruct s). auto.
Qed.

Lemma words_fit p length :
  0 <= p <= end_ → 0 <= length < 2 ^ 32 →
  (u32 (end_ - p) <? div_roundup length sizeof_u32) = false →
  p + div_roundup length sizeof_u32 <= end_ ∧
  length <= 4 * div_roundup length sizeof_u32 ∧ 0 <= div_roundup length sizeof_u32 ∧
  p * 4 + length <= end_ * 4.
Proof.
  intros Hp Hl Hlt. apply Z.ltb_ge in Hlt. unfold sizeof_u32 in *.
  rewrite u32_small in Hlt by lia. rewrite div_roundup_4 in * by done. mlia.
Qed.

Lemma string_step :
  d_p s < end_ →
  ∃ r, demarshal_body buf end_ num_arrays (length pre) (Some WL_ARG_STRING) b s = Some r ∧
    step_post pre post a0 WL_ARG_STRING b s r.
Proof.
  intros Hp. pose proof Hok as ((Hp0&_)&_). unfold demarshal_body.
  rewrite is_fd_false, (proj2 (Z.ltb_ge _ _)) by (done || lia). cbn [negb andb].
  destruct (get_u32_spec (d_p s)) as (n&->&Hn); [lia|]. cbn [mbind option_bind].
  destruct (Z.eqb_spec n 0) as [->|Hn0]; cbn [andb].
  { destruct (negb b) eqn:Eb; eexists; (split; [done|]); [apply step_break; lia|].
    apply negb_false_iff in Eb. apply step_store; try done; [|lia]. exists None. by split_and!. }
  destruct (u32 _ <? _) eqn:Hfit; [eexists; split; [done|]; apply step_break; lia|].
  apply words_fit in Hfit as (Hnext&Hle&Hpos&Hin); [|lia..]. unfold sizeof_u32 in *.
  destruct (lookup_lt_is_Some_2 buf (Z.to_nat ((d_p s + 1) * 4 + n - 1))) as [last Hlast]; [lia|].
  rewrite Hlast. cbn [mbind option_bind]. rewrite (proj2 (Z.ltb_lt 0 n)) by lia. cbn [andb].
  destruct (Z.eqb_spec last 0) as [->|]; cbn [negb];
    [|eexists; split; [done|]; apply step_break; lia].
  destruct (c_str_some (drop (Z.to_nat ((d_p s + 1) * 4)) buf) (Z.to_nat (n - 1)))
    as (str&->&Hstr).
  { by apply Forall_drop. }
  { rewrite lookup_drop, <- Hlast. f_equal. lia. }
  cbn [mbind option_bind]. eexists. split; [done|]. apply step_store; try done; [|lia].
  exists (Some str). split_and!; [done..|]. by intros ? [= <-].
Qed.

Lemma array_step :
  d_p s < end_ → (d_arrays s < num_arrays)%nat →
  ∃ r, demarshal_body buf end_ num_arrays (length pre) (Some WL_ARG_ARRAY) b s = Some r ∧
    step_post pre post a0 WL_ARG_ARRAY b s r.
Proof.
  intros Hp Hna. pose proof Hok as ((Hp0&_)&?&?). unfold demarshal_body.
  rewrite is_fd_false, (proj2 (Z.ltb_ge _ _)) by (done || lia). cbn [negb andb].
  destruct (get_u32_spec (d_p s)) as (n&->&Hn); [lia|]. cbn [mbind option_bind].
  destruct (u32 _ <? _) eqn:Hfit; [eexists; split; [done|]; apply step_break; lia|].
  apply words_fit in Hfit as (Hnext&Hle&Hpos&Hin); [|lia..]. unfold sizeof_u32 in *.
  rewrite decide_False by lia. rewrite read_range_Some by lia. cbn [mbind option_bind].
  eexists. split; [done|]. eexists. split_and!; try done.
  - by eapply cl_set_arg_middle.
  - eexists. split; [done|]. by apply Forall_take, Forall_drop.
  - split; [cbn; lia|done].
  - rewrite bool_decide_eq_true_2 by done. cbn. lia.
  - constructor.
  - constructor.
Qed.

Lemma new_id_step :
  d_p s < end_ →
  ∃ r, demarshal_body buf end_ num_arrays (length pre) (Some WL_ARG_NEW_ID) b s = Some r ∧
    step_post pre post a0 WL_ARG_NEW_ID b s r.
Proof.
  intros Hp. pose proof Hok as ((Hp0&_)&Hfd&A&free&Hrep&Hroom). unfold demarshal_body.
  rewrite is_fd_false, (proj2 (Z.ltb_ge _ _)) by (done || lia). cbn [negb andb].
  destruct (get_u32_spec (d_p s)) as (n&->&Hn); [lia|]. cbn [mbind option_bind].
  assert (Hcl : cl_set_arg (length pre) (arg_n n) (d_closure s) =
                cl_with_args (pre ++ arg_n n :: post) (d_closure s))
    by (by eapply cl_set_arg_middle).
  destruct (Z.eqb_spec n 0) as [->|Hn0].
  { eexists. split; [done|]. exists (arg_n 0). split_and!; try done; [|constructor].
    split_and!; cbn; try lia; [done|by exists A, free]. }
  cbn [d_store d_objects d_world].
  destruct (reserve_new_room (d_objects s) A free n (d_world s) Hrep Hroom Hn)
    as (r&mp'&w'&Hr&Hroom'&Hpost).
  rewrite Hr. pose proof (reserve_calls _ _ _ _ _ _ Hr). cbn [mbind option_bind].
  eexists. split; [done|]. destruct r as [[]|e].
  - destruct Hpost as (_&_&Hrep'). exists (arg_n n). split_and!; try done.
    + exists n. split; [done|lia].
    + split_and!; cbn; try lia; [done|by eexists _, _].
    + cbn. rewrite u32_small by done. eapply reserved_cons; [done|exact Hr|constructor].
  - destruct Hpost as (->&_). exists (arg_n n). split_and!; try done.
    split_and!; cbn; try lia; [done|by exists A, free].
Qed.

Lemma fd_step :
  a0 = arg_h (-1) →
  ∃ r, demarshal_body buf end_ num_arrays (length pre) (Some WL_ARG_FD) b s = Some r ∧
    step_post pre post a0 WL_ARG_FD b s r.
Proof.
  intros Ha0. pose proof Hok as (?&Hfd&?). unfold demarshal_body.
  change (is_fd (Some WL_ARG_FD)) with true. cbn [negb andb].
  destruct (Z.eqb_spec (rb_tail (d_fds_in s)) (rb_head (d_fds_in s))) as [E|Hne].
  { eexists. split; [done|]. replace s with (d_seek (d_p s) s) at 2 by (by destruct s).
    apply step_break. lia. }
  destruct (fd_ring_pop m (d_fds_in s) Hfd Hne) as (bs&->&Hfd'&Hdec). cbn [mbind option_bind].
  eexists. split; [done|]. eexists. split_and!; try done.
  - by eapply cl_set_arg_middle.
  - by eexists.
  - exact Hdec.
  - constructor.
  - constructor.
Qed.

(** Every argument, whatever the bytes. *)
Lemma demarshal_step t :
  (t = WL_ARG_ARRAY → (d_arrays s < num_arrays)%nat) → (t = WL_ARG_FD → a0 = arg_h (-1)) →
  ∃ r, demarshal_body buf end_ num_arrays (length pre) (Some t) b s = Some r ∧
    step_post pre post a0 t b s r.
Proof.
  intros Harr Hfd. destruct (decide (t = WL_ARG_FD)) as [->|Hne]; [by apply fd_step; auto|].
  destruct (decide (end_ < d_p s + 1)) as [Hs|Hs].
  { destruct (short_step t Hne Hs). by eexists. }
  pose proof Hok as ((Hp0&_)&_).
  destruct t; try done; [| | |by apply string_step; lia| |by apply new_id_step; lia
    |by apply array_step; [lia|auto]].
  all: unfold demarshal_body; rewrite is_fd_false, (proj2 (Z.ltb_ge _ _)) by (done || lia);
    cbn [negb andb]; destruct (get_u32_spec (d_p s)) as (v&->&Hv); [lia|]; cbn [mbind option_bind];
    eexists; (split; [done|]).
  - apply step_store; try done; [|lia]. eexists. split; [done|]. apply i32_bound.
  - apply step_store; try done; [|lia]. by eexists.
  - apply step_store; try done; [|lia]. eexists. split; [done|]. apply i32_bound.
  - destruct (Z.eqb_spec v 0) as [->|]; [destruct (negb b) eqn:Eb|]; cbn [andb].
    + exists (arg_n 0). destruct Hok as (_&?&?). split_and!; try done; [| |constructor].
      * by eapply cl_set_arg_middle.
      * split; [cbn; lia|done].
    + apply negb_false_iff in Eb. apply step_store; try done; [|lia]. by exists 0.
    + apply step_store; try done; [|lia]. by exists v.
Qed.
End step.

Definition n_arrays (ps : list (wl_arg_type * bool)) : nat :=
  length (base.filter (λ p, is_array p = true) ps).

Lemma n_arrays_cons t b ps :
  n_arrays ((t, b) :: ps) = ((if bool_decide (t = WL_ARG_ARRAY) then 1 else 0) + n_arrays ps)%nat.
Proof. unfold n_arrays, is_array. rewrite filter_cons. cbn. repeat case_bool_decide; done. Qed.

(** The whole loop: the descriptors [taken] from the ring are those the closure
    now holds. *)
Definition loop_post (ps : list (wl_arg_type * bool)) (pre tail : list wl_argument)
    (s : demarshal_state W) (r : loop_step (demarshal_state W)) : Prop :=
  ∃ mid taken s', length mid = length ps ∧
    d_closure s' = cl_with_args (pre ++ mid ++ tail) (d_closure s) ∧
    fds_typed ps mid ∧ decoder_ok s' ∧ state_fds s = taken ++ state_fds s' ∧
    live_fds (raw_fds ps mid) = live_fds taken ∧ fd_calls (d_world s) [] (d_world s') ∧
    ∃ ids, reserved (W := W) (d_objects s) ids (d_objects s') ∧
    match r with
    | Next s1 => s1 = s' ∧ received_args ps mid ∧ raw_fds ps mid = taken ∧ ids = new_ids ps mid
    | Break _ s1 => s1 = s'
    end.

Lemma received_fds t b a : received_typed t b a → t = WL_ARG_FD → ∃ h, a = arg_h h.
Proof. by intros Ha ->. Qed.

Lemma demarshal_loop_spec ps : ∀ pre us tail (s : demarshal_state W),
  cl_args (d_closure s) = pre ++ clear_args ps us ++ tail → length us = length ps →
  decoder_ok s → num_arrays = (d_arrays s + n_arrays ps)%nat →
  ∃ r, for_list (demarshal_body buf end_ num_arrays) ps (length pre) s = Some r ∧
    loop_post ps pre tail s r.
Proof.
  induction ps as [|[t b] ps IH]; intros pre us tail s Ha Hl Hok Hn.
  { destruct us; [|done]. eexists. split; [done|]. exists [], [], s. split_and!; try done.
    - symmetry. by apply cl_with_args_self.
    - constructor.
    - exists []. split; [constructor|done]. }
  destruct us as [|u us]; [done|]. cbn [clear_args app] in Ha. rewrite n_arrays_cons in Hn.
  destruct (demarshal_step pre _ _ s b Ha Hok t) as (r&Hr&Hpost).
  { intros ->. rewrite bool_decide_eq_true_2 in Hn by done. lia. }
  { by intros ->. }
  cbn [for_list]. rewrite Hr. cbn [mbind option_bind]. destruct r as [s1|e s1].
  - destruct Hpost as (a&Hcl&Hrt&Hok1&Hfds&Harr&Hw&Hres). rewrite <- (length_snoc pre a).
    destruct (IH (pre ++ [a]) us tail s1) as (r&->&mid&taken&s'&Hlm&Hcl'&Hft&Hok'&Hfds'&Hlive&Hw'&ids&Hres'&Hr');
      [by rewrite Hcl, <- app_assoc|by injection Hl|done|lia|].
    eexists. split; [done|]. exists (a :: mid), (raw_fds [(t, b)] [a] ++ taken), s'.
    split_and!; try done.
    + cbn. by rewrite Hlm.
    + by rewrite Hcl', Hcl, <- app_assoc.
    + split; [by eapply received_fds|done].
    + by rewrite Hfds, Hfds', app_assoc.
    + rewrite (raw_fds_cons (t, b) ps a mid). unfold live_fds in *. by rewrite !filter_app, Hlive.
    + by apply (fd_calls_trans _ [] (d_world s1) []).
    + exists (new_ids [(t, b)] [a] ++ ids). split; [by eapply reserved_app|]. destruct r; [|done]. destruct Hr' as (->&?&<-&->).
      split_and!; [done..|apply (raw_fds_cons (t, b) ps a mid)|]. symmetry. apply new_ids_cons.
  - destruct Hpost as (a&Hcl&Ha0&Hok1&Hfds&Hw&Hobj). eexists. split; [done|].
    exists (a :: clear_args ps us), [], s1. split_and!; try done.
    + cbn. rewrite length_clear_args. by injection Hl as ->.
    + split; [intros ->; rewrite Ha0 by done; by eexists|].
      apply cleared_fds_typed. injection Hl. lia.
    + destruct (decide (t = WL_ARG_FD)) as [->|Hne].
      * rewrite Ha0 by done. apply (live_cleared ((WL_ARG_FD, b) :: ps) (u :: us)).
      * rewrite (raw_fds_cons (t, b) ps a _). unfold live_fds. rewrite filter_app.
        pose proof (live_cleared ps us) as Hc. unfold live_fds in Hc. rewrite Hc, app_nil_r.
        by destruct t.
    + exists []. split; [|done]. rewrite Hobj. constructor.
Qed.
End decoding.

(** ** The whole function *)

Section demarshal_spec.
Context {W : Type} `{OsMem W} `{OsFd W}.

Lemma init_empty_spec message size (w : W) :
  let ps := parse_signature (msg_signature message) in
  (length ps <= WL_CLOSURE_MAX_ARGS)%nat → size ≠ 0 →
  ∃ us tail, length us = length ps ∧ wl_closure_init message size None w =
    Some (match os_alloc (u64 (closure_alloc_size size (n_arrays ps))) w with
          | (None, w) => (Fail ENOMEM, w)
          | (Some _, w) =>
              (Ret (mk_closure (length ps) message 0 0 (clear_args ps us ++ tail), n_arrays ps), w)
          end).
Proof.
  intros ps Hmax Hs. set (zeros := replicate WL_CLOSURE_MAX_ARGS arg_zero).
  exists (take (length ps) zeros), (drop (length ps) zeros).
  assert (Hl : length (take (length ps) zeros) = length ps)
    by (rewrite length_take; unfold zeros; rewrite length_replicate; lia).
  split; [done|]. unfold wl_closure_init. rewrite arg_count_parse. fold ps.
  rewrite decide_False by lia. rewrite (proj2 (Z.eqb_neq _ _)) by done.
  unfold wl_message_count_arrays. rewrite count_arrays_parse. fold ps. fold (n_arrays ps).
  destruct (os_alloc _ w) as [[junk|] w1]; [|done]. cbn [mbind option_bind]. fold zeros.
  rewrite clear_fds_spec; [|done|cbn [cl_count cl_args]; unfold zeros; rewrite length_replicate; lia].
  cbn [mbind option_bind]. unfold cl_with_args, cl_signature.
  cbn [cl_message cl_args cl_count cl_opcode cl_sender_id]. fold ps.
  rewrite <- (take_drop (length ps) zeros) at 1. by rewrite clear_args_app.
Qed.

Lemma n_arrays_le ps : (n_arrays ps <= length ps)%nat.
Proof. apply length_filter. Qed.

(** The message is consumed and nothing else of the connection changes, except
    that [taken] leaves the ring of received descriptors; on failure exactly
    these are closed. *)
Definition demarshal_post (m : Z) (c : wl_connection) (size : Z) (objects : wl_map) (message : wl_message) (w : W)
    (r : cres wl_closure) (c' : wl_connection) (objects' : wl_map) (w' : W) : Prop :=
  let ps := parse_signature (msg_signature message) in
  conn_in_ok m c' ∧ same_output c c' ∧
  ring_contents (c_in c') = drop (Z.to_nat size) (ring_contents (c_in c)) ∧
  (∃ A free, map_rep objects' A free ∧ map_room objects') ∧
  ∃ taken ids, reserved (W := W) objects ids objects' ∧ fds_decode (ring_contents (c_fds_in c)) =
      taken ++ fds_decode (ring_contents (c_fds_in c')) ∧
    match r with
    | Ret cl => cl_message cl = message ∧ closure_fds_ok cl ∧ received_args ps (cl_args cl) ∧
                raw_fds ps (cl_args cl) = taken ∧ fd_calls w [] w' ∧ ids = new_ids ps (cl_args cl) ∧
                (length ps <= length (cl_args cl))%nat ∧ 8 <= size
    | Fail _ => fd_calls w (live_fds taken) w'
    end.

Lemma consume_in_ok m c size b :
  conn_in_ok m c → fd_ring_bounded m b → 0 <= size <= ring_buffer_size (c_in c) →
  let c' := wl_connection_consume (c_set_fds_in b c) size in
  conn_in_ok m c' ∧ same_output c c' ∧ c_fds_in c' = b ∧
  ring_contents (c_in c') = drop (Z.to_nat size) (ring_contents (c_in c)).
Proof.
  intros (Hin&Hcap&Hfd) Hb Hs c'. destruct (ring_ok_consume (c_in c) size Hin Hs) as [Hok Hc].
  by split_and!.
Qed.

Lemma received_app ps mid tail : received_args ps mid → received_args ps (mid ++ tail).
Proof.
  revert mid. induction ps as [|[t b] ps IH]; intros [|a mid] Hr; try done.
  destruct Hr. split; auto.
Qed.

(** The block of the closure holds the message. *)
Lemma alloc_room size n :
  8 <= size < 2 ^ 16 → (n <= WL_CLOSURE_MAX_ARGS)%nat →
  (u64 (closure_alloc_size size n) - sizeof_closure - Z.of_nat n * sizeof_wl_array <? size) = false.
Proof.
  intros Hs Hn. unfold closure_alloc_size. rewrite (proj2 (Z.eqb_neq size 0)) by lia.
  unfold sizeof_closure, sizeof_wl_array, WL_CLOSURE_MAX_ARGS in *.
  rewrite i32_small, u64_small by lia. apply Z.ltb_ge. lia.
Qed.

Section message.
Context (m : Z) (c : wl_connection) (size : Z) (objects : wl_map) (message : wl_message).
Context (A : gmap Z (Z * Z)) (free : list Z).
Hypothesis (Hin : conn_in_ok m c) (Hs16 : 0 <= size < 2 ^ 16)
  (Hs : size <= ring_buffer_size (c_in c)) (Hby : Forall is_byte (ring_contents (c_in c)))
  (Hrep : map_rep objects A free) (Hroom : map_room objects).

Let ps := parse_signature (msg_signature message).

Lemma copy_message :
  let buf := take (Z.to_nat size) (ring_contents (c_in c)) in
  wl_connection_copy c size = Some buf ∧ Z.of_nat (length buf) = size ∧ Forall is_byte buf.
Proof.
  pose proof Hin as (Hrin&_). pose proof (ring_ok_length _ Hrin). intros buf. split_and!.
  - unfold wl_connection_copy. by rewrite ring_ok_copy_prefix by (done || lia).
  - unfold buf. rewrite length_take. lia.
  - by apply Forall_take.
Qed.

Lemma demarshal_closure_spec buf us tail (w : W) :
  8 <= size → Z.of_nat (length buf) = size → Forall is_byte buf → length us = length ps →
  ∃ r c' objects' w',
    demarshal_closure c size objects message
      (mk_closure (length ps) message 0 0 (clear_args ps us ++ tail)) (n_arrays ps) buf w =
      Some (r, c', objects', w') ∧
    demarshal_post m c size objects message w r c' objects' w'.
Proof.
  intros Hs8 Hlen Hb Hus. unfold demarshal_closure, sizeof_u32.
  assert (Hend : 2 <= size / 4 < 2 ^ 30 ∧ size / 4 * 4 <= Z.of_nat (length buf)) by mlia.
  destruct Hend as [Hend Hel].
  destruct (get_u32_spec buf (size / 4) Hb Hel 0) as (sender&->&_); [lia|].
  destruct (get_u32_spec buf (size / 4) Hb Hel 1) as (word&->&_); [lia|]. cbn [mbind option_bind].
  set (cl := cl_set_header sender (Z.land word 0xffff) _). rewrite for_args_parse by done. fold ps.
  destruct (demarshal_loop_spec buf (size / 4) (n_arrays ps) m Hb ltac:(lia) Hel ps [] us tail
    (mk_demarshal cl (c_fds_in c) objects 2 0 w))
    as (r&Hr&mid&taken&s'&Hlm&Hcl&Hft&Hok&Hfds&Hlive&Hw&ids&Hres&Hr'); try done.
  { pose proof Hin as (_&_&?). split_and!; cbn; try lia; [done|by eexists _, _]. }
  cbn [length] in Hr. rewrite Hr. cbn [mbind option_bind app d_closure d_world] in *.
  destruct Hok as (_&Hfd&Hobj).
  destruct (consume_in_ok m c size (d_fds_in s') Hin Hfd) as (Hin'&Hso&Hfd'&Hc'); [lia|].
  assert (Hcf : closure_fds_ok (d_closure s')).
  { rewrite Hcl. split; [done|]. by apply fds_typed_app. }
  assert (Hraw : raw_fds ps (cl_args (d_closure s')) = raw_fds ps mid)
    by (rewrite Hcl; by apply live_raw_app).
  destruct r as [s1|e s1].
  - destruct Hr' as (->&Hrt&Htk&Hids). eexists _, _, _, _. split; [done|]. split_and!; try done.
    exists taken, ids. rewrite Hfd'. split_and!; try done.
    + by rewrite Hcl.
    + rewrite Hcl. by apply received_app.
    + fold ps. congruence.
    + fold ps. rewrite Hids, Hcl. symmetry. by apply new_ids_app.
    + rewrite Hcl. cbn. fold ps. rewrite length_app. lia.
  - subst s1. rewrite destroy_closure_spec by done. cbn [mbind option_bind].
    eexists _, _, _, _. split; [done|]. split_and!; try done. exists taken, ids. rewrite Hfd'.
    split; [done|]. split; [done|]. assert (closure_fds (d_closure s') = live_fds taken) as <-.
    { unfold closure_fds. rewrite <- Hlive, <- Hraw. by rewrite Hcl. }
    apply (fd_calls_trans _ [] (d_world s')); [done|apply fd_calls_close_all].
Qed.

Lemma demarshal_spec (w : W) :
  ∃ r c' objects' w',
    wl_connection_demarshal c size objects message w = Some (r, c', objects', w') ∧
    demarshal_post m c size objects message w r c' objects' w'.
Proof.
  unfold wl_connection_demarshal. pose proof Hin as (Hrin&_&Hfd).
  destruct (consume_in_ok m c size (c_fds_in c) Hin Hfd) as (Hin'&Hso'&Hfd'&Hc'); [lia|].
  replace (c_set_fds_in (c_fds_in c) c) with c in Hin', Hso', Hfd', Hc' by (by destruct c).
  assert (Hfail : ∀ e w', fd_calls w [] w' →
    demarshal_post m c size objects message w (Fail e) (wl_connection_consume c size) objects w').
  { intros e w' Hw. split_and!; try done; [by eexists _, _|]. exists [], []. rewrite Hfd'. split_and!; [constructor|done|done]. }
  case_step; zbool; [eexists _, _, _, _; split; [done|]; apply Hfail; constructor|].
  unfold sizeof_u32 in *.
  destruct (decide (WL_CLOSURE_MAX_ARGS < length ps)%nat) as [Hmax|Hmax].
  { unfold wl_closure_init. rewrite arg_count_parse. fold ps. rewrite decide_True by done.
    eexists _, _, _, _. split; [done|]. apply Hfail. constructor. }
  destruct (init_empty_spec message size w) as (us&tail&Hus&->); [fold ps; lia|lia|].
  fold ps in Hus |- *. cbn [mbind option_bind].
  pose proof (fd_calls_alloc w (u64 (closure_alloc_size size (n_arrays ps))) []) as Hw1.
  destruct (os_alloc _ w) as [[junk|] w1]; cbn [snd] in Hw1; specialize (Hw1 w1 (fd_calls_done w1)).
  2: { eexists _, _, _, _. split; [done|]. by apply Hfail. }
  pose proof (n_arrays_le ps) as Hna. rewrite alloc_room by lia.
  destruct copy_message as (->&Hbl&Hbb). cbn [mbind option_bind].
  destruct (demarshal_closure_spec _ us tail w1 ltac:(lia) Hbl Hbb Hus) as (r&c'&o'&w'&Hd&Hpost).
  eexists _, _, _, _. split; [exact Hd|]. destruct Hpost as (?&?&?&?&taken&ids&?&?&Hr).
  split_and!; try done. exists taken, ids. split; [done|]. split; [done|]. destruct r.
  - destruct Hr as (?&?&?&?&?&?&?&?). split_and!; try done. by apply (fd_calls_trans _ [] w1 []).
  - by apply (fd_calls_trans _ [] w1).
Qed.
End message.
End demarshal_spec.

(** ** Round trip *)

Lemma wire_opcode opcode size :
  Z.land (u32 (Z.lor (u32 (Z.shiftl size 16)) (Z.land opcode 0xffff))) 0xffff =
  Z.land opcode 0xffff.
Proof.
  assert (Hl : ∀ x, Z.land x 0xffff = x mod 2 ^ 16) by (intros; by apply (Z.land_ones _ 16)).
  rewrite !Hl, Z.shiftl_mul_pow2 by lia. unfold u32.
  rewrite (lor_low _ _ 16); [mlia| |apply Z.mod_pos_bound; lia].
  rewrite Z.mod_mod_divide by (by exists (2 ^ 16)). apply Z.mod_mul. lia.
Qed.

Section roundtrip.
Context (heap : Z → option wl_object) (P : Z → Prop).

(** What the receiver gets for an argument: integers at their width, objects by
    id, a null array as an empty one. *)
Definition received (t : wl_arg_type) (a : wl_argument) : wl_argument :=
  match t, a with
  | WL_ARG_INT, arg_i v => arg_i (i32 v)
  | WL_ARG_UINT, arg_u v => arg_u (u32 v)
  | WL_ARG_FIXED, arg_f v => arg_f (i32 v)
  | WL_ARG_OBJECT, arg_o o => arg_n (u32 (object_id heap o))
  | WL_ARG_NEW_ID, arg_n n => arg_n (u32 n)
  | WL_ARG_ARRAY, arg_a v => arg_a (Some (default [] v))
  | _, a => a
  end.

Fixpoint received_list (ps : list (wl_arg_type * bool)) (args : list wl_argument)
    : list wl_argument :=
  match ps, args with
  | (t, _) :: ps, a :: args => received t a :: received_list ps args
  | _, _ => []
  end.

(** Null only where the signature allows it. *)
Definition arg_nonnull (t : wl_arg_type) (nullable : bool) (a : wl_argument) : Prop :=
  match t, a with
  | WL_ARG_STRING, arg_s None => nullable = true
  | WL_ARG_OBJECT, arg_o o => u32 (object_id heap o) = 0 → nullable = true
  | WL_ARG_NEW_ID, arg_n n => u32 n ≠ 0
  | _, _ => True
  end.

Fixpoint args_nonnull (ps : list (wl_arg_type * bool)) (args : list wl_argument) : Prop :=
  match ps, args with
  | (t, b) :: ps, a :: args => arg_nonnull t b a ∧ args_nonnull ps args
  | _, _ => True
  end.

(** Reserving them, in order. *)
Fixpoint reserve_ids {W : Type} `{OsMem W} (ids : list Z) (objects : wl_map) (w : W)
    : option (wl_map * W) :=
  match ids with
  | [] => Some (objects, w)
  | id :: ids =>
      '(r, objects, w) ← wl_map_reserve_new objects id w;
      match r with
      | Ret _ => reserve_ids ids objects w
      | Fail _ => None
      end
  end.

Lemma le_combine_wire_word v : le_combine (wire_word v) = u32 v.
Proof.
  unfold wire_word. rewrite le_combine_split. change (8 * Z.of_nat 4) with 32.
  unfold u32. by rewrite Z.mod_mod by lia.
Qed.

Lemma get_u32_wire before v rest p :
  Z.of_nat (length before) = p * 4 → get_u32 (before ++ wire_word v ++ rest) p = Some (u32 v).
Proof.
  intros Hp. unfold get_u32, sizeof_u32.
  rewrite read_range_Some by (rewrite ?length_app, ?length_wire_word; lia).
  cbn [mbind option_bind]. rewrite drop_app_length' by lia.
  rewrite take_app_length' by (rewrite length_wire_word; lia). by rewrite le_combine_wire_word.
Qed.

Lemma c_str_wire s rest : c_string s → c_str (s ++ 0 :: rest) = Some s.
Proof.
  induction 1 as [|b s Hb Hs IH]; [done|]. cbn.
  rewrite (proj2 (Z.eqb_neq b 0)) by lia. by rewrite IH.
Qed.

Lemma u32_i32 v : i32 (u32 v) = i32 v.
Proof. unfold i32, u32. by rewrite Zplus_mod_idemp_l. Qed.

(** The length prefix of a block, and the room its bytes take. *)
Lemma wire_block_decode before content bs rest p end_ :
  wire_block P content bs → Z.of_nat (length before) = p * 4 → 0 <= p → end_ < 2 ^ 30 →
  p + block_words (Z.of_nat (length content)) <= end_ →
  let n := Z.of_nat (length content) in
  let buf := before ++ bs ++ rest in
  get_u32 buf p = Some n ∧ (u32 (end_ - (p + 1)) <? div_roundup n sizeof_u32) = false ∧
  p + 1 + div_roundup n sizeof_u32 = p + block_words n ∧
  (∃ pad, drop (Z.to_nat ((p + 1) * sizeof_u32)) buf = content ++ pad).
Proof.
  intros (pad&Hbs&Hl&_) Hb Hp He Hfit n buf. unfold sizeof_u32.
  assert (0 <= n < 2 ^ 32) as Hn by (unfold block_words in Hfit; fold n in Hfit; mlia).
  rewrite div_roundup_4 by done. split_and!.
  - unfold buf. rewrite Hbs, <- app_assoc, get_u32_wire by done. by rewrite u32_small.
  - apply Z.ltb_ge. rewrite u32_small; unfold block_words in Hfit; fold n in Hfit; mlia.
  - unfold block_words. lia.
  - exists (pad ++ rest). unfold buf. rewrite Hbs.
    replace (Z.to_nat ((p + 1) * 4)) with (length (before ++ wire_word n))
      by (rewrite length_app, length_wire_word; lia).
    rewrite <- !app_assoc. rewrite (app_assoc before). apply drop_app_length.
Qed.

Section rt_step.
Context {W : Type} `{OsMem W} `{OsFd W} (end_ : Z) (num_arrays : nat) (m : Z).
Hypothesis (Hend : 0 <= end_ < 2 ^ 30).

(** The state after an argument has been decoded. *)
Definition rt_post (pre post : list wl_argument) (t : wl_arg_type) (a : wl_argument)
    (frest : list Z) (o' : wl_map) (w' : W) (s s' : demarshal_state W) : Prop :=
  d_closure s' = cl_with_args (pre ++ received t a :: post) (d_closure s) ∧
  d_p s' = d_p s + arg_words t a ∧
  d_arrays s' = (d_arrays s + if bool_decide (t = WL_ARG_ARRAY) then 1 else 0)%nat ∧
  state_fds s' = frest ∧ fd_ring_bounded m (d_fds_in s') ∧ d_objects s' = o' ∧ d_world s' = w'.

Context (before bs rest : list Z) (pre post : list wl_argument) (a0 : wl_argument) (b : bool).
Context (s : demarshal_state W).
Hypothesis (Hbuf : Z.of_nat (length before) = d_p s * 4) (Hp : 0 <= d_p s)
  (Hargs : cl_args (d_closure s) = pre ++ a0 :: post) (Hfdr : fd_ring_bounded m (d_fds_in s)).

Lemma rt_store t a p frest :
  t ≠ WL_ARG_ARRAY → state_fds s = frest → p = d_p s + arg_words t a →
  rt_post pre post t a frest (d_objects s) (d_world s) s
    (d_store (length pre) (received t a) p s).
Proof.
  intros Hna Hf ->. split_and!; try done; [by eapply cl_set_arg_middle|].
  rewrite bool_decide_eq_false_2 by done. cbn. lia.
Qed.

Lemma rt_fd h frest :
  state_fds s = h :: frest →
  ∃ s', demarshal_body (before ++ bs ++ rest) end_ num_arrays (length pre) (Some WL_ARG_FD) b s =
      Some (Next s') ∧
    rt_post pre post WL_ARG_FD (arg_h h) frest (d_objects s) (d_world s) s s'.
Proof.
  intros Hfds. unfold demarshal_body. change (is_fd (Some WL_ARG_FD)) with true. cbn [negb andb].
  unfold state_fds in Hfds.
  assert (rb_tail (d_fds_in s) ≠ rb_head (d_fds_in s)) as Hnz.
  { intros E. pose proof (fds_length _ (proj1 Hfdr)) as Hl.
    rewrite Hfds in Hl. unfold ring_buffer_size in Hl. rewrite E, Z.sub_diag in Hl. done. }
  rewrite (proj2 (Z.eqb_neq _ _)) by done.
  destruct (fd_ring_pop m _ Hfdr Hnz) as (fdb&->&Hfdr'&Hdec). cbn [mbind option_bind].
  rewrite Hdec in Hfds. injection Hfds as Hh Hf. rewrite Hh.
  eexists. split; [done|]. split_and!; try done; cbn; try lia. by eapply cl_set_arg_middle.
Qed.

Section words.
Context (t : wl_arg_type) (Hne : t ≠ WL_ARG_FD) (Hroom : d_p s + 1 <= end_).

(** The check that a word is left succeeds. *)
Lemma word_left : negb (is_fd (Some t)) && (end_ <? d_p s + 1) = false.
Proof. rewrite is_fd_false by done. by apply Z.ltb_ge. Qed.
End words.

Lemma rt_string str :
  wire_block P (str ++ [0]) bs → c_string str →
  d_p s + block_words (Z.of_nat (length str) + 1) <= end_ →
  demarshal_body (before ++ bs ++ rest) end_ num_arrays (length pre) (Some WL_ARG_STRING) b s =
    Some (Next (d_store (length pre) (arg_s (Some str))
      (d_p s + block_words (Z.of_nat (length str) + 1)) s)).
Proof.
  intros Hw Hstr Hfit. pose proof (block_words_pos (Z.of_nat (length str) + 1)).
  unfold demarshal_body. rewrite word_left by (done || lia).
  assert (Hn : Z.of_nat (length (str ++ [0])) = Z.of_nat (length str) + 1)
    by (rewrite length_app; cbn; lia).
  destruct (wire_block_decode before _ bs rest (d_p s) end_ Hw) as (->&Hlt&Hnext&pad&Hpad);
    try done; try lia; [by rewrite Hn|]. rewrite Hn in *. cbn [mbind option_bind].
  rewrite (proj2 (Z.eqb_neq (Z.of_nat (length str) + 1) 0)) by lia. cbn [andb]. rewrite Hlt.
  assert (Hlast : (before ++ bs ++ rest) !! Z.to_nat ((d_p s + 1) * sizeof_u32 +
    (Z.of_nat (length str) + 1) - 1) = Some 0).
  { replace (Z.to_nat _) with (Z.to_nat ((d_p s + 1) * sizeof_u32) + length str)%nat
      by (unfold sizeof_u32; lia).
    rewrite <- lookup_drop, Hpad, <- app_assoc. by apply list_lookup_middle. }
  rewrite Hlast. cbn [mbind option_bind Z.eqb negb]. rewrite andb_false_r, Hpad, <- app_assoc.
  cbn [app]. rewrite c_str_wire by done. cbn [mbind option_bind]. by rewrite Hnext.
Qed.

Lemma rt_array l :
  wire_block P l bs → (d_arrays s < num_arrays)%nat →
  d_p s + block_words (Z.of_nat (length l)) <= end_ →
  demarshal_body (before ++ bs ++ rest) end_ num_arrays (length pre) (Some WL_ARG_ARRAY) b s =
    Some (Next (d_next_array (d_store (length pre) (arg_a (Some l))
      (d_p s + block_words (Z.of_nat (length l))) s))).
Proof.
  intros Hw Harr Hfit. pose proof (block_words_pos (Z.of_nat (length l))).
  unfold demarshal_body. rewrite word_left by (done || lia).
  destruct (wire_block_decode before _ bs rest (d_p s) end_ Hw) as (->&Hlt&Hnext&pad&Hpad);
    try done; try lia. cbn [mbind option_bind]. rewrite Hlt, decide_False by lia.
  assert (Hrd : read_range (before ++ bs ++ rest) ((d_p s + 1) * sizeof_u32)
    (Z.of_nat (length l)) = Some l).
  { destruct Hw as (pad'&_&Hbl&_). unfold block_words, sizeof_u32 in *.
    rewrite read_range_Some by (rewrite ?length_app in *; mlia).
    rewrite Hpad. by rewrite take_app_length' by lia. }
  rewrite Hrd. cbn [mbind option_bind]. by rewrite Hnext.
Qed.

(** A null array and an empty one have the same bytes. *)
Lemma wire_null_array : wire_arg heap P WL_ARG_ARRAY (arg_a None) bs → wire_block P [] bs.
Proof. intros ->. exists []. split_and!; [done..|constructor]. Qed.

Lemma rt_step t a frest o' w' :
  wire_arg heap P t a bs → arg_typed heap t a → arg_nonnull t b a →
  d_p s + arg_words t a <= end_ → (t = WL_ARG_ARRAY → (d_arrays s < num_arrays)%nat) →
  state_fds s = raw_fds [(t, b)] [a] ++ frest →
  reserve_ids (new_ids [(t, b)] [a]) (d_objects s) (d_world s) = Some (o', w') →
  ∃ s', demarshal_body (before ++ bs ++ rest) end_ num_arrays (length pre) (Some t) b s =
      Some (Next s') ∧ rt_post pre post t a frest o' w' s s'.
Proof.
  intros Hw Ht Hnn Hfit Harr Hfds Hres.
  destruct (decide (t = WL_ARG_FD)) as [->|Hne].
  { destruct Ht as [h ->]. injection Hres as <- <-. by apply rt_fd. }
  pose proof (arg_words_1 t a Hne) as Hw1.
  destruct t; try done; cbn [arg_typed wire_arg] in Ht, Hw.
  4: { destruct Ht as ([str|]&->&Hstr); injection Hres as <- <-.
    - rewrite (rt_string str) by auto. eexists. split; [done|]. by apply rt_store.
    - subst bs. unfold demarshal_body. rewrite word_left by (done || lia).
      rewrite get_u32_wire by done. cbn in Hnn. rewrite Hnn. change (u32 0) with 0.
      cbn [mbind option_bind Z.eqb negb andb]. eexists. split; [done|]. by apply rt_store. }
  6: { destruct Ht as [v ->]. injection Hres as <- <-.
    assert (wire_block P (default [] v) bs) as Hb
      by (destruct v; [done|by apply wire_null_array]).
    rewrite (rt_array (default [] v)); [|done|by apply Harr|by destruct v].
    eexists. split; [done|]. split_and!; try done; [by eapply cl_set_arg_middle|by destruct v|].
    rewrite bool_decide_eq_true_2 by done. cbn. lia. }
  all: destruct Ht as [v Ht]; unfold demarshal_body; rewrite word_left by (done || lia).
  1-3: subst; cbn [wire_arg] in Hw; subst bs; rewrite get_u32_wire by done;
    cbn [mbind option_bind]; eexists; (split; [done|]); injection Hres as <- <-;
    rewrite ?u32_i32; by apply rt_store.
  - destruct Ht as [-> _]. subst bs. rewrite get_u32_wire by done. cbn [mbind option_bind].
    cbn in Hnn. destruct (Z.eqb_spec (u32 (object_id heap v)) 0) as [E|E]; [rewrite (Hnn E)|];
      cbn [negb andb]; (eexists; split; [done|]); injection Hres as <- <-; by apply rt_store.
  - subst. cbn [wire_arg] in Hw. subst bs. rewrite get_u32_wire by done.
    cbn [mbind option_bind]. cbn in Hnn, Hfds. rewrite (proj2 (Z.eqb_neq _ _)) by done.
    cbn [d_store d_objects d_world]. cbn [new_ids reserve_ids] in Hres.
    destruct (wl_map_reserve_new _ _ _) as [[[[u|e] o1] w1]|]; cbn in Hres; try done.
    injection Hres as <- <-. cbn [mbind option_bind]. eexists. split; [done|].
    split_and!; try done. by eapply cl_set_arg_middle.
Qed.
End rt_step.

Section rt_loop.
Context {W : Type} `{OsMem W} `{OsFd W} (end_ : Z) (num_arrays : nat) (m : Z).
Hypothesis (Hend : 0 <= end_ < 2 ^ 30).

Lemma reserve_ids_app ids1 ids2 o (w : W) :
  reserve_ids (ids1 ++ ids2) o w = ('(o, w) ← reserve_ids ids1 o w; reserve_ids ids2 o w).
Proof.
  revert o w. induction ids1 as [|id ids1 IH]; intros o w; [done|]. cbn [app reserve_ids].
  destruct (wl_map_reserve_new o id w) as [[[[]]]|]; cbn; [apply IH|done|done].
Qed.

Lemma rt_loop ps : ∀ args before bs rest pre us tail frest o' w' (s : demarshal_state W),
  wire_args heap P ps args bs → args_typed heap ps args → args_nonnull ps args →
  Z.of_nat (length before) = d_p s * 4 → 0 <= d_p s →
  d_p s + args_words ps args <= end_ → num_arrays = (d_arrays s + n_arrays ps)%nat →
  cl_args (d_closure s) = pre ++ us ++ tail → length us = length ps →
  fd_ring_bounded m (d_fds_in s) → state_fds s = raw_fds ps args ++ frest →
  reserve_ids (new_ids ps args) (d_objects s) (d_world s) = Some (o', w') →
  ∃ s', for_list (demarshal_body (before ++ bs ++ rest) end_ num_arrays) ps (length pre) s =
      Some (Next s') ∧
    d_closure s' = cl_with_args (pre ++ received_list ps args ++ tail) (d_closure s) ∧
    state_fds s' = frest ∧ fd_ring_bounded m (d_fds_in s') ∧ d_objects s' = o' ∧ d_world s' = w'.
Proof.
  induction ps as [|[t b] ps IH];
    intros args before bs rest pre us tail frest o' w' s Hw Ht Hnn Hb Hp Hfit Hna Ha Hus Hfd Hf Hres.
  { destruct us; [|done]. cbn in Hres. injection Hres as <- <-. exists s. split; [done|].
    split_and!; try done. symmetry. by apply cl_with_args_self. }
  destruct args as [|a args]; [done|]. destruct us as [|u us]; [done|].
  destruct Hw as (b1&b2&->&Hw&Hws), Ht as [Ht Hts], Hnn as [Hnn Hnns].
  cbn [args_words] in Hfit. pose proof (args_words_pos ps args).
  rewrite n_arrays_cons in Hna. rewrite (raw_fds_cons (t, b) ps a args), <- app_assoc in Hf.
  rewrite (new_ids_cons (t, b) ps a args), reserve_ids_app in Hres.
  destruct (reserve_ids (new_ids [(t, b)] [a]) _ _) as [[o1 w1]|] eqn:Hr1; [|done].
  cbn [mbind option_bind] in Hres. cbn [app] in Ha. rewrite <- (app_assoc b1 b2 rest).
  destruct (rt_step end_ num_arrays m Hend before b1 (b2 ++ rest) pre (us ++ tail) u b s
    Hb Hp Ha Hfd t a (raw_fds ps args ++ frest) o1 w1) as (s1&Hs1&Hcl1&Hp1&Ha1&Hf1&Hfd1&Ho1&Hw1);
    try done; [lia| |].
  { intros ->. rewrite bool_decide_eq_true_2 in Hna by done. lia. }
  cbn [for_list]. rewrite Hs1. cbn [mbind option_bind].
  rewrite <- (length_snoc pre (received t a)), (app_assoc before b1).
  pose proof (wire_arg_length heap P t a b1 Hw). pose proof (arg_words_pos t a).
  destruct (IH args (before ++ b1) b2 rest (pre ++ [received t a]) us tail frest o' w' s1)
    as (s'&Hs'&Hcl'&Hrest); try done.
  - rewrite length_app. lia.
  - lia.
  - lia.
  - lia.
  - by rewrite Hcl1, <- app_assoc.
  - by injection Hus.
  - by rewrite Ho1, Hw1.
  - exists s'. split; [done|]. split; [|done]. by rewrite Hcl', Hcl1, <- app_assoc.
Qed.
End rt_loop.

Section rt_message.
Context {W : Type} `{OsMem W} `{OsFd W}.

Lemma length_received_list ps args :
  args_typed heap ps args → length (received_list ps args) = length ps.
Proof.
  revert args. induction ps as [|[t b] ps IH]; intros [|a args] Ht; cbn; try done.
  destruct Ht. by rewrite IH.
Qed.

Lemma get_u32_header sender opcode size body :
  let bs := wire_header sender opcode size ++ body in
  get_u32 bs 0 = Some (u32 sender) ∧
  get_u32 bs 1 = Some (u32 (Z.lor (u32 (Z.shiftl size 16)) (Z.land opcode 0xffff))).
Proof.
  unfold wire_header. rewrite <- app_assoc. split; [by apply (get_u32_wire [])|].
  apply get_u32_wire. by rewrite length_wire_word.
Qed.

Lemma rt_closure m cl body bs us tail frest c objects o' (w w' : W) :
  let ps := parse_signature (cl_signature cl) in
  let size := 4 * closure_words cl in
  bs = wire_header (cl_sender_id cl) (cl_opcode cl) size ++ body →
  wire_args heap P ps (cl_args cl) body → args_typed heap ps (cl_args cl) →
  args_nonnull ps (cl_args cl) → size < 2 ^ 16 → fd_ring_bounded m (c_fds_in c) →
  fds_decode (ring_contents (c_fds_in c)) = raw_fds ps (cl_args cl) ++ frest →
  reserve_ids (new_ids ps (cl_args cl)) objects w = Some (o', w') → length us = length ps →
  ∃ b, demarshal_closure c size objects (cl_message cl)
      (mk_closure (length ps) (cl_message cl) 0 0 (us ++ tail)) (n_arrays ps) bs w =
    Some (Ret (mk_closure (length ps) (cl_message cl) (Z.land (cl_opcode cl) 0xffff)
                 (u32 (cl_sender_id cl)) (received_list ps (cl_args cl) ++ tail)),
          wl_connection_consume (c_set_fds_in b c) size, o', w') ∧
    fds_decode (ring_contents b) = frest ∧ fd_ring_bounded m b.
Proof.
  intros ps size -> Hw Ht Hnn Hsz Hfd Hf Hres Hus. unfold demarshal_closure, sizeof_u32.
  pose proof (args_words_pos ps (cl_args cl)) as Hpos.
  assert (Hcw : closure_words cl = 2 + args_words ps (cl_args cl)) by done.
  destruct (get_u32_header (cl_sender_id cl) (cl_opcode cl) size body) as [-> ->].
  cbn [mbind option_bind]. rewrite wire_opcode, for_args_parse by done.
  change (parse_signature (msg_signature (cl_message cl))) with ps.
  replace (size / 4) with (closure_words cl) by (unfold size; rewrite Z.mul_comm, Z.div_mul; lia).
  destruct (rt_loop (closure_words cl) (n_arrays ps) m ltac:(lia) ps (cl_args cl)
    (wire_header (cl_sender_id cl) (cl_opcode cl) size) body [] [] us tail frest o' w'
    (mk_demarshal (cl_set_header (u32 (cl_sender_id cl)) (Z.land (cl_opcode cl) 0xffff)
       (mk_closure (length ps) (cl_message cl) 0 0 (us ++ tail))) (c_fds_in c) objects 2 0 w))
    as (s'&Hs'&Hcl&Hf'&Hfd'&Ho&Hw'); try done.
  { rewrite app_nil_r in Hs'. cbn [length] in Hs'. rewrite Hs'. cbn [mbind option_bind].
    exists (d_fds_in s'). rewrite Hcl, Ho, Hw'. by split_and!. }
Qed.

(** The bytes of a message, received whole, decode to the closure they came
    from; what follows them stays in the connection. *)
Lemma demarshal_roundtrip m cl bs rest frest c objects junk o' (w w1 w2 : W) :
  let ps := parse_signature (cl_signature cl) in
  let size := 4 * closure_words cl in
  message_of heap P cl bs → closure_wf heap cl → args_nonnull ps (cl_args cl) →
  (length ps <= WL_CLOSURE_MAX_ARGS)%nat → size < 2 ^ 16 →
  conn_in_ok m c → ring_contents (c_in c) = bs ++ rest →
  fds_decode (ring_contents (c_fds_in c)) = raw_fds ps (cl_args cl) ++ frest →
  os_alloc (u64 (closure_alloc_size size (n_arrays ps))) w = (Some junk, w1) →
  reserve_ids (new_ids ps (cl_args cl)) objects w1 = Some (o', w2) →
  ∃ cl' c', wl_connection_demarshal c size objects (cl_message cl) w = Some (Ret cl', c', o', w2) ∧
    cl_message cl' = cl_message cl ∧ cl_sender_id cl' = u32 (cl_sender_id cl) ∧
    cl_opcode cl' = Z.land (cl_opcode cl) 0xffff ∧
    take (length ps) (cl_args cl') = received_list ps (cl_args cl) ∧
    ring_contents (c_in c') = rest ∧ fds_decode (ring_contents (c_fds_in c')) = frest.
Proof.
  intros ps size Hmsg [_ Ht] Hnn Hmax Hsz Hin Hcon Hfds Halloc Hres.
  destruct Hmsg as (body&Hbs&Hw). fold ps in Ht, Hw.
  pose proof (wire_args_length heap P ps (cl_args cl) body Hw) as Hbl.
  pose proof (args_words_pos ps (cl_args cl)) as Hpos.
  assert (Hcw : closure_words cl = 2 + args_words ps (cl_args cl)) by done.
  unfold wl_connection_demarshal, sizeof_u32. rewrite (proj2 (Z.ltb_ge _ _)) by lia.
  destruct (init_empty_spec (cl_message cl) size w) as (us&tail&Hus&->); [done|lia|].
  change (parse_signature (msg_signature (cl_message cl))) with ps in Hus |- *.
  rewrite Halloc. cbn [mbind option_bind].
  pose proof (n_arrays_le ps). rewrite alloc_room by lia.
  pose proof Hin as (Hrin&_&Hfd). pose proof (ring_ok_length _ Hrin) as Hrl.
  assert (Hbsl : Z.of_nat (length bs) = size)
    by (rewrite Hbs, length_app, length_wire_header; lia).
  assert (size <= ring_buffer_size (c_in c)) by (rewrite <- Hrl, Hcon, length_app; lia).
  unfold wl_connection_copy. rewrite ring_ok_copy_prefix by (done || lia). rewrite Hcon.
  rewrite take_app_length' by lia. cbn [mbind option_bind].
  destruct (rt_closure m cl body bs (clear_args ps us) tail frest c objects o' w1 w2)
    as (b&Hd&Hfr&Hfb); try done; [by rewrite length_clear_args|]. fold ps size in Hd. rewrite Hd.
  destruct (consume_in_ok m c size b Hin Hfb) as (_&_&Hb&Hc); [lia|].
  eexists _, _. split; [done|]. split_and!; try done.
  - cbn. apply take_app_length'. by rewrite length_received_list.
  - rewrite Hc, Hcon. apply drop_app_length'. lia.
Qed.
End rt_message.
End roundtrip.
