(* ===== verification/WlProtocol.v ===== *)
(** * Messages end to end

    The properties of closures as a caller of libwayland relies on them:
    marshalling, sending, receiving, looking objects up and calling the
    listener. *)

From stdpp Require Import strings.
From S2P Require Import Prelude Os OsSim WlOs WlRing WlConnection WlSession WlArray WlMap.
From S2P Require Import WlMessage WlClosure WlTransmit WlDemarshal.
Open Scope Z_scope.

(** ** Looking up object arguments *)

Section lookup.
Context (heap : Z → option wl_object).
Context (objects : wl_map) (A : gmap Z (Z * Z)) (free : list Z).
Hypothesis (Hrep : map_rep objects A free).

(** An id of the message as an object: a zombie is null, an unknown id an
    error. *)
Definition resolve (id : Z) : option Z :=
  let '(data, flags) := default (0, 0) (A !! id) in
  if negb (side objects =? WL_MAP_SERVER_SIDE) && (id <? WL_SERVER_ID_START)
     && negb (Z.land flags 1 =? 0) then Some 0
  else if (data =? 0) && negb (id =? 0) then None
  else Some data.

(** The object has the interface the message asks for. *)
Definition type_ok (type : option wl_interface) (o : Z) : Prop :=
  o = 0 ∨ match type with
          | None => True
          | Some ty => ∃ object, heap o = Some object ∧
                       wl_interface_equal (o_interface object) ty = true
          end.

(** Entries of the map are null or point to objects. *)
Definition map_objects_ok : Prop :=
  ∀ id data flags, A !! id = Some (data, flags) → data = 0 ∨ is_Some (heap data).

Definition is_object (t : option wl_arg_type) : bool := bool_decide (t = Some WL_ARG_OBJECT).

(** One argument. *)
Definition lookup_done (message : wl_message) (i : nat) (t : wl_arg_type) (cl cl' : wl_closure)
    : Prop :=
  if is_object (Some t) then
    ∃ id o ty, cl_arg cl i = Some (arg_n id) ∧ resolve id = Some o ∧
      msg_types message !! i = Some ty ∧ type_ok ty o ∧ cl_arg cl' i = Some (arg_o o)
  else cl_arg cl' i = cl_arg cl i.

(** The argument cannot be resolved. *)
Definition lookup_bad (message : wl_message) (i : nat) (cl : wl_closure) : Prop :=
  ∃ id, cl_arg cl i = Some (arg_n id) ∧
    (resolve id = None ∨
     ∃ o ty, resolve id = Some o ∧ msg_types message !! i = Some ty ∧ ¬ type_ok ty o).

Lemma resolve_spec id :
  0 <= id < 2 ^ 32 →
  ∃ o z, wl_map_lookup objects id = Some o ∧ wl_object_is_zombie objects id = Some z ∧
    resolve id = if z then Some 0 else if (o =? 0) && negb (id =? 0) then None else Some o.
Proof.
  intros Hid. destruct (lookup_rep _ _ _ Hrep id Hid) as [Hl Hf]. unfold resolve.
  destruct (default (0, 0) (A !! id)) as [data flags]; cbn [fst snd] in *.
  exists data. rewrite Hl. unfold wl_object_is_zombie. rewrite Z.leb_antisym.
  destruct (side objects =? WL_MAP_SERVER_SIDE); cbn [negb andb]; [by eexists|].
  destruct (id <? WL_SERVER_ID_START); cbn [negb andb]; [|by eexists].
  rewrite Hf. by eexists.
Qed.

Lemma cl_arg_set_same cl i a a' : cl_arg cl i = Some a → cl_arg (cl_set_arg i a' cl) i = Some a'.
Proof. intros Ha. unfold cl_arg in *. cbn. apply list_lookup_insert_eq. by eapply lookup_lt_Some. Qed.

Lemma cl_arg_set_other cl i j a : j ≠ i → cl_arg (cl_set_arg i a cl) j = cl_arg cl j.
Proof. intros Hne. unfold cl_arg. cbn. by apply list_lookup_insert_ne. Qed.

Lemma lookup_heap id o :
  map_objects_ok → 0 <= id < 2 ^ 32 → wl_map_lookup objects id = Some o →
  o = 0 ∨ is_Some (heap o).
Proof.
  intros Hobj Hid Ho. destruct (lookup_rep _ _ _ Hrep id Hid) as [Hl _].
  rewrite Hl in Ho. injection Ho as <-. destruct (A !! id) as [[data flags]|] eqn:HA; cbn; [|by left].
  by eapply Hobj.
Qed.

Lemma lookup_body_spec cl i b t id' ty :
  map_objects_ok → (t = WL_ARG_OBJECT → cl_arg cl i = Some (arg_n id') ∧ 0 <= id' < 2 ^ 32) →
  (t = WL_ARG_OBJECT → msg_types (cl_message cl) !! i = Some ty) →
  ∃ r, lookup_objects_body heap objects i (Some t) b cl = Some r ∧
    match r with
    | Next cl' => lookup_done (cl_message cl) i t cl cl' ∧ cl_message cl' = cl_message cl ∧
                  ∀ j, j ≠ i → cl_arg cl' j = cl_arg cl j
    | Break e _ => e = EINVAL ∧ t = WL_ARG_OBJECT ∧ lookup_bad (cl_message cl) i cl
    end.
Proof.
  intros Hobj Hid Hty. unfold lookup_objects_body, lookup_done. fold (is_object (Some t)).
  unfold is_object. case_bool_decide as Ht; [|by eexists]. injection Ht as ->.
  destruct (Hid eq_refl) as [Ha Hr]. specialize (Hty eq_refl). rewrite Ha. cbn [mbind option_bind get_n].
  destruct (resolve_spec id' Hr) as (o&z&Ho&->&Hres). rewrite Ho. cbn [mbind option_bind].
  assert (Hset : ∀ o', resolve id' = Some o' → type_ok ty o' →
    let cl' := cl_set_arg i (arg_o o') (cl_set_arg i (arg_o 0) cl) in
    (∃ id o ty, Some (arg_n id') = Some (arg_n id) ∧ resolve id = Some o ∧
      msg_types (cl_message cl) !! i = Some ty ∧ type_ok ty o ∧
      cl_arg cl' i = Some (arg_o o)) ∧ cl_message cl' = cl_message cl ∧
    ∀ j, j ≠ i → cl_arg cl' j = cl_arg cl j).
  { intros o' Ho' Hto cl'. split_and!; [|done|].
    - exists id', o', ty. split_and!; try done. eapply cl_arg_set_same. by eapply cl_arg_set_same.
    - intros j Hj. unfold cl'. by rewrite !cl_arg_set_other. }
  destruct z; cbn [negb andb].
  { eexists. split; [done|]. apply Hset; [done|by left]. }
  destruct ((o =? 0) && negb (id' =? 0)) eqn:Hbad.
  { eexists. split; [done|]. split_and!; try done. exists id'. split; [done|]. by left. }
  destruct (Z.eqb_spec o 0) as [->|Hne].
  { eexists. split; [done|]. apply Hset; [done|by left]. }
  change (msg_types (cl_message (cl_set_arg i (arg_o 0) cl))) with (msg_types (cl_message cl)).
  pose proof Hty as Hty'. rewrite Hty in Hset |- *. cbn [mbind option_bind]. destruct ty as [ty|].
  2: { eexists. split; [done|]. apply Hset; [done|by right]. }
  destruct (lookup_heap id' o Hobj Hr Ho) as [?|[object Hob]]; [done|]. rewrite Hob.
  cbn [mbind option_bind]. destruct (wl_interface_equal _ ty) eqn:Heq; cbn [negb];
    (eexists; split; [done|]).
  - apply Hset; [done|]. right. by exists object.
  - split_and!; try done. exists id'. split; [done|]. right. exists o, (Some ty).
    split_and!; try done. intros [?|(object'&Hob'&Heq')]; [done|]. congruence.
Qed.

(** What the decoder guarantees of the object arguments. *)
Definition objects_received (cl : wl_closure) : Prop :=
  ∀ i b, parse_signature (cl_signature cl) !! i = Some (WL_ARG_OBJECT, b) →
    (∃ id, cl_arg cl i = Some (arg_n id) ∧ 0 <= id < 2 ^ 32) ∧
    is_Some (msg_types (cl_message cl) !! i).

Lemma lookup_objects_spec cl :
  map_objects_ok → objects_received cl →
  ∃ r cl', wl_closure_lookup_objects heap cl objects = Some (r, cl') ∧
    match r with
    | Ret _ => ∀ i t b, parse_signature (cl_signature cl) !! i = Some (t, b) →
                 lookup_done (cl_message cl) i t cl cl'
    | Fail e => e = EINVAL ∧ ∃ i b, lookup_bad (cl_message cl) i cl ∧
                  parse_signature (cl_signature cl) !! i = Some (WL_ARG_OBJECT, b)
    end.
Proof.
  intros Hobj Hrcv. unfold wl_closure_lookup_objects.
  rewrite for_args_parse by apply arg_count_parse.
  set (ps := parse_signature (cl_signature cl)) in *.
  set (P := λ (i : nat) cl', cl_message cl' = cl_message cl ∧
    (∀ j t b, ps !! j = Some (t, b) → (j < i)%nat → lookup_done (cl_message cl) j t cl cl') ∧
    ∀ j, (i <= j)%nat → cl_arg cl' j = cl_arg cl j).
  set (Q := λ (e : errno) (cl' : wl_closure), e = EINVAL ∧ ∃ i b,
    lookup_bad (cl_message cl) i cl ∧ ps !! i = Some (WL_ARG_OBJECT, b)).
  destruct (for_list_ind (lookup_objects_body heap objects) P Q ps 0 cl) as (r&->&Hr).
  - split_and!; [done|lia|done].
  - intros i t b cl1 Hi (Hmsg&Hdone&Hrest). cbn [Nat.add].
    assert (∃ id ty, (t = WL_ARG_OBJECT → cl_arg cl1 i = Some (arg_n id) ∧ 0 <= id < 2 ^ 32) ∧
      (t = WL_ARG_OBJECT → msg_types (cl_message cl1) !! i = Some ty)) as (id&ty&Hid&Hty).
    { destruct (decide (t = WL_ARG_OBJECT)) as [->|]; [|by exists 0, None].
      destruct (Hrcv i b Hi) as [(id&Ha&?) [ty Hty]]. exists id, ty.
      by rewrite Hrest, Hmsg by (cbn; lia). }
    destruct (lookup_body_spec cl1 i b t id ty Hobj Hid Hty) as (r&->&Hr).
    eexists. split; [done|]. destruct r as [cl2|e cl2].
    + destruct Hr as (Hd&Hm&Ho). split_and!; [congruence| |].
      * intros j t' b' Hj Hlt. destruct (decide (j = i)) as [->|Hne].
        -- rewrite Hi in Hj. injection Hj as <- <-. rewrite Hmsg in Hd.
           unfold lookup_done in *. by rewrite (Hrest i) in Hd by (cbn; lia).
        -- specialize (Hdone j t' b' Hj ltac:(cbn in *; lia)). unfold lookup_done in *.
           by rewrite Ho.
      * intros j Hj. rewrite Ho by (cbn in *; lia). apply Hrest. cbn in *. lia.
    + destruct Hr as (->&->&Hbad). split; [done|]. exists i, b. split; [|done].
      unfold lookup_bad in *. by rewrite Hmsg, (Hrest i) in Hbad by (cbn; lia).
  - cbn [mbind option_bind]. destruct r as [cl'|e cl']; eexists _, _; (split; [done|]); [|done].
    destruct Hr as (_&Hdone&_). intros i t b Hi. apply Hdone with b; [done|].
    by apply lookup_lt_Some in Hi.
Qed.

(** Only object arguments change. *)
Lemma lookup_objects_frame cl r cl' : wl_closure_lookup_objects heap cl objects = Some (r, cl') →
  cl_message cl' = cl_message cl ∧ cl_count cl' = cl_count cl ∧ length (cl_args cl') = length (cl_args cl) ∧
  ∀ i, (∀ b, parse_signature (cl_signature cl) !! i ≠ Some (WL_ARG_OBJECT, b)) → cl_arg cl' i = cl_arg cl i.
Proof.
  unfold wl_closure_lookup_objects. rewrite for_args_parse by apply arg_count_parse.
  destruct (for_list _ _ _ _) as [x|] eqn:E; [|done]. cbn [mbind option_bind]. intros Ex.
  assert (∀ ps i cl x, for_list (lookup_objects_body heap objects) ps i cl = Some x →
    let cl' := match x with Next c | Break _ c => c end in
    cl_message cl' = cl_message cl ∧ cl_count cl' = cl_count cl ∧ length (cl_args cl') = length (cl_args cl) ∧
    ∀ j, (∀ k b, ps !! k = Some (WL_ARG_OBJECT, b) → j ≠ (i + k)%nat) → cl_arg cl' j = cl_arg cl j) as Hloop.
  { clear. induction ps as [|[t b] ps IH]; intros i cl x; cbn [for_list]; [by intros [= <-]|].
    destruct (lookup_objects_body heap objects i (Some t) b cl) as [y|] eqn:Ey; [|done]. cbn [mbind option_bind].
    assert (let cl1 := match y with Next c | Break _ c => c end in
      cl_message cl1 = cl_message cl ∧ cl_count cl1 = cl_count cl ∧ length (cl_args cl1) = length (cl_args cl) ∧
      ∀ j, (t = WL_ARG_OBJECT → j ≠ i) → cl_arg cl1 j = cl_arg cl j) as (Hm&Hc&Hl&Ha).
    { unfold lookup_objects_body in Ey. case_bool_decide as Ht; [|by injection Ey as <-]. injection Ht as ->.
      assert (∀ a a', let c := cl_set_arg i a (cl_set_arg i a' cl) in cl_message c = cl_message cl ∧ cl_count c = cl_count cl ∧
        length (cl_args c) = length (cl_args cl) ∧ ∀ j, (WL_ARG_OBJECT = WL_ARG_OBJECT → j ≠ i) → cl_arg c j = cl_arg cl j) as H2.
      { intros a a'. cbn. rewrite !length_insert. split_and!; [done..|]. intros j Hj. by rewrite !cl_arg_set_other by auto. }
      assert (∀ a, let c := cl_set_arg i a cl in cl_message c = cl_message cl ∧ cl_count c = cl_count cl ∧
        length (cl_args c) = length (cl_args cl) ∧ ∀ j, (WL_ARG_OBJECT = WL_ARG_OBJECT → j ≠ i) → cl_arg c j = cl_arg cl j) as H1.
      { intros a. cbn. rewrite length_insert. split_and!; [done..|]. intros j Hj. by rewrite cl_arg_set_other by auto. }
      destruct (cl_arg cl i ≫= get_n) as [id|]; [|done]. cbn [mbind option_bind] in Ey.
      destruct (wl_map_lookup objects id) as [o|]; [|done]. cbn [mbind option_bind] in Ey.
      destruct (wl_object_is_zombie objects id) as [z|]; [|done]. cbn [mbind option_bind] in Ey.
      destruct (negb z && _ && _); [injection Ey as <-; apply H1|]. destruct ((if z then 0 else o) =? 0); [injection Ey as <-; apply H2|].
      destruct (msg_types _ !! i) as [[ty|]|]; [..|done]; cbn [mbind option_bind] in Ey; [|injection Ey as <-; apply H2].
      destruct (heap _) as [ob|]; [|done]. cbn [mbind option_bind] in Ey. destruct (negb _); injection Ey as <-; [apply H1|apply H2]. }
    destruct y as [cl1|e cl1]; [|intros [= <-]; split_and!; try done].
    - intros Hx. destruct (IH (S i) cl1 x Hx) as (Hm'&Hc'&Hl'&Ha'). split_and!; try congruence.
      intros j Hj. rewrite Ha', Ha; [done|..].
      + intros ->. specialize (Hj 0%nat b eq_refl). lia.
      + intros k b' Hk. specialize (Hj (S k) b' Hk). lia.
    - intros j Hj. apply Ha. intros ->. specialize (Hj 0%nat b eq_refl). lia. }
  destruct (Hloop _ _ _ _ E) as (?&?&?&Hd). assert (cl' = match x with Next c | Break _ c => c end) as -> by (by destruct x; simplify_eq).
  split_and!; try done. intros i Hi. apply Hd. intros k b Hk ->. by apply (Hi b).
Qed.

Lemma lookup_objects_fds cl r cl' : wl_closure_lookup_objects heap cl objects = Some (r, cl') → closure_fds_ok cl → closure_fds_ok cl'.
Proof.
  intros (Hm&Hc&Hl&Ha)%lookup_objects_frame [Hn Ht]. unfold closure_fds_ok, cl_signature in *. rewrite Hm, Hc. split; [done|].
  apply fds_typed_lookup in Ht as [Hlen Ht]. apply fds_typed_lookup. split; [lia|]. intros i b Hi. destruct (Ht i b Hi) as [h Hh]. exists h.
  change (cl_arg cl' i = Some (arg_h h)). rewrite Ha; [done|]. intros b'. by rewrite Hi.
Qed.
End lookup.

(** ** Calling a listener *)

(** The C type a listener declares for an argument of the signature. *)
Definition listener_type (flag : wl_closure_invoke_flag) (t : wl_arg_type) : ffi_type :=
  match t, flag with
  | WL_ARG_UINT, _ | WL_ARG_NEW_ID, WL_CLOSURE_INVOKE_SERVER => ffi_type_uint32
  | WL_ARG_INT, _ | WL_ARG_FIXED, _ | WL_ARG_FD, _ => ffi_type_sint32
  | _, _ => ffi_type_pointer
  end.

Fixpoint listener_args (flag : wl_closure_invoke_flag) (ps : list (wl_arg_type * bool))
    (args : list wl_argument) : list (ffi_type * ffi_value) :=
  match ps, args with
  | (t, _) :: ps, a :: args => (listener_type flag t, ffi_argument a) :: listener_args flag ps args
  | _, _ => []
  end.

Lemma ffi_loop_spec flag args ps i acc :
  (i + length ps <= length args)%nat →
  for_list (ffi_body flag args) ps i acc = Some (Next (acc ++ listener_args flag ps (drop i args))).
Proof.
  revert i acc. induction ps as [|[t b] ps IH]; intros i acc Hl.
  { cbn. by rewrite app_nil_r. }
  destruct (lookup_lt_is_Some_2 args i) as [a Ha]; [cbn in Hl; lia|].
  cbn [for_list]. unfold ffi_body at 2. rewrite Ha. cbn [mbind option_bind].
  rewrite IH by (cbn in Hl; lia). rewrite (drop_S _ _ _ Ha). cbn [listener_args].
  rewrite <- app_assoc. cbn [app]. by destruct t, flag.
Qed.

Lemma invoke_spec {F W : Type} (impl : list (option F))
    (call : F → list (ffi_type * ffi_value) → W → W) cl flag target opcode data f (w : W) :
  closure_fds_ok cl → (cl_count cl <= length (cl_args cl))%nat →
  impl !! Z.to_nat opcode = Some (Some f) →
  ∃ cl', wl_closure_invoke impl call cl flag target opcode data w =
      Some (cl', call f ((ffi_type_pointer, ffi_data data) :: (ffi_type_pointer, ffi_target target)
        :: listener_args flag (parse_signature (cl_signature cl)) (cl_args cl)) w) ∧
    closure_fds_ok cl' ∧ closure_fds cl' = [].
Proof.
  intros [Hc Ht] Hl Hf. unfold wl_closure_invoke, convert_arguments_to_ffi.
  rewrite for_args_parse by apply arg_count_parse.
  rewrite ffi_loop_spec by (cbn; lia). cbn [mbind option_bind loop_done app].
  rewrite drop_0, Hf. cbn [mbind option_bind]. rewrite clear_fds_spec by done.
  cbn [mbind option_bind]. eexists. split; [done|]. split.
  - split; [done|]. apply cleared_fds_typed. lia.
  - apply live_cleared.
Qed.

(** ** The properties *)

(** C2: What [serialize_closure] writes, a receiver's [wl_connection_demarshal]
    reads back: with the message at the front of its input, the descriptors at
    the front of its descriptor ring, the new ids free in its object map and
    memory for the closure, it returns a closure with the sender, the opcode and
    the arguments of the one that was sent, and leaves the bytes and descriptors
    that follow. *)
Theorem closure_roundtrip {W : Type} `{OsMem W} `{OsFd W}
    heap m cl buf bs rest frest c objects junk o' (w w1 w2 : W) :
  let ps := parse_signature (cl_signature cl) in
  let size := 4 * closure_words cl in
  closure_wf heap cl → args_nonnull heap ps (cl_args cl) →
  (length ps <= WL_CLOSURE_MAX_ARGS)%nat → size < 2 ^ 16 →
  Z.of_nat (length buf) = closure_words cl * 4 →
  serialize_closure heap cl buf (closure_words cl) = Some (Ret size, bs) →
  conn_in_ok m c → ring_contents (c_in c) = bs ++ rest →
  fds_decode (ring_contents (c_fds_in c)) = raw_fds ps (cl_args cl) ++ frest →
  os_alloc (u64 (closure_alloc_size size (n_arrays ps))) w = (Some junk, w1) →
  reserve_ids (new_ids ps (cl_args cl)) objects w1 = Some (o', w2) →
  ∃ cl' c', wl_connection_demarshal c size objects (cl_message cl) w = Some (Ret cl', c', o', w2) ∧
    cl_sender_id cl' = u32 (cl_sender_id cl) ∧ cl_opcode cl' = Z.land (cl_opcode cl) 0xffff ∧
    take (length ps) (cl_args cl') = received_list heap ps (cl_args cl) ∧
    ring_contents (c_in c') = rest ∧ fds_decode (ring_contents (c_fds_in c')) = frest.
Proof.
  intros ps size Hwf Hnn Hmax Hsz Hbuf Hser Hin Hcon Hfds Ha Hr.
  destruct (serialize_spec heap (λ _, True) cl buf Hwf) as (bs'&Hser'&_&Hmsg);
    [fold size; lia|done|by apply Forall_true|].
  fold size in Hser'. rewrite Hser in Hser'. injection Hser' as <-.
  destruct (demarshal_roundtrip heap (λ _, True) m cl bs rest frest c objects junk o' w w1 w2)
    as (cl'&c'&?&?&?&?&?&?&?); try done. by exists cl', c'.
Qed.

(** A request with one argument of each type. *)
Definition demo_interface : wl_interface := mk_interface 100 "wl_demo".
Definition demo_heap (a : Z) : option wl_object :=
  if a =? 4096 then Some (mk_object demo_interface 7) else None.
Definition demo_message : wl_message :=
  mk_message "request" "2iuf?sonah" [None; None; None; None; Some demo_interface; None; None; None].
Definition demo_closure : wl_closure :=
  mk_closure 8 demo_message 3 11
    [arg_i (-5); arg_u 6; arg_f 640; arg_s (Some [104; 105]); arg_o 4096; arg_n 0xff000000;
     arg_a (Some [1; 2; 3]); arg_h 9].
Definition demo_bytes : list Z :=
  match serialize_closure demo_heap demo_closure (replicate 44 0) 11 with
  | Some (_, bs) => bs
  | None => []
  end.

(** The receiver: the message and two more bytes, the descriptor and one more. *)
Definition demo_ring (bs : list Z) : wl_ring_buffer :=
  mk_ring (bs ++ replicate (Z.to_nat (4096 - Z.of_nat (length bs))) 0) (Z.of_nat (length bs)) 0 12 12.
Definition demo_receiver : wl_connection :=
  mk_connection (demo_ring (demo_bytes ++ [42; 43])) (demo_ring [])
    (demo_ring (fd_bytes 9 ++ fd_bytes 10)) (demo_ring []) 3 false.
Definition demo_reserved : option (wl_map * sim) :=
  reserve_ids [0xff000000] (wl_map_init WL_MAP_CLIENT_SIDE)
    (snd (os_alloc (closure_alloc_size 44 1) sim_init)).
Definition demo_reserved_map : wl_map :=
  match demo_reserved with Some (m, _) => m | None => wl_map_init WL_MAP_CLIENT_SIDE end.
Definition demo_reserved_world : sim :=
  match demo_reserved with Some (_, w) => w | None => sim_init end.

Lemma demo_closure_wf : closure_wf demo_heap demo_closure.
Proof.
  split; [done|]. cbn. split_and!; try (by eexists); try done.
  - eexists. split; [done|]. intros s [= <-]. repeat constructor; lia.
  - exists 4096. split; [done|]. right. by eexists.
Qed.

Lemma demo_receiver_ok : conn_in_ok 12 demo_receiver.
Proof.
  split; [left; split_and!; by vm_compute|]. split; [split_and!; by vm_compute|].
  split; [|split_and!; by vm_compute]. left. split; [split_and!; by vm_compute|].
  split_and!; by vm_compute.
Qed.

Lemma closure_roundtrip_witness :
  ∃ cl' c', wl_connection_demarshal demo_receiver (4 * closure_words demo_closure)
      (wl_map_init WL_MAP_CLIENT_SIDE) (cl_message demo_closure) sim_init =
      Some (Ret cl', c', demo_reserved_map, demo_reserved_world) ∧
    cl_sender_id cl' = u32 (cl_sender_id demo_closure) ∧
    cl_opcode cl' = Z.land (cl_opcode demo_closure) 0xffff ∧
    take (length (parse_signature (cl_signature demo_closure))) (cl_args cl') =
      received_list demo_heap (parse_signature (cl_signature demo_closure)) (cl_args demo_closure) ∧
    ring_contents (c_in c') = [42; 43] ∧ fds_decode (ring_contents (c_fds_in c')) = [10].
Proof.
  apply (closure_roundtrip demo_heap 12 demo_closure (replicate 44 0) demo_bytes [42; 43] [10]
    demo_receiver (wl_map_init WL_MAP_CLIENT_SIDE) [] demo_reserved_map sim_init
    (snd (os_alloc (closure_alloc_size 44 1) sim_init)) demo_reserved_world).
  - exact demo_closure_wf.
  - vm_compute. split_and!; done.
  - vm_compute. lia.
  - by vm_compute.
  - by vm_compute.
  - vm_compute. reflexivity.
  - exact demo_receiver_ok.
  - vm_compute. reflexivity.
  - vm_compute. reflexivity.
  - vm_compute. reflexivity.
  - vm_compute. reflexivity.
Defined.

(** C3: Whatever bytes a peer sends, [wl_connection_demarshal] returns without
    reading or writing outside the message, the descriptor ring or the object
    map.  It consumes exactly the message.  A closure it returns is well typed,
    null only where the signature allows it and owns exactly the descriptors
    taken from the ring; on failure exactly these are closed. *)
Theorem demarshal_safe {W : Type} `{OsMem W} `{OsFd W} m c size objects message A free (w : W) :
  conn_in_ok m c → 0 <= size < 2 ^ 16 → size <= ring_buffer_size (c_in c) →
  Forall is_byte (ring_contents (c_in c)) → map_rep objects A free → map_room objects →
  ∃ r c' objects' w' taken,
    wl_connection_demarshal c size objects message w = Some (r, c', objects', w') ∧
    conn_in_ok m c' ∧ same_output c c' ∧ (∃ A' free', map_rep objects' A' free') ∧
    ring_contents (c_in c') = drop (Z.to_nat size) (ring_contents (c_in c)) ∧
    fds_decode (ring_contents (c_fds_in c)) = taken ++ fds_decode (ring_contents (c_fds_in c')) ∧
    match r with
    | Ret cl => received_args (parse_signature (msg_signature message)) (cl_args cl) ∧
                raw_fds (parse_signature (msg_signature message)) (cl_args cl) = taken ∧
                fd_calls w [] w'
    | Fail _ => fd_calls w (live_fds taken) w'
    end.
Proof.
  intros Hin Hs Hle Hb Hrep Hroom.
  destruct (demarshal_spec m c size objects message A free Hin Hs Hle Hb Hrep Hroom w)
    as (r&c'&o'&w'&->&?&?&?&(A'&free'&?&_)&taken&ids&_&?&Hr).
  exists r, c', o', w', taken. split_and!; try done; [by eexists _, _|].
  destruct r; [|done]. by destruct Hr as (_&_&?&?&?&_).
Qed.

Lemma demarshal_safe_witness :
  ∃ r c' objects' w' taken,
    wl_connection_demarshal demo_receiver 40 (wl_map_init WL_MAP_CLIENT_SIDE) demo_message
      sim_init = Some (r, c', objects', w') ∧
    conn_in_ok 12 c' ∧ same_output demo_receiver c' ∧ (∃ A' free', map_rep objects' A' free') ∧
    ring_contents (c_in c') = drop (Z.to_nat 40) (ring_contents (c_in demo_receiver)) ∧
    fds_decode (ring_contents (c_fds_in demo_receiver)) =
      taken ++ fds_decode (ring_contents (c_fds_in c')) ∧
    match r with
    | Ret cl => received_args (parse_signature (msg_signature demo_message)) (cl_args cl) ∧
                raw_fds (parse_signature (msg_signature demo_message)) (cl_args cl) = taken ∧
                fd_calls sim_init [] w'
    | Fail _ => fd_calls sim_init (live_fds taken) w'
    end.
Proof.
  apply (demarshal_safe 12 demo_receiver 40 (wl_map_init WL_MAP_CLIENT_SIDE) demo_message ∅ []
    sim_init).
  - exact demo_receiver_ok.
  - lia.
  - by vm_compute.
  - vm_compute. repeat constructor; discriminate.
  - apply map_rep_init. by right.
  - intros []; by vm_compute.
Defined.

(** C34: [wl_closure_send] moves the descriptors of the closure to the
    connection in order, and on success appends exactly the wire format of the
    message, padded with zeros, to the bytes the connection has accepted; on
    failure it appends no byte and the closure keeps the descriptors the
    connection did not take. *)
Theorem closure_send_delivers {W : Type} `{OsSockLaws W} heap m fuel cl c (w : W) :
  12 <= m <= 30 → conn_inv m c → sendable heap cl →
  (Z.to_nat (2 ^ m) + eintr_budget w < fuel)%nat →
  ∃ r cl' c' w' bytes sent rest,
    wl_closure_send heap fuel cl c w = Some (r, cl', c', w') ∧ conn_inv m c' ∧
    out_stream c' w' = out_stream c w ++ bytes ∧
    out_fd_stream c' w' = out_fd_stream c w ++ sent ∧
    raw_fds (parse_signature (cl_signature cl)) (cl_args cl) = sent ++ rest ∧
    closure_fds cl' = live_fds rest ∧
    match r with
    | Ret _ => rest = [] ∧ message_of heap (λ b, b = 0) cl bytes
    | Fail _ => bytes = []
    end.
Proof.
  intros Hm Hinv Hs Hf.
  set (l := mk_log (ring_contents (c_out c)) (out_fds c) [] false).
  destruct (send_spec m w Hm fuel Hf heap cl c w l Hs) as (r&cl'&c'&w'&->&bytes&sent&rest&Hi&?&?&?&?).
  { split_and!; try done. }
  destruct Hi as (?&_&Ho&Hfo&_). exists r, cl', c', w', bytes, sent, rest.
  unfold out_stream, out_fd_stream in *. cbn [log_out log_fds log_add l] in *.
  rewrite !app_assoc in Ho, Hfo. by split_and!.
Qed.

Lemma demo_sendable : sendable demo_heap demo_closure.
Proof.
  split; [exact demo_closure_wf|]. split; [by vm_compute|].
  assert (raw_fds (parse_signature (cl_signature demo_closure)) (cl_args demo_closure) = [9]) as ->
    by (by vm_compute).
  apply Forall_singleton. unfold int32_ok. lia.
Qed.

Lemma closure_send_delivers_witness :
  ∃ r cl' c' w' bytes sent rest,
    wl_closure_send demo_heap (Z.to_nat 5000) demo_closure (fst demo_conn) demo_world =
      Some (r, cl', c', w') ∧ conn_inv 12 c' ∧
    out_stream c' w' = out_stream (fst demo_conn) demo_world ++ bytes ∧
    out_fd_stream c' w' = out_fd_stream (fst demo_conn) demo_world ++ sent ∧
    raw_fds (parse_signature (cl_signature demo_closure)) (cl_args demo_closure) = sent ++ rest ∧
    closure_fds cl' = live_fds rest ∧
    match r with
    | Ret _ => rest = [] ∧ message_of demo_heap (λ b, b = 0) demo_closure bytes
    | Fail _ => bytes = []
    end.
Proof.
  apply (closure_send_delivers demo_heap 12 (Z.to_nat 5000) demo_closure (fst demo_conn) demo_world).
  - lia.
  - exact demo_conn_inv.
  - exact demo_sendable.
  - change (eintr_budget demo_world) with 2%nat. lia.
Defined.

(** C35: [wl_closure_marshal] either fails and leaves no descriptor open, or
    returns a well-typed closure, null only where the signature allows it, that
    owns exactly the duplicates it opened; [wl_closure_destroy] then closes
    exactly these. *)
Theorem marshal_ownership {W : Type} `{OsFdLaws W} heap sender opcode args message (w : W) :
  let ps := parse_signature (msg_signature message) in
  (length ps <= length args)%nat → user_args heap ps (take (length ps) args) →
  ∃ r w', wl_closure_marshal heap sender opcode args message w = Some (r, w') ∧
    match r with
    | Ret cl => closure_wf heap cl ∧ cl_sender_id cl = o_id sender ∧ cl_opcode cl = opcode ∧
        marshalled heap ps (take (length ps) args) (cl_args cl) ∧ opened w (closure_fds cl) w' ∧
        ∃ w'', wl_closure_destroy (Some cl) w' = Some w'' ∧ open_fds w'' = open_fds w
    | Fail _ => open_fds w' = open_fds w
    end.
Proof.
  intros ps Hlen Hu. destruct (marshal_spec heap sender opcode args message w Hlen Hu)
    as (r&w'&->&Hr). eexists _, _. split; [done|]. destruct r as [cl|e]; [|done].
  destruct Hr as (Hmsg&?&?&Hok&Hm&Hop). split_and!; try done.
  - split; [apply Hok|]. unfold cl_signature. rewrite Hmsg. by eapply marshalled_typed.
  - rewrite destroy_closure_spec by done. eexists. split; [done|]. by apply opened_close.
Qed.

Lemma marshal_ownership_witness :
  ∃ r w', wl_closure_marshal demo_heap (mk_object demo_interface 11) 3
      [arg_i 1; arg_o 4096; arg_h 3] (mk_message "bind" "inh" [None; None; None]) sim_init =
      Some (r, w') ∧
    match r with
    | Ret cl => closure_wf demo_heap cl ∧ cl_sender_id cl = 11 ∧ cl_opcode cl = 3 ∧
        marshalled demo_heap (parse_signature "inh")
          (take (length (parse_signature "inh")) [arg_i 1; arg_o 4096; arg_h 3]) (cl_args cl) ∧
        opened sim_init (closure_fds cl) w' ∧
        ∃ w'', wl_closure_destroy (Some cl) w' = Some w'' ∧ open_fds w'' = open_fds sim_init
    | Fail _ => open_fds w' = open_fds sim_init
    end.
Proof.
  apply (marshal_ownership demo_heap (mk_object demo_interface 11) 3
    [arg_i 1; arg_o 4096; arg_h 3] (mk_message "bind" "inh" [None; None; None]) sim_init).
  - by apply (bool_decide_unpack _).
  - cbn. split_and!; [by eexists| |by eexists|done]. eexists. split; [done|]. right. by eexists.
Defined.

(** C38: [buffer_size_for_closure] computes exactly the words
    [serialize_closure] needs: with that many it fills the buffer, each padding
    byte being one the buffer held before; with fewer it reports [ERANGE] and
    never writes past the end. *)
Theorem serialize_bounds heap cl buf N :
  closure_wf heap cl → closure_words cl < 2 ^ 29 → 0 <= N <= closure_words cl →
  Z.of_nat (length buf) = N * 4 →
  buffer_size_for_closure cl = Some (closure_words cl) ∧
  ∃ r bs, serialize_closure heap cl buf N = Some (r, bs) ∧
    (N = closure_words cl → r = Ret (4 * N) ∧ Z.of_nat (length bs) = 4 * N ∧
                            message_of heap (λ b, b ∈ buf) cl bs) ∧
    (N < closure_words cl → r = Fail ERANGE).
Proof.
  intros Hwf Hsz HN Hlen. split; [apply (buffer_size_spec heap); (done || lia)|].
  destruct (decide (N = closure_words cl)) as [->|].
  - destruct (serialize_spec heap (λ b, b ∈ buf) cl buf Hwf) as (bs&->&?&?); [lia|done| |].
    { by apply Forall_forall. }
    eexists _, _. split; [done|]. split; [done|lia].
  - destruct (serialize_overflow heap cl buf N) as (bs&->); [done|lia|lia|done|].
    eexists _, _. split; [done|]. split; [lia|done].
Qed.

Lemma serialize_bounds_witness :
  buffer_size_for_closure demo_closure = Some (closure_words demo_closure) ∧
  ∃ r bs, serialize_closure demo_heap demo_closure (replicate 44 170) 11 = Some (r, bs) ∧
    (11 = closure_words demo_closure → r = Ret (4 * 11) ∧ Z.of_nat (length bs) = 4 * 11 ∧
       message_of demo_heap (λ b, b ∈ replicate 44 170) demo_closure bs) ∧
    (11 < closure_words demo_closure → r = Fail ERANGE).
Proof.
  apply (serialize_bounds demo_heap demo_closure (replicate 44 170) 11).
  - exact demo_closure_wf.
  - by vm_compute.
  - split; by vm_compute.
  - reflexivity.
Defined.

(** A request with one string, whose wire format ends in a padding byte. *)
Definition hi_closure : wl_closure :=
  mk_closure 1 (mk_message "say" "s" [None]) 0 1 [arg_s (Some [104; 105])].

(** [wl_closure_queue] takes its buffer from [malloc]: the padding byte of
    the string it queues is the byte the heap held there.  [wl_closure_send],
    which uses [zalloc], sends a zero. *)
Theorem queue_leaks_heap junk :
  length junk = 16%nat →
  ∃ bs bs0, serialize_closure demo_heap hi_closure (malloc_block 16 junk) 4 = Some (Ret 16, bs) ∧
    bs !! 15%nat = junk !! 15%nat ∧
    serialize_closure demo_heap hi_closure (replicate 16 0) 4 = Some (Ret 16, bs0) ∧
    bs0 !! 15%nat = Some 0 ∧ take 15 bs0 = take 15 bs.
Proof.
  intros Hl. unfold malloc_block. rewrite take_app_le, take_ge by lia.
  do 16 (destruct junk as [|? junk]; [done|]). destruct junk; [|done].
  eexists _, _. split_and!; vm_compute; reflexivity.
Qed.

Lemma queue_leaks_heap_witness :
  ∃ bs bs0, serialize_closure demo_heap hi_closure (malloc_block 16 (replicate 16 170)) 4 =
      Some (Ret 16, bs) ∧ bs !! 15%nat = replicate 16 170 !! 15%nat ∧
    serialize_closure demo_heap hi_closure (replicate 16 0) 4 = Some (Ret 16, bs0) ∧
    bs0 !! 15%nat = Some 0 ∧ take 15 bs0 = take 15 bs.
Proof. apply (queue_leaks_heap (replicate 16 170)). reflexivity. Defined.

(** The size field of the header has sixteen bits: a message of 65536 bytes
    or more is written whole, but announces its size modulo 65536. *)
Theorem serialize_truncates_size heap cl buf :
  closure_wf heap cl → closure_words cl < 2 ^ 29 →
  Z.of_nat (length buf) = closure_words cl * 4 →
  ∃ bs word, serialize_closure heap cl buf (closure_words cl) = Some (Ret (4 * closure_words cl), bs) ∧
    get_u32 bs 1 = Some word ∧ Z.shiftr word 16 = (4 * closure_words cl) mod 2 ^ 16 ∧
    Z.land word 0xffff = Z.land (cl_opcode cl) 0xffff.
Proof.
  intros Hwf Hsz Hlen.
  destruct (serialize_spec heap (λ _, True) cl buf Hwf) as (bs&->&_&body&->&_);
    [lia|done|by apply Forall_true|].
  destruct (get_u32_header (cl_sender_id cl) (cl_opcode cl)
    (4 * closure_words cl) body) as [_ Hg].
  eexists _, _. split; [done|]. split; [exact Hg|]. split; [|apply wire_opcode].
  assert (Hop : Z.land (cl_opcode cl) 0xffff = cl_opcode cl mod 2 ^ 16)
    by (by apply (Z.land_ones _ 16)).
  rewrite Z.shiftr_div_pow2, Z.shiftl_mul_pow2 by lia. rewrite Hop. unfold u32.
  rewrite (lor_low _ _ 16); [mlia| |apply Z.mod_pos_bound; lia].
  rewrite Z.mod_mod_divide by (by exists (2 ^ 16)). apply Z.mod_mul. lia.
Qed.

(** An array of 65532 bytes makes a message of 65544 bytes. *)
Definition big_closure : wl_closure :=
  mk_closure 1 (mk_message "fill" "a" [None]) 2 1 [arg_a (Some (replicate (Z.to_nat 65532) 7))].

Lemma serialize_truncates_size_witness :
  ∃ bs word, serialize_closure demo_heap big_closure (replicate (Z.to_nat 65544) 0)
      (closure_words big_closure) = Some (Ret (4 * closure_words big_closure), bs) ∧
    get_u32 bs 1 = Some word ∧ Z.shiftr word 16 = (4 * closure_words big_closure) mod 2 ^ 16 ∧
    Z.land word 0xffff = Z.land (cl_opcode big_closure) 0xffff.
Proof.
  apply (serialize_truncates_size demo_heap big_closure (replicate (Z.to_nat 65544) 0)).
  - split; [done|]. split; [by eexists|done].
  - by vm_compute.
  - by vm_compute.
Defined.

(** [wl_closure_lookup_objects] replaces each object id of a received
    closure by the object the map holds, null for id 0 and for zombies; it fails
    with [EINVAL] exactly when some id is unknown or its object has the wrong
    interface. *)
Theorem lookup_objects_correct heap objects A free cl :
  map_rep objects A free → map_objects_ok heap A → objects_received cl →
  ∃ r cl', wl_closure_lookup_objects heap cl objects = Some (r, cl') ∧
    (match r with
     | Ret _ => ∀ i t b, parse_signature (cl_signature cl) !! i = Some (t, b) →
                  lookup_done heap objects A (cl_message cl) i t cl cl'
     | Fail e => e = EINVAL ∧ ∃ i b, lookup_bad heap objects A (cl_message cl) i cl ∧
                   parse_signature (cl_signature cl) !! i = Some (WL_ARG_OBJECT, b)
     end) ∧
    ((∃ i b, lookup_bad heap objects A (cl_message cl) i cl ∧
        parse_signature (cl_signature cl) !! i = Some (WL_ARG_OBJECT, b)) → r = Fail EINVAL).
Proof.
  intros Hrep Hobj Hrcv.
  destruct (lookup_objects_spec heap objects A free Hrep cl Hobj Hrcv) as (r&cl'&->&Hr).
  eexists _, _. split; [done|]. split; [done|]. intros (i&b&(id&Ha&Hbad)&Hi).
  destruct r as [u|e]; [|by destruct Hr as [-> _]]. exfalso.
  destruct (Hr i WL_ARG_OBJECT b Hi) as (id'&o&ty&Ha'&Hres&Hty&Hok&_).
  rewrite Ha in Ha'. injection Ha' as <-.
  destruct Hbad as [Hn|(o'&ty'&Hres'&Hty'&Hnok)]; [congruence|].
  rewrite Hres in Hres'. rewrite Hty in Hty'. by simplify_eq.
Qed.

(** A received request whose object is id 0 of the map. *)
Definition object_closure : wl_closure :=
  mk_closure 1 (mk_message "attach" "o" [Some demo_interface]) 0 1 [arg_n 0].

Lemma lookup_objects_correct_witness :
  ∃ r cl', wl_closure_lookup_objects demo_heap object_closure demo_map = Some (r, cl') ∧
    (match r with
     | Ret _ => ∀ i t b, parse_signature (cl_signature object_closure) !! i = Some (t, b) →
         lookup_done demo_heap demo_map demo_bindings (cl_message object_closure) i t
           object_closure cl'
     | Fail e => e = EINVAL ∧ ∃ i b,
         lookup_bad demo_heap demo_map demo_bindings (cl_message object_closure) i object_closure ∧
         parse_signature (cl_signature object_closure) !! i = Some (WL_ARG_OBJECT, b)
     end) ∧
    ((∃ i b,
        lookup_bad demo_heap demo_map demo_bindings (cl_message object_closure) i object_closure ∧
        parse_signature (cl_signature object_closure) !! i = Some (WL_ARG_OBJECT, b)) →
     r = Fail EINVAL).
Proof.
  apply (lookup_objects_correct demo_heap demo_map demo_bindings [] object_closure).
  - exact demo_map_rep.
  - intros id data flags Hid. unfold demo_bindings in Hid.
    apply lookup_singleton_Some in Hid as [_ [= <- <-]]. right. by eexists.
  - intros [|[|i]] b Hi; [|done|done]. split; [|by eexists]. exists 0. done.
Defined.

(** [wl_closure_invoke] calls the listener once, with the data pointer, the
    target and every argument at the C type its signature asks for, and then
    forgets the descriptors, so that destroying the closure closes none of those
    the listener received. *)
Theorem invoke_hands_over {F W : Type} `{OsMem W} `{OsFd W} (impl : list (option F))
    (call : F → list (ffi_type * ffi_value) → W → W) cl flag target opcode data f (w : W) :
  closure_fds_ok cl → (cl_count cl <= length (cl_args cl))%nat →
  impl !! Z.to_nat opcode = Some (Some f) →
  ∃ cl', let w' := call f ((ffi_type_pointer, ffi_data data) :: (ffi_type_pointer, ffi_target target)
           :: listener_args flag (parse_signature (cl_signature cl)) (cl_args cl)) w in
    wl_closure_invoke impl call cl flag target opcode data w = Some (cl', w') ∧
    wl_closure_destroy (Some cl') w' = Some w'.
Proof.
  intros Hok Hl Hf. destruct (invoke_spec impl call cl flag target opcode data f w Hok Hl Hf)
    as (cl'&->&Hok'&Hfds). exists cl'. split; [done|].
  by rewrite destroy_closure_spec, Hfds by done.
Qed.

Lemma invoke_hands_over_witness :
  ∃ cl', let w' := os_close 3 sim_init in
    wl_closure_invoke [Some 5; Some 3] (λ f _ w, os_close f w) demo_closure
      WL_CLOSURE_INVOKE_SERVER 4096 1 0 sim_init = Some (cl', w') ∧
    wl_closure_destroy (Some cl') w' = Some w'.
Proof.
  apply (invoke_hands_over [Some 5; Some 3] (λ f _ w, os_close f w) demo_closure
    WL_CLOSURE_INVOKE_SERVER 4096 1 0 3 sim_init).
  - split; [done|]. cbn. split_and!; try done. intros _. by eexists.
  - by apply (bool_decide_unpack _).
  - reflexivity.
Defined.
