(* ===== verification/WlPrint.v ===== *)
(** * Fixed-point numbers and the protocol trace

    Models the integer conversions of [wl_fixed_t]
    (wayland/build/src/wayland-util.h, lines 648-665) and [wl_closure_print]
    (wayland/build/src/connection.c, lines 1481-1583), the line that
    WAYLAND_DEBUG writes for a message.  Output is a list of bytes. *)

From Stdlib Require Import Ascii.
From stdpp Require Import strings.
From S2P Require Import Prelude Decimal WlMessage WlClosure WlTransmit.
Open Scope Z_scope.

(** ** Fixed-point numbers *)

Definition wl_fixed_to_int (f : Z) : Z := Z.quot f 256.

(** [i * 256] overflows, and is undefined, outside 24 bits. *)
Definition wl_fixed_from_int (i : Z) : option Z :=
  if (- 2 ^ 31 <=? i * 256) && (i * 256 <? 2 ^ 31) then Some (i * 256) else None.

(** ** Strings the trace prints *)

Definition str (s : string) : list Z :=
  map (λ c, Z.of_nat (nat_of_ascii c)) (String.list_ascii_of_string s).

(** ** The trace *)

Section print.
Context (heap : Z → option wl_object).
Context (n_parse : option (wl_argument → Z)).

Definition print_fixed (f : Z) : list Z :=
  if 0 <=? f then
    fmt_d (Z.quot f 256) ++ str "." ++ fmt_pad 48 8 (fmt_d (390625 * Z.rem f 256))
  else
    str "-" ++ fmt_d (Z.quot f (-256)) ++ str "." ++ fmt_pad 48 8 (fmt_d (-390625 * Z.rem f 256)).

Definition print_body (message : wl_message) (cl : wl_closure) (i : nat)
    (t : option wl_arg_type) (_ : bool) (out : list Z) : option (loop_step (list Z)) :=
  let out := if decide (0 < i)%nat then out ++ str ", " else out in
  let emit s := Some (Next (out ++ s)) in
  match t with
  | Some WL_ARG_UINT => u ← (cl_arg cl i ≫= get_u); emit (fmt_u u)
  | Some WL_ARG_INT => v ← (cl_arg cl i ≫= get_i); emit (fmt_d v)
  | Some WL_ARG_FIXED => f ← (cl_arg cl i ≫= get_f); emit (print_fixed f)
  | Some WL_ARG_STRING =>
      v ← (cl_arg cl i ≫= get_s);
      match v with
      | Some s => emit ([34] ++ s ++ [34])
      | None => emit (str "nil")
      end
  | Some WL_ARG_OBJECT =>
      o ← (cl_arg cl i ≫= get_o);
      if o =? 0 then emit (str "nil")
      else
        object ← heap o;
        emit (str (if_name (o_interface object)) ++ str "#" ++ fmt_u (o_id object))
  | Some WL_ARG_NEW_ID =>
      nval ← (match n_parse with
              | Some n_parse => a ← cl_arg cl i; Some (n_parse a)
              | None => cl_arg cl i ≫= get_n
              end);
      type ← msg_types message !! i;
      emit (str "new id " ++
            str (match type with Some ty => if_name ty | None => "[unknown]" end) ++ str "#" ++
            (if negb (nval =? 0) then fmt_u nval else str "nil"))
  | Some WL_ARG_ARRAY =>
      v ← (cl_arg cl i ≫= get_a);
      a ← v;
      emit (str "array[" ++ fmt_u (Z.of_nat (length a)) ++ str "]")
  | Some WL_ARG_FD => h ← (cl_arg cl i ≫= get_h); emit (str "fd " ++ fmt_d h)
  | None => emit []
  end.

(** [memstream] and [closed]: whether [open_memstream] and [fclose] succeed;
    [tv_sec] and [tv_nsec]: the time [clock_gettime] returns. *)
Definition wl_closure_print (memstream closed : bool) (tv_sec tv_nsec : Z) (cl : wl_closure)
    (target : wl_object) (send discarded : bool) (queue_name : option string)
    (stderr : list Z) : option (list Z) :=
  if negb memstream then Some stderr
  else
    let time := u32 (tv_sec * 1000000 + tv_nsec / 1000) in
    let f := str "[" ++ fmt_pad 32 7 (fmt_u (time / 1000)) ++ str "." ++
             fmt_pad 48 3 (fmt_u (time mod 1000)) ++ str "] " in
    let f := match queue_name with
             | Some q => f ++ str "{" ++ str q ++ str "} "
             | None => f
             end in
    let f := f ++ (if discarded then str "discarded " else []) ++
             (if send then str " -> " else []) ++
             str (if_name (o_interface target)) ++ str "#" ++ fmt_u (o_id target) ++ str "." ++
             str (msg_name (cl_message cl)) ++ str "(" in
    f ← (for_args (print_body (cl_message cl) cl) (cl_count cl) 0 (cl_signature cl) f ≫= loop_done);
    let f := f ++ str ")" ++ [10] in
    Some (if closed then stderr ++ f else stderr).
End print.

(** ** Reading numbers back *)

(** A decimal number with eight fractional digits, times [10^8]. *)
Fixpoint read_digits (l acc : list Z) : list Z * list Z :=
  match l with
  | c :: l' => if is_digit c then read_digits l' (acc ++ [c]) else (acc, l)
  | [] => (acc, [])
  end.

Definition read_decimal (l : list Z) : option Z :=
  let '(neg, l) := match l with 45 :: l => (true, l) | _ => (false, l) end in
  match read_digits l [] with
  | (ip, 46 :: rest) =>
      match read_digits rest [] with
      | (fp, []) =>
          if decide (length fp = 8%nat ∧ ip ≠ []) then
            let v := digits_value ip * 100000000 + digits_value fp in
            Some (if (neg : bool) then - v else v)
          else None
      | _ => None
      end
  | _ => None
  end.

Lemma read_digits_spec ds l acc :
  Forall (λ c, is_digit c = true) ds → (∀ c, head l = Some c → is_digit c = false) →
  read_digits (ds ++ l) acc = (acc ++ ds, l).
Proof.
  intros Hd Hl. revert acc. induction Hd as [|c ds Hc Hd IH]; intros acc.
  - cbn [app]. rewrite app_nil_r. destruct l as [|c l]; [done|]. cbn. by rewrite (Hl c).
  - cbn [app read_digits]. rewrite Hc, IH, <- app_assoc. done.
Qed.

Lemma read_decimal_spec (neg : bool) ip fp :
  0 <= ip < 10 ^ 20 → 0 <= fp < 10 ^ 8 →
  read_decimal ((if neg then [45] else []) ++ fmt_u ip ++ 46 :: fmt_pad 48 8 (fmt_u fp)) =
    Some (let v := ip * 100000000 + fp in if neg then - v else v).
Proof.
  intros Hip Hfp. destruct (fmt_u_spec ip Hip) as (Hd&Hne&Hv&_).
  destruct (fmt_pad_spec 8 fp) as (Hd8&Hl8&Hv8); [done|lia|]. unfold read_decimal.
  set (l := fmt_u ip ++ 46 :: fmt_pad 48 8 (fmt_u fp)).
  assert (match (if neg then [45] else []) ++ l with 45 :: l => (true, l) | _ =>
    (false, (if neg then [45] else []) ++ l) end = (neg, l)) as ->.
  { destruct neg; [done|]. cbn [app]. unfold l. destruct (fmt_u ip) as [|c ds]; [done|].
    apply Forall_cons in Hd as [Hc _]. cbn [app]. unfold is_digit in Hc. zbool.
    repeat (case_match; try done); lia. }
  unfold l. rewrite read_digits_spec by (done || by intros ? [= <-]). cbn [app].
  assert (Hr := read_digits_spec (fmt_pad 48 8 (fmt_u fp)) [] [] Hd8).
  rewrite app_nil_r in Hr. rewrite Hr by done. cbn [app].
  rewrite decide_True by done. by rewrite Hv, Hv8.
Qed.

(** The trace prints fixed-point arguments exactly: read back as a decimal
    number with eight fractional digits, the output of [wl_closure_print] for a
    [wl_fixed_t] is its value, [f / 256]. *)
Theorem print_fixed_exact f :
  - 2 ^ 31 <= f < 2 ^ 31 → read_decimal (print_fixed f) = Some (f * 390625).
Proof.
  intros Hf. unfold print_fixed. assert (Hd : ∀ n, 0 <= n → fmt_d n = fmt_u n).
  { intros n Hn. unfold fmt_d. by rewrite (proj2 (Z.ltb_ge n 0)). }
  destruct (Z.leb_spec 0 f) as [Hp|Hn].
  - rewrite Z.quot_div_nonneg, Z.rem_mod_nonneg by lia.
    pose proof (Z.div_mod f 256). pose proof (Z.mod_pos_bound f 256).
    rewrite !Hd by mlia.
    etransitivity; [apply (read_decimal_spec false (f / 256) (390625 * (f mod 256))); mlia|].
    f_equal. cbn. lia.
  - change (-256) with (Z.opp 256).
    rewrite (Z.quot_opp_r f 256), <- (Z.quot_opp_l f 256), Z.quot_div_nonneg by lia.
    replace (-390625 * Z.rem f 256) with (390625 * ((- f) mod 256))
      by (rewrite <- Z.rem_mod_nonneg, Z.rem_opp_l by lia; lia).
    pose proof (Z.div_mod (- f) 256). pose proof (Z.mod_pos_bound (- f) 256).
    rewrite !Hd by mlia.
    etransitivity; [apply (read_decimal_spec true ((- f) / 256) (390625 * ((- f) mod 256))); mlia|].
    f_equal. cbn. lia.
Qed.

Lemma print_fixed_exact_witness :
  - 2 ^ 31 <= -1 < 2 ^ 31 ∧ read_decimal (print_fixed (-1)) = Some (-1 * 390625).
Proof. split; [lia|]. apply (print_fixed_exact (-1)). lia. Defined.

(** Integers of 24 bits survive the conversion to fixed point and back;
    outside, the multiplication overflows. *)
Theorem fixed_int_roundtrip i :
  (- 2 ^ 23 <= i < 2 ^ 23 ∧ ∃ f, wl_fixed_from_int i = Some f ∧ wl_fixed_to_int f = i) ∨
  (¬ - 2 ^ 23 <= i < 2 ^ 23 ∧ wl_fixed_from_int i = None).
Proof.
  unfold wl_fixed_from_int. destruct (decide (- 2 ^ 23 <= i < 2 ^ 23)) as [Hi|Hi]; [left|right].
  - split; [done|]. exists (i * 256). unfold wl_fixed_to_int.
    rewrite Z.quot_mul by lia. split; [|done].
    by rewrite (proj2 (Z.leb_le _ _)), (proj2 (Z.ltb_lt _ _)) by lia.
  - split; [done|]. case_step; zbool; lia || done.
Qed.
