(* ===== verification/WlServer.v ===== *)
(** * Resources, globals and the registry of libwayland-server

    Models the core of wayland/build/src/wayland-server.c: sending events
    ([verify_objects], [handle_array], the [wl_resource_post_...] functions),
    resources and their entries in the client's object map, the requests of
    [wl_display] and [wl_registry], the globals of a display and the destruction
    of clients.  A pointer is an address; the lists of globals, registries and
    clients are lists of addresses (their links are those of [WlList]).  The
    connection of a client is an [EventSink], implemented by the connections of
    [WlConnection].  Destroy listeners and the destructors a compositor sets act
    on the world only; a bind callback is an output of the model, since what it
    does is a sequence of further operations.

    A resource carries one ghost field, the events accepted for it. *)

From stdpp Require Import strings.
From S2P Require Import Prelude Decimal Os OsSim WlOs WlRing WlConnection WlSession WlArray WlMap WlMessage WlClosure WlTransmit WlPrint.
Open Scope Z_scope.

(** ** Protocol descriptions *)

Definition WL_DISPLAY_ERROR : Z := 0.
Definition WL_DISPLAY_DELETE_ID : Z := 1.
Definition WL_REGISTRY_GLOBAL : Z := 0.
Definition WL_REGISTRY_GLOBAL_REMOVE : Z := 1.
Definition WL_CALLBACK_DONE : Z := 0.
Definition WL_DISPLAY_ERROR_INVALID_OBJECT : Z := 0.
Definition WL_DISPLAY_ERROR_INVALID_METHOD : Z := 1.
Definition WL_DISPLAY_ERROR_NO_MEMORY : Z := 2.
Definition WL_DISPLAY_ERROR_IMPLEMENTATION : Z := 3.

Definition display_events : list wl_message :=
  [mk_message "error" "ous" [None; None; None]; mk_message "delete_id" "u" [None]].
Definition registry_events : list wl_message :=
  [mk_message "global" "usu" [None; None; None]; mk_message "global_remove" "u" [None]].
Definition callback_events : list wl_message := [mk_message "done" "u" [None]].

(** ** The state *)

Inductive destructor : Type :=
  | no_destroy
  | unbind_resource
  | destroy_client_display_resource
  | UserDestroy (f : Z).

#[export] Instance destructor_eq_dec : EqDecision destructor.
Proof. solve_decision. Defined.

Inductive implementation : Type :=
  | no_implementation
  | display_interface
  | registry_interface
  | UserImplementation (p : Z).

Record wl_resource : Type := mk_resource {
  r_object : wl_object;
  r_implementation : implementation;
  r_destroy : destructor;
  r_client : Z;
  r_data : Z;
  r_version : Z;
  r_dispatcher : option Z;
  r_events : list (Z * list wl_argument)    (* ghost *)
}.
Definition r_add_event (opcode : Z) (args : list wl_argument) (r : wl_resource) : wl_resource :=
  mk_resource (r_object r) (r_implementation r) (r_destroy r) (r_client r) (r_data r) (r_version r) (r_dispatcher r) (r_events r ++ [(opcode, args)]).

Record wl_global : Type := mk_global {
  g_interface : wl_interface;
  g_name : Z;
  g_version : Z;
  g_data : Z;
  g_bind : Z;
  g_removed : bool
}.
Definition g_remove (g : wl_global) : wl_global := mk_global (g_interface g) (g_name g) (g_version g) (g_data g) (g_bind g) true.

Record wl_client (C : Type) : Type := mk_client {
  k_connection : C;
  k_display_resource : Z;
  k_objects : wl_map;
  k_error : bool
}.
Arguments mk_client {_} _ _ _ _.
Arguments k_connection {_} _.
Arguments k_display_resource {_} _.
Arguments k_objects {_} _.
Arguments k_error {_} _.

Record server (C W : Type) : Type := mk_server {
  next_global_name : Z;                       (* uint32_t *)
  serial : Z;                                 (* uint32_t *)
  registry_resource_list : list Z;
  global_list : list (Z * wl_global);
  client_list : list Z;
  clients : gmap Z (wl_client C);
  resources : gmap Z wl_resource;
  world : W
}.
Arguments mk_server {_ _} _ _ _ _ _ _ _ _.
Arguments next_global_name {_ _} _.
Arguments serial {_ _} _.
Arguments registry_resource_list {_ _} _.
Arguments global_list {_ _} _.
Arguments client_list {_ _} _.
Arguments clients {_ _} _.
Arguments resources {_ _} _.
Arguments world {_ _} _.

(** What the server needs of a connection: sending a closure, at once ([true])
    or when the buffer is flushed next, flushing and destroying it, and the
    number of bytes received and not read yet. *)
Class EventSink (C W : Type) := {
  sink_send : bool → (Z → option wl_object) → wl_closure → C → W → option (cres unit * wl_closure * C * W);
  sink_flush : C → W → option (cres Z * C * W);
  sink_abandon : C → W → option W;           (* [wl_connection_destroy] alone *)
  sink_destroy : C → W → option W;
  sink_pending : C → Z
}.

Section updates.
Context {C W : Type}.
Implicit Types s : server C W.

Definition set_world (w : W) s : server C W :=
  mk_server (next_global_name s) (serial s) (registry_resource_list s) (global_list s) (client_list s) (clients s) (resources s) w.
Definition set_resources (f : gmap Z wl_resource → gmap Z wl_resource) s : server C W :=
  mk_server (next_global_name s) (serial s) (registry_resource_list s) (global_list s) (client_list s) (clients s) (f (resources s)) (world s).
Definition set_clients (f : gmap Z (wl_client C) → gmap Z (wl_client C)) s : server C W :=
  mk_server (next_global_name s) (serial s) (registry_resource_list s) (global_list s) (client_list s) (f (clients s)) (resources s) (world s).
Definition set_registries (l : list Z) s : server C W :=
  mk_server (next_global_name s) (serial s) l (global_list s) (client_list s) (clients s) (resources s) (world s).
Definition set_globals (l : list (Z * wl_global)) s : server C W :=
  mk_server (next_global_name s) (serial s) (registry_resource_list s) l (client_list s) (clients s) (resources s) (world s).
Definition set_client_list (l : list Z) s : server C W :=
  mk_server (next_global_name s) (serial s) (registry_resource_list s) (global_list s) l (clients s) (resources s) (world s).
Definition set_next_name (n : Z) s : server C W :=
  mk_server n (serial s) (registry_resource_list s) (global_list s) (client_list s) (clients s) (resources s) (world s).
Definition set_serial (n : Z) s : server C W :=
  mk_server (next_global_name s) n (registry_resource_list s) (global_list s) (client_list s) (clients s) (resources s) (world s).

Definition set_client (c : Z) (k : wl_client C) : server C W → server C W := set_clients (<[c := k]>).
Definition k_set_error (k : wl_client C) : wl_client C := mk_client (k_connection k) (k_display_resource k) (k_objects k) true.
Definition k_set_connection (x : C) (k : wl_client C) : wl_client C := mk_client x (k_display_resource k) (k_objects k) (k_error k).
Definition k_set_objects (m : wl_map) (k : wl_client C) : wl_client C := mk_client (k_connection k) (k_display_resource k) m (k_error k).
Definition k_set_display (r : Z) (k : wl_client C) : wl_client C := mk_client (k_connection k) r (k_objects k) (k_error k).

(** [struct wl_resource] starts with its [struct wl_object]. *)
Definition heap s (p : Z) : option wl_object := r_object <$> resources s !! p.
End updates.

Section server.
Context {C W : Type} `{OsMem W} `{OsFd W} `{EventSink C W}.
(** The events of the other interfaces, the version of an interface, the
    address of the description of an interface, and the address of new memory
    outside the given addresses, if there is any. *)
Context (user_events : wl_interface → list wl_message) (if_version : wl_interface → Z).
Context (description : string → Z) (address : gset Z → option Z).
(** Listeners of destroy and creation signals, destructors the compositor sets,
    and protocol loggers. *)
Context (notify : Z → W → W) (user_destroy : Z → Z → W → W) (log_closure : Z → wl_closure → bool → W → W).
(** The event source and the connection of a new client ([None] when one of
    them cannot be had or the peer has no credentials), and the removal of the
    source. *)
Context (open_connection : Z → W → option C * W) (remove_source : Z → W → W).
(** The filter, if one is set. *)
Context (global_filter : option (Z → wl_global → bool)).
Implicit Types s : server C W.

Definition wl_display_interface : wl_interface := mk_interface (description "wl_display") "wl_display".
Definition wl_registry_interface : wl_interface := mk_interface (description "wl_registry") "wl_registry".
Definition wl_callback_interface : wl_interface := mk_interface (description "wl_callback") "wl_callback".

Definition events (i : wl_interface) : list wl_message :=
  if decide (if_name i = "wl_display") then display_events
  else if decide (if_name i = "wl_registry") then registry_events
  else if decide (if_name i = "wl_callback") then callback_events
  else user_events i.

Definition new_memory (size : Z) (used : gset Z) (w : W) : option Z * W :=
  match os_alloc size w with (None, w) => (None, w) | (Some _, w) => (address used, w) end.

(** ** Sending events *)

Definition verify_body s (client : Z) (args : list wl_argument) (i : nat) (t : option wl_arg_type) (_ : bool) (u : unit) : option (loop_step unit) :=
  match t with
  | Some WL_ARG_NEW_ID | Some WL_ARG_OBJECT =>
      o ← (args !! i ≫= get_o);
      if o =? 0 then Some (Next tt)
      else
        res ← resources s !! o;
        Some (if negb (r_client res =? client) then Break EINVAL tt else Next tt)
  | _ => Some (Next tt)
  end.
Definition verify_objects s (resource : Z) (opcode : Z) (args : list wl_argument) : option bool :=
  r ← resources s !! resource;
  message ← events (o_interface (r_object r)) !! Z.to_nat opcode;
  let signature := msg_signature message in
  res ← for_args (verify_body s (r_client r) args) (arg_count_for_signature signature) 0 signature tt;
  Some (match res with Next _ => true | Break _ _ => false end).

Definition handle_array (send_now : bool) (resource opcode : Z) (args : list wl_argument) s : option (server C W) :=
  r ← resources s !! resource;
  k ← clients s !! r_client r;
  if k_error k then Some s
  else
    let failed := set_client (r_client r) (k_set_error k) in
    ok ← verify_objects s resource opcode args;
    if negb ok then Some (failed s)
    else
      message ← events (o_interface (r_object r)) !! Z.to_nat opcode;
      '(cl, w) ← wl_closure_marshal (heap s) (r_object r) opcode args message (world s);
      match cl with
      | Fail _ => Some (failed (set_world w s))
      | Ret cl =>
          let w := log_closure resource cl true w in
          '(res, cl, x, w) ← sink_send send_now (heap s) cl (k_connection k) w;
          w ← wl_closure_destroy (Some cl) w;
          let k := k_set_connection x k in
          Some (set_world w
            (match res with
             | Fail _ => set_client (r_client r) (k_set_error k) s
             | Ret _ => set_resources (<[resource := r_add_event opcode args r]>) (set_client (r_client r) k s)
             end))
      end.

Definition wl_resource_post_event_array := handle_array true.
Definition wl_resource_queue_event_array := handle_array false.

(** The array on the stack is not initialised; the arguments the signature
    does not name are never read. *)
Definition stack_args : list wl_argument := replicate WL_CLOSURE_MAX_ARGS arg_zero.
Definition event_args s (resource opcode : Z) (ap : list va_value) : option (list wl_argument) :=
  r ← resources s !! resource;
  message ← events (o_interface (r_object r)) !! Z.to_nat opcode;
  wl_argument_from_va_list (msg_signature message) stack_args WL_CLOSURE_MAX_ARGS ap.
Definition wl_resource_post_event (resource opcode : Z) (ap : list va_value) s : option (server C W) :=
  args ← event_args s resource opcode ap;
  wl_resource_post_event_array resource opcode args s.
Definition wl_resource_queue_event (resource opcode : Z) (ap : list va_value) s : option (server C W) :=
  args ← event_args s resource opcode ap;
  wl_resource_queue_event_array resource opcode args s.

(** [text] is the formatted message, cut to [char buffer[128]]. *)
Definition wl_resource_post_error (resource code : Z) (text : list Z) s : option (server C W) :=
  r ← resources s !! resource;
  k ← clients s !! r_client r;
  if k_error k || (k_display_resource k =? 0) then Some s
  else
    s ← wl_resource_post_event (k_display_resource k) WL_DISPLAY_ERROR
          [va_object resource; va_uint32 code; va_string (Some (take 127 text))] s;
    k ← clients s !! r_client r;
    Some (set_client (r_client r) (k_set_error k) s).

(** A call with a null resource reads through it. *)
Definition wl_client_post_no_memory (client : Z) s : option (server C W) :=
  k ← clients s !! client;
  wl_resource_post_error (k_display_resource k) WL_DISPLAY_ERROR_NO_MEMORY (str "no memory") s.
Definition wl_client_post_implementation_error (client : Z) (text : list Z) s : option (server C W) :=
  k ← clients s !! client;
  wl_resource_post_error (k_display_resource k) WL_DISPLAY_ERROR_IMPLEMENTATION text s.
Definition wl_resource_post_no_memory (resource : Z) s : option (server C W) :=
  r ← resources s !! resource;
  k ← clients s !! r_client r;
  wl_resource_post_error (k_display_resource k) WL_DISPLAY_ERROR_NO_MEMORY (str "no memory") s.

(** ** Resources *)

Definition sizeof_wl_resource : Z := 128.

(** A new resource; the result 0 is [NULL]. *)
Definition wl_resource_create (client : Z) (interface : wl_interface) (version id : Z) s : option (Z * server C W) :=
  k ← clients s !! client;
  match new_memory sizeof_wl_resource (dom (resources s)) (world s) with
  | (None, w) => Some (0, set_world w s)
  | (Some resource, w) =>
      '(id, k, w) ← (if id =? 0 then
                       '(r, m, w) ← wl_map_insert_new (k_objects k) 0 0 w;
                       Some (match r with Ret id => id | Fail _ => 0 end, k_set_objects m k, w)
                     else Some (id, k, w));
      if id =? 0 then Some (0, set_world w (set_client client k s))
      else
        let r := mk_resource (mk_object interface id) no_implementation no_destroy client 0 version None [] in
        '(res, m, w) ← wl_map_insert_at (k_objects k) 0 id resource w;
        let s := set_world w (set_client client (k_set_objects m k) s) in
        match res with
        | Fail e =>
            if bool_decide (e = EINVAL) then
              s ← wl_resource_post_error (k_display_resource k) WL_DISPLAY_ERROR_INVALID_OBJECT (str "invalid new id " ++ fmt_d (i32 id)) s;
              Some (0, s)
            else Some (0, s)
        | Ret _ =>
            let s := set_resources (<[resource := r]>) s in
            Some (resource, set_world (notify resource (world s)) s)
        end
  end.

Definition wl_resource_set_implementation (resource : Z) (impl : implementation) (data : Z) (destroy : destructor) s : option (server C W) :=
  r ← resources s !! resource;
  Some (set_resources (<[resource := mk_resource (r_object r) impl destroy (r_client r) data (r_version r) None (r_events r)]>) s).
Definition wl_resource_set_dispatcher (resource : Z) (dispatcher : option Z) (impl : implementation) (data : Z) (destroy : destructor) s : option (server C W) :=
  r ← resources s !! resource;
  Some (set_resources (<[resource := mk_resource (r_object r) impl destroy (r_client r) data (r_version r) dispatcher (r_events r)]>) s).

Definition run_destructor (resource : Z) (d : destructor) s : option (server C W) :=
  match d with
  | no_destroy => Some s
  | unbind_resource => Some (set_registries (filter (λ x, x ≠ resource) (registry_resource_list s)) s)
  | destroy_client_display_resource =>
      r ← resources s !! resource;
      k ← clients s !! r_client r;
      Some (set_client (r_client r) (k_set_display 0 k) s)
  | UserDestroy f => Some (set_world (user_destroy f resource (world s)) s)
  end.

(** [wl_map_insert_at (&client->objects, 0, id, NULL)], the result ignored. *)
Definition clear_id (client id : Z) s : option (server C W) :=
  k ← clients s !! client;
  '(_, m, w) ← wl_map_insert_at (k_objects k) 0 id 0 (world s);
  Some (set_world w (set_client client (k_set_objects m k) s)).

(** Resources created with the deprecated structure are not modelled, so the
    flag of the map entry is clear and the memory is freed. *)
Definition remove_and_destroy_resource (resource : Z) s : option (server C W) :=
  r ← resources s !! resource;
  let client := r_client r in
  let id := o_id (r_object r) in
  let s := set_world (notify resource (world s)) s in
  s ← run_destructor resource (r_destroy r) s;
  k ← clients s !! client;
  s ← (if id <? WL_SERVER_ID_START then
         s ← (if k_display_resource k =? 0 then Some s
              else wl_resource_queue_event (k_display_resource k) WL_DISPLAY_DELETE_ID [va_uint32 id] s);
         clear_id client id s
       else
         m ← wl_map_remove (k_objects k) id;
         Some (set_client client (k_set_objects m k) s));
  Some (set_resources (delete resource) s).
Definition wl_resource_destroy := remove_and_destroy_resource.

Fixpoint find_loop s (client : Z) (l : list Z) : option Z :=
  match l with
  | [] => Some 0
  | resource :: l =>
      r ← resources s !! resource;
      if r_client r =? client then Some resource else find_loop s client l
  end.
Definition wl_resource_find_for_client s (l : list Z) (client : Z) : option Z :=
  if client =? 0 then Some 0 else find_loop s client l.

(** ** Globals *)

Definition wl_global_is_visible (client : Z) (g : wl_global) : bool :=
  match global_filter with None => true | Some f => f client g end.

Definition global_event (g : wl_global) : list va_value :=
  [va_uint32 (g_name g); va_string (Some (str (if_name (g_interface g)))); va_uint32 (g_version g)].

(** [wl_list_for_each] over the registries, posting to those that see it. *)
Fixpoint broadcast (l : list Z) (g : wl_global) (opcode : Z) (ap : list va_value) s : option (server C W) :=
  match l with
  | [] => Some s
  | resource :: l =>
      r ← resources s !! resource;
      s ← (if wl_global_is_visible (r_client r) g then wl_resource_post_event resource opcode ap s else Some s);
      broadcast l g opcode ap s
  end.

Definition sizeof_wl_global : Z := 64.

Definition wl_global_create (interface : wl_interface) (version data bind : Z) s : option (Z * server C W) :=
  if version <? 1 then Some (0, s)
  else if if_version interface <? version then Some (0, s)
  else if 2 ^ 32 - 1 <=? next_global_name s then Some (0, s)
  else
    match new_memory sizeof_wl_global (list_to_set (map fst (global_list s))) (world s) with
    | (None, w) => Some (0, set_world w s)
    | (Some global, w) =>
        let g := mk_global interface (next_global_name s) version data bind false in
        let s := set_next_name (u32 (next_global_name s + 1)) (set_world w s) in
        let s := set_globals (global_list s ++ [(global, g)]) s in
        s ← broadcast (registry_resource_list s) g WL_REGISTRY_GLOBAL (global_event g) s;
        Some (global, s)
    end.

Fixpoint find_global (p : Z) (l : list (Z * wl_global)) : option wl_global :=
  match l with
  | [] => None
  | (q, g) :: l => if p =? q then Some g else find_global p l
  end.
Definition update_global (p : Z) (f : wl_global → wl_global) (l : list (Z * wl_global)) : list (Z * wl_global) :=
  map (λ '(q, g), (q, if p =? q then f g else g)) l.

(** [wl_abort] on a global removed before. *)
Definition wl_global_remove (global : Z) s : option (server C W) :=
  g ← find_global global (global_list s);
  if g_removed g then None
  else
    s ← broadcast (registry_resource_list s) g WL_REGISTRY_GLOBAL_REMOVE [va_uint32 (g_name g)] s;
    Some (set_globals (update_global global g_remove (global_list s)) s).

Definition wl_global_destroy (global : Z) s : option (server C W) :=
  g ← find_global global (global_list s);
  s ← (if negb (g_removed g) then wl_global_remove global s else Some s);
  Some (set_globals (filter (λ x, x.1 ≠ global) (global_list s)) s).

Definition wl_global_get_name (client : Z) (g : wl_global) : Z :=
  if wl_global_is_visible client g then g_name g else 0.

(** ** Requests of wl_display and wl_registry *)

(** The call of the bind callback, for the caller to make. *)
Record bind_call : Type := mk_bind { b_client : Z; b_data : Z; b_function : Z; b_version : Z; b_id : Z }.

Fixpoint global_named (name : Z) (l : list (Z * wl_global)) : option wl_global :=
  match l with
  | [] => None
  | (_, g) :: l => if g_name g =? name then Some g else global_named name l
  end.

Definition registry_bind (client resource name : Z) (interface : list Z) (version id : Z) s : option (option bind_call * server C W) :=
  let error text := s ← wl_resource_post_error resource WL_DISPLAY_ERROR_INVALID_OBJECT text s; Some (None, s) in
  match global_named name (global_list s) with
  | None => error (str "invalid global " ++ interface ++ str " (" ++ fmt_d (i32 name) ++ str ")")
  | Some g =>
      if bool_decide (str (if_name (g_interface g)) ≠ interface) then
        error (str "invalid interface for global " ++ fmt_u name ++ str ": have " ++ interface ++ str ", wanted " ++ str (if_name (g_interface g)))
      else if version =? 0 then
        error (str "invalid version for global " ++ interface ++ str " (" ++ fmt_d (i32 name) ++ str "): 0 is not a valid version")
      else if g_version g <? version then
        error (str "invalid version for global " ++ interface ++ str " (" ++ fmt_d (i32 name) ++ str "): have " ++ fmt_d (i32 (g_version g)) ++ str ", wanted " ++ fmt_d (i32 version))
      else if negb (wl_global_is_visible client g) then
        error (str "invalid global " ++ interface ++ str " (" ++ fmt_d (i32 name) ++ str ")")
      else Some (Some (mk_bind client (g_data g) (g_bind g) version id), s)
  end.

Definition display_sync (client id : Z) s : option (server C W) :=
  '(callback, s) ← wl_resource_create client wl_callback_interface 1 id s;
  if callback =? 0 then wl_client_post_no_memory client s
  else
    s ← wl_resource_post_event callback WL_CALLBACK_DONE [va_uint32 (serial s)] s;
    wl_resource_destroy callback s.

(** The globals announced to a new registry. *)
Fixpoint announce (client registry : Z) (l : list (Z * wl_global)) s : option (server C W) :=
  match l with
  | [] => Some s
  | (_, g) :: l =>
      s ← (if wl_global_is_visible client g && negb (g_removed g)
           then wl_resource_post_event registry WL_REGISTRY_GLOBAL (global_event g) s else Some s);
      announce client registry l s
  end.

Definition display_get_registry (client id : Z) s : option (server C W) :=
  '(registry, s) ← wl_resource_create client wl_registry_interface 1 id s;
  if registry =? 0 then wl_client_post_no_memory client s
  else
    s ← wl_resource_set_implementation registry registry_interface 0 unbind_resource s;
    let s := set_registries (registry :: registry_resource_list s) s in
    announce client registry (global_list s) s.

(** [Fail] is the result -1. *)
Definition bind_display (client : Z) s : option (cres unit * server C W) :=
  '(r, s) ← wl_resource_create client wl_display_interface 1 1 s;
  k ← clients s !! client;
  let s := set_client client (k_set_display r k) s in
  if r =? 0 then Some (Fail EOTHER, s)
  else
    s ← wl_resource_set_implementation r display_interface 0 destroy_client_display_resource s;
    Some (Ret tt, s).

(** ** Clients *)

Definition sizeof_wl_client : Z := 232.

(** The error path after the object map exists. *)
Definition abandon_client (client : Z) s : option (server C W) :=
  k ← clients s !! client;
  w ← sink_abandon (k_connection k) (world s);
  Some (set_world (remove_source client w) (set_clients (delete client) s)).

(** The result 0 is [NULL]. *)
Definition wl_client_create (fd : Z) s : option (Z * server C W) :=
  match new_memory sizeof_wl_client (dom (clients s)) (world s) with
  | (None, w) => Some (0, set_world w s)
  | (Some client, w) =>
      match open_connection fd w with
      | (None, w) => Some (0, set_world w s)
      | (Some x, w) =>
          '(r, m, w) ← wl_map_insert_at (wl_map_init WL_MAP_SERVER_SIDE) 0 0 0 w;
          let s := set_world w (set_client client (mk_client x 0 m false) s) in
          match r with
          | Fail _ => s ← abandon_client client s; Some (0, s)
          | Ret _ =>
              '(r, s) ← bind_display client s;
              match r with
              | Fail _ => s ← abandon_client client s; Some (0, s)
              | Ret _ =>
                  let s := set_client_list (client_list s ++ [client]) s in
                  Some (client, set_world (notify client (world s)) s)
              end
          end
      end
  end.

(** The callback of [wl_map_for_each]; the map is that of the client. *)
Definition destroy_each (client d flags : Z) (m : wl_map) s : option (wl_iterator_result * wl_map * server C W) :=
  k ← clients s !! client;
  s ← remove_and_destroy_resource d (set_client client (k_set_objects m k) s);
  k ← clients s !! client;
  Some (WL_ITERATOR_CONTINUE, k_objects k, s).

(** A client that is in no list any more is being destroyed. *)
Definition wl_client_destroy (client : Z) s : option (server C W) :=
  k ← clients s !! client;
  if bool_decide (client ∉ client_list s) then Some (set_client client (k_set_error k) s)
  else
    let s := set_client_list (filter (λ x, x ≠ client) (client_list s)) s in
    let s := set_world (notify client (world s)) s in
    '(_, x, w) ← sink_flush (k_connection k) (world s);
    let s := set_world w (set_client client (k_set_connection x k) s) in
    '(m, s) ← wl_map_for_each (destroy_each client) (k_objects k) s;
    k ← clients s !! client;
    let k := k_set_objects (wl_map_release m) k in
    let w := remove_source client (world s) in
    w ← sink_destroy (k_connection k) w;
    Some (set_world (notify client w) (set_clients (delete client) s)).

Definition wl_display_get_serial s : Z := serial s.
Definition wl_display_next_serial s : Z * server C W :=
  let n := u32 (serial s + 1) in (n, set_serial n s).
End server.
