(* ===== verification/WlServerSpec.v ===== *)
(** * Correctness of the server's resources and registry

    The invariant of the state of [WlServer], that every operation returns and
    keeps it, and what a client sees of the globals: the events its registry
    has received describe exactly the globals that are there for it.  The
    connections of [WlConnection] implement the interface the server uses. *)

From stdpp Require Import strings.
From S2P Require Import Prelude Decimal Os OsSim WlOs WlRing WlConnection WlSession WlArray WlMap WlMessage WlClosure WlTransmit WlPrint WlServer.
Open Scope Z_scope.

(** ** The promise of a connection *)

(** [sink_ok c w]: the connection works.  Sending returns, with every working
    connection still working, this one included. *)
Class EventSinkLaws (C W : Type) `{OsMem W} `{OsFd W} `{EventSink C W} := {
  sink_ok : C → W → Prop;
  sink_send_law now heap cl c w : sink_ok c w → sendable heap cl →
    ∃ r cl' c' w', sink_send now heap cl c w = Some (r, cl', c', w') ∧ closure_fds_ok cl' ∧
      sink_ok c' w' ∧ sink_pending c' = sink_pending c ∧ ∀ d, sink_ok d w → sink_ok d w';
  sink_flush_law c w : sink_ok c w →
    ∃ r c' w', sink_flush c w = Some (r, c', w') ∧ sink_ok c' w' ∧ sink_pending c' = sink_pending c ∧ ∀ d, sink_ok d w → sink_ok d w';
  sink_destroy_law c w : sink_ok c w → ∃ w', sink_destroy c w = Some w' ∧ ∀ d, sink_ok d w → sink_ok d w';
  sink_abandon_law c w : sink_ok c w → ∃ w', sink_abandon c w = Some w' ∧ ∀ d, sink_ok d w → sink_ok d w';
  sink_alloc n w d : sink_ok d w → sink_ok d (snd (os_alloc n w));
  sink_close fd w d : sink_ok d w → sink_ok d (os_close fd w)
}.

Section connection.
Context {W : Type} `{OsSockLaws W} (m : Z) (budget fuel : nat).

Definition connection_send (now : bool) (heap : Z → option wl_object) (cl : wl_closure) (c : wl_connection) (w : W) :=
  if now then wl_closure_send heap fuel cl c w else wl_closure_queue heap fuel cl c w.
Definition connection_close (c : wl_connection) (w : W) : option W :=
  '(fd, w) ← wl_connection_destroy c w; Some (os_close fd w).
Definition connection_abandon (c : wl_connection) (w : W) : option W := snd <$> wl_connection_destroy c w.
Definition connection_sink : EventSink wl_connection W :=
  Build_EventSink _ _ connection_send (wl_connection_flush fuel) connection_abandon connection_close wl_connection_pending_input.

Definition connection_ok (c : wl_connection) (w : W) : Prop :=
  conn_inv m c ∧ Forall is_byte (ring_contents (c_in c)) ∧ (eintr_budget w <= budget)%nat.

(** Any working connection is in a session that starts now. *)
Lemma connection_in_session c w : connection_ok c w →
  session_inv m w c w (mk_log (ring_contents (c_out c)) (out_fds c) [] false).
Proof. intros [Hi _]. split_and!; done. Qed.
Lemma session_connection c w c' w' l : connection_ok c w → c_in c' = c_in c → session_inv m w c' w' l → connection_ok c' w'.
Proof. intros (_ & Hc & Hb) E (Hi & Hw & _). split_and!; [done|by rewrite E|lia]. Qed.

Hypothesis (Hm : 12 <= m <= 30) (Hfuel : (Z.to_nat (2 ^ m) + budget < fuel)%nat).

Lemma budget_fuel w : (eintr_budget w <= budget)%nat → fuel_ok m w fuel.
Proof. unfold fuel_ok. lia. Qed.
Lemma connection_frame w w' : (eintr_budget w' <= eintr_budget w)%nat → ∀ d, connection_ok d w → connection_ok d w'.
Proof. intros Hw d (? & ? & ?). split_and!; [done..|lia]. Qed.

Lemma connection_send_law now heap cl c w : connection_ok c w → sendable heap cl →
  ∃ r cl' c' w', connection_send now heap cl c w = Some (r, cl', c', w') ∧ closure_fds_ok cl' ∧
    connection_ok c' w' ∧ wl_connection_pending_input c' = wl_connection_pending_input c ∧ ∀ d, connection_ok d w → connection_ok d w'.
Proof.
  intros Hc Hs. pose proof Hc as (_ & _ & Hb). pose proof (connection_in_session c w Hc) as Hi. pose proof (budget_fuel w Hb) as Hf. unfold connection_send.
  assert (∃ P r cl' c' w' l', (if now then wl_closure_send heap fuel cl c w else wl_closure_queue heap fuel cl c w) = Some (r, cl', c', w') ∧
    sent_post m w heap P cl l' r cl' c' w') as (P & r & cl' & c' & w' & l' & E & (bytes & sent & rest & Hi' & _ & Hfd & _)).
  { destruct now.
    - destruct (send_spec m w Hm fuel Hf heap cl c w _ Hs Hi) as (r & cl' & c' & w' & E & Hp). by eexists _, r, cl', c', w', _.
    - destruct (queue_closure_spec m w Hm fuel Hf heap cl c w _ Hs Hi) as (r & cl' & c' & w' & E & Hp). by eexists _, r, cl', c', w', _. }
  assert (c_in c' = c_in c) as Ein by (destruct now; [by eapply send_input|by eapply queue_closure_input]).
  exists r, cl', c', w'. split_and!; [exact E|exact Hfd|by eapply session_connection|unfold wl_connection_pending_input; by rewrite Ein|].
  apply connection_frame. apply Hi'.
Qed.
Lemma connection_flush_law c w : connection_ok c w →
  ∃ r c' w', wl_connection_flush fuel c w = Some (r, c', w') ∧ connection_ok c' w' ∧ wl_connection_pending_input c' = wl_connection_pending_input c ∧ ∀ d, connection_ok d w → connection_ok d w'.
Proof.
  intros Hc. pose proof Hc as (_ & _ & Hb). destruct (flush_step m w Hm fuel c w _ (budget_fuel w Hb) (connection_in_session c w Hc)) as (r & c' & w' & E & Hi).
  pose proof (flush_input _ _ _ _ _ _ E) as Ein. exists r, c', w'. split_and!; [exact E|by eapply session_connection|unfold wl_connection_pending_input; by rewrite Ein|]. apply connection_frame, Hi.
Qed.
Lemma close_all_budget fds w : (eintr_budget (close_all fds w) <= eintr_budget w)%nat.
Proof.
  revert w. induction fds as [|fd fds IH]; intros w; [done|]. cbn. etrans; [apply IH|]. apply (os_close_frame fd w).
Qed.
Lemma connection_close_law c w : connection_ok c w → ∃ w', connection_close c w = Some w' ∧ ∀ d, connection_ok d w → connection_ok d w'.
Proof.
  intros [[Hc _] _]. unfold connection_close. rewrite destroy_spec by done. cbn [mbind option_bind]. eexists. split; [done|]. apply connection_frame.
  etrans; [apply (os_close_frame (c_fd c))|]. apply close_all_budget.
Qed.

Lemma connection_abandon_law c w : connection_ok c w → ∃ w', connection_abandon c w = Some w' ∧ ∀ d, connection_ok d w → connection_ok d w'.
Proof.
  intros [[Hc _] _]. unfold connection_abandon. rewrite destroy_spec by done. eexists. split; [done|]. apply connection_frame, close_all_budget.
Qed.

Definition connection_sink_laws : EventSinkLaws wl_connection W (H1 := connection_sink) :=
  Build_EventSinkLaws _ _ _ _ connection_sink connection_ok connection_send_law connection_flush_law connection_close_law connection_abandon_law
    (λ n w, connection_frame w _ (proj2 (proj1 (os_alloc_frame n w)))) (λ fd w, connection_frame w _ (proj2 (proj1 (os_close_frame fd w)))).
End connection.

(** ** Messages of the core protocol *)

Definition text_ok (t : list Z) : Prop := c_string t ∧ Z.of_nat (length t) <= 2 ^ 20.

Lemma c_string_fmt_u n : 0 <= n < 2 ^ 64 → c_string (fmt_u n).
Proof.
  intros Hn. destruct (fmt_u_spec n ltac:(lia)) as (Hd & _). eapply Forall_impl; [exact Hd|]. cbn. unfold is_digit. intros c [Ha%Z.leb_le Hb%Z.leb_le]%andb_true_iff. lia.
Qed.
Lemma c_string_fmt_d n : - 2 ^ 31 <= n < 2 ^ 31 → c_string (fmt_d n).
Proof.
  intros Hn. unfold fmt_d. destruct (Z.ltb_spec n 0); [constructor; [lia|]|]; apply c_string_fmt_u; lia.
Qed.
#[export] Instance c_string_dec t : Decision (c_string t).
Proof. unfold c_string. apply _. Defined.
(** String literals. *)
Lemma c_string_str t : bool_decide (c_string (str t)) = true → c_string (str t).
Proof. apply bool_decide_eq_true. Qed.

(** A formatted message. *)
Ltac c_text := repeat (apply Forall_app; split); first [done | apply c_string_fmt_d, i32_bound | by apply c_string_str].

(** The arguments of the events the library itself sends. *)
Inductive core_args (heap : Z → option wl_object) : string → list wl_argument → Prop :=
  | core_u a : core_args heap "u" [arg_u a]
  | core_usu a t b : text_ok t → core_args heap "usu" [arg_u a; arg_s (Some t); arg_u b]
  | core_ous o a t : o ≠ 0 → is_Some (heap o) → text_ok t → core_args heap "ous" [arg_o o; arg_u a; arg_s (Some t)].

(** The rest of the array holds what it happens to hold. *)
Definition on_stack (args : list wl_argument) : list wl_argument := args ++ drop (length args) stack_args.

Section core.
Context {W : Type} `{OsMem W} `{OsFd W}.

Lemma block_words_small n : 0 <= n <= 2 ^ 21 → block_words n <= 2 ^ 20.
Proof. intros Hn. unfold block_words. pose proof (Z.div_le_upper_bound (n + 3) 4 (2 ^ 20 - 1)). lia. Qed.

Lemma core_sendable heap sender opcode args name types sig zeros : core_args heap sig args →
  sendable heap (mk_closure (length args) (mk_message name sig types) opcode sender (args ++ zeros)).
Proof.
  intros Ha. unfold sendable, closure_wf, closure_words, cl_signature. cbn [cl_message msg_signature cl_count cl_args].
  destruct Ha as [a|a t b [Ht Hl]|o a t Ho Hh [Ht Hl]];
    (match goal with |- context [parse_signature ?s] => let p := eval vm_compute in (parse_signature s) in change (parse_signature s) with p end);
    cbn [length app args_typed arg_typed args_words arg_words raw_fds]; split_and!; try done; try (eexists; done); try (by eexists; split; [done|]; intros ? [= <-]);
    try (by eexists; split; [done|right]); try (apply Forall_nil; done); try lia.
  - pose proof (block_words_small (Z.of_nat (length t) + 1)). lia.
  - pose proof (block_words_small (Z.of_nat (length t) + 1)). lia.
Qed.

Lemma core_marshal heap sender opcode args message (w : W) : core_args heap (msg_signature message) args →
  ∃ r, wl_closure_marshal heap sender opcode (on_stack args) message w = Some (r, snd (os_alloc sizeof_closure w)) ∧
    match r with Ret cl => sendable heap cl | Fail _ => True end.
Proof.
  intros Ha. destruct message as [name sig types]. cbn [msg_signature] in Ha. unfold wl_closure_marshal, wl_closure_init. cbn [msg_signature].
  pose proof (core_sendable heap (o_id sender) opcode args name types sig (drop (length args) stack_args) Ha) as Hs.
  assert (u64 (closure_alloc_size 0 (if 0 =? 0 then 0%nat else wl_message_count_arrays (mk_message name sig types))) = sizeof_closure) as -> by reflexivity.
  destruct Ha as [a|a t b Ht|o a t Ho Hh Ht]; destruct (os_alloc sizeof_closure w) as [[junk|] w']; try (by eexists; split; [reflexivity|]).
  destruct o as [|o|o]; [done|..]; (eexists; split; [reflexivity|exact Hs]).
Qed.
End core.

(** ** The state without connections and ghost events *)

Definition r_forget (r : wl_resource) : wl_resource :=
  mk_resource (r_object r) (r_implementation r) (r_destroy r) (r_client r) (r_data r) (r_version r) (r_dispatcher r) [].

Record view : Type := mk_view {
  v_next : Z;
  v_serial : Z;
  v_registries : list Z;
  v_globals : list (Z * wl_global);
  v_client_list : list Z;
  v_clients : gmap Z (Z * wl_map);        (* display resource and objects *)
  v_resources : gmap Z wl_resource
}.

Section views.
Context {C W : Type}.
Implicit Types s : server C W.

Definition k_view (k : wl_client C) : Z * wl_map := (k_display_resource k, k_objects k).
Definition view_of s : view :=
  mk_view (next_global_name s) (serial s) (registry_resource_list s) (global_list s) (client_list s) (k_view <$> clients s) (r_forget <$> resources s).

Lemma view_resource s p r : resources s !! p = Some r → v_resources (view_of s) !! p = Some (r_forget r).
Proof. intros E. cbn. by rewrite lookup_fmap, E. Qed.
Lemma view_resource_inv s p v : v_resources (view_of s) !! p = Some v → ∃ r, resources s !! p = Some r ∧ v = r_forget r.
Proof. cbn. rewrite lookup_fmap. intros (r & E & ->)%fmap_Some. eauto. Qed.
Lemma view_client s c k : clients s !! c = Some k → v_clients (view_of s) !! c = Some (k_view k).
Proof. intros E. cbn. by rewrite lookup_fmap, E. Qed.
Lemma view_client_inv s c v : v_clients (view_of s) !! c = Some v → ∃ k, clients s !! c = Some k ∧ v = k_view k.
Proof. cbn. rewrite lookup_fmap. intros (r & E & ->)%fmap_Some. eauto. Qed.

Lemma fmap_insert_same {A B} (f : A → B) (m : gmap Z A) i x y : m !! i = Some x → f y = f x → f <$> <[i := y]> m = f <$> m.
Proof. intros E Ef. rewrite fmap_insert, Ef. apply insert_id. by rewrite lookup_fmap, E. Qed.

(** The event was accepted for the resource, or its client is in error. *)
Definition delivers (p opcode : Z) (args : list wl_argument) s s' : Prop :=
  view_of s' = view_of s ∧
  (∀ c k', clients s' !! c = Some k' → k_error k' = false → ∃ k, clients s !! c = Some k ∧ k_error k = false) ∧
  ∃ r, resources s !! p = Some r ∧
    (resources s' = resources s ∨ resources s' = <[p := r_add_event opcode args r]> (resources s)) ∧
    (∀ k', clients s' !! r_client r = Some k' → k_error k' = false → resources s' = <[p := r_add_event opcode args r]> (resources s)).

Lemma delivers_heap p opcode args s s' : delivers p opcode args s s' → ∀ q, heap s' q = heap s q.
Proof.
  intros (_ & _ & r & Er & [E|E] & _) q; unfold heap; rewrite E; [done|].
  destruct (decide (q = p)) as [->|Hq]; [by rewrite lookup_insert_eq, Er|by rewrite lookup_insert_ne].
Qed.
End views.

(** ** The invariant *)

Definition globals_ok (next : Z) (l : list (Z * wl_global)) : Prop :=
  NoDup (map fst l) ∧ NoDup (map (λ x, g_name x.2) l) ∧
  Forall (λ x, 1 <= g_name x.2 < next ∧ text_ok (str (if_name (g_interface x.2)))) l.

Definition is_registry (r : wl_resource) : Prop := if_name (o_interface (r_object r)) = "wl_registry".
Definition is_display (r : wl_resource) : Prop := if_name (o_interface (r_object r)) = "wl_display".

Definition id_fits (r : wl_resource) : Prop :=
  id_index (o_id (r_object r)) <= WL_MAP_MAX_OBJECTS ∧ (r_destroy r = destroy_client_display_resource → o_id (r_object r) = 1).
Definition resource_ok (v : view) (p : Z) (r : wl_resource) : Prop :=
  ptr_ok p ∧ p ≠ 0 ∧ 0 < o_id (r_object r) < 2 ^ 32 ∧ id_fits r ∧ is_Some (v_clients v !! r_client r).

(** The object map of a client holds its resources, each under its id. *)
Definition client_ok (rs : gmap Z wl_resource) (c d : Z) (m : wl_map) : Prop := ∃ A free,
  map_rep m A free ∧ side m = WL_MAP_SERVER_SIDE ∧ map_small m ∧
  (∀ p r, rs !! p = Some r → r_client r = c → A !! o_id (r_object r) = Some (p, 0)) ∧
  (∀ id p f, A !! id = Some (p, f) → f = 0 ∧ (p = 0 ∨ ∃ r, rs !! p = Some r ∧ r_client r = c ∧ o_id (r_object r) = id)) ∧
  (d ≠ 0 → ∃ r, rs !! d = Some r ∧ r_client r = c ∧ is_display r ∧ r_destroy r = destroy_client_display_resource) ∧
  (∀ p r, rs !! p = Some r → r_client r = c → r_destroy r = destroy_client_display_resource → p = d).

Definition view_wf (v : view) : Prop :=
  1 <= v_next v < 2 ^ 32 ∧ globals_ok (v_next v) (v_globals v) ∧
  NoDup (v_registries v) ∧
  (∀ q, q ∈ v_registries v → ∃ r, v_resources v !! q = Some r ∧ is_registry r ∧ r_destroy r = unbind_resource) ∧
  (∀ p r, v_resources v !! p = Some r → resource_ok v p r) ∧
  (∀ c d m, v_clients v !! c = Some (d, m) → client_ok (v_resources v) c d m).

(** ** What a registry says *)

(** The globals a client knows from the events of a registry: interface and
    version by name. *)
Definition registry_event (m : gmap Z (list Z * Z)) (ev : Z * list wl_argument) : gmap Z (list Z * Z) :=
  match ev with
  | (opcode, arg_u name :: arg_s (Some interface) :: arg_u version :: _) =>
      if opcode =? WL_REGISTRY_GLOBAL then <[name := (interface, version)]> m else m
  | (opcode, arg_u name :: _) => if opcode =? WL_REGISTRY_GLOBAL_REMOVE then delete name m else m
  | _ => m
  end.
Definition registry_view (evs : list (Z * list wl_argument)) : gmap Z (list Z * Z) := foldl registry_event ∅ evs.

Definition global_args (g : wl_global) : list wl_argument := [arg_u (g_name g); arg_s (Some (str (if_name (g_interface g)))); arg_u (g_version g)].
Definition remove_args (g : wl_global) : list wl_argument := [arg_u (g_name g)].

Section announced.
Context (global_filter : option (Z → wl_global → bool)).

(** The globals there are for a client. *)
Definition announce_one (c : Z) (m : gmap Z (list Z * Z)) (x : Z * wl_global) : gmap Z (list Z * Z) :=
  if wl_global_is_visible global_filter c x.2 && negb (g_removed x.2)
  then <[g_name x.2 := (str (if_name (g_interface x.2)), g_version x.2)]> m else m.
Definition announced (c : Z) (l : list (Z * wl_global)) : gmap Z (list Z * Z) := foldl (announce_one c) ∅ l.

Lemma announced_snoc c l x : announced c (l ++ [x]) = announce_one c (announced c l) x.
Proof. unfold announced. by rewrite foldl_app. Qed.

Lemma announced_lookup c l n t : NoDup (map (λ x, g_name x.2) l) →
  announced c l !! n = Some t ↔ ∃ x, x ∈ l ∧ g_name x.2 = n ∧ wl_global_is_visible global_filter c x.2 = true ∧ g_removed x.2 = false ∧ t = (str (if_name (g_interface x.2)), g_version x.2).
Proof.
  unfold announced. induction l as [|x l IH] using rev_ind; intros Hnd.
  { cbn [foldl]. rewrite lookup_empty. split; [done|]. intros (x & Hx & _). by apply elem_of_nil in Hx. }
  rewrite map_app in Hnd. apply NoDup_app in Hnd as (Hnd & Hx & _). specialize (IH Hnd). rewrite foldl_app. cbn [foldl]. unfold announce_one at 1.
  destruct (wl_global_is_visible global_filter c x.2 && negb (g_removed x.2)) eqn:E.
  - apply andb_true_iff in E as [Ev Er%negb_true_iff]. destruct (decide (n = g_name x.2)) as [->|Hn].
    + rewrite lookup_insert_eq. split.
      * intros [= <-]. exists x. rewrite elem_of_app. set_solver.
      * intros (y & [Hy| ->%list_elem_of_singleton]%elem_of_app & En & _ & _ & ->); [|done].
        destruct (Hx (g_name y.2)); [|rewrite En; set_solver]. by apply (list_elem_of_fmap_2 (λ x : Z * wl_global, g_name x.2)).
    + rewrite lookup_insert_ne by done. rewrite IH. split; intros (y & Hy & Ey & R); exists y; (split; [|split; [exact Ey|exact R]]); [set_solver|].
      apply elem_of_app in Hy as [Hy| ->%list_elem_of_singleton]; [done|]. by rewrite Ey in Hn.
  - rewrite IH. split; intros (y & Hy & Ey & Ev & Er & Et); exists y; (split; [|done]); [set_solver|].
    apply elem_of_app in Hy as [Hy| ->%list_elem_of_singleton]; [done|]. by rewrite Ev, Er in E.
Qed.

Lemma find_global_elem p l g : find_global p l = Some g → (p, g) ∈ l.
Proof.
  induction l as [|[q g'] l IH]; cbn [find_global]; [done|]. destruct (Z.eqb_spec p q) as [->|_]; [intros [= ->]; constructor|].
  intros ?%IH. by constructor.
Qed.

Lemma update_global_names p l : map (λ x, g_name x.2) (update_global p g_remove l) = map (λ x, g_name x.2) l.
Proof. induction l as [|[q g] l IH]; [done|]. cbn. f_equal; [by destruct (p =? q)|exact IH]. Qed.
Lemma update_global_fst p f l : map fst (update_global p f l) = map fst l.
Proof. induction l as [|[q g] l IH]; [done|]. cbn. by f_equal. Qed.
Lemma update_global_elem p f l x : x ∈ update_global p f l ↔ ∃ y, y ∈ l ∧ x = (y.1, if p =? y.1 then f y.2 else y.2).
Proof.
  unfold update_global. rewrite list_elem_of_fmap. split; intros (y & E & Hy); exists y; (split; [|by destruct y]); [exact Hy|].
  destruct y. exact Hy.
Qed.

Lemma fst_inj (l : list (Z * wl_global)) q g g' : NoDup (map fst l) → (q, g) ∈ l → (q, g') ∈ l → g = g'.
Proof.
  induction l as [|[q0 g0] l IH]; intros Hnd; [by intros ?%elem_of_nil|]. cbn [map fst] in Hnd. apply NoDup_cons in Hnd as [Hq Hnd].
  rewrite !elem_of_cons. intros [Eg|Hg] [Eg'|Hg']; simplify_eq; [done|..|by apply IH]; destruct Hq; apply list_elem_of_fmap; eexists; (split; [|eassumption]); done.
Qed.
Lemma names_inj (l : list (Z * wl_global)) x y : NoDup (map (λ x, g_name x.2) l) → x ∈ l → y ∈ l → g_name x.2 = g_name y.2 → x = y.
Proof.
  induction l as [|z l IH]; intros Hnd; [by intros ?%elem_of_nil|]. cbn [map] in Hnd. apply NoDup_cons in Hnd as [Hq Hnd].
  rewrite !elem_of_cons. intros [->|Hx] [->|Hy] E; [done|..|by apply IH]; destruct Hq; apply list_elem_of_fmap; eexists; (split; [|eassumption]); done.
Qed.

Lemma announced_remove c p g l : NoDup (map (λ x, g_name x.2) l) → NoDup (map fst l) → find_global p l = Some g →
  announced c (update_global p g_remove l) = if wl_global_is_visible global_filter c g then delete (g_name g) (announced c l) else announced c l.
Proof.
  intros Hn Hf Hg%find_global_elem. assert (Hn' := Hn). rewrite <- (update_global_names p) in Hn'. apply map_eq. intros n. apply option_eq. intros t.
  rewrite (announced_lookup c _ n t Hn'). trans (∃ x, x ∈ l ∧ x.1 ≠ p ∧ g_name x.2 = n ∧ wl_global_is_visible global_filter c x.2 = true ∧ g_removed x.2 = false ∧ t = (str (if_name (g_interface x.2)), g_version x.2)).
  { split.
    - intros (x & (y & Hy & ->)%update_global_elem & E & Ev & Er & Et). exists y. cbn [fst snd] in *. destruct (Z.eqb_spec p y.1) as [->|Hne]; [done|]. by split_and!.
    - intros (x & Hx & Hp & R). exists x. split; [|exact R]. apply update_global_elem. exists x. split; [done|]. rewrite (proj2 (Z.eqb_neq p x.1)) by done. by destruct x. }
  destruct (wl_global_is_visible global_filter c g) eqn:Ev.
  - rewrite lookup_delete_Some, (announced_lookup c l n t Hn). split.
    + intros (x & Hx & Hp & <- & R). split; [|by exists x]. intros E. apply Hp. by rewrite <- (names_inj l (p, g) x Hn Hg Hx E).
    + intros (Hne & x & Hx & <- & R). exists x. split_and!; try done; [|apply R..]. intros <-. destruct x as [q g']. cbn [fst] in *. by rewrite (fst_inj l q g g' Hf Hg Hx) in Hne.
  - rewrite (announced_lookup c l n t Hn). split; [intros (x & Hx & _ & R); by exists x|]. intros (x & Hx & En & Evx & R). exists x. split_and!; try done; [|apply R..].
    intros <-. destruct x as [q g']. cbn [fst snd] in *. by rewrite <- (fst_inj l q g g' Hf Hg Hx), Ev in Evx.
Qed.

Lemma announced_destroy c p l : NoDup (map (λ x, g_name x.2) l) → (∀ g, (p, g) ∈ l → g_removed g = true) →
  announced c (filter (λ x, x.1 ≠ p) l) = announced c l.
Proof.
  intros Hn Hr. apply map_eq. intros n. apply option_eq. intros t. rewrite (announced_lookup c l n t Hn), announced_lookup.
  2: { eapply sublist_NoDup; [exact Hn|]. apply (fmap_sublist (λ x : Z * wl_global, g_name x.2)), sublist_filter. }
  split; intros (x & Hx & R); exists x.
  - apply list_elem_of_filter in Hx as [_ Hx]. by split.
  - split; [|exact R]. apply list_elem_of_filter. split; [|exact Hx]. intros E. destruct x as [q g], R as (_ & _ & Er & _). cbn [fst snd] in *. subst q. by rewrite (Hr g Hx) in Er.
Qed.
End announced.

Section spec.
Context {C W : Type} `{EventSinkLaws C W}.
Context (user_events : wl_interface → list wl_message) (if_version : wl_interface → Z).
Context (description : string → Z) (address : gset Z → option Z).
Context (notify : Z → W → W) (user_destroy : Z → Z → W → W) (log_closure : Z → wl_closure → bool → W → W).
Context (open_connection : Z → W → option C * W) (remove_source : Z → W → W).
Context (global_filter : option (Z → wl_global → bool)).
Implicit Types s : server C W.

Definition sinks_kept (w w' : W) : Prop := ∀ d, sink_ok d w → sink_ok d w'.
#[local] Instance sinks_kept_preorder : PreOrder sinks_kept.
Proof. split; [by intros ? ?|]. intros ? ? ? Ha Hb d Hd. by apply Hb, Ha. Qed.

(** The callbacks leave the connections alone. *)
Hypothesis (notify_calm : ∀ r w, sinks_kept w (notify r w)) (destroy_calm : ∀ f r w, sinks_kept w (user_destroy f r w))
  (log_calm : ∀ r cl b w, sinks_kept w (log_closure r cl b w)) (source_calm : ∀ c w, sinks_kept w (remove_source c w)).
(** A new connection works. *)
Hypothesis (open_ok : ∀ fd w, sinks_kept w (open_connection fd w).2 ∧ ∀ x, (open_connection fd w).1 = Some x → sink_ok x (open_connection fd w).2).

(** The clients, their display resources and the input they have not been asked
    for yet. *)
Definition fixed s : list Z * gmap Z (Z * Z) := (client_list s, (λ k, (k_display_resource k, sink_pending (k_connection k))) <$> clients s).
Lemma fixed_client s c k k' : clients s !! c = Some k → k_display_resource k' = k_display_resource k → sink_pending (k_connection k') = sink_pending (k_connection k) →
  fixed (set_client c k' s) = fixed s.
Proof. intros Ek Ed Ep. unfold fixed. cbn. f_equal. apply (fmap_insert_same _ _ _ k); [done|]. by rewrite Ed, Ep. Qed.
Lemma fixed_lookup s s' c k : fixed s' = fixed s → clients s !! c = Some k →
  ∃ k', clients s' !! c = Some k' ∧ k_display_resource k' = k_display_resource k ∧ sink_pending (k_connection k') = sink_pending (k_connection k).
Proof.
  intros [= _ E] Ek. apply (f_equal (.!! c)) in E. rewrite !lookup_fmap, Ek in E. destruct (clients s' !! c) as [k'|]; [|done]. injection E as E1 E2. eauto.
Qed.

Definition sinks_ok s : Prop := ∀ c k, clients s !! c = Some k → sink_ok (k_connection k) (world s).

Lemma sinks_ok_world s w : sinks_kept (world s) w → sinks_ok s → sinks_ok (set_world w s).
Proof. intros Hw Hs c k Hk. apply Hw, (Hs c k), Hk. Qed.
Lemma sinks_ok_client s w c k : sinks_kept (world s) w → sink_ok (k_connection k) w → sinks_ok s → sinks_ok (set_world w (set_client c k s)).
Proof.
  intros Hw Hk Hs c' k'. cbn. intros [[<- <-]|[? ?]]%lookup_insert_Some; [done|]. by apply Hw, (Hs c').
Qed.

Lemma kept_close fds w : sinks_kept w (close_all fds w).
Proof. revert w. induction fds as [|fd fds IH]; intros w; [done|]. cbn. etrans; [|apply IH]. intros d. apply sink_close. Qed.
Lemma kept_alloc n w : sinks_kept w (snd (os_alloc n w)).
Proof. intros d. apply sink_alloc. Qed.

(** *** Sending an event *)

Definition own_objects s (c : Z) (args : list wl_argument) : Prop := ∀ o, arg_o o ∈ args → ∃ r, resources s !! o = Some r ∧ r_client r = c.

Lemma verify_core s p r opcode message args :
  resources s !! p = Some r → events user_events (o_interface (r_object r)) !! Z.to_nat opcode = Some message →
  core_args (heap s) (msg_signature message) args → own_objects s (r_client r) args →
  verify_objects user_events s p opcode (on_stack args) = Some true.
Proof.
  intros Er Em Ha Ho. unfold verify_objects. rewrite Er. cbn [mbind option_bind]. rewrite Em. cbn [mbind option_bind].
  destruct Ha as [a|a t b Ht|o a t Hne Hh Ht]; [reflexivity..|].
  destruct (Ho o ltac:(set_solver)) as (r' & Er' & Ec). unfold on_stack. destruct o as [|o|o]; [done|..]; cbn; rewrite Er'; cbn; by rewrite Ec, Z.eqb_refl.
Qed.

Lemma delivers_error s p r k opcode args w x : resources s !! p = Some r → clients s !! r_client r = Some k →
  delivers p opcode args s (set_world w (set_client (r_client r) (k_set_error (k_set_connection x k)) s)).
Proof.
  intros Er Ek. split_and!.
  - unfold view_of. cbn. f_equal. by apply (fmap_insert_same _ _ _ k).
  - cbn. intros c k' [[<- <-]|[? ?]]%lookup_insert_Some He; [done|eauto].
  - exists r. split_and!; [done|by left|]. cbn. rewrite lookup_insert_eq. intros k' [= <-]. done.
Qed.

Lemma delivers_sent s p r k opcode args w x : resources s !! p = Some r → clients s !! r_client r = Some k → k_error k = false →
  delivers p opcode args s (set_world w (set_resources (<[p := r_add_event opcode args r]>) (set_client (r_client r) (k_set_connection x k) s))).
Proof.
  intros Er Ek He. split_and!.
  - unfold view_of. cbn. f_equal; [by apply (fmap_insert_same _ _ _ k)|by apply (fmap_insert_same _ _ _ r)].
  - cbn. intros c k' [[<- <-]|[? ?]]%lookup_insert_Some He'; eauto.
  - exists r. split_and!; [done|by right|done].
Qed.

Lemma delivers_refused s p r k opcode args : resources s !! p = Some r → clients s !! r_client r = Some k → k_error k = true → delivers p opcode args s s.
Proof. intros Er Ek He. split_and!; [done|eauto|]. exists r. split_and!; [done|by left|]. intros k' Ek'. congruence. Qed.

Lemma handle_array_spec now s p r k opcode message args :
  sinks_ok s → resources s !! p = Some r → clients s !! r_client r = Some k →
  events user_events (o_interface (r_object r)) !! Z.to_nat opcode = Some message →
  core_args (heap s) (msg_signature message) args → own_objects s (r_client r) args →
  ∃ s', handle_array user_events log_closure now p opcode (on_stack args) s = Some s' ∧ delivers p opcode (on_stack args) s s' ∧ sinks_ok s' ∧ fixed s' = fixed s.
Proof.
  intros Hs Er Ek Em Ha Ho. unfold handle_array. rewrite Er. cbn [mbind option_bind]. rewrite Ek. cbn [mbind option_bind].
  destruct (k_error k) eqn:He; [exists s; split_and!; [done|by eapply delivers_refused|done|done]|].
  rewrite (verify_core s p r opcode message args) by done. cbn [mbind option_bind negb]. rewrite Em. cbn [mbind option_bind].
  destruct (core_marshal (heap s) (r_object r) opcode args message (world s) Ha) as (res & Eres & Hres). rewrite Eres. cbn [mbind option_bind].
  pose proof (kept_alloc sizeof_closure (world s)) as Hw1. destruct res as [cl|e].
  2: { exists (set_world (snd (os_alloc sizeof_closure (world s))) (set_client (r_client r) (k_set_error (k_set_connection (k_connection k) k)) s)).
       split_and!; [reflexivity|by apply delivers_error| |by apply (fixed_client s _ k)]. apply sinks_ok_client; [done| |done]. cbn. by apply Hw1, (Hs (r_client r)). }
  set (w1 := log_closure p cl true (snd (os_alloc sizeof_closure (world s)))).
  assert (sinks_kept (world s) w1) as Hw2 by (etrans; [exact Hw1|apply log_calm]).
  destruct (sink_send_law now (heap s) cl (k_connection k) w1) as (res & cl' & x & w2 & Es & Hfd & Hx & Hpx & Hw3); [by apply Hw2, (Hs (r_client r))|done|].
  rewrite Es. cbn [mbind option_bind]. rewrite destroy_closure_spec by done. cbn [mbind option_bind].
  assert (sinks_kept (world s) (close_all (closure_fds cl') w2)) as Hw4 by (etrans; [exact Hw2|]; etrans; [exact Hw3|apply kept_close]).
  pose proof (kept_close (closure_fds cl') w2 x Hx) as Hx'.
  eexists. split; [done|]. destruct res as [[]|e]; split_and!.
  - by apply delivers_sent.
  - exact (sinks_ok_client s _ (r_client r) (k_set_connection x k) Hw4 Hx' Hs).
  - by apply (fixed_client s _ k).
  - by apply delivers_error.
  - exact (sinks_ok_client s _ (r_client r) (k_set_error (k_set_connection x k)) Hw4 Hx' Hs).
  - by apply (fixed_client s _ k).
Qed.

(** Events of the compositor's own interfaces: the arguments have the types of
    the signature, objects are resources or null, there are no descriptors, and
    the message is below a gigabyte. *)
Definition event_ok s (message : wl_message) (args : list wl_argument) : Prop :=
  let ps := parse_signature (msg_signature message) in
  plain ps ∧ (length ps <= length args)%nat ∧ user_args (heap s) ps (take (length ps) args) ∧ 2 + args_words ps (take (length ps) args) < 2 ^ 28.

Lemma verify_loop s c args ps : ∀ i us utail, drop i args = us ++ utail → length us = length ps → user_args (heap s) ps us →
  ∃ res, for_list (verify_body s c args) ps i tt = Some res.
Proof.
  induction ps as [|[t b] ps IH]; intros i us utail Hd Hl Hu; [by eexists|]. destruct us as [|a us]; [done|]. destruct Hu as [Ht Hu]. destruct (drop_eq_cons _ _ _ _ Hd) as [Ha Hd'].
  assert (∃ res, verify_body s c args i (Some t) b tt = Some res) as (res & E).
  { unfold verify_body. rewrite Ha. destruct t; cbn in Ht |- *; try (by eexists). all: destruct Ht as (o & -> & Ho); cbn; destruct (Z.eqb_spec o 0) as [->|Hne]; [by eexists|];
      destruct Ho as [?|[x Hx]]; [done|]; unfold heap in Hx; destruct (resources s !! o) as [r|]; [|done]; by eexists. }
  cbn [for_list]. rewrite E. cbn [mbind option_bind]. destruct res as [[]|e u]; [|by eexists]. apply (IH (S i) us utail); [done|cbn in Hl; lia|done].
Qed.

Lemma verify_event s p r opcode message args : resources s !! p = Some r → events user_events (o_interface (r_object r)) !! Z.to_nat opcode = Some message → event_ok s message args →
  ∃ b, verify_objects user_events s p opcode args = Some b.
Proof.
  intros Er Em (_ & Hl & Hu & _). unfold verify_objects. rewrite Er. cbn [mbind option_bind]. rewrite Em. cbn [mbind option_bind]. rewrite arg_count_parse, for_args_parse by done.
  set (ps := parse_signature (msg_signature message)) in *. assert (length (take (length ps) args) = length ps) as Hlt by (rewrite length_take; lia).
  destruct (verify_loop s (r_client r) args ps 0 (take (length ps) args) (drop (length ps) args) (eq_sym (take_drop _ _)) Hlt Hu) as [res E].
  rewrite E. by eexists.
Qed.

Lemma handle_event_spec now s p r k opcode message args : sinks_ok s → resources s !! p = Some r → clients s !! r_client r = Some k →
  events user_events (o_interface (r_object r)) !! Z.to_nat opcode = Some message → event_ok s message args →
  ∃ s', handle_array user_events log_closure now p opcode args s = Some s' ∧ delivers p opcode args s s' ∧ sinks_ok s' ∧ fixed s' = fixed s.
Proof.
  intros Hs Er Ek Em Ha. unfold handle_array. rewrite Er. cbn [mbind option_bind]. rewrite Ek. cbn [mbind option_bind].
  destruct (k_error k) eqn:He; [exists s; split_and!; [done|by eapply delivers_refused|done|done]|].
  destruct (verify_event s p r opcode message args Er Em Ha) as [ok ->]. cbn [mbind option_bind]. pose proof (Hs _ _ Ek) as Hk.
  destruct ok; cbn [negb].
  2: { exists (set_world (world s) (set_client (r_client r) (k_set_error (k_set_connection (k_connection k) k)) s)).
       split_and!; [reflexivity|by apply delivers_error|by apply sinks_ok_client|by apply (fixed_client s _ k)]. }
  rewrite Em. cbn [mbind option_bind]. destruct Ha as (Hp & Hl & Hu & Hw).
  destruct (plain_marshal (heap s) (r_object r) opcode args message (world s) Hp Hl Hu Hw) as (res & w0 & -> & Hw0 & Hres). cbn [mbind option_bind].
  assert (sinks_kept (world s) w0) as Hw1 by (destruct Hw0 as [->| ->]; [done|apply kept_alloc]).
  destruct res as [cl|e].
  2: { exists (set_world w0 (set_client (r_client r) (k_set_error (k_set_connection (k_connection k) k)) s)).
       split_and!; [reflexivity|by apply delivers_error| |by apply (fixed_client s _ k)]. apply sinks_ok_client; [done|by apply Hw1|done]. }
  assert (sinks_kept (world s) (log_closure p cl true w0)) as Hw2 by (etrans; [exact Hw1|apply log_calm]).
  destruct (sink_send_law now (heap s) cl (k_connection k) (log_closure p cl true w0)) as (res & cl' & x & w2 & Es & Hfd & Hx & Hpx & Hw3); [by apply Hw2|done|].
  rewrite Es. cbn [mbind option_bind]. rewrite destroy_closure_spec by done. cbn [mbind option_bind].
  assert (sinks_kept (world s) (close_all (closure_fds cl') w2)) as Hw4 by (etrans; [exact Hw2|]; etrans; [exact Hw3|apply kept_close]).
  pose proof (kept_close (closure_fds cl') w2 x Hx) as Hx'.
  eexists. split; [done|]. destruct res as [[]|e]; split_and!; [by apply delivers_sent| |by apply (fixed_client s _ k)|by apply delivers_error| |by apply (fixed_client s _ k)].
  - exact (sinks_ok_client s _ (r_client r) (k_set_connection x k) Hw4 Hx' Hs).
  - exact (sinks_ok_client s _ (r_client r) (k_set_error (k_set_connection x k)) Hw4 Hx' Hs).
Qed.

(** A client that is not in error now was not before. *)
Definition errors_grow s s' : Prop :=
  ∀ c k', clients s' !! c = Some k' → k_error k' = false → ∃ k, clients s !! c = Some k ∧ k_error k = false.
Lemma errors_grow_refl s : errors_grow s s.
Proof. intros c k Hk He. eauto. Qed.
Lemma errors_grow_trans s1 s2 s3 : errors_grow s1 s2 → errors_grow s2 s3 → errors_grow s1 s3.
Proof. intros Ha Hb c k Hk He. destruct (Hb c k Hk He) as (k2 & Hk2 & He2). eauto. Qed.

(** The variadic functions: the arguments as the array has them. *)
Lemma event_args_core s p r opcode message ap args : resources s !! p = Some r →
  events user_events (o_interface (r_object r)) !! Z.to_nat opcode = Some message →
  wl_argument_from_va_list (msg_signature message) stack_args WL_CLOSURE_MAX_ARGS ap = Some (on_stack args) →
  event_args user_events s p opcode ap = Some (on_stack args).
Proof. intros Er Em Ea. unfold event_args. rewrite Er. cbn [mbind option_bind]. rewrite Em. exact Ea. Qed.

Definition has_client s (r : wl_resource) : Prop := is_Some (clients s !! r_client r).

Lemma view_eq_clients s s' c : view_of s' = view_of s → is_Some (clients s !! c) → is_Some (clients s' !! c).
Proof.
  intros Ev [k Ek]. apply view_client in Ek. rewrite <- Ev in Ek. apply view_client_inv in Ek as (k' & Ek' & _). eauto.
Qed.
Lemma view_eq_resource s s' p r : view_of s' = view_of s → resources s !! p = Some r → ∃ r', resources s' !! p = Some r' ∧ r_forget r' = r_forget r.
Proof. intros Ev Er%view_resource. rewrite <- Ev in Er. apply view_resource_inv in Er as (r' & Er' & E). eauto. Qed.
Lemma forget_client r r' : r_forget r' = r_forget r → r_client r' = r_client r ∧ r_object r' = r_object r ∧ r_destroy r' = r_destroy r.
Proof. destruct r, r'. cbn. intros [=]. by subst. Qed.

(** *** To all registries *)

Lemma registry_events_of r : is_registry r → events user_events (o_interface (r_object r)) = registry_events.
Proof. unfold is_registry, events. intros ->. done. Qed.

(** What each registry of [l] has been told. *)
Definition told (l : list Z) (tell : Z → bool) (opcode : Z) (args : list wl_argument) s s' : Prop :=
  view_of s' = view_of s ∧ sinks_ok s' ∧ errors_grow s s' ∧
  (∀ q, q ∉ l → resources s' !! q = resources s !! q) ∧
  ∀ q r r' k', q ∈ l → resources s !! q = Some r → resources s' !! q = Some r' → clients s' !! r_client r = Some k' → k_error k' = false →
    r_events r' = r_events r ++ (if tell (r_client r) then [(opcode, args)] else []).

Lemma broadcast_spec g opcode message ap args : registry_events !! Z.to_nat opcode = Some message →
  (∀ hp, core_args hp (msg_signature message) args) → (∀ o, arg_o o ∉ args) →
  wl_argument_from_va_list (msg_signature message) stack_args WL_CLOSURE_MAX_ARGS ap = Some (on_stack args) →
  ∀ l s, NoDup l → sinks_ok s → (∀ q, q ∈ l → ∃ r, resources s !! q = Some r ∧ is_registry r ∧ has_client s r) →
  ∃ s', broadcast user_events log_closure global_filter l g opcode ap s = Some s' ∧
    told l (λ c, wl_global_is_visible global_filter c g) opcode (on_stack args) s s'.
Proof.
  intros Em Ha Ho Eva. unfold told. induction l as [|q l IH]; intros s Hnd Hs Hl.
  { exists s. split_and!; [done..|apply errors_grow_refl|done|]. intros q r r' k' Hq. by apply elem_of_nil in Hq. }
  apply NoDup_cons in Hnd as [Hq Hnd]. destruct (Hl q ltac:(set_solver)) as (r & Er & Hr & [k Ek]). cbn [broadcast]. rewrite Er. cbn [mbind option_bind].
  rewrite <- (registry_events_of r Hr) in Em.
  assert (∃ s1, (if wl_global_is_visible global_filter (r_client r) g then wl_resource_post_event user_events log_closure q opcode ap s else Some s) = Some s1 ∧
    told [q] (λ c, wl_global_is_visible global_filter c g) opcode (on_stack args) s s1) as (s1 & E1 & Ev1 & Hs1 & He1 & Hf1 & Ht1).
  { unfold told. destruct (wl_global_is_visible global_filter (r_client r) g) eqn:Evis.
    - unfold wl_resource_post_event. rewrite (event_args_core s q r opcode message ap args) by done. cbn [mbind option_bind].
      destruct (handle_array_spec true s q r k opcode message args Hs Er Ek Em (Ha _)) as (s1 & E1 & (Ev & He & r0 & Er0 & Hre & Hev) & Hs1 & _); [intros o Hoa; by destruct (Ho o)|].
      assert (r0 = r) as -> by congruence. exists s1. split_and!; try done.
      + intros q' Hq'. destruct Hre as [-> | ->]; [done|]. rewrite lookup_insert_ne; [done|set_solver].
      + intros q' r1 r2 k' ->%list_elem_of_singleton Er1 Er2 Ek' Hk'. assert (r1 = r) as -> by congruence. rewrite (Hev k' Ek' Hk'), lookup_insert_eq in Er2. injection Er2 as <-. by rewrite Evis.
    - exists s. split_and!; [done..|apply errors_grow_refl|done|]. intros q' r1 r2 k' ->%list_elem_of_singleton Er1 Er2 _ _. assert (r1 = r ∧ r2 = r) as [-> ->] by (split; congruence). by rewrite Evis, app_nil_r. }
  rewrite E1. cbn [mbind option_bind]. destruct (IH s1 Hnd Hs1) as (s2 & E2 & Ev2 & Hs2 & He2 & Hf2 & Ht2).
  { intros q' Hq'. rewrite Hf1 by set_solver. destruct (Hl q' ltac:(set_solver)) as (r' & Er' & Hr' & Hc'). exists r'. split_and!; [done..|]. by apply (view_eq_clients s). }
  exists s2. split_and!; [exact E2|congruence|exact Hs2|by eapply errors_grow_trans| |].
  - intros q' Hq'. rewrite Hf2, Hf1 by set_solver. done.
  - intros q' r1 r2 k' Hq' Er1 Er2 Ek' Hk'. destruct (decide (q' = q)) as [->|Hne].
    + rewrite Hf2 in Er2 by done. destruct (He2 _ _ Ek' Hk') as (k1 & Ek1 & Hk1). by apply (Ht1 q r1 r2 k1 ltac:(set_solver)).
    + rewrite <- (Hf1 q' ltac:(set_solver)) in Er1. by apply (Ht2 q' r1 r2 k' ltac:(set_solver)).
Qed.

(** ** Globals *)

(** New memory is at an unused, aligned address. *)
Hypothesis (address_ok : ∀ X p, address X = Some p → p ∉ X ∧ ptr_ok p ∧ p ≠ 0).

Lemma new_memory_spec n X w : sinks_kept w (new_memory address n X w).2 ∧ ∀ p, (new_memory address n X w).1 = Some p → p ∉ X ∧ ptr_ok p ∧ p ≠ 0.
Proof.
  unfold new_memory. pose proof (kept_alloc n w) as Hw. destruct (os_alloc n w) as [[junk|] w']; split; try done. apply address_ok.
Qed.

Definition wf s : Prop := view_wf (view_of s) ∧ sinks_ok s.

(** What the registries of clients that are not in error have been told is
    what there is. *)
Definition follow_list (l : list (Z * wl_global)) s : Prop := ∀ q r k, q ∈ registry_resource_list s →
  resources s !! q = Some r → clients s !! r_client r = Some k → k_error k = false →
  registry_view (r_events r) = announced global_filter (r_client r) l.
Definition registries_follow s : Prop := follow_list (global_list s) s.

Lemma wf_registry s q : wf s → q ∈ registry_resource_list s → ∃ r, resources s !! q = Some r ∧ is_registry r ∧ r_destroy r = unbind_resource ∧ has_client s r.
Proof.
  intros [(_ & _ & _ & Hreg & Hres & _) _] Hq. destruct (Hreg q Hq) as (v & Ev & Hr & Hd). destruct (view_resource_inv s q v Ev) as (r & Er & ->). exists r. split_and!; [done..|].
  destruct (Hres q _ Ev) as (_ & _ & _ & _ & [x Hx]). apply view_client_inv in Hx as (k & Hk & _). by exists k.
Qed.

Lemma registry_view_add evs opcode args : registry_view (evs ++ [(opcode, args)]) = registry_event (registry_view evs) (opcode, args).
Proof. unfold registry_view. by rewrite foldl_app. Qed.

(** After a broadcast every registry has applied the event. *)
Lemma told_follow opcode args tell l s s' : follow_list l s →
  told (registry_resource_list s) tell opcode args s s' →
  ∀ q r' k, q ∈ registry_resource_list s → resources s' !! q = Some r' → clients s' !! r_client r' = Some k → k_error k = false →
  registry_view (r_events r') = let m := announced global_filter (r_client r') l in if tell (r_client r') then registry_event m (opcode, args) else m.
Proof.
  intros Hfol (Ev & _ & He & _ & Ht) q r' k Hq Er' Ek Hk. destruct (view_eq_resource s' s q r' (eq_sym Ev) Er') as (r & Er & Ef). apply forget_client in Ef as (Ec & _).
  rewrite <- Ec in Ek |- *. rewrite (Ht q r r' k Hq Er Er' Ek Hk). destruct (He _ _ Ek Hk) as (k0 & Ek0 & Hk0).
  destruct (tell (r_client r)); [rewrite registry_view_add|rewrite app_nil_r]; by rewrite (Hfol q r k0).
Qed.

Lemma registry_event_global m g : registry_event m (WL_REGISTRY_GLOBAL, on_stack (global_args g)) = <[g_name g := (str (if_name (g_interface g)), g_version g)]> m.
Proof. done. Qed.
Lemma registry_event_remove m g : registry_event m (WL_REGISTRY_GLOBAL_REMOVE, on_stack (remove_args g)) = delete (g_name g) m.
Proof. done. Qed.

Lemma globals_ok_add next l p g : globals_ok next l → p ∉ map fst l → 1 <= next → g_name g = next → text_ok (str (if_name (g_interface g))) →
  globals_ok (next + 1) (l ++ [(p, g)]).
Proof.
  intros (Ha & Hn & Hf) Hp Hx Hg Ht. unfold globals_ok. rewrite !map_app. cbn [map fst snd]. rewrite Forall_forall in Hf. split_and!.
  - apply NoDup_app. split_and!; [done|set_solver|apply NoDup_singleton].
  - apply NoDup_app. split_and!; [done| |apply NoDup_singleton]. intros n (x & En & Hx')%list_elem_of_fmap Hn'%list_elem_of_singleton. destruct (Hf x Hx'). lia.
  - apply Forall_app. split; [|constructor; [cbn; split; [lia|done]|done]]. apply Forall_forall. intros x Hx'. destruct (Hf x Hx'). split; [lia|done].
Qed.

Lemma view_wf_globals v n l : 1 <= n < 2 ^ 32 → globals_ok n l → view_wf v →
  view_wf (mk_view n (v_serial v) (v_registries v) l (v_client_list v) (v_clients v) (v_resources v)).
Proof. intros Hn Hg (_ & _ & R). exact (conj Hn (conj Hg R)). Qed.

Lemma global_event_va g : wl_argument_from_va_list "usu" stack_args WL_CLOSURE_MAX_ARGS (global_event g) = Some (on_stack (global_args g)).
Proof. done. Qed.

Lemma global_create_spec interface version data bind s : wf s → registries_follow s → text_ok (str (if_name interface)) →
  ∃ p s', wl_global_create user_events if_version address log_closure global_filter interface version data bind s = Some (p, s') ∧
    wf s' ∧ registries_follow s' ∧
    (p = 0 ∧ global_list s' = global_list s ∧ next_global_name s' = next_global_name s ∨
     p ≠ 0 ∧ 1 <= version <= if_version interface ∧ next_global_name s' = next_global_name s + 1 ∧
     global_list s' = global_list s ++ [(p, mk_global interface (next_global_name s) version data bind false)]).
Proof.
  intros Hwf Hfol Ht. unfold wl_global_create. pose proof Hwf as [Hv Hs]. pose proof Hv as (Hn & Hg & Hnd & _).
  destruct (Z.ltb_spec version 1) as [|Hv1]; [by exists 0, s; split_and!; auto|].
  destruct (Z.ltb_spec (if_version interface) version) as [|Hv2]; [by exists 0, s; split_and!; auto|].
  destruct (Z.leb_spec (2 ^ 32 - 1) (next_global_name s)) as [|Hmax]; [by exists 0, s; split_and!; auto|].
  destruct (new_memory_spec sizeof_wl_global (list_to_set (map fst (global_list s))) (world s)) as [Hw Hnew].
  destruct (new_memory address sizeof_wl_global _ (world s)) as [[p|] w]; cbn [fst snd] in Hw, Hnew.
  2: { exists 0, (set_world w s). split_and!; [done|split; [exact Hv|by apply sinks_ok_world]|exact Hfol|auto]. }
  cbn in Hn, Hg, Hnd. rewrite u32_small by lia. set (g := mk_global _ _ _ _ _ _). destruct (Hnew p eq_refl) as (Hp & _ & Hp0).
  set (s1 := set_globals (global_list s ++ [(p, g)]) (set_next_name (next_global_name s + 1) (set_world w s))).
  assert (sinks_ok s1) as Hs1 by (intros c k Hk; by apply Hw, (Hs c)).
  destruct (broadcast_spec g WL_REGISTRY_GLOBAL (mk_message "global" "usu" [None; None; None]) (global_event g) (global_args g) eq_refl) with (l := registry_resource_list s) (s := s1)
    as (s2 & E2 & Htold); [intros hp; by constructor|intros o; unfold global_args; set_solver|apply global_event_va|done|done|..].
  { intros q Hq. destruct (wf_registry s q Hwf Hq) as (r & Er & Hr & _ & Hc). by exists r. }
  change (registry_resource_list (set_globals _ _)) with (registry_resource_list s).
  change (set_globals (global_list (set_next_name _ _) ++ [(p, g)]) (set_next_name _ _)) with s1. rewrite E2. cbn [mbind option_bind]. exists p, s2. split; [done|].
  pose proof Htold as (Ev & Hs2 & _). assert (global_list s2 = global_list s1) as Egl by exact (f_equal v_globals Ev). assert (registry_resource_list s2 = registry_resource_list s) as Erl by exact (f_equal v_registries Ev).
  split_and!.
  - split; [|done]. rewrite Ev. apply (view_wf_globals (view_of s)); [cbn; lia| |done]. apply (globals_ok_add (next_global_name s) (global_list s) p g); [exact Hg|set_solver|lia|done|exact Ht].
  - intros q r' k Hq Er' Ek Hk. rewrite Erl in Hq. rewrite (told_follow _ _ _ (global_list s) s1 s2 Hfol Htold q r' k) by done.
    rewrite Egl. change (global_list s1) with (global_list s ++ [(p, g)]). rewrite announced_snoc. unfold announce_one. change (negb (g_removed (p, g).2)) with true. rewrite andb_true_r. cbn [snd].
    destruct (wl_global_is_visible _ _ _); [apply registry_event_global|done].
  - right. split_and!; first [done|exact (f_equal v_next Ev)|by rewrite Egl].
Qed.

Lemma globals_ok_update n l p : globals_ok n l → globals_ok n (update_global p g_remove l).
Proof.
  intros (Ha & Hn & Hf). unfold globals_ok. rewrite update_global_fst, update_global_names. split_and!; [done..|]. rewrite Forall_forall in *.
  intros x (y & Hy & ->)%update_global_elem. specialize (Hf y Hy). cbn [snd]. by destruct (p =? y.1).
Qed.
Lemma globals_ok_filter n l p : globals_ok n l → globals_ok n (filter (λ x, x.1 ≠ p) l).
Proof.
  intros (Ha & Hn & Hf). split_and!.
  - eapply sublist_NoDup; [exact Ha|]. apply (fmap_sublist fst), sublist_filter.
  - eapply sublist_NoDup; [exact Hn|]. apply (fmap_sublist (λ x : Z * wl_global, g_name x.2)), sublist_filter.
  - rewrite Forall_forall in *. intros x [_ Hx]%list_elem_of_filter. by apply Hf.
Qed.

Lemma global_remove_spec p g s : wf s → registries_follow s → find_global p (global_list s) = Some g → g_removed g = false →
  ∃ s', wl_global_remove user_events log_closure global_filter p s = Some s' ∧ wf s' ∧ registries_follow s' ∧
    next_global_name s' = next_global_name s ∧ global_list s' = update_global p g_remove (global_list s).
Proof.
  intros Hwf Hfol Hg Hr. unfold wl_global_remove. pose proof Hwf as [Hv Hs]. pose proof Hv as (Hn & Hgl & Hnd & _). cbn in Hn, Hgl, Hnd. rewrite Hg. cbn [mbind option_bind]. rewrite Hr.
  destruct (broadcast_spec g WL_REGISTRY_GLOBAL_REMOVE (mk_message "global_remove" "u" [None]) [va_uint32 (g_name g)] (remove_args g) eq_refl) with (l := registry_resource_list s) (s := s)
    as (s2 & E2 & Htold); [intros hp; constructor|intros o; unfold remove_args; set_solver|done|done|done|..].
  { intros q Hq. destruct (wf_registry s q Hwf Hq) as (r & Er & Hr' & _ & Hc). by exists r. }
  rewrite E2. cbn [mbind option_bind]. pose proof Htold as (Ev & Hs2 & _). assert (global_list s2 = global_list s) as Egl by exact (f_equal v_globals Ev). assert (registry_resource_list s2 = registry_resource_list s) as Erl by exact (f_equal v_registries Ev).
  rewrite Egl. eexists. split; [done|]. split_and!; try done.
  - split; [|exact Hs2]. rewrite <- Ev in Hv. apply (view_wf_globals (view_of s2) (next_global_name s2)); [apply Hv| |done]. apply globals_ok_update. pose proof Hv as (_ & Hgl2 & _). cbn in Hgl2. by rewrite Egl in Hgl2.
  - intros q r' k Hq Er' Ek Hk. cbn in Hq. rewrite Erl in Hq. rewrite (told_follow _ _ _ (global_list s) s s2 Hfol Htold q r' k) by done. cbn zeta.
    destruct Hgl as (Hgf & Hgn & _). change (global_list (set_globals ?l s2)) with l. rewrite (announced_remove global_filter (r_client r') p g) by done.
    by destruct (wl_global_is_visible _ _ _).
  - exact (f_equal v_next Ev).
Qed.

Lemma global_destroy_spec p g s : wf s → registries_follow s → find_global p (global_list s) = Some g →
  ∃ s', wl_global_destroy user_events log_closure global_filter p s = Some s' ∧ wf s' ∧ registries_follow s' ∧
    next_global_name s' = next_global_name s ∧ map fst (global_list s') = filter (λ q, q ≠ p) (map fst (global_list s)).
Proof.
  intros Hwf Hfol Hg. unfold wl_global_destroy. rewrite Hg. cbn [mbind option_bind].
  assert (∃ s1, (if negb (g_removed g) then wl_global_remove user_events log_closure global_filter p s else Some s) = Some s1 ∧ wf s1 ∧ registries_follow s1 ∧
    next_global_name s1 = next_global_name s ∧ map fst (global_list s1) = map fst (global_list s) ∧ ∀ g', (p, g') ∈ global_list s1 → g_removed g' = true) as (s1 & E1 & Hwf1 & Hfol1 & En & Ef & Hrem).
  { pose proof Hwf as [(_ & (Hgf & _) & _) _]. cbn in Hgf. destruct (g_removed g) eqn:Hr; cbn [negb].
    - exists s. split_and!; try done. intros g' Hg'. by rewrite (fst_inj _ p g' g Hgf Hg' (find_global_elem _ _ _ Hg)).
    - destruct (global_remove_spec p g s Hwf Hfol Hg Hr) as (s1 & E1 & Hwf1 & Hfol1 & En & Egl). exists s1. rewrite Egl, update_global_fst. split_and!; try done.
      intros g' (y & Hy & Ey)%update_global_elem. injection Ey as -> ->. by rewrite Z.eqb_refl. }
  rewrite E1. cbn [mbind option_bind]. eexists. split; [done|]. pose proof Hwf1 as [Hv1 Hs1]. pose proof Hv1 as (Hn & Hgl & _). split_and!; [split; [|exact Hs1]|..|done|].
  - apply (view_wf_globals (view_of s1)); [exact Hn| |exact Hv1]. by apply globals_ok_filter.
  - intros q r' k Hq Er' Ek Hk. destruct Hgl as (_ & Hgn & _). change (global_list (set_globals ?l s1)) with l. rewrite announced_destroy by done. by apply (Hfol1 q r' k).
  - change (global_list (set_globals ?l s1)) with l. rewrite <- Ef. clear. induction (global_list s1) as [|[q g'] l IH]; [done|]. cbn [map fst]. rewrite !filter_cons. cbn [fst]. destruct (decide (q ≠ p)); [cbn; by rewrite IH|done].
Qed.

(** ** Errors *)

Lemma wf_view s s' : view_of s' = view_of s → sinks_ok s' → wf s → wf s'.
Proof. intros Ev Hs [Hv _]. split; [by rewrite Ev|done]. Qed.

(** An event to a resource that is no registry. *)
Lemma follow_delivers p opcode args s s' : registries_follow s → p ∉ registry_resource_list s → delivers p opcode args s s' → registries_follow s'.
Proof.
  intros Hf Hp (Ev & He & r & _ & Hr & _) q r' k Hq Er' Ek Hk. change (q ∈ v_registries (view_of s')) in Hq. rewrite Ev in Hq. cbn in Hq.
  assert (global_list s' = global_list s) as -> by exact (f_equal v_globals Ev). destruct (He _ _ Ek Hk) as (k0 & Ek0 & Hk0). apply (Hf q r' k0); try done.
  destruct Hr as [<-|Hr]; [done|]. rewrite Hr, lookup_insert_ne in Er' by (intros ->; done). done.
Qed.

Lemma display_spec s c k : wf s → clients s !! c = Some k → k_display_resource k ≠ 0 →
  ∃ r, resources s !! k_display_resource k = Some r ∧ r_client r = c ∧ is_display r ∧ k_display_resource k ∉ registry_resource_list s ∧ r_destroy r = destroy_client_display_resource.
Proof.
  intros [(_ & _ & _ & Hreg & _ & Hcl) _] Ek%view_client Hd. destruct (Hcl c _ _ Ek) as (A & free & _ & _ & _ & _ & _ & Hdisp & _). destruct (Hdisp Hd) as (v & Ev & Hc & Hi & Hx).
  destruct (view_resource_inv _ _ _ Ev) as (r & Er & ->). exists r. split_and!; try done. intros (v & Ev' & _ & Hu)%Hreg. rewrite Ev in Ev'. injection Ev' as <-. by rewrite Hu in Hx.
Qed.
Lemma display_events_of r : is_display r → events user_events (o_interface (r_object r)) = display_events.
Proof. unfold is_display, events. intros ->. done. Qed.

Lemma text_ok_take n t : c_string t → text_ok (take (Z.to_nat 127 `min` n) t).
Proof.
  intros Ht. split; [by apply Forall_take|]. rewrite length_take. lia.
Qed.

(** Events of the display: an error and a deleted id. *)
Lemma display_event_spec now s c k opcode message ap args : wf s → registries_follow s → clients s !! c = Some k → k_display_resource k ≠ 0 →
  display_events !! Z.to_nat opcode = Some message → core_args (heap s) (msg_signature message) args → own_objects s c args →
  wl_argument_from_va_list (msg_signature message) stack_args WL_CLOSURE_MAX_ARGS ap = Some (on_stack args) →
  ∃ s', (args ← event_args user_events s (k_display_resource k) opcode ap; handle_array user_events log_closure now (k_display_resource k) opcode args s) = Some s' ∧
    view_of s' = view_of s ∧ wf s' ∧ registries_follow s' ∧ errors_grow s s' ∧ delivers (k_display_resource k) opcode (on_stack args) s s' ∧ fixed s' = fixed s.
Proof.
  intros Hwf Hfol Ek Hd Em Ha Ho Eva. destruct (display_spec s c k Hwf Ek Hd) as (r & Er & Ec & Hdisp & Hnr & _). rewrite <- (display_events_of r Hdisp) in Em. subst c.
  rewrite (event_args_core s _ r opcode message ap args) by done. cbn [mbind option_bind]. pose proof Hwf as [_ Hs].
  destruct (handle_array_spec now s _ r k opcode message args Hs Er Ek Em Ha Ho) as (s' & E & Hdel & Hs' & Hfx). exists s'. pose proof Hdel as (Ev & He & _).
  split_and!; [done|done|by apply (wf_view s)|by eapply follow_delivers|done|done|done].
Qed.

Lemma follow_error c k s : registries_follow s → clients s !! c = Some k → registries_follow (set_client c (k_set_error k) s).
Proof.
  intros Hf Ek q r k' Hq Er. cbn in *. intros [[_ <-]|[_ Ek']]%lookup_insert_Some Hk'; [done|]. by apply (Hf q r k').
Qed.

Lemma post_error_spec s p r code text : wf s → registries_follow s → resources s !! p = Some r → c_string text →
  ∃ s', wl_resource_post_error user_events log_closure p code text s = Some s' ∧ view_of s' = view_of s ∧ wf s' ∧ registries_follow s' ∧ fixed s' = fixed s ∧
    ∀ k', clients s' !! r_client r = Some k' → k_error k' = true ∨ k_display_resource k' = 0.
Proof.
  intros Hwf Hfol Er Ht. unfold wl_resource_post_error. rewrite Er. cbn [mbind option_bind]. pose proof Hwf as [Hv Hs].
  pose proof Hv as (_ & _ & _ & _ & Hres & _). destruct (Hres p _ (view_resource _ _ _ Er)) as (_ & Hp0 & _ & _ & [x Ex]). apply view_client_inv in Ex as (k & Ek & _). cbn in Ek. rewrite Ek. cbn [mbind option_bind].
  destruct (k_error k || (k_display_resource k =? 0)) eqn:Eb.
  { exists s. split_and!; try done. intros k' Ek'. assert (k' = k) as -> by congruence. by apply orb_true_iff in Eb as [?|?%Z.eqb_eq]; [left|right]. }
  apply orb_false_iff in Eb as [Hk Hd%Z.eqb_neq]. destruct (display_event_spec true s (r_client r) k WL_DISPLAY_ERROR (mk_message "error" "ous" [None; None; None])
    [va_object p; va_uint32 code; va_string (Some (take 127 text))] [arg_o p; arg_u code; arg_s (Some (take 127 text))]) as (s1 & E1 & Ev1 & Hwf1 & Hfol1 & _ & _ & Hfx); try done.
  { constructor; [done|unfold heap; rewrite Er; eauto|]. change 127%nat with (Z.to_nat 127 `min` 127)%nat. by apply text_ok_take. }
  { intros o Ho. assert (o = p) as -> by set_solver. by exists r. }
  unfold wl_resource_post_event, wl_resource_post_event_array. rewrite E1. cbn [mbind option_bind].
  destruct (view_eq_clients s s1 (r_client r) Ev1 ltac:(eauto)) as [k1 Ek1]. rewrite Ek1. cbn [mbind option_bind]. eexists. split; [done|].
  assert (view_of (set_client (r_client r) (k_set_error k1) s1) = view_of s1) as Ev2.
  { unfold view_of. cbn. f_equal. by apply (fmap_insert_same _ _ _ k1). }
  split_and!.
  - congruence.
  - apply (wf_view s1); [done| |done]. intros c' k'. cbn. destruct Hwf1 as [_ Hs1]. intros [[<- <-]|[_ Ek']]%lookup_insert_Some; [exact (Hs1 _ _ Ek1)|exact (Hs1 _ _ Ek')].
  - by apply follow_error.
  - rewrite <- Hfx. by apply (fixed_client s1 _ k1).
  - cbn. rewrite lookup_insert_eq. intros k' [= <-]. by left.
Qed.

(** ** Resources *)

(** A new resource, at an unused address, under an id that is free. *)
Lemma client_ok_other rs c c' d m p r : client_ok rs c' d m → rs !! p = None → r_client r = c → c' ≠ c → client_ok (<[p := r]> rs) c' d m.
Proof.
  intros (A & free & Hrep & Hsd & Hroom & Hin & Hout & Hdisp & Huniq) Hp Hc Hne. exists A, free.
  assert (∀ q v, rs !! q = Some v → <[p := r]> rs !! q = Some v) as Hold by (intros q v Hq; rewrite lookup_insert_ne; [done|congruence]).
  split_and!; try done.
  - intros q v [[-> <-]|[_ Hq]]%lookup_insert_Some Hv; [congruence|by apply Hin].
  - intros id q f Hid. destruct (Hout id q f Hid) as (? & [?|(v & Hv & ?)]); split; auto. right. exists v. auto.
  - intros Hd. destruct (Hdisp Hd) as (v & Hv & R). exists v. auto.
  - intros q v [[-> <-]|[_ Hq]]%lookup_insert_Some Hv; [congruence|by apply Huniq].
Qed.

Lemma client_ok_new rs c d m m' A free p r : map_rep m A free → side m = WL_MAP_SERVER_SIDE → map_small m' → side m' = side m →
  map_rep m' (<[o_id (r_object r) := (p, 0)]> A) free → rs !! p = None → r_client r = c → r_destroy r ≠ destroy_client_display_resource →
  default 0 (fst <$> A !! o_id (r_object r)) = 0 →
  (∀ q v, rs !! q = Some v → r_client v = c → A !! o_id (r_object v) = Some (q, 0) ∧ q ≠ 0) →
  (∀ id q f, A !! id = Some (q, f) → f = 0 ∧ (q = 0 ∨ ∃ v, rs !! q = Some v ∧ r_client v = c ∧ o_id (r_object v) = id)) →
  (d ≠ 0 → ∃ v, rs !! d = Some v ∧ r_client v = c ∧ is_display v ∧ r_destroy v = destroy_client_display_resource) →
  (∀ q v, rs !! q = Some v → r_client v = c → r_destroy v = destroy_client_display_resource → q = d) →
  client_ok (<[p := r]> rs) c d m'.
Proof.
  intros Hrep Hsd Hroom Hsd' Hrep' Hp Hc Hdes Hfree Hin Hout Hdisp Huniq. exists (<[o_id (r_object r) := (p, 0)]> A), free.
  assert (∀ q v, rs !! q = Some v → <[p := r]> rs !! q = Some v) as Hold by (intros q v Hq; rewrite lookup_insert_ne; [done|congruence]).
  split_and!; try done; [congruence|..].
  - intros q v [[-> <-]|[_ Hq]]%lookup_insert_Some Hv; [by rewrite lookup_insert_eq|]. destruct (Hin q v Hq Hv) as [HA Hq0].
    rewrite lookup_insert_ne; [done|]. intros E. rewrite E, HA in Hfree. done.
  - intros id q f [[<- [= <- <-]]|[_ HA]]%lookup_insert_Some.
    + split; [done|right]. exists r. by rewrite lookup_insert_eq.
    + destruct (Hout id q f HA) as (? & [?|(v & Hv & ?)]); split; auto. right. exists v. auto.
  - intros Hd. destruct (Hdisp Hd) as (v & Hv & R). exists v. auto.
  - intros q v [[-> <-]|[_ Hq]]%lookup_insert_Some Hv; [done|by apply Huniq].
Qed.

(** The view after the new resource. *)
Definition v_add (v : view) (c d : Z) (m : wl_map) (p : Z) (r : wl_resource) : view :=
  mk_view (v_next v) (v_serial v) (v_registries v) (v_globals v) (v_client_list v) (<[c := (d, m)]> (v_clients v)) (<[p := r]> (v_resources v)).

Lemma view_wf_add v c d m m' p r : view_wf v → v_clients v !! c = Some (d, m) → v_resources v !! p = None → ptr_ok p → p ≠ 0 →
  (∀ A free, map_rep m A free → default 0 (fst <$> A !! o_id (r_object r)) = 0 ∧ map_rep m' (<[o_id (r_object r) := (p, 0)]> A) free) →
  map_small m' → side m' = side m →
  r_client r = c → r_destroy r ≠ destroy_client_display_resource → 0 < o_id (r_object r) < 2 ^ 32 → id_index (o_id (r_object r)) <= WL_MAP_MAX_OBJECTS →
  view_wf (v_add v c d m' p r).
Proof.
  intros (Hn & Hg & Hnd & Hreg & Hres & Hcl) Ec Hp Hptr Hp0 Hmap Hroom Hsd Hrc Hdes Hid Hidx. refine (conj Hn (conj Hg (conj Hnd _))). cbn. split_and!.
  - intros q Hq. destruct (Hreg q Hq) as (v' & Ev' & R). exists v'. rewrite lookup_insert_ne; [done|]. congruence.
  - intros q v' [[<- <-]|[_ Hq]]%lookup_insert_Some.
    + refine (conj Hptr (conj Hp0 (conj Hid (conj (conj Hidx (λ E, False_ind _ (Hdes E))) _)))). cbn. rewrite Hrc, lookup_insert_eq. eauto.
    + destruct (Hres q v' Hq) as (Ha & Hb & Hi & Hj & Hk). refine (conj Ha (conj Hb (conj Hi (conj Hj _)))). cbn. by apply lookup_insert_is_Some'; right.
  - intros c' d' m0 [[<- [= <- <-]]|[Hne Ec']]%lookup_insert_Some.
    + destruct (Hcl c d m Ec) as (A & free & Hrep & Hsd0 & _ & Hin & Hout & Hdisp & Huniq). destruct (Hmap A free Hrep) as [Hfree Hrep'].
      apply (client_ok_new _ c d m m' A free); try done. intros q v' Hq Hv'. split; [by apply Hin|]. apply (Hres q v' Hq).
    + apply (client_ok_other _ c); [by apply Hcl|done|done|congruence].
Qed.

(** The rest of the state. *)
Definition new_resource (c : Z) (interface : wl_interface) (version id : Z) : wl_resource :=
  mk_resource (mk_object interface id) no_implementation no_destroy c 0 version None [].

(** An id of the client's range that is free. *)
Definition id_free (k : wl_client C) (id : Z) : Prop := 0 < id < WL_SERVER_ID_START ∧ wl_map_lookup (k_objects k) id = Some 0.

Lemma array_add_kept a n w r a' w' : wl_array_add a n w = Some (r, a', w') → sinks_kept w w'.
Proof.
  unfold wl_array_add. destruct (alloc_loop _ _ _) as [alloc|]; [|done]. cbn [mbind option_bind]. destruct (_ <? alloc); [|by intros [= _ _ <-]].
  pose proof (kept_alloc alloc w) as Hw. destruct (os_alloc alloc w) as [[junk|] w1]; by intros [= _ _ <-].
Qed.
Lemma insert_at_max m flags id data w m' w' : wl_map_insert_at m flags id data w = Some (Ret tt, m', w') → id_index id <= WL_MAP_MAX_OBJECTS.
Proof. unfold wl_map_insert_at. by destruct (Z.ltb_spec WL_MAP_MAX_OBJECTS (id_index id)). Qed.
Lemma insert_at_kept m flags id data w r m' w' : wl_map_insert_at m flags id data w = Some (r, m', w') → sinks_kept w w'.
Proof.
  unfold wl_map_insert_at. destruct (_ <? _); [by intros [= _ _ <-]|]. destruct (_ <? _); [by intros [= _ _ <-]|]. destruct (_ =? _); cbn [mbind option_bind].
  - destruct (wl_array_add _ _ w) as [[[r1 a1] w1]|] eqn:E1; [|done]. cbn [mbind option_bind]. apply array_add_kept in E1. destruct r1 as [x|e]; [|by intros [= _ _ <-]].
    destruct (entry_store _ _ _ _); [|done]. by intros [= _ _ <-].
  - destruct (entry_store _ _ _ _); [|done]. by intros [= _ _ <-].
Qed.

Lemma resource_create_spec s c k interface version id : wf s → registries_follow s → clients s !! c = Some k →
  k_display_resource k ≠ 0 ∨ id_index id <= ents_count (entries (is_server_id id) (k_objects k)) → id_free k id →
  ∃ p s', wl_resource_create user_events address notify log_closure c interface version id s = Some (p, s') ∧ wf s' ∧ registries_follow s' ∧
    global_list s' = global_list s ∧ registry_resource_list s' = registry_resource_list s ∧ next_global_name s' = next_global_name s ∧ serial s' = serial s ∧ fixed s' = fixed s ∧
    (p = 0 ∧ v_resources (view_of s') = v_resources (view_of s) ∧ (∃ k', clients s' !! c = Some k' ∧ k_display_resource k' = k_display_resource k) ∨
     p ≠ 0 ∧ resources s !! p = None ∧ resources s' = <[p := new_resource c interface version id]> (resources s) ∧
     ∃ m', clients s' = <[c := k_set_objects m' k]> (clients s)).
Proof.
  intros Hwf Hfol Ek Hd [Hid Hfree]. unfold wl_resource_create. rewrite Ek. cbn [mbind option_bind]. pose proof Hwf as [Hv Hs]. pose proof Hv as (_ & _ & _ & _ & _ & Hcl).
  destruct (new_memory_spec sizeof_wl_resource (dom (resources s)) (world s)) as [Hw Hnew].
  destruct (new_memory address sizeof_wl_resource _ (world s)) as [[p|] w]; cbn [fst snd] in Hw, Hnew.
  2: { exists 0, (set_world w s). split_and!; try done; [split; [exact Hv|by apply sinks_ok_world]|left; eauto]. }
  rewrite (proj2 (Z.eqb_neq id 0)) by lia. cbn [mbind option_bind]. rewrite (proj2 (Z.eqb_neq id 0)) by lia. destruct (Hnew p eq_refl) as (Hp & Hptr & Hp0).
  apply not_elem_of_dom in Hp. pose proof (view_client s c k Ek) as Evk. destruct (Hcl c _ _ Evk) as (A & free & Hrep & Hsd & Hroom & _).
  assert (0 <= id < 2 ^ 32) as Hid' by (unfold WL_SERVER_ID_START in Hid; lia).
  assert (¬ (is_server_id id = own_side (k_objects k) ∧ id_index id ∈ free)) as Hns.
  { intros [E _]. unfold is_server_id, own_side in E. rewrite Hsd, (proj2 (Z.ltb_lt id _)) in E by lia. done. }
  destruct (insert_at_spec (k_objects k) A free 0 id p w Hrep (map_small_room _ Hroom) Hptr Hid' Hns) as (r & m' & w' & Ei & Hr). rewrite Ei. cbn [mbind option_bind].
  destruct (insert_at_shape _ _ _ _ _ _ _ _ _ _ Hrep Hroom Hptr Hid' Ei) as (Hroom' & Hsd' & _).
  pose proof (insert_at_kept _ _ _ _ _ _ _ _ Ei) as Hw'. assert (sinks_kept (world s) w') as Hw2 by (by etrans).
  set (s1 := set_world w' (set_client c (k_set_objects m' k) s)).
  assert (sinks_ok s1) as Hs1 by (apply sinks_ok_client; [done|cbn; by apply Hw2, (Hs c)|done]).
  destruct r as [[]|e].
  - set (s2 := set_resources _ s1). exists p, (set_world (notify p (world s2)) s2). split; [done|].
    assert (view_of (set_world (notify p (world s2)) s2) = v_add (view_of s) c (k_display_resource k) m' p (new_resource c interface version id)) as Ev2.
    { unfold view_of, v_add. cbn. by rewrite !fmap_insert. }
    split_and!; try done.
    + split; [|apply sinks_ok_world; [apply notify_calm|exact Hs1]]. rewrite Ev2. apply (view_wf_add _ _ _ (k_objects k)); try done.
      * cbn. by rewrite lookup_fmap, Hp.
      * intros A' free' Hrep'. split.
        -- destruct (lookup_rep _ _ _ Hrep' id Hid') as [El _]. rewrite Hfree in El. injection El as El. cbn. by destruct (A' !! id) as [[]|].
        -- assert (¬ (is_server_id id = own_side (k_objects k) ∧ id_index id ∈ free')) as Hns' by (intros [E _]; unfold is_server_id, own_side in E; rewrite Hsd, (proj2 (Z.ltb_lt id _)) in E by lia; done).
           destruct (insert_at_spec (k_objects k) A' free' 0 id p w Hrep' (map_small_room _ Hroom) Hptr Hid' Hns') as (r' & m2 & w2 & Ei' & Hr'). rewrite Ei in Ei'. injection Ei' as <- <- <-. exact Hr'.
      * cbn. unfold WL_SERVER_ID_START in Hid. lia.
      * by eapply insert_at_max.
    + intros q v k' Hq. cbn in Hq |- *. intros Ev' Ek' Hk'. assert (q ≠ p) as Hqp. { intros ->. destruct (wf_registry s p Hwf Hq) as (? & ? & _). congruence. }
      rewrite lookup_insert_ne in Ev' by done. apply lookup_insert_Some in Ek' as [[Ec <-]|[_ Ek']]; [by apply (Hfol q v k); try done; rewrite <- Ec|by apply (Hfol q v k')].
    + by apply (fixed_client s _ k).
    + right. split_and!; try done. by exists m'.
  - destruct Hr as [-> He]. assert (view_of s1 = view_of s) as Ev1.
    { unfold view_of. cbn. f_equal. by apply (fmap_insert_same _ _ _ k). }
    assert (wf s1) as Hwf1 by (by apply (wf_view s)). assert (registries_follow s1) as Hfol1.
    { intros q v k' Hq Ev' Ek' Hk'. cbn in *. apply lookup_insert_Some in Ek' as [[Ec <-]|[_ Ek']]; [by apply (Hfol q v k); try done; rewrite <- Ec|by apply (Hfol q v k')]. }
    assert (clients s1 !! c = Some (k_set_objects (k_objects k) k)) as Ek1 by (cbn; by rewrite lookup_insert_eq).
    case_bool_decide as Hinv.
    + assert (k_display_resource k ≠ 0) as Hd0 by (destruct Hd as [|Hcnt]; [done|]; subst e; destruct He as [[? _]|[[_ ?]|[? _]]]; [done|lia|done]).
      destruct (display_spec s1 c _ Hwf1 Ek1 Hd0) as (v & Ed & _). cbn in Ed.
      destruct (post_error_spec s1 (k_display_resource k) v WL_DISPLAY_ERROR_INVALID_OBJECT (str "invalid new id " ++ fmt_d (i32 id)) Hwf1 Hfol1 Ed) as (s2 & E2 & Ev2 & Hwf2 & Hfol2 & Hfx & _).
      { apply Forall_app. split; [by apply c_string_str|apply c_string_fmt_d, i32_bound]. }
      rewrite E2. cbn [mbind option_bind]. exists 0, s2. rewrite Ev1 in Ev2.
      split_and!; try done; [exact (f_equal v_globals Ev2)|exact (f_equal v_registries Ev2)|exact (f_equal v_next Ev2)|exact (f_equal v_serial Ev2)|rewrite Hfx; by apply (fixed_client s _ k)|left].
      split_and!; [done|exact (f_equal v_resources Ev2)|]. apply view_client in Ek. rewrite <- Ev2 in Ek. apply view_client_inv in Ek as (k' & Ek' & E'). exists k'. split; [done|]. by injection E' as ->.
    + exists 0, s1. split_and!; try done; [by apply (fixed_client s _ k)|]. left. by eauto.
Qed.

(** ** A new registry *)

Lemma announce_spec c p : ∀ l s r, Forall (λ x : Z * wl_global, text_ok (str (if_name (g_interface x.2)))) l → sinks_ok s →
  resources s !! p = Some r → is_registry r → r_client r = c → has_client s r →
  ∃ s', announce user_events log_closure global_filter c p l s = Some s' ∧ view_of s' = view_of s ∧ sinks_ok s' ∧ fixed s' = fixed s ∧ errors_grow s s' ∧
    (∀ q, q ≠ p → resources s' !! q = resources s !! q) ∧
    ∀ r' k', resources s' !! p = Some r' → clients s' !! c = Some k' → k_error k' = false →
      registry_view (r_events r') = foldl (announce_one global_filter c) (registry_view (r_events r)) l.
Proof.
  induction l as [|[a g] l IH]; intros s r Hl Hs Er Hr Hc Hk; cbn [announce].
  { exists s. split_and!; try done; [apply errors_grow_refl|]. intros r' k' Er'. by assert (r' = r) as -> by congruence. }
  apply Forall_cons in Hl as [Hg Hl]. cbn [snd] in Hg. cbn [foldl]. unfold announce_one at 2. cbn [snd].
  destruct (wl_global_is_visible global_filter c g && negb (g_removed g)).
  2: { cbn [mbind option_bind]. apply (IH s r); done. }
  destruct Hk as [k Ek]. assert (Hrn := Hr). apply registry_events_of in Hrn.
  unfold wl_resource_post_event. rewrite (event_args_core s p r WL_REGISTRY_GLOBAL (mk_message "global" "usu" [None; None; None]) (global_event g) (global_args g)); [|done|by rewrite Hrn|done]. cbn [mbind option_bind].
  destruct (handle_array_spec true s p r k WL_REGISTRY_GLOBAL (mk_message "global" "usu" [None; None; None]) (global_args g) Hs Er Ek) as (s1 & E1 & (Ev & He & r0 & Er0 & Hre & Hev) & Hs1 & Hfx1).
  { by rewrite Hrn. } { by constructor. } { intros o Ho. unfold global_args in Ho. set_solver. }
  assert (r0 = r) as -> by congruence. unfold wl_resource_post_event_array. rewrite E1. cbn [mbind option_bind].
  assert (∃ r1, resources s1 !! p = Some r1 ∧ (r1 = r ∨ r1 = r_add_event WL_REGISTRY_GLOBAL (on_stack (global_args g)) r)) as (r1 & Er1 & Hr1).
  { destruct Hre as [-> | ->]; [eauto|]. rewrite lookup_insert_eq. eauto. }
  assert (is_registry r1 ∧ r_client r1 = c) as [Hreg1 Hc1] by (destruct Hr1 as [-> | ->]; done).
  destruct (IH s1 r1) as (s2 & E2 & Ev2 & Hs2 & Hfx2 & He2 & Hf2 & Ht2); try done.
  { apply (view_eq_clients s); [done|]. rewrite Hc1, <- Hc. eauto. }
  exists s2. split_and!; [done|congruence|done|congruence|by eapply errors_grow_trans| |].
  - intros q Hq. rewrite Hf2 by done. destruct Hre as [-> | ->]; [done|]. by rewrite lookup_insert_ne.
  - intros r' k' Er' Ek' Hk'. rewrite (Ht2 r' k') by done. f_equal. destruct (He2 _ _ Ek' Hk') as (k1 & Ek1 & Hk1). rewrite <- Hc in Ek1. rewrite (Hev k1 Ek1 Hk1), lookup_insert_eq in Er1. injection Er1 as <-. cbn [r_add_event r_events].
    rewrite registry_view_add. apply registry_event_global.
Qed.

(** The view with a registry more. *)
Lemma view_wf_register v p r r' : view_wf v → v_resources v !! p = Some r → r_object r' = r_object r → r_client r' = r_client r → is_registry r →
  r_destroy r = no_destroy → r_destroy r' = unbind_resource → p ∉ v_registries v →
  view_wf (mk_view (v_next v) (v_serial v) (p :: v_registries v) (v_globals v) (v_client_list v) (v_clients v) (<[p := r']> (v_resources v))).
Proof.
  intros (Hn & Hg & Hnd & Hreg & Hres & Hcl) Hp Ho Hc Hr Hd Hd' Hnr. refine (conj Hn (conj Hg _)). cbn. split_and!.
  - by apply NoDup_cons.
  - intros q [->|Hq]%elem_of_cons.
    + exists r'. rewrite lookup_insert_eq. unfold is_registry. rewrite Ho. done.
    + destruct (Hreg q Hq) as (x & Ex & Hx). exists x. rewrite lookup_insert_ne; [done|]. by intros ->.
  - intros q x [[<- <-]|[_ Hq]]%lookup_insert_Some; [|by apply Hres]. destruct (Hres p r Hp) as (Ha & Hb & Hi & [Hj _] & Hk). rewrite <- Ho in Hi, Hj. refine (conj Ha (conj Hb (conj Hi (conj (conj Hj _) _)))); [congruence|cbn; by rewrite Hc].
  - intros c d m Hm. destruct (Hcl c d m Hm) as (A & free & Hrep & Hsd & Hroom & Hin & Hout & Hdisp & Huniq). exists A, free. split_and!; try done.
    + intros q x [[<- <-]|[_ Hq]]%lookup_insert_Some Hx; [rewrite Ho; apply Hin; congruence|by apply Hin].
    + intros id q f Hid. destruct (Hout id q f Hid) as (Hf & [Hq|(x & Ex & Hx & Hi)]); [by split; [|left]|]. split; [done|right].
      destruct (decide (q = p)) as [->|Hne]; [exists r'|exists x; by rewrite lookup_insert_ne]. rewrite lookup_insert_eq. assert (x = r) as -> by congruence. split_and!; congruence.
    + intros Hd0. destruct (Hdisp Hd0) as (x & Ex & Hx). exists x. rewrite lookup_insert_ne; [done|]. intros ->. assert (x = r) as -> by congruence. destruct Hx as (_ & _ & Hx). congruence.
    + intros q x [[<- <-]|[_ Hq]]%lookup_insert_Some Hx Hdx; [congruence|by apply (Huniq q x)].
Qed.

(** *** The implementation of a resource *)

(** The destructors of the library are its own. *)
Definition users_own (d : destructor) : Prop := d ≠ unbind_resource ∧ d ≠ destroy_client_display_resource.

Lemma view_wf_implement v p r r' : view_wf v → v_resources v !! p = Some r → r_object r' = r_object r → r_client r' = r_client r → users_own (r_destroy r) → users_own (r_destroy r') →
  view_wf (mk_view (v_next v) (v_serial v) (v_registries v) (v_globals v) (v_client_list v) (v_clients v) (<[p := r']> (v_resources v))).
Proof.
  intros (Hn & Hg & Hnd & Hreg & Hres & Hcl) Hp Ho Hc [Hu Hd] [_ Hd']. refine (conj Hn (conj Hg (conj Hnd _))). cbn. split_and!.
  - intros q Hq. destruct (Hreg q Hq) as (x & Ex & Hx). exists x. rewrite lookup_insert_ne; [done|]. intros ->. assert (x = r) as -> by congruence. by destruct Hx.
  - intros q x [[<- <-]|[_ Hq]]%lookup_insert_Some; [|by apply Hres]. destruct (Hres p r Hp) as (Ha & Hb & Hi & [Hj _] & Hk). rewrite <- Ho in Hi, Hj.
    refine (conj Ha (conj Hb (conj Hi (conj (conj Hj _) _)))); [done|cbn; by rewrite Hc].
  - intros c d m Hm. destruct (Hcl c d m Hm) as (A & free & Hrep & Hsd & Hroom & Hin & Hout & Hdisp & Huniq). exists A, free. split_and!; try done.
    + intros q x [[<- <-]|[_ Hq]]%lookup_insert_Some Hx; [rewrite Ho; apply Hin; congruence|by apply Hin].
    + intros id q f Hid. destruct (Hout id q f Hid) as (Hf & [Hq|(x & Ex & Hx & Hi)]); [by split; [|left]|]. split; [done|right].
      destruct (decide (q = p)) as [->|Hne]; [exists r'|exists x; by rewrite lookup_insert_ne]. rewrite lookup_insert_eq. assert (x = r) as -> by congruence. split_and!; congruence.
    + intros Hd0. destruct (Hdisp Hd0) as (x & Ex & Hx). exists x. rewrite lookup_insert_ne; [done|]. intros ->. assert (x = r) as -> by congruence. by destruct Hx as (_ & _ & Hx).
    + intros q x [[<- <-]|[_ Hq]]%lookup_insert_Some Hx Hdx; [done|by apply (Huniq q x)].
Qed.

Lemma set_implementation_spec s p r dispatcher impl data d : wf s → registries_follow s → resources s !! p = Some r → users_own (r_destroy r) → users_own d →
  let s' := set_resources (<[p := mk_resource (r_object r) impl d (r_client r) data (r_version r) dispatcher (r_events r)]>) s in wf s' ∧ registries_follow s'.
Proof.
  intros [Hv Hs] Hfol Er Hu Hd s'. split; [split; [|exact Hs]|].
  - pose proof (view_wf_implement _ p _ (r_forget (mk_resource (r_object r) impl d (r_client r) data (r_version r) dispatcher (r_events r))) Hv (view_resource s p r Er) eq_refl eq_refl Hu Hd) as Hv'.
    unfold view_of, s'. cbn. by rewrite fmap_insert.
  - intros q x k Hq Ex. cbn in Hq, Ex |- *. apply lookup_insert_Some in Ex as [[<- <-]|[_ Ex]]; [by apply (Hfol p r)|by apply (Hfol q x)].
Qed.

Lemma no_memory_spec s c k : wf s → registries_follow s → clients s !! c = Some k → k_display_resource k ≠ 0 →
  ∃ s', wl_client_post_no_memory user_events log_closure c s = Some s' ∧ view_of s' = view_of s ∧ wf s' ∧ registries_follow s' ∧ fixed s' = fixed s.
Proof.
  intros Hwf Hfol Ek Hd. unfold wl_client_post_no_memory. rewrite Ek. cbn [mbind option_bind]. destruct (display_spec s c k Hwf Ek Hd) as (r & Er & _).
  destruct (post_error_spec s _ r WL_DISPLAY_ERROR_NO_MEMORY (str "no memory") Hwf Hfol Er) as (s' & E & Ev & Hwf' & Hfol' & Hfx & _); [by apply c_string_str|]. by exists s'.
Qed.

Lemma get_registry_spec s c k id : wf s → registries_follow s → clients s !! c = Some k → k_display_resource k ≠ 0 → id_free k id →
  ∃ s', display_get_registry user_events description address notify log_closure global_filter c id s = Some s' ∧ wf s' ∧ registries_follow s' ∧ global_list s' = global_list s ∧ fixed s' = fixed s ∧
    (∀ p v, v_resources (view_of s') !! p = Some v → v_resources (view_of s) !! p = Some v ∨ is_registry v ∧ r_implementation v = registry_interface).
Proof.
  intros Hwf Hfol Ek Hd Hid. unfold display_get_registry.
  destruct (resource_create_spec s c k (wl_registry_interface description) 1 id Hwf Hfol Ek (or_introl Hd) Hid) as (p & s1 & E1 & Hwf1 & Hfol1 & Egl & Erl & _ & _ & Hfx1 & Hp). rewrite E1. cbn [mbind option_bind].
  destruct Hp as [(-> & Evr & k' & Ek' & Ed')|(Hp0 & Hnew & Er1 & m' & Ek1)].
  { cbn [Z.eqb]. rewrite <- Ed' in Hd. destruct (no_memory_spec s1 c k' Hwf1 Hfol1 Ek' Hd) as (s2 & E2 & Ev2 & Hwf2 & Hfol2 & Hfx2). exists s2. split_and!; try done; [rewrite <- Egl; exact (f_equal v_globals Ev2)|congruence|]. rewrite Ev2, Evr. by auto. }
  rewrite (proj2 (Z.eqb_neq p 0)) by done. unfold wl_resource_set_implementation. rewrite Er1, lookup_insert_eq. cbn [mbind option_bind].
  set (r := mk_resource _ _ _ _ _ _ _ _). set (s2 := set_registries _ _).
  assert (Hnr : p ∉ registry_resource_list s1). { rewrite Erl. intros Hq. destruct (wf_registry s p Hwf Hq) as (? & ? & _). congruence. }
  assert (resources s2 !! p = Some r) as Er2 by (cbn; by rewrite lookup_insert_eq).
  assert (clients s2 = <[c := k_set_objects m' k]> (clients s)) as Ek2 by exact Ek1.
  assert (wf s2) as [Hv2 Hs2].
  { destruct Hwf1 as [Hv1 Hs1]. split; [|exact Hs1].
    assert (view_of s2 = mk_view (v_next (view_of s1)) (v_serial (view_of s1)) (p :: v_registries (view_of s1)) (v_globals (view_of s1)) (v_client_list (view_of s1)) (v_clients (view_of s1)) (<[p := r_forget r]> (v_resources (view_of s1)))) as ->.
    { unfold view_of. cbn. by rewrite fmap_insert. }
    apply (view_wf_register _ p (r_forget (new_resource c (wl_registry_interface description) 1 id))); try done. cbn. by rewrite Er1, fmap_insert, lookup_insert_eq. }
  destruct (announce_spec c p (global_list s2) s2 r) as (s3 & E3 & Ev3 & Hs3 & Hfx3 & He3 & Hf3 & Ht3); try done.
  { destruct Hv2 as (_ & (_ & _ & Hg) & _). eapply Forall_impl; [exact Hg|]. cbn. tauto. }
  { exists (k_set_objects m' k). rewrite Ek2. cbn. by rewrite lookup_insert_eq. }
  cbn zeta. rewrite E3. exists s3. split; [done|].
  assert (global_list s3 = global_list s1) as Egl3 by exact (f_equal v_globals Ev3). split_and!; [by apply (wf_view s2)| |congruence|rewrite Hfx3; exact Hfx1|].
  2: { intros q v. rewrite Ev3. cbn. rewrite fmap_insert. intros [[<- <-]|[Hq Hv]]%lookup_insert_Some; [by right|left]. rewrite Er1, fmap_insert, lookup_insert_ne in Hv by done. exact Hv. }
  intros q r' k' Hq Er' Ek' Hk'. change (q ∈ v_registries (view_of s3)) in Hq. rewrite Ev3 in Hq. cbn in Hq. rewrite Egl3. destruct (decide (q = p)) as [->|Hne].
  - destruct (view_eq_resource s3 s2 p r' (eq_sym Ev3) Er') as (r2 & Er2' & Ef). rewrite Er2 in Er2'. injection Er2' as <-. apply forget_client in Ef as (Ec & _). cbn in Ec. rewrite <- Ec in Ek' |- *.
    exact (Ht3 r' k' Er' Ek' Hk').
  - apply elem_of_cons in Hq as [?|Hq]; [done|]. rewrite (Hf3 q Hne) in Er'. destruct (He3 _ _ Ek' Hk') as (k2 & Ek2' & Hk2). apply (Hfol1 q r' k2); try done. cbn in Er'. by rewrite lookup_insert_ne in Er'.
Qed.

(** ** Destroying a resource *)

(** The map after the id has been given up. *)
Definition map_drops (m m' : wl_map) (p id : Z) : Prop := ∀ A free, map_rep m A free → A !! id = Some (p, 0) →
  ∃ A' free', map_rep m' A' free' ∧ (∀ i, i ≠ id → A' !! i = A !! i) ∧ (A' !! id = None ∨ A' !! id = Some (0, 0)).

(** The display resource of the client afterwards. *)
Definition display_after (r : wl_resource) (d : Z) : Z := match r_destroy r with destroy_client_display_resource => 0 | _ => d end.
Definition same_shape (m m' : wl_map) : Prop := ∀ b, a_size (entries b m') = a_size (entries b m) ∧ a_alloc (entries b m') = a_alloc (entries b m).

Lemma view_wf_drop v p r d m m' regs : view_wf v → v_resources v !! p = Some r → v_clients v !! r_client r = Some (d, m) →
  map_drops m m' p (o_id (r_object r)) → map_small m' → side m' = side m →
  NoDup regs → (∀ q, q ∈ regs → q ∈ v_registries v ∧ q ≠ p) →
  view_wf (mk_view (v_next v) (v_serial v) regs (v_globals v) (v_client_list v) (<[r_client r := (display_after r d, m')]> (v_clients v)) (delete p (v_resources v))).
Proof.
  intros (Hn & Hg & _ & Hreg & Hres & Hcl) Hp Hc Hmap Hroom Hsd Hnd Hregs. refine (conj Hn (conj Hg (conj Hnd _))). cbn. split_and!.
  - intros q [Hq Hne]%Hregs. destruct (Hreg q Hq) as (x & Ex & Hx). exists x. by rewrite lookup_delete_ne.
  - intros q x [_ Hq]%lookup_delete_Some. destruct (Hres q x Hq) as (Ha & Hb & Hi & Hj & Hk). refine (conj Ha (conj Hb (conj Hi (conj Hj _)))). cbn. by apply lookup_insert_is_Some'; right.
  - intros c d' m0 Hm0. assert (∃ d1 m1, v_clients v !! c = Some (d1, m1) ∧ (d' = d1 ∧ c ≠ r_client r ∨ d' = display_after r d1 ∧ c = r_client r)) as (d1 & m1 & Hm1 & Hd1).
    { apply lookup_insert_Some in Hm0 as [[<- [= <- _]]|[Hne Hm0]]; [exists d, m|exists d', m0]; auto. }
    destruct (Hcl c d1 m1 Hm1) as (A & free & Hrep & Hsd1 & Hroom1 & Hin & Hout & Hdisp & Huniq).
    assert (∃ A' free', map_rep m0 A' free' ∧ side m0 = WL_MAP_SERVER_SIDE ∧ map_small m0 ∧
      (∀ q x, v_resources v !! q = Some x → r_client x = c → q ≠ p → A' !! o_id (r_object x) = Some (q, 0)) ∧
      (∀ id q f, A' !! id = Some (q, f) → (q = 0 ∧ f = 0) ∨ A !! id = Some (q, f) ∧ (q ≠ p ∨ q = 0))) as (A' & free' & Hrep' & Hsd0 & Hroom0 & Hin' & Hout').
    { apply lookup_insert_Some in Hm0 as [[<- [= _ <-]]|[Hne Hm0]].
      - assert (m1 = m) as -> by congruence. pose proof (Hin p r Hp eq_refl) as Hpid. destruct (Hmap A free Hrep Hpid) as (A' & free' & Hrep' & Hsame & Hgone). exists A', free'. split_and!; [done|congruence|done|..].
        + intros q x Hq Hx Hqp. pose proof (Hin q x Hq Hx) as HAx. rewrite Hsame; [done|]. intros E. rewrite E in HAx. congruence.
        + intros id q f Hid. destruct (decide (id = o_id (r_object r))) as [->|Hne]; [left; destruct Hgone; simplify_eq; done|]. rewrite Hsame in Hid by done. right. split; [done|]. destruct (decide (q = p)) as [->|]; [|by left].
          destruct (Hout id p f Hid) as (_ & [Hp0|(x & Ex & _ & Ei)]); [by right|]. congruence.
      - assert (m1 = m0) as -> by congruence. exists A, free. split_and!; try done; [by intros; apply Hin|]. intros id q f Hid. right. split; [done|].
        destruct (decide (q = p)) as [->|]; [|by left]. destruct (Hout id p f Hid) as (_ & [Hp0|(x & Ex & Ecx & _)]); [by right|]. congruence. }
    exists A', free'. split_and!; try done.
    + intros q x [Hne Hq]%lookup_delete_Some Hx. by apply Hin'.
    + intros id q f [[-> ->]|[HA Hq]]%Hout'; [by split; [|left]|]. destruct (Hout id q f HA) as (Hf & [?|(x & Ex & Hx)]); split; auto. destruct Hq as [Hq|Hq]; [|by left]. right. exists x. by rewrite lookup_delete_ne.
    + intros Hd0. assert (d1 ≠ 0) as Hd1' by (destruct Hd1 as [[-> _]|[-> _]]; [done|]; unfold display_after in Hd0; by destruct (r_destroy r)).
      destruct (Hdisp Hd1') as (x & Ex & Hx & Hi & Hdx). assert (d1 ≠ p) as Hne.
      { intros ->. assert (x = r) as -> by congruence. destruct Hd1 as [[_ ?]|[-> _]]; [done|]. unfold display_after in Hd0. by rewrite Hdx in Hd0. }
      assert (d' = d1) as -> by (destruct Hd1 as [[-> _]|[-> _]]; [done|]; unfold display_after in *; by destruct (r_destroy r)). exists x. by rewrite lookup_delete_ne.
    + intros q x [Hne Hq]%lookup_delete_Some Hx Hdx. pose proof (Huniq q x Hq Hx Hdx) as ->. destruct Hd1 as [[-> _]|[-> ->]]; [done|]. unfold display_after.
      destruct (r_destroy r) eqn:Ed; try done. by destruct (Huniq p r Hp eq_refl Ed).
Qed.

Lemma client_id_foreign m id (free : list Z) : side m = WL_MAP_SERVER_SIDE → id < WL_SERVER_ID_START → ¬ (is_server_id id = own_side m ∧ id_index id ∈ free).
Proof. intros Hsd Hid [E _]. unfold is_server_id, own_side in E. rewrite Hsd, (proj2 (Z.ltb_lt id _)) in E by lia. done. Qed.

Lemma clear_drops m A free p id w : map_rep m A free → map_small m → side m = WL_MAP_SERVER_SIDE → 0 < id < WL_SERVER_ID_START →
  id_index id <= WL_MAP_MAX_OBJECTS → A !! id = Some (p, 0) →
  ∃ m' w', wl_map_insert_at m 0 id 0 w = Some (Ret tt, m', w') ∧ map_drops m m' p id ∧ map_small m' ∧ side m' = side m ∧ sinks_kept w w' ∧ same_shape m m'.
Proof.
  intros Hrep Hroom Hsd Hid Hmax HA. assert (ptr_ok 0) as Hptr by done. assert (0 <= id < 2 ^ 32) as Hid' by (unfold WL_SERVER_ID_START in Hid; lia).
  destruct (insert_at_spec m A free 0 id 0 w Hrep (map_small_room _ Hroom) Hptr Hid' (client_id_foreign m id free Hsd ltac:(lia))) as (r & m' & w' & E & Hr).
  destruct (insert_at_shape _ _ _ _ _ _ _ _ _ _ Hrep Hroom Hptr Hid' E) as (Hroom' & Hsd' & Hshape). destruct r as [[]|e].
  2: { exfalso. pose proof Hrep as (_ & _ & HA'). apply HA' in HA as (_ & [Hk _] & _). destruct Hr as (_ & [[_ ?]|[[_ ?]|[_ ?]]]); lia. }
  assert (same_shape m m') as Hsh. { intros b. apply Hshape. pose proof Hrep as (_ & _ & HA'). by apply HA' in HA as (_ & [[_ Hk] _] & _). }
  exists m', w'. split_and!; [done| |done|done|by eapply insert_at_kept|done]. intros A0 free0 Hrep0 HA0.
  destruct (insert_at_spec m A0 free0 0 id 0 w Hrep0 (map_small_room _ Hroom) Hptr Hid' (client_id_foreign m id free0 Hsd ltac:(lia))) as (r & m2 & w2 & E' & Hr'). rewrite E in E'. injection E' as <- <- <-.
  eexists _, free0. split_and!; [exact Hr'|..]; [intros i Hi; by rewrite lookup_insert_ne|right; by rewrite lookup_insert_eq].
Qed.

Lemma remove_drops m A free p id : map_rep m A free → map_small m → side m = WL_MAP_SERVER_SIDE → WL_SERVER_ID_START <= id < 2 ^ 32 → A !! id = Some (p, 0) →
  ∃ m', wl_map_remove m id = Some m' ∧ map_drops m m' p id ∧ map_small m' ∧ side m' = side m ∧ same_shape m m'.
Proof.
  intros Hrep Hroom Hsd Hid HA. assert (0 <= id < 2 ^ 32) as Hid' by (unfold WL_SERVER_ID_START in Hid; lia). assert (id_index id < 2 ^ 31) as Hidx.
  { unfold id_index. rewrite (proj2 (Z.ltb_ge id _)) by lia. unfold WL_SERVER_ID_START in *. rewrite u32_small; lia. }
  assert (bool_decide (is_server_id id = own_side m) = true) as Hb.
  { apply bool_decide_eq_true. unfold is_server_id, own_side. rewrite Hsd, (proj2 (Z.ltb_ge id _)) by lia. done. }
  destruct (remove_spec m A free id Hrep Hid' Hidx ltac:(eauto)) as (m' & E & Hown & Hcnt & Hm'). rewrite Hb in Hm'.
  exists m'. split_and!; [done|..].
  - intros A0 free0 Hrep0 HA0. destruct (remove_spec m A0 free0 id Hrep0 Hid' Hidx ltac:(eauto)) as (m2 & E' & _ & _ & Hm2). rewrite E in E'. injection E' as <-. rewrite Hb in Hm2.
    eexists _, _. split_and!; [exact Hm2|..]; [intros i Hi; by rewrite lookup_delete_ne|left; by rewrite lookup_delete_eq].
  - eapply (remove_small m A free id); eauto.
  - destruct Hm' as ((_ & Hside & _) & _). unfold own_side in Hown. rewrite Hsd in Hown |- *. destruct Hside as [Es|Es]; rewrite Es in Hown |- *; [done|by vm_compute in Hown].
  - intros b. by eapply remove_shape.
Qed.

(** The library's destructors other than that of the display, and the
    compositor's. *)
Lemma destructor_spec s p r : wf s → registries_follow s → resources s !! p = Some r → r_destroy r ≠ destroy_client_display_resource →
  ∃ s', run_destructor user_destroy p (r_destroy r) s = Some s' ∧ sinks_ok s' ∧ clients s' = clients s ∧ resources s' = resources s ∧ global_list s' = global_list s ∧
    (∀ q, q ∈ registry_resource_list s' ↔ q ∈ registry_resource_list s ∧ q ≠ p) ∧ NoDup (registry_resource_list s') ∧
    next_global_name s' = next_global_name s ∧ serial s' = serial s ∧ client_list s' = client_list s.
Proof.
  intros Hwf Hfol Er Hd. pose proof Hwf as [(_ & _ & Hnd & _) Hs]. cbn in Hnd.
  assert (r_destroy r ≠ unbind_resource → p ∉ registry_resource_list s) as Hnp.
  { intros Hu Hp. destruct (wf_registry s p Hwf Hp) as (r' & Er' & _ & Hu' & _). congruence. }
  destruct (r_destroy r) as [| | |f] eqn:Ed; [| |done|]; cbn [run_destructor].
  - exists s. split_and!; try done. intros q. split; [|tauto]. intros Hq. split; [done|]. intros ->. by apply Hnp.
  - exists (set_registries (filter (λ x, x ≠ p) (registry_resource_list s)) s). split_and!; try done; [|by apply NoDup_filter]. intros q. cbn. rewrite list_elem_of_filter. tauto.
  - exists (set_world (user_destroy f p (world s)) s). split_and!; try done; [by apply sinks_ok_world|]. intros q. cbn. split; [|tauto]. intros Hq. split; [done|]. intros ->. by apply Hnp.
Qed.

Lemma wf_registries s s' : wf s → sinks_ok s' → clients s' = clients s → resources s' = resources s → global_list s' = global_list s → next_global_name s' = next_global_name s →
  NoDup (registry_resource_list s') → (∀ q, q ∈ registry_resource_list s' → q ∈ registry_resource_list s) → wf s'.
Proof.
  intros [(Hn & Hg & _ & Hreg & Hres & Hcl) _] Hs Ec Er Eg En Hnd Hsub. split; [|done]. unfold view_wf, view_of, resource_ok in *. cbn in *. rewrite Ec, Er, Eg, En.
  refine (conj Hn (conj Hg (conj Hnd (conj _ (conj Hres Hcl))))). intros q Hq. by apply Hreg, Hsub.
Qed.

(** The last step: the entry has been given up, the memory goes. *)
Lemma drop_spec s p r k m' w' : wf s → registries_follow s → resources s !! p = Some r → p ∉ registry_resource_list s →
  clients s !! r_client r = Some k → map_drops (k_objects k) m' p (o_id (r_object r)) → map_small m' → side m' = side (k_objects k) → sinks_kept (world s) w' →
  let s' := set_resources (delete p) (set_world w' (set_client (r_client r) (k_set_objects m' (k_set_display (display_after r (k_display_resource k)) k)) s)) in wf s' ∧ registries_follow s'.
Proof.
  intros [Hv Hs] Hfol Er Hnp Ek Hm Hroom Hsd Hw s'. split; [split|].
  - assert (view_of s' = mk_view (v_next (view_of s)) (v_serial (view_of s)) (v_registries (view_of s)) (v_globals (view_of s)) (v_client_list (view_of s))
      (<[r_client r := (display_after r (k_display_resource k), m')]> (v_clients (view_of s))) (delete p (v_resources (view_of s)))) as ->.
    { unfold view_of. cbn. by rewrite fmap_insert, fmap_delete. }
    apply (view_wf_drop (view_of s) p (r_forget r) (k_display_resource k) (k_objects k)); try done; [by apply view_resource|by apply (view_client _ _ k)|apply Hv|].
    intros q Hq. split; [done|]. by intros ->.
  - intros c k'. cbn. intros [[<- <-]|[_ Ek']]%lookup_insert_Some; apply Hw; [exact (Hs (r_client r) k Ek)|exact (Hs c k' Ek')].
  - intros q r' k' Hq Er' Ek' Hk'. cbn in *. apply lookup_delete_Some in Er' as [_ Er']. apply lookup_insert_Some in Ek' as [[Ec <-]|[_ Ek']]; [by apply (Hfol q r' k); try done; rewrite <- Ec|by apply (Hfol q r' k')].
Qed.

(** What is left of the state when a resource is gone. *)
Definition destroyed (p : Z) (r : wl_resource) s s' : Prop :=
  v_resources (view_of s') = delete p (v_resources (view_of s)) ∧ global_list s' = global_list s ∧ next_global_name s' = next_global_name s ∧ client_list s' = client_list s ∧
  (∀ c, is_Some (clients s' !! c) ↔ is_Some (clients s !! c)) ∧
  ∀ k, clients s !! r_client r = Some k → ∃ k', clients s' !! r_client r = Some k' ∧ same_shape (k_objects k) (k_objects k') ∧ k_display_resource k' = display_after r (k_display_resource k).

Lemma resource_entry s p r k : wf s → resources s !! p = Some r → clients s !! r_client r = Some k →
  ∃ A free, map_rep (k_objects k) A free ∧ map_small (k_objects k) ∧ side (k_objects k) = WL_MAP_SERVER_SIDE ∧ A !! o_id (r_object r) = Some (p, 0).
Proof.
  intros [(_ & _ & _ & _ & _ & Hcl) _] Ek Er. destruct (Hcl _ _ _ (view_client _ _ _ Er)) as (A & free & Hrep & Hsd & Hroom & Hin & _). exists A, free. split_and!; try done. exact (Hin p _ (view_resource _ _ _ Ek) eq_refl).
Qed.
Lemma wf_resource s p r : wf s → resources s !! p = Some r → p ≠ 0 ∧ 0 < o_id (r_object r) < 2 ^ 32 ∧ id_index (o_id (r_object r)) <= WL_MAP_MAX_OBJECTS ∧ (∃ k, clients s !! r_client r = Some k) ∧
  (r_destroy r = destroy_client_display_resource → o_id (r_object r) = 1).
Proof.
  intros [(_ & _ & _ & _ & Hres & _) _] Er. destruct (Hres p _ (view_resource _ _ _ Er)) as (_ & Hp0 & Hid & [Hmax Hone] & [x Ex]). apply view_client_inv in Ex as (k & Ek & _). by split_and!; [|apply Hid..| |exists k|].
Qed.

(** The id is cleared, or given back, and the resource freed. *)
Lemma give_up_spec s p r k : wf s → registries_follow s → resources s !! p = Some r → p ∉ registry_resource_list s → clients s !! r_client r = Some k →
  o_id (r_object r) < WL_SERVER_ID_START →
  ∃ s1, clear_id (r_client r) (o_id (r_object r)) (set_client (r_client r) (k_set_display (display_after r (k_display_resource k)) k) s) = Some s1 ∧
    let s' := set_resources (delete p) s1 in wf s' ∧ registries_follow s' ∧ destroyed p r s s' ∧
    ((∀ d, display_after r d = d) → fixed s' = fixed s).
Proof.
  intros Hwf Hfol Er Hnp Ek Hlt. destruct (wf_resource s p r Hwf Er) as (_ & Hid & Hmax & _). destruct (resource_entry s p r k Hwf Er Ek) as (A & free & HA & Hroom & Hsd & Hp).
  unfold clear_id. cbn [set_client set_clients clients world]. rewrite lookup_insert_eq. cbn [mbind option_bind k_set_display k_objects].
  destruct (clear_drops (k_objects k) A free p (o_id (r_object r)) (world s) HA Hroom Hsd ltac:(lia) Hmax Hp) as (m' & w' & Ei & Hdrop & Hroom' & Hsd' & Hw' & Hsh). rewrite Ei. cbn [mbind option_bind].
  eexists. split; [done|]. destruct (drop_spec s p r k m' w') as [Hwf' Hfol']; try done. set (s1 := set_world w' _).
  assert (clients s1 = <[r_client r := k_set_objects m' (k_set_display (display_after r (k_display_resource k)) k)]> (clients s)) as Ec by (cbn; by rewrite insert_insert_eq).
  assert (set_resources (delete p) s1 = set_resources (delete p) (set_world w' (set_client (r_client r) (k_set_objects m' (k_set_display (display_after r (k_display_resource k)) k)) s))) as Es.
  { unfold set_resources, set_world, set_client, set_clients in *. cbn in *. by rewrite Ec. }
  cbn zeta. rewrite Es. split_and!; try done; [|intros Hda; apply (fixed_client s _ k); [done|apply Hda|done]]. split_and!; try done.
  - cbn. by rewrite fmap_delete.
  - intros c. cbn. rewrite lookup_insert_is_Some'. split; [intros [<-|?]; eauto|auto].
  - intros k0 Ek0. assert (k0 = k) as -> by congruence. eexists. cbn. rewrite lookup_insert_eq. by split_and!.
Qed.

Lemma set_client_id s c k : clients s !! c = Some k → set_client c (k_set_display (k_display_resource k) k) s = s.
Proof. intros Ek. destruct s, k. unfold set_client, set_clients. cbn in *. by rewrite insert_id. Qed.

Lemma destroyed_view p r s1 s2 s' : view_of s2 = view_of s1 → destroyed p r s2 s' → destroyed p r s1 s'.
Proof.
  intros Ev (Hr & Hg & Hn & Hl & Hd & Hk). split_and!.
  - by rewrite <- Ev.
  - rewrite Hg. exact (f_equal v_globals Ev).
  - rewrite Hn. exact (f_equal v_next Ev).
  - rewrite Hl. exact (f_equal v_client_list Ev).
  - intros c. rewrite Hd. split; apply view_eq_clients; done.
  - intros k Ek. destruct (view_eq_clients s1 s2 (r_client r) Ev ltac:(eauto)) as [k2 Ek2]. destruct (Hk k2 Ek2) as (k' & Ek' & R). exists k'. split; [done|].
    apply view_client in Ek, Ek2. rewrite Ev, Ek in Ek2. injection Ek2 as E1 E2. by rewrite E1, E2.
Qed.

(** *** Any resource *)
Lemma destroy_display_spec s p r : wf s → registries_follow s → resources s !! p = Some r → r_destroy r = destroy_client_display_resource →
  ∃ s', wl_resource_destroy user_events notify user_destroy log_closure p s = Some s' ∧ wf s' ∧ registries_follow s' ∧ destroyed p r s s'.
Proof.
  intros Hwf Hfol Er Hd. unfold wl_resource_destroy, remove_and_destroy_resource. rewrite Er. cbn [mbind option_bind]. set (s0 := set_world _ s).
  assert (wf s0) as Hwf0 by (destruct Hwf as [Hv Hs]; split; [exact Hv|by apply sinks_ok_world]). destruct (wf_resource s p r Hwf Er) as (_ & _ & _ & (k & Ek) & Hone).
  assert (o_id (r_object r) < WL_SERVER_ID_START) as Hlt by (by rewrite (Hone Hd)).
  rewrite Hd. cbn [run_destructor]. change (resources s0) with (resources s). rewrite Er. cbn [mbind option_bind]. change (clients s0) with (clients s). rewrite Ek. cbn [mbind option_bind set_client set_clients clients].
  rewrite lookup_insert_eq. cbn [mbind option_bind k_set_display k_display_resource Z.eqb]. rewrite (proj2 (Z.ltb_lt _ _) Hlt). cbn [mbind option_bind].
  destruct (give_up_spec s0 p r k Hwf0 Hfol Er) as (s1 & E1 & Ra & Rb & Rc & _); [|done|done|].
  { intros Hq. destruct (wf_registry s p Hwf Hq) as (r' & Er' & _ & Hu & _). congruence. }
  unfold display_after in E1. rewrite Hd in E1.
  match goal with |- context [clear_id ?a ?b ?st] => replace (clear_id a b st) with (Some s1) by (symmetry; exact E1) end. cbn [mbind option_bind]. by exists (set_resources (delete p) s1).
Qed.

Lemma destroy_other_spec s p r : wf s → registries_follow s → resources s !! p = Some r → r_destroy r ≠ destroy_client_display_resource →
  ∃ s', wl_resource_destroy user_events notify user_destroy log_closure p s = Some s' ∧ wf s' ∧ registries_follow s' ∧ destroyed p r s s' ∧ fixed s' = fixed s.
Proof.
  intros Hwf Hfol Er Hd. unfold wl_resource_destroy, remove_and_destroy_resource. rewrite Er. cbn [mbind option_bind]. set (s0 := set_world _ s).
  assert (wf s0) as Hwf0 by (destruct Hwf as [Hv Hs]; split; [exact Hv|by apply sinks_ok_world]).
  destruct (destructor_spec s0 p r Hwf0 Hfol Er Hd) as (s1 & E1 & Hs1 & Ec1 & Er1 & Eg1 & Hreg1 & Hnd1 & En1 & _ & El1). rewrite E1. cbn [mbind option_bind].
  assert (wf s1) as Hwf1 by (apply (wf_registries s0); try done; by intros q [? _]%Hreg1).
  assert (registries_follow s1) as Hfol1. { intros q r' k' Hq Er' Ek' Hk'. rewrite Eg1. rewrite Er1 in Er'. rewrite Ec1 in Ek'. apply Hreg1 in Hq as [Hq _]. exact (Hfol q r' k' Hq Er' Ek' Hk'). }
  assert (p ∉ registry_resource_list s1) as Hnp by (intros Hq%Hreg1; tauto). assert (resources s1 !! p = Some r) as Erp by (by rewrite Er1).
  destruct (wf_resource s1 p r Hwf1 Erp) as (Hp0 & Hid & Hmax & (k & Ek) & _). rewrite Ek. cbn [mbind option_bind]. assert (∀ d, display_after r d = d) as Hda by (intros d; unfold display_after; by destruct (r_destroy r)).
  assert (∀ s', destroyed p r s1 s' → destroyed p r s s') as Htrans.
  { intros s' (Ha & Hb & Hc & Hl & He & Hf). unfold destroyed. rewrite Ha, Hb, Hc, Hl. cbn. rewrite Er1, Eg1, En1, El1. rewrite Ec1 in He, Hf. split_and!; done. }
  assert (fixed s1 = fixed s) as Hfx1 by (unfold fixed; by rewrite Ec1, El1).
  destruct (Z.ltb_spec (o_id (r_object r)) WL_SERVER_ID_START) as [Hlt|Hge].
  - assert (∃ s2, (if k_display_resource k =? 0 then Some s1 else wl_resource_queue_event user_events log_closure (k_display_resource k) WL_DISPLAY_DELETE_ID [va_uint32 (o_id (r_object r))] s1) = Some s2 ∧
      view_of s2 = view_of s1 ∧ wf s2 ∧ registries_follow s2 ∧ resources s2 !! p = Some r ∧ fixed s2 = fixed s1) as (s2 & E2 & Ev2 & Hwf2 & Hfol2 & Er2 & Hfx2).
    { destruct (Z.eqb_spec (k_display_resource k) 0) as [|Hdk]; [by exists s1|].
      destruct (display_event_spec false s1 (r_client r) k WL_DISPLAY_DELETE_ID (mk_message "delete_id" "u" [None]) [va_uint32 (o_id (r_object r))] [arg_u (o_id (r_object r))] Hwf1 Hfol1 Ek Hdk eq_refl) as (s2 & E2 & Ev2 & Hwf2 & Hfol2 & _ & Hdel & Hfx2); [constructor|intros o Ho; set_solver|done|].
      exists s2. split_and!; try done. destruct Hdel as (_ & _ & rd & Erd & [-> | ->] & _); [done|]. rewrite lookup_insert_ne; [done|]. intros E.
      destruct (display_spec s1 (r_client r) k Hwf1 Ek Hdk) as (r' & Er' & _ & _ & _ & Hd'). rewrite E, Erp in Er'. injection Er' as <-. done. }
    rewrite E2. cbn [mbind option_bind]. destruct (view_eq_clients s1 s2 (r_client r) Ev2 ltac:(eauto)) as [k2 Ek2].
    destruct (give_up_spec s2 p r k2 Hwf2 Hfol2 Er2) as (s3 & E3 & Hwf3 & Hfol3 & Hdes & Hfx3); [|done|done|].
    { change (registry_resource_list s2) with (v_registries (view_of s2)). by rewrite Ev2. }
    rewrite Hda, set_client_id in E3 by done. rewrite E3. cbn [mbind option_bind]. eexists. split_and!; [done|done|done|by eapply Htrans, destroyed_view|]. rewrite (Hfx3 Hda). congruence.
  - destruct (resource_entry s1 p r k Hwf1 Erp Ek) as (A & free & HA & Hroom & Hsd & Hp). destruct (remove_drops (k_objects k) A free p (o_id (r_object r)) HA Hroom Hsd ltac:(lia) Hp) as (m' & Em & Hdrop & Hroom' & Hsd' & Hsh).
    rewrite Em. cbn [mbind option_bind]. eexists. split; [done|]. destruct (drop_spec s1 p r k m' (world s1)) as [Hwf' Hfol']; try done. rewrite Hda in Hwf', Hfol'. split_and!; [exact Hwf'|exact Hfol'| |rewrite <- Hfx1; by apply (fixed_client s1 _ k)].
    apply Htrans. split_and!; try done; [cbn; by rewrite fmap_delete| |].
    + intros c. cbn. rewrite lookup_insert_is_Some'. split; [intros [<-|?]; eauto|auto].
    + intros k0 Ek0. assert (k0 = k) as -> by congruence. eexists. cbn. rewrite lookup_insert_eq, Hda. by split_and!.
Qed.

Lemma destroy_resource_spec s p r : wf s → registries_follow s → resources s !! p = Some r →
  ∃ s', wl_resource_destroy user_events notify user_destroy log_closure p s = Some s' ∧ wf s' ∧ registries_follow s' ∧ destroyed p r s s'.
Proof.
  intros Hwf Hfol Er. destruct (decide (r_destroy r = destroy_client_display_resource)) as [Hd|Hd]; [by apply destroy_display_spec|]. destruct (destroy_other_spec s p r Hwf Hfol Er Hd) as (s' & R1 & R2 & R3 & R4 & _). by exists s'.
Qed.

(** ** A roundtrip *)

Lemma sync_spec s c k id : wf s → registries_follow s → clients s !! c = Some k → k_display_resource k ≠ 0 → id_free k id →
  ∃ s', display_sync user_events description address notify user_destroy log_closure c id s = Some s' ∧ wf s' ∧ registries_follow s' ∧ global_list s' = global_list s ∧ fixed s' = fixed s ∧
    v_resources (view_of s') = v_resources (view_of s).
Proof.
  intros Hwf Hfol Ek Hd Hid. unfold display_sync.
  destruct (resource_create_spec s c k (wl_callback_interface description) 1 id Hwf Hfol Ek (or_introl Hd) Hid) as (p & s1 & E1 & Hwf1 & Hfol1 & Egl & Erl & _ & _ & Hfx1 & Hp). rewrite E1. cbn [mbind option_bind].
  destruct Hp as [(-> & Evr & k' & Ek' & Ed')|(Hp0 & Hnew & Er1 & m' & Ek1)].
  { cbn [Z.eqb]. rewrite <- Ed' in Hd. destruct (no_memory_spec s1 c k' Hwf1 Hfol1 Ek' Hd) as (s2 & E2 & Ev2 & Hwf2 & Hfol2 & Hfx2). exists s2. split_and!; try done; [rewrite <- Egl; exact (f_equal v_globals Ev2)|congruence|]. rewrite Ev2, Evr. by auto. }
  rewrite (proj2 (Z.eqb_neq p 0)) by done. set (r := new_resource c (wl_callback_interface description) 1 id) in *.
  assert (resources s1 !! p = Some r) as Erp by (by rewrite Er1, lookup_insert_eq). assert (clients s1 !! r_client r = Some (k_set_objects m' k)) as Ekp by (cbn; by rewrite Ek1, lookup_insert_eq).
  assert (p ∉ registry_resource_list s1) as Hnr. { intros Hq. destruct (wf_registry s1 p Hwf1 Hq) as (r' & Er' & _ & Hu & _). rewrite Erp in Er'. by injection Er' as <-. }
  unfold wl_resource_post_event. rewrite (event_args_core s1 p r WL_CALLBACK_DONE (mk_message "done" "u" [None]) [va_uint32 (serial s1)] [arg_u (serial s1)]) by done. cbn [mbind option_bind].
  pose proof Hwf1 as [_ Hs1]. destruct (handle_array_spec true s1 p r _ WL_CALLBACK_DONE (mk_message "done" "u" [None]) [arg_u (serial s1)] Hs1 Erp Ekp eq_refl) as (s2 & E2 & Hdel & Hs2 & Hfx2); [constructor|intros o Ho; set_solver|].
  unfold wl_resource_post_event_array. rewrite E2. cbn [mbind option_bind]. pose proof Hdel as (Ev2 & _). destruct (view_eq_resource s1 s2 p r Ev2 Erp) as (r2 & Er2 & Ef). apply forget_client in Ef as (_ & _ & Ed2).
  destruct (destroy_other_spec s2 p r2) as (s3 & E3 & Hwf3 & Hfol3 & (Hv3 & Egl3 & _) & Hfx3); [by apply (wf_view s1)|by eapply follow_delivers|done|by rewrite Ed2|].
  exists s3. split_and!; try done; [rewrite Egl3, <- Egl; exact (f_equal v_globals Ev2)|congruence|].
  rewrite Hv3, Ev2. cbn. rewrite Er1, fmap_insert, delete_insert_id; [done|]. by rewrite lookup_fmap, Hnew.
Qed.

(** ** A new client *)

Definition v_set_clients (v : view) (cs : gmap Z (Z * wl_map)) (rs : gmap Z wl_resource) : view :=
  mk_view (v_next v) (v_serial v) (v_registries v) (v_globals v) (v_client_list v) cs rs.

Lemma view_wf_client v c m A free : view_wf v → v_clients v !! c = None → map_rep m A free → side m = WL_MAP_SERVER_SIDE → map_small m →
  (∀ id x, A !! id = Some x → x = (0, 0)) → view_wf (v_set_clients v (<[c := (0, m)]> (v_clients v)) (v_resources v)).
Proof.
  intros (Hn & Hg & Hnd & Hreg & Hres & Hcl) Hc Hrep Hsd Hroom HA. assert (∀ p r, v_resources v !! p = Some r → r_client r ≠ c) as Hno.
  { intros p r Hp <-. destruct (Hres p r Hp) as (_ & _ & _ & _ & [? ?]). congruence. }
  refine (conj Hn (conj Hg (conj Hnd (conj Hreg (conj _ _))))); cbn.
  - intros q x Hq. destruct (Hres q x Hq) as (Ha & Hb & Hi & Hj & Hk). refine (conj Ha (conj Hb (conj Hi (conj Hj _)))). cbn. by apply lookup_insert_is_Some'; right.
  - intros c' d m0 [[<- [= <- <-]]|[_ Hm0]]%lookup_insert_Some; [|by apply Hcl]. exists A, free. split_and!; try done.
    + intros p r Hp Hr. by destruct (Hno p r).
    + intros id p f Hid. apply HA in Hid as [= -> ->]. by split; [|left].
    + intros p r Hp Hr. by destruct (Hno p r).
Qed.

Lemma view_wf_display v c m p r r' : view_wf v → v_clients v !! c = Some (0, m) → v_resources v !! p = Some r → r_client r = c → is_display r →
  r_object r' = r_object r → r_client r' = c → r_destroy r' = destroy_client_display_resource → o_id (r_object r') = 1 → p ∉ v_registries v →
  view_wf (v_set_clients v (<[c := (p, m)]> (v_clients v)) (<[p := r']> (v_resources v))).
Proof.
  intros (Hn & Hg & Hnd & Hreg & Hres & Hcl) Hc Hp Hrc Hdisp Ho Hc' Hd' Hone Hnr. refine (conj Hn (conj Hg (conj Hnd (conj _ (conj _ _))))); cbn.
  - intros q Hq. destruct (Hreg q Hq) as (x & Ex & Hx). exists x. rewrite lookup_insert_ne; [done|]. by intros ->.
  - intros q x [[<- <-]|[_ Hq]]%lookup_insert_Some.
    + destruct (Hres p r Hp) as (Ha & Hb & Hi & Hj & Hk). destruct Hj as [Hj _]. rewrite <- Ho in Hi, Hj. refine (conj Ha (conj Hb (conj Hi (conj (conj Hj (λ _, Hone)) _)))). cbn. rewrite Hc', lookup_insert_eq. eauto.
    + destruct (Hres q x Hq) as (Ha & Hb & Hi & Hj & Hk). refine (conj Ha (conj Hb (conj Hi (conj Hj _)))). cbn. by apply lookup_insert_is_Some'; right.
  - intros c' d m0 Hm0. destruct (decide (c' = c)) as [->|Hne].
    + rewrite lookup_insert_eq in Hm0. injection Hm0 as <- <-. destruct (Hcl c 0 m Hc) as (A & free & Hrep & Hsd & Hroom & Hin & Hout & _ & Huniq). exists A, free. split_and!; try done.
      * intros q x [[<- <-]|[_ Hq]]%lookup_insert_Some Hx; [rewrite Ho; by apply Hin|by apply Hin].
      * intros id q f Hid. destruct (Hout id q f Hid) as (Hf & [Hq|(x & Ex & Hx & Hi)]); [by split; [|left]|]. split; [done|right].
        destruct (decide (q = p)) as [->|Hne]; [exists r'|exists x; by rewrite lookup_insert_ne]. rewrite lookup_insert_eq. assert (x = r) as -> by congruence. split_and!; congruence.
      * intros _. exists r'. rewrite lookup_insert_eq. unfold is_display. rewrite Ho. done.
      * intros q x [[<- <-]|[_ Hq]]%lookup_insert_Some Hx Hdx; [done|]. pose proof (Huniq q x Hq Hx Hdx). destruct (Hres q x Hq) as (_ & ? & _). done.
    + rewrite lookup_insert_ne in Hm0 by done. destruct (Hcl c' d m0 Hm0) as (A & free & Hrep & Hsd & Hroom & Hin & Hout & Hdi & Huniq). exists A, free. split_and!; try done.
      * intros q x [[<- <-]|[_ Hq]]%lookup_insert_Some Hx; [congruence|by apply Hin].
      * intros id q f Hid. destruct (Hout id q f Hid) as (Hf & [Hq|(x & Ex & Hx & Hi)]); [by split; [|left]|]. split; [done|right]. exists x. rewrite lookup_insert_ne; [done|]. intros ->. congruence.
      * intros Hd0. destruct (Hdi Hd0) as (x & Ex & Hx & R). exists x. rewrite lookup_insert_ne; [done|]. intros ->. congruence.
      * intros q x [[<- <-]|[_ Hq]]%lookup_insert_Some Hx; [congruence|by apply Huniq].
Qed.

Lemma view_wf_forget v c : view_wf v → (∀ p r, v_resources v !! p = Some r → r_client r ≠ c) → view_wf (v_set_clients v (delete c (v_clients v)) (v_resources v)).
Proof.
  intros (Hn & Hg & Hnd & Hreg & Hres & Hcl) Hno. refine (conj Hn (conj Hg (conj Hnd (conj Hreg (conj _ _))))); cbn.
  - intros q x Hq. destruct (Hres q x Hq) as (Ha & Hb & Hi & Hj & Hk). refine (conj Ha (conj Hb (conj Hi (conj Hj _)))). cbn. rewrite lookup_delete_ne; [done|]. intros E. by apply (Hno q x Hq).
  - intros c' d m [_ Hm]%lookup_delete_Some. by apply Hcl.
Qed.

Lemma abandon_spec s c k : wf s → registries_follow s → clients s !! c = Some k → (∀ p r, resources s !! p = Some r → r_client r ≠ c) →
  ∃ s', abandon_client remove_source c s = Some s' ∧ wf s' ∧ registries_follow s' ∧ global_list s' = global_list s.
Proof.
  intros [Hv Hs] Hfol Ek Hno. unfold abandon_client. rewrite Ek. cbn [mbind option_bind]. destruct (sink_abandon_law (k_connection k) (world s) (Hs c k Ek)) as (w & -> & Hw). cbn [mbind option_bind].
  assert (sinks_kept (world s) (remove_source c w)) as Hw' by (etrans; [exact Hw|apply source_calm]). eexists. split; [done|]. split_and!; [split|..|done].
  - set (s' := set_world _ _). assert (view_of s' = v_set_clients (view_of s) (delete c (v_clients (view_of s))) (v_resources (view_of s))) as ->.
    { unfold view_of, v_set_clients. cbn. by rewrite fmap_delete. }
    apply view_wf_forget; [done|]. intros p r Hp. apply view_resource_inv in Hp as (r' & Hr' & ->). exact (Hno p r' Hr').
  - intros c' k' Hk'. cbn in Hk'. apply lookup_delete_Some in Hk' as [_ Hk']. exact (Hw' _ (Hs c' k' Hk')).
  - intros q r k' Hq Er Ek' Hk'. cbn in *. apply lookup_delete_Some in Ek' as [_ Ek']. exact (Hfol q r k' Hq Er Ek' Hk').
Qed.

(** The client with the first entry of its map, before it has a display. *)
Lemma first_entry w r m w' : wl_map_insert_at (wl_map_init WL_MAP_SERVER_SIDE) 0 0 0 w = Some (r, m, w') →
  side m = WL_MAP_SERVER_SIDE ∧ map_small m ∧ sinks_kept w w' ∧
  ∃ A, map_rep m A [] ∧ (∀ id x, A !! id = Some x → x = (0, 0)) ∧ A !! 1 = None ∧ (r = Ret tt → 1 <= ents_count (entries false m)).
Proof.
  intros E. pose proof (map_rep_init WL_MAP_SERVER_SIDE (or_introl eq_refl)) as Hrep. pose proof (map_small_init WL_MAP_SERVER_SIDE) as Hroom.
  assert (ptr_ok 0) as Hptr by done. assert (0 <= 0 < 2 ^ 32) as H0r by lia. destruct (insert_at_shape _ _ _ _ _ _ _ _ _ _ Hrep Hroom Hptr H0r E) as (Hroom' & Hsd & _).
  destruct (insert_at_spec _ _ _ 0 0 0 w Hrep (map_small_room _ Hroom) Hptr H0r) as (r' & m' & w2 & E' & Hr); [intros [_ Hk]; by apply elem_of_nil in Hk|]. rewrite E in E'. injection E' as <- <- <-.
  split_and!; [done|done|by eapply insert_at_kept|]. destruct r as [[]|e].
  - exists {[0 := (0, 0)]}. split_and!; [exact Hr| |done|].
    + intros id x Hx. by apply lookup_singleton_Some in Hx as [_ <-].
    + intros _. destruct Hr as (_ & _ & HA). destruct (proj1 (HA 0 (0, 0))) as (_ & [Hk _] & _); [by rewrite insert_empty, lookup_singleton_eq|].
      change (is_server_id 0) with false in Hk. change (id_index 0) with 0 in Hk. lia.
  - destruct Hr as [-> _]. exists ∅. by split_and!.
Qed.

Lemma client_create_spec s fd : wf s → registries_follow s →
  ∃ c s', wl_client_create user_events description address notify log_closure open_connection remove_source fd s = Some (c, s') ∧ wf s' ∧ registries_follow s' ∧
    global_list s' = global_list s ∧ (c ≠ 0 → ∃ k, clients s' !! c = Some k ∧ k_display_resource k ≠ 0).
Proof.
  intros Hwf Hfol. unfold wl_client_create. pose proof Hwf as [Hv Hs]. destruct (new_memory_spec sizeof_wl_client (dom (clients s)) (world s)) as [Hw0 Hfresh].
  destruct (new_memory address sizeof_wl_client _ (world s)) as [[c|] w0]; cbn [fst snd] in Hw0, Hfresh.
  2: { exists 0, (set_world w0 s). split_and!; try done. split; [exact Hv|by apply sinks_ok_world]. }
  destruct (Hfresh c eq_refl) as (Hc & _ & Hc0). apply not_elem_of_dom in Hc.
  destruct (open_ok fd w0) as [Hw1 Hx]. destruct (open_connection fd w0) as [[x|] w1]; cbn [fst snd] in Hw1, Hx; assert (sinks_kept (world s) w1) as Hw by (by etrans).
  2: { exists 0, (set_world w1 s). split_and!; try done. split; [exact Hv|by apply sinks_ok_world]. }
  specialize (Hx x eq_refl). destruct (wl_map_insert_at (wl_map_init WL_MAP_SERVER_SIDE) 0 0 0 w1) as [[[r m] w2]|] eqn:Em.
  2: { exfalso. destruct (insert_at_spec (wl_map_init WL_MAP_SERVER_SIDE) ∅ [] 0 0 0 w1) as (? & ? & ? & E & _); [apply map_rep_init; by left|by intros []|done|lia|intros [_ Hk]; by apply elem_of_nil in Hk|congruence]. }
  destruct (first_entry _ _ _ _ Em) as (Hsd & Hroom & Hw2 & A & Hrep & HA & HA1 & Hcnt). cbn [mbind option_bind]. set (k := mk_client x 0 m false). set (s1 := set_world w2 (set_client c k s)).
  assert (∀ p v, resources s !! p = Some v → r_client v ≠ c) as Hno.
  { intros p v Hp E. destruct Hv as (_ & _ & _ & _ & Hres & _). destruct (Hres p _ (view_resource _ _ _ Hp)) as (_ & _ & _ & _ & [y Hy]). cbn in Hy. by rewrite E, lookup_fmap, Hc in Hy. }
  assert (wf s1) as Hwf1.
  { split; [|apply sinks_ok_client; [by etrans|by apply Hw2|done]]. assert (view_of s1 = v_set_clients (view_of s) (<[c := (0, m)]> (v_clients (view_of s))) (v_resources (view_of s))) as -> by (unfold view_of, v_set_clients; cbn; by rewrite fmap_insert).
    apply (view_wf_client _ _ _ A []); try done. cbn. by rewrite lookup_fmap, Hc. }
  assert (registries_follow s1) as Hfol1.
  { intros q v k' Hq Ev Ek Hk. cbn in *. apply lookup_insert_Some in Ek as [[Ec _]|[_ Ek]]; [by destruct (Hno q v Ev)|by apply (Hfol q v k')]. }
  assert (clients s1 !! c = Some k) as Ek1 by (cbn; by rewrite lookup_insert_eq).
  destruct r as [[]|e].
  2: { destruct (abandon_spec s1 c k Hwf1 Hfol1 Ek1 Hno) as (s2 & -> & Hwf2 & Hfol2 & Eg2). by exists 0, s2. }
  unfold bind_display. destruct (resource_create_spec s1 c k (wl_display_interface description) 1 1 Hwf1 Hfol1 Ek1) as (p & s2 & E2 & Hwf2 & Hfol2 & Eg2 & Er2 & _ & _ & _ & Hp).
  { right. exact (Hcnt eq_refl). }
  { split; [done|]. cbn. destruct (lookup_rep _ _ _ Hrep 1) as [-> _]; [lia|]. by rewrite HA1. }
  rewrite E2. cbn [mbind option_bind]. destruct Hp as [(-> & Evr & k' & Ek' & Ed')|(Hp0 & Hnew & Er & m' & Ek)].
  - rewrite Ek'. cbn [mbind option_bind Z.eqb]. set (s3 := set_client c _ s2). assert (view_of s3 = view_of s2) as Ev3.
    { unfold view_of. cbn. f_equal. apply (fmap_insert_same _ _ _ k'); [done|]. unfold k_view. cbn. by rewrite Ed'. }
    assert (sinks_ok s3) as Hs3. { destruct Hwf2 as [_ Hs2]. intros c' k0. cbn. intros [[<- <-]|[_ Hk0]]%lookup_insert_Some; [exact (Hs2 _ _ Ek')|exact (Hs2 _ _ Hk0)]. }
    assert (registries_follow s3) as Hfol3.
    { intros q v k0 Hq Ev Hk0 He. cbn in *. apply lookup_insert_Some in Hk0 as [[Ec <-]|[_ Hk0]]; [by apply (Hfol2 q v k'); try done; rewrite <- Ec|by apply (Hfol2 q v k0)]. }
    destruct (abandon_spec s3 c (k_set_display 0 k')) as (s4 & E4 & Hwf4 & Hfol4 & Eg4); [by apply (wf_view s2)|done|cbn; by rewrite lookup_insert_eq| |].
    { intros q v Hq. apply (view_resource s3) in Hq. rewrite Ev3, Evr in Hq. apply (view_resource_inv s1) in Hq as (v' & Hv' & E'). apply forget_client in E' as (-> & _). exact (Hno q v' Hv'). }
    rewrite E4. cbn [mbind option_bind]. exists 0, s4. split_and!; try done. rewrite Eg4. exact Eg2.
  - assert (clients s2 !! c = Some (k_set_objects m' k)) as Ek2 by (by rewrite Ek, lookup_insert_eq). rewrite Ek2. cbn [mbind option_bind]. rewrite (proj2 (Z.eqb_neq p 0)) by done.
    unfold wl_resource_set_implementation. cbn [resources set_client set_clients]. rewrite Er, lookup_insert_eq. cbn [mbind option_bind]. set (r := mk_resource _ _ _ _ _ _ _ _). eexists c, _. split; [done|].
    set (s3 := set_world _ _). assert (p ∉ registry_resource_list s2) as Hnr.
    { rewrite Er2. intros Hq. destruct (wf_registry s1 p Hwf1 Hq) as (? & ? & _). congruence. }
    split_and!; [split|..|exact Eg2|].
    + pose proof Hwf2 as [Hv2 _]. apply (view_wf_display _ c m' p (new_resource c (wl_display_interface description) 1 1) (r_forget r)) in Hv2; try done.
      * destruct Hv2 as (Ha & Hb & Hd & He & Hf & Hg). assert (v_clients (view_of s3) = <[c := (p, m')]> (v_clients (view_of s2)) ∧ v_resources (view_of s3) = <[p := r_forget r]> (v_resources (view_of s2))) as [Evc Evr].
        { cbn. by rewrite !fmap_insert. }
        unfold view_wf, resource_ok. rewrite Evc, Evr. refine (conj Ha (conj Hb (conj Hd (conj He (conj Hf Hg))))).
      * by rewrite (view_client s2 c _ Ek2).
      * cbn. by rewrite Er, fmap_insert, lookup_insert_eq.
    + destruct Hwf2 as [_ Hs2]. intros c' k0. cbn. intros [[<- <-]|[_ Hk0]]%lookup_insert_Some; apply notify_calm; [exact (Hs2 _ _ Ek2)|exact (Hs2 _ _ Hk0)].
    + intros q v k0 Hq Ev Hk0 He. cbn in *. assert (q ≠ p) as Hqp by (intros ->; done). rewrite lookup_insert_ne in Ev by done.
      apply lookup_insert_Some in Hk0 as [[Ec <-]|[_ Hk0]]; [by apply (Hfol2 q v (k_set_objects m' k)); try done; rewrite <- Ec|by apply (Hfol2 q v k0)].
    + intros _. eexists. cbn. rewrite lookup_insert_eq. by split.
Qed.

(** ** Destroying a client *)

Lemma small_has_id b j : 0 <= j <= WL_MAP_MAX_OBJECTS → has_id b j = true.
Proof.
  intros Hj. unfold has_id, WL_MAP_MAX_OBJECTS, WL_SERVER_ID_START in *. apply andb_true_iff. split; [apply Z.leb_le; lia|]. apply Z.ltb_lt. destruct b; lia.
Qed.
Lemma entry_null e : 0 <= e < 2 ^ 64 → map_entry_is_free e = false → entry_pair e = (0, 0) → e = 0.
Proof.
  intros He Hf [= Hd Hl]. unfold map_entry_get_data in Hd. rewrite land_clear2 in Hd by done. assert (e < 4) by (pose proof (Z.div_mod e 4); pose proof (Z.mod_pos_bound e 4); lia).
  assert (e = 0 ∨ e = 1 ∨ e = 2 ∨ e = 3) as [-> | [-> | [-> | ->]]] by lia; done.
Qed.

(** An entry of the map: the resource under that id, if there is one. *)
Lemma entry_resource s c k b j : wf s → clients s !! c = Some k → 0 <= j < ents_count (entries b (k_objects k)) →
  ∃ e, entry_get (entries b (k_objects k)) j = Some e ∧
    (if negb (e =? 0) && negb (map_entry_is_free e) then ∃ r, resources s !! map_entry_get_data e = Some r ∧ r_client r = c ∧ o_id (r_object r) = id_of b j
     else ∀ p r, resources s !! p = Some r → r_client r = c → o_id (r_object r) ≠ id_of b j).
Proof.
  intros Hwf Ek Hj. pose proof Hwf as [(_ & _ & _ & _ & _ & Hcl) _]. destruct (Hcl _ _ _ (view_client _ _ _ Ek)) as (A & free & Hrep & Hsd & Hroom & Hin & Hout & _). cbn in Hin, Hout.
  specialize (Hroom b). pose proof Hroom as [Hcount _]. assert (has_id b j = true) as Hhas by (apply small_has_id; lia). assert (0 <= id_of b j < 2 ^ 32) as Hid by (unfold id_of, WL_SERVER_ID_START, WL_MAP_MAX_OBJECTS in *; destruct b; lia).
  destruct (proj2 (id_slot (id_of b j) b j Hid) (conj Hhas eq_refl)) as [Hs Hk]. pose proof Hrep as ((Hwfa & _ & _ & _ & Hch) & Hlive & HA).
  destruct (entry_get_Some (entries b (k_objects k)) j (Hwfa b) Hj) as [e He]. exists e. split; [done|].
  assert (∀ p r, resources s !! p = Some r → r_client r = c → o_id (r_object r) = id_of b j → p ≠ 0 ∧ A !! id_of b j = Some (p, 0)) as Hres.
  { intros p r Hp Hr <-. split; [apply (wf_resource s p r Hwf Hp)|]. exact (Hin p _ (view_resource _ _ _ Hp) Hr). }
  destruct (decide (b = own_side (k_objects k) ∧ j ∈ free)) as [[Hb Hf]|Hnf].
  - rewrite <- Hb in Hch. destruct (free_entry_null _ _ _ j Hch Hf) as (e' & He' & Hz). assert (e' = e) as -> by congruence. assert (negb (e =? 0) && negb (map_entry_is_free e) = false) as ->.
    { destruct Hz as [-> | ->]; [done|]. by rewrite andb_false_r. }
    intros p r Hp Hr E. destruct (Hres p r Hp Hr E) as [_ HAp]. apply HA in HAp as (_ & [_ Hnl] & _). rewrite Hs, Hk in Hnl. tauto.
  - destruct (Hlive b j (conj Hj Hnf)) as (e' & He' & Hfr). assert (e' = e) as -> by congruence. rewrite Hfr. cbn [negb]. rewrite andb_true_r.
    assert (A !! id_of b j = Some (entry_pair e)) as HAe. { apply HA. split; [done|]. rewrite Hs, Hk. split; [by split|]. by exists e. }
    destruct (Z.eqb_spec e 0) as [->|Hne]; cbn [negb].
    + intros p r Hp Hr E. destruct (Hres p r Hp Hr E) as [Hp0 HAp]. rewrite HAe, entry_pair_0 in HAp. injection HAp as <-. done.
    + destruct (Hout _ _ _ HAe) as [Hfl [Hz|(r & Er & Hr)]].
      * exfalso. apply Hne, entry_null; [by apply (proj2 Hroom j e)|done|]. unfold entry_pair. by rewrite Hz, Hfl.
      * apply view_resource_inv in Er as (r' & Er' & ->). by exists r'.
Qed.

Lemma resource_unique s p q r x : wf s → resources s !! p = Some r → resources s !! q = Some x → r_client r = r_client x → o_id (r_object r) = o_id (r_object x) → p = q.
Proof.
  intros Hwf Er Ex Ec Ei. destruct (wf_resource s p r Hwf Er) as (_ & _ & _ & (k & Ek) & _). pose proof Hwf as [(_ & _ & _ & _ & _ & Hcl) _].
  destruct (Hcl _ _ _ (view_client _ _ _ Ek)) as (A & free & _ & _ & _ & Hin & _). pose proof (Hin p _ (view_resource _ _ _ Er) eq_refl) as Hp. pose proof (Hin q _ (view_resource _ _ _ Ex) (eq_sym Ec)) as Hq.
  cbn in Hp, Hq. rewrite Ei in Hp. congruence.
Qed.

Lemma set_objects_id s c k : clients s !! c = Some k → set_client c (k_set_objects (k_objects k) k) s = s.
Proof. intros Ek. destruct s, k. unfold set_client, set_clients. cbn in *. by rewrite insert_id. Qed.

(** While the resources of [c] go, everything else stays. *)
Definition only_loses (c : Z) s s' : Prop :=
  global_list s' = global_list s ∧ next_global_name s' = next_global_name s ∧ client_list s' = client_list s ∧
  (∀ c', is_Some (clients s' !! c') ↔ is_Some (clients s !! c')) ∧
  (∀ p r, v_resources (view_of s') !! p = Some r → v_resources (view_of s) !! p = Some r) ∧
  (∀ p r, v_resources (view_of s) !! p = Some r → r_client r ≠ c → v_resources (view_of s') !! p = Some r).
Lemma only_loses_refl c s : only_loses c s s.
Proof. by split_and!. Qed.
Lemma only_loses_trans c s1 s2 s3 : only_loses c s1 s2 → only_loses c s2 s3 → only_loses c s1 s3.
Proof.
  intros (Ha & Hb & Hc & Hd & He & Hf) (Ha' & Hb' & Hc' & Hd' & He' & Hf'). split_and!; [congruence..| | |]; [|auto|auto]. intros c'. by rewrite Hd', Hd.
Qed.
Lemma destroyed_loses p r s s' : resources s !! p = Some r → destroyed p r s s' → only_loses (r_client r) s s'.
Proof.
  intros Er (Hr & Hg & Hn & Hl & Hd & _). split_and!; try done; rewrite Hr.
  - intros q x [_ Hq]%lookup_delete_Some. done.
  - intros q x Hq Hx. rewrite lookup_delete_ne; [done|]. intros <-. rewrite (view_resource _ _ _ Er) in Hq. injection Hq as <-. done.
Qed.

Lemma destroy_loop c b alloc : ∀ n idx s k, 0 <= idx → wf s → registries_follow s → clients s !! c = Some k →
  a_alloc (entries b (k_objects k)) = alloc → idx + Z.of_nat n = ents_count (entries b (k_objects k)) →
  (∀ p r j, resources s !! p = Some r → r_client r = c → 0 <= j < idx → o_id (r_object r) ≠ id_of b j) →
  ∃ s' k', for_each_loop (destroy_each user_events notify user_destroy log_closure c) n b alloc idx (k_objects k) s = Some (WL_ITERATOR_CONTINUE, k_objects k', s') ∧
    clients s' !! c = Some k' ∧ wf s' ∧ registries_follow s' ∧ same_shape (k_objects k) (k_objects k') ∧ only_loses c s s' ∧
    ∀ p r j, resources s' !! p = Some r → r_client r = c → 0 <= j < ents_count (entries b (k_objects k)) → o_id (r_object r) ≠ id_of b j.
Proof.
  induction n as [|n IH]; intros idx s k Hidx Hwf Hfol Ek Hal Hn Hdone; cbn [for_each_loop].
  { exists s, k. split_and!; try done; try apply only_loses_refl. intros p r j Hp Hr Hj. apply (Hdone p r j); try done. lia. }
  rewrite Hal, Z.eqb_refl. destruct (entry_resource s c k b idx Hwf Ek) as (e & -> & He); [lia|]. cbn [mbind option_bind].
  destruct (negb (e =? 0) && negb (map_entry_is_free e)).
  2: { apply IH; try done; [lia|lia|]. intros p r j Hp Hr Hj. destruct (decide (j = idx)) as [->|]; [by apply (He p r)|apply (Hdone p r); try done; lia]. }
  destruct He as (r & Er & Hr & Hid).
  destruct (destroy_resource_spec s _ r Hwf Hfol Er) as (s1 & E1 & Hwf1 & Hfol1 & Hdes). unfold wl_resource_destroy in E1.
  pose proof (destroyed_loses _ _ _ _ Er Hdes) as Hlose. destruct Hdes as (Hres & _ & _ & _ & _ & Hk). rewrite Hr in Hk, Hlose. destruct (Hk k Ek) as (k1 & Ek1 & Hsh & _).
  assert (destroy_each user_events notify user_destroy log_closure c (map_entry_get_data e) (map_entry_get_flags e) (k_objects k) s = Some (WL_ITERATOR_CONTINUE, k_objects k1, s1)) as ->.
  { unfold destroy_each. rewrite Ek. cbn [mbind option_bind]. rewrite set_objects_id by done. rewrite E1. cbn [mbind option_bind]. by rewrite Ek1. }
  cbn [mbind option_bind].
  destruct (Hsh b) as [Hsz Hal1]. assert (ents_count (entries b (k_objects k1)) = ents_count (entries b (k_objects k))) as Hcnt by (unfold ents_count; by rewrite Hsz).
  destruct (IH (idx + 1) s1 k1) as (s2 & k2 & E2 & Ek2 & Hwf2 & Hfol2 & Hsh2 & Hlose2 & Hgone); try done; [lia|congruence|lia| |].
  { intros p x j Hp Hx Hj E. apply view_resource in Hp. rewrite Hres in Hp. apply lookup_delete_Some in Hp as [Hpne Hp]. apply view_resource_inv in Hp as (x' & Ex' & Ef). apply eq_sym, forget_client in Ef as (Ec & Eo & _).
    rewrite <- Eo in E. destruct (decide (j = idx)) as [->|]; [|apply (Hdone p x' j Ex'); [congruence|lia|done]].
    apply Hpne, (resource_unique s _ p r x'); congruence. }
  exists s2, k2. split_and!; try done.
  - intros b'. destruct (Hsh b') as [Ha Hb], (Hsh2 b') as [Ha' Hb']. split; congruence.
  - by eapply only_loses_trans.
  - by rewrite Hcnt in Hgone.
Qed.

(** A resource is under an entry of the map. *)
Lemma resource_index s p r k : wf s → resources s !! p = Some r → clients s !! r_client r = Some k →
  ∃ b j, o_id (r_object r) = id_of b j ∧ 0 <= j < ents_count (entries b (k_objects k)).
Proof.
  intros Hwf Er Ek. destruct (wf_resource s p r Hwf Er) as (_ & Hid & _). destruct (resource_entry s p r k Hwf Er Ek) as (A & free & (_ & _ & HA) & _ & _ & Hp). apply HA in Hp as (_ & [Hj _] & _).
  exists (is_server_id (o_id (r_object r))), (id_index (o_id (r_object r))). split; [|done]. apply (id_slot _ (is_server_id (o_id (r_object r))) (id_index (o_id (r_object r)))); [lia|done].
Qed.

Lemma for_each_destroys s c k : wf s → registries_follow s → clients s !! c = Some k →
  ∃ s' k', wl_map_for_each (destroy_each user_events notify user_destroy log_closure c) (k_objects k) s = Some (k_objects k', s') ∧ clients s' !! c = Some k' ∧
    wf s' ∧ registries_follow s' ∧ only_loses c s s' ∧ ∀ p r, resources s' !! p = Some r → r_client r ≠ c.
Proof.
  intros Hwf Hfol Ek. unfold wl_map_for_each, for_each_helper.
  assert (∀ b st kt, wf st → clients st !! c = Some kt → 0 + Z.of_nat (Z.to_nat (a_size (entries b (k_objects kt)) / sizeof_map_entry)) = ents_count (entries b (k_objects kt))) as Hlen.
  { intros b st kt [(_ & _ & _ & _ & _ & Hcl) _] Ekt. destruct (Hcl _ _ _ (view_client _ _ _ Ekt)) as (A & free & ((Hwfa & _) & _) & _). destruct (Hwfa b) as ((Hs & _) & _). unfold ents_count, sizeof_map_entry. rewrite Z2Nat.id; [lia|]. apply Z.div_pos; lia. }
  destruct (destroy_loop c false _ _ 0 s k ltac:(lia) Hwf Hfol Ek eq_refl (Hlen false s k Hwf Ek)) as (s1 & k1 & -> & Ek1 & Hwf1 & Hfol1 & Hsh1 & Hl1 & Hg1); [intros; lia|]. cbn [mbind option_bind].
  destruct (destroy_loop c true _ _ 0 s1 k1 ltac:(lia) Hwf1 Hfol1 Ek1 eq_refl (Hlen true s1 k1 Hwf1 Ek1)) as (s2 & k2 & -> & Ek2 & Hwf2 & Hfol2 & Hsh2 & Hl2 & Hg2); [intros; lia|]. cbn [mbind option_bind].
  exists s2, k2. split_and!; try done; [by eapply only_loses_trans|]. intros p r Er Hr. rewrite <- Hr in Ek2. destruct (resource_index s2 p r k2 Hwf2 Er Ek2) as (b & j & E & Hj).
  assert (∀ b, ents_count (entries b (k_objects k2)) = ents_count (entries b (k_objects k1)) ∧ ents_count (entries b (k_objects k1)) = ents_count (entries b (k_objects k))) as Hcnt.
  { intros b'. destruct (Hsh1 b') as [Ha _], (Hsh2 b') as [Hb _]. unfold ents_count. by rewrite Hb, Ha. }
  destruct (Hcnt b) as [Hc2 Hc1]. destruct b; [apply (Hg2 p r j Er Hr); [lia|done]|].
  apply view_resource in Er. destruct Hl2 as (_ & _ & _ & _ & Hback & _). apply Hback, view_resource_inv in Er as (r1 & Er1 & Ef). apply eq_sym, forget_client in Ef as (Ec & Eo & _). apply (Hg1 p r1 j Er1); [congruence|lia|congruence].
Qed.

Lemma client_destroy_spec s c k : wf s → registries_follow s → clients s !! c = Some k → c ∈ client_list s →
  ∃ s', wl_client_destroy user_events notify user_destroy log_closure remove_source c s = Some s' ∧ wf s' ∧ registries_follow s' ∧
    global_list s' = global_list s ∧ clients s' !! c = None ∧ (∀ p r, resources s' !! p = Some r → r_client r ≠ c) ∧
    (∀ p r, v_resources (view_of s) !! p = Some r → r_client r ≠ c → v_resources (view_of s') !! p = Some r) ∧
    (∀ p r, v_resources (view_of s') !! p = Some r → v_resources (view_of s) !! p = Some r) ∧
    (∀ c', c' ≠ c → is_Some (clients s !! c') → is_Some (clients s' !! c')).
Proof.
  intros Hwf Hfol Ek Hc. unfold wl_client_destroy. rewrite Ek. cbn [mbind option_bind]. rewrite bool_decide_eq_false_2 by tauto.
  set (s0 := set_world _ (set_client_list _ s)). pose proof Hwf as [Hv Hs]. assert (sinks_ok s0) as Hs0 by (intros c' k' Hk'; apply notify_calm; exact (Hs c' k' Hk')).
  destruct (sink_flush_law (k_connection k) (world s0) (Hs0 c k Ek)) as (fr & x & w & Ef & Hx & _ & Hw). rewrite Ef. cbn [mbind option_bind].
  set (s1 := set_world w _). assert (wf s1) as Hwf1.
  { split; [|exact (sinks_ok_client s0 w c (k_set_connection x k) Hw Hx Hs0)]. destruct Hv as (Ha & Hb & Hd & He & Hf & Hg).
    assert (v_clients (view_of s1) = v_clients (view_of s)) as Evc by (cbn; by apply (fmap_insert_same _ _ _ k)). unfold view_wf, resource_ok. rewrite Evc. exact (conj Ha (conj Hb (conj Hd (conj He (conj Hf Hg))))). }
  assert (registries_follow s1) as Hfol1.
  { intros q r k' Hq Er Ek' Hk'. cbn in *. apply lookup_insert_Some in Ek' as [[Ec <-]|[_ Ek']]; [by apply (Hfol q r k); try done; rewrite <- Ec|by apply (Hfol q r k')]. }
  assert (clients s1 !! c = Some (k_set_connection x k)) as Ek1 by (cbn; by rewrite lookup_insert_eq).
  destruct (for_each_destroys s1 c _ Hwf1 Hfol1 Ek1) as (s2 & k2 & E2 & Ek2 & Hwf2 & Hfol2 & (Hg & _ & _ & Hcl & Hback & Hkeep) & Hgone). cbn [k_set_connection k_objects] in E2. rewrite E2. cbn [mbind option_bind]. rewrite Ek2. cbn [mbind option_bind k_set_objects k_connection].
  pose proof Hwf2 as [Hv2 Hs2]. destruct (sink_destroy_law (k_connection k2) (remove_source c (world s2))) as (w3 & -> & Hw3); [apply source_calm; exact (Hs2 c k2 Ek2)|]. cbn [mbind option_bind].
  eexists. split; [done|]. set (s' := set_world _ _).
  assert (view_of s' = v_set_clients (view_of s2) (delete c (v_clients (view_of s2))) (v_resources (view_of s2))) as Ev' by (unfold view_of, v_set_clients; cbn; by rewrite fmap_delete).
  split_and!; [split|..|exact Hg| |exact Hgone| | |].
  - rewrite Ev'. apply view_wf_forget; [done|]. intros p r Hp. apply view_resource_inv in Hp as (r' & Hr' & ->). exact (Hgone p r' Hr').
  - intros c' k' Hk'. cbn in Hk'. apply lookup_delete_Some in Hk' as [_ Hk']. apply notify_calm, Hw3, source_calm. exact (Hs2 c' k' Hk').
  - intros q r k' Hq Er Ek' Hk'. cbn in *. apply lookup_delete_Some in Ek' as [_ Ek']. exact (Hfol2 q r k' Hq Er Ek' Hk').
  - cbn. by rewrite lookup_delete_eq.
  - rewrite Ev'. cbn. intros p r Hp Hr. apply Hkeep; done.
  - rewrite Ev'. exact Hback.
  - intros c' Hne Hc'. cbn. rewrite lookup_delete_ne by done. apply Hcl. cbn. by apply lookup_insert_is_Some'; right.
Qed.

(** ** Binding a global *)

(** Whether [registry_bind] calls the global's function. *)
Definition bindable s (client name : Z) (interface : list Z) (version : Z) : option wl_global :=
  g ← global_named name (global_list s);
  if bool_decide (str (if_name (g_interface g)) = interface) && (1 <=? version) && (version <=? g_version g) && wl_global_is_visible global_filter client g then Some g else None.

Lemma bind_error_spec s q r text : wf s → registries_follow s → resources s !! q = Some r → c_string text →
  ∃ s', (s ← wl_resource_post_error user_events log_closure q WL_DISPLAY_ERROR_INVALID_OBJECT text s; Some (None : option bind_call, s)) = Some (None, s') ∧
    wf s' ∧ registries_follow s' ∧ view_of s' = view_of s ∧ fixed s' = fixed s ∧ ∀ k', clients s' !! r_client r = Some k' → k_error k' = true ∨ k_display_resource k' = 0.
Proof.
  intros Hwf Hfol Er Ht. destruct (post_error_spec s q r WL_DISPLAY_ERROR_INVALID_OBJECT text Hwf Hfol Er Ht) as (s' & -> & Ev & Hwf' & Hfol' & Hfx & Hk). by exists s'.
Qed.

Lemma global_named_elem n l g : global_named n l = Some g → ∃ x, x ∈ l ∧ x.2 = g ∧ g_name g = n.
Proof.
  induction l as [|[a g'] l IH]; cbn [global_named]; [done|]. destruct (Z.eqb_spec (g_name g') n) as [E|_].
  - intros [= ->]. exists (a, g). split_and!; [constructor|done..].
  - intros (x & Hx & R)%IH. exists x. split; [by constructor|done].
Qed.
Lemma global_named_unique l x : NoDup (map (λ x, g_name x.2) l) → x ∈ l → global_named (g_name x.2) l = Some x.2.
Proof.
  induction l as [|[a g] l IH]; intros Hnd; [by intros ?%elem_of_nil|]. cbn [global_named]. intros Hx. destruct (Z.eqb_spec (g_name g) (g_name x.2)) as [E|Hne].
  - by rewrite (names_inj _ x (a, g) Hnd Hx ltac:(constructor)).
  - apply elem_of_cons in Hx as [->|Hx]; [done|]. cbn [map] in Hnd. apply NoDup_cons in Hnd as [_ Hnd]. by apply IH.
Qed.



Lemma registry_bind_spec s q r name interface version id : wf s → registries_follow s → resources s !! q = Some r → c_string interface →
  0 <= name < 2 ^ 32 → 0 <= version < 2 ^ 32 →
  ∃ o s', registry_bind user_events log_closure global_filter (r_client r) q name interface version id s = Some (o, s') ∧ wf s' ∧ registries_follow s' ∧ view_of s' = view_of s ∧ fixed s' = fixed s ∧
    match bindable s (r_client r) name interface version with
    | Some g => o = Some (mk_bind (r_client r) (g_data g) (g_bind g) version id) ∧ s' = s
    | None => o = None ∧ ∀ k', clients s' !! r_client r = Some k' → k_error k' = true ∨ k_display_resource k' = 0
    end.
Proof.
  intros Hwf Hfol Er Hi Hn Hv. unfold registry_bind, bindable.
  assert (∀ text, c_string text → ∃ o s', (s ← wl_resource_post_error user_events log_closure q WL_DISPLAY_ERROR_INVALID_OBJECT text s; Some (None : option bind_call, s)) = Some (o, s') ∧
    wf s' ∧ registries_follow s' ∧ view_of s' = view_of s ∧ fixed s' = fixed s ∧ o = None ∧ ∀ k', clients s' !! r_client r = Some k' → k_error k' = true ∨ k_display_resource k' = 0) as Herr.
  { intros text Ht. destruct (bind_error_spec s q r text Hwf Hfol Er Ht) as (s' & E & Ha & Hb & Hc & Hd & He). exists None, s'. by split_and!. }
  assert (c_string (fmt_u name)) as Hfu by (apply c_string_fmt_u; lia).
  destruct (global_named name (global_list s)) as [g|] eqn:Eg; cbn [mbind option_bind].
  2: { apply Herr. c_text. }
  assert (c_string (str (if_name (g_interface g)))) as Hgs.
  { destruct (global_named_elem _ _ _ Eg) as (x & Hx & <- & _). destruct Hwf as [(_ & (_ & _ & Hf) & _) _]. rewrite Forall_forall in Hf. by destruct (Hf x Hx) as (_ & [? _]). }
  case_bool_decide as Ei; [rewrite bool_decide_eq_false_2 by congruence; cbn [andb]; apply Herr; c_text|].
  rewrite bool_decide_eq_true_2 by done. cbn [andb].
  destruct (Z.eqb_spec version 0) as [->|Hv0]; [cbn [Z.leb Z.compare andb]; apply Herr; c_text|].
  rewrite (proj2 (Z.leb_le 1 version)) by lia. cbn [andb]. rewrite Z.leb_antisym. destruct (g_version g <? version); cbn [negb andb]; [apply Herr; c_text|].
  destruct (wl_global_is_visible global_filter (r_client r) g); cbn [negb]; [|apply Herr; c_text].
  eexists _, s. by split_and!.
Qed.

(** What a registry has announced can be bound. *)
Lemma announced_bindable s client name interface version v : wf s →
  announced global_filter client (global_list s) !! name = Some (interface, v) → 1 <= version <= v → ∃ g, bindable s client name interface version = Some g ∧ g_name g = name.
Proof.
  intros [(_ & (_ & Hnd & _) & _) _] Ha Hv. apply announced_lookup in Ha as (x & Hx & En & Hvis & _ & [= -> ->]); [|done]. exists x.2. split; [|done]. unfold bindable. rewrite <- En, global_named_unique by done. cbn [mbind option_bind].
  rewrite bool_decide_eq_true_2 by done. by rewrite (proj2 (Z.leb_le 1 version)), (proj2 (Z.leb_le version _)), Hvis by lia.
Qed.

(** ** Sessions *)

(** What a compositor and its clients do, in any order. *)
Inductive server_op : Type :=
  | OpConnect (fd : Z)
  | OpDisconnect (client : Z)
  | OpCreateGlobal (interface : wl_interface) (version data bind : Z)
  | OpRemoveGlobal (global : Z)
  | OpDestroyGlobal (global : Z)
  | OpGetRegistry (client id : Z)
  | OpBind (registry name : Z) (interface : list Z) (version id : Z)
  | OpSync (client id : Z)
  | OpDestroyResource (resource : Z)
  | OpPostError (resource code : Z) (text : list Z)
  | OpCreateResource (client : Z) (interface : wl_interface) (version id : Z)
  | OpSetImplementation (resource : Z) (impl : implementation) (data : Z) (destroy : destructor)
  | OpSetDispatcher (resource : Z) (dispatcher : option Z) (impl : implementation) (data : Z) (destroy : destructor)
  | OpPostEvent (resource opcode : Z) (args : list wl_argument)
  | OpQueueEvent (resource opcode : Z) (args : list wl_argument)
  | OpNextSerial.

Definition server_step (op : server_op) s : option (server C W) :=
  match op with
  | OpConnect fd => snd <$> wl_client_create user_events description address notify log_closure open_connection remove_source fd s
  | OpDisconnect c => wl_client_destroy user_events notify user_destroy log_closure remove_source c s
  | OpCreateGlobal i v d b => snd <$> wl_global_create user_events if_version address log_closure global_filter i v d b s
  | OpRemoveGlobal g => wl_global_remove user_events log_closure global_filter g s
  | OpDestroyGlobal g => wl_global_destroy user_events log_closure global_filter g s
  | OpGetRegistry c id => display_get_registry user_events description address notify log_closure global_filter c id s
  | OpBind q n i v id => r ← resources s !! q; snd <$> registry_bind user_events log_closure global_filter (r_client r) q n i v id s
  | OpSync c id => display_sync user_events description address notify user_destroy log_closure c id s
  | OpDestroyResource p => wl_resource_destroy user_events notify user_destroy log_closure p s
  | OpPostError p code text => wl_resource_post_error user_events log_closure p code text s
  | OpCreateResource c i v id => snd <$> wl_resource_create user_events address notify log_closure c i v id s
  | OpSetImplementation p impl data d => wl_resource_set_implementation p impl data d s
  | OpSetDispatcher p f impl data d => wl_resource_set_dispatcher p f impl data d s
  | OpPostEvent p opcode args => wl_resource_post_event_array user_events log_closure p opcode args s
  | OpQueueEvent p opcode args => wl_resource_queue_event_array user_events log_closure p opcode args s
  | OpNextSerial => Some (snd (wl_display_next_serial s))
  end.

(** An event of the compositor: not one of a registry, which only the library
    sends. *)
Definition event_allowed (p opcode : Z) (args : list wl_argument) s : Prop := ∃ r message, resources s !! p = Some r ∧ p ∉ registry_resource_list s ∧
  events user_events (o_interface (r_object r)) !! Z.to_nat opcode = Some message ∧ event_ok s message args.

(** What the functions ask of their callers: the pointers are valid, a global
    is removed once, a new id is one the client has not used, the resources and
    destructors of the library are left to it, the arguments of an event are
    those of its signature. *)
Definition op_allowed (op : server_op) s : Prop :=
  match op with
  | OpConnect _ => True
  | OpDisconnect c => c ∈ client_list s ∧ is_Some (clients s !! c)
  | OpCreateGlobal i _ _ _ => text_ok (str (if_name i))
  | OpRemoveGlobal g => ∃ x, find_global g (global_list s) = Some x ∧ g_removed x = false
  | OpDestroyGlobal g => is_Some (find_global g (global_list s))
  | OpGetRegistry c id | OpSync c id | OpCreateResource c _ _ id => ∃ k, clients s !! c = Some k ∧ k_display_resource k ≠ 0 ∧ id_free k id
  | OpBind q n i v _ => is_Some (resources s !! q) ∧ c_string i ∧ 0 <= n < 2 ^ 32 ∧ 0 <= v < 2 ^ 32
  | OpDestroyResource p => is_Some (resources s !! p)
  | OpPostError p _ text => is_Some (resources s !! p) ∧ c_string text
  | OpSetImplementation p _ _ d | OpSetDispatcher p _ _ _ d => ∃ r, resources s !! p = Some r ∧ users_own (r_destroy r) ∧ users_own d
  | OpPostEvent p opcode args | OpQueueEvent p opcode args => event_allowed p opcode args s
  | OpNextSerial => True
  end.

Fixpoint server_run (ops : list server_op) s : option (server C W) :=
  match ops with [] => Some s | op :: ops => s ← server_step op s; server_run ops s end.
Fixpoint ops_allowed (ops : list server_op) s : Prop :=
  match ops with [] => True | op :: ops => op_allowed op s ∧ ∀ s', server_step op s = Some s' → ops_allowed ops s' end.

Lemma event_step_spec now p opcode args s : wf s → registries_follow s → event_allowed p opcode args s →
  ∃ s', handle_array user_events log_closure now p opcode args s = Some s' ∧ wf s' ∧ registries_follow s'.
Proof.
  intros Hwf Hfol (r & message & Er & Hp & Em & Ha). destruct (wf_resource s p r Hwf Er) as (_ & _ & _ & (k & Ek) & _). pose proof Hwf as [_ Hs].
  destruct (handle_event_spec now s p r k opcode message args Hs Er Ek Em Ha) as (s' & E & Hdel & Hs' & _). exists s'. pose proof Hdel as (Ev & _).
  split_and!; [done|by apply (wf_view s)|by eapply follow_delivers].
Qed.

Lemma server_step_spec op s : wf s → registries_follow s → op_allowed op s → ∃ s', server_step op s = Some s' ∧ wf s' ∧ registries_follow s'.
Proof.
  intros Hwf Hfol Hop. destruct op as [fd|c|i v d b|g|g|c id|q n i v id|c id|p|p code text|c i v id|p impl data d|p f impl data d|p opcode args|p opcode args|]; cbn [server_step op_allowed] in *.
  - destruct (client_create_spec s fd Hwf Hfol) as (c & s' & -> & ? & ? & _). by exists s'.
  - destruct Hop as [Hc [k Ek]]. destruct (client_destroy_spec s c k Hwf Hfol Ek Hc) as (s' & -> & ? & ? & _). by exists s'.
  - destruct (global_create_spec i v d b s Hwf Hfol Hop) as (g & s' & -> & ? & ? & _). by exists s'.
  - destruct Hop as (x & Hx & Hr). destruct (global_remove_spec g x s Hwf Hfol Hx Hr) as (s' & -> & ? & ? & _). by exists s'.
  - destruct Hop as [x Hx]. destruct (global_destroy_spec g x s Hwf Hfol Hx) as (s' & -> & ? & ? & _). by exists s'.
  - destruct Hop as (k & Ek & Hd & Hid). destruct (get_registry_spec s c k id Hwf Hfol Ek Hd Hid) as (s' & -> & ? & ? & _). by exists s'.
  - destruct Hop as ([r Er] & Hi & Hn & Hv). rewrite Er. cbn [mbind option_bind]. destruct (registry_bind_spec s q r n i v id Hwf Hfol Er Hi Hn Hv) as (o & s' & -> & ? & ? & _). by exists s'.
  - destruct Hop as (k & Ek & Hd & Hid). destruct (sync_spec s c k id Hwf Hfol Ek Hd Hid) as (s' & -> & ? & ? & _). by exists s'.
  - destruct Hop as [r Er]. destruct (destroy_resource_spec s p r Hwf Hfol Er) as (s' & -> & ? & ? & _). by exists s'.
  - destruct Hop as [[r Er] Ht]. destruct (post_error_spec s p r code text Hwf Hfol Er Ht) as (s' & -> & _ & ? & ? & _). by exists s'.
  - destruct Hop as (k & Ek & Hd & Hid). destruct (resource_create_spec s c k i v id Hwf Hfol Ek (or_introl Hd) Hid) as (p & s' & -> & ? & ? & _). by exists s'.
  - destruct Hop as (r & Er & Hu & Hd). unfold wl_resource_set_implementation. rewrite Er. eexists. split; [done|]. by apply set_implementation_spec.
  - destruct Hop as (r & Er & Hu & Hd). unfold wl_resource_set_dispatcher. rewrite Er. eexists. split; [done|]. by apply set_implementation_spec.
  - by apply event_step_spec.
  - by apply event_step_spec.
  - eexists. split; [done|]. split; [|exact Hfol]. destruct Hwf as [(Ha & Hb & Hc & Hd & He & Hf) Hs]. split; [exact (conj Ha (conj Hb (conj Hc (conj Hd (conj He Hf)))))|exact Hs].
Qed.

Lemma server_run_spec ops s : wf s → registries_follow s → ops_allowed ops s → ∃ s', server_run ops s = Some s' ∧ wf s' ∧ registries_follow s'.
Proof.
  revert s. induction ops as [|op ops IH]; intros s Hwf Hfol; cbn [server_run ops_allowed]; [by exists s|]. intros [Hop Hops].
  destruct (server_step_spec op s Hwf Hfol Hop) as (s1 & E & Hwf1 & Hfol1). rewrite E. cbn [mbind option_bind]. by apply IH; [..|apply Hops].
Qed.

(** A display just created. *)
Definition empty_server (w : W) : server C W := mk_server 1 0 [] [] [] ∅ ∅ w.
Lemma empty_wf w : wf (empty_server w) ∧ registries_follow (empty_server w).
Proof.
  split; [split|]; [|done|intros q r k Hq; by apply elem_of_nil in Hq]. unfold view_wf. cbn.
  refine (conj (conj (Z.le_refl 1) _) (conj (conj NoDup_nil_2 (conj NoDup_nil_2 (Forall_nil_2 _))) (conj NoDup_nil_2 (conj _ (conj _ _))))).
  - done.
  - intros q Hq. by apply elem_of_nil in Hq.
  - intros p r. by rewrite fmap_empty, lookup_empty.
  - intros c d m. by rewrite fmap_empty, lookup_empty.
Qed.

(** C5: A compositor and its clients connect and disconnect, create, remove
    and destroy globals, ask for registries, bind, sync, create resources under
    ids of the client, give them implementations and dispatchers, destroy them,
    send events without descriptors to them, post errors and take serials, in
    any order, within what the functions ask of their callers; destructors,
    listeners and loggers are functions on the world that do not call the server
    back.  Then every operation returns, and at every point, for each registry
    of a client that is not in error, the events it has received, applied in
    their order, give exactly the globals there are for the client: those that
    exist, are not removed and are visible to it, with their interface and
    version under a name of their own; each of these can be bound by that name
    with its interface and any version up to its own.  And the object map of
    every client holds exactly its live resources, each under its id. *)
Theorem registry_session ops w : ops_allowed ops (empty_server w) → ∃ s, server_run ops (empty_server w) = Some s ∧ wf s ∧
  ∀ q r k, q ∈ registry_resource_list s → resources s !! q = Some r → clients s !! r_client r = Some k → k_error k = false →
    registry_view (r_events r) = announced global_filter (r_client r) (global_list s) ∧
    ∀ name interface v version, registry_view (r_events r) !! name = Some (interface, v) → 1 <= version <= v →
      ∃ g, bindable s (r_client r) name interface version = Some g ∧ g_name g = name.
Proof.
  intros Hops. destruct (empty_wf w) as [Hwf Hfol]. destruct (server_run_spec ops _ Hwf Hfol Hops) as (s & E & Hwf' & Hfol'). exists s. split_and!; [done..|].
  intros q r k Hq Er Ek Hk. pose proof (Hfol' q r k Hq Er Ek Hk) as Hv. split; [done|]. intros name interface v version Hn Hver. rewrite Hv in Hn. by eapply announced_bindable.
Qed.

(** C18: [registry_bind] calls the function of the global with that name
    exactly when its interface is the one asked for, the version is at least
    one and at most its own, and it is visible to the client; nothing else
    changes then.  In every other case the client is told the error and is
    in error, and no function is called. *)
Theorem registry_bind_checks s q r name interface version id : wf s → registries_follow s → resources s !! q = Some r → c_string interface →
  0 <= name < 2 ^ 32 → 0 <= version < 2 ^ 32 →
  ∃ o s', registry_bind user_events log_closure global_filter (r_client r) q name interface version id s = Some (o, s') ∧ wf s' ∧
    match bindable s (r_client r) name interface version with
    | Some g => o = Some (mk_bind (r_client r) (g_data g) (g_bind g) version id) ∧ s' = s
    | None => o = None ∧ ∀ k', clients s' !! r_client r = Some k' → k_error k' = true ∨ k_display_resource k' = 0
    end.
Proof.
  intros Hwf Hfol Er Hi Hn Hv. destruct (registry_bind_spec s q r name interface version id Hwf Hfol Er Hi Hn Hv) as (o & s' & E & Hwf' & _ & _ & _ & R). by exists o, s'.
Qed.

(** C28: Destroying a client destroys all its resources and removes it; the
    resources of other clients, the globals and the other clients stay, and
    what the registries have been told still holds. *)
Theorem client_destroy_complete s c k : wf s → registries_follow s → clients s !! c = Some k → c ∈ client_list s →
  ∃ s', wl_client_destroy user_events notify user_destroy log_closure remove_source c s = Some s' ∧ wf s' ∧ registries_follow s' ∧
    global_list s' = global_list s ∧ clients s' !! c = None ∧ (∀ p r, resources s' !! p = Some r → r_client r ≠ c) ∧
    (∀ p r, v_resources (view_of s) !! p = Some r → r_client r ≠ c → v_resources (view_of s') !! p = Some r) ∧
    (∀ p r, v_resources (view_of s') !! p = Some r → v_resources (view_of s) !! p = Some r) ∧
    (∀ c', c' ≠ c → is_Some (clients s !! c') → is_Some (clients s' !! c')).
Proof. intros. by eapply client_destroy_spec. Qed.
End spec.
