(* ===== verification/WlServerRun.v ===== *)
(** * A display in use

    A concrete run of the server of [WlServer] on connections of
    [WlConnection] and the simulated system of [OsSim], as an instance of the
    theorems of [WlServerSpec]. *)

From stdpp Require Import strings.
From S2P Require Import Prelude Decimal Os OsSim WlOs WlRing WlConnection WlSession WlArray WlMap WlMessage WlClosure WlTransmit WlPrint WlServer WlServerSpec.
Open Scope Z_scope.

(** The lowest free block of a memory of 64 blocks. *)
Definition pick (X : gset Z) : option Z := head (filter (λ a, a ∉ X) (map (λ n, 4 * (Z.of_nat n + 1)) (seq 0 64))).

Lemma pick_ok X p : pick X = Some p → p ∉ X ∧ ptr_ok p ∧ p ≠ 0.
Proof.
  intros E. assert (p ∈ filter (λ a, a ∉ X) (map (λ n, 4 * (Z.of_nat n + 1)) (seq 0 64))) as Hp.
  { unfold pick in E. destruct (filter _ _) as [|a l]; [done|]. injection E as ->. constructor. }
  apply list_elem_of_filter in Hp as [Hp (n & -> & Hn%elem_of_seq)%list_elem_of_fmap]. split; [exact Hp|].
  rewrite (Z.mul_comm 4). unfold ptr_ok. rewrite Z.mod_mul by done. split_and!; lia.
Qed.

Definition demo_fuel : nat := Z.to_nat 20000.
#[local] Instance demo_sink : EventSink wl_connection sim := connection_sink demo_fuel.
Lemma demo_fuel_ok : (Z.to_nat (2 ^ 12) + 2 < demo_fuel)%nat.
Proof. unfold demo_fuel. lia. Qed.
#[local] Instance demo_sink_laws : EventSinkLaws wl_connection sim := connection_sink_laws 12 2 demo_fuel ltac:(lia) demo_fuel_ok.

Definition demo_open (fd : Z) (w : sim) : option wl_connection * sim :=
  if (eintr_budget w <=? 2)%nat then (Some (fst demo_conn), w) else (None, w).
Lemma demo_open_ok fd w : sinks_kept w (demo_open fd w).2 ∧ ∀ x, (demo_open fd w).1 = Some x → sink_ok x (demo_open fd w).2.
Proof.
  unfold demo_open. destruct (Nat.leb_spec (eintr_budget w) 2); cbn [fst snd]; (split; [by intros d|]); [|done]. intros x [= <-]. split_and!; [exact demo_conn_inv| |done]. apply (bool_decide_unpack _). vm_compute. exact I.
Qed.

Definition demo_events (i : wl_interface) : list wl_message :=
  if bool_decide (if_name i = "wl_seat") then [mk_message "capabilities" "u" [None]; mk_message "name" "s" [None]] else [].
Definition demo_version (_ : wl_interface) : Z := 5.
Definition demo_description (_ : string) : Z := 0.
Definition demo_notify (_ : Z) (w : sim) : sim := w.
Definition demo_user_destroy (_ _ : Z) (w : sim) : sim := w.
Definition demo_log (_ : Z) (_ : wl_closure) (_ : bool) (w : sim) : sim := w.
Definition demo_remove_source (_ : Z) (w : sim) : sim := w.
Definition demo_filter : option (Z → wl_global → bool) := Some (λ _ g, negb (g_data g =? 66)).

Definition demo_step : server_op → server wl_connection sim → option (server wl_connection sim) :=
  server_step demo_events demo_version demo_description pick demo_notify demo_user_destroy demo_log demo_open demo_remove_source demo_filter.


#[local] Notation demo_run := (server_run demo_events demo_version demo_description pick demo_notify demo_user_destroy demo_log demo_open demo_remove_source demo_filter).
#[local] Notation demo_allowed := (ops_allowed demo_events demo_version demo_description pick demo_notify demo_user_destroy demo_log demo_open demo_remove_source demo_filter).

Lemma demo_calm (w : sim) : sinks_kept w w.
Proof. by intros d. Qed.

(** *** What the operations ask of their callers, decided *)

Definition id_check (c id : Z) (s : server wl_connection sim) : bool :=
  match clients s !! c with
  | Some k => negb (k_display_resource k =? 0) && (0 <? id) && (id <? WL_SERVER_ID_START) && bool_decide (wl_map_lookup (k_objects k) id = Some 0)
  | None => false
  end.
Definition user_check (heap : Z → option wl_object) (t : wl_arg_type) (a : wl_argument) : bool :=
  match t, a with
  | WL_ARG_INT, arg_i _ | WL_ARG_UINT, arg_u _ | WL_ARG_FIXED, arg_f _ | WL_ARG_ARRAY, arg_a _ | WL_ARG_STRING, arg_s None => true
  | WL_ARG_STRING, arg_s (Some t) => bool_decide (Forall (λ b, 0 < b < 256) t)
  | WL_ARG_OBJECT, arg_o o | WL_ARG_NEW_ID, arg_o o => (o =? 0) || bool_decide (is_Some (heap o))
  | _, _ => false
  end.
Fixpoint args_check (heap : Z → option wl_object) (ps : list (wl_arg_type * bool)) (args : list wl_argument) : bool :=
  match ps, args with
  | [], _ => true
  | (t, _) :: ps, a :: args => user_check heap t a && args_check heap ps args
  | _, _ => false
  end.
Definition event_check (p opcode : Z) (args : list wl_argument) (s : server wl_connection sim) : bool :=
  match resources s !! p with
  | None => false
  | Some r =>
      match events demo_events (o_interface (r_object r)) !! Z.to_nat opcode with
      | None => false
      | Some message =>
          let ps := parse_signature (msg_signature message) in
          bool_decide (p ∉ registry_resource_list s) && args_check (heap s) ps (take (length ps) args) &&
          bool_decide (length ps <= length args)%nat && (2 + args_words ps (take (length ps) args) <? 2 ^ 28)
      end
  end.
Definition own_check (d : destructor) : bool := bool_decide (d ≠ unbind_resource) && bool_decide (d ≠ destroy_client_display_resource).
Definition implement_check (p : Z) (d : destructor) (s : server wl_connection sim) : bool :=
  match resources s !! p with Some r => own_check (r_destroy r) && own_check d | None => false end.
Definition op_check (op : server_op) (s : server wl_connection sim) : bool :=
  match op with
  | OpConnect _ => true
  | OpDisconnect c => bool_decide (c ∈ client_list s) && bool_decide (is_Some (clients s !! c))
  | OpCreateGlobal i _ _ _ => bool_decide (Forall (λ b, 0 < b < 256) (str (if_name i))) && (Z.of_nat (length (str (if_name i))) <=? 2 ^ 20)
  | OpRemoveGlobal g => match find_global g (global_list s) with Some x => negb (g_removed x) | None => false end
  | OpDestroyGlobal g => bool_decide (is_Some (find_global g (global_list s)))
  | OpGetRegistry c id | OpSync c id | OpCreateResource c _ _ id => id_check c id s
  | OpBind q n i v _ => bool_decide (is_Some (resources s !! q)) && bool_decide (Forall (λ b, 0 < b < 256) i) && bool_decide (0 <= n < 2 ^ 32) && bool_decide (0 <= v < 2 ^ 32)
  | OpDestroyResource p => bool_decide (is_Some (resources s !! p))
  | OpPostError p _ text => bool_decide (is_Some (resources s !! p)) && bool_decide (Forall (λ b, 0 < b < 256) text)
  | OpSetImplementation p _ _ d | OpSetDispatcher p _ _ _ d => implement_check p d s
  | OpPostEvent p opcode args | OpQueueEvent p opcode args => event_check p opcode args s
  | OpNextSerial => true
  end.
Fixpoint ops_check (ops : list server_op) (s : server wl_connection sim) : bool :=
  match ops with [] => true | op :: ops => op_check op s && match demo_step op s with Some s' => ops_check ops s' | None => true end end.

Lemma id_check_sound c id s : id_check c id s = true → ∃ k, clients s !! c = Some k ∧ k_display_resource k ≠ 0 ∧ id_free k id.
Proof.
  unfold id_check. destruct (clients s !! c) as [k|]; [|done]. rewrite !andb_true_iff, negb_true_iff, Z.eqb_neq, !Z.ltb_lt, bool_decide_eq_true.
  intros [[[? ?] ?] ?]. exists k. unfold id_free. tauto.
Qed.
Lemma args_check_sound heap ps args : args_check heap ps args = true → plain ps ∧ user_args heap ps args.
Proof.
  revert args. induction ps as [|[t b] ps IH]; intros args; [by split; [constructor|]|]. destruct args as [|a args]; [done|]. cbn [args_check].
  intros [Ha Hs]%andb_true_iff. destruct (IH _ Hs) as [Hp Hu]. assert (t ≠ WL_ARG_FD ∧ user_typed heap t a) as [Ht Hta]; [|by split; [constructor|split]].
  split; [by intros ->|]. destruct t, a; try done; cbn in Ha |- *; try (by eexists).
  - eexists. split; [done|]. intros t ->. by apply bool_decide_eq_true in Ha.
  - apply orb_true_iff in Ha as [->%Z.eqb_eq|Ha%bool_decide_eq_true]; eexists; (split; [done|]); [by left|by right].
  - apply orb_true_iff in Ha as [->%Z.eqb_eq|Ha%bool_decide_eq_true]; eexists; (split; [done|]); [by left|by right].
Qed.
Lemma event_check_sound p opcode args s : event_check p opcode args s = true → event_allowed demo_events p opcode args s.
Proof.
  unfold event_check. destruct (resources s !! p) as [r|] eqn:Er; [|done]. destruct (events demo_events _ !! _) as [message|] eqn:Em; [|done].
  rewrite !andb_true_iff, !bool_decide_eq_true, Z.ltb_lt. intros [[[Hp [Hpl Hu]%args_check_sound] Hl] Hw]. exists r, message. by split_and!.
Qed.
Lemma implement_check_sound p d s : implement_check p d s = true → ∃ r, resources s !! p = Some r ∧ users_own (r_destroy r) ∧ users_own d.
Proof.
  unfold implement_check, own_check. destruct (resources s !! p) as [r|]; [|done]. rewrite !andb_true_iff, !bool_decide_eq_true. intros [? ?]. by exists r.
Qed.
Lemma op_check_sound op s : op_check op s = true → op_allowed demo_events op s.
Proof.
  destruct op; cbn [op_check op_allowed]; rewrite ?andb_true_iff, ?bool_decide_eq_true.
  - done.
  - done.
  - by rewrite Z.leb_le.
  - destruct (find_global global (global_list s)) as [x|]; [|done]. intros ?%negb_true_iff. by exists x.
  - done.
  - apply id_check_sound.
  - tauto.
  - apply id_check_sound.
  - done.
  - tauto.
  - apply id_check_sound.
  - apply implement_check_sound.
  - apply implement_check_sound.
  - apply event_check_sound.
  - apply event_check_sound.
  - done.
Qed.
Lemma ops_check_sound ops s : ops_check ops s = true → demo_allowed ops s.
Proof.
  revert s. induction ops as [|op ops IH]; intros s; [done|]. cbn. intros [Ha Hb]%andb_true_iff. split; [by apply op_check_sound|].
  intros s' E. unfold demo_step in Hb. rewrite E in Hb. by apply IH.
Qed.

(** *** The run *)

(** A client connects to a display with one global and asks for a registry; a
    second global is hidden from it by the filter. *)
Definition demo_compositor : wl_interface := mk_interface 1000 "wl_compositor".
Definition demo_seat : wl_interface := mk_interface 1001 "wl_seat".
Definition demo_setup : list server_op := [OpConnect 3; OpCreateGlobal demo_compositor 4 1 1; OpGetRegistry 4 2; OpCreateGlobal demo_seat 5 66 2].
(** Then a seat it may see appears and is bound, its resource is created and
    sent events, the compositor goes away, the seat's resource and the registry
    are destroyed, the client is told an error and leaves. *)
Definition demo_use : list server_op :=
  [OpCreateGlobal demo_seat 5 7 2; OpBind 8 3 (str "wl_seat") 5 9; OpSync 4 3; OpCreateResource 4 demo_seat 5 3;
   OpSetImplementation 12 (UserImplementation 1) 0 (UserDestroy 1); OpPostEvent 12 0 [arg_u 3]; OpQueueEvent 12 1 [arg_s (Some (str "seat0"))]; OpRemoveGlobal 4; OpNextSerial;
   OpDestroyGlobal 4; OpDestroyResource 12; OpDestroyResource 8; OpPostError 4 1 (str "no"); OpDisconnect 4].

Definition demo_state : server wl_connection sim := default (empty_server demo_world) (demo_run demo_setup (empty_server demo_world)).
Lemma demo_setup_allowed : demo_allowed demo_setup (empty_server demo_world).
Proof. apply ops_check_sound. vm_compute. reflexivity. Qed.
Lemma demo_display_ok : wf demo_state ∧ registries_follow demo_filter demo_state.
Proof.
  destruct (empty_wf (C := wl_connection) demo_filter demo_world) as [Hwf Hfol].
  destruct (server_run_spec demo_events demo_version demo_description pick demo_notify demo_user_destroy demo_log demo_open demo_remove_source demo_filter
    (λ _, demo_calm) (λ _ _, demo_calm) (λ _ _ _, demo_calm) (λ _, demo_calm) demo_open_ok pick_ok demo_setup _ Hwf Hfol demo_setup_allowed) as (s & E & Hs).
  unfold demo_state. by rewrite E.
Qed.
Lemma demo_registry : ∃ r, resources demo_state !! 8 = Some r ∧ r_client r = 4.
Proof.
  assert (r_client <$> resources demo_state !! 8 = Some 4) as (r & E & Er)%fmap_Some by (apply (bool_decide_unpack _); vm_compute; exact I). exists r. exact (conj E (eq_sym Er)).
Qed.
Lemma demo_client : ∃ k, clients demo_state !! 4 = Some k ∧ 4 ∈ client_list demo_state.
Proof.
  assert (is_Some (clients demo_state !! 4)) as [k E] by (apply (bool_decide_unpack _); vm_compute; exact I). exists k. refine (conj E _).
  apply (bool_decide_unpack _). vm_compute. exact I.
Qed.

#[local] Opaque demo_state.

Lemma registry_session_witness : ∃ s, demo_run (demo_setup ++ demo_use) (empty_server demo_world) = Some s ∧ wf s.
Proof.
  destruct (registry_session demo_events demo_version demo_description pick demo_notify demo_user_destroy demo_log demo_open demo_remove_source demo_filter
    (λ _, demo_calm) (λ _ _, demo_calm) (λ _ _ _, demo_calm) (λ _, demo_calm) demo_open_ok pick_ok (demo_setup ++ demo_use) demo_world
    ltac:(apply ops_check_sound; vm_compute; reflexivity)) as (s & E & Hwf & _).
  exists s. exact (conj E Hwf).
Defined.

(** Version 3 of the compositor can be bound; the hidden seat cannot. *)
Lemma registry_bind_checks_witness :
  (∃ s', registry_bind demo_events demo_log demo_filter 4 8 1 (str "wl_compositor") 3 9 demo_state = Some (Some (mk_bind 4 1 1 3 9), s')) ∧
  (∃ s', registry_bind demo_events demo_log demo_filter 4 8 2 (str "wl_seat") 3 9 demo_state = Some (None, s')).
Proof.
  destruct demo_display_ok as [Hwf Hfol]. destruct demo_registry as (r & Er & Ec).
  pose proof (λ n i v Hi Hn Hv, registry_bind_checks demo_events pick demo_notify demo_user_destroy demo_log demo_open demo_remove_source demo_filter
    (λ _, demo_calm) (λ _ _, demo_calm) (λ _ _ _, demo_calm) (λ _, demo_calm) demo_open_ok pick_ok demo_state 8 r n i v 9 Hwf Hfol Er Hi Hn Hv) as H.
  rewrite Ec in H. split.
  - destruct (H 1 (str "wl_compositor") 3) as (o & s' & E & _ & R); [by apply (bool_decide_unpack _)|lia|lia|].
    assert (bindable demo_filter demo_state 4 1 (str "wl_compositor") 3 = Some (mk_global demo_compositor 1 4 1 1 false)) as B by (vm_compute; reflexivity).
    rewrite B in R. exists s'. rewrite (proj1 R) in E. exact E.
  - destruct (H 2 (str "wl_seat") 3) as (o & s' & E & _ & R); [by apply (bool_decide_unpack _)|lia|lia|].
    assert (bindable demo_filter demo_state 4 2 (str "wl_seat") 3 = None) as B by (vm_compute; reflexivity).
    rewrite B in R. exists s'. rewrite (proj1 R) in E. exact E.
Defined.

Lemma client_destroy_complete_witness : ∃ s', wl_client_destroy demo_events demo_notify demo_user_destroy demo_log demo_remove_source 4 demo_state = Some s' ∧
  clients s' !! 4 = None ∧ global_list s' = global_list demo_state.
Proof.
  destruct demo_display_ok as [Hwf Hfol]. destruct demo_client as (k & Ek & Hin).
  destruct (client_destroy_complete demo_events pick demo_notify demo_user_destroy demo_log demo_open demo_remove_source demo_filter
    (λ _, demo_calm) (λ _ _, demo_calm) (λ _ _ _, demo_calm) (λ _, demo_calm) demo_open_ok pick_ok demo_state 4 k Hwf Hfol Ek Hin) as (s' & E & _ & _ & Hg & Hc & _).
  exists s'. exact (conj E (conj Hc Hg)).
Defined.
