(* ===== verification/WlTimer.v ===== *)
(** * The timer heap of the event loop

    Models [struct wl_timer_heap] and its operations
    (wayland/build/src/event-loop.c, lines 224-547 and 601-653): a binary heap
    of pointers to timers ordered by deadline, each timer holding its index in
    the heap.  The counters and indices are [int]s, whose overflow is undefined
    ([None]).  Timers are addresses into a store; the clock and the timerfd are
    the operating system's.  The abstract view of the heap is the list of the
    armed timers; the lemmas say that every operation keeps it a heap with
    consistent indices, and that dispatching runs exactly the timers that are
    due, earliest first. *)

From S2P Require Import Prelude Os OsSim WlOs.
Open Scope Z_scope.

(** ** Data *)

Record timespec : Type := mk_ts { tv_sec : Z; tv_nsec : Z }.

#[export] Instance timespec_eq_dec : EqDecision timespec.
Proof. solve_decision. Defined.

(** [struct wl_event_source_timer], without the callback, which is named by the
    timer's address. *)
Record timer : Type := mk_timer {
  t_fd : Z;                  (* base.fd: -1, or TIMER_REMOVED *)
  t_deadline : timespec;
  t_heap_idx : Z;
  t_next_due : Z             (* 0 for NULL *)
}.

Definition TIMER_REMOVED : Z := -2.

Definition t_set_fd (fd : Z) (t : timer) : timer :=
  mk_timer fd (t_deadline t) (t_heap_idx t) (t_next_due t).
Definition t_set_deadline (d : timespec) (t : timer) : timer :=
  mk_timer (t_fd t) d (t_heap_idx t) (t_next_due t).
Definition t_set_idx (i : Z) (t : timer) : timer :=
  mk_timer (t_fd t) (t_deadline t) i (t_next_due t).
Definition t_set_next (n : Z) (t : timer) : timer :=
  mk_timer (t_fd t) (t_deadline t) (t_heap_idx t) n.

Notation store := (gmap Z timer).

Record wl_timer_heap : Type := mk_heap {
  th_fd : Z;                 (* base.fd, the timerfd *)
  th_data : list Z;          (* pointers, [space] of them *)
  th_space : Z;
  th_active : Z;
  th_count : Z
}.

Definition th_set_fd (fd : Z) (h : wl_timer_heap) : wl_timer_heap :=
  mk_heap fd (th_data h) (th_space h) (th_active h) (th_count h).
Definition th_set_data (d : list Z) (h : wl_timer_heap) : wl_timer_heap :=
  mk_heap (th_fd h) d (th_space h) (th_active h) (th_count h).
Definition th_set_active (n : Z) (h : wl_timer_heap) : wl_timer_heap :=
  mk_heap (th_fd h) (th_data h) (th_space h) n (th_count h).
Definition th_set_count (n : Z) (h : wl_timer_heap) : wl_timer_heap :=
  mk_heap (th_fd h) (th_data h) (th_space h) (th_active h) n.
Definition th_resize (d : list Z) (space : Z) (h : wl_timer_heap) : wl_timer_heap :=
  mk_heap (th_fd h) d space (th_active h) (th_count h).

(** The clock and the timer descriptor. *)
Class OsTimer (W : Type) := {
  os_clock_gettime : W → timespec * W;
  os_timerfd_create : W → cres Z * W;
  (* the boolean is [TFD_TIMER_ABSTIME] *)
  os_timerfd_settime : Z → bool → timespec → W → cres unit * W
}.

(** The result of a computation on [int]s. *)
Definition c_int (x : Z) : option Z := if (- 2 ^ 31 <=? x) && (x <? 2 ^ 31) then Some x else None.

(** With no more timers than this no computation of the heap overflows: the
    largest is four times their number. *)
Definition MAX_TIMERS : Z := 2 ^ 29.

Lemma c_int_ok x : - 2 ^ 31 <= x < 2 ^ 31 → c_int x = Some x.
Proof. intros Hx. unfold c_int. by rewrite (proj2 (Z.leb_le _ _)), (proj2 (Z.ltb_lt _ _)) by lia. Qed.

(** The entries of the array of pointers. *)
Definition data_get (data : list Z) (i : Z) : option Z :=
  if 0 <=? i then data !! Z.to_nat i else None.
Definition data_set (data : list Z) (i v : Z) : option (list Z) :=
  if (0 <=? i) && (i <? Z.of_nat (length data)) then Some (<[Z.to_nat i := v]> data) else None.

(** ** Operations *)

Definition time_lt (ta tb : timespec) : bool :=
  if negb (tv_sec ta =? tv_sec tb) then tv_sec ta <? tv_sec tb
  else tv_nsec ta <? tv_nsec tb.

Definition ts_zero : timespec := mk_ts 0 0.

Definition wl_timer_heap_init : wl_timer_heap := mk_heap (-1) [] 0 0 0.

Section timer_os.
Context {W : Type} `{OsMem W} `{OsFd W} `{OsTimer W}.

Definition set_timer (timerfd : Z) (deadline : timespec) (w : W) : cres unit * W :=
  os_timerfd_settime timerfd true deadline w.
Definition clear_timer (timerfd : Z) (w : W) : cres unit * W :=
  os_timerfd_settime timerfd false ts_zero w.

Definition wl_timer_heap_release (h : wl_timer_heap) (w : W) : W :=
  if negb (th_fd h =? -1) then os_close (th_fd h) w else w.

Definition sizeof_ptr : Z := 8.

Definition wl_timer_heap_reserve (h : wl_timer_heap) (w : W) : option (cres unit * wl_timer_heap * W) :=
  count ← c_int (th_count h + 1);
  if th_space h <? count then
    new_space ← (if 8 <=? th_space h then c_int (th_space h * 2) else Some 8);
    match os_alloc (new_space * sizeof_ptr) w with
    | (None, w) => Some (Fail ENOMEM, h, w)
    | (Some junk, w) =>
        let h := th_resize (realloc_block (th_data h) new_space junk) new_space h in
        Some (Ret tt, th_set_count count h, w)
    end
  else Some (Ret tt, th_set_count count h, w).

(** [4 * count] is computed when the array has 16 entries or more. *)
Definition wl_timer_heap_unreserve (h : wl_timer_heap) (w : W) : option (wl_timer_heap * W) :=
  count ← c_int (th_count h - 1);
  let h := th_set_count count h in
  shrink ← (if 16 <=? th_space h then count4 ← c_int (4 * th_count h); Some (count4 <=? th_space h) else Some false);
  if shrink : bool then
    match os_alloc (th_space h / 2 * sizeof_ptr) w with
    | (None, w) => Some (h, w)
    | (Some junk, w) =>
        Some (th_resize (realloc_block (th_data h) (th_space h / 2) junk) (th_space h / 2) h, w)
    end
  else Some (h, w).
End timer_os.

(** Returns the old index. *)
Definition heap_set (data : list Z) (ts : store) (a idx : Z) : option (Z * list Z * store) :=
  t ← ts !! a;
  data ← data_set data idx a;
  Some (t_heap_idx t, data, <[a := t_set_idx idx t]> ts).

Definition deadline_of (ts : store) (a : Z) : option timespec :=
  t ← ts !! a; Some (t_deadline t).

Fixpoint sift_down_loop (fuel : nat) (data : list Z) (ts : store) (num_active : Z)
    (key : timespec) (cursor_idx : Z) : option (Z * list Z * store) :=
  match fuel with
  | O => None
  | S fuel =>
      lchild_idx ← c_int (cursor_idx * 2 + 1);
      if num_active <=? lchild_idx then Some (cursor_idx, data, ts)
      else
        child ← data_get data lchild_idx;
        dc ← deadline_of ts child;
        child ← (if lchild_idx + 1 <? num_active then
                   other_child ← data_get data (lchild_idx + 1);
                   do_ ← deadline_of ts other_child;
                   Some (if time_lt do_ dc then other_child else child)
                 else Some child);
        dc ← deadline_of ts child;
        if time_lt dc key then
          '(cursor_idx, data, ts) ← heap_set data ts child cursor_idx;
          sift_down_loop fuel data ts num_active key cursor_idx
        else Some (cursor_idx, data, ts)
  end.

Definition heap_sift_down (data : list Z) (ts : store) (num_active source : Z)
    : option (list Z * store) :=
  t ← ts !! source;
  '(cursor_idx, data, ts) ←
    sift_down_loop (S (length data)) data ts num_active (t_deadline t) (t_heap_idx t);
  '(_, data, ts) ← heap_set data ts source cursor_idx;
  Some (data, ts).

Fixpoint sift_up_loop (fuel : nat) (data : list Z) (ts : store) (key : timespec) (cursor_idx : Z)
    : option (Z * list Z * store) :=
  match fuel with
  | O => None
  | S fuel =>
      if 0 <? cursor_idx then
        parent ← data_get data ((cursor_idx - 1) / 2);
        dp ← deadline_of ts parent;
        if time_lt key dp then
          '(cursor_idx, data, ts) ← heap_set data ts parent cursor_idx;
          sift_up_loop fuel data ts key cursor_idx
        else Some (cursor_idx, data, ts)
      else Some (cursor_idx, data, ts)
  end.

Definition heap_sift_up (data : list Z) (ts : store) (source : Z) : option (list Z * store) :=
  t ← ts !! source;
  '(cursor_idx, data, ts) ← sift_up_loop (S (length data)) data ts (t_deadline t) (t_heap_idx t);
  '(_, data, ts) ← heap_set data ts source cursor_idx;
  Some (data, ts).

Definition wl_timer_heap_disarm (h : wl_timer_heap) (ts : store) (source : Z)
    : option (wl_timer_heap * store) :=
  t ← ts !! source;
  if t_heap_idx t <? 0 then None  (* assert *)
  else
    let old_source_idx := t_heap_idx t in
    let ts := <[source := t_set_deadline ts_zero (t_set_idx (-1) t)]> ts in
    last_end_evt ← data_get (th_data h) (th_active h - 1);
    data ← data_set (th_data h) (th_active h - 1) 0;
    let h := th_set_active (th_active h - 1) (th_set_data data h) in
    if old_source_idx =? th_active h then Some (h, ts)
    else
      data ← data_set (th_data h) old_source_idx last_end_evt;
      tl ← ts !! last_end_evt;
      let ts := <[last_end_evt := t_set_idx old_source_idx tl]> ts in
      '(data, ts) ← heap_sift_down data ts (th_active h) last_end_evt;
      '(data, ts) ← heap_sift_up data ts last_end_evt;
      Some (th_set_data data h, ts).

Definition wl_timer_heap_arm (h : wl_timer_heap) (ts : store) (source : Z) (deadline : timespec)
    : option (wl_timer_heap * store) :=
  t ← ts !! source;
  if negb (t_heap_idx t =? -1) then None  (* assert *)
  else
    data ← data_set (th_data h) (th_active h) source;
    let ts := <[source := t_set_idx (th_active h) (t_set_deadline deadline t)]> ts in
    '(data, ts) ← heap_sift_up data ts source;
    Some (th_set_active (th_active h + 1) (th_set_data data h), ts).

Section timer_dispatch.
Context {W : Type} `{OsTimer W}.

Definition list_append (ts : store) (tail root : Z) : option store :=
  t ← ts !! tail; Some (<[tail := t_set_next root t]> ts).

(** The first loop of [wl_timer_heap_dispatch]: unlink the timers that are due
    and chain them. *)
Fixpoint collect_due (fuel : nat) (h : wl_timer_heap) (ts : store) (now : timespec)
    (list_cursor list_tail : Z) : option (wl_timer_heap * store * Z * Z) :=
  match fuel with
  | O => None
  | S fuel =>
      if negb (0 <? th_active h) then Some (h, ts, list_cursor, list_tail)
      else
        root ← data_get (th_data h) 0;
        d ← deadline_of ts root;
        if time_lt now d then Some (h, ts, list_cursor, list_tail)
        else
          '(h, ts) ← wl_timer_heap_disarm h ts root;
          if list_cursor =? 0 then collect_due fuel h ts now root root
          else
            ts ← list_append ts list_tail root;
            collect_due fuel h ts now list_cursor root
  end.

(** A callback may change everything: the heap, the timers and the world. *)
Definition timer_state : Type := wl_timer_heap * store * W.

Fixpoint run_due (fuel : nat) (func : Z → timer_state → option timer_state) (list_cursor : Z)
    (s : timer_state) : option timer_state :=
  match fuel with
  | O => None
  | S fuel =>
      if list_cursor =? 0 then Some s
      else
        t ← s.1.2 !! list_cursor;
        s ← (if negb (t_fd t =? TIMER_REMOVED) then func list_cursor s else Some s);
        t ← s.1.2 !! list_cursor;
        run_due fuel func (t_next_due t) s
  end.

(** The code of [wl_timer_heap_dispatch] before the callbacks: the head of the
    chain of the timers that are due. *)
Definition pop_due (s : timer_state) : option (cres unit * Z * timer_state) :=
  let '(h, ts, w) := s in
  let '(now, w) := os_clock_gettime w in
  '(h, ts, list_cursor, list_tail) ← collect_due (S (Z.to_nat (th_active h))) h ts now 0 0;
  ts ← (if negb (list_tail =? 0) then list_append ts list_tail 0 else Some ts);
  '(r, w) ← (if 0 <? th_active h then
               root ← data_get (th_data h) 0;
               d ← deadline_of ts root;
               Some (set_timer (th_fd h) d w)
             else Some (clear_timer (th_fd h) w));
  Some (r, list_cursor, (h, ts, w)).

Definition wl_timer_heap_dispatch (func : Z → timer_state → option timer_state)
    (s : timer_state) : option (cres unit * timer_state) :=
  let fuel := S (Z.to_nat (th_active s.1.1)) in
  '(r, list_cursor, s) ← pop_due s;
  match r with
  | Fail e => Some (Fail e, s)
  | Ret _ =>
      s ← run_due fuel func list_cursor s;
      Some (Ret tt, s)
  end.

(** [now] plus [ms_delay] milliseconds. *)
Definition timer_deadline (now : timespec) (ms_delay : Z) : timespec :=
  let nsec := tv_nsec now + Z.rem ms_delay 1000 * 1000000 in
  let sec := tv_sec now + Z.quot ms_delay 1000 in
  if 1000000000 <=? nsec then mk_ts (sec + 1) (nsec - 1000000000) else mk_ts sec nsec.

Definition wl_event_source_timer_update (h : wl_timer_heap) (ts : store) (source ms_delay : Z)
    (w : W) : option (cres unit * wl_timer_heap * store * W) :=
  t ← ts !! source;
  if 0 <? ms_delay then
    let '(now, w) := os_clock_gettime w in
    let deadline := timer_deadline now ms_delay in
    '(h, ts) ← (if t_heap_idx t =? -1 then wl_timer_heap_arm h ts source deadline
                else
                  let ts := <[source := t_set_deadline deadline t]> ts in
                  '(data, ts) ← (if time_lt deadline (t_deadline t) then
                                   heap_sift_up (th_data h) ts source
                                 else heap_sift_down (th_data h) ts (th_active h) source);
                  Some (th_set_data data h, ts));
    t ← ts !! source;
    if t_heap_idx t =? 0 then
      let '(r, w) := set_timer (th_fd h) deadline w in Some (r, h, ts, w)
    else Some (Ret tt, h, ts, w)
  else if t_heap_idx t =? -1 then Some (Ret tt, h, ts, w)
  else
    '(h, ts) ← wl_timer_heap_disarm h ts source;
    if th_active h =? 0 then
      let '(r, w) := clear_timer (th_fd h) w in Some (r, h, ts, w)
    else Some (Ret tt, h, ts, w).
End timer_dispatch.

(** ** Deadlines are totally ordered *)

(** [a] is not later than [b]. *)
Definition tle (a b : timespec) : Prop := time_lt b a = false.

Lemma tle_lex a b :
  tle a b ↔ tv_sec a < tv_sec b ∨ (tv_sec a = tv_sec b ∧ tv_nsec a <= tv_nsec b).
Proof. unfold tle, time_lt. repeat case_step; zbool; lia. Qed.

Lemma time_lt_lex a b :
  time_lt a b = true ↔ tv_sec a < tv_sec b ∨ (tv_sec a = tv_sec b ∧ tv_nsec a < tv_nsec b).
Proof. unfold time_lt. repeat case_step; zbool; lia. Qed.

Lemma time_lt_tle a b : time_lt a b = true → tle a b.
Proof. rewrite time_lt_lex, tle_lex. lia. Qed.

#[export] Instance tle_preorder : PreOrder tle.
Proof. split; intros a; [|intros b c]; rewrite !tle_lex; lia. Qed.

#[export] Hint Resolve time_lt_tle : k1.

(** ** Heaps as lists *)

(** Two entries exchanged. *)
Lemma swap_lookup (H : list Z) i j a b l :
  H !! i = Some a → H !! j = Some b → i ≠ j →
  <[i := b]> (<[j := a]> H) !! l =
    if decide (l = i) then Some b else if decide (l = j) then Some a else H !! l.
Proof.
  intros Hi Hj Hne. pose proof (lookup_lt_Some _ _ _ Hi). pose proof (lookup_lt_Some _ _ _ Hj).
  rewrite !list_lookup_insert, length_insert. repeat case_decide; naive_solver.
Qed.

Section heap.
Context (k : Z → timespec).

Definition par (i : nat) : nat := (i - 1) / 2.

Lemma par_bounds i : (0 < i → 2 * par i + 1 <= i <= 2 * par i + 2)%nat.
Proof. intros Hi. unfold par. pose proof (Nat.div_mod (i - 1) 2). pose proof (Nat.mod_upper_bound (i - 1) 2). lia. Qed.

(** Entry [i] is not later than entry [j]. *)
Definition le_at (H : list Z) (i j : nat) : Prop :=
  ∀ a b, H !! i = Some a → H !! j = Some b → tle (k a) (k b).

Definition heap_order (H : list Z) : Prop :=
  ∀ i, (0 < i < length H)%nat → le_at H (par i) i.

(** Ordered but for entry [c]. *)
Definition gap (H : list Z) (c : nat) : Prop :=
  (∀ i, (0 < i < length H)%nat → i ≠ c → par i ≠ c → le_at H (par i) i) ∧
  (∀ i, (0 < c)%nat → (0 < i < length H)%nat → par i = c → le_at H (par c) i).
Definition kids (H : list Z) (c : nat) : Prop :=
  ∀ i, (0 < i < length H)%nat → par i = c → le_at H c i.
Definition par_ok (H : list Z) (c : nat) : Prop := (0 < c)%nat → le_at H (par c) c.

Lemma heap_order_gap H c : gap H c → kids H c → par_ok H c → heap_order H.
Proof.
  intros [Hg _] Hk Hp i Hi. destruct (decide (i = c)) as [->|]; [apply Hp; lia|].
  destruct (decide (par i = c)) as [E|]; [rewrite E; by apply Hk|by apply Hg].
Qed.

Lemma le_at_trans H i j l b :
  H !! j = Some b → le_at H i j → le_at H j l → le_at H i l.
Proof. intros Hb Hij Hjl a c Ha Hc. etransitivity; [by apply (Hij a b)|by apply (Hjl b c)]. Qed.

(** The entry moves up: its parent takes its place. *)
Lemma up_step H c s p :
  (0 < c)%nat → H !! c = Some s → H !! par c = Some p → gap H c → kids H c →
  time_lt (k s) (k p) = true →
  let H' := <[c := p]> (<[par c := s]> H) in gap H' (par c) ∧ kids H' (par c).
Proof.
  intros Hc Hs Hp [Hg1 Hg2] Hk Hlt H'. pose proof (par_bounds c Hc) as Hb.
  pose proof (lookup_lt_Some _ _ _ Hs) as Hlen.
  assert (Hl : ∀ l, H' !! l = if decide (l = c) then Some p
                              else if decide (l = par c) then Some s else H !! l)
    by (intros l; apply swap_lookup; (done || lia)).
  assert (Hn : length H' = length H) by (unfold H'; by rewrite !length_insert).
  unfold gap, kids. rewrite Hn. split; [split|]; intros i.
  - intros Hi Hne Hpne a b. rewrite !Hl. pose proof (par_bounds i (proj1 Hi)).
    destruct (decide (par i = c)) as [E|], (decide (par i = par c)), (decide (i = c)),
      (decide (i = par c)); try lia.
    + intros [= <-] Hb'. apply (Hg2 i Hc Hi E p b); done.
    + intros Ha Hb'. by apply (Hg1 i).
  - intros Hpc Hi Hpi a b. pose proof (par_bounds (par c) Hpc). rewrite !Hl.
    pose proof (par_bounds i (proj1 Hi)).
    rewrite (decide_False (P := par (par c) = c)), (decide_False (P := par (par c) = par c)) by lia.
    intros Ha. assert (tle (k a) (k p)) as Hap.
    { apply (Hg1 (par c)); [lia|lia|lia|done|done]. }
    destruct (decide (i = c)); [by intros [= <-]|]. rewrite decide_False by lia.
    intros Hb'. etransitivity; [exact Hap|]. apply (Hg1 i); [lia|lia|lia|by rewrite Hpi|done].
  - intros Hi Hpi a b. pose proof (par_bounds i (proj1 Hi)). rewrite !Hl.
    rewrite (decide_False (P := par c = c)), (decide_True (P := par c = par c)) by lia.
    intros [= <-]. destruct (decide (i = c)); [intros [= <-]; by apply time_lt_tle|].
    rewrite decide_False by lia. intros Hb'. etransitivity; [by apply time_lt_tle|].
    apply (Hg1 i); [lia|lia|lia|by rewrite Hpi|done].
Qed.

(** The entry moves down: the earlier of its children takes its place. *)
Lemma down_step H c m s x :
  (0 < m)%nat → par m = c → H !! c = Some s → H !! m = Some x → gap H c →
  (∀ j, (0 < j < length H)%nat → par j = c → le_at H m j) → time_lt (k x) (k s) = true →
  let H' := <[c := x]> (<[m := s]> H) in gap H' m ∧ par_ok H' m.
Proof.
  intros Hm Hpm Hs Hx [Hg1 Hg2] Hmin Hlt H'. pose proof (par_bounds m Hm) as Hb.
  pose proof (lookup_lt_Some _ _ _ Hx) as Hlen.
  assert (Hl : ∀ l, H' !! l = if decide (l = c) then Some x
                              else if decide (l = m) then Some s else H !! l)
    by (intros l; apply swap_lookup; (done || lia)).
  assert (Hn : length H' = length H) by (unfold H'; by rewrite !length_insert).
  unfold gap, par_ok. rewrite Hn. split; [split|].
  - intros i Hi Hne Hpne a b. rewrite !Hl. pose proof (par_bounds i (proj1 Hi)).
    rewrite (decide_False (P := par i = m)), (decide_False (P := i = m)) by done.
    destruct (decide (par i = c)) as [E|], (decide (i = c)) as [->|]; try lia.
    + intros [= <-] Hb'. by apply (Hmin i Hi E).
    + intros Ha [= <-]. apply (Hg2 m); [lia|lia|done|done|done].
    + intros Ha Hb'. by apply (Hg1 i).
  - intros i _ Hi Hpi a b. rewrite !Hl. pose proof (par_bounds i (proj1 Hi)).
    rewrite Hpm, (decide_True (P := c = c)), (decide_False (P := i = c)),
      (decide_False (P := i = m)) by lia.
    intros [= <-] Hb'. apply (Hg1 i); [lia|lia|lia|by rewrite Hpi|done].
  - intros _ a b. rewrite !Hl, Hpm, (decide_True (P := c = c)), (decide_False (P := m = c)),
      (decide_True (P := m = m)) by lia.
    intros [= <-] [= <-]. by apply time_lt_tle.
Qed.

(** The root is the earliest. *)
Lemma heap_root_min H r a :
  heap_order H → H !! 0%nat = Some r → a ∈ H → tle (k r) (k a).
Proof.
  intros Ho Hr [i Hi]%list_elem_of_lookup. revert a Hi.
  induction i as [i IH] using lt_wf_ind. intros a Hi.
  destruct i as [|i]; [rewrite Hr in Hi; by injection Hi as <-|].
  pose proof (par_bounds (S i) ltac:(lia)). pose proof (lookup_lt_Some _ _ _ Hi).
  destruct (lookup_lt_is_Some_2 H (par (S i))) as [b Hb]; [lia|].
  etransitivity; [apply (IH (par (S i))); [lia|done]|]. apply (Ho (S i)); [lia|done|done].
Qed.
End heap.

(** ** The heap in memory *)

Definition key (ts : store) (a : Z) : timespec :=
  match ts !! a with Some t => t_deadline t | None => ts_zero end.

Lemma deadline_of_key ts a : is_Some (ts !! a) → deadline_of ts a = Some (key ts a).
Proof. unfold deadline_of, key. intros [t ->]. done. Qed.

Definition at_index (ts : store) (a : Z) (i : nat) : Prop :=
  ∃ t, ts !! a = Some t ∧ t_heap_idx t = Z.of_nat i.

(** [H] with [s] at position [c], where the array still has a stale entry and
    [s] a stale index. *)
Definition hole_rep (H rest data : list Z) (ts : store) (s : Z) (c : nat) : Prop :=
  <[c := s]> data = H ++ rest ∧ H !! c = Some s ∧ NoDup H ∧ is_Some (ts !! s) ∧
  ∀ i a, H !! i = Some a → a ≠ s → at_index ts a i.

(** Only indices of the timers in [H] change. *)
Definition moved (H : list Z) (ts ts' : store) : Prop :=
  ∀ a, (a ∉ H → ts' !! a = ts !! a) ∧ t_set_idx 0 <$> ts' !! a = t_set_idx 0 <$> ts !! a.

#[export] Instance moved_preorder H : PreOrder (moved H).
Proof.
  split; [by intros ts a|]. intros t1 t2 t3 H12 H23 a. destruct (H12 a) as [E1 ?], (H23 a) as [E2 ?].
  split; [intros Ha; by rewrite E2, E1|congruence].
Qed.

Lemma moved_perm H H' ts ts' : H ≡ₚ H' → moved H ts ts' → moved H' ts ts'.
Proof. intros Hp Hm a. destruct (Hm a) as [H1 H2]. split; [|done]. by rewrite <- Hp. Qed.

Lemma moved_key H ts ts' a : moved H ts ts' → key ts' a = key ts a.
Proof.
  intros Hm. destruct (Hm a) as [_ E]. unfold key.
  destruct (ts' !! a), (ts !! a); try done. by injection E.
Qed.

Lemma moved_some H ts ts' a : moved H ts ts' → is_Some (ts !! a) → is_Some (ts' !! a).
Proof. intros Hm [t Ht]. destruct (Hm a) as [_ E]. rewrite Ht in E. by destruct (ts' !! a). Qed.

Lemma moved_insert H ts a t i : ts !! a = Some t → a ∈ H → moved H ts (<[a := t_set_idx i t]> ts).
Proof.
  intros Ha Hin b. destruct (decide (b = a)) as [->|Hne].
  - rewrite lookup_insert_eq, Ha. done.
  - by rewrite lookup_insert_ne.
Qed.

Lemma heap_order_key k1 k2 H : (∀ a, a ∈ H → k1 a = k2 a) → heap_order k1 H → heap_order k2 H.
Proof.
  intros Hk Ho i Hi a b Ha Hb. rewrite <- !Hk by (by apply list_elem_of_lookup; eexists).
  by apply (Ho i).
Qed.

Lemma gap_key k1 k2 H c : (∀ a, k1 a = k2 a) → gap k1 H c → gap k2 H c.
Proof.
  intros Hk [H1 H2]. split.
  - intros i Hi Hc Hp a b Ha Hb. rewrite <- !Hk. by apply (H1 i).
  - intros i Hc Hi Hp a b Ha Hb. rewrite <- !Hk. by apply (H2 i).
Qed.

Lemma kids_key k1 k2 H c : (∀ a, k1 a = k2 a) → kids k1 H c → kids k2 H c.
Proof. intros Hk H1 i Hi Hp a b Ha Hb. rewrite <- !Hk. by apply (H1 i). Qed.

Lemma par_ok_key k1 k2 H c : (∀ a, k1 a = k2 a) → par_ok k1 H c → par_ok k2 H c.
Proof. intros Hk H1 Hc a b Ha Hb. rewrite <- !Hk. by apply H1. Qed.

Lemma hole_get H rest data ts s c i a :
  hole_rep H rest data ts s c → H !! i = Some a → i ≠ c → data_get data (Z.of_nat i) = Some a.
Proof.
  intros (Hd&_) Hi Hne. unfold data_get. rewrite (proj2 (Z.leb_le 0 _)), Nat2Z.id by lia.
  rewrite <- (list_lookup_insert_ne data c i s) by done. rewrite Hd.
  by apply lookup_app_l_Some.
Qed.

Lemma hole_length H rest data ts s c :
  hole_rep H rest data ts s c → (c < length H <= length data)%nat ∧ length data = length (H ++ rest).
Proof.
  intros (Hd&Hc&_). apply (f_equal length) in Hd. rewrite length_insert in Hd.
  rewrite length_app in *. apply lookup_lt_Some in Hc. lia.
Qed.

Lemma heap_set_spec data ts a t (i : nat) :
  ts !! a = Some t → (i < length data)%nat →
  heap_set data ts a (Z.of_nat i) =
    Some (t_heap_idx t, <[i := a]> data, <[a := t_set_idx (Z.of_nat i) t]> ts).
Proof.
  intros Ha Hi. unfold heap_set, data_set. rewrite Ha. cbn [mbind option_bind].
  rewrite (proj2 (Z.leb_le 0 _)), (proj2 (Z.ltb_lt _ _)), Nat2Z.id by lia. done.
Qed.

(** The hole moves from [c] to [j], whose entry fills it. *)
Lemma hole_step H rest data ts s c j x :
  hole_rep H rest data ts s c → H !! j = Some x → j ≠ c →
  ∃ data' ts', heap_set data ts x (Z.of_nat c) = Some (Z.of_nat j, data', ts') ∧
    hole_rep (<[c := x]> (<[j := s]> H)) rest data' ts' s j ∧ moved H ts ts'.
Proof.
  intros Hrep Hj Hne. pose proof (hole_length _ _ _ _ _ _ Hrep) as [Hlen _].
  pose proof Hrep as (Hd&Hc&Hnd&Hs&Hidx). pose proof (lookup_lt_Some _ _ _ Hj) as Hjl.
  assert (x ≠ s) as Hxs by (intros ->; by apply Hne, (NoDup_lookup H _ _ s)).
  destruct (Hidx j x Hj Hxs) as (t&Ht&Hti). rewrite (heap_set_spec data ts x t) by (done || lia).
  rewrite Hti. eexists _, _. split; [done|]. split; [|by apply moved_insert, list_elem_of_lookup_2 with j].
  assert (Hsw := λ l, swap_lookup H c j s x l Hc Hj (not_eq_sym Hne)). split_and!.
  - rewrite <- (list_insert_insert_eq data c x s), Hd.
    rewrite !insert_app_l by (rewrite ?length_insert; lia). f_equal. by rewrite list_insert_insert_ne.
  - rewrite Hsw. by rewrite decide_False, decide_True by done.
  - rewrite (Permutation_insert_swap H j c x s) by done. done.
  - rewrite lookup_insert_ne by done. done.
  - intros i a. rewrite Hsw. destruct (decide (i = c)) as [->|]; [|destruct (decide (i = j)); [naive_solver|]].
    + intros [= <-] _. eexists. by rewrite lookup_insert_eq.
    + intros Hi Has. destruct (Hidx i a Hi Has) as (t'&Ht'&?). exists t'. split; [|done].
      rewrite lookup_insert_ne; [done|]. intros ->. by apply n0, (NoDup_lookup H _ _ a).
Qed.

Lemma par_Z c : (0 < c)%nat → (Z.of_nat c - 1) / 2 = Z.of_nat (par c).
Proof. intros Hc. unfold par. rewrite Nat2Z.inj_div, Nat2Z.inj_sub by lia. done. Qed.

Lemma hole_known H rest data ts s c i a :
  hole_rep H rest data ts s c → H !! i = Some a → is_Some (ts !! a).
Proof.
  intros (_&Hc&_&Hs&Hidx) Hi. destruct (decide (a = s)) as [->|Hne]; [done|].
  destruct (Hidx i a Hi Hne) as (t&->&_). by eexists.
Qed.

Lemma hole_step_perm (H : list Z) c j (s x : Z) :
  H !! c = Some s → H !! j = Some x → <[c := x]> (<[j := s]> H) ≡ₚ H.
Proof. intros. by apply Permutation_insert_swap. Qed.

(** What a loop of sifting leaves: a hole at [c'], the same timers. *)
Definition sifted (H rest : list Z) (ts : store) (s : Z) (r : option (Z * list Z * store))
    (P : list Z → nat → Prop) : Prop :=
  ∃ c' data' ts' H', r = Some (Z.of_nat c', data', ts') ∧ hole_rep H' rest data' ts' s c' ∧
    H' ≡ₚ H ∧ moved H ts ts' ∧ P H' c'.

Lemma sifted_stop H rest data ts s c (P : list Z → nat → Prop) :
  hole_rep H rest data ts s c → P H c → sifted H rest ts s (Some (Z.of_nat c, data, ts)) P.
Proof. intros. by exists c, data, ts, H. Qed.

Lemma sifted_step H H1 rest ts ts1 s r (P : list Z → nat → Prop) :
  H1 ≡ₚ H → moved H ts ts1 → sifted H1 rest ts1 s r P → sifted H rest ts s r P.
Proof.
  intros Hp Hm (c'&d'&ts'&H'&->&Hr&Hp'&Hm'&HP). exists c', d', ts', H'. split_and!; try done.
  - by rewrite Hp'.
  - etransitivity; [done|]. by apply (moved_perm H1).
Qed.

Section sift.
Context (k : Z → timespec) (rest : list Z) (s : Z).

Lemma sift_up_loop_spec fuel c data ts H :
  (∀ a, key ts a = k a) → hole_rep H rest data ts s c → gap k H c → kids k H c → (c < fuel)%nat →
  sifted H rest ts s (sift_up_loop fuel data ts (k s) (Z.of_nat c)) (λ H' _, heap_order k H').
Proof.
  revert c data ts H. induction fuel as [|fuel IH]; intros c data ts H Hk Hrep Hg Hkid Hf; [lia|].
  cbn [sift_up_loop]. pose proof Hrep as (_&Hc&_&_&_). destruct (Z.ltb_spec 0 (Z.of_nat c)) as [Hpos|Hz].
  - pose proof (par_bounds c ltac:(lia)). pose proof (lookup_lt_Some _ _ _ Hc).
    destruct (lookup_lt_is_Some_2 H (par c)) as [p Hp]; [lia|].
    rewrite par_Z, (hole_get _ _ _ _ _ _ _ p Hrep Hp) by lia. cbn [mbind option_bind].
    rewrite deadline_of_key, Hk by (by eapply hole_known). cbn [mbind option_bind].
    destruct (time_lt (k s) (k p)) eqn:Hlt.
    + destruct (hole_step _ _ _ _ _ _ (par c) p Hrep Hp ltac:(lia)) as (d1&ts1&->&Hrep1&Hm).
      destruct (up_step k H c s p ltac:(lia) Hc Hp Hg Hkid Hlt) as [Hg1 Hk1].
      apply (sifted_step H (<[c := p]> (<[par c := s]> H)) rest ts ts1); [by apply hole_step_perm|done|].
      apply IH; [|done|done|done|lia]. intros a. by rewrite (moved_key H ts).
    + apply sifted_stop; [done|]. apply (heap_order_gap k H c Hg Hkid). intros _ a b Ha Hb.
      simplify_eq. exact Hlt.
  - apply sifted_stop; [done|]. apply (heap_order_gap k H c Hg Hkid). intros ?. lia.
Qed.

(** The child that the loop compares with the key. *)
Lemma first_child H data ts c (n := Z.of_nat (length H)) :
  (∀ a, key ts a = k a) → hole_rep H rest data ts s c → Z.of_nat c * 2 + 1 < n →
  ∃ m x, (0 < m)%nat ∧ par m = c ∧ H !! m = Some x ∧
    (∀ j, (0 < j < length H)%nat → par j = c → le_at k H m j) ∧
    ∃ y, data_get data (Z.of_nat c * 2 + 1) = Some y ∧ deadline_of ts y = Some (k y) ∧
      (if Z.of_nat c * 2 + 1 + 1 <? n
       then other_child ← data_get data (Z.of_nat c * 2 + 1 + 1);
            do_ ← deadline_of ts other_child;
            Some (if time_lt do_ (k y) then other_child else y)
       else Some y) = Some x.
Proof.
  intros Hk Hrep Hn. replace (Z.of_nat c * 2 + 1) with (Z.of_nat (2 * c + 1)) in * by lia.
  destruct (lookup_lt_is_Some_2 H (2 * c + 1)) as [y Hy]; [lia|].
  pose proof (par_bounds (2 * c + 1) ltac:(lia)). pose proof (par_bounds (2 * c + 2) ltac:(lia)).
  rewrite (hole_get _ _ _ _ _ _ _ y Hrep Hy) by lia.
  assert (Hd : ∀ i a, H !! i = Some a → deadline_of ts a = Some (k a)).
  { intros i a Hi. rewrite deadline_of_key, Hk; [done|]. by eapply hole_known. }
  replace (Z.of_nat (2 * c + 1) + 1) with (Z.of_nat (2 * c + 2)) by lia.
  assert (Hkids : ∀ j, (0 < j)%nat → par j = c → j = (2 * c + 1)%nat ∨ j = (2 * c + 2)%nat).
  { intros j Hj Hpj. pose proof (par_bounds j Hj). lia. }
  destruct (Z.ltb_spec (Z.of_nat (2 * c + 2)) n) as [H2|H2].
  - destruct (lookup_lt_is_Some_2 H (2 * c + 2)) as [z Hz]; [lia|].
    rewrite (hole_get _ _ _ _ _ _ _ z Hrep Hz) by lia. cbn [mbind option_bind].
    rewrite (Hd _ _ Hz). cbn [mbind option_bind]. destruct (time_lt (k z) (k y)) eqn:Hlt.
    + exists (2 * c + 2)%nat, z. split_and!; [lia|lia|done| |by exists y; rewrite (Hd _ _ Hy), ?Hlt].
      intros j Hj Hpj a b Ha Hb. destruct (Hkids j ltac:(lia) Hpj) as [->| ->]; simplify_eq; [by apply time_lt_tle|done].
    + exists (2 * c + 1)%nat, y. split_and!; [lia|lia|done| |by exists y; rewrite (Hd _ _ Hy), ?Hlt].
      intros j Hj Hpj a b Ha Hb. destruct (Hkids j ltac:(lia) Hpj) as [->| ->]; by simplify_eq.
  - exists (2 * c + 1)%nat, y. split_and!; [lia|lia|done| |by exists y; rewrite (Hd _ _ Hy), ?Hlt].
    intros j Hj Hpj a b Ha Hb. destruct (Hkids j ltac:(lia) Hpj) as [->| ->]; [by simplify_eq|lia].
Qed.

Lemma sift_down_loop_spec fuel c data ts H :
  (∀ a, key ts a = k a) → hole_rep H rest data ts s c → gap k H c → (length H - c < fuel)%nat → Z.of_nat (length H) <= MAX_TIMERS →
  sifted H rest ts s (sift_down_loop fuel data ts (Z.of_nat (length H)) (k s) (Z.of_nat c))
    (λ H' c', gap k H' c' ∧ kids k H' c' ∧ (par_ok k H c → par_ok k H' c')).
Proof.
  revert c data ts H. induction fuel as [|fuel IH]; intros c data ts H Hk Hrep Hg Hf Hmax; [lia|].
  cbn [sift_down_loop]. pose proof Hrep as (_&Hc&_&_&_).
  pose proof (lookup_lt_Some _ _ _ Hc). rewrite c_int_ok by (unfold MAX_TIMERS in Hmax; lia). cbn [mbind option_bind]. destruct (Z.leb_spec (Z.of_nat (length H)) (Z.of_nat c * 2 + 1)) as [Hpos|Hz].
  { apply sifted_stop; [done|]. split_and!; [done| |done]. intros i Hi Hpi.
    pose proof (par_bounds i (proj1 Hi)). lia. }
  destruct (first_child H data ts c Hk Hrep Hz) as (m&x&Hm0&Hpm&Hx&Hmin&y&->&Hy&Hsel).
  pose proof (par_bounds m Hm0). cbn [mbind option_bind]. rewrite Hy. cbn [mbind option_bind].
  rewrite Hsel. cbn [mbind option_bind].
  rewrite deadline_of_key, Hk by (by eapply hole_known). cbn [mbind option_bind].
  destruct (time_lt (k x) (k s)) eqn:Hlt.
  - destruct (hole_step _ _ _ _ _ _ m x Hrep Hx ltac:(lia)) as (d1&ts1&->&Hrep1&Hm).
    destruct (down_step k H c m s x Hm0 Hpm Hc Hx Hg Hmin Hlt) as [Hg1 Hp1].
    apply (sifted_step H (<[c := x]> (<[m := s]> H)) rest ts ts1); [by apply hole_step_perm|done|]. cbn [mbind option_bind].
    replace (length H) with (length (<[c:=x]> (<[m:=s]> H))) by by rewrite !length_insert.
    destruct (IH m d1 ts1 (<[c:=x]> (<[m:=s]> H))) as (c'&d'&ts'&H'&E&?&?&?&?&?&?);
      [|done|done|rewrite !length_insert; lia|by rewrite !length_insert|].
    { intros a. by rewrite (moved_key H ts). }
    exists c', d', ts', H'. split_and!; try done. auto.
  - apply sifted_stop; [done|]. split_and!; [done| |done]. intros i Hi Hpi a b Ha Hb. simplify_eq.
    etransitivity; [exact Hlt|]. by apply (Hmin i).
Qed.
End sift.

(** The array lists [H] and every timer of [H] knows its place. *)
Definition full_rep (H rest data : list Z) (ts : store) : Prop :=
  data = H ++ rest ∧ ∀ i a, H !! i = Some a → at_index ts a i.

Lemma full_nodup H rest data ts : full_rep H rest data ts → NoDup H.
Proof.
  intros [_ Hidx]. apply NoDup_alt. intros i j a Hi Hj.
  destruct (Hidx i a Hi) as (t&Ht&Ei), (Hidx j a Hj) as (t'&Ht'&Ej). simplify_eq. lia.
Qed.

Lemma full_known H rest data ts a : full_rep H rest data ts → a ∈ H → is_Some (ts !! a).
Proof. intros [_ Hidx] [i Hi]%list_elem_of_lookup. destruct (Hidx i a Hi) as (t&->&_). by eexists. Qed.

Lemma full_hole H rest data ts s c :
  full_rep H rest data ts → H !! c = Some s → hole_rep H rest data ts s c.
Proof.
  intros Hf Hc. pose proof (full_nodup _ _ _ _ Hf). pose proof Hf as [-> Hidx]. split_and!; [|done|done| |].
  - apply list_insert_id. by apply lookup_app_l_Some.
  - eapply full_known; [done|]. by eapply list_elem_of_lookup_2.
  - auto.
Qed.

Lemma hole_fill H rest data ts s c :
  hole_rep H rest data ts s c →
  ∃ old data' ts', heap_set data ts s (Z.of_nat c) = Some (old, data', ts') ∧
    full_rep H rest data' ts' ∧ moved H ts ts'.
Proof.
  intros Hrep. pose proof (hole_length _ _ _ _ _ _ Hrep) as [? _].
  pose proof Hrep as (Hd&Hc&Hnd&[t Ht]&Hidx). rewrite (heap_set_spec _ _ _ t) by (done || lia).
  eexists _, _, _. split; [done|]. split; [split; [done|]|by eapply moved_insert, list_elem_of_lookup_2].
  intros i a Hi. destruct (decide (a = s)) as [->|Hne].
  - rewrite (NoDup_lookup H i c s) by done. eexists. by rewrite lookup_insert_eq.
  - destruct (Hidx i a Hi Hne) as (t'&?&?). exists t'. by rewrite lookup_insert_ne.
Qed.

(** What sifting the timer [s] leaves. *)
Definition resifted (H rest : list Z) (ts : store) (s : Z) (r : option (list Z * store))
    (P : list Z → nat → Prop) : Prop :=
  ∃ data' ts' H' c', r = Some (data', ts') ∧ full_rep H' rest data' ts' ∧ H' !! c' = Some s ∧
    H' ≡ₚ H ∧ moved H ts ts' ∧ P H' c'.

Lemma sifted_fill H rest ts s r P :
  sifted H rest ts s r P →
  resifted H rest ts s ('(cursor_idx, data, ts) ← r;
                        '(_, data, ts) ← heap_set data ts s cursor_idx; Some (data, ts)) P.
Proof.
  intros (c'&d'&ts'&H'&->&Hrep&Hp&Hm&HP). cbn [mbind option_bind].
  destruct (hole_fill _ _ _ _ _ _ Hrep) as (old&d2&ts2&->&Hf&Hm2). cbn [mbind option_bind].
  exists d2, ts2, H', c'. split_and!; try done; [by destruct Hrep as (_&?&_)|].
  etransitivity; [done|]. by apply (moved_perm H').
Qed.

Lemma full_start H rest data ts s c :
  full_rep H rest data ts → H !! c = Some s →
  ∃ t, ts !! s = Some t ∧ t_deadline t = key ts s ∧ t_heap_idx t = Z.of_nat c ∧
    (c < length H <= length data)%nat.
Proof.
  intros Hf Hc. pose proof (full_hole _ _ _ _ _ _ Hf Hc) as Hr.
  pose proof (hole_length _ _ _ _ _ _ Hr) as [? _]. destruct Hf as [_ Hidx].
  destruct (Hidx c s Hc) as (t&Ht&Hi). exists t. unfold key. by rewrite Ht.
Qed.

Lemma heap_sift_up_spec H rest data ts s c :
  full_rep H rest data ts → H !! c = Some s → gap (key ts) H c → kids (key ts) H c →
  resifted H rest ts s (heap_sift_up data ts s) (λ H' _, heap_order (key ts) H').
Proof.
  intros Hf Hc Hg Hk. destruct (full_start _ _ _ _ _ _ Hf Hc) as (t&Ht&Hd&Hi&Hl).
  unfold heap_sift_up. rewrite Ht. cbn [mbind option_bind]. rewrite Hd, Hi.
  by apply sifted_fill, sift_up_loop_spec; [|apply full_hole| | |lia].
Qed.

Lemma heap_sift_down_spec H rest data ts s c :
  full_rep H rest data ts → H !! c = Some s → gap (key ts) H c → Z.of_nat (length H) <= MAX_TIMERS →
  resifted H rest ts s (heap_sift_down data ts (Z.of_nat (length H)) s)
    (λ H' c', gap (key ts) H' c' ∧ kids (key ts) H' c' ∧
              (par_ok (key ts) H c → par_ok (key ts) H' c')).
Proof.
  intros Hf Hc Hg Hmax. destruct (full_start _ _ _ _ _ _ Hf Hc) as (t&Ht&Hd&Hi&Hl).
  unfold heap_sift_down. rewrite Ht. cbn [mbind option_bind]. rewrite Hd, Hi.
  by apply sifted_fill, sift_down_loop_spec; [|apply full_hole| |lia|].
Qed.

(** One entry of a heap is replaced, or its deadline changes. *)
Lemma gap_of_order k k' H H1 c :
  heap_order k H → (length H1 <= S (length H))%nat → (c < length H ∨ c = length H)%nat →
  (∀ i b, i ≠ c → H1 !! i = Some b → H !! i = Some b ∧ k' b = k b) →
  gap k' H1 c.
Proof.
  intros Ho Hlen Hc Hsame. split; intros i.
  - intros Hi Hne Hpne a b Ha Hb. destruct (Hsame _ _ Hpne Ha) as [Ha' ->].
    destruct (Hsame _ _ Hne Hb) as [Hb' ->]. apply (Ho i); [|done|done].
    apply lookup_lt_Some in Hb'. lia.
  - intros Hc0 Hi Hpi a b Ha Hb. pose proof (par_bounds i (proj1 Hi)). pose proof (par_bounds c Hc0).
    destruct (Hsame i b) as [Hb' ->]; [lia|done|]. destruct (Hsame (par c) a) as [Ha' ->]; [lia|done|].
    pose proof (lookup_lt_Some _ _ _ Hb'). destruct (lookup_lt_is_Some_2 H c) as [x Hx]; [lia|].
    etransitivity; [apply (Ho c); [lia|done|done]|]. apply (Ho i); [lia|by rewrite Hpi|done].
Qed.

(** ** The invariant of the heap *)

(** What the heap does not own of the timers. *)
Definition others (ts : store) : gmap Z (Z * Z) := (λ t, (t_fd t, t_next_due t)) <$> ts.
Definition live (ts : store) : gset Z :=
  dom (filter (λ p : Z * (Z * Z), p.2.1 ≠ TIMER_REMOVED) (others ts)).

(** The abstract state: the armed timers and their deadlines. *)
Definition armed (ts : store) : gmap Z timespec :=
  omap (λ t, if t_heap_idx t =? -1 then None else Some (t_deadline t)) ts.

Record heap_ok (h : wl_timer_heap) (ts : store) (H : list Z) : Prop := mk_heap_ok {
  ok_rep : ∃ rest, full_rep H rest (th_data h) ts;
  ok_active : th_active h = Z.of_nat (length H);
  ok_space : th_space h = Z.of_nat (length (th_data h));
  ok_count : th_count h = Z.of_nat (size (live ts));
  ok_room : th_count h <= th_space h;
  ok_live : ∀ a, a ∈ H → a ∈ live ts;
  ok_idle : ∀ a t, ts !! a = Some t → a ∉ H → t_heap_idx t = -1;
  ok_null : ts !! 0 = None;
  ok_order : heap_order (key ts) H;
  ok_max : th_count h <= MAX_TIMERS
}.

Lemma moved_others H ts ts' : moved H ts ts' → others ts' = others ts.
Proof.
  intros Hm. apply map_eq. intros a. destruct (Hm a) as [_ E]. unfold others. rewrite !lookup_fmap.
  destruct (ts' !! a) as [[]|], (ts !! a) as [[]|]; try done. by injection E as -> -> ->.
Qed.

Lemma others_insert ts a t t' :
  ts !! a = Some t → t_fd t' = t_fd t → t_next_due t' = t_next_due t →
  others (<[a := t']> ts) = others ts.
Proof.
  intros Ha Hf Hn. unfold others. rewrite fmap_insert. apply insert_id.
  rewrite lookup_fmap, Ha. cbn. by rewrite Hf, Hn.
Qed.

Lemma others_null ts ts' : others ts' = others ts → ts !! 0 = None → ts' !! 0 = None.
Proof.
  intros Ho Hn. apply (f_equal (.!! 0)) in Ho. unfold others in Ho. rewrite !lookup_fmap, Hn in Ho.
  by destruct (ts' !! 0).
Qed.

Lemma live_others ts ts' : others ts' = others ts → live ts' = live ts.
Proof. unfold live. by intros ->. Qed.

Lemma live_spec ts a : a ∈ live ts ↔ ∃ t, ts !! a = Some t ∧ t_fd t ≠ TIMER_REMOVED.
Proof.
  unfold live, others. rewrite elem_of_dom. split.
  - intros [p Hp]. apply map_lookup_filter_Some in Hp as [Hp Hn].
    apply lookup_fmap_Some in Hp as (t&<-&Ht). by exists t.
  - intros (t&Ht&Hn). exists (t_fd t, t_next_due t). apply map_lookup_filter_Some.
    rewrite lookup_fmap, Ht. done.
Qed.

Lemma ok_known h ts H a : heap_ok h ts H → a ∈ H → is_Some (ts !! a).
Proof. intros Hok Ha. destruct (ok_rep _ _ _ Hok) as [rest Hf]. by eapply full_known. Qed.

Lemma ok_index h ts H a t : heap_ok h ts H → ts !! a = Some t →
  (a ∈ H ∧ ∃ i, H !! i = Some a ∧ t_heap_idx t = Z.of_nat i) ∨ (a ∉ H ∧ t_heap_idx t = -1).
Proof.
  intros Hok Ht. destruct (decide (a ∈ H)) as [Ha|Ha]; [left|right].
  - split; [done|]. apply list_elem_of_lookup in Ha as [i Hi]. exists i. split; [done|].
    destruct (ok_rep _ _ _ Hok) as (rest&_&Hidx). destruct (Hidx i a Hi) as (t'&?&?). by simplify_eq.
  - split; [done|]. by eapply ok_idle.
Qed.

Lemma armed_lookup h ts H a :
  heap_ok h ts H → armed ts !! a = if decide (a ∈ H) then Some (key ts a) else None.
Proof.
  intros Hok. unfold armed, key. rewrite lookup_omap. destruct (ts !! a) as [t|] eqn:Ht; cbn.
  - destruct (ok_index h ts H a t Hok Ht) as [(Ha&i&_&Hi)|[Ha Hi]].
    + rewrite decide_True by done. rewrite (proj2 (Z.eqb_neq _ _)) by lia. done.
    + rewrite decide_False by done. by rewrite (proj2 (Z.eqb_eq _ _)) by lia.
  - rewrite decide_False; [done|]. intros Ha. destruct (ok_known h ts H a Hok Ha). congruence.
Qed.

Lemma ok_active_le h ts H : heap_ok h ts H → Z.of_nat (length H) <= th_count h.
Proof.
  intros Hok. destruct (ok_rep _ _ _ Hok) as [rest Hf]. pose proof (full_nodup _ _ _ _ Hf) as Hnd.
  rewrite (ok_count _ _ _ Hok). rewrite <- (size_list_to_set (C := gset Z) H) by done.
  apply inj_le, subseteq_size. intros a Ha%elem_of_list_to_set. by apply (ok_live _ _ _ Hok).
Qed.

Lemma ok_heap_max h ts H : heap_ok h ts H → Z.of_nat (length H) <= MAX_TIMERS.
Proof. intros Hok. pose proof (ok_active_le _ _ _ Hok). pose proof (ok_max _ _ _ Hok). lia. Qed.

(** A timer that is live but not armed leaves room to arm it. *)
Lemma ok_active_lt h ts H a :
  heap_ok h ts H → a ∈ live ts → a ∉ H → Z.of_nat (length H) < th_count h.
Proof.
  intros Hok Hl Ha. destruct (ok_rep _ _ _ Hok) as [rest Hf]. pose proof (full_nodup _ _ _ _ Hf) as Hnd.
  rewrite (ok_count _ _ _ Hok). assert (length (a :: H) <= size (live ts))%nat; [|cbn in *; lia].
  rewrite <- (size_list_to_set (C := gset Z) (a :: H)) by by constructor.
  apply subseteq_size. intros b Hb%elem_of_list_to_set. apply elem_of_cons in Hb as [->|Hb]; [done|].
  by apply (ok_live _ _ _ Hok).
Qed.

(** The invariant is restored by any operation that ends with a heap of live
    timers and leaves the rest of the store alone. *)
Lemma heap_ok_step h ts H h' ts' H' rest :
  heap_ok h ts H → others ts' = others ts → full_rep H' rest (th_data h') ts' →
  heap_order (key ts') H' → (∀ a, a ∈ H' → a ∈ live ts) →
  (∀ a t, ts' !! a = Some t → a ∉ H' → t_heap_idx t = -1) →
  th_active h' = Z.of_nat (length H') → th_space h' = th_space h → th_count h' = th_count h →
  length (th_data h') = length (th_data h) → heap_ok h' ts' H'.
Proof.
  intros [] Ho Hf Hord Hl Hi Ha Hs Hc Hd. constructor; try rewrite (live_others ts ts') by done;
    try done; try congruence; [by exists rest|by eapply others_null].
Qed.

(** The outcome of an operation: the armed timers are [A], nothing else of the
    store or the heap's bookkeeping changes. *)
Definition heap_after (h : wl_timer_heap) (ts : store) (r : option (wl_timer_heap * store))
    (A : gmap Z timespec) : Prop :=
  ∃ h' ts' H', r = Some (h', ts') ∧ heap_ok h' ts' H' ∧ armed ts' = A ∧ others ts' = others ts ∧
    th_fd h' = th_fd h ∧ th_count h' = th_count h.

Lemma armed_change h ts H h' ts' H' a b :
  heap_ok h ts H → heap_ok h' ts' H' → key ts' b = key ts b → (b ∈ H' ↔ b ∈ H) →
  a ≠ b → armed ts' !! b = armed ts !! b.
Proof.
  intros Hok Hok' Hk Hin Hne. rewrite (armed_lookup h' ts' H'), (armed_lookup h ts H), Hk by done.
  by apply decide_ext.
Qed.

Lemma key_insert_ne ts a b t : a ≠ b → key (<[a := t]> ts) b = key ts b.
Proof. intros. unfold key. by rewrite lookup_insert_ne. Qed.
Lemma key_insert_eq ts a t : key (<[a := t]> ts) a = t_deadline t.
Proof. unfold key. by rewrite lookup_insert_eq. Qed.
Lemma key_lookup ts a t : ts !! a = Some t → key ts a = t_deadline t.
Proof. unfold key. by intros ->. Qed.

Lemma at_index_insert_ne ts a b t i : a ≠ b → at_index ts b i → at_index (<[a := t]> ts) b i.
Proof. intros Hne (t'&?&?). exists t'. by rewrite lookup_insert_ne. Qed.
Lemma at_index_insert_eq ts a t i : t_heap_idx t = Z.of_nat i → at_index (<[a := t]> ts) a i.
Proof. intros. exists t. by rewrite lookup_insert_eq. Qed.
#[export] Hint Resolve at_index_insert_ne at_index_insert_eq : k1.

Lemma full_app_data H rest data ts : full_rep H rest data ts → length data = (length H + length rest)%nat.
Proof. intros [-> _]. apply length_app. Qed.

Lemma data_set_nat data (i : nat) v :
  (i < length data)%nat → data_set data (Z.of_nat i) v = Some (<[i := v]> data).
Proof.
  intros. unfold data_set. rewrite (proj2 (Z.leb_le _ _)), (proj2 (Z.ltb_lt _ _)), Nat2Z.id by lia. done.
Qed.

Lemma data_get_nat data (i : nat) : data_get data (Z.of_nat i) = data !! i.
Proof. unfold data_get. by rewrite (proj2 (Z.leb_le _ _)), Nat2Z.id by lia. Qed.

(** From the store [ts1] prepared by an operation to the one after sifting. *)
Lemma after_sift h ts H h' ts1 ts' H1 H' rest :
  heap_ok h ts H → others ts1 = others ts → moved H1 ts1 ts' → H' ≡ₚ H1 →
  full_rep H' rest (th_data h') ts' → heap_order (key ts1) H' →
  (∀ a, a ∈ H1 → a ∈ live ts) →
  (∀ a t, ts1 !! a = Some t → a ∉ H1 → t_heap_idx t = -1) →
  th_active h' = Z.of_nat (length H1) → th_space h' = th_space h → th_count h' = th_count h →
  length (th_data h') = length (th_data h) → heap_ok h' ts' H'.
Proof.
  intros Hok Ho Hm Hp Hf Hord Hl Hi Ha Hs Hc Hd. apply (heap_ok_step h ts H h' ts' H' rest); try done.
  - by rewrite (moved_others H1 ts1).
  - eapply heap_order_key; [|done]. intros a _. symmetry. by eapply moved_key.
  - intros a. rewrite Hp. apply Hl.
  - intros a t Ht. rewrite Hp. intros Hn. destruct (Hm a) as [E _]. rewrite E in Ht by done. by apply (Hi a).
  - by rewrite Hp.
Qed.

(** The timer [a] becomes armed at [d], the others stay as they are. *)
Lemma armed_insert h ts H h' ts1 ts' H1 H' a d :
  heap_ok h ts H → heap_ok h' ts' H' → moved H1 ts1 ts' → H' ≡ₚ H1 →
  a ∈ H1 → key ts1 a = d → (∀ b, a ≠ b → key ts1 b = key ts b) → (∀ b, a ≠ b → b ∈ H1 ↔ b ∈ H) →
  armed ts' = <[a := d]> (armed ts).
Proof.
  intros Hok Hok' Hm Hp Ha Hk Hks Hin. apply map_eq. intros b. destruct (decide (a = b)) as [<-|Hne].
  - rewrite lookup_insert_eq, (armed_lookup _ _ _ _ Hok'), decide_True by by rewrite Hp.
    by rewrite (moved_key _ _ _ _ Hm), Hk.
  - rewrite lookup_insert_ne by done. eapply armed_change; [done|done| | |done].
    + rewrite (moved_key _ _ _ _ Hm). by apply Hks.
    + rewrite Hp. by apply Hin.
Qed.

Lemma arm_spec h ts H a t d :
  heap_ok h ts H → ts !! a = Some t → a ∉ H → a ∈ live ts →
  heap_after h ts (wl_timer_heap_arm h ts a d) (<[a := d]> (armed ts)).
Proof.
  intros Hok Ht Ha Hl. pose proof (ok_active_lt h ts H a Hok Hl Ha) as Hlt.
  pose proof Hok as [[rest Hf] Hact Hsp _ Hrm _ Hidle _ Hord].
  pose proof (full_app_data _ _ _ _ Hf) as Hlen. destruct rest as [|x rest]; [cbn in Hlen; lia|].
  unfold wl_timer_heap_arm. rewrite Ht. cbn [mbind option_bind].
  rewrite (Hidle a t Ht Ha). cbn [negb Z.eqb Pos.eqb]. rewrite Hact, data_set_nat by lia.
  cbn [mbind option_bind]. set (ts1 := <[a := _]> ts). pose proof Hf as [Hdata Hidx].
  assert (Hf1 : full_rep (H ++ [a]) rest (<[length H := a]> (th_data h)) ts1).
  { split.
    - rewrite Hdata, insert_app_r_alt, Nat.sub_diag by lia. cbn. by rewrite <- app_assoc.
    - intros i b [Hi|[Hi Hb]]%lookup_app_Some.
      + assert (a ≠ b) by (intros ->; by eapply Ha, list_elem_of_lookup_2). unfold ts1. auto with k1.
      + apply list_lookup_singleton_Some in Hb as [Hb <-]. apply at_index_insert_eq. cbn. lia. }
  destruct (heap_sift_up_spec (H ++ [a]) rest _ ts1 a (length H) Hf1) as (d'&ts'&H'&c'&->&Hf'&Hc'&Hp&Hm&Ho').
  { by rewrite lookup_app_r, Nat.sub_diag by lia. }
  { apply (gap_of_order (key ts) _ H); [done|rewrite length_app; cbn; lia|lia|].
    intros i b Hi Hb. apply lookup_app_Some in Hb as [Hb|[? Hb]].
    - split; [done|]. apply key_insert_ne. intros ->. by eapply Ha, list_elem_of_lookup_2.
    - apply list_lookup_singleton_Some in Hb as [? _]. lia. }
  { intros i Hi Hpi. pose proof (par_bounds i (proj1 Hi)). rewrite length_app in Hi. cbn in Hi. lia. }
  cbn [mbind option_bind]. assert (Ho1 : others ts1 = others ts) by by apply (others_insert ts a t).
  eexists _, ts', H'. split; [done|].
  assert (Hok' : heap_ok (th_set_active (Z.of_nat (length H) + 1) (th_set_data d' h)) ts' H').
  { apply (after_sift h ts H _ ts1 ts' (H ++ [a]) H' rest); try done; cbn.
    - intros b [Hb|Hb%list_elem_of_singleton]%elem_of_app; [by apply (ok_live _ _ _ Hok)|by subst].
    - intros b tb Hb Hn. rewrite not_elem_of_app in Hn. destruct Hn as [Hn Hn'].
      unfold ts1 in Hb. rewrite lookup_insert_ne in Hb by set_solver. by apply (Hidle b).
    - rewrite length_app. cbn. lia.
    - pose proof (full_app_data _ _ _ _ Hf') as Hl'. rewrite Hl', Hp, Hlen, length_app. cbn. lia. }
  split_and!; try done; [|by rewrite (moved_others _ _ _ Hm)].
  eapply (armed_insert h ts H _ ts1 ts' (H ++ [a]) H'); try done; [set_solver|apply key_insert_eq| |set_solver].
  intros. by apply key_insert_ne.
Qed.

(** The timer [a] is no longer armed, the others stay as they are. *)
Lemma armed_delete h ts H h' ts1 ts' H1 H' a :
  heap_ok h ts H → heap_ok h' ts' H' → moved H1 ts1 ts' → H' ≡ₚ H1 → H ≡ₚ a :: H1 →
  (∀ b, a ≠ b → key ts1 b = key ts b) → armed ts' = delete a (armed ts).
Proof.
  intros Hok Hok' Hm Hp HpH Hks. pose proof Hok as [[rest Hf] _ _ _ _ _ _ _ _].
  pose proof (full_nodup _ _ _ _ Hf) as Hnd. rewrite HpH in Hnd. apply NoDup_cons in Hnd as [Ha _].
  apply map_eq. intros b. destruct (decide (a = b)) as [<-|Hne].
  - rewrite lookup_delete_eq, (armed_lookup _ _ _ _ Hok'). apply decide_False. by rewrite Hp.
  - rewrite lookup_delete_ne by done. eapply armed_change; [done|done| | |done].
    + rewrite (moved_key _ _ _ _ Hm). by apply Hks.
    + rewrite Hp, HpH. set_solver.
Qed.

(** Overwriting an entry of a list by one appended to it. *)
Lemma replace_perm (l : list Z) i a b :
  l !! i = Some a → l ++ [b] ≡ₚ a :: <[i := b]> l.
Proof.
  intros Hi. pose proof (lookup_lt_Some _ _ _ Hi). rewrite insert_take_drop by done.
  rewrite <- (take_drop_middle l i a) at 1 by done. solve_Permutation.
Qed.

Definition disarmed (t : timer) : timer := t_set_deadline ts_zero (t_set_idx (-1) t).

Lemma disarm_last h ts Hp a t rest :
  heap_ok h ts (Hp ++ [a]) → ts !! a = Some t → full_rep (Hp ++ [a]) rest (th_data h) ts →
  let h' := th_set_active (Z.of_nat (length Hp)) (th_set_data (Hp ++ 0 :: rest) h) in
  heap_ok h' (<[a := disarmed t]> ts) Hp ∧ armed (<[a := disarmed t]> ts) = delete a (armed ts).
Proof.
  intros Hok Ht Hf h'. pose proof (full_nodup _ _ _ _ Hf) as Hnd. apply NoDup_app in Hnd as (Hnd&Hna&_).
  assert (Ha : a ∉ Hp) by (intros Hin; apply (Hna a Hin); set_solver).
  assert (Hin : ∀ i b, Hp !! i = Some b → a ≠ b) by (intros i b Hb ->; by eapply Ha, list_elem_of_lookup_2).
  assert (Hok' : heap_ok h' (<[a := disarmed t]> ts) Hp).
  { eapply (heap_ok_step h ts (Hp ++ [a]) h' _ Hp (0 :: rest)); try done; cbn.
    - by apply (others_insert ts a t).
    - split; [done|]. intros i b Hb. apply at_index_insert_ne; [by eapply Hin|].
      destruct Hf as [_ Hidx]. apply Hidx. by apply lookup_app_l_Some.
    - intros i Hi x y Hx Hy. rewrite !key_insert_ne by (by eapply Hin).
      apply (ok_order _ _ _ Hok i); [rewrite length_app; cbn; lia| |]; by apply lookup_app_l_Some.
    - intros b Hb. apply (ok_live _ _ _ Hok). set_solver.
    - intros b tb Hb Hn. destruct (decide (a = b)) as [<-|]; [rewrite lookup_insert_eq in Hb; by simplify_eq|].
      rewrite lookup_insert_ne in Hb by done. apply (ok_idle _ _ _ Hok b); [done|set_solver].
    - destruct Hf as [-> _]. rewrite !length_app. cbn. lia. }
  split; [done|]. apply (armed_delete h ts (Hp ++ [a]) h' (<[a := disarmed t]> ts) _ Hp Hp); try done.
  - solve_Permutation.
  - intros b Hb. by apply key_insert_ne.
Qed.

Section disarm.
Context (h : wl_timer_heap) (ts : store) (Hp rest : list Z) (a l : Z) (t tl : timer) (c : nat).
Context (Hok : heap_ok h ts (Hp ++ [l])) (Hf : full_rep (Hp ++ [l]) rest (th_data h) ts)
  (Ht : ts !! a = Some t) (Htl : ts !! l = Some tl) (Hc : Hp !! c = Some a).
Let H1 : list Z := <[c := l]> Hp.
Let ts1 : store := <[l := t_set_idx (Z.of_nat c) tl]> (<[a := disarmed t]> ts).

Lemma displaced_ne : a ≠ l.
Proof.
  pose proof (full_nodup _ _ _ _ Hf) as (_&Hd&_)%NoDup_app. intros ->.
  apply (Hd l); [by eapply list_elem_of_lookup_2|set_solver].
Qed.

Lemma displaced_others i b : i ≠ c → H1 !! i = Some b → Hp !! i = Some b ∧ a ≠ b ∧ l ≠ b.
Proof.
  intros Hi Hb. unfold H1 in Hb. rewrite list_lookup_insert_ne in Hb by done. split; [done|].
  pose proof (full_nodup _ _ _ _ Hf) as (Hnd&Hd&_)%NoDup_app. split; intros ->.
  - by apply Hi, (NoDup_lookup Hp i c b).
  - apply (Hd b); [by eapply list_elem_of_lookup_2|set_solver].
Qed.

Lemma displaced_rep : full_rep H1 (0 :: rest) (H1 ++ 0 :: rest) ts1.
Proof.
  split; [done|]. intros i b Hb. destruct (decide (i = c)) as [->|Hne].
  - unfold H1 in Hb. rewrite list_lookup_insert_eq in Hb by by eapply lookup_lt_Some.
    injection Hb as <-. by apply at_index_insert_eq.
  - destruct (displaced_others i b Hne Hb) as (Hi&?&?). unfold ts1. destruct Hf as [_ Hidx].
    apply at_index_insert_ne, at_index_insert_ne, Hidx; try done. by apply lookup_app_l_Some.
Qed.

Lemma displaced_key b : a ≠ b → key ts1 b = key ts b.
Proof.
  intros Hb. unfold ts1. destruct (decide (l = b)) as [<-|].
  - by rewrite key_insert_eq, (key_lookup ts l tl).
  - by rewrite !key_insert_ne.
Qed.

Lemma displaced_gap : gap (key ts1) H1 c.
Proof.
  pose proof (lookup_lt_Some _ _ _ Hc).
  apply (gap_of_order (key ts) _ (Hp ++ [l])); [apply (ok_order _ _ _ Hok)| | |].
  - unfold H1. rewrite length_insert, length_app. lia.
  - rewrite length_app. lia.
  - intros i b Hi Hb. destruct (displaced_others i b Hi Hb) as (?&?&?).
    split; [by apply lookup_app_l_Some|by apply displaced_key].
Qed.

Lemma displaced_perm : Hp ++ [l] ≡ₚ a :: H1.
Proof. by apply replace_perm. Qed.

Lemma displaced_done data' ts' H' :
  full_rep H' (0 :: rest) data' ts' → H' ≡ₚ H1 → moved H1 ts1 ts' → heap_order (key ts1) H' →
  heap_after h ts (Some (th_set_active (Z.of_nat (length Hp)) (th_set_data data' h), ts'))
    (delete a (armed ts)).
Proof.
  intros Hf' Hp' Hm Hord. eexists _, ts', H'. split; [done|].
  assert (Ho : others ts1 = others ts).
  { unfold ts1. rewrite (others_insert _ l tl); [by apply (others_insert ts a t)| |done|done].
    by rewrite lookup_insert_ne by apply displaced_ne. }
  assert (Hok' : heap_ok (th_set_active (Z.of_nat (length Hp)) (th_set_data data' h)) ts' H').
  { apply (after_sift h ts (Hp ++ [l]) _ ts1 ts' H1 H' (0 :: rest)); try done; cbn.
    - intros b Hb. apply (ok_live _ _ _ Hok). rewrite displaced_perm. set_solver.
    - intros b tb Hb Hn. unfold ts1 in Hb. apply lookup_insert_Some in Hb as [[<- <-]|[Hlb Hb]].
      + destruct Hn. unfold H1. apply list_elem_of_lookup. exists c.
        by rewrite list_lookup_insert_eq by by eapply lookup_lt_Some.
      + apply lookup_insert_Some in Hb as [[<- <-]|[Hab Hb]]; [done|].
        apply (ok_idle _ _ _ Hok b); [done|]. rewrite displaced_perm. set_solver.
    - unfold H1. by rewrite length_insert.
    - rewrite (full_app_data _ _ _ _ Hf'), (full_app_data _ _ _ _ Hf), Hp'. unfold H1.
      rewrite length_insert, length_app. cbn. lia. }
  split_and!; try done; [|by rewrite (moved_others _ _ _ Hm)].
  eapply armed_delete; [done|done|done|done|apply displaced_perm|]. intros b. apply displaced_key.
Qed.
End disarm.

Lemma resifted_trans H rest ts s data1 ts1 H1 r P :
  H1 ≡ₚ H → moved H ts ts1 → resifted H1 rest ts1 s r P → full_rep H1 rest data1 ts1 →
  resifted H rest ts s r P.
Proof.
  intros Hp Hm (d&ts2&H2&c&->&Hf&Hc&Hp2&Hm2&HP) _. exists d, ts2, H2, c.
  split_and!; try done; [by rewrite Hp2|]. etransitivity; [done|]. by apply (moved_perm H1).
Qed.

(** Sifting down and then up puts any displaced entry in its place. *)
Lemma sift_both_spec H rest data ts s c :
  full_rep H rest data ts → H !! c = Some s → gap (key ts) H c → Z.of_nat (length H) <= MAX_TIMERS →
  resifted H rest ts s
    ('(data, ts) ← heap_sift_down data ts (Z.of_nat (length H)) s; heap_sift_up data ts s)
    (λ H' _, heap_order (key ts) H').
Proof.
  intros Hf Hc Hg Hmax.
  destruct (heap_sift_down_spec H rest data ts s c Hf Hc Hg Hmax) as (d1&ts1&H1&c1&->&Hf1&Hc1&Hp1&Hm1&Hg1&Hk1&_).
  cbn [mbind option_bind]. assert (Hk : ∀ a, key ts a = key ts1 a) by (intros; symmetry; by eapply moved_key).
  eapply resifted_trans; [done|done| |done].
  destruct (heap_sift_up_spec H1 rest d1 ts1 s c1 Hf1 Hc1) as (d2&ts2&H2&c2&?&?&?&?&?&Ho).
  - by apply (gap_key (key ts)).
  - by apply (kids_key (key ts)).
  - exists d2, ts2, H2, c2. split_and!; try done. by apply (heap_order_key (key ts1)).
Qed.

Lemma disarm_spec h ts H a :
  heap_ok h ts H → a ∈ H → heap_after h ts (wl_timer_heap_disarm h ts a) (delete a (armed ts)).
Proof.
  intros Hok Ha. destruct (ok_known h ts H a Hok Ha) as [t Ht].
  destruct (ok_index h ts H a t Hok Ht) as [(_&c&Hc&Hi)|[Hn _]]; [|done].
  pose proof Hok as [[rest Hf] Hact _ _ _ _ _ _ _].
  destruct H as [|l Hp _] using rev_ind; [set_solver|]. pose proof (full_app_data _ _ _ _ Hf) as Hlen.
  pose proof (lookup_lt_Some _ _ _ Hc) as Hlt. rewrite length_app in Hlt, Hact, Hlen. cbn in Hlt, Hact, Hlen.
  pose proof Hf as [Hdata _]. unfold wl_timer_heap_disarm. rewrite Ht. cbn [mbind option_bind].
  rewrite Hi, (proj2 (Z.ltb_ge _ 0)) by lia. replace (th_active h - 1) with (Z.of_nat (length Hp)) by lia.
  rewrite data_get_nat, data_set_nat, Hdata, <- app_assoc by lia. cbn [app].
  rewrite list_lookup_middle by done. cbn [mbind option_bind].
  rewrite insert_app_r_alt, Nat.sub_diag by lia. cbn [list_insert insert th_active th_data th_set_active th_set_data].
  destruct (Z.eqb_spec (Z.of_nat c) (Z.of_nat (length Hp))) as [E|Hne].
  - apply Nat2Z.inj in E as ->. rewrite list_lookup_middle in Hc by done. injection Hc as ->.
    destruct (disarm_last h ts Hp a t rest Hok Ht Hf) as [Hok' Ha'].
    eexists _, _, Hp. split; [done|]. split_and!; try done. by apply (others_insert ts a t).
  - rewrite lookup_app_l in Hc by lia.
    destruct (ok_known h ts (Hp ++ [l]) l Hok) as [tl Htl]; [set_solver|].
    assert (a ≠ l) by by eapply displaced_ne.
    rewrite data_set_nat by (rewrite length_app; lia). cbn [mbind option_bind].
    rewrite lookup_insert_ne, Htl by done. cbn [mbind option_bind]. rewrite insert_app_l by lia.
    fold (disarmed t). set (ts1 := <[l := _]> _). set (H1 := <[c := l]> Hp).
    replace (length Hp) with (length H1) at 1 by by unfold H1; rewrite length_insert.
    destruct (sift_both_spec H1 (0 :: rest) (H1 ++ 0 :: rest) ts1 l c) as (d2&ts2&H2&c2&E&Hf2&_&Hp2&Hm2&Ho2).
    { eapply displaced_rep; done. }
    { unfold H1. rewrite list_lookup_insert_eq by lia. done. }
    { eapply displaced_gap; done. }
    { pose proof (ok_heap_max _ _ _ Hok) as Hmax. rewrite length_app in Hmax. unfold H1. rewrite length_insert. lia. }
    destruct (heap_sift_down _ _ _ _) as [[d3 ts3]|]; [|done]. cbn [mbind option_bind] in E |- *.
    rewrite E. cbn [mbind option_bind].
    change (th_set_data d2 _) with (th_set_active (Z.of_nat (length Hp)) (th_set_data d2 h)).
    eapply displaced_done; done.
Qed.

(** A new deadline for an armed timer. *)
Section rekey.
Context (h : wl_timer_heap) (ts : store) (H rest : list Z) (a : Z) (t : timer) (d : timespec) (c : nat).
Context (Hok : heap_ok h ts H) (Hf : full_rep H rest (th_data h) ts)
  (Ht : ts !! a = Some t) (Hc : H !! c = Some a).
Let ts1 : store := <[a := t_set_deadline d t]> ts.

Lemma rekey_ne i b : i ≠ c → H !! i = Some b → a ≠ b.
Proof.
  intros Hi Hb ->. pose proof (full_nodup _ _ _ _ Hf). by apply Hi, (NoDup_lookup H i c b).
Qed.

Lemma rekey_rep : full_rep H rest (th_data h) ts1.
Proof.
  destruct Hf as [Hd Hidx]. split; [done|]. intros i b Hb.
  destruct (ok_index h ts H a t Hok Ht) as [(_&c'&Hc'&Hi)|[Hn _]];
    [|by destruct Hn; eapply list_elem_of_lookup_2].
  destruct (decide (i = c)) as [->|Hic].
  - assert (b = a) as -> by congruence. apply at_index_insert_eq. cbn. rewrite Hi. f_equal.
    by apply (NoDup_lookup H c' c a); [eapply full_nodup|..].
  - apply at_index_insert_ne; [by eapply rekey_ne|by apply Hidx].
Qed.

Lemma rekey_gap : gap (key ts1) H c.
Proof.
  pose proof (lookup_lt_Some _ _ _ Hc).
  apply (gap_of_order (key ts) _ H); [apply (ok_order _ _ _ Hok)|lia|lia|]. intros i b Hib Hb.
  split; [done|]. apply key_insert_ne. by eapply rekey_ne.
Qed.

Lemma rekey_sift :
  resifted H rest ts1 a
    (if time_lt d (t_deadline t) then heap_sift_up (th_data h) ts1 a
     else heap_sift_down (th_data h) ts1 (th_active h) a) (λ H' _, heap_order (key ts1) H').
Proof.
  pose proof (ok_order _ _ _ Hok) as Hord. pose proof (lookup_lt_Some _ _ _ Hc) as Hlt.
  assert (Hka : key ts1 a = d) by apply key_insert_eq.
  destruct (time_lt d (t_deadline t)) eqn:Hlt'.
  - apply (heap_sift_up_spec H rest _ ts1 a c); [apply rekey_rep|done|apply rekey_gap|].
    intros i Hi' Hpi x y Hx Hy. assert (x = a) as -> by congruence. pose proof (par_bounds i (proj1 Hi')).
    rewrite Hka. etransitivity; [by apply time_lt_tle|]. rewrite <- (key_lookup ts a t) by done.
    unfold ts1. rewrite key_insert_ne by (eapply rekey_ne; [|done]; lia).
    apply (Hord i); [done|by rewrite Hpi|done].
  - rewrite (ok_active _ _ _ Hok).
    destruct (heap_sift_down_spec H rest (th_data h) ts1 a c rekey_rep Hc rekey_gap (ok_heap_max _ _ _ Hok))
      as (d2&ts2&H2&c2&?&?&?&?&?&?&?&Hpo).
    exists d2, ts2, H2, c2. split_and!; try done. eapply heap_order_gap; [done|done|]. apply Hpo.
    intros Hc0 x y Hx Hy. assert (y = a) as -> by congruence. pose proof (par_bounds c Hc0). unfold ts1.
    rewrite key_insert_eq, key_insert_ne by (eapply rekey_ne; [|done]; lia).
    etransitivity; [by apply (Hord c)|]. by rewrite (key_lookup ts a t).
Qed.
End rekey.

Lemma rekey_spec h ts H a t d :
  heap_ok h ts H → a ∈ H → ts !! a = Some t →
  heap_after h ts
    (let ts := <[a := t_set_deadline d t]> ts in
     '(data, ts) ← (if time_lt d (t_deadline t) then heap_sift_up (th_data h) ts a
                    else heap_sift_down (th_data h) ts (th_active h) a);
     Some (th_set_data data h, ts))
    (<[a := d]> (armed ts)).
Proof.
  intros Hok Ha Ht. destruct (proj1 (list_elem_of_lookup H a) Ha) as [c Hc].
  destruct (ok_rep _ _ _ Hok) as [rest Hf]. cbv zeta.
  destruct (rekey_sift h ts H rest a t d c Hok Hf Ht Hc) as (d2&ts2&H2&c2&->&Hf2&_&Hp2&Hm2&Ho2).
  set (ts1 := <[a := _]> ts) in *. cbn [mbind option_bind].
  assert (Ho1 : others ts1 = others ts) by by apply (others_insert ts a t).
  eexists _, ts2, H2. split; [done|]. assert (Hok' : heap_ok (th_set_data d2 h) ts2 H2).
  { apply (after_sift h ts H _ ts1 ts2 H H2 rest); try done; cbn.
    - apply (ok_live _ _ _ Hok).
    - intros b tb Hb Hn. unfold ts1 in Hb. rewrite lookup_insert_ne in Hb by set_solver.
      by apply (ok_idle _ _ _ Hok b).
    - apply (ok_active _ _ _ Hok).
    - by rewrite (full_app_data _ _ _ _ Hf2), (full_app_data _ _ _ _ Hf), Hp2. }
  split_and!; try done; [|by rewrite (moved_others _ _ _ Hm2)].
  eapply (armed_insert h ts H _ ts1 ts2 H H2); try done; [apply key_insert_eq|].
  intros. by apply key_insert_ne.
Qed.

(** The first entry of a heap that is not empty is armed and the earliest. *)
Definition earliest (A : gmap Z timespec) (r : Z) (d : timespec) : Prop :=
  A !! r = Some d ∧ ∀ b e, A !! b = Some e → tle d e.

Lemma ok_root h ts H :
  heap_ok h ts H → 0 < th_active h →
  ∃ r, data_get (th_data h) 0 = Some r ∧ r ∈ H ∧ deadline_of ts r = Some (key ts r) ∧
    earliest (armed ts) r (key ts r).
Proof.
  intros Hok Hpos. pose proof Hok as [[rest [Hd Hidx]] Hact _ _ _ _ _ _ Hord].
  destruct H as [|r H]; [cbn in Hact; lia|]. exists r. assert (Hr : r ∈ r :: H) by set_solver.
  split_and!; [by rewrite Hd|done|apply deadline_of_key; by eapply ok_known|split].
  - by rewrite (armed_lookup _ _ _ _ Hok), decide_True.
  - intros b e. rewrite (armed_lookup _ _ _ _ Hok). case_decide as Hb; [|done]. intros [= <-].
    by apply (heap_root_min (key ts) (r :: H)).
Qed.

Lemma armed_size h ts H : heap_ok h ts H → Z.of_nat (size (armed ts)) = th_active h.
Proof.
  intros Hok. pose proof Hok as [[rest Hf] Hact _ _ _ _ _ _ _]. pose proof (full_nodup _ _ _ _ Hf).
  rewrite Hact, <- size_dom, <- (size_list_to_set (C := gset Z) H) by done. do 2 f_equal.
  apply set_eq. intros a. rewrite elem_of_dom, elem_of_list_to_set, (armed_lookup _ _ _ _ Hok).
  case_decide; split; done.
Qed.

Lemma ok_index_zero h ts H a t :
  heap_ok h ts H → ts !! a = Some t → a ∈ H →
  t_heap_idx t = 0 → earliest (armed ts) a (key ts a).
Proof.
  intros Hok Ht Ha Hi. destruct (ok_index h ts H a t Hok Ht) as [(_&c&Hc&Hi')|[? _]]; [|done].
  assert (c = 0%nat) as -> by lia. split; [by rewrite (armed_lookup _ _ _ _ Hok), decide_True|].
  intros b e. rewrite (armed_lookup _ _ _ _ Hok). case_decide; [|done]. intros [= <-].
  apply (heap_root_min (key ts) H); [apply (ok_order _ _ _ Hok)|done|done].
Qed.
