(* ===== verification/WlTimerOps.v ===== *)
(** * Timer sources on top of the timer heap

    Models the timer sources of wayland/build/src/event-loop.c: the creation
    of the timerfd, adding, updating and removing timers and the dispatch of
    the timers that are due (lines 305-330, 398-530, 553-653 and the timer part
    of [wl_event_source_remove]).  The theorems relate them to the abstract
    state [armed], a finite map from timers to deadlines: updating inserts or
    deletes, dispatching calls exactly the timers that are due in the order of
    their deadlines, and the timerfd is never programmed later than the
    earliest deadline. *)

From Stdlib Require Import Sorting.Sorted.
From S2P Require Import Prelude Os OsSim WlTimer.
Open Scope Z_scope.

(** ** The operating system *)

Definition EPOLLIN : Z := 1.
Definition EPOLLOUT : Z := 4.
Definition EPOLLERR : Z := 8.
Definition EPOLLHUP : Z := 16.

(** [epoll_ctl] to add, modify (events, pointer) and delete, and [epoll_wait]
    with a maximum number of events and a timeout. *)
Class OsEpoll (W : Type) := {
  os_epoll_add : Z → Z → Z → Z → W → cres unit * W;
  os_epoll_mod : Z → Z → Z → Z → W → cres unit * W;
  os_epoll_del : Z → Z → W → W;
  os_epoll_wait : Z → Z → Z → W → cres (list (Z * Z)) * W
}.

(** [zalloc] of a structure that is named by its address. *)
Class OsNew (W : Type) := { os_new : W → option Z * W }.

(** ** Operations *)

Section timer_sources.
Context {W : Type} `{OsMem W} `{OsFd W} `{OsTimer W} `{OsEpoll W} `{OsNew W}.

Definition wl_timer_heap_ensure_timerfd (epoll_fd timers_ptr : Z) (h : wl_timer_heap) (w : W)
    : cres unit * wl_timer_heap * W :=
  if negb (th_fd h =? -1) then (Ret tt, h, w)
  else
    match os_timerfd_create w with
    | (Fail e, w) => (Fail e, h, w)
    | (Ret timer_fd, w) =>
        match os_epoll_add epoll_fd timer_fd EPOLLIN timers_ptr w with
        | (Fail e, w) => (Fail e, h, os_close timer_fd w)
        | (Ret _, w) => (Ret tt, th_set_fd timer_fd h, w)
        end
    end.

Definition new_timer : timer := mk_timer (-1) ts_zero (-1) 0.

(** No source is [NULL]. *)
Definition wl_event_loop_add_timer (epoll_fd timers_ptr : Z) (h : wl_timer_heap) (ts : store) (w : W)
    : option (option Z * wl_timer_heap * store * W) :=
  match wl_timer_heap_ensure_timerfd epoll_fd timers_ptr h w with
  | (Fail _, h, w) => Some (None, h, ts, w)
  | (Ret _, h, w) =>
      match os_new w with
      | (None, w) => Some (None, h, ts, w)
      | (Some source, w) =>
          '(r, h, w) ← wl_timer_heap_reserve h w;
          match r with
          | Fail _ => Some (None, h, ts, w)
          | Ret _ => Some (Some source, h, <[source := new_timer]> ts, w)
          end
      end
  end.

(** The part of [wl_event_source_remove] for timers. *)
Definition timer_remove (h : wl_timer_heap) (ts : store) (source : Z) (w : W)
    : option (wl_timer_heap * store * W) :=
  t ← ts !! source;
  if t_fd t =? TIMER_REMOVED then Some (h, ts, w)
  else
    '(_, h, ts, w) ← wl_event_source_timer_update h ts source 0 w;
    '(h, w) ← wl_timer_heap_unreserve h w;
    t ← ts !! source;
    Some (h, <[source := t_set_fd TIMER_REMOVED t]> ts, w).
End timer_sources.

(** ** What the theorems rely on *)

Definition valid_ts (t : timespec) : Prop := 0 <= tv_sec t ∧ 0 <= tv_nsec t < 1000000000.

(** The time the timer descriptor is armed for. *)
Class OsTimerGhost (W : Type) := { timer_setting : Z → W → option timespec }.

Class OsTimerLaws (W : Type) `{OsMem W, OsTimer W, OsNew W, OsTimerGhost W} : Prop := {
  os_clock_law (w : W) :
    let '(now, w') := os_clock_gettime w in
    valid_ts now ∧ ∀ fd, timer_setting fd w' = timer_setting fd w;
  os_settime_law fd d (w : W) :
    valid_ts d → d ≠ ts_zero →
    match os_timerfd_settime fd true d w with
    | (Ret _, w') => timer_setting fd w' = Some d
    | (Fail _, w') => timer_setting fd w' = timer_setting fd w
    end;
  os_timerfd_create_law (w : W) :
    match os_timerfd_create w with (Ret fd, _) => 0 <= fd | (Fail _, _) => True end;
  os_alloc_timer n fd (w : W) : timer_setting fd (snd (os_alloc n w)) = timer_setting fd w;
  os_new_timer fd (w : W) : timer_setting fd (snd (os_new w)) = timer_setting fd w
}.

(** ** Deadlines *)

Definition to_ns (t : timespec) : Z := tv_sec t * 1000000000 + tv_nsec t.

Lemma valid_lt_ns a b : valid_ts a → valid_ts b → time_lt a b = true ↔ to_ns a < to_ns b.
Proof. unfold valid_ts, to_ns. intros. rewrite time_lt_lex. lia. Qed.

(** The deadline is the given number of milliseconds after [now]. *)
Lemma timer_deadline_spec now ms :
  valid_ts now → 0 < ms →
  valid_ts (timer_deadline now ms) ∧ to_ns (timer_deadline now ms) = to_ns now + ms * 1000000.
Proof.
  unfold valid_ts, to_ns, timer_deadline. intros Hv Hms.
  rewrite (Z.rem_mod_nonneg ms 1000), (Z.quot_div_nonneg ms 1000) by lia.
  pose proof (Z.div_mod ms 1000 ltac:(lia)). pose proof (Z.mod_pos_bound ms 1000 ltac:(lia)).
  pose proof (Z.div_pos ms 1000 ltac:(lia) ltac:(lia)).
  case_step; zbool; cbn; lia.
Qed.

Lemma timer_deadline_nonzero now ms :
  valid_ts now → 0 < ms → valid_ts (timer_deadline now ms) ∧ timer_deadline now ms ≠ ts_zero.
Proof.
  intros Hv Hms. destruct (timer_deadline_spec now ms Hv Hms) as [Hd Hn]. split; [done|].
  intros E. rewrite E in Hn. unfold to_ns, valid_ts in *. cbn in Hn. lia.
Qed.

(** ** Updating a timer *)

Definition armed_valid (A : gmap Z timespec) : Prop :=
  ∀ b e, A !! b = Some e → valid_ts e ∧ e ≠ ts_zero.

Lemma armed_valid_insert A a d :
  armed_valid A → valid_ts d → d ≠ ts_zero → armed_valid (<[a := d]> A).
Proof. intros HA Hv Hd b e [[-> ->]|[? Hb]]%lookup_insert_Some; [done|by apply (HA b)]. Qed.

Lemma armed_valid_subseteq A A' : armed_valid A → A' ⊆ A → armed_valid A'.
Proof. intros HA Hsub b e Hb. apply (HA b). by eapply lookup_weaken. Qed.

Section update.
Context {W : Type} {EM : OsMem W} {ET : OsTimer W} {EN : OsNew W} {EG : OsTimerGhost W}
  {EL : OsTimerLaws W}.

(** The descriptor wakes the loop up no later than the earliest deadline. *)
Definition wake_ok (fd : Z) (A : gmap Z timespec) (w : W) : Prop :=
  ∀ b e, A !! b = Some e → ∃ d, timer_setting fd w = Some d ∧ tle d e.

Lemma wake_ok_subseteq fd A A' w : wake_ok fd A w → A' ⊆ A → wake_ok fd A' w.
Proof. intros HA Hsub b e Hb. apply (HA b). by eapply lookup_weaken. Qed.

Lemma wake_ok_set fd A r d w w' :
  earliest A r d → armed_valid A → set_timer fd d w = (Ret tt, w') → wake_ok fd A w'.
Proof.
  intros [Hr Hmin] HA Hset b e Hb. destruct (HA r d Hr) as [Hv Hz].
  pose proof (os_settime_law fd d w Hv Hz) as Hlaw. unfold set_timer in Hset. rewrite Hset in Hlaw.
  exists d. eauto.
Qed.

(** When the new timer is not the earliest, an older one is. *)
Lemma wake_ok_insert fd A a d w r e :
  wake_ok fd A w → earliest (<[a := d]> A) r e → a ≠ r → wake_ok fd (<[a := d]> A) w.
Proof.
  intros HA [Hr Hmin] Hne b e' Hb. rewrite lookup_insert_ne in Hr by done.
  destruct (HA r e Hr) as (s&Hs&Hle). exists s. split; [done|]. etransitivity; [done|]. by apply (Hmin b).
Qed.

Lemma armed_notin h ts H a : heap_ok h ts H → a ∉ H → armed ts !! a = None.
Proof. intros Hok Ha. by rewrite (armed_lookup _ _ _ _ Hok), decide_False. Qed.

(** The two ways of giving a timer a deadline. *)
Lemma set_deadline_spec h ts H a t d :
  heap_ok h ts H → ts !! a = Some t → a ∈ live ts →
  heap_after h ts
    (if t_heap_idx t =? -1 then wl_timer_heap_arm h ts a d
     else
       '(data, ts) ←
         (if time_lt d (t_deadline t) then heap_sift_up (th_data h) (<[a := t_set_deadline d t]> ts) a
          else heap_sift_down (th_data h) (<[a := t_set_deadline d t]> ts) (th_active h) a);
       Some (th_set_data data h, ts))
    (<[a := d]> (armed ts)).
Proof.
  intros Hok Ht Hl. destruct (ok_index h ts H a t Hok Ht) as [(Ha&i&_&Hi)|[Ha Hi]].
  - rewrite (proj2 (Z.eqb_neq _ _)) by lia. by apply (rekey_spec h ts H).
  - rewrite (proj2 (Z.eqb_eq _ _)) by lia. by apply (arm_spec h ts H a t).
Qed.

(** What updating does to the armed timers. *)
Definition updated (A : gmap Z timespec) (a ms : Z) (now : timespec) : gmap Z timespec :=
  if 0 <? ms then <[a := timer_deadline now ms]> A else delete a A.

Definition update_outcome (P : cres unit → Prop) (h : wl_timer_heap) (ts : store) (w : W)
    (A' : gmap Z timespec) (res : option (cres unit * wl_timer_heap * store * W)) : Prop :=
  ∃ r h' ts' H' w', res = Some (r, h', ts', w') ∧
    heap_ok h' ts' H' ∧ others ts' = others ts ∧ th_fd h' = th_fd h ∧ th_count h' = th_count h ∧
    armed ts' = A' ∧
    (armed_valid (armed ts) → armed_valid (armed ts') ∧
       (wake_ok (th_fd h) (armed ts) w → P r → wake_ok (th_fd h') (armed ts') w')).

(** The timer at the root is the one the descriptor has to be set for. *)
Lemma root_is_first h ts H a t r :
  heap_ok h ts H → ts !! a = Some t → t_heap_idx t ≠ 0 → data_get (th_data h) 0 = Some r →
  a ∈ H → a ≠ r.
Proof.
  intros Hok Ht Hz Hg Ha <-. destruct (ok_rep _ _ _ Hok) as [rest [Hd Hidx]]. rewrite Hd in Hg.
  destruct H as [|x H]; [set_solver|]. cbn in Hg. injection Hg as ->.
  destruct (Hidx 0%nat a eq_refl) as (t''&?&?). by simplify_eq.
Qed.

Lemma timer_set_spec h ts H a ms (w : W) :
  heap_ok h ts H → a ∈ live ts → 0 < ms →
  update_outcome (λ r, r = Ret tt) h ts w (<[a := timer_deadline (fst (os_clock_gettime w)) ms]> (armed ts))
    (wl_event_source_timer_update h ts a ms w).
Proof.
  intros Hok Hl Hms. pose proof Hl as (t&Ht&_)%live_spec. unfold wl_event_source_timer_update.
  rewrite Ht. cbn [mbind option_bind]. rewrite (proj2 (Z.ltb_lt _ _)) by done.
  pose proof (os_clock_law w) as Hclk. destruct (os_clock_gettime w) as [now w1]. cbn [fst].
  destruct Hclk as [Hv Hfd]. set (d := timer_deadline now ms).
  destruct (timer_deadline_nonzero now ms Hv Hms) as [Hdv Hdz].
  destruct (set_deadline_spec h ts H a t d Hok Ht Hl) as (h'&ts'&H'&->&Hok'&HA&Ho&Hf&Hc).
  cbn [mbind option_bind]. assert (Ha' : armed ts' !! a = Some d) by by rewrite HA, lookup_insert_eq.
  assert (a ∈ H') as Hin'.
  { rewrite (armed_lookup _ _ _ _ Hok') in Ha'. by case_decide. }
  destruct (ok_known h' ts' H' a Hok' Hin') as [t' Ht'].
  assert (Hkey : key ts' a = d).
  { rewrite (armed_lookup _ _ _ _ Hok'), decide_True in Ha' by done. congruence. }
  assert (Hval : armed_valid (armed ts) → armed_valid (armed ts'))
    by (rewrite HA; intros; by apply armed_valid_insert).
  rewrite Ht'. cbn [mbind option_bind]. destruct (Z.eqb_spec (t_heap_idx t') 0) as [Hz|Hz].
  + destruct (set_timer (th_fd h') d w1) as [r w2] eqn:Hset. eexists r, h', ts', H', w2.
    split_and!; try done. intros Hav. split; [by apply Hval|]. intros _ ->.
    apply (wake_ok_set _ _ a d w1); [|by apply Hval|done]. rewrite <- Hkey. by eapply ok_index_zero.
  + eexists _, h', ts', H', w1. split_and!; try done. intros Hav. split; [by apply Hval|].
    intros Hw _. rewrite HA, Hf. pose proof (armed_size _ _ _ Hok') as Hsz.
    destruct (ok_root h' ts' H' Hok') as (r&Hg&Hr&_&He).
    { rewrite (ok_active _ _ _ Hok'). destruct H'; [set_solver|cbn; lia]. }
    apply (wake_ok_insert _ _ _ _ _ r (key ts' r)); [|by rewrite <- HA|].
    * intros b e Hb. destruct (Hw b e Hb) as (s&Hs&?). exists s. by rewrite Hfd.
    * by eapply root_is_first.
Qed.

Lemma timer_clear_spec h ts H a ms (w : W) :
  heap_ok h ts H → a ∈ live ts → ms <= 0 →
  update_outcome (λ _, True) h ts w (delete a (armed ts)) (wl_event_source_timer_update h ts a ms w).
Proof.
  intros Hok Hl Hms. pose proof Hl as (t&Ht&_)%live_spec. unfold wl_event_source_timer_update.
  rewrite Ht. cbn [mbind option_bind]. rewrite (proj2 (Z.ltb_ge _ _)) by done.
  destruct (ok_index h ts H a t Hok Ht) as [(Ha&i&_&Hi)|[Ha Hi]].
  + rewrite (proj2 (Z.eqb_neq _ _)) by lia.
    destruct (disarm_spec h ts H a Hok Ha) as (h'&ts'&H'&->&Hok'&HA&Ho&Hf&Hc). cbn [mbind option_bind].
    assert (Hsub : armed ts' ⊆ armed ts) by (rewrite HA; apply delete_subseteq).
    destruct (Z.eqb_spec (th_active h') 0) as [Hz|Hz].
    * destruct (clear_timer (th_fd h') w) as [r w2]. eexists r, h', ts', H', w2. split_and!; try done.
      intros Hav. split; [by eapply armed_valid_subseteq|]. intros _ _ b e Hb.
      pose proof (armed_size _ _ _ Hok') as Hsz. rewrite Hz in Hsz.
      assert (armed ts' = ∅) as E by (apply map_size_empty_inv; lia). rewrite E in Hb. done.
    * eexists _, h', ts', H', w. split_and!; try done. intros Hav. split; [by eapply armed_valid_subseteq|].
      intros Hw _. rewrite Hf. by eapply wake_ok_subseteq.
  + rewrite Hi. cbn [Z.eqb Pos.eqb]. eexists _, h, ts, H, w. split_and!; try done.
    by rewrite delete_id by by eapply armed_notin.
Qed.

Lemma timer_update_spec h ts H a ms (w : W) :
  heap_ok h ts H → a ∈ live ts →
  update_outcome (λ r, r = Ret tt) h ts w (updated (armed ts) a ms (fst (os_clock_gettime w)))
    (wl_event_source_timer_update h ts a ms w).
Proof.
  intros Hok Hl. unfold updated. destruct (Z.ltb_spec 0 ms); [by eapply timer_set_spec|].
  destruct (timer_clear_spec h ts H a ms w) as (r&h'&ts'&H'&w'&?&?&?&?&?&?&Hw); try done.
  exists r, h', ts', H', w'. split_and!; try done. intros Hv. destruct (Hw Hv) as [? Hwk]. auto.
Qed.
End update.

(** ** Adding and removing timers *)

Lemma realloc_prefix (l rest : list Z) n junk :
  Z.of_nat (length l) <= n → ∃ rest', realloc_block (l ++ rest) n junk = l ++ rest'.
Proof.
  intros Hn. unfold realloc_block. rewrite <- app_assoc, take_app_ge by lia. by eexists.
Qed.

Section sources.
Context {W : Type} {EM : OsMem W} {EF : OsFd W} {ET : OsTimer W} {EE : OsEpoll W} {EN : OsNew W}
  {EG : OsTimerGhost W} {EL : OsTimerLaws W}.

Definition same_setting (w w' : W) : Prop := ∀ fd, timer_setting fd w' = timer_setting fd w.

Lemma wake_ok_same fd A w w' : same_setting w w' → wake_ok fd A w → wake_ok fd A w'.
Proof. intros Hs HA b e Hb. rewrite Hs. by apply (HA b). Qed.

(** The array is resized: it still lists [H] and has room for [n] timers. *)
Definition resized (h h' : wl_timer_heap) (H : list Z) (n : Z) : Prop :=
  th_fd h' = th_fd h ∧ th_active h' = th_active h ∧ th_count h' = n ∧ n <= th_space h' ∧
  th_space h' = Z.of_nat (length (th_data h')) ∧ ∃ rest, th_data h' = H ++ rest.

Lemma reserve_spec h ts H (w : W) :
  heap_ok h ts H → th_count h < MAX_TIMERS →
  ∃ r h' w', wl_timer_heap_reserve h w = Some (r, h', w') ∧
    same_setting w w' ∧ match r with Fail _ => h' = h | Ret _ => resized h h' H (th_count h + 1) end.
Proof.
  intros Hok Hmax. unfold MAX_TIMERS in Hmax. pose proof (ok_active_le _ _ _ Hok) as Hle.
  pose proof Hok as [[rest [Hd _]] Hact Hsp Hct Hrm _ _ _ _]. unfold wl_timer_heap_reserve.
  rewrite (c_int_ok (th_count h + 1)) by lia. cbn [mbind option_bind]. destruct (Z.ltb_spec (th_space h) (th_count h + 1)) as [Hlt|Hlt].
  - set (ns := if 8 <=? th_space h then th_space h * 2 else 8).
    assert ((if 8 <=? th_space h then c_int (th_space h * 2) else Some 8) = Some ns) as ->.
    { unfold ns. case_step; [apply c_int_ok; lia|done]. }
    cbn [mbind option_bind]. assert (Hns : th_count h + 1 <= ns) by (unfold ns; case_step; zbool; lia).
    pose proof (os_alloc_timer (ns * sizeof_ptr)) as Hal.
    specialize (λ fd, Hal fd w). destruct (os_alloc (ns * sizeof_ptr) w) as [[junk|] w']; [|by do 3 eexists].
    do 3 eexists. split; [done|]. split; [done|]. destruct (realloc_prefix H rest ns junk) as [rest' Hr]; [lia|].
    unfold resized; cbn. rewrite length_realloc_block. split_and!; try done; [lia|].
    exists rest'. by rewrite Hd.
  - do 3 eexists. split; [done|]. split; [done|]. unfold resized; cbn. split_and!; try done. by exists rest.
Qed.

Lemma unreserve_spec h ts H (w : W) :
  heap_ok h ts H → Z.of_nat (length H) < th_count h →
  ∃ h' w', wl_timer_heap_unreserve h w = Some (h', w') ∧ same_setting w w' ∧ resized h h' H (th_count h - 1).
Proof.
  intros Hok Hlt. pose proof Hok as [[rest [Hd _]] Hact Hsp Hct Hrm _ _ _ _ Hmax]. unfold MAX_TIMERS in Hmax.
  unfold wl_timer_heap_unreserve. rewrite (c_int_ok (th_count h - 1)) by lia. cbn [mbind option_bind th_space th_set_count th_count th_data].
  rewrite (c_int_ok (4 * (th_count h - 1))) by lia. cbn [mbind option_bind].
  set (shrink := (16 <=? th_space h) && (4 * (th_count h - 1) <=? th_space h)).
  assert ((if 16 <=? th_space h then Some (4 * (th_count h - 1) <=? th_space h) else Some false) = Some shrink) as ->
    by (unfold shrink; by destruct (16 <=? th_space h)).
  cbn [mbind option_bind]. destruct shrink eqn:Hs; [unfold shrink in Hs; zbool|clear Hs].
  - pose proof (os_alloc_timer (th_space h / 2 * sizeof_ptr)) as Hal. specialize (λ fd, Hal fd w).
    assert (th_count h - 1 <= th_space h / 2) by mlia.
    destruct (os_alloc (th_space h / 2 * sizeof_ptr) w) as [[junk|] w']; do 2 eexists; (split; [done|]); (split; [done|]).
    + destruct (realloc_prefix H rest (th_space h / 2) junk) as [rest' Hr]; [lia|].
      unfold resized; cbn. rewrite length_realloc_block. split_and!; try done; [lia|].
      exists rest'. by rewrite Hd.
    + unfold resized; cbn. split_and!; try done; [lia|]. by exists rest.
  - do 2 eexists. split; [done|]. split; [done|]. unfold resized; cbn. split_and!; try done; [lia|]. by exists rest.
Qed.

(** A store that differs in timers that are not armed, over a resized array. *)
Lemma heap_ok_resized h h' ts ts' H n :
  heap_ok h ts H → resized h h' H n → n <= MAX_TIMERS → n = Z.of_nat (size (live ts')) → ts' !! 0 = None →
  (∀ a, a ∈ H → ts' !! a = ts !! a) → (∀ a t, a ∉ H → ts' !! a = Some t → t_heap_idx t = -1) →
  heap_ok h' ts' H ∧ armed ts' = armed ts.
Proof.
  intros Hok (Hf&Ha&Hc&Hr&Hs&rest&Hd) Hmax Hn H0 Hin Hout. pose proof Hok as [[rest0 [_ Hidx]] Hact _ _ _ Hl _ _ Hord].
  assert (Hkey : ∀ a, a ∈ H → key ts' a = key ts a) by (intros a Hain; unfold key; by rewrite Hin).
  assert (Hok' : heap_ok h' ts' H).
  { constructor; try done; try congruence.
    - exists rest. split; [done|]. intros i a Hi. destruct (Hidx i a Hi) as (t&?&?).
      exists t. by rewrite Hin by by eapply list_elem_of_lookup_2.
    - intros a Hain. apply live_spec. rewrite Hin by done. apply live_spec. by apply Hl.
    - eauto.
    - eapply heap_order_key; [|done]. intros a Hain. by rewrite Hkey. }
  split; [done|]. apply map_eq. intros a. rewrite (armed_lookup _ _ _ _ Hok), (armed_lookup _ _ _ _ Hok').
  case_decide; [|done]. by rewrite Hkey.
Qed.

(** [th_fd] is the timerfd, created with the first timer. *)
Definition timers_inv (h : wl_timer_heap) (ts : store) : Prop :=
  armed_valid (armed ts) ∧ (th_fd h = -1 → th_count h = 0) ∧ ∃ H, heap_ok h ts H.

Lemma armed_nonempty_fd h ts a d :
  timers_inv h ts → armed ts !! a = Some d → th_fd h ≠ -1.
Proof.
  intros (_&Hfd&H&Hok) Ha Hc. pose proof (armed_size _ _ _ Hok) as Hsz.
  pose proof (ok_active_le _ _ _ Hok). rewrite <- (ok_active _ _ _ Hok), Hfd in * by done.
  assert (armed ts = ∅) as E by (apply map_size_empty_inv; lia). by rewrite E in Ha.
Qed.

Lemma ensure_timerfd_spec epfd ptr h ts (w : W) :
  timers_inv h ts →
  let '(r, h', w') := wl_timer_heap_ensure_timerfd epfd ptr h w in
  timers_inv h' ts ∧ (r = Ret tt → th_fd h' ≠ -1) ∧ th_count h' = th_count h ∧
  (wake_ok (th_fd h) (armed ts) w → wake_ok (th_fd h') (armed ts) w').
Proof.
  intros Hinv. pose proof Hinv as (Hv&Hfd&H&Hok). unfold wl_timer_heap_ensure_timerfd.
  destruct (Z.eqb_spec (th_fd h) (-1)) as [E|E]; [|done]. cbn [negb].
  assert (Hvac : ∀ fd w', wake_ok fd (armed ts) w').
  { intros fd w' b e Hb. by destruct (armed_nonempty_fd h ts b e Hinv Hb). }
  pose proof (os_timerfd_create_law w) as Hfd'. destruct (os_timerfd_create w) as [[fd|e] w1]; [|done].
  destruct (os_epoll_add epfd fd EPOLLIN ptr w1) as [[|e] w2]; [|done].
  split_and!; [|cbn; lia|done|done]. split; [done|]. split; [cbn; intros _; by apply Hfd|]. exists H. by destruct Hok; constructor.
Qed.

Lemma live_insert ts a t :
  t_fd t ≠ TIMER_REMOVED → live (<[a := t]> ts) = {[a]} ∪ live ts.
Proof.
  intros Ht. apply set_eq. intros b. rewrite elem_of_union, elem_of_singleton, !live_spec. split.
  - intros (t'&[[-> _]|[Hne Hb]]%lookup_insert_Some&?); [by left|right; eauto].
  - destruct (decide (b = a)) as [->|Hne]; [exists t; by rewrite lookup_insert_eq|].
    intros [?|(t'&?&?)]; [done|]. exists t'. by rewrite lookup_insert_ne.
Qed.

Lemma live_remove ts a t :
  t_fd t = TIMER_REMOVED → live (<[a := t]> ts) = live ts ∖ {[a]}.
Proof.
  intros Ht. apply set_eq. intros b. rewrite elem_of_difference, elem_of_singleton, !live_spec. split.
  - intros (t'&[[-> <-]|[Hne Hb]]%lookup_insert_Some&?); [done|split; eauto].
  - intros [(t'&?&?) ?]. exists t'. by rewrite lookup_insert_ne.
Qed.

Lemma add_timer_spec epfd ptr h ts (w : W) :
  timers_inv h ts → th_count h < MAX_TIMERS →
  (∀ a, fst (os_new (snd (wl_timer_heap_ensure_timerfd epfd ptr h w))) = Some a → a ≠ 0 ∧ ts !! a = None) →
  ∃ r h' ts' w', wl_event_loop_add_timer epfd ptr h ts w = Some (r, h', ts', w') ∧
    timers_inv h' ts' ∧ armed ts' = armed ts ∧
    (∀ a, r = Some a → ts' = <[a := new_timer]> ts ∧ ts !! a = None) ∧
    (wake_ok (th_fd h) (armed ts) w → wake_ok (th_fd h') (armed ts') w').
Proof.
  intros Hinv Hmax Hfresh. unfold wl_event_loop_add_timer. pose proof (ensure_timerfd_spec epfd ptr h ts w Hinv) as He.
  destruct (wl_timer_heap_ensure_timerfd epfd ptr h w) as [[[u|e] h1] w1];
    [|destruct He as (?&_&_&?); do 4 eexists; split; [done|]; by split_and!].
  destruct He as (Hinv1&Hfd1&Hc1&Hw1). destruct u. specialize (Hfd1 eq_refl). pose proof (λ fd, os_new_timer fd w1) as Hnew. cbn [snd] in Hfresh.
  destruct (os_new w1) as [[a|] w2] eqn:Enew; cbn in Hnew, Hfresh.
  2:{ do 4 eexists. split; [done|]. split_and!; try done. intros Hw. eapply wake_ok_same; [done|auto]. }
  destruct (Hfresh a eq_refl) as [Ha0 Hna]. pose proof Hinv1 as (Hv&_&H&Hok).
  destruct (reserve_spec h1 ts H w2 Hok) as (res&h2&w3&->&Hset&Hres); [lia|]. cbn [mbind option_bind].
  destruct res as [u'|e].
  2:{ subst h2. do 4 eexists. split; [done|]. split_and!; try done. intros Hw. do 2 (eapply wake_ok_same; [done|]). auto. }
  do 4 eexists. split; [done|].
  assert (HnH : a ∉ H) by (intros Hin; destruct (ok_known _ _ _ _ Hok Hin); congruence).
  destruct (heap_ok_resized h1 h2 ts (<[a := new_timer]> ts) H _ Hok Hres) as [Hok2 HA].
  - lia.
  - assert (a ∉ live ts) by (intros (?&?&_)%live_spec; congruence).
    rewrite live_insert, size_union, size_singleton, (ok_count _ _ _ Hok) by (done || set_solver). lia.
  - rewrite lookup_insert_ne by done. apply (ok_null _ _ _ Hok).
  - intros b Hb. rewrite lookup_insert_ne by set_solver. done.
  - intros b t Hb [[-> <-]|[Hne Hbt]]%lookup_insert_Some; [done|]. by apply (ok_idle _ _ _ Hok b).
  - split_and!; [split_and!| | |]; try (rewrite HA; done).
    + destruct Hres as (->&_). done.
    + by exists H.
    + intros ? [= <-]. done.
    + intros Hw. destruct Hres as (->&_). rewrite HA. do 2 (eapply wake_ok_same; [done|]). auto.
Qed.

Lemma others_fd ts ts' a t :
  others ts' = others ts → ts !! a = Some t → ∃ t', ts' !! a = Some t' ∧ t_fd t' = t_fd t ∧ t_next_due t' = t_next_due t.
Proof.
  intros Ho Ht. apply (f_equal (.!! a)) in Ho. unfold others in Ho. rewrite !lookup_fmap, Ht in Ho.
  destruct (ts' !! a) as [t'|]; [|done]. cbn in Ho. injection Ho as ??. by exists t'.
Qed.

(** A removed timer is disarmed, and stays in the store until it is freed. *)
Lemma timer_remove_spec h ts a t (w : W) :
  timers_inv h ts → ts !! a = Some t →
  ∃ h' ts' w' t', timer_remove h ts a w = Some (h', ts', w') ∧ timers_inv h' ts' ∧
    armed ts' = delete a (armed ts) ∧ ts' !! a = Some t' ∧ t_fd t' = TIMER_REMOVED ∧
    (∀ b t, ts !! b = Some t → ∃ t', ts' !! b = Some t' ∧ t_next_due t' = t_next_due t) ∧
    (wake_ok (th_fd h) (armed ts) w → wake_ok (th_fd h') (armed ts') w').
Proof.
  intros (Hv&Hfd&H&Hok) Ht. unfold timer_remove. rewrite Ht. cbn [mbind option_bind].
  destruct (Z.eqb_spec (t_fd t) TIMER_REMOVED) as [E|E].
  { assert (a ∉ H) as Hn. { intros Hin%(ok_live _ _ _ Hok)%live_spec. destruct Hin as (?&?&?). congruence. }
    exists h, ts, w, t. split_and!; try done; [by split_and!; [..|exists H]| |by eauto].
    by rewrite delete_id by by eapply armed_notin. }
  assert (Hl : a ∈ live ts) by (apply live_spec; eauto).
  destruct (timer_clear_spec h ts H a 0 w Hok Hl) as (r&h1&ts1&H1&w1&->&Hok1&Ho1&Hf1&Hc1&HA1&Hw1); [done|].
  destruct (Hw1 Hv) as [Hv1 Hwk]. cbn [mbind option_bind]. destruct (others_fd ts ts1 a t Ho1 Ht) as (t1&Ht1&Hfd1&Hn1).
  assert (HnH : a ∉ H1).
  { intros Hin. assert (armed ts1 !! a = None) as En by by rewrite HA1, lookup_delete_eq.
    by rewrite (armed_lookup _ _ _ _ Hok1), decide_True in En. }
  assert (Hl1 : a ∈ live ts1) by by rewrite (live_others _ _ Ho1).
  destruct (unreserve_spec h1 ts1 H1 w1 Hok1 (ok_active_lt _ _ _ _ Hok1 Hl1 HnH)) as (h2&w2&->&Hset&Hres).
  cbn [mbind option_bind]. rewrite Ht1. cbn [mbind option_bind]. set (ts2 := <[a := _]> ts1).
  destruct (heap_ok_resized h1 h2 ts1 ts2 H1 _ Hok1 Hres) as [Hok2 HA2].
  - pose proof (ok_max _ _ _ Hok1). lia.
  - unfold ts2. rewrite live_remove, size_difference, size_singleton, (ok_count _ _ _ Hok1) by (done || set_solver).
    assert (size (live ts1) ≠ 0%nat); [|lia]. intros Hz%size_empty_inv. set_solver.
  - unfold ts2. rewrite lookup_insert_ne; [apply (ok_null _ _ _ Hok1)|]. intros ->.
    by rewrite (ok_null _ _ _ Hok) in Ht.
  - intros b Hb. unfold ts2. rewrite lookup_insert_ne by set_solver. done.
  - intros b tb Hb [[-> <-]|[Hne Hbt]]%lookup_insert_Some; cbn; by eapply (ok_idle _ _ _ Hok1).
  - eexists h2, ts2, w2, _. split; [done|]. pose proof Hres as (Hf2&_&Hc2&_).
    split_and!; [split_and!| | | | |]; try (rewrite HA2; done).
    + intros Hz. pose proof (ok_active_le _ _ _ Hok2). rewrite Hf2, Hf1 in Hz. specialize (Hfd Hz). lia.
    + by exists H1.
    + unfold ts2. by rewrite lookup_insert_eq.
    + done.
    + intros b tb Hb. destruct (others_fd ts ts1 b tb Ho1 Hb) as (tb'&Hb'&_&?). unfold ts2.
      destruct (decide (a = b)) as [<-|]; [eexists; rewrite lookup_insert_eq; split; [done|]; cbn; congruence|].
      exists tb'. by rewrite lookup_insert_ne.
    + intros Hw. rewrite Hf2, HA2. eapply wake_ok_same; [done|auto].
Qed.

(** [free] of a removed timer. *)
Lemma timer_free_spec h ts a t :
  timers_inv h ts → ts !! a = Some t → t_fd t = TIMER_REMOVED →
  timers_inv h (delete a ts) ∧ armed (delete a ts) = armed ts.
Proof.
  intros (Hv&Hfd&H&Hok) Ht E.
  assert (a ∉ live ts) as Hnl by (intros (?&?&?)%live_spec; congruence).
  assert (a ∉ H) as Hn by (intros Hin%(ok_live _ _ _ Hok); done).
  assert (live (delete a ts) = live ts) as Hl.
  { apply set_eq. intros b. rewrite !live_spec. split.
    - intros (tb&[? ?]%lookup_delete_Some&?). eauto.
    - intros (tb&?&?). exists tb. rewrite lookup_delete_ne; [done|]. intros ->. apply Hnl, live_spec. eauto. }
  destruct (ok_rep _ _ _ Hok) as [rest [Hd _]].
  destruct (heap_ok_resized h h ts (delete a ts) H (th_count h) Hok) as [Hok' HA].
  - split_and!; try done; [apply (ok_room _ _ _ Hok)|apply (ok_space _ _ _ Hok)|by exists rest].
  - apply (ok_max _ _ _ Hok).
  - by rewrite Hl, (ok_count _ _ _ Hok).
  - apply lookup_delete_None. right. apply (ok_null _ _ _ Hok).
  - intros b Hb. rewrite lookup_delete_ne by set_solver. done.
  - intros b tb Hb [_ Hbt]%lookup_delete_Some. by apply (ok_idle _ _ _ Hok b).
  - split; [|done]. split_and!; [by rewrite HA|done|by exists H].
Qed.
End sources.

(** ** Dispatching *)

Definition next_of (ts : store) (a : Z) : option Z := t_next_due <$> ts !! a.
Definition fd_of (ts : store) (a : Z) : option Z := t_fd <$> ts !! a.

(** The timers of [l] point at their successors, the last one anywhere. *)
Fixpoint chained (ts : store) (l : list Z) : Prop :=
  match l with
  | a :: (b :: _) as l' => next_of ts a = Some b ∧ chained ts l'
  | _ => True
  end.

(** The same, and the last one's successor is [NULL]. *)
Fixpoint linked (ts : store) (l : list Z) : Prop :=
  match l with
  | [] => True
  | a :: l => next_of ts a = Some (List.hd 0 l) ∧ linked ts l
  end.

Lemma others_next ts ts' a : others ts' = others ts → next_of ts' a = next_of ts a.
Proof.
  intros Ho. apply (f_equal (.!! a)) in Ho. unfold others in Ho. rewrite !lookup_fmap in Ho. unfold next_of.
  destruct (ts' !! a), (ts !! a); try done. injection Ho as _ E. cbn. by rewrite E.
Qed.

Lemma others_fd_of ts ts' a : others ts' = others ts → fd_of ts' a = fd_of ts a.
Proof.
  intros Ho. apply (f_equal (.!! a)) in Ho. unfold others in Ho. rewrite !lookup_fmap in Ho. unfold fd_of.
  destruct (ts' !! a), (ts !! a); try done. injection Ho as E _. cbn. by rewrite E.
Qed.

Lemma chained_ext ts ts' l : (∀ a, next_of ts' a = next_of ts a) → chained ts l → chained ts' l.
Proof.
  intros Hn. induction l as [|a [|b l] IH]; [done|done|]. intros [? ?].
  split; [by rewrite Hn|by apply IH].
Qed.

Lemma linked_ext ts ts' l : (∀ a, a ∈ l → next_of ts' a = next_of ts a) → linked ts l → linked ts' l.
Proof.
  induction l as [|a l IH]; [done|]. intros Hn [? ?]. split; [rewrite Hn by set_solver; done|].
  apply IH; [|done]. intros b Hb. apply Hn. set_solver.
Qed.

Lemma next_set ts a t n b :
  next_of (<[a := t_set_next n t]> ts) b = if decide (a = b) then Some n else next_of ts b.
Proof.
  unfold next_of. case_decide as E; [subst; by rewrite lookup_insert_eq|by rewrite lookup_insert_ne].
Qed.

(** Setting the successor of the last timer. *)
Lemma chained_snoc ts l z t r :
  chained ts (l ++ [z]) → NoDup (l ++ [z]) → chained (<[z := t_set_next r t]> ts) (l ++ [z; r]).
Proof.
  induction l as [|a l IH]; cbn [app].
  - intros _ _. split; [|done]. by rewrite next_set, decide_True.
  - intros Hc Hnd. apply NoDup_cons in Hnd as [Ha Hnd]. specialize (λ H, IH H Hnd).
    assert (z ≠ a) by (intros ->; set_solver).
    destruct l as [|b l]; cbn [app chained] in *.
    + destruct Hc as [Hc _]. rewrite !next_set, decide_False, decide_True by done. auto.
    + destruct Hc as [Hc Hc']. rewrite next_set, decide_False by done. by split; [|apply IH].
Qed.

Lemma linked_snoc ts l z t :
  chained ts (l ++ [z]) → NoDup (l ++ [z]) → linked (<[z := t_set_next 0 t]> ts) (l ++ [z]).
Proof.
  induction l as [|a l IH]; cbn [app].
  - intros _ _. split; [|done]. by rewrite next_set, decide_True.
  - intros Hc Hnd. apply NoDup_cons in Hnd as [Ha Hnd]. specialize (λ H, IH H Hnd).
    assert (z ≠ a) by (intros ->; set_solver). cbn [linked]. rewrite next_set, decide_False by done.
    destruct l as [|b l]; cbn [app chained List.hd] in *.
    + destruct Hc as [Hc _]. auto.
    + destruct Hc as [Hc Hc']. by split; [|apply IH].
Qed.

(** A timer that is not armed gets another successor. *)
Lemma heap_ok_next h ts H a t n :
  heap_ok h ts H → ts !! a = Some t → a ∉ H →
  heap_ok h (<[a := t_set_next n t]> ts) H ∧ armed (<[a := t_set_next n t]> ts) = armed ts.
Proof.
  intros Hok Ht Ha. assert (Hl : live (<[a := t_set_next n t]> ts) = live ts).
  { apply set_eq. intros b. rewrite !live_spec. destruct (decide (a = b)) as [<-|Hne].
    - rewrite lookup_insert_eq, Ht. split; intros (?&[= <-]&?); eexists; (split; [done|done]).
    - by rewrite lookup_insert_ne. }
  destruct (ok_rep _ _ _ Hok) as [rest [Hd _]]. apply (heap_ok_resized h h ts _ H (th_count h) Hok).
  - split_and!; try done; [apply (ok_room _ _ _ Hok)|apply (ok_space _ _ _ Hok)|by exists rest].
  - apply (ok_max _ _ _ Hok).
  - by rewrite Hl, (ok_count _ _ _ Hok).
  - rewrite lookup_insert_ne; [apply (ok_null _ _ _ Hok)|]. intros ->. by rewrite (ok_null _ _ _ Hok) in Ht.
  - intros b Hb. rewrite lookup_insert_ne by set_solver. done.
  - intros b tb Hb [[-> <-]|[? ?]]%lookup_insert_Some; cbn; by eapply (ok_idle _ _ _ Hok).
Qed.

Definition dl (A : gmap Z timespec) (a : Z) : timespec := default ts_zero (A !! a).

(** [l] lists the timers that are due at [now], earliest first. *)
Definition due_list (A : gmap Z timespec) (now : timespec) (l : list Z) : Prop :=
  NoDup l ∧ (∀ a, a ∈ l ↔ ∃ d, A !! a = Some d ∧ tle d now) ∧
  StronglySorted (λ a b, tle (dl A a) (dl A b)) l.

Definition not_due (now : timespec) (A : gmap Z timespec) : gmap Z timespec :=
  filter (λ p, time_lt now p.2 = true) A.

Lemma due_nil A now : (∀ a d, A !! a = Some d → time_lt now d = true) → due_list A now [] ∧ not_due now A = A.
Proof.
  intros HA. split.
  - split_and!; [constructor| |constructor]. intros a. split; [by intros ?%not_elem_of_nil|].
    intros (d&Hd&Hle). unfold tle in Hle. rewrite (HA a d Hd) in Hle. done.
  - apply map_filter_id. intros a d Hd. by apply (HA a).
Qed.

Lemma due_cons A now r d l :
  earliest A r d → tle d now → due_list (delete r A) now l →
  due_list A now (r :: l) ∧ not_due now (delete r A) = not_due now A.
Proof.
  intros [Hr Hmin] Hd (Hnd&Hin&Hs). split.
  - assert (r ∉ l) as Hrl. { intros (e&He&_)%Hin. by rewrite lookup_delete_eq in He. }
    assert (Hne : ∀ a, a ∈ l → r ≠ a) by (by intros a Ha ->). split_and!.
    + by constructor.
    + intros a. rewrite elem_of_cons, Hin. destruct (decide (r = a)) as [<-|Hra].
      * split; [eauto|by left].
      * rewrite lookup_delete_ne by done. naive_solver.
    + constructor.
      * clear -Hs Hne. induction Hs as [|a l Hs IH Hf]; constructor; [apply IH; set_solver|].
        rewrite Forall_forall in Hf |- *. intros b Hb. specialize (Hf b Hb). unfold dl in *.
        rewrite !lookup_delete_ne in Hf by (apply Hne; set_solver). done.
      * apply Forall_forall. intros b Hb. destruct (proj1 (Hin b) Hb) as (e&He&_).
        rewrite lookup_delete_ne in He by auto. unfold dl. rewrite Hr, He. by apply (Hmin b).
  - apply map_eq. intros a. unfold not_due. destruct (decide (r = a)) as [<-|Hne].
    + transitivity (@None timespec); [|symmetry]; apply map_lookup_filter_None.
      * left. apply lookup_delete_eq.
      * right. intros e He. rewrite Hr in He. injection He as <-. unfold tle in Hd. cbn. by rewrite Hd.
    + apply option_eq. intros e. rewrite !map_lookup_filter_Some, lookup_delete_ne by done. done.
Qed.

(** The timers already popped: none is armed any more. *)
Definition popped (ts : store) (l : list Z) : Prop :=
  NoDup l ∧ chained ts l ∧ ∀ a, a ∈ l → is_Some (ts !! a) ∧ armed ts !! a = None.

Lemma last_default (l : list Z) z : List.last (l ++ [z]) 0 = z.
Proof. by rewrite List.last_last. Qed.

(** One timer is added to the chain. *)
Lemma append_spec h ts H l r :
  heap_ok h ts H → popped ts l → l ≠ [] → r ∉ l → armed ts !! r = None → is_Some (ts !! r) →
  ∃ ts', list_append ts (List.last l 0) r = Some ts' ∧ heap_ok h ts' H ∧ armed ts' = armed ts ∧
    popped ts' (l ++ [r]) ∧ (∀ a, fd_of ts' a = fd_of ts a).
Proof.
  intros Hok (Hnd&Hc&Hl) Hne Hr Hra [tr Htr]. destruct l as [|z l _] using rev_ind; [done|]. rewrite last_default.
  destruct (Hl z) as [[t Ht] Hz]; [set_solver|]. unfold list_append. rewrite Ht. cbn [mbind option_bind].
  assert (z ∉ H) as HzH.
  { intros Hin. by rewrite (armed_lookup _ _ _ _ Hok), decide_True in Hz. }
  destruct (heap_ok_next h ts H z t r Hok Ht HzH) as [Hok' HA]. eexists. split; [done|]. split_and!; try done.
  - rewrite <- app_assoc. split_and!.
    + rewrite app_assoc. apply NoDup_app. split_and!; [done|set_solver|apply NoDup_singleton].
    + by apply chained_snoc.
    + rewrite HA. intros a Ha. rewrite app_assoc in Ha. apply elem_of_app in Ha as [Ha|Ha].
      * destruct (Hl a Ha) as [? ?]. split; [|done]. apply lookup_insert_is_Some'. by right.
      * apply list_elem_of_singleton in Ha as ->. split; [|done]. apply lookup_insert_is_Some'. right. by eexists.
  - intros a. unfold fd_of. destruct (decide (z = a)) as [<-|]; [by rewrite lookup_insert_eq, Ht|by rewrite lookup_insert_ne].
Qed.

Lemma popped_disarm ts ts' l r :
  popped ts l → armed ts' = delete r (armed ts) → others ts' = others ts → popped ts' l.
Proof.
  intros (Hnd&Hc&Hl) HA Ho. split_and!; [done| |].
  - eapply chained_ext; [|done]. intros a. by apply others_next.
  - intros a Ha. destruct (Hl a Ha) as [[t Ht] Hn]. destruct (others_fd ts ts' a t Ho Ht) as (t'&?&_).
    split; [by eexists|]. rewrite HA. by apply lookup_delete_None; right.
Qed.

(** The popped timer becomes the head of the chain, or is appended to it. *)
Lemma chain_step fuel h ts H now l r :
  heap_ok h ts H → popped ts l → r ∉ l → armed ts !! r = None → is_Some (ts !! r) →
  ∃ ts', (if List.hd 0 l =? 0 then collect_due fuel h ts now r r
          else ts ← list_append ts (List.last l 0) r; collect_due fuel h ts now (List.hd 0 l) r)
      = collect_due fuel h ts' now (List.hd 0 (l ++ [r])) (List.last (l ++ [r]) 0) ∧
    heap_ok h ts' H ∧ armed ts' = armed ts ∧ popped ts' (l ++ [r]) ∧ (∀ a, fd_of ts' a = fd_of ts a).
Proof.
  intros Hok Hpop Hrl Hr Hsr. rewrite last_default. destruct l as [|z l]; cbn [List.hd app].
  - exists ts. split_and!; try done. split_and!; [apply NoDup_singleton|done|].
    by intros a ->%list_elem_of_singleton.
  - destruct (Z.eqb_spec z 0) as [->|_].
    { destruct Hpop as (_&_&Hl). destruct (Hl 0) as [[? Hc] _]; [set_solver|]. by rewrite (ok_null _ _ _ Hok) in Hc. }
    destruct (append_spec h ts H (z :: l) r Hok Hpop) as (ts'&->&?&?&?&?); try done. by exists ts'.
Qed.

Lemma collect_due_spec fuel h ts H now l :
  heap_ok h ts H → popped ts l → (size (armed ts) < fuel)%nat →
  ∃ h' ts' H' l', collect_due fuel h ts now (List.hd 0 l) (List.last l 0) =
      Some (h', ts', List.hd 0 (l ++ l'), List.last (l ++ l') 0) ∧
    heap_ok h' ts' H' ∧ th_fd h' = th_fd h ∧ th_count h' = th_count h ∧
    armed ts' = not_due now (armed ts) ∧ due_list (armed ts) now l' ∧ popped ts' (l ++ l') ∧
    (∀ a, fd_of ts' a = fd_of ts a).
Proof.
  revert h ts H l. induction fuel as [|fuel IH]; intros h ts H l Hok Hpop Hsz; [lia|]. cbn [collect_due].
  pose proof (armed_size _ _ _ Hok) as Hact. destruct (Z.ltb_spec 0 (th_active h)) as [Hpos|Hz]; cbn [negb].
  2:{ assert (armed ts = ∅) as E by (apply map_size_empty_inv; lia).
      destruct (due_nil (armed ts) now) as [? ?]; [by rewrite E|].
      exists h, ts, H, []. rewrite app_nil_r. split_and!; done. }
  destruct (ok_root h ts H Hok Hpos) as (r&->&Hr&Hd&He). cbn [mbind option_bind]. rewrite Hd. cbn [mbind option_bind].
  destruct (time_lt now (key ts r)) eqn:Hlt.
  { destruct (due_nil (armed ts) now) as [? ?].
    { intros a d Ha. apply time_lt_lex. apply time_lt_lex in Hlt. destruct He as [_ Hmin].
      specialize (Hmin a d Ha). apply tle_lex in Hmin. lia. }
    exists h, ts, H, []. rewrite app_nil_r. split_and!; done. }
  destruct (disarm_spec h ts H r Hok Hr) as (h1&ts1&H1&->&Hok1&HA1&Ho1&Hf1&Hc1). cbn [mbind option_bind].
  pose proof (popped_disarm ts ts1 l r Hpop HA1 Ho1) as Hpop1.
  assert (Hr1 : armed ts1 !! r = None) by by rewrite HA1, lookup_delete_eq.
  destruct (ok_known _ _ _ _ Hok Hr) as [tr Htr]. destruct (others_fd ts ts1 r tr Ho1 Htr) as (t1&Ht1&_).
  assert (Hrl : r ∉ l). { intros Hin. destruct Hpop as (_&_&Hl). destruct (Hl r Hin). destruct He. congruence. }
  assert (Hsz1 : (size (armed ts1) < fuel)%nat).
  { rewrite HA1, map_size_delete_Some; [lia|]. destruct He. by eexists. }
  destruct (chain_step fuel h1 ts1 H1 now l r Hok1 Hpop1 Hrl Hr1) as (ts2&->&Hok2&HA2&Hpop2&Hfd2); [by rewrite Ht1|].
  destruct (IH h1 ts2 H1 (l ++ [r]) Hok2 Hpop2) as (h'&ts'&H'&l'&->&Hok'&Hf'&Hc'&HA'&Hdue&Hpop'&Hfd'); [by rewrite HA2|].
  rewrite HA2, HA1 in HA', Hdue. destruct (due_cons _ now r (key ts r) l' He Hlt Hdue) as [Hdue' Hnd'].
  exists h', ts', H', (r :: l'). rewrite <- app_assoc in *. cbn [app] in *. split_and!; try done; try congruence.
  intros a. rewrite Hfd', Hfd2. by apply others_fd_of.
Qed.

Section dispatch.
Context {W : Type} {EM : OsMem W} {ET : OsTimer W} {EN : OsNew W} {EG : OsTimerGhost W}
  {EL : OsTimerLaws W}.
Notation timer_state := (timer_state (W := W)).

(** The chain is closed. *)
Lemma close_chain h ts H l :
  heap_ok h ts H → popped ts l →
  ∃ ts', (if negb (List.last l 0 =? 0) then list_append ts (List.last l 0) 0 else Some ts) = Some ts' ∧
    heap_ok h ts' H ∧ armed ts' = armed ts ∧ linked ts' l ∧ (∀ a, fd_of ts' a = fd_of ts a).
Proof.
  intros Hok (Hnd&Hc&Hl). destruct l as [|z l _] using rev_ind; [by exists ts|]. rewrite last_default.
  destruct (Hl z) as [[t Ht] Hz]; [set_solver|].
  destruct (Z.eqb_spec z 0) as [->|_]; [by rewrite (ok_null _ _ _ Hok) in Ht|]. cbn [negb].
  unfold list_append. rewrite Ht. cbn [mbind option_bind].
  assert (z ∉ H) as HzH. { intros Hin. by rewrite (armed_lookup _ _ _ _ Hok), decide_True in Hz. }
  destruct (heap_ok_next h ts H z t 0 Hok Ht HzH) as [Hok' HA]. eexists. split; [done|]. split_and!; try done.
  - by apply linked_snoc.
  - intros a. unfold fd_of. destruct (decide (z = a)) as [<-|]; [by rewrite lookup_insert_eq, Ht|by rewrite lookup_insert_ne].
Qed.

Lemma not_due_subseteq now A : not_due now A ⊆ A.
Proof. apply map_filter_subseteq. Qed.

(** The timerfd is set to the earliest deadline, or cleared when there is none. *)
Definition programmed (fd : Z) (A : gmap Z timespec) (w : W) (res : cres unit * W) : Prop :=
  (A = ∅ ∧ res = clear_timer fd w) ∨ ∃ b d, earliest A b d ∧ res = set_timer fd d w.

Lemma pop_due_spec h ts (w : W) :
  timers_inv h ts →
  ∃ r due h' ts' w', pop_due (h, ts, w) = Some (r, List.hd 0 due, (h', ts', w')) ∧
    timers_inv h' ts' ∧ due_list (armed ts) (fst (os_clock_gettime w)) due ∧
    armed ts' = not_due (fst (os_clock_gettime w)) (armed ts) ∧ linked ts' due ∧
    (∀ a, fd_of ts' a = fd_of ts a) ∧ (r = Ret tt → wake_ok (th_fd h') (armed ts') w') ∧
    programmed (th_fd h) (armed ts') (snd (os_clock_gettime w)) (r, w').
Proof.
  intros (Hv&Hfd&H&Hok). unfold pop_due. destruct (os_clock_gettime w) as [now w1]. cbn [fst snd].
  pose proof (armed_size _ _ _ Hok) as Hsz.
  destruct (collect_due_spec (S (Z.to_nat (th_active h))) h ts H now [] Hok) as
    (h'&ts1&H'&due&E&Hok1&Hf&Hc&HA&Hdue&Hpop&Hfd1); [split_and!; [constructor|done|by intros ? ?%not_elem_of_nil]|lia|].
  cbn [List.hd List.last app] in E, Hpop. rewrite E. cbn [mbind option_bind].
  destruct (close_chain h' ts1 H' due Hok1 Hpop) as (ts2&->&Hok2&HA2&Hlk&Hfd2). cbn [mbind option_bind].
  assert (Hinv : timers_inv h' ts2).
  { split_and!; [|intros; rewrite Hc; apply Hfd; congruence|by exists H'].
    rewrite HA2, HA. eapply armed_valid_subseteq; [done|apply not_due_subseteq]. }
  destruct (Z.ltb_spec 0 (th_active h')) as [Hpos|Hz].
  - destruct (ok_root h' ts2 H' Hok2 Hpos) as (r&->&Hr&Hd&He). cbn [mbind option_bind]. rewrite Hd.
    cbn [mbind option_bind]. destruct (set_timer (th_fd h') (key ts2 r) w1) as [res w2] eqn:Eset.
    exists res, due, h', ts2, w2. split_and!; try done; [congruence|intros a; by rewrite Hfd2| |].
    + intros ->. eapply wake_ok_set; [done|apply Hinv|done].
    + right. exists r, (key ts2 r). split; [done|]. by rewrite <- Eset, Hf.
  - destruct (clear_timer (th_fd h') w1) as [res w2] eqn:Eset. cbn [mbind option_bind]. pose proof (armed_size _ _ _ Hok2).
    assert (armed ts2 = ∅) as E2 by (apply map_size_empty_inv; lia).
    exists res, due, h', ts2, w2. split_and!; try done; [congruence|intros a; by rewrite Hfd2| |].
    + intros _ b e Hb. by rewrite E2 in Hb.
    + left. split; [done|]. by rewrite <- Eset, Hf.
Qed.

(** Calling the timers of a list that have not been removed in the meantime. *)
Fixpoint run_list (func : Z → timer_state → option timer_state) (l : list Z) (s : timer_state)
    : option timer_state :=
  match l with
  | [] => Some s
  | a :: l =>
      t ← s.1.2 !! a;
      s ← (if negb (t_fd t =? TIMER_REMOVED) then func a s else Some s);
      run_list func l s
  end.

(** A callback does not touch the chain: it frees no timer and leaves
    [next_due] alone. *)
Definition keeps_chain (s s' : timer_state) : Prop :=
  ∀ b n, next_of s.1.2 b = Some n → next_of s'.1.2 b = Some n.

Lemma linked_keep (s s' : timer_state) l : keeps_chain s s' → linked s.1.2 l → linked s'.1.2 l.
Proof. intros Hk. induction l as [|a l IH]; [done|]. intros [? ?]. split; [by apply Hk|by apply IH]. Qed.

Lemma run_due_list func fuel l (s : timer_state) :
  (∀ a s s', func a s = Some s' → keeps_chain s s') →
  (0 ∉ l) → linked s.1.2 l → (length l < fuel)%nat →
  run_due fuel func (List.hd 0 l) s = run_list func l s.
Proof.
  intros Hfunc. revert l s. induction fuel as [|fuel IH]; intros l s H0 Hl Hf; [lia|].
  destruct l as [|a l]; [done|]. cbn [run_due run_list List.hd].
  apply not_elem_of_cons in H0 as [Ha H0]. rewrite (proj2 (Z.eqb_neq a 0)) by done.
  destruct Hl as [Hn Hl]. pose proof Hn as Hn'. unfold next_of in Hn'.
  destruct (s.1.2 !! a) as [t|] eqn:Ht; [|done]. cbn [mbind option_bind].
  destruct (if negb (t_fd t =? TIMER_REMOVED) then func a s else Some s) as [s'|] eqn:Ef; [|done].
  cbn [mbind option_bind]. assert (Hk : keeps_chain s s').
  { destruct (negb _); [by eapply Hfunc|]. injection Ef as <-. by intros b n. }
  pose proof (Hk a _ Hn) as Hn2. unfold next_of in Hn2. destruct (s'.1.2 !! a) as [t'|]; [|done].
  injection Hn2 as Hn2. cbn [mbind option_bind]. rewrite Hn2.
  apply IH; [done|by eapply linked_keep|cbn in Hf; lia].
Qed.

Lemma due_in_armed A now l a : due_list A now l → a ∈ l → is_Some (A !! a).
Proof. intros (_&Hin&_) Ha. apply Hin in Ha as (d&->&_). by eexists. Qed.

Lemma due_length A now l : due_list A now l → (length l <= size A)%nat.
Proof.
  intros Hd. pose proof Hd as (Hnd&_). rewrite <- size_dom, <- (size_list_to_set (C := gset Z) l) by done.
  apply subseteq_size. intros a Ha%elem_of_list_to_set. apply elem_of_dom. by eapply due_in_armed.
Qed.

Lemma dispatch_spec func h ts (w : W) :
  timers_inv h ts → (∀ a s s', func a s = Some s' → keeps_chain s s') →
  ∃ r due h' ts' w',
    due_list (armed ts) (fst (os_clock_gettime w)) due ∧ timers_inv h' ts' ∧
    armed ts' = not_due (fst (os_clock_gettime w)) (armed ts) ∧
    (∀ a, fd_of ts' a = fd_of ts a) ∧ (r = Ret tt → wake_ok (th_fd h') (armed ts') w') ∧
    programmed (th_fd h) (armed ts') (snd (os_clock_gettime w)) (r, w') ∧
    wl_timer_heap_dispatch func (h, ts, w) =
      match r with
      | Ret _ => s ← run_list func due (h', ts', w'); Some (Ret tt, s)
      | Fail e => Some (Fail e, (h', ts', w'))
      end.
Proof.
  intros Hinv Hfunc. destruct (pop_due_spec h ts w Hinv) as (r&due&h'&ts'&w'&E&Hinv'&Hdue&HA&Hlk&Hfd&Hw&Hprog).
  exists r, due, h', ts', w'. split_and!; try done. unfold wl_timer_heap_dispatch. rewrite E.
  cbn [mbind option_bind]. destruct r as [[]|e]; [|done]. destruct Hinv as (_&_&H&Hok).
  rewrite run_due_list; [done|done| |done|].
  - intros [d Hd]%(due_in_armed _ _ _ _ Hdue). rewrite (armed_lookup _ _ _ _ Hok) in Hd. case_decide as Hin; [|done].
    destruct (ok_known _ _ _ _ Hok Hin) as [? Hx]. by rewrite (ok_null _ _ _ Hok) in Hx.
  - pose proof (due_length _ _ _ Hdue). pose proof (armed_size _ _ _ Hok). cbn [fst snd]. lia.
Qed.
End dispatch.

(** ** The timers as a state machine *)

Section machine.
Context {W : Type} {EM : OsMem W} {EF : OsFd W} {ET : OsTimer W} {EE : OsEpoll W} {EN : OsNew W}
  {EG : OsTimerGhost W} {EL : OsTimerLaws W}.
Context (epfd ptr : Z).

(** The operations of the public interface, the part of the dispatch before
    the callbacks, and freeing a removed timer.  [P] restricts the results of
    the calls that program the timerfd. *)
Inductive timer_step (P : cres unit → Prop) : timer_state (W := W) → timer_state (W := W) → Prop :=
  | step_add h ts w r h' ts' w' :
      th_count h < MAX_TIMERS →
      wl_event_loop_add_timer epfd ptr h ts w = Some (r, h', ts', w') →
      (∀ a, fst (os_new (snd (wl_timer_heap_ensure_timerfd epfd ptr h w))) = Some a → a ≠ 0 ∧ ts !! a = None) →
      timer_step P (h, ts, w) (h', ts', w')
  | step_update h ts w a ms r h' ts' w' :
      a ∈ live ts → wl_event_source_timer_update h ts a ms w = Some (r, h', ts', w') → P r →
      timer_step P (h, ts, w) (h', ts', w')
  | step_remove h ts w a s' :
      is_Some (ts !! a) → timer_remove h ts a w = Some s' → timer_step P (h, ts, w) s'
  | step_pop s r head s' :
      pop_due s = Some (r, head, s') → P r → timer_step P s s'
  | step_free h ts w a t :
      ts !! a = Some t → t_fd t = TIMER_REMOVED → timer_step P (h, ts, w) (h, delete a ts, w).

Definition state_inv (s : timer_state (W := W)) : Prop := timers_inv s.1.1 s.1.2.
Definition state_wake (s : timer_state (W := W)) : Prop := wake_ok (th_fd s.1.1) (armed s.1.2) s.2.

Lemma timers_inv_init (w : W) : state_inv (wl_timer_heap_init, ∅, w) ∧ state_wake (wl_timer_heap_init, ∅, w).
Proof.
  split; [|by intros b e ?]. split_and!; [by intros b e ?|done|]. exists []. constructor; try done.
  - by exists [].
  - by intros a ?%not_elem_of_nil.
Qed.

Lemma update_inv h ts a ms (w : W) r h' ts' w' :
  timers_inv h ts → a ∈ live ts → wl_event_source_timer_update h ts a ms w = Some (r, h', ts', w') →
  timers_inv h' ts' ∧
  (wake_ok (th_fd h) (armed ts) w → r = Ret tt → wake_ok (th_fd h') (armed ts') w').
Proof.
  intros (Hv&Hfd&H&Hok) Hl E.
  destruct (timer_update_spec h ts H a ms w Hok Hl) as (r1&h1&ts1&H1&w1&E1&Hok1&_&Hf&Hc&_&Hval).
  rewrite E in E1. injection E1 as <- <- <- <-. destruct (Hval Hv) as [Hv1 Hw].
  split; [|done]. split_and!; [done|by rewrite Hf, Hc|by exists H1].
Qed.

Lemma step_inv P s s' : timer_step P s s' → state_inv s →
  state_inv s' ∧ ((∀ r, P r → r = Ret tt) → state_wake s → state_wake s').
Proof.
  intros Hstep Hinv. unfold state_inv, state_wake in *.
  destruct Hstep as [h ts w r h' ts' w' Hmax E Hf|h ts w a ms r h' ts' w' Hl E HP|h ts w a s' [t Ht] E|s r head s' E HP|h ts w a t Ht Hr];
    cbn [fst snd] in *.
  - destruct (add_timer_spec epfd ptr h ts w Hinv Hmax Hf) as (?&?&?&?&E1&?&_&_&?).
    rewrite E in E1. injection E1 as <- <- <- <-. auto.
  - destruct (update_inv _ _ _ _ _ _ _ _ _ Hinv Hl E). auto.
  - destruct (timer_remove_spec h ts a t w Hinv Ht) as (h1&ts1&w1&t1&E1&Hinv1&_&_&_&_&Hw).
    rewrite E in E1. injection E1 as ->. auto.
  - destruct s as [[h ts] w]. cbn [fst snd] in *.
    destruct (pop_due_spec h ts w Hinv) as (r1&due&h1&ts1&w1&E1&Hinv1&_&_&_&_&Hw&_).
    rewrite E in E1. injection E1 as -> -> ->. auto.
  - destruct (timer_free_spec h ts a t Hinv Ht Hr) as [? ->]. auto.
Qed.

Lemma steps_mono (P Q : cres unit → Prop) s s' :
  (∀ r, P r → Q r) → rtc (timer_step P) s s' → rtc (timer_step Q) s s'.
Proof.
  intros HPQ. apply rtc_subrel. intros s1 s2 Hs.
  destruct Hs; [eapply step_add|eapply step_update|eapply step_remove|eapply step_pop|eapply step_free]; eauto.
Qed.

Lemma steps_inv P s s' : rtc (timer_step P) s s' → state_inv s →
  state_inv s' ∧ ((∀ r, P r → r = Ret tt) → state_wake s → state_wake s').
Proof.
  induction 1 as [s|s s1 s2 Hs Hss IH]; [done|]. intros Hinv. destruct (step_inv P s s1 Hs Hinv) as [H1 Hw1].
  destruct (IH H1) as [H2 Hw2]. auto.
Qed.

(** No assertion of the code fails, no access is out of bounds and no [int]
    overflows; a timer can be added while there are fewer than 2^29. *)
Definition never_stuck (s : timer_state (W := W)) : Prop :=
  let '(h, ts, w) := s in
  (th_count h < MAX_TIMERS → is_Some (wl_event_loop_add_timer epfd ptr h ts w)) ∧
  (∀ a ms, a ∈ live ts → is_Some (wl_event_source_timer_update h ts a ms w)) ∧
  (∀ a, is_Some (ts !! a) → is_Some (timer_remove h ts a w)) ∧
  is_Some (pop_due s).

Lemma add_timer_defined h ts (w : W) :
  timers_inv h ts → th_count h < MAX_TIMERS → is_Some (wl_event_loop_add_timer epfd ptr h ts w).
Proof.
  intros Hinv Hmax. unfold wl_event_loop_add_timer. pose proof (ensure_timerfd_spec epfd ptr h ts w Hinv) as He.
  destruct (wl_timer_heap_ensure_timerfd epfd ptr h w) as [[[u|e] h1] w1]; [|done].
  destruct He as ((_&_&H&Hok)&_&Hc&_). destruct (os_new w1) as [[a|] w2]; [|done].
  destruct (reserve_spec h1 ts H w2 Hok) as ([u'|e]&h2&w3&->&_); [lia|done|done].
Qed.

Lemma inv_never_stuck s : state_inv s → never_stuck s.
Proof.
  destruct s as [[h ts] w]. intros Hinv. unfold state_inv in Hinv. cbn [fst snd] in Hinv. split_and!.
  - intros Hmax. by apply add_timer_defined.
  - intros a ms Hl. destruct Hinv as (_&_&H&Hok).
    destruct (timer_update_spec h ts H a ms w Hok Hl) as (?&?&?&?&?&->&_). by eexists.
  - intros a [t Ht]. destruct (timer_remove_spec h ts a t w Hinv Ht) as (?&?&?&?&->&_). by eexists.
  - destruct (pop_due_spec h ts w Hinv) as (?&?&?&?&?&->&_). by eexists.
Qed.

(** C19: in every state that adding (while there are fewer than 2^29 timers),
    updating, removing, popping and freeing timers can reach, in any order and
    with any failures of memory and of the timerfd, the array is a binary heap
    of the armed timers, every armed timer knows its index, the others have
    index -1, the array has room for every timer, and every operation is
    defined: no assertion fails, no access is out of bounds and no [int]
    overflows. *)
Theorem timer_heap_invariant (w : W) s :
  rtc (timer_step (λ _, True)) (wl_timer_heap_init, ∅, w) s →
  (∃ H, heap_ok s.1.1 s.1.2 H) ∧ never_stuck s.
Proof.
  intros Hs. destruct (steps_inv _ _ _ Hs (proj1 (timers_inv_init w))) as [Hinv _].
  split; [apply Hinv|by apply inv_never_stuck].
Qed.

(** As long as the timerfd can be programmed, it is always armed for a
    time no later than the deadline of every armed timer, so the loop is woken
    up in time. *)
Theorem timer_wakeup (w : W) s b d :
  rtc (timer_step (λ r, r = Ret tt)) (wl_timer_heap_init, ∅, w) s →
  armed s.1.2 !! b = Some d →
  ∃ e, timer_setting (th_fd s.1.1) s.2 = Some e ∧ tle e d.
Proof.
  intros Hs Hb. destruct (timers_inv_init w) as [Hi Hw].
  destruct (steps_inv _ _ _ Hs Hi) as [_ Hw']. exact (Hw' (λ r H, H) Hw b d Hb).
Qed.

(** Updating a timer is an update of the finite map of the armed timers:
    a positive delay sets the timer's deadline to exactly that many
    milliseconds after the current time and any other delay deletes it; the
    other timers, the heap's bookkeeping and the removal flags stay. *)
Theorem timer_update_refines h ts H a ms (w : W) (now := fst (os_clock_gettime w)) :
  heap_ok h ts H → a ∈ live ts →
  ∃ r h' ts' H' w', wl_event_source_timer_update h ts a ms w = Some (r, h', ts', w') ∧
    heap_ok h' ts' H' ∧ others ts' = others ts ∧ th_count h' = th_count h ∧
    armed ts' = (if 0 <? ms then <[a := timer_deadline now ms]> (armed ts) else delete a (armed ts)) ∧
    (0 < ms → to_ns (timer_deadline now ms) = to_ns now + ms * 1000000).
Proof.
  intros Hok Hl. destruct (timer_update_spec h ts H a ms w Hok Hl) as (r&h'&ts'&H'&w'&?&?&?&?&?&?&_).
  exists r, h', ts', H', w'. split_and!; try done. intros Hms. apply timer_deadline_spec; [|done].
  pose proof (os_clock_law w). unfold now. destruct (os_clock_gettime w). tauto.
Qed.

(** C29: dispatching pops exactly the timers whose deadline is not after the
    current time, leaves the others armed and sets the timerfd to the earliest
    of them, or clears it.  If that succeeds, it returns 0 after it has called
    the popped timers in the order of their deadlines, skipping those an earlier
    callback removed; if the timerfd cannot be programmed, it returns that error
    and no callback runs.  The callbacks may do anything but dispatch timers
    themselves. *)
Theorem timer_dispatch_due func h ts H (w : W) :
  heap_ok h ts H → armed_valid (armed ts) → (th_fd h = -1 → th_count h = 0) →
  (∀ a s s', func a s = Some s' → keeps_chain s s') →
  ∃ (r : cres unit) due h' ts' w',
    due_list (armed ts) (fst (os_clock_gettime w)) due ∧
    armed ts' = not_due (fst (os_clock_gettime w)) (armed ts) ∧
    (∀ a, fd_of ts' a = fd_of ts a) ∧ (∃ H', heap_ok h' ts' H') ∧
    programmed (th_fd h) (armed ts') (snd (os_clock_gettime w)) (r, w') ∧
    wl_timer_heap_dispatch func (h, ts, w) =
      match r with
      | Ret _ => s ← run_list func due (h', ts', w'); Some (Ret tt, s)
      | Fail e => Some (Fail e, (h', ts', w'))
      end.
Proof.
  intros Hok Hv Hfd Hfunc. destruct (dispatch_spec func h ts w) as (r&due&h'&ts'&w'&?&(_&_&?)&?&?&_&?&?); [|done|].
  - split_and!; [done|done|by exists H].
  - exists r, due, h', ts', w'. by split_and!.
Qed.
End machine.

(** ** A simulated clock *)

(** The time, which advances by a second at every reading, the setting of the
    only timer descriptor, and the next free address. *)
Record clock_sim : Type := mk_clock { cs_now : Z; cs_set : option timespec; cs_next : Z }.

#[export] Instance clock_mem : OsMem clock_sim := {| os_alloc _ w := (Some [], w) |}.
#[export] Instance clock_fd : OsFd clock_sim := {|
  os_close _ w := w;
  os_getfd _ w := (Ret 0, w);
  os_setfd _ _ w := (Ret tt, w);
  os_dupfd _ _ _ w := (Fail EOTHER, w)
|}.
#[export] Instance clock_timer : OsTimer clock_sim := {|
  os_clock_gettime w := (mk_ts (Z.max 0 (cs_now w)) 999000000, mk_clock (cs_now w + 1) (cs_set w) (cs_next w));
  os_timerfd_create w := (Ret 5, w);
  os_timerfd_settime _ _ d w :=
    (Ret tt, mk_clock (cs_now w) (if decide (d = ts_zero) then None else Some d) (cs_next w))
|}.
#[export] Instance clock_epoll : OsEpoll clock_sim := {|
  os_epoll_add _ _ _ _ w := (Ret tt, w);
  os_epoll_mod _ _ _ _ w := (Ret tt, w);
  os_epoll_del _ _ w := w;
  os_epoll_wait _ _ _ w := (Ret [], w)
|}.
#[export] Instance clock_new : OsNew clock_sim := {|
  os_new w := (Some (cs_next w), mk_clock (cs_now w) (cs_set w) (cs_next w + 64))
|}.
#[export] Instance clock_ghost : OsTimerGhost clock_sim := {|
  timer_setting _ w := cs_set w
|}.

#[export] Instance clock_laws : OsTimerLaws clock_sim.
Proof.
  split; cbn; try done.
  - intros w. unfold valid_ts. cbn. split; [lia|done].
  - intros fd d w _ Hd. by rewrite decide_False.
Qed.

(** Two timers, armed for 2.5 and for 0.5 seconds. *)
Definition demo_add (s : timer_state (W := clock_sim)) : timer_state (W := clock_sim) :=
  match wl_event_loop_add_timer 3 1 s.1.1 s.1.2 s.2 with
  | Some (_, h, ts, w) => (h, ts, w)
  | None => s
  end.
Definition demo_update (a ms : Z) (s : timer_state (W := clock_sim)) : timer_state (W := clock_sim) :=
  match wl_event_source_timer_update s.1.1 s.1.2 a ms s.2 with
  | Some (_, h, ts, w) => (h, ts, w)
  | None => s
  end.
Definition demo_init : timer_state (W := clock_sim) := (wl_timer_heap_init, ∅, mk_clock 0 None 64).
Definition demo_added : timer_state (W := clock_sim) := Eval vm_compute in demo_add (demo_add demo_init).
Definition demo_armed : timer_state (W := clock_sim) :=
  Eval vm_compute in demo_update 128 500 (demo_update 64 2500 demo_added).

Lemma demo_steps : rtc (timer_step 3 1 (λ r, r = Ret tt)) demo_init demo_armed.
Proof.
  eapply rtc_l; [eapply (step_add 3 1); [by vm_compute|vm_compute; reflexivity|]|].
  { intros a [= <-]. split; [done|]. by vm_compute. }
  eapply rtc_l; [eapply (step_add 3 1); [by vm_compute|vm_compute; reflexivity|]|].
  { intros a [= <-]. split; [done|]. by vm_compute. }
  eapply rtc_l; [eapply (step_update 3 1 _ _ _ _ 64 2500); [|vm_compute; reflexivity|done]|].
  { apply live_spec. eexists. by split; [vm_compute; reflexivity|]. }
  eapply rtc_l; [eapply (step_update 3 1 _ _ _ _ 128 500); [|vm_compute; reflexivity|done]|].
  { apply live_spec. eexists. by split; [vm_compute; reflexivity|]. }
  apply rtc_refl.
Qed.

Lemma demo_inv : state_inv demo_armed.
Proof. eapply steps_inv; [apply demo_steps|apply timers_inv_init]. Qed.

Lemma demo_live : 128 ∈ live demo_armed.1.2.
Proof. apply live_spec. eexists. by split; [vm_compute; reflexivity|]. Qed.

Lemma timer_heap_invariant_witness :
  (∃ H, heap_ok demo_armed.1.1 demo_armed.1.2 H) ∧ never_stuck 3 1 demo_armed.
Proof.
  apply (timer_heap_invariant 3 1 (mk_clock 0 None 64)).
  eapply steps_mono; [|apply demo_steps]. done.
Defined.

Lemma timer_wakeup_witness :
  ∃ e, timer_setting (th_fd demo_armed.1.1) demo_armed.2 = Some e ∧ tle e (mk_ts 3 499000000).
Proof.
  apply (timer_wakeup 3 1 (mk_clock 0 None 64) demo_armed 64); [apply demo_steps|]. by vm_compute.
Defined.

Lemma timer_update_refines_witness :
  ∃ H, heap_ok demo_armed.1.1 demo_armed.1.2 H ∧
  ∃ r h' ts' H' w', wl_event_source_timer_update demo_armed.1.1 demo_armed.1.2 128 9000 demo_armed.2 = Some (r, h', ts', w') ∧
    heap_ok h' ts' H' ∧ others ts' = others demo_armed.1.2 ∧ th_count h' = th_count demo_armed.1.1 ∧
    armed ts' = <[128 := mk_ts 11 999000000]> (armed demo_armed.1.2) ∧
    (0 < 9000 → to_ns (mk_ts 11 999000000) = to_ns (mk_ts 2 999000000) + 9000 * 1000000).
Proof.
  destruct demo_inv as (_&_&H&Hok). exists H. split; [exact Hok|].
  exact (timer_update_refines demo_armed.1.1 demo_armed.1.2 H 128 9000 demo_armed.2 Hok demo_live).
Defined.

(** At 2.999 s the second timer is due, the first one at 3.499 s. *)
Lemma timer_dispatch_due_witness :
  ∃ (r : cres unit) due h' ts' w',
    due_list (armed demo_armed.1.2) (mk_ts 2 999000000) due ∧
    armed ts' = not_due (mk_ts 2 999000000) (armed demo_armed.1.2) ∧
    (∀ a, fd_of ts' a = fd_of demo_armed.1.2 a) ∧ (∃ H', heap_ok h' ts' H') ∧
    programmed 5 (armed ts') (mk_clock 3 (Some (mk_ts 2 499000000)) 192) (r, w') ∧
    wl_timer_heap_dispatch (λ a s, Some s) (demo_armed.1.1, demo_armed.1.2, demo_armed.2) =
      match r with
      | Ret _ => s ← run_list (λ a s, Some s) due (h', ts', w'); Some (Ret tt, s)
      | Fail e => Some (Fail e, (h', ts', w'))
      end.
Proof.
  destruct demo_inv as (Hv&Hfd&H&Hok).
  refine (timer_dispatch_due (λ a s, Some s) demo_armed.1.1 demo_armed.1.2 H demo_armed.2 Hok Hv Hfd _).
  intros a s s' [= <-] b n Hb. exact Hb.
Defined.

(** With 2^30 timers one more overflows the size of the array. *)
Lemma too_many_timers data (w : clock_sim) :
  wl_timer_heap_reserve (mk_heap 5 data (2 ^ 30) 0 (2 ^ 30)) w = None.
Proof. reflexivity. Qed.
