(* ===== verification/WlEventLoop.v ===== *)
(** * The event loop

    Models the sources of wayland/build/src/event-loop.c other than the timers,
    and the loop itself: file descriptor, signal and idle sources, the list of
    sources to re-check, the list of removed sources that wait to be freed, the
    computation of the poll timeout and [wl_event_loop_dispatch].  The lists
    are the linked lists of [WlList], the timers those of [WlTimer], and a
    source is named by its address, which is also the address of its link.
    Callbacks are functions on the whole state, since they may call back into
    the loop. *)

From S2P Require Import Prelude Os OsSim WlOs WlList WlTimer WlTimerOps.
Open Scope Z_scope.

(** ** Data *)

(** [interface] and the fields of the subtypes; a signal source keeps the
    number, a descriptor source the descriptor of its user. *)
Inductive source_kind : Type :=
  | SrcFd (fd : Z)
  | SrcTimer
  | SrcSignal (signal_number : Z)
  | SrcIdle.

Record source : Type := mk_source { s_kind : source_kind; s_fd : Z }.
Definition s_set_fd (fd : Z) (s : source) : source := mk_source (s_kind s) fd.

(** The descriptor of a signal, blocking it, and reading from it. *)
Class OsSignal (W : Type) := {
  os_signalfd : Z → W → cres Z * W;
  os_sigblock : Z → W → W;
  os_read_siginfo : Z → W → W
}.

(** The state apart from the timers: the epoll descriptor, the sources, the
    links of all lists and the operating system. *)
Record rest (W : Type) : Type := mk_rest {
  r_epoll_fd : Z;
  r_sources : gmap Z source;
  r_links : gmap Z wl_list;
  r_os : W
}.
Arguments mk_rest {_} _ _ _ _.
Arguments r_epoll_fd {_} _.
Arguments r_sources {_} _.
Arguments r_links {_} _.
Arguments r_os {_} _.

Section rest.
Context {W : Type}.

Definition r_set_sources (m : gmap Z source) (r : rest W) : rest W :=
  mk_rest (r_epoll_fd r) m (r_links r) (r_os r).
Definition r_set_links (m : gmap Z wl_list) (r : rest W) : rest W :=
  mk_rest (r_epoll_fd r) (r_sources r) m (r_os r).
Definition r_set_os (w : W) (r : rest W) : rest W :=
  mk_rest (r_epoll_fd r) (r_sources r) (r_links r) w.

(** A call to the operating system. *)
Definition os_call {A} (f : W → A * W) (r : rest W) : A * rest W :=
  let '(x, w) := f (r_os r) in (x, r_set_os w r).
Definition os_do (f : W → W) (r : rest W) : rest W := r_set_os (f (r_os r)) r.

#[global] Instance rest_mem `{OsMem W} : OsMem (rest W) := {|
  os_alloc n := os_call (os_alloc n)
|}.
#[global] Instance rest_fd `{OsFd W} : OsFd (rest W) := {|
  os_close fd := os_do (os_close fd);
  os_getfd fd := os_call (os_getfd fd);
  os_setfd fd flags := os_call (os_setfd fd flags);
  os_dupfd cloexec fd minfd := os_call (os_dupfd cloexec fd minfd)
|}.
#[global] Instance rest_timer `{OsTimer W} : OsTimer (rest W) := {|
  os_clock_gettime := os_call os_clock_gettime;
  os_timerfd_create := os_call os_timerfd_create;
  os_timerfd_settime fd abs d := os_call (os_timerfd_settime fd abs d)
|}.
#[global] Instance rest_epoll `{OsEpoll W} : OsEpoll (rest W) := {|
  os_epoll_add epfd fd events ptr := os_call (os_epoll_add epfd fd events ptr);
  os_epoll_mod epfd fd events ptr := os_call (os_epoll_mod epfd fd events ptr);
  os_epoll_del epfd fd := os_do (os_epoll_del epfd fd);
  os_epoll_wait epfd n timeout := os_call (os_epoll_wait epfd n timeout)
|}.
#[global] Instance rest_signal `{OsSignal W} : OsSignal (rest W) := {|
  os_signalfd n := os_call (os_signalfd n);
  os_sigblock n := os_do (os_sigblock n);
  os_read_siginfo fd := os_do (os_read_siginfo fd)
|}.

(** The memory [zalloc] returns includes a link of zeroes. *)
#[global] Instance rest_new `{OsNew W} : OsNew (rest W) := {|
  os_new r :=
    match os_new (r_os r) with
    | (None, w) => (None, r_set_os w r)
    | (Some a, w) => (Some a, r_set_links (<[a := mk_wl_list 0 0]> (r_links r)) (r_set_os w r))
    end
|}.
End rest.

(** ** Time arithmetic *)

(** The value of an [int] expression of type [long]. *)
Definition timespec_to_ms (value : timespec) : Z :=
  i32 (tv_sec value * 1000 + Z.quot (tv_nsec value) 1000000).

Definition ms_to_timespec (ms : Z) : timespec :=
  mk_ts (Z.quot ms 1000) (Z.rem ms 1000 * 1000000).

Fixpoint normalize_down (fuel : nat) (r : timespec) : option timespec :=
  match fuel with
  | O => None
  | S fuel =>
      if 1000000000 <=? tv_nsec r
      then normalize_down fuel (mk_ts (tv_sec r + 1) (tv_nsec r - 1000000000)) else Some r
  end.
Fixpoint normalize_up (fuel : nat) (r : timespec) : option timespec :=
  match fuel with
  | O => None
  | S fuel =>
      if tv_nsec r <? 0
      then normalize_up fuel (mk_ts (tv_sec r - 1) (tv_nsec r + 1000000000)) else Some r
  end.

(** Every iteration moves [tv_nsec] by a second. *)
Definition normalize_fuel (value : timespec) : nat := S (Z.to_nat (Z.abs (tv_nsec value) / 1000000000 + 1)).

Definition timespec_normalize (value : timespec) : option timespec :=
  result ← normalize_down (normalize_fuel value) value;
  normalize_up (normalize_fuel value) result.

Definition timespec_add (a b : timespec) : option timespec :=
  timespec_normalize (mk_ts (tv_sec a + tv_sec b) (tv_nsec a + tv_nsec b)).
Definition timespec_sub (a b : timespec) : option timespec :=
  timespec_normalize (mk_ts (tv_sec a - tv_sec b) (tv_nsec a - tv_nsec b)).

(** ** Sources *)

Definition WL_EVENT_READABLE : Z := 1.
Definition WL_EVENT_WRITABLE : Z := 2.
Definition WL_EVENT_HANGUP : Z := 4.
Definition WL_EVENT_ERROR : Z := 8.

Definition has (x bit : Z) : bool := negb (Z.land x bit =? 0).
Definition when (b : bool) (bit x : Z) : Z := if b then Z.lor x bit else x.

(** The mask a callback is given, from the events of [epoll]. *)
Definition event_mask (events : Z) : Z :=
  when (has events EPOLLERR) WL_EVENT_ERROR
    (when (has events EPOLLHUP) WL_EVENT_HANGUP
       (when (has events EPOLLOUT) WL_EVENT_WRITABLE
          (when (has events EPOLLIN) WL_EVENT_READABLE 0))).

(** The events to ask for, from the mask of the user. *)
Definition epoll_events (mask : Z) : Z :=
  when (has mask WL_EVENT_WRITABLE) EPOLLOUT (when (has mask WL_EVENT_READABLE) EPOLLIN 0).

Section loop.
Context {W : Type} {EM : OsMem W} {EF : OsFd W} {ET : OsTimer W} {EE : OsEpoll W} {EN : OsNew W}
  {EO : OsOpen W} {ES : OsSignal W}.
Notation rest := (rest W).
Notation state := (timer_state (W := rest)).

(** The address of the loop; its lists and its timer heap are fields of it. *)
Context (loop : Z).
Definition check_list : Z := loop + 8.
Definition idle_list : Z := loop + 24.
Definition destroy_list : Z := loop + 40.
Definition timers_base : Z := loop + 72.

Definition on_links (f : gmap Z wl_list → option (gmap Z wl_list)) (r : rest) : option rest :=
  m ← f (r_links r); Some (r_set_links m r).

Definition free_source (a : Z) (r : rest) : rest :=
  r_set_links (delete a (r_links r)) (r_set_sources (delete a (r_sources r)) r).

Definition add_source (a : Z) (s : source) (mask : Z) (r : rest) : option (option Z * rest) :=
  if s_fd s <? 0 then Some (None, free_source a r)
  else
    r ← on_links (wl_list_init a) (r_set_sources (<[a := s]> (r_sources r)) r);
    match os_epoll_add (r_epoll_fd r) (s_fd s) (epoll_events mask) a r with
    | (Fail _, r) => Some (None, free_source a (os_close (s_fd s) r))
    | (Ret _, r) => Some (Some a, r)
    end.

(** The [int] result of a call that returns a descriptor. *)
Definition fd_result (r : cres Z) : Z := match r with Ret fd => fd | Fail _ => -1 end.

Definition wl_event_loop_add_fd (fd mask : Z) (r : rest) : option (option Z * rest) :=
  match os_new r with
  | (None, r) => Some (None, r)
  | (Some a, r) =>
      let '(d, r) := wl_os_dupfd_cloexec fd 0 r in
      add_source a (mk_source (SrcFd fd) (fd_result d)) mask r
  end.

Definition wl_event_source_fd_update (a mask : Z) (r : rest) : option (cres unit * rest) :=
  s ← r_sources r !! a;
  Some (os_epoll_mod (r_epoll_fd r) (s_fd s) (epoll_events mask) a r).

Definition wl_event_loop_add_signal (signal_number : Z) (r : rest) : option (option Z * rest) :=
  match os_new r with
  | (None, r) => Some (None, r)
  | (Some a, r) =>
      let '(fd, r) := os_signalfd signal_number r in
      let r := os_sigblock signal_number r in
      add_source a (mk_source (SrcSignal signal_number) (fd_result fd)) WL_EVENT_READABLE r
  end.

Definition wl_event_loop_add_idle (r : rest) : option (option Z * rest) :=
  match os_new r with
  | (None, r) => Some (None, r)
  | (Some a, r) =>
      p ← get_prev (r_links r) idle_list;
      r ← on_links (wl_list_insert p a) (r_set_sources (<[a := mk_source SrcIdle (-1)]> (r_sources r)) r);
      Some (Some a, r)
  end.

(** A timer source of the loop: the timer of [WlTimerOps] and its link. *)
Definition loop_add_timer (st : state) : option (option Z * state) :=
  let '(h, ts, r) := st in
  '(o, h, ts, r') ← wl_event_loop_add_timer (r_epoll_fd r) timers_base h ts r;
  match o with
  | None => Some (None, (h, ts, r_set_links (r_links r) r'))
  | Some a =>
      r' ← on_links (wl_list_init a) (r_set_sources (<[a := mk_source SrcTimer (-1)]> (r_sources r')) r');
      Some (Some a, (h, ts, r'))
  end.

Definition wl_event_source_check (a : Z) (r : rest) : option rest :=
  p ← get_prev (r_links r) check_list;
  on_links (wl_list_insert p a) r.

Definition wl_event_source_remove (a : Z) (st : state) : option state :=
  let '(h, ts, r) := st in
  s ← r_sources r !! a;
  let r :=
    if 0 <=? s_fd s then
      r_set_sources (<[a := s_set_fd (-1) s]> (r_sources r))
        (os_close (s_fd s) (os_epoll_del (r_epoll_fd r) (s_fd s) r))
    else r in
  '(h, ts, r) ← match s_kind s with
                | SrcTimer => timer_remove h ts a r
                | _ => Some (h, ts, r)
                end;
  r ← on_links (wl_list_remove a) r;
  r ← on_links (wl_list_insert destroy_list a) r;
  Some (h, ts, r).

(** [free] of a source; the timer of a timer source goes with it. *)
Definition free_any (a : Z) (st : state) : state :=
  let '(h, ts, r) := st in (h, delete a ts, free_source a r).

(** The loop of [wl_list_for_each_safe]: [next] is read before the body runs. *)
Fixpoint destroy_loop (fuel : nat) (pos next : Z) (st : state) : option state :=
  match fuel with
  | O => None
  | S fuel =>
      if pos =? destroy_list then Some st
      else
        let st := free_any pos st in
        next' ← get_next (r_links st.2) next;
        destroy_loop fuel next next' st
  end.

Definition wl_event_loop_process_destroy_list (fuel : nat) (st : state) : option state :=
  pos ← get_next (r_links st.2) destroy_list;
  next ← get_next (r_links st.2) pos;
  st ← destroy_loop fuel pos next st;
  r ← on_links (wl_list_init destroy_list) st.2;
  Some (st.1, r).

Definition wl_event_loop_create (w : W) : option (option state * W) :=
  match os_new (mk_rest (-1) ∅ ∅ w) with
  | (None, r) => Some (None, r_os r)
  | (Some _, r) =>
      match wl_os_epoll_create_cloexec (r_os r) with
      | (Fail _, w) => Some (None, w)
      | (Ret fd, w) =>
          let zero := mk_wl_list 0 0 in
          m ← wl_list_init check_list
                (<[check_list := zero]> (<[idle_list := zero]> {[destroy_list := zero]}));
          m ← wl_list_init idle_list m;
          m ← wl_list_init destroy_list m;
          Some (Some (wl_timer_heap_init, ∅, mk_rest fd ∅ m w), w)
      end
  end.

(** [emit] stands for the listeners of the destroy signal. *)
Definition wl_event_loop_destroy (fuel : nat) (emit : state → option state) (st : state) : option W :=
  st ← emit st;
  st ← wl_event_loop_process_destroy_list fuel st;
  let r := wl_timer_heap_release st.1.1 st.2 in
  Some (r_os (os_close (r_epoll_fd r) r)).

Definition wl_event_loop_get_fd (r : rest) : Z := r_epoll_fd r.

(** ** Dispatching *)

(** [func a arg] is the callback of the source [a]; [arg] is the event mask of
    a descriptor source and the number of a signal source. *)
Context (func : Z → Z → state → option (Z * state)).

Definition dispatch_source (a events : Z) (st : state) : option (Z * state) :=
  s ← r_sources st.2 !! a;
  match s_kind s with
  | SrcFd _ => func a (event_mask events) st
  | SrcTimer => func a 0 st
  | SrcSignal n => func a n (st.1, os_read_siginfo (s_fd s) st.2)
  | SrcIdle => None  (* a null pointer *)
  end.

Fixpoint dispatch_idle_loop (fuel : nat) (st : state) : option state :=
  match fuel with
  | O => None
  | S fuel =>
      b ← wl_list_empty idle_list (r_links st.2);
      if (b : bool) then Some st
      else
        a ← get_next (r_links st.2) idle_list;
        '(_, st) ← func a 0 st;
        st ← wl_event_source_remove a st;
        dispatch_idle_loop fuel st
  end.
Definition wl_event_loop_dispatch_idle (fuel : nat) (st : state) : option state :=
  dispatch_idle_loop fuel st.

Fixpoint check_loop (fuel : nat) (pos next : Z) (needs_recheck : bool) (st : state)
    : option (bool * state) :=
  match fuel with
  | O => None
  | S fuel =>
      if pos =? check_list then Some (needs_recheck, st)
      else
        '(dispatch_result, st) ← dispatch_source pos 0 st;
        next' ← get_next (r_links st.2) next;
        check_loop fuel next next' (needs_recheck || negb (dispatch_result =? 0)) st
  end.
Definition post_dispatch_check (fuel : nat) (st : state) : option (bool * state) :=
  pos ← get_next (r_links st.2) check_list;
  next ← get_next (r_links st.2) pos;
  check_loop fuel pos next false st.

Definition ARRAY_LENGTH_ep : Z := 32.

(** The loop around [epoll_wait]; [deadline] is [end], [None] without
    [use_timeout]. *)
Fixpoint wait_loop (fuel : nat) (epoll_fd timeout : Z) (deadline : option timespec) (w : W)
    : option (cres (list (Z * Z)) * W) :=
  match fuel with
  | O => None
  | S fuel =>
      match os_epoll_wait epoll_fd ARRAY_LENGTH_ep timeout w with
      | (Ret evs, w) => Some (Ret evs, w)
      | (Fail e, w) =>
          if bool_decide (e ≠ EINTR) && bool_decide (e ≠ EAGAIN) then Some (Fail e, w)
          else
            match deadline with
            | None => wait_loop fuel epoll_fd timeout deadline w
            | Some end_ =>
                let '(now, w) := os_clock_gettime w in
                left ← timespec_sub end_ now;
                let timeout := timespec_to_ms left in
                if timeout <=? 0 then Some (Ret [], w)
                else wait_loop fuel epoll_fd timeout deadline w
            end
      end
  end.

(** The loop over the events, once the timers have run. *)
Fixpoint dispatch_events (evs : list (Z * Z)) (st : state) : option state :=
  match evs with
  | [] => Some st
  | (events, a) :: evs =>
      st ← (if a =? timers_base then Some st
            else
              s ← r_sources st.2 !! a;
              if negb (s_fd s =? -1) then
                '(_, st) ← dispatch_source a events st; Some st
              else Some st);
      dispatch_events evs st
  end.

Definition timer_func (a : Z) (st : state) : option state :=
  '(_, st) ← func a 0 st; Some st.

Fixpoint recheck_loop (fuel rounds : nat) (st : state) : option state :=
  match rounds with
  | O => None
  | S rounds =>
      '(again, st) ← post_dispatch_check fuel st;
      if (again : bool) then recheck_loop fuel rounds st else Some st
  end.

Definition wl_event_loop_dispatch (fuel : nat) (timeout : Z) (st : state)
    : option (cres unit * state) :=
  st ← wl_event_loop_dispatch_idle fuel st;
  let deadline_w :=
    if 0 <? timeout then
      let '(now, w) := os_clock_gettime (r_os st.2) in
      (end_ ← timespec_add now (ms_to_timespec timeout); Some (Some end_, w))
    else Some (None, r_os st.2) in
  '(deadline, w) ← deadline_w;
  '(res, w) ← wait_loop fuel (r_epoll_fd st.2) timeout deadline w;
  let st := (st.1, r_set_os w st.2) in
  match res with
  | Fail e => Some (Fail e, st)
  | Ret evs =>
      let has_timers := existsb (λ ev, ev.2 =? timers_base) evs in
      '(r, st) ← (if has_timers then wl_timer_heap_dispatch timer_func st else Some (Ret tt, st));
      match r with
      | Fail e => Some (Fail e, st)
      | Ret _ =>
          st ← dispatch_events evs st;
          st ← wl_event_loop_process_destroy_list fuel st;
          st ← wl_event_loop_dispatch_idle fuel st;
          st ← recheck_loop fuel fuel st;
          Some (Ret tt, st)
      end
  end.
End loop.

(** ** The poll timeout *)

Lemma normalize_down_spec fuel r :
  (Z.to_nat (tv_nsec r / 1000000000) < fuel)%nat →
  ∃ r', normalize_down fuel r = Some r' ∧ to_ns r' = to_ns r ∧ tv_nsec r' < 1000000000 ∧
    (0 <= tv_nsec r → 0 <= tv_nsec r') ∧ (tv_nsec r < 0 → r' = r).
Proof.
  revert r. induction fuel as [|fuel IH]; intros r Hf; [lia|]. cbn [normalize_down].
  destruct (Z.leb_spec 1000000000 (tv_nsec r)) as [H|H].
  - destruct (IH (mk_ts (tv_sec r + 1) (tv_nsec r - 1000000000))) as (r'&->&E&?&?&_); [cbn; mlia|].
    exists r'. unfold to_ns in *. cbn in *. split_and!; [done|lia|lia|lia|lia].
  - exists r. split_and!; [done|done|lia|lia|done].
Qed.

Lemma normalize_up_spec fuel r :
  (Z.to_nat (- tv_nsec r / 1000000000 + 1) < fuel)%nat → tv_nsec r < 1000000000 →
  ∃ r', normalize_up fuel r = Some r' ∧ to_ns r' = to_ns r ∧ 0 <= tv_nsec r' < 1000000000.
Proof.
  revert r. induction fuel as [|fuel IH]; intros r Hf Hr; [lia|]. cbn [normalize_up].
  destruct (Z.ltb_spec (tv_nsec r) 0) as [H|H].
  - destruct (decide (tv_nsec r + 1000000000 < 0)) as [Hn|Hn].
    + destruct (IH (mk_ts (tv_sec r - 1) (tv_nsec r + 1000000000))) as (r'&->&E&?); [cbn; mlia|cbn; lia|].
      exists r'. unfold to_ns in *. cbn in *. split_and!; [done|lia|lia|lia].
    + destruct fuel as [|fuel]; [mlia|]. cbn [normalize_up tv_nsec]. rewrite (proj2 (Z.ltb_ge _ _)) by lia.
      eexists. split; [done|]. unfold to_ns. cbn. lia.
  - exists r. split_and!; [done|done|lia|lia].
Qed.

(** Normalising always ends, keeps the time and leaves less than a second of
    nanoseconds. *)
Lemma normalize_spec v :
  ∃ r, timespec_normalize v = Some r ∧ to_ns r = to_ns v ∧ 0 <= tv_nsec r < 1000000000.
Proof.
  unfold timespec_normalize, normalize_fuel.
  set (f := S (Z.to_nat (Z.abs (tv_nsec v) / 1000000000 + 1))).
  destruct (normalize_down_spec f v) as (r1&->&E1&Hlt&Hnn&Hneg); [subst f; mlia|]. cbn [mbind option_bind].
  destruct (normalize_up_spec f r1) as (r2&->&E2&Hr); [|done|exists r2; split_and!; [done|congruence|lia|lia]].
  destruct (decide (0 <= tv_nsec v)) as [Hv|Hv].
  - specialize (Hnn Hv). subst f. mlia.
  - rewrite Hneg by lia. subst f. mlia.
Qed.

Lemma timespec_add_spec a b :
  ∃ r, timespec_add a b = Some r ∧ to_ns r = to_ns a + to_ns b ∧ 0 <= tv_nsec r < 1000000000.
Proof.
  destruct (normalize_spec (mk_ts (tv_sec a + tv_sec b) (tv_nsec a + tv_nsec b))) as (r&?&E&?).
  exists r. unfold to_ns in *. cbn in E. split_and!; (done || lia).
Qed.

Lemma timespec_sub_spec a b :
  ∃ r, timespec_sub a b = Some r ∧ to_ns r = to_ns a - to_ns b ∧ 0 <= tv_nsec r < 1000000000.
Proof.
  destruct (normalize_spec (mk_ts (tv_sec a - tv_sec b) (tv_nsec a - tv_nsec b))) as (r&?&E&?).
  exists r. unfold to_ns in *. cbn in E. split_and!; (done || lia).
Qed.

Lemma ms_to_timespec_ns ms : to_ns (ms_to_timespec ms) = ms * 1000000.
Proof. unfold to_ns, ms_to_timespec. cbn. pose proof (Z.quot_rem' ms 1000). lia. Qed.

(** The milliseconds of a normalised time, rounded down. *)
Lemma timespec_to_ms_spec t :
  0 <= tv_nsec t < 1000000000 → - 2 ^ 31 <= to_ns t / 1000000 < 2 ^ 31 →
  timespec_to_ms t = to_ns t / 1000000.
Proof.
  intros Hn Hr. unfold timespec_to_ms. rewrite Z.quot_div_nonneg by lia.
  assert (tv_sec t * 1000 + tv_nsec t / 1000000 = to_ns t / 1000000) as ->.
  { unfold to_ns. replace (tv_sec t * 1000000000) with (tv_sec t * 1000 * 1000000) by lia.
    rewrite Z.div_add_l by lia. done. }
  by apply i32_small.
Qed.

(** A bound on how often [epoll_wait] is still interrupted. *)
Class OsWaitGhost (W : Type) := { wait_budget : W → nat }.
Class OsWaitLaws (W : Type) `{OsEpoll W, OsTimer W, OsWaitGhost W} : Prop := {
  os_epoll_wait_law epfd n timeout (w : W) :
    match os_epoll_wait epfd n timeout w with
    | (Fail e, w') => (e = EINTR ∨ e = EAGAIN → wait_budget w' < wait_budget w)%nat
    | (Ret _, _) => True
    end;
  os_clock_wait (w : W) : (wait_budget (snd (os_clock_gettime w)) <= wait_budget w)%nat
}.

Section wait.
Context {W : Type} {EE : OsEpoll W} {ET : OsTimer W} {EG : OsWaitGhost W} {EL : OsWaitLaws W}.

Lemma wait_loop_spec fuel epfd timeout deadline (w : W) :
  (wait_budget w < fuel)%nat →
  ∃ r w', wait_loop fuel epfd timeout deadline w = Some (r, w') ∧
    r ≠ Fail EINTR ∧ r ≠ Fail EAGAIN.
Proof.
  revert timeout w. induction fuel as [|fuel IH]; intros timeout w Hf; [lia|]. cbn [wait_loop].
  pose proof (os_epoll_wait_law epfd ARRAY_LENGTH_ep timeout w) as Hlaw.
  destruct (os_epoll_wait epfd ARRAY_LENGTH_ep timeout w) as [[evs|e] w1]; [by eexists _, _|].
  destruct (bool_decide (e ≠ EINTR) && bool_decide (e ≠ EAGAIN)) eqn:He.
  { apply andb_true_iff in He as [?%bool_decide_eq_true ?%bool_decide_eq_true].
    eexists _, _. split; [done|]. by split; intros [= ->]. }
  assert (wait_budget w1 < wait_budget w)%nat as Hlt.
  { apply Hlaw. apply andb_false_iff in He as [?%bool_decide_eq_false%dec_stable|?%bool_decide_eq_false%dec_stable]; auto. }
  destruct deadline as [end_|]; [|apply IH; lia].
  pose proof (os_clock_wait w1) as Hck. destruct (os_clock_gettime w1) as [now w2]. cbn in Hck.
  destruct (timespec_sub_spec end_ now) as (left&->&_). cbn [mbind option_bind].
  case_step; [by eexists _, _|]. apply IH. lia.
Qed.
End wait.

Lemma frame_lookup (m m' : gmap Z wl_list) xs q : frame m m' xs → q ∉ xs → m' !! q = m !! q.
Proof.
  intros [_ Hf] Hq. destruct (Hf q Hq) as [Hn Hp]. unfold get_next, get_prev in *.
  destruct (m' !! q) as [[]|], (m !! q) as [[]|]; try done. by injection Hn as ->; injection Hp as ->.
Qed.

(** ** Descriptors of sources *)

(** [epoll_ctl], [signalfd] and memory do not close or open the descriptors of
    others. *)
Class OsLoopLaws (W : Type) `{OsEpoll W, OsNew W, OsSignal W, OsFdGhost W} : Prop := {
  os_epoll_add_fds epfd fd events ptr (w : W) :
    open_fds (snd (os_epoll_add epfd fd events ptr w)) = open_fds w;
  os_new_fds (w : W) : open_fds (snd (os_new w)) = open_fds w;
  os_sigblock_fds n (w : W) : open_fds (os_sigblock n w) = open_fds w;
  os_signalfd_law n (w : W) :
    match os_signalfd n w with
    | (Ret fd, w') => 0 <= fd < 2 ^ 31 ∧ fd ∉ open_fds w ∧ open_fds w' = {[fd]} ∪ open_fds w
    | (Fail _, w') => open_fds w' = open_fds w
    end
}.

Section fds.
Context {W : Type} {EM : OsMem W} {EF : OsFd W} {EE : OsEpoll W} {EN : OsNew W} {ES : OsSignal W}
  {EG : OsFdGhost W} {EL : OsFdLaws W} {EL' : OsLoopLaws W}.

Definition rfds (r : rest W) : gset Z := open_fds (r_os r).

(** The new source is registered with a descriptor of its own, or nothing
    is left of it. *)
Definition source_added (r : rest W) (a : Z) (k : source_kind) (res : option (option Z * rest W)) : Prop :=
  ∃ o r', res = Some (o, r') ∧
    match o with
    | Some b => b = a ∧ ∃ d, 0 <= d ∧ d ∉ rfds r ∧ rfds r' = {[d]} ∪ rfds r ∧
        r_sources r' = <[a := mk_source k d]> (r_sources r) ∧ is_list (r_links r') a [] ∧
        (∀ b, b ≠ a → r_links r' !! b = r_links r !! b)
    | None => rfds r' = rfds r ∧ r_sources r' = r_sources r ∧ r_links r' = r_links r
    end.

Lemma add_source_spec a k fd mask (r r0 : rest W) :
  r_sources r0 !! a = None → r_links r0 !! a = None →
  r_sources r = r_sources r0 → r_links r = <[a := mk_wl_list 0 0]> (r_links r0) →
  (match fd with
   | Ret d => 0 <= d < 2 ^ 31 ∧ d ∉ rfds r0 ∧ rfds r = {[d]} ∪ rfds r0
   | Fail _ => rfds r = rfds r0
   end) →
  source_added r0 a k (add_source a (mk_source k (fd_result fd)) mask r).
Proof.
  intros Hs Hl Es El Hfd. unfold add_source. cbn [s_fd].
  assert (Hfree : ∀ r1 : rest W, rfds r1 = rfds r0 → delete a (r_sources r1) = r_sources r0 →
    delete a (r_links r1) = r_links r0 → source_added r0 a k (Some (None, free_source a r1))).
  { intros r1 ???. eexists None, _. split; [done|]. by split_and!. }
  destruct fd as [d|e]; cbn [fd_result].
  2:{ rewrite (proj2 (Z.ltb_lt _ _)) by lia. apply Hfree; [done|by rewrite Es, delete_id|].
      by rewrite El, delete_insert_id. }
  destruct Hfd as (Hd&Hn&Ho). rewrite (proj2 (Z.ltb_ge _ _)) by lia.
  unfold on_links. cbn [r_links r_set_sources]. rewrite El.
  destruct (init_is_list a (<[a := mk_wl_list 0 0]> (r_links r0))) as (m&Em&Hm&Hf); [set_solver|].
  rewrite Em. cbn [mbind option_bind].
  assert (Hm' : ∀ b, b ≠ a → m !! b = r_links r0 !! b).
  { intros b Hb. rewrite (frame_lookup _ m [a]) by (done || set_solver). by rewrite lookup_insert_ne. }
  unfold os_epoll_add, rest_epoll, os_call. cbn [r_os r_set_links r_set_sources r_epoll_fd].
  pose proof (os_epoll_add_fds (r_epoll_fd r) d (epoll_events mask) a (r_os r)) as Hep.
  destruct (os_epoll_add _ d _ a (r_os r)) as [[u|e] w']; cbn [snd] in Hep.
  - eexists (Some a), _. split; [done|]. split; [done|]. exists d. unfold rfds in *. cbn. rewrite Hep.
    split_and!; try done; [lia|by rewrite Es].
  - apply Hfree; cbn.
    + unfold rfds in *. cbn. rewrite os_close_law, Hep, Ho. set_solver.
    + by rewrite Es, delete_insert_id.
    + apply map_eq. intros b. destruct (decide (b = a)) as [->|Hne]; [by rewrite lookup_delete_eq|].
      rewrite lookup_delete_ne by done. by apply Hm'.
Qed.

(** The wrapper on the state is the wrapper on the operating system. *)
Lemma dupfd_lift fd minfd (r : rest W) :
  wl_os_dupfd_cloexec fd minfd r = os_call (wl_os_dupfd_cloexec fd minfd) r.
Proof.
  unfold wl_os_dupfd_cloexec, os_call. cbn [os_dupfd rest_fd]. unfold os_call.
  destruct (os_dupfd true fd minfd (r_os r)) as [[d|[]] w1]; try done. cbn [r_os r_set_os].
  destruct (os_dupfd false fd minfd w1) as [[d|e] w2]; cbn [cloexec_result]; [|done].
  unfold set_cloexec_or_close. case_step; [done|]. cbn [os_getfd rest_fd]. unfold os_call. cbn [r_os r_set_os].
  destruct (os_getfd d w2) as [[flags|e] w3]; [|done]. cbn [os_setfd rest_fd]. unfold os_call. cbn [r_os r_set_os].
  by destruct (os_setfd d _ w3) as [[u|e] w4].
Qed.

Lemma add_fd_spec fd mask (r : rest W) :
  match os_new r with
  | (Some a, _) => r_sources r !! a = None → r_links r !! a = None →
      source_added r a (SrcFd fd) (wl_event_loop_add_fd fd mask r)
  | (None, r') => wl_event_loop_add_fd fd mask r = Some (None, r') ∧
      rfds r' = rfds r ∧ r_sources r' = r_sources r ∧ r_links r' = r_links r
  end.
Proof.
  unfold wl_event_loop_add_fd. pose proof (os_new_fds (r_os r)) as Hnew. cbn [os_new rest_new].
  destruct (os_new (r_os r)) as [[a|] w1]; cbn [snd] in Hnew; [|by unfold rfds; cbn].
  intros Hs Hl. rewrite dupfd_lift. unfold os_call. cbn [r_os r_set_links r_set_os].
  pose proof (wl_os_dupfd_cloexec_spec fd 0 w1) as Hdup. destruct (wl_os_dupfd_cloexec fd 0 w1) as [d w2].
  apply add_source_spec; try done. unfold rfds. cbn. rewrite <- Hnew. by destruct d.
Qed.

Lemma add_signal_spec n (r : rest W) :
  match os_new r with
  | (Some a, _) => r_sources r !! a = None → r_links r !! a = None →
      source_added r a (SrcSignal n) (wl_event_loop_add_signal n r)
  | (None, r') => wl_event_loop_add_signal n r = Some (None, r') ∧
      rfds r' = rfds r ∧ r_sources r' = r_sources r ∧ r_links r' = r_links r
  end.
Proof.
  unfold wl_event_loop_add_signal. pose proof (os_new_fds (r_os r)) as Hnew. cbn [os_new rest_new].
  destruct (os_new (r_os r)) as [[a|] w1]; cbn [snd] in Hnew; [|by unfold rfds; cbn].
  intros Hs Hl. cbn [os_signalfd os_sigblock rest_signal]. unfold os_call. cbn [r_os r_set_links r_set_os].
  pose proof (os_signalfd_law n w1) as Hlaw. destruct (os_signalfd n w1) as [d w2].
  apply add_source_spec; try done. unfold rfds, os_do. cbn. rewrite os_sigblock_fds, <- Hnew. by destruct d.
Qed.
End fds.

(** ** The lists of the loop *)

Section lists.
Context {W : Type} {EM : OsMem W} {EF : OsFd W} {ET : OsTimer W} {EE : OsEpoll W}.
Context (loop : Z).
Notation rest := (rest W).
Notation state := (timer_state (W := rest)).

(** The three lists of the loop are well formed and share no node. *)
Definition lists_ok (m : gmap Z wl_list) (C I D : list Z) : Prop :=
  is_list m (check_list loop) C ∧ is_list m (idle_list loop) I ∧ is_list m (destroy_list loop) D ∧
  NoDup ((check_list loop :: C) ++ (idle_list loop :: I) ++ destroy_list loop :: D).

Definition idle_sources (r : rest) (I : list Z) : Prop :=
  ∀ a, a ∈ I → ∃ s, r_sources r !! a = Some s ∧ s_kind s = SrcIdle ∧ s_fd s = -1.

(** An idle source goes from the idle list to the destroy list. *)
Lemma remove_idle_spec a C I D (st : state) :
  lists_ok (r_links st.2) C (a :: I) D → idle_sources st.2 [a] →
  ∃ m, wl_event_source_remove loop a st = Some (st.1, r_set_links m st.2) ∧ lists_ok m C I (a :: D).
Proof.
  destruct st as [[h ts] r]. cbn [fst snd]. intros (HC&HI&HD&Hnd) Hsrc.
  destruct (Hsrc a) as (s&Hs&Hk&Hfd); [set_solver|]. unfold wl_event_source_remove. rewrite Hs.
  cbn [mbind option_bind]. rewrite Hfd, Hk. cbn [Z.leb Z.compare mbind option_bind]. unfold on_links.
  destruct (remove_is_list_head _ _ _ _ HI) as (m1&->&HI1&Hf1&_). cbn [mbind option_bind r_links r_set_links].
  apply NoDup_app in Hnd as (HndC&HdC&Hnd2). apply NoDup_app in Hnd2 as (HndI&HdI&HndD).
  assert (HD1 : is_list m1 (destroy_list loop) D).
  { eapply is_list_frame; [done| |done]. intros x Hx Hx'. apply (HdI x); [set_solver +Hx'|done]. }
  assert (HC1 : is_list m1 (check_list loop) C).
  { eapply is_list_frame; [done| |done]. intros x Hx Hx'. apply (HdC x); [done|set_solver +Hx']. }
  assert (Ha : a ∉ destroy_list loop :: D) by (apply HdI; set_solver +).
  destruct (insert_is_list_head m1 (destroy_list loop) D a HD1) as (m2&->&HD2&Hf2).
  { destruct Hf1 as [-> _]. apply (is_list_dom _ _ _ _ HI). set_solver +. } { done. }
  cbn [mbind option_bind]. eexists. split; [done|].
  apply NoDup_cons in HndI as [HniI HndI]. apply NoDup_cons in HndI as [HaI HndI].
  assert (Hdis : ∀ x, x ∈ idle_list loop :: I → x ∉ a :: destroy_list loop :: D).
  { intros x Hx. rewrite elem_of_cons. intros [->|Hx']; [set_solver +Hx HniI HaI|].
    apply (HdI x); [set_solver +Hx|done]. }
  split_and!; [..|done|].
  - eapply is_list_frame; [done| |done]. intros x Hx Hx'. apply (HdC x Hx). set_solver +Hx'.
  - eapply is_list_frame; [done|apply Hdis|done].
  - apply NoDup_app. split_and!; [done| |].
    + intros x Hx Hx'. apply (HdC x Hx). set_solver +Hx'.
    + apply NoDup_app. split_and!; [constructor; set_solver| |].
      * intros x Hx Hx'. apply (Hdis x Hx). set_solver +Hx'.
      * apply NoDup_cons in HndD as [? ?]. constructor; [set_solver +Ha H|]. constructor; [set_solver +Ha|done].
Qed.

(** The callbacks of [l], in order, each source removed after its call. *)
Fixpoint idle_calls (func : Z → Z → state → option (Z * state)) (l : list Z) (st : state) : option state :=
  match l with
  | [] => Some st
  | a :: l => '(_, st) ← func a 0 st; st ← wl_event_source_remove loop a st; idle_calls func l st
  end.

(** A callback that leaves the sources and the lists of the loop alone. *)
Definition quiet (func : Z → Z → state → option (Z * state)) : Prop :=
  ∀ a arg st, ∃ res st', func a arg st = Some (res, st') ∧
    r_links st'.2 = r_links st.2 ∧ r_sources st'.2 = r_sources st.2.

Lemma dispatch_idle_spec func fuel C I D (st : state) :
  quiet func → lists_ok (r_links st.2) C I D → idle_sources st.2 I → (length I < fuel)%nat →
  ∃ st', wl_event_loop_dispatch_idle loop func fuel st = Some st' ∧ idle_calls func I st = Some st' ∧
    lists_ok (r_links st'.2) C [] (rev I ++ D) ∧ r_sources st'.2 = r_sources st.2.
Proof.
  intros Hq. unfold wl_event_loop_dispatch_idle. revert fuel D st.
  induction I as [|a I IH]; intros fuel D st Hl Hsrc Hf; (destruct fuel as [|fuel]; [cbn in Hf; lia|]);
    cbn [dispatch_idle_loop idle_calls]; pose proof Hl as (_&HI&_&_); rewrite (empty_is_list _ _ _ HI); cbn [mbind option_bind].
  - rewrite bool_decide_eq_true_2 by done. by exists st.
  - rewrite bool_decide_eq_false_2 by done. destruct HI as [_ HI]. rewrite (links_next _ _ _ _ HI).
    cbn [hd mbind option_bind]. destruct (Hq a 0 st) as (res&st1&->&El&Es). cbn [mbind option_bind].
    destruct (remove_idle_spec a C I D st1) as (m&->&Hl2).
    { by rewrite El. } { intros b ->%list_elem_of_singleton. rewrite Es. apply Hsrc. set_solver +. }
    cbn [mbind option_bind]. destruct (IH fuel (a :: D) (st1.1, r_set_links m st1.2)) as (st'&->&->&Hl'&Hs').
    { done. } { intros b Hb. cbn. rewrite Es. apply Hsrc. set_solver +Hb. } { cbn in Hf; lia. }
    exists st'. split_and!; try done.
    + cbn [rev]. by rewrite <- app_assoc.
    + rewrite Hs'. cbn. done.
Qed.

(** Every source of [l] is freed. *)
Definition free_all (l : list Z) (st : state) : state := foldl (λ st a, free_any a st) st l.

Lemma free_all_lookup l (st : state) b :
  r_sources (free_all l st).2 !! b = (if decide (b ∈ l) then None else r_sources st.2 !! b) ∧
  r_links (free_all l st).2 !! b = (if decide (b ∈ l) then None else r_links st.2 !! b) ∧
  (free_all l st).1.2 !! b = (if decide (b ∈ l) then None else st.1.2 !! b).
Proof.
  unfold free_all. revert st. induction l as [|a l IH]; intros st; cbn [foldl].
  - rewrite !decide_False by apply not_elem_of_nil. done.
  - destruct (IH (free_any a st)) as (->&->&->). destruct st as [[h ts] r]. cbn.
    destruct (decide (b ∈ l)); [rewrite !decide_True by set_solver; done|]. destruct (decide (b = a)) as [->|].
    + rewrite !decide_True by set_solver. by rewrite !lookup_delete_eq.
    + rewrite !decide_False by set_solver. by rewrite !lookup_delete_ne.
Qed.

Lemma links_delete m a b l z :
  links m b l z → a ∉ b :: l → a ≠ z → links (delete a m) b l z.
Proof.
  intros Hl Ha Hz. apply (links_frame m); [done|..]; intros x Hx; unfold get_next, get_prev;
    rewrite lookup_delete_ne; try done; intros ->; set_solver.
Qed.

Lemma free_any_links a (st : state) : r_links (free_any a st).2 = delete a (r_links st.2).
Proof. by destruct st as [[h ts] r]. Qed.

Lemma destroy_loop_spec fuel a l (st : state) :
  NoDup (a :: l) → destroy_list loop ∉ a :: l → links (r_links st.2) a l (destroy_list loop) →
  is_Some (r_links st.2 !! destroy_list loop) → (length l < fuel)%nat →
  destroy_loop loop (S fuel) a (hd (destroy_list loop) l) st = Some (free_all (a :: l) st).
Proof.
  revert fuel a st. induction l as [|b l IH]; intros fuel a st Hnd Hd Hl [n Hn] Hf;
    (destruct fuel as [|fuel]; [cbn in Hf; lia|]); remember (S fuel) as f eqn:Ef; cbn [destroy_loop hd];
    rewrite (proj2 (Z.eqb_neq _ _)) by set_solver; rewrite free_any_links.
  - unfold get_next. rewrite lookup_delete_ne by set_solver. rewrite Hn. subst f.
    cbn [fmap option_fmap option_map mbind option_bind destroy_loop]. by rewrite Z.eqb_refl.
  - apply NoDup_cons in Hnd as [Ha Hnd]. cbn [links] in Hl. destruct Hl as (_&_&Hl).
    assert (Hl' : links (delete a (r_links st.2)) b l (destroy_list loop)) by (apply links_delete; set_solver).
    rewrite (links_next _ _ _ _ Hl'). cbn [mbind option_bind]. subst f.
    apply (IH fuel b (free_any a st)); [done|set_solver|by rewrite free_any_links| |cbn in Hf; lia].
    rewrite free_any_links, lookup_delete_ne by set_solver. by eexists.
Qed.

Lemma process_destroy_spec fuel D (st : state) :
  is_list (r_links st.2) (destroy_list loop) D → (length D < fuel)%nat →
  ∃ m, wl_event_loop_process_destroy_list loop (S fuel) st =
         Some ((free_all D st).1, r_set_links m (free_all D st).2) ∧
    is_list m (destroy_list loop) [] ∧ frame (r_links (free_all D st).2) m [destroy_list loop].
Proof.
  intros Hl Hf. pose proof Hl as [Hnd Hlk]. unfold wl_event_loop_process_destroy_list.
  assert (Hdom : destroy_list loop ∈ dom (r_links (free_all D st).2)).
  { apply elem_of_dom. destruct (free_all_lookup D st (destroy_list loop)) as (_&->&_).
    apply NoDup_cons in Hnd as [? _]. rewrite decide_False by done. apply elem_of_dom.
    apply (is_list_dom _ _ _ _ Hl). set_solver. }
  destruct (init_is_list _ _ Hdom) as (m&Em&Hm&Hfr).
  rewrite (links_next _ _ _ _ Hlk). cbn [mbind option_bind]. destruct D as [|a D]; cbn [hd].
  - rewrite (links_next _ _ _ _ Hlk). cbn [hd mbind option_bind destroy_loop]. rewrite Z.eqb_refl.
    cbn [mbind option_bind]. unfold on_links. cbn in Em. rewrite Em. by exists m.
  - pose proof Hlk as (_&_&Hlk'). rewrite (links_next _ _ _ _ Hlk'). cbn [mbind option_bind].
    apply NoDup_cons in Hnd as [Hnd ?].
    rewrite destroy_loop_spec; [|done|done|done| |cbn in Hf; lia].
    + cbn [mbind option_bind]. unfold on_links. rewrite Em. by exists m.
    + apply elem_of_dom, (is_list_dom _ _ _ _ Hl). set_solver.
Qed.

(** [wl_event_loop_dispatch_idle] calls every idle task exactly once, in
    the order they were added, and removes it; the destroy list is then freed
    completely: every task is gone, every other source is kept and both lists
    are empty, the check list untouched. *)
Theorem idle_tasks_run_once func fuel C I D (st : state) :
  quiet func → lists_ok (r_links st.2) C I D → idle_sources st.2 I → (length I + length D < fuel)%nat →
  ∃ st1 st2, wl_event_loop_dispatch_idle loop func fuel st = Some st1 ∧
    idle_calls func I st = Some st1 ∧
    wl_event_loop_process_destroy_list loop (S fuel) st1 = Some st2 ∧
    lists_ok (r_links st2.2) C [] [] ∧
    (∀ b, r_sources st2.2 !! b = if decide (b ∈ I ++ D) then None else r_sources st.2 !! b).
Proof.
  intros Hq Hl Hsrc Hf. destruct (dispatch_idle_spec func fuel C I D st) as (st1&->&->&Hl1&Hs1); try done; [lia|].
  pose proof Hl1 as (HC&HI&HD&Hnd).
  destruct (process_destroy_spec fuel (rev I ++ D) st1 HD) as (m&E&HD2&Hfr).
  { rewrite length_app, length_rev. lia. }
  exists st1. eexists. split_and!; [done|done|exact E|..]; cbn [snd fst r_links r_set_links r_sources].
  - apply NoDup_app in Hnd as (HndC&HdC&Hnd2). apply NoDup_cons in Hnd2 as [HiD HndD].
    assert (Hkeep : ∀ h l, is_list (r_links st1.2) h l → (∀ x, x ∈ h :: l → x ∉ destroy_list loop :: rev I ++ D) →
      is_list m h l).
    { intros h l [Hnd Hlk] Hx. split; [done|].
      assert (Heq : ∀ x, x ∈ h :: l → m !! x = r_links st1.2 !! x).
      { intros x Hin. pose proof (Hx x Hin). rewrite (frame_lookup _ m _ _ Hfr) by set_solver.
        destruct (free_all_lookup (rev I ++ D) st1 x) as (_&->&_). rewrite decide_False by set_solver. done. }
      apply (links_frame (r_links st1.2)); [done|..]; intros x Hx'; unfold get_next, get_prev; rewrite Heq; set_solver. }
    split_and!; [apply Hkeep; [done|]|apply Hkeep; [done|]|done|].
    + intros x Hx Hx'. apply (HdC x Hx). set_solver +Hx'.
    + intros x ->%list_elem_of_singleton. done.
    + apply NoDup_app. split_and!; [done| |].
      * intros x Hx Hx'. apply (HdC x Hx). set_solver +Hx'.
      * constructor; [set_solver +HiD|apply NoDup_singleton].
  - intros b. destruct (free_all_lookup (rev I ++ D) st1 b) as (->&_&_). rewrite Hs1.
    apply decide_ext. rewrite !elem_of_app, list_elem_of_In, <- in_rev, <- list_elem_of_In. done.
Qed.
End lists.

(** ** The properties *)

(** The timeout of a repeated [epoll_wait] is the time that is left until
    the deadline computed at the start, rounded down to milliseconds: the loop
    never waits past the deadline and gives up at most a millisecond early. *)
Theorem poll_timeout now now' timeout :
  0 < timeout < 2 ^ 31 → 0 <= to_ns now' - to_ns now <= 2 ^ 31 * 1000000 →
  ∃ end_ left, timespec_add now (ms_to_timespec timeout) = Some end_ ∧ timespec_sub end_ now' = Some left ∧
    timespec_to_ms left = (timeout * 1000000 - (to_ns now' - to_ns now)) / 1000000 ∧
    to_ns now' + timespec_to_ms left * 1000000 <= to_ns now + timeout * 1000000 ∧
    (timespec_to_ms left <= 0 → to_ns now + timeout * 1000000 < to_ns now' + 1000000).
Proof.
  intros Ht Hn. destruct (timespec_add_spec now (ms_to_timespec timeout)) as (end_&Ea&E1&_).
  destruct (timespec_sub_spec end_ now') as (left&Es&E2&Hv). exists end_, left. split; [done|]. split; [done|].
  rewrite ms_to_timespec_ns in E1. rewrite (timespec_to_ms_spec left Hv) by mlia.
  assert (to_ns left = timeout * 1000000 - (to_ns now' - to_ns now)) as -> by lia. split_and!; mlia.
Qed.

Lemma poll_timeout_witness :
  ∃ end_ left, timespec_add (mk_ts 5 900000000) (ms_to_timespec 1500) = Some end_ ∧
    timespec_sub end_ (mk_ts 6 300000000) = Some left ∧
    timespec_to_ms left = (1500 * 1000000 - (to_ns (mk_ts 6 300000000) - to_ns (mk_ts 5 900000000))) / 1000000 ∧
    to_ns (mk_ts 6 300000000) + timespec_to_ms left * 1000000 <= to_ns (mk_ts 5 900000000) + 1500 * 1000000 ∧
    (timespec_to_ms left <= 0 → to_ns (mk_ts 5 900000000) + 1500 * 1000000 < to_ns (mk_ts 6 300000000) + 1000000).
Proof. apply (poll_timeout (mk_ts 5 900000000) (mk_ts 6 300000000) 1500); unfold to_ns; cbn; lia. Defined.

Lemma has_testbit x n : 0 <= n → has x (2 ^ n) = Z.testbit x n.
Proof.
  intros Hn. unfold has. destruct (Z.testbit x n) eqn:E.
  - apply negb_true_iff, Z.eqb_neq. intros H0. apply (f_equal (λ y, Z.testbit y n)) in H0.
    by rewrite Z.land_spec, Z.pow2_bits_true, E, Z.bits_0 in H0 by done.
  - apply negb_false_iff, Z.eqb_eq, Z.bits_inj'. intros k Hk. rewrite Z.land_spec, Z.bits_0.
    destruct (decide (k = n)) as [->|]; [by rewrite E|]. rewrite Z.pow2_bits_false by done. apply andb_false_r.
Qed.

Lemma event_mask_bits e :
  event_mask e = Z.lor (Z.lor (Z.b2z (Z.testbit e 0)) (2 * Z.b2z (Z.testbit e 2)))
    (Z.lor (4 * Z.b2z (Z.testbit e 4)) (8 * Z.b2z (Z.testbit e 3))).
Proof.
  unfold event_mask. change EPOLLERR with (2 ^ 3). change EPOLLHUP with (2 ^ 4).
  change EPOLLOUT with (2 ^ 2). change EPOLLIN with (2 ^ 0). rewrite !has_testbit by lia.
  by destruct (Z.testbit e 0), (Z.testbit e 2), (Z.testbit e 3), (Z.testbit e 4).
Qed.

Lemma epoll_events_bits m :
  epoll_events m = Z.lor (Z.b2z (Z.testbit m 0)) (4 * Z.b2z (Z.testbit m 1)).
Proof.
  unfold epoll_events. change WL_EVENT_WRITABLE with (2 ^ 1). change WL_EVENT_READABLE with (2 ^ 0). rewrite !has_testbit by lia.
  by destruct (Z.testbit m 0), (Z.testbit m 1).
Qed.

(** Whatever mask a user watches a descriptor for, the events the loop
    asks [epoll] for come back as the readable and writable bits of that mask,
    and hang-up and error are reported exactly when [epoll] reports them. *)
Theorem event_mask_roundtrip mask extra :
  event_mask (Z.lor (epoll_events mask) (Z.land extra (Z.lor EPOLLERR EPOLLHUP))) =
  Z.lor (Z.land mask (Z.lor WL_EVENT_READABLE WL_EVENT_WRITABLE))
    (Z.lor (if Z.testbit extra 4 then WL_EVENT_HANGUP else 0) (if Z.testbit extra 3 then WL_EVENT_ERROR else 0)).
Proof.
  rewrite event_mask_bits, epoll_events_bits.
  assert (Z.land mask (Z.lor WL_EVENT_READABLE WL_EVENT_WRITABLE) =
          Z.lor (Z.b2z (Z.testbit mask 0)) (2 * Z.b2z (Z.testbit mask 1))) as ->.
  { apply Z.bits_inj'. intros k Hk. rewrite Z.land_spec. change (Z.lor _ WL_EVENT_WRITABLE) with 3.
    destruct (decide (k = 0)) as [->|]; [by destruct (Z.testbit mask 0), (Z.testbit mask 1)|].
    destruct (decide (k = 1)) as [->|]; [by destruct (Z.testbit mask 0), (Z.testbit mask 1)|].
    rewrite (Z.bits_above_log2 3 k), andb_false_r by (cbn; lia). symmetry.
    destruct (Z.testbit mask 0), (Z.testbit mask 1);
      (match goal with |- Z.testbit ?x _ = _ => let y := eval vm_compute in x in change x with y end);
      apply Z.bits_above_log2; cbn; lia. }
  rewrite !Z.lor_spec, !Z.land_spec.
  by destruct (Z.testbit mask 0), (Z.testbit mask 1), (Z.testbit extra 3), (Z.testbit extra 4); cbn;
    rewrite ?andb_true_r, ?andb_false_r.
Qed.

(** C30: Adding a descriptor source either registers the source with a fresh
    duplicate of the descriptor and a link of its own, or leaves nothing
    behind: no open descriptor, no source and no memory. *)
Theorem add_fd_no_leak {W : Type} {EM : OsMem W} {EF : OsFd W} {EE : OsEpoll W} {EN : OsNew W}
    {ES : OsSignal W} {EG : OsFdGhost W} {EL : OsFdLaws W} {EL' : OsLoopLaws W} fd mask (r : rest W) a :
  fst (os_new r) = Some a → r_sources r !! a = None → r_links r !! a = None →
  ∃ o r', wl_event_loop_add_fd fd mask r = Some (o, r') ∧
    match o with
    | Some b => b = a ∧ ∃ d, 0 <= d ∧ d ∉ open_fds (r_os r) ∧ open_fds (r_os r') = {[d]} ∪ open_fds (r_os r) ∧
        r_sources r' = <[a := mk_source (SrcFd fd) d]> (r_sources r) ∧ is_list (r_links r') a [] ∧
        (∀ b, b ≠ a → r_links r' !! b = r_links r !! b)
    | None => open_fds (r_os r') = open_fds (r_os r) ∧ r_sources r' = r_sources r ∧ r_links r' = r_links r
    end.
Proof.
  intros Hnew Hs Hl. pose proof (add_fd_spec fd mask r) as Hadd.
  destruct (os_new r) as [[b|] r1]; [|done]. injection Hnew as ->. exact (Hadd Hs Hl).
Qed.

(** [epoll] of the simulated system takes what it is given while there is
    memory; the next structure is at address 1024. *)
#[export] Instance sim_os_epoll : OsEpoll sim := {|
  os_epoll_add _ _ _ _ w := (if sim_mem w then Ret tt else Fail ENOMEM, w);
  os_epoll_mod _ _ _ _ w := (Ret tt, w);
  os_epoll_del _ _ w := w;
  os_epoll_wait _ _ _ w := (Ret [], w)
|}.
#[export] Instance sim_os_new : OsNew sim := {| os_new w := (Some 1024, w) |}.
#[export] Instance sim_os_signal : OsSignal sim := {|
  os_signalfd _ w := sim_open w;
  os_sigblock _ w := w;
  os_read_siginfo _ w := w
|}.
#[export] Instance sim_loop_laws : OsLoopLaws sim.
Proof. split; try done. intros n w. exact (os_dupfd_law true 0 0 w). Qed.

Lemma add_fd_no_leak_witness :
  ∃ o r', wl_event_loop_add_fd 3 1 (mk_rest 9 ∅ ∅ sim_init) = Some (o, r') ∧
    match o with
    | Some b => b = 1024 ∧ ∃ d, 0 <= d ∧ d ∉ open_fds sim_init ∧ open_fds (r_os r') = {[d]} ∪ open_fds sim_init ∧
        r_sources r' = <[1024 := mk_source (SrcFd 3) d]> ∅ ∧ is_list (r_links r') 1024 [] ∧
        (∀ b, b ≠ 1024 → r_links r' !! b = (∅ : gmap Z wl_list) !! b)
    | None => open_fds (r_os r') = open_fds sim_init ∧ r_sources r' = ∅ ∧ r_links r' = ∅
    end.
Proof. exact (add_fd_no_leak 3 1 (mk_rest 9 ∅ ∅ sim_init) 1024 eq_refl eq_refl eq_refl). Defined.

(** ** Re-checking sources *)

Section check.
Context {W : Type} {EM : OsMem W} {EF : OsFd W} {ET : OsTimer W} {EE : OsEpoll W} {ES : OsSignal W}.
Context (loop : Z).
Notation rest := (rest W).
Notation state := (timer_state (W := rest)).




End check.

(** Two sources, 64 and 128, on one list of the loop at address 1000. *)
Definition demo_links (list : Z) : gmap Z wl_list :=
  <[64 := mk_wl_list list 128]> (<[128 := mk_wl_list 64 list]> (<[list := mk_wl_list 128 64]>
    (list_to_map [(1008, mk_wl_list 1008 1008); (1024, mk_wl_list 1024 1024); (1040, mk_wl_list 1040 1040)]))).
Definition demo_loop (list : Z) (s : source) : timer_state (W := rest clock_sim) :=
  (wl_timer_heap_init, ∅, mk_rest 3 (<[64 := s]> {[128 := s]}) (demo_links list) (mk_clock 0 None 192)).

#[export] Instance clock_signal : OsSignal clock_sim := {|
  os_signalfd _ w := (Fail EOTHER, w);
  os_sigblock _ w := w;
  os_read_siginfo _ w := w
|}.

Ltac demo_list := split; [apply (bool_decide_unpack _); by vm_compute|by vm_compute].

Lemma idle_tasks_run_once_witness (st := demo_loop 1024 (mk_source SrcIdle (-1))) :
  ∃ st1 st2, wl_event_loop_dispatch_idle 1000 (λ a arg st, Some (0, st)) 5 st = Some st1 ∧
    idle_calls 1000 (λ a arg st, Some (0, st)) [64; 128] st = Some st1 ∧
    wl_event_loop_process_destroy_list 1000 6 st1 = Some st2 ∧
    lists_ok 1000 (r_links st2.2) [] [] [] ∧
    (∀ b, r_sources st2.2 !! b = if decide (b ∈ [64; 128] ++ []) then None else r_sources st.2 !! b).
Proof.
  refine (idle_tasks_run_once 1000 (λ a arg st, Some (0, st)) 5 [] [64; 128] [] st _ _ _ _).
  - intros a arg st'. by eexists _, _.
  - split_and!; [demo_list..|]. apply (bool_decide_unpack _). by vm_compute.
  - intros a Ha. apply list_elem_of_In in Ha. cbn in Ha. exists (mk_source SrcIdle (-1)).
    destruct Ha as [<-|[<-|[]]]; by vm_compute.
  - cbn. lia.
Defined.


