(* ===== verification/WlDispatch.v ===== *)
(** * Serving the requests of a client

    Models [wl_client_connection_data] of wayland/build/src/wayland-server.c:
    what the server does when the event loop reports that the socket of a client
    is ready.  It puts together the connection of [WlConnection], the decoder of
    [WlDemarshal], the lookup of objects and the calls of [WlClosure] and the
    requests of [WlServer].  The requests of interfaces other than the core ones
    are parameters, as are the functions a compositor installs for them. *)

From stdpp Require Import strings.
From S2P Require Import Prelude Decimal Os OsSim WlOs WlRing WlConnection WlSession WlArray WlMap WlMessage WlClosure WlTransmit WlDemarshal WlProtocol WlPrint WlServer WlServerSpec WlEventLoop.
Open Scope Z_scope.

(** ** Requests of the core interfaces *)

Definition WL_MAP_ENTRY_LEGACY : Z := 1.

Section tables.
Context (user_requests : wl_interface → list wl_message) (description : string → Z).

Definition display_requests : list wl_message :=
  [mk_message "sync" "n" [Some (wl_callback_interface description)]; mk_message "get_registry" "n" [Some (wl_registry_interface description)]].
Definition registry_requests : list wl_message := [mk_message "bind" "usun" [None; None; None; None]].

(** [object->interface->methods] *)
Definition requests (i : wl_interface) : list wl_message :=
  if decide (if_name i = "wl_display") then display_requests
  else if decide (if_name i = "wl_registry") then registry_requests
  else if decide (if_name i = "wl_callback") then []
  else user_requests i.
End tables.

(** ** What is read from a connection *)

(** [wl_connection_read], [wl_connection_copy] and [wl_connection_demarshal]. *)
Class RequestSource (C W : Type) := {
  source_read : C → W → option (cres Z * C * W);
  source_copy : C → Z → option (list Z);
  source_demarshal : C → Z → wl_map → wl_message → W → option (cres wl_closure * C * wl_map * W)
}.

(** The functions in the tables of implementations. *)
Inductive handler : Type :=
  | HSync
  | HGetRegistry
  | HBind
  | HUser (f : Z).

Section dispatch.
Context {C W : Type} `{OsMem W} `{OsFd W} `{EventSink C W} `{RequestSource C W}.
Context (user_events user_requests : wl_interface → list wl_message).
Context (description : string → Z) (address : gset Z → option Z).
Context (notify : Z → W → W) (user_destroy : Z → Z → W → W) (log_closure : Z → wl_closure → bool → W → W).
Context (remove_source : Z → W → W) (update_source : Z → Z → W → W).
Context (global_filter : option (Z → wl_global → bool)).
Implicit Types s : server C W.

(** The tables a compositor installs ([None] for a null entry), its functions,
    its dispatchers and the functions of its globals. *)
Context (user_table : Z → list (option Z)).
Context (user_call : Z → list (ffi_type * ffi_value) → server C W → option (server C W)).
Context (user_dispatch : Z → Z → Z → wl_message → list wl_argument → server C W → option (server C W)).
Context (user_bind : bind_call → server C W → option (server C W)).

Definition handlers (impl : implementation) : option (list (option handler)) :=
  match impl with
  | no_implementation => None
  | display_interface => Some [Some HSync; Some HGetRegistry]
  | registry_interface => Some [Some HBind]
  | UserImplementation p => Some (map (fmap HUser) (user_table p))
  end.

Definition call_handler (h : handler) (args : list (ffi_type * ffi_value)) (s : option (server C W)) : option (server C W) :=
  s ← s;
  match h, map snd args with
  | HSync, [ffi_data client; ffi_target _; ffi_argument (arg_n id)] =>
      display_sync user_events description address notify user_destroy log_closure client id s
  | HGetRegistry, [ffi_data client; ffi_target _; ffi_argument (arg_n id)] =>
      display_get_registry user_events description address notify log_closure global_filter client id s
  | HBind, [ffi_data client; ffi_target resource; ffi_argument (arg_u name); ffi_argument (arg_s (Some interface)); ffi_argument (arg_u version); ffi_argument (arg_n id)] =>
      '(b, s) ← registry_bind user_events log_closure global_filter client resource name interface version id s;
      match b with None => Some s | Some b => user_bind b s end
  | HUser f, _ => user_call f args s
  | _, _ => None
  end.

(** The closure has been decoded and its objects found. *)
Definition call_request (client resource opcode : Z) (r : wl_resource) (legacy : bool) (cl : wl_closure) s : option (wl_closure * server C W) :=
  '(cl, o) ← match (if legacy then None else r_dispatcher r) with
             | None =>
                 table ← handlers (r_implementation r);
                 wl_closure_invoke table call_handler cl WL_CLOSURE_INVOKE_SERVER resource opcode client (Some s)
             | Some d =>
                 wl_closure_dispatch (λ target opcode message args o, s ← o; user_dispatch d target opcode message args s) cl resource opcode (Some s)
             end;
  s ← o;
  Some (cl, s).

Definition invalid_arguments (client : Z) (r : wl_resource) (message : wl_message) s : option (server C W) :=
  k ← clients s !! client;
  wl_resource_post_error user_events log_closure (k_display_resource k) WL_DISPLAY_ERROR_INVALID_METHOD
    (str "invalid arguments for " ++ str (if_name (o_interface (r_object r))) ++ str "#" ++ fmt_u (o_id (r_object r)) ++ str "." ++ str (msg_name message)) s.

(** A message for [resource] has been found in the tables: decode and call it.
    The boolean tells whether the loop goes on. *)
Definition serve_request (client resource opcode size flags : Z) (r : wl_resource) (message : wl_message) s : option (bool * server C W) :=
  k ← clients s !! client;
  '(closure, x, m, w) ← source_demarshal (k_connection k) size (k_objects k) message (world s);
  let s := set_world w (set_client client (k_set_objects m (k_set_connection x k)) s) in
  match closure with
  | Fail e =>
      s ← (if bool_decide (e = ENOMEM) then wl_resource_post_no_memory user_events log_closure resource s
           else invalid_arguments client r message s);
      Some (false, s)
  | Ret cl =>
      '(res, cl) ← wl_closure_lookup_objects (heap s) cl m;
      match res with
      | Fail _ =>
          s ← invalid_arguments client r message s;
          w ← wl_closure_destroy (Some cl) (world s);
          Some (false, set_world w s)
      | Ret _ =>
          let s := set_world (log_closure resource cl false (world s)) s in
          '(cl, s) ← call_request client resource opcode r (negb (Z.land flags WL_MAP_ENTRY_LEGACY =? 0)) cl s;
          w ← wl_closure_destroy (Some cl) (world s);
          let s := set_world w s in
          k ← clients s !! client;
          Some (negb (k_error k), s)
      end
  end.

(** The checks on a message before it is decoded. *)
Definition find_request (client object opcode size : Z) s : option (bool * server C W) :=
  k ← clients s !! client;
  let post_error text s :=
    s ← wl_resource_post_error user_events log_closure (k_display_resource k) (fst text) (snd text) s; Some (false, s) in
  resource ← wl_map_lookup (k_objects k) object;
  flags ← wl_map_lookup_flags (k_objects k) object;
  if resource =? 0 then post_error (WL_DISPLAY_ERROR_INVALID_OBJECT, str "invalid object " ++ fmt_u object) s
  else
    r ← resources s !! resource;
    let i := o_interface (r_object r) in
    let object_text := str ", object " ++ str (if_name i) ++ str "#" ++ fmt_u (o_id (r_object r)) in
    match requests user_requests description i !! Z.to_nat opcode with
    | None => post_error (WL_DISPLAY_ERROR_INVALID_METHOD, str "invalid method " ++ fmt_d opcode ++ object_text) s
    | Some message =>
        since ← wl_message_get_since message;
        if (Z.land flags WL_MAP_ENTRY_LEGACY =? 0) && (0 <? r_version r) && (r_version r <? since) then
          post_error (WL_DISPLAY_ERROR_INVALID_METHOD,
            str "invalid method " ++ fmt_d opcode ++ str " (since " ++ fmt_d (r_version r) ++ str " < " ++ fmt_d since ++ str ")" ++ object_text) s
        else serve_request client resource opcode size flags r message s
    end.

(** The [while] loop; it ends when no whole message is left. *)
Fixpoint request_loop (fuel : nat) (client len : Z) s : option (server C W) :=
  match fuel with
  | O => None
  | S fuel =>
      if len <? 8 then Some s
      else
        k ← clients s !! client;
        p ← source_copy (k_connection k) 8;
        p0 ← get_u32 p 0;
        p1 ← get_u32 p 1;
        let opcode := Z.land p1 0xffff in
        let size := Z.shiftr p1 16 in
        if len <? size then Some s
        else
          '(go, s) ← find_request client p0 opcode size s;
          if (go : bool) then
            k ← clients s !! client;
            request_loop fuel client (sink_pending (k_connection k)) s
          else Some s
  end.

Definition destroy_client_with_error (client : Z) s : option (server C W) :=
  wl_client_destroy user_events notify user_destroy log_closure remove_source client s.

(** The part for [WL_EVENT_WRITABLE]; the boolean tells that the client is gone. *)
Definition handle_writable (client mask : Z) s : option (bool * server C W) :=
  if has mask WL_EVENT_WRITABLE then
    k ← clients s !! client;
    '(len, x, w) ← sink_flush (k_connection k) (world s);
    let s := set_world w (set_client client (k_set_connection x k) s) in
    match len with
    | Fail e => if bool_decide (e = EAGAIN) then Some (false, s) else s ← destroy_client_with_error client s; Some (true, s)
    | Ret _ => Some (false, set_world (update_source client WL_EVENT_READABLE (world s)) s)
    end
  else Some (false, s).

(** The part for [WL_EVENT_READABLE]; [None] when the client is gone. *)
Definition handle_readable (client mask : Z) s : option (option Z * server C W) :=
  if has mask WL_EVENT_READABLE then
    k ← clients s !! client;
    '(len, x, w) ← source_read (k_connection k) (world s);
    let s := set_world w (set_client client (k_set_connection x k) s) in
    match len with
    | Ret len => if len =? 0 then s ← destroy_client_with_error client s; Some (None, s) else Some (Some len, s)
    | Fail e => if bool_decide (e = EAGAIN) then Some (Some (-1), s) else s ← destroy_client_with_error client s; Some (None, s)
    end
  else Some (Some 0, s).

Definition wl_client_connection_data (client mask : Z) s : option (server C W) :=
  if has mask WL_EVENT_HANGUP then wl_client_destroy user_events notify user_destroy log_closure remove_source client s
  else if has mask WL_EVENT_ERROR then destroy_client_with_error client s
  else
    '(gone, s) ← handle_writable client mask s;
    if (gone : bool) then Some s
    else
      '(len, s) ← handle_readable client mask s;
      match len with
      | None => Some s
      | Some len =>
          (* every request takes at least its header of eight bytes *)
          s ← request_loop (S (Z.to_nat len)) client len s;
          k ← clients s !! client;
          if k_error k then destroy_client_with_error client s else Some s
      end.
End dispatch.
