(* ===== verification/WlDispatchSpec.v ===== *)
(** * A server whose clients may send anything

    Whatever bytes a client sends, [wl_client_connection_data] of [WlDispatch]
    returns, keeps the invariant of the server, and leaves the client served or
    gone.  The functions of the compositor are assumed to keep the state they
    are called in; what they may rely on is proved. *)

From stdpp Require Import strings.
From S2P Require Import Prelude Decimal Os OsSim WlOs WlRing WlConnection WlSession WlArray WlMap WlMessage WlClosure WlTransmit WlDemarshal WlProtocol WlPrint WlServer WlServerSpec WlEventLoop WlDispatch.
Open Scope Z_scope.

(** ** The promise of a connection *)

Class RequestSourceLaws (C W : Type) `{EventSinkLaws C W} `{RequestSource C W} := {
  source_read_law c w : sink_ok c w →
    ∃ r c' w', source_read c w = Some (r, c', w') ∧ sink_ok c' w' ∧ (∀ d, sink_ok d w → sink_ok d w') ∧
      (∀ n, r = Ret n → n = sink_pending c') ∧ (r = Fail EAGAIN → sink_pending c' = 0);
  source_copy_law c w n : sink_ok c w → 0 < n <= sink_pending c →
    ∃ bs, source_copy c n = Some bs ∧ Z.of_nat (length bs) = n ∧ Forall is_byte bs;
  source_demarshal_law c w size objects message A free : sink_ok c w → 0 <= size < 2 ^ 16 → size <= sink_pending c → map_rep objects A free → map_room objects →
    ∃ r c' objects' w' ids, source_demarshal c size objects message w = Some (r, c', objects', w') ∧ sink_ok c' w' ∧ (∀ d, sink_ok d w → sink_ok d w') ∧
      sink_pending c' = sink_pending c - size ∧ reserved (W := W) objects ids objects' ∧
      match r with
      | Ret cl =>
          let ps := parse_signature (msg_signature message) in
          cl_message cl = message ∧ closure_fds_ok cl ∧ received_args ps (cl_args cl) ∧ ids = new_ids ps (cl_args cl) ∧
          (length ps <= length (cl_args cl))%nat ∧ 8 <= size
      | Fail _ => True
      end
}.

Section connection.
Context {W : Type} `{OsSockLaws W} (m : Z) (budget fuel : nat).
Hypothesis (Hm : 12 <= m <= 30) (Hfuel : (Z.to_nat (2 ^ m) + budget < fuel)%nat).

Definition connection_source : RequestSource wl_connection W :=
  Build_RequestSource _ _ (wl_connection_read fuel) wl_connection_copy wl_connection_demarshal.

#[local] Notation ok := (connection_ok m budget).

Lemma pending_size c w : ok c w → wl_connection_pending_input c = ring_buffer_size (c_in c) ∧ 0 <= ring_buffer_size (c_in c) <= 2 ^ 30.
Proof.
  intros ((_ & _ & Hin)%conn_inv_split & _). pose proof (conn_in_ok_size m c Hm Hin). unfold wl_connection_pending_input. rewrite u32_small; lia.
Qed.
Lemma same_output_inv c c' : conn_inv m c → conn_in_ok m c' → same_output c c' → conn_inv m c'.
Proof.
  intros (Ho & Hc & _)%conn_inv_split Hi (Eo & Ef & _). apply conn_inv_split. unfold conn_out_ok, conn_out_capped in *. rewrite Eo, Ef. done.
Qed.

Lemma connection_read_law c w : ok c w →
  ∃ r c' w', wl_connection_read fuel c w = Some (r, c', w') ∧ ok c' w' ∧ (∀ d, ok d w → ok d w') ∧
    (∀ n, r = Ret n → n = wl_connection_pending_input c') ∧ (r = Fail EAGAIN → wl_connection_pending_input c' = 0).
Proof.
  intros Hok. pose proof Hok as (Hi & Hb & Hbud). pose proof (pending_size c w Hok) as [_ Hsz]. pose proof Hi as (_ & _ & Hin)%conn_inv_split.
  destruct (read_spec m fuel c w Hm Hin ltac:(lia)) as (r & c' & w' & E & Hin' & Hso & (_ & _ & Hbud') & got & Hgot & _ & Hr). exists r, c', w'.
  assert (ok c' w') as Hok'.
  { split_and!; [by eapply same_output_inv| |lia]. destruct r as [n|e]; [destruct Hr as [-> _]; by apply Forall_app|].
    destruct Hr as (_ & _ & kept & lost & -> & _ & ->). apply Forall_app in Hgot as [Hkept _]. by apply Forall_app. }
  split_and!; [done|done|by apply (connection_frame m budget fuel)|..]; destruct (pending_size c' w' Hok') as [-> _].
  - intros n ->. by destruct Hr as [_ ->].
  - intros ->. destruct Hr as (_ & Hag & _). by rewrite <- (ring_ok_length _ (proj1 Hin')), Hag.
Qed.

Lemma connection_copy_law c w n : ok c w → 0 < n <= wl_connection_pending_input c →
  ∃ bs, wl_connection_copy c n = Some bs ∧ Z.of_nat (length bs) = n ∧ Forall is_byte bs.
Proof.
  intros Hok Hn. destruct (pending_size c w Hok) as [Ep Hsz]. rewrite Ep in Hn. destruct Hok as ((_ & _ & Hrin & _)%conn_inv_split & Hb & _).
  unfold wl_connection_copy. rewrite ring_copy_spec; [|by apply ring_ok_wf; [|lia]|lia]. eexists. split; [done|].
  rewrite length_take. pose proof (ring_ok_length (c_in c) Hrin). split; [lia|]. by apply Forall_take.
Qed.

Lemma connection_demarshal_law c w size objects message A free : ok c w → 0 <= size < 2 ^ 16 → size <= wl_connection_pending_input c → map_rep objects A free → map_room objects →
  ∃ r c' objects' w' ids, wl_connection_demarshal c size objects message w = Some (r, c', objects', w') ∧ ok c' w' ∧ (∀ d, ok d w → ok d w') ∧
    wl_connection_pending_input c' = wl_connection_pending_input c - size ∧ reserved (W := W) objects ids objects' ∧
    match r with
    | Ret cl =>
        let ps := parse_signature (msg_signature message) in
        cl_message cl = message ∧ closure_fds_ok cl ∧ received_args ps (cl_args cl) ∧ ids = new_ids ps (cl_args cl) ∧
        (length ps <= length (cl_args cl))%nat ∧ 8 <= size
    | Fail _ => True
    end.
Proof.
  intros Hok Hs Hle Hrep Hroom. pose proof Hok as (Hi & Hb & Hbud). destruct (pending_size c w Hok) as [Ep Hsz]. pose proof Hi as (_ & _ & Hin)%conn_inv_split. rewrite Ep in Hle.
  destruct (demarshal_spec m c size objects message A free Hin Hs Hle Hb Hrep Hroom w) as (r & c' & o' & w' & E & Hin' & Hso & Hcon & _ & taken & ids & Hres & _ & Hr).
  assert (∃ fds, fd_calls w fds w') as [fds Hcalls] by (destruct r; [exists []; by destruct Hr as (_ & _ & _ & _ & ? & _)|by eexists]).
  pose proof (fd_calls_frame _ _ _ Hcalls) as [[_ Hbud'] _]. assert (ok c' w') as Hok' by (split_and!; [by eapply same_output_inv|rewrite Hcon; by apply Forall_drop|lia]).
  exists r, c', o', w', ids. split_and!; [done|done|by apply (connection_frame m budget fuel)| |done|]; [|destruct r; [|done]; by destruct Hr as (? & ? & ? & _ & _ & ? & ? & ?)].
  destruct (pending_size c' w' Hok') as [-> _]. rewrite Ep. pose proof (ring_ok_length (c_in c) (proj1 Hin)). pose proof (ring_ok_length (c_in c') (proj1 Hin')) as Hl'.
  rewrite Hcon, length_drop in Hl'. lia.
Qed.

Definition connection_source_laws : RequestSourceLaws wl_connection W (H1 := connection_sink fuel) (H2 := connection_sink_laws m budget fuel Hm Hfuel) (H3 := connection_source) :=
  Build_RequestSourceLaws _ _ _ _ (connection_sink fuel) (connection_sink_laws m budget fuel Hm Hfuel) connection_source
    connection_read_law connection_copy_law connection_demarshal_law.
End connection.

(** ** A client that is being served *)

Definition request_ok (message : wl_message) : Prop :=
  (∃ since, wl_message_get_since message = Some since ∧ - 2 ^ 31 <= since < 2 ^ 31) ∧ c_string (str (msg_name message)) ∧
  (length (parse_signature (msg_signature message)) <= length (msg_types message))%nat.

Section serving.
Context {C W : Type} `{RequestSourceLaws C W}.
Context (user_events user_requests : wl_interface → list wl_message).
Context (description : string → Z) (address : gset Z → option Z).
Context (notify : Z → W → W) (user_destroy : Z → Z → W → W) (log_closure : Z → wl_closure → bool → W → W).
Context (open_connection : Z → W → option C * W) (remove_source : Z → W → W) (update_source : Z → Z → W → W).
Context (global_filter : option (Z → wl_global → bool)).
Context (user_table : Z → list (option Z)).
Context (user_call : Z → list (ffi_type * ffi_value) → server C W → option (server C W)).
Context (user_dispatch : Z → Z → Z → wl_message → list wl_argument → server C W → option (server C W)).
Context (user_bind : bind_call → server C W → option (server C W)).
Implicit Types s : server C W.

(** As in [WlServerSpec]. *)
Hypothesis (notify_calm : ∀ r w, sinks_kept w (notify r w)) (destroy_calm : ∀ f r w, sinks_kept w (user_destroy f r w))
  (log_calm : ∀ r cl b w, sinks_kept w (log_closure r cl b w)) (source_calm : ∀ c w, sinks_kept w (remove_source c w))
  (open_ok : ∀ fd w, sinks_kept w (open_connection fd w).2 ∧ ∀ x, (open_connection fd w).1 = Some x → sink_ok x (open_connection fd w).2)
  (address_ok : ∀ X p, address X = Some p → p ∉ X ∧ ptr_ok p ∧ p ≠ 0).
Hypothesis (update_calm : ∀ c mask w, sinks_kept w (update_source c mask w)).
(** The tables of the protocol descriptions. *)
Hypothesis (requests_ok : ∀ i message, message ∈ user_requests i → request_ok message).

#[local] Notation requests := (requests user_requests description).
#[local] Notation registries_follow := (registries_follow global_filter).

(** A resource whose requests can be served: it has a dispatcher, or a function
    for every request of its interface. *)
Definition served_resource (r : wl_resource) : Prop :=
  c_string (str (if_name (o_interface (r_object r)))) ∧
  (is_Some (r_dispatcher r) ∨
   match r_implementation r with
   | no_implementation => requests (o_interface (r_object r)) = []
   | display_interface => is_display r
   | registry_interface => is_registry r
   | UserImplementation p => ∀ i, (i < length (requests (o_interface (r_object r))))%nat → ∃ f, user_table p !! i = Some (Some f)
   end).
Definition served s : Prop := ∀ p v, v_resources (view_of s) !! p = Some v → served_resource v.

Definition sound s : Prop := wf s ∧ registries_follow s ∧ served s.
Definition serving (c : Z) s : Prop := sound s ∧ c ∈ client_list s ∧ ∃ k, clients s !! c = Some k ∧ k_display_resource k ≠ 0.

(** The bytes the client has sent that have not been looked at. *)
Definition input (c : Z) s : Z := from_option (λ k, sink_pending (k_connection k)) 0 (clients s !! c).
Definition in_error (c : Z) s : Prop := ∃ k, clients s !! c = Some k ∧ k_error k = true.

(** What a function of the compositor may rely on: objects are null only where
    the protocol says so, live resources of this client and of the interface the
    protocol gives; new ids are free; everything else has its type. *)
Definition request_arg (c : Z) s (message : wl_message) (i : nat) (t : wl_arg_type) (b : bool) (a : wl_argument) : Prop :=
  match t with
  | WL_ARG_OBJECT => ∃ o ty, a = arg_o o ∧ (o = 0 → b = true) ∧ (o ≠ 0 → ∃ r, resources s !! o = Some r ∧ r_client r = c) ∧
                       msg_types message !! i = Some ty ∧ type_ok (heap s) ty o
  | WL_ARG_NEW_ID => ∃ id k, a = arg_n id ∧ clients s !! c = Some k ∧ id_free k id
  | _ => received_typed t b a
  end.
Definition request_args (c : Z) s (message : wl_message) (args : list wl_argument) : Prop :=
  ∀ i t b, parse_signature (msg_signature message) !! i = Some (t, b) → ∃ a, args !! i = Some a ∧ request_arg c s message i t b a.

(** The call of a request on a resource of the client. *)
Definition request_call (c : Z) s (p : Z) (r : wl_resource) (opcode : Z) (message : wl_message) (args : list wl_argument) : Prop :=
  serving c s ∧ resources s !! p = Some r ∧ r_client r = c ∧ requests (o_interface (r_object r)) !! Z.to_nat opcode = Some message ∧
  request_args c s message args.

(** The compositor's functions return, with the client still served and no
    more input than before. *)
Hypothesis (user_call_ok : ∀ c s p r opcode message args q f, request_call c s p r opcode message args →
  r_implementation r = UserImplementation q → user_table q !! Z.to_nat opcode = Some (Some f) →
  ∃ s', user_call f ((ffi_type_pointer, ffi_data c) :: (ffi_type_pointer, ffi_target p) ::
          listener_args WL_CLOSURE_INVOKE_SERVER (parse_signature (msg_signature message)) args) s = Some s' ∧ serving c s' ∧ input c s' <= input c s).
Hypothesis (user_dispatch_ok : ∀ c s p r opcode message args d, request_call c s p r opcode message args → r_dispatcher r = Some d →
  ∃ s', user_dispatch d p opcode message args s = Some s' ∧ serving c s' ∧ input c s' <= input c s).
Hypothesis (user_bind_ok : ∀ c s k g name version id, serving c s → clients s !! c = Some k → id_free k id →
  global_named name (global_list s) = Some g → 1 <= version <= g_version g →
  ∃ s', user_bind (mk_bind c (g_data g) (g_bind g) version id) s = Some s' ∧ serving c s' ∧ input c s' <= input c s).

Lemma all_requests_ok i n message : requests i !! n = Some message → request_ok message.
Proof.
  unfold requests. intros E%list_elem_of_lookup_2. destruct (decide _) as [_|_]; [|destruct (decide _) as [_|_]; [|destruct (decide _) as [_|_]; [by apply elem_of_nil in E|by apply (requests_ok i)]]].
  - apply elem_of_cons in E as [->|E]; [|apply list_elem_of_singleton in E as ->]; (split_and!; [exists 1; split; [reflexivity|lia]|by apply c_string_str|cbn; lia]).
  - apply list_elem_of_singleton in E as ->. split_and!; [exists 1; split; [reflexivity|lia]|by apply c_string_str|cbn; lia].
Qed.

Lemma serving_fixed c s s' : serving c s → sound s' → fixed s' = fixed s → serving c s' ∧ input c s' = input c s.
Proof.
  intros (_ & Hc & k & Ek & Hd) Hs Hfx. destruct (fixed_lookup s s' c k Hfx Ek) as (k' & Ek' & Ed & Ep). split; [refine (conj Hs (conj _ _))|].
  - injection Hfx as -> _. done.
  - exists k'. by rewrite Ed.
  - unfold input. by rewrite Ek, Ek'.
Qed.
Lemma sound_view s s' : sound s → view_of s' = view_of s → wf s' → registries_follow s' → sound s'.
Proof. intros (_ & _ & Hs) Ev Hwf Hfol. refine (conj Hwf (conj Hfol _)). unfold served. by rewrite Ev. Qed.
Lemma serving_world c s w : sinks_kept (world s) w → serving c s → serving c (set_world w s).
Proof.
  intros Hw ((Hwf & Hfol & Hsv) & Hc & Hk). refine (conj (conj _ (conj Hfol Hsv)) (conj Hc Hk)). destruct Hwf as [Hv Hs]. split; [exact Hv|by apply sinks_ok_world].
Qed.

#[local] Notation post_error := (wl_resource_post_error user_events log_closure).

(** ** Errors *)

Lemma display_error_spec c s k code text : serving c s → clients s !! c = Some k → c_string text →
  ∃ s', post_error (k_display_resource k) code text s = Some s' ∧ serving c s' ∧ input c s' = input c s ∧ in_error c s'.
Proof.
  intros Hs Ek Ht. pose proof Hs as ((Hwf & Hfol & Hsv) & Hc & k0 & Ek0 & Hd). assert (k0 = k) as -> by congruence.
  destruct (display_spec s c k Hwf Ek Hd) as (r & Er & Ec & _).
  destruct (post_error_spec user_events address notify user_destroy log_closure open_connection remove_source global_filter notify_calm destroy_calm log_calm source_calm open_ok address_ok
    s _ r code text Hwf Hfol Er Ht) as (s' & E & Ev & Hwf' & Hfol' & Hfx & Herr). exists s'. split; [done|].
  destruct (serving_fixed c s s' Hs (sound_view s s' (proj1 Hs) Ev Hwf' Hfol') Hfx) as [Hs' Hin]. split_and!; [done..|].
  destruct (fixed_lookup s s' c k Hfx Ek) as (k' & Ek' & Ed & _). exists k'. split; [done|]. rewrite Ec in Herr. destruct (Herr k' Ek') as [?|?]; [done|congruence].
Qed.
Lemma post_no_memory_spec c s p r : serving c s → resources s !! p = Some r → r_client r = c →
  ∃ s', wl_resource_post_no_memory user_events log_closure p s = Some s' ∧ serving c s' ∧ in_error c s'.
Proof.
  intros Hs Er Hc. pose proof Hs as (_ & _ & k & Ek & _). unfold wl_resource_post_no_memory. rewrite Er. cbn [mbind option_bind]. rewrite Hc, Ek. cbn [mbind option_bind].
  destruct (display_error_spec c s k WL_DISPLAY_ERROR_NO_MEMORY (str "no memory") Hs Ek) as (s' & E & Hs' & _ & Herr); [by apply c_string_str|]. by exists s'.
Qed.
Lemma invalid_arguments_spec c s p r n message : serving c s → resources s !! p = Some r → requests (o_interface (r_object r)) !! n = Some message →
  ∃ s', invalid_arguments user_events log_closure c r message s = Some s' ∧ serving c s' ∧ input c s' = input c s ∧ in_error c s'.
Proof.
  intros Hs Er Em. pose proof Hs as ((Hwf & _ & Hsv) & _ & k & Ek & _). unfold invalid_arguments. rewrite Ek. cbn [mbind option_bind]. apply display_error_spec; [done..|].
  destruct (all_requests_ok _ _ _ Em) as (_ & Hname & _). destruct (Hsv p _ (view_resource _ _ _ Er)) as [Hif _]. destruct (wf_resource s p r Hwf Er) as (_ & Hid & _).
  repeat (apply Forall_app; split); first [by apply c_string_str|done|apply c_string_fmt_u; lia].
Qed.

(** ** A message has been decoded *)

(** The ids of the new objects are set aside in the map of the client. *)
Lemma client_ok_reserved (rs : gmap Z wl_resource) c d m ids m' : (∀ p r, rs !! p = Some r → p ≠ 0) → client_ok rs c d m → reserved (W := W) m ids m' → client_ok rs c d m'.
Proof.
  intros Hp0 (A & free & Hrep & Hsd & Hsm & Hin & Hout & Hdisp & Huniq) Hres. destruct (reserved_spec _ _ _ Hres A free Hrep Hsm) as (A' & Hrep' & Hsm' & Hsd' & _ & Hold).
  exists A', free. split_and!; try done; [congruence|..].
  - intros p r Hp Hr. pose proof (Hin p r Hp Hr) as HA. destruct (Hold (o_id (r_object r))) as [->|[E _]]; [done|]. rewrite HA in E. injection E as ->. by destruct (Hp0 0 r Hp).
  - intros id p f Hid. destruct (Hold id) as [E|[_ E]]; rewrite E in Hid; [by apply Hout|]. injection Hid as <- <-. by split; [|left].
Qed.

Lemma decoded_spec c s k x m ids w : serving c s → clients s !! c = Some k → reserved (W := W) (k_objects k) ids m → sink_ok x w → sinks_kept (world s) w →
  let s1 := set_world w (set_client c (k_set_objects m (k_set_connection x k)) s) in serving c s1 ∧ input c s1 = sink_pending x.
Proof.
  intros Hs Ek Hres Hx Hw s1. pose proof Hs as ((Hwf & Hfol & Hsv) & Hc & k0 & Ek0 & Hd). assert (k0 = k) as -> by congruence.
  assert (clients s1 !! c = Some (k_set_objects m (k_set_connection x k))) as Ek1 by (cbn; by rewrite lookup_insert_eq). split; [|unfold input; by rewrite Ek1].
  refine (conj (conj (conj _ _) (conj _ Hsv)) (conj Hc _)); [| | |by exists (k_set_objects m (k_set_connection x k))].
  - destruct Hwf as [(Hn & Hg & Hnd & Hreg & Hr & Hcl) _]. refine (conj Hn (conj Hg (conj Hnd (conj Hreg (conj _ _))))).
    + intros p v Hv. destruct (Hr p v Hv) as (Ha & Hb & Hi & Hj & Hk). refine (conj Ha (conj Hb (conj Hi (conj Hj _)))). cbn in Hk |- *. rewrite fmap_insert. by apply lookup_insert_is_Some'; right.
    + intros c' d m0. cbn. rewrite fmap_insert. intros [[<- [= <- <-]]|[_ Hm0]]%lookup_insert_Some; [|by apply Hcl].
      apply (client_ok_reserved _ _ _ (k_objects k) ids); [|exact (Hcl c _ _ (view_client _ _ _ Ek))|done]. intros p v Hv. by destruct (Hr p v Hv) as (_ & ? & _).
  - apply (sinks_ok_client s w c (k_set_objects m (k_set_connection x k))); [done|exact Hx|apply Hwf].
  - intros q r k' Hq Er Ek' Hk'. cbn in *. apply lookup_insert_Some in Ek' as [[Ec <-]|[_ Ek']]; [by apply (Hfol q r k); try done; rewrite <- Ec|by apply (Hfol q r k')].
Qed.

Lemma received_args_lookup ps args : received_args ps args → ∀ i t b, ps !! i = Some (t, b) → ∃ a, args !! i = Some a ∧ received_typed t b a.
Proof.
  revert args. induction ps as [|[t0 b0] ps IH]; intros [|a args] Hr; try done; intros [|i] t b; cbn; try done.
  - intros [= -> ->]. destruct Hr. eauto.
  - destruct Hr as [_ Hr]. by apply IH.
Qed.
Lemma new_ids_elem ps args i b n : ps !! i = Some (WL_ARG_NEW_ID, b) → args !! i = Some (arg_n n) → u32 n ∈ new_ids ps args.
Proof.
  revert args i. induction ps as [|[t0 b0] ps IH]; intros [|a args] [|i]; try done; cbn.
  - intros [= -> ->] [= ->]. constructor.
  - intros Hi Ha. specialize (IH _ _ Hi Ha). destruct t0; try done. destruct a; try done. by constructor.
Qed.

Lemma ids_free c s k ids m x id : wf s → clients s !! c = Some k → reserved (W := W) (k_objects k) ids m → id ∈ ids → 0 < id →
  id_free (k_set_objects m (k_set_connection x k)) id.
Proof.
  intros [(_ & _ & _ & _ & _ & Hcl) _] Ek Hres Hid Hpos. destruct (Hcl c _ _ (view_client _ _ _ Ek)) as (A & free & Hrep & Hsd & Hsm & _).
  destruct (reserved_spec _ _ _ Hres A free Hrep Hsm) as (A' & Hrep' & _ & _ & Hin & _). destruct (Hin id Hid) as (Hr & Hown & HA). split.
  - unfold is_server_id, own_side in Hown. rewrite Hsd in Hown. destruct (Z.ltb_spec id WL_SERVER_ID_START); [lia|by cbn in Hown].
  - cbn. destruct (lookup_rep _ _ _ Hrep' id Hr) as [-> _]. by rewrite HA.
Qed.

Lemma resolve_server m A id o : side m = WL_MAP_SERVER_SIDE → resolve m A id = Some o → (o = 0 → id = 0) ∧ (o ≠ 0 → ∃ f, A !! id = Some (o, f)).
Proof.
  intros Hsd Hr. unfold resolve in Hr. rewrite Hsd, Z.eqb_refl in Hr. cbn [negb andb] in Hr. destruct (default (0, 0) (A !! id)) as [data flags] eqn:HA.
  destruct ((data =? 0) && negb (id =? 0)) eqn:Ez; [done|]. injection Hr as <-. split.
  - intros ->. apply negb_false_iff in Ez. lia.
  - intros Hd. destruct (A !! id) as [e|]; cbn in HA; [exists flags; congruence|by injection HA as <-].
Qed.

Lemma lookup_request c s k message cl : serving c s → clients s !! c = Some k → request_ok message →
  let ps := parse_signature (msg_signature message) in
  cl_message cl = message → closure_fds_ok cl → received_args ps (cl_args cl) → (∀ id, id ∈ new_ids ps (cl_args cl) → 0 < id → id_free k id) →
  ∃ res cl', wl_closure_lookup_objects (heap s) cl (k_objects k) = Some (res, cl') ∧ cl_message cl' = message ∧ closure_fds_ok cl' ∧
    length (cl_args cl') = length (cl_args cl) ∧ (∀ u, res = Ret u → request_args c s message (cl_args cl')).
Proof.
  intros (((Hv & _) & _) & _) Ek (_ & _ & Htypes) ps Em Hfds Hrcv Hids. pose proof Hv as (_ & _ & _ & _ & _ & Hcl).
  destruct (Hcl c _ _ (view_client _ _ _ Ek)) as (A & free & Hrep & Hsd & _ & _ & Hout & _).
  assert (∀ id p f, A !! id = Some (p, f) → p = 0 ∨ ∃ r, resources s !! p = Some r ∧ r_client r = c) as Hlive.
  { intros id p f HA. destruct (Hout id p f HA) as (_ & [?|(v & Ev & Hvc & _)]); [by left|right]. destruct (view_resource_inv _ _ _ Ev) as (r & Er & ->). by exists r. }
  assert (map_objects_ok (heap s) A) as Hobj.
  { intros id p f HA. destruct (Hlive id p f HA) as [?|(r & Er & _)]; [by left|right]. unfold heap. rewrite Er. eauto. }
  assert (objects_received cl) as Hor.
  { intros i b Hi. unfold cl_signature in Hi. rewrite Em in Hi |- *. destruct (received_args_lookup _ _ Hrcv i _ _ Hi) as (a & Ha & id & -> & Hid & _).
    split; [by exists id|]. apply lookup_lt_is_Some_2. apply lookup_lt_Some in Hi. unfold ps in *. lia. }
  destruct (lookup_objects_spec (heap s) (k_objects k) A free Hrep cl Hobj Hor) as (res & cl' & E & Hres). exists res, cl'.
  destruct (lookup_objects_frame _ _ _ _ _ E) as (Em' & _ & Hl & _). pose proof (lookup_objects_fds _ _ _ _ _ E Hfds) as Hfds'.
  split_and!; [done|congruence|done|done|]. intros u ->. intros i t b Hi. unfold cl_signature in Hres. rewrite Em in Hres. specialize (Hres i t b Hi).
  destruct (received_args_lookup _ _ Hrcv i t b Hi) as (a & Ha & Hty). unfold lookup_done, is_object in Hres. case_bool_decide as Ht.
  - injection Ht as ->. destruct Hres as (id & o & ty & Hid & Hr & Hmt & Hok & Ho). exists (arg_o o). split; [exact Ho|]. exists o, ty. unfold cl_arg in Hid. rewrite Ha in Hid. injection Hid as ->.
    destruct Hty as (id' & [= <-] & _ & Hnull). destruct (resolve_server _ _ _ _ Hsd Hr) as [Hz Hf]. split_and!; [done|by intros Ho0; apply Hnull, Hz| |done|done].
    intros Ho0. destruct (Hf Ho0) as [f HA]. by destruct (Hlive _ _ _ HA).
  - exists a. split; [unfold cl_arg in Hres; by rewrite Hres|]. destruct t; try exact Hty; [by destruct Ht|]. destruct Hty as (id & -> & Hid). exists id, k. split_and!; [done..|].
    apply Hids; [|lia]. rewrite <- (u32_small id) by lia. by eapply new_ids_elem.
Qed.

(** ** The call *)

Lemma sync_request c s k id : serving c s → clients s !! c = Some k → id_free k id →
  ∃ s', display_sync user_events description address notify user_destroy log_closure c id s = Some s' ∧ serving c s' ∧ input c s' <= input c s.
Proof.
  intros Hs Ek Hid. pose proof Hs as ((Hwf & Hfol & Hsv) & _ & k0 & Ek0 & Hd). assert (k0 = k) as -> by congruence.
  destruct (sync_spec user_events description address notify user_destroy log_closure open_connection remove_source global_filter notify_calm destroy_calm log_calm source_calm open_ok address_ok
    s c k id Hwf Hfol Ek Hd Hid) as (s' & E & Hwf' & Hfol' & _ & Hfx & Hv). exists s'. split; [done|].
  destruct (serving_fixed c s s' Hs) as [Hs' ->]; [|done|by split; [|lia]]. refine (conj Hwf' (conj Hfol' _)). unfold served. by rewrite Hv.
Qed.
Lemma get_registry_request c s k id : serving c s → clients s !! c = Some k → id_free k id →
  ∃ s', display_get_registry user_events description address notify log_closure global_filter c id s = Some s' ∧ serving c s' ∧ input c s' <= input c s.
Proof.
  intros Hs Ek Hid. pose proof Hs as ((Hwf & Hfol & Hsv) & _ & k0 & Ek0 & Hd). assert (k0 = k) as -> by congruence.
  destruct (get_registry_spec user_events description address notify user_destroy log_closure open_connection remove_source global_filter notify_calm destroy_calm log_calm source_calm open_ok address_ok
    s c k id Hwf Hfol Ek Hd Hid) as (s' & E & Hwf' & Hfol' & _ & Hfx & Hv). exists s'. split; [done|].
  destruct (serving_fixed c s s' Hs) as [Hs' ->]; [|done|by split; [|lia]]. refine (conj Hwf' (conj Hfol' _)). intros p v Hp.
  destruct (Hv p v Hp) as [Hold|[Hreg Himpl]]; [by apply (Hsv p)|]. split; [rewrite Hreg; by apply c_string_str|]. right. by rewrite Himpl.
Qed.
Lemma bind_request c s k q r name interface version id : serving c s → clients s !! c = Some k → id_free k id → resources s !! q = Some r → r_client r = c →
  c_string interface → 0 <= name < 2 ^ 32 → 0 <= version < 2 ^ 32 →
  ∃ s', ('(b, s) ← registry_bind user_events log_closure global_filter c q name interface version id s; match b with None => Some s | Some b => user_bind b s end) = Some s' ∧
    serving c s' ∧ input c s' <= input c s.
Proof.
  intros Hs Ek Hid Er Hc Hi Hn Hver. pose proof Hs as ((Hwf & Hfol & Hsv) & _).
  destruct (registry_bind_spec user_events address notify user_destroy log_closure open_connection remove_source global_filter notify_calm destroy_calm log_calm source_calm open_ok address_ok
    s q r name interface version id Hwf Hfol Er Hi Hn Hver) as (o & s1 & E & Hwf1 & Hfol1 & Ev1 & Hfx1 & Ho). rewrite Hc in E, Ho. rewrite E. cbn [mbind option_bind].
  destruct (bindable global_filter s c name interface version) as [g|] eqn:Eb; destruct Ho as [-> Ho].
  - subst s1. unfold bindable in Eb. destruct (global_named name (global_list s)) as [g'|] eqn:Eg; [|done]. cbn [mbind option_bind] in Eb.
    destruct (_ && _ && _ && _) eqn:Ec; [|done]. injection Eb as ->. zbool. by apply (user_bind_ok c s k g name).
  - exists s1. destruct (serving_fixed c s s1 Hs (sound_view s s1 (proj1 Hs) Ev1 Hwf1 Hfol1) Hfx1) as [Hs1 ->]. split_and!; [done|done|lia].
Qed.

#[local] Notation handlers := (handlers user_table).
#[local] Notation call_handler := (call_handler user_events description address notify user_destroy log_closure global_filter user_call user_bind).
#[local] Notation call_request := (call_request user_events description address notify user_destroy log_closure global_filter user_table user_call user_dispatch user_bind).

#[local] Notation ffi_args c p message args :=
  ((ffi_type_pointer, ffi_data c) :: (ffi_type_pointer, ffi_target p) :: listener_args WL_CLOSURE_INVOKE_SERVER (parse_signature (msg_signature message)) args).

(** The functions of the server itself. *)
Lemma display_call c s p n message args : serving c s → display_requests description !! n = Some message → request_args c s message args →
  ∃ f s', [Some HSync; Some HGetRegistry] !! n = Some (Some f) ∧ call_handler f (ffi_args c p message args) (Some s) = Some s' ∧ serving c s' ∧ input c s' <= input c s.
Proof.
  intros Hs Em Ha. destruct n as [|[|]]; [| |done]; injection Em as <-; destruct (Ha 0%nat WL_ARG_NEW_ID false eq_refl) as (a & Ea & id & k & -> & Ek & Hid);
    destruct args as [|a0 args]; try done; injection Ea as ->.
  - destruct (sync_request c s k id Hs Ek Hid) as (s' & E & ?). by exists HSync, s'.
  - destruct (get_registry_request c s k id Hs Ek Hid) as (s' & E & ?). by exists HGetRegistry, s'.
Qed.
Lemma registry_call c s p r n message args : serving c s → resources s !! p = Some r → r_client r = c → registry_requests !! n = Some message → request_args c s message args →
  ∃ f s', [Some HBind] !! n = Some (Some f) ∧ call_handler f (ffi_args c p message args) (Some s) = Some s' ∧ serving c s' ∧ input c s' <= input c s.
Proof.
  intros Hs Er Hc Em Ha. destruct n as [|]; [|done]. injection Em as <-.
  destruct (Ha 0%nat WL_ARG_UINT false eq_refl) as (a0 & E0 & name & -> & Hn). destruct (Ha 1%nat WL_ARG_STRING false eq_refl) as (a1 & E1 & o & -> & Ho & Hstr).
  destruct (Ha 2%nat WL_ARG_UINT false eq_refl) as (a2 & E2 & ver & -> & Hver). destruct (Ha 3%nat WL_ARG_NEW_ID false eq_refl) as (a3 & E3 & id & k & -> & Ek & Hid).
  destruct o as [interface|]; [|by specialize (Ho eq_refl)]. destruct args as [|b0 [|b1 [|b2 [|b3 args]]]]; try done. cbn in E0, E1, E2, E3. simplify_eq.
  destruct (bind_request (r_client r) s k p r name interface ver id Hs Ek Hid Er eq_refl (Hstr _ eq_refl) Hn Hver) as (s' & E & ?). by exists HBind, s'.
Qed.

(** The tables of the resource have a function for the request. *)
Lemma handler_spec c s p r opcode message args : request_call c s p r opcode message args → r_dispatcher r = None →
  ∃ table f s', handlers (r_implementation r) = Some table ∧ table !! Z.to_nat opcode = Some (Some f) ∧
    call_handler f (ffi_args c p message args) (Some s) = Some s' ∧ serving c s' ∧ input c s' <= input c s.
Proof.
  intros Hcall Hd. pose proof Hcall as (Hs & Er & Hc & Em & Ha). pose proof Hs as ((_ & _ & Hsv) & _).
  destruct (Hsv p _ (view_resource _ _ _ Er)) as [_ [[? Hd']|Hi]]; [cbn in Hd'; by rewrite Hd in Hd'|]. cbn in Hi. destruct (r_implementation r) as [| | |q] eqn:Ei.
  - by rewrite Hi in Em.
  - unfold is_display in Hi. cbn in Hi. unfold WlDispatch.requests in Em. rewrite decide_True in Em by done. eexists. by destruct (display_call c s p _ _ _ Hs Em Ha) as (f & s' & Hf); exists f, s'.
  - unfold is_registry in Hi. cbn in Hi. unfold WlDispatch.requests in Em. rewrite decide_False, decide_True in Em by (by rewrite Hi).
    eexists. by destruct (registry_call c s p r _ _ _ Hs Er Hc Em Ha) as (f & s' & Hf); exists f, s'.
  - destruct (Hi (Z.to_nat opcode)) as [f Hf]; [by eapply lookup_lt_Some|]. destruct (user_call_ok c s p r opcode message args q f Hcall Ei Hf) as (s' & E & ?).
    eexists _, (HUser f), s'. split; [done|]. split; [|done]. by rewrite list_lookup_fmap, Hf.
Qed.

Lemma call_request_spec c s p r opcode message cl : request_call c s p r opcode message (cl_args cl) → cl_message cl = message → closure_fds_ok cl →
  (length (parse_signature (msg_signature message)) <= length (cl_args cl))%nat →
  ∃ cl' s', call_request c p opcode r false cl s = Some (cl', s') ∧ closure_fds_ok cl' ∧ serving c s' ∧ input c s' <= input c s.
Proof.
  intros Hcall Em Hfds Hlen. pose proof Hfds as [Hcount _]. unfold cl_signature in Hcount. rewrite Em in Hcount. unfold call_request. destruct (r_dispatcher r) as [d|] eqn:Hd.
  - destruct (user_dispatch_ok c s p r opcode message (cl_args cl) d Hcall Hd) as (s' & E & Hs'). unfold wl_closure_dispatch. rewrite clear_fds_spec; [|apply Hfds|lia]. cbn [mbind option_bind].
    rewrite Em, E. cbn [mbind option_bind]. eexists _, s'. split; [done|]. split; [|done]. split; [apply Hfds|]. apply cleared_fds_typed. unfold cl_signature. by rewrite Em.
  - destruct (handler_spec _ _ _ _ _ _ _ Hcall Hd) as (table & f & s' & -> & Hf & E & Hs'). cbn [mbind option_bind].
    destruct (invoke_spec table call_handler cl WL_CLOSURE_INVOKE_SERVER p opcode c f (Some s) Hfds ltac:(lia) Hf) as (cl' & -> & Hfds' & _). cbn [mbind option_bind].
    unfold cl_signature. rewrite Em, E. cbn [mbind option_bind]. by exists cl', s'.
Qed.

#[local] Notation serve_request := (serve_request user_events description address notify user_destroy log_closure global_filter user_table user_call user_dispatch user_bind).

(** What has become of a message: the loop goes on, with the message out of the
    input, or it has been an error. *)
Definition handled (c : Z) s (go : bool) s' : Prop :=
  serving c s' ∧ if go then input c s' + 8 <= input c s else in_error c s'.

Lemma closure_destroy_serving c s cl : serving c s → closure_fds_ok cl →
  ∃ w, wl_closure_destroy (Some cl) (world s) = Some w ∧ serving c (set_world w s).
Proof. intros Hs Hfds. rewrite destroy_closure_spec by done. eexists. split; [done|]. apply serving_world; [apply kept_close|done]. Qed.

(** The closure is there, the objects are not yet looked up. *)
Lemma serve_decoded c s p r opcode message k cl : serving c s → resources s !! p = Some r → r_client r = c → requests (o_interface (r_object r)) !! Z.to_nat opcode = Some message →
  clients s !! c = Some k → let ps := parse_signature (msg_signature message) in
  cl_message cl = message → closure_fds_ok cl → received_args ps (cl_args cl) → (length ps <= length (cl_args cl))%nat → (∀ id, id ∈ new_ids ps (cl_args cl) → 0 < id → id_free k id) →
  ∃ go s', ('(res, cl) ← wl_closure_lookup_objects (heap s) cl (k_objects k);
      match res with
      | Fail _ =>
          s ← invalid_arguments user_events log_closure c r message s;
          w ← wl_closure_destroy (Some cl) (world s);
          Some (false, set_world w s)
      | Ret _ =>
          let s := set_world (log_closure p cl false (world s)) s in
          '(cl, s) ← call_request c p opcode r false cl s;
          w ← wl_closure_destroy (Some cl) (world s);
          let s := set_world w s in
          k ← clients s !! c;
          Some (negb (k_error k), s)
      end) = Some (go, s') ∧ serving c s' ∧ input c s' <= input c s ∧ (go = false → in_error c s').
Proof.
  intros Hs Er Hc Em Ek ps Ecl Hfds Hrcv Hlen Hids.
  destruct (lookup_request c s k message cl Hs Ek (all_requests_ok _ _ _ Em) Ecl Hfds Hrcv Hids) as (res & cl1 & -> & Ecl1 & Hfds1 & Hlen1 & Hargs). cbn [mbind option_bind]. destruct res as [u|e].
  - set (s1 := set_world _ s). assert (serving c s1) as Hs1 by (by apply serving_world; [apply log_calm|]).
    destruct (call_request_spec c s1 p r opcode message cl1) as (cl2 & s2 & -> & Hfds2 & Hs2 & Hin); [by refine (conj Hs1 (conj Er (conj Hc (conj Em _)))); apply (Hargs u)|done|done|by rewrite Hlen1|].
    cbn [mbind option_bind]. destruct (closure_destroy_serving c s2 cl2 Hs2 Hfds2) as (w & -> & Hs3). cbn [mbind option_bind]. pose proof Hs3 as (_ & _ & k3 & Ek3 & _). rewrite Ek3. cbn [mbind option_bind].
    eexists _, _. split; [done|]. split_and!; [done|exact Hin|]. intros Hk%negb_false_iff. by exists k3.
  - destruct (invalid_arguments_spec c s p r _ message Hs Er Em) as (s2 & -> & Hs2 & Hin & Herr). cbn [mbind option_bind].
    destruct (closure_destroy_serving c s2 cl1 Hs2 Hfds1) as (w & -> & Hs3). cbn [mbind option_bind]. eexists _, _. split; [done|]. split_and!; [done|unfold input in *; cbn; lia|by intros _].
Qed.

Lemma serve_request_spec c s p r opcode size message : serving c s → resources s !! p = Some r → r_client r = c → requests (o_interface (r_object r)) !! Z.to_nat opcode = Some message →
  0 <= size < 2 ^ 16 → size <= input c s → ∃ go s', serve_request c p opcode size 0 r message s = Some (go, s') ∧ handled c s go s'.
Proof.
  intros Hs Er Hc Em Hsz Hle. pose proof Hs as ((Hwf & Hfol & Hsv) & _ & k & Ek & Hd). pose proof Hwf as [(_ & _ & _ & _ & _ & Hcl) Hsk].
  destruct (Hcl c _ _ (view_client _ _ _ Ek)) as (A & free & Hrep & _ & Hsm & _). unfold input in Hle. rewrite Ek in Hle. unfold serve_request. rewrite Ek. cbn [mbind option_bind].
  destruct (source_demarshal_law (k_connection k) (world s) size (k_objects k) message A free (Hsk c k Ek) Hsz Hle Hrep (map_small_room _ Hsm)) as (res & x & m & w & ids & -> & Hx & Hw & Hp & Hres & Hr).
  cbn [mbind option_bind]. destruct (decoded_spec c s k x m ids w Hs Ek Hres Hx Hw) as [Hs1 Hin1]. set (s1 := set_world w _) in *. destruct res as [cl|e].
  - destruct Hr as (Ecl & Hfds & Hrcv & -> & Hlen & H8). change (negb (Z.land 0 WL_MAP_ENTRY_LEGACY =? 0)) with false.
    assert (clients s1 !! c = Some (k_set_objects m (k_set_connection x k))) as Ek1 by (cbn; by rewrite lookup_insert_eq).
    destruct (serve_decoded c s1 p r opcode message _ cl Hs1 Er Hc Em Ek1 Ecl Hfds Hrcv Hlen) as (go & s' & E & Hs' & Hin & Herr).
    { intros id Hid Hpos. by apply (ids_free c s k _ m x id Hwf Ek Hres). }
    exists go, s'. split; [exact E|]. split; [done|]. destruct go; [|by apply Herr]. unfold input at 2. rewrite Ek. cbn. lia.
  - destruct (bool_decide (e = ENOMEM)).
    + destruct (post_no_memory_spec c s1 p r Hs1 Er Hc) as (s2 & -> & Hs2 & Herr). by exists false, s2.
    + destruct (invalid_arguments_spec c s1 p r _ message Hs1 Er Em) as (s2 & -> & Hs2 & _ & Herr). cbn [mbind option_bind]. by exists false, s2.
Qed.

(** ** The loop *)

#[local] Notation find_request := (find_request user_events user_requests description address notify user_destroy log_closure global_filter user_table user_call user_dispatch user_bind).
#[local] Notation request_loop := (request_loop user_events user_requests description address notify user_destroy log_closure global_filter user_table user_call user_dispatch user_bind).

Lemma object_text_string s p r : sound s → resources s !! p = Some r →
  c_string (str ", object " ++ str (if_name (o_interface (r_object r))) ++ str "#" ++ fmt_u (o_id (r_object r))).
Proof.
  intros (Hwf & _ & Hsv) Er. destruct (Hsv p _ (view_resource _ _ _ Er)) as [Hif _]. destruct (wf_resource s p r Hwf Er) as (_ & Hid & _).
  repeat (apply Forall_app; split); first [by apply c_string_str|done|apply c_string_fmt_u; lia].
Qed.

Lemma find_request_spec c s object opcode size : serving c s → 0 <= object < 2 ^ 32 → 0 <= opcode < 2 ^ 16 → 0 <= size < 2 ^ 16 → size <= input c s →
  ∃ go s', find_request c object opcode size s = Some (go, s') ∧ handled c s go s'.
Proof.
  intros Hs Hobj Hop Hsz Hle. pose proof Hs as (Hsound & _ & k & Ek & _). pose proof Hsound as ((Hv & _) & _). pose proof Hv as (_ & _ & _ & _ & _ & Hcl).
  destruct (Hcl c _ _ (view_client _ _ _ Ek)) as (A & free & Hrep & _ & _ & _ & Hout & _). unfold find_request. rewrite Ek. cbn [mbind option_bind].
  destruct (lookup_rep _ _ _ Hrep object Hobj) as [-> ->]. cbn [mbind option_bind].
  assert (∀ code text, c_string text → ∃ go s', (s' ← post_error (k_display_resource k) code text s; Some (false, s')) = Some (go, s') ∧ handled c s go s') as Hpost.
  { intros code text Ht. destruct (display_error_spec c s k code text Hs Ek Ht) as (s' & -> & Hs' & _ & Herr). by exists false, s'. }
  destruct (Z.eqb_spec (default (0, 0) (A !! object)).1 0) as [_|Hp].
  { apply Hpost. apply Forall_app. split; [by apply c_string_str|apply c_string_fmt_u; lia]. }
  destruct (A !! object) as [[p f]|] eqn:HA; [|done]. cbn [from_option id fst snd] in Hp |- *. destruct (Hout object p f HA) as (-> & [?|(v & Ev & Hc & _)]); [done|].
  destruct (view_resource_inv _ _ _ Ev) as (r & Er & ->). cbn in Hc. rewrite Er. cbn [mbind option_bind]. pose proof (object_text_string s p r Hsound Er) as Htext.
  destruct (requests (o_interface (r_object r)) !! Z.to_nat opcode) as [message|] eqn:Em.
  - destruct (all_requests_ok _ _ _ Em) as ((since & -> & Hsince) & _). cbn [mbind option_bind]. destruct ((0 <? r_version r) && (r_version r <? since)) eqn:Ever.
    + change (Z.land 0 WL_MAP_ENTRY_LEGACY =? 0) with true. cbn [andb]. rewrite Ever. zbool. apply Hpost. cbn [fst snd]. repeat (first [exact Htext|apply Forall_app; split]); first [by apply c_string_str|apply c_string_fmt_d; lia].
    + change (Z.land 0 WL_MAP_ENTRY_LEGACY =? 0) with true. cbn [andb]. rewrite Ever. by apply serve_request_spec.
  - apply Hpost. cbn [fst snd]. repeat (first [exact Htext|apply Forall_app; split]); first [by apply c_string_str|apply c_string_fmt_d; lia].
Qed.

(** No whole message is left in the input. *)
Definition waits (c : Z) s : Prop := ∃ k, clients s !! c = Some k ∧
  (sink_pending (k_connection k) < 8 ∨
   ∃ p word, source_copy (k_connection k) 8 = Some p ∧ get_u32 p 1 = Some word ∧ sink_pending (k_connection k) < Z.shiftr word 16).

Lemma header_word bs i : Z.of_nat (length bs) = 8 → Forall is_byte bs → 0 <= i < 2 → ∃ v, get_u32 bs i = Some v ∧ 0 <= v < 2 ^ 32.
Proof. intros Hl Hb Hi. apply (get_u32_spec bs 2); [done|lia..]. Qed.

Lemma request_loop_spec fuel c len s : serving c s → len < 8 ∨ len = input c s → (Z.to_nat len < fuel)%nat →
  ∃ s', request_loop fuel c len s = Some s' ∧ serving c s' ∧ (len = input c s → in_error c s' ∨ waits c s').
Proof.
  revert len s. induction fuel as [|fuel IH]; intros len s Hs Hlen Hfuel; [lia|]. cbn [WlDispatch.request_loop]. pose proof Hs as (Hsound & _ & k & Ek & _). destruct (Z.ltb_spec len 8) as [Hlt|Hge].
  { exists s. split_and!; try done. intros ->. right. exists k. split; [done|]. left. unfold input in Hlt. by rewrite Ek in Hlt. }
  destruct Hlen as [?| ->]; [lia|]. rewrite Ek. cbn [mbind option_bind]. assert (input c s = sink_pending (k_connection k)) as Hin by (unfold input; by rewrite Ek).
  pose proof Hsound as ((_ & Hsk) & _). destruct (source_copy_law (k_connection k) (world s) 8 (Hsk c k Ek)) as (bs & Ebs & Hl & Hb); [lia|]. rewrite Ebs. cbn [mbind option_bind].
  destruct (header_word bs 0 Hl Hb ltac:(lia)) as (p0 & -> & Hp0). destruct (header_word bs 1 Hl Hb ltac:(lia)) as (p1 & Ep1 & Hp1). rewrite Ep1. cbn [mbind option_bind].
  destruct (Z.ltb_spec (input c s) (Z.shiftr p1 16)) as [Hpart|Hwhole].
  { exists s. split_and!; try done. intros _. right. exists k. split; [done|]. right. exists bs, p1. by rewrite <- Hin. }
  assert (0 <= Z.land p1 0xffff < 2 ^ 16 ∧ 0 <= Z.shiftr p1 16 < 2 ^ 16) as [Hop Hsz].
  { change 0xffff with (Z.ones 16). rewrite Z.land_ones, Z.shiftr_div_pow2 by lia. mlia. }
  destruct (find_request_spec c s p0 _ _ Hs Hp0 Hop Hsz Hwhole) as (go & s1 & -> & Hs1 & Hgo). cbn [mbind option_bind]. destruct go; [|exists s1; by split_and!; try done; left].
  pose proof Hs1 as (_ & _ & k1 & Ek1 & _). rewrite Ek1. cbn [mbind option_bind]. assert (sink_pending (k_connection k1) = input c s1) as -> by (unfold input; by rewrite Ek1).
  destruct (IH (input c s1) s1 Hs1 (or_intror eq_refl) ltac:(lia)) as (s2 & -> & Hs2 & Hend). exists s2. split_and!; try done. intros _. by apply Hend.
Qed.

(** ** The callback of the socket *)

#[local] Notation destroy_client := (wl_client_destroy user_events notify user_destroy log_closure remove_source).
#[local] Notation handle_writable := (handle_writable user_events notify user_destroy log_closure remove_source update_source).
#[local] Notation handle_readable := (handle_readable user_events notify user_destroy log_closure remove_source).
#[local] Notation wl_client_connection_data :=
  (wl_client_connection_data user_events user_requests description address notify user_destroy log_closure remove_source update_source global_filter user_table user_call user_dispatch user_bind).

(** The client and everything it owned are no longer there. *)
Definition gone (c : Z) s : Prop := sound s ∧ clients s !! c = None ∧ ∀ p r, resources s !! p = Some r → r_client r ≠ c.

Lemma destroy_client_gone c s : serving c s → ∃ s', destroy_client c s = Some s' ∧ gone c s'.
Proof.
  intros ((Hwf & Hfol & Hsv) & Hc & k & Ek & _).
  destruct (client_destroy_spec user_events address notify user_destroy log_closure open_connection remove_source global_filter notify_calm destroy_calm log_calm source_calm open_ok address_ok
    s c k Hwf Hfol Ek Hc) as (s' & E & Hwf' & Hfol' & _ & Hk & Hgone & _ & Hsub & _). exists s'. split; [done|]. refine (conj (conj Hwf' (conj Hfol' _)) (conj Hk Hgone)).
  intros p v Hv. apply (Hsv p), Hsub, Hv.
Qed.

(** The connection of the client has moved on, its objects are the same. *)
Lemma serving_connection c s k x w : serving c s → clients s !! c = Some k → sink_ok x w → sinks_kept (world s) w →
  let s1 := set_world w (set_client c (k_set_connection x k) s) in serving c s1 ∧ input c s1 = sink_pending x.
Proof.
  intros Hs Ek Hx Hw. pose proof (decoded_spec c s k x (k_objects k) [] w Hs Ek (reserved_nil _) Hx Hw) as Hd. by destruct k.
Qed.

Lemma handle_writable_spec c mask s : serving c s →
  ∃ b s', handle_writable c mask s = Some (b, s') ∧ if b then gone c s' else serving c s'.
Proof.
  intros Hs. pose proof Hs as (((_ & Hsk) & _) & _ & k & Ek & _). unfold handle_writable. destruct (has mask WL_EVENT_WRITABLE); [|by exists false, s]. rewrite Ek. cbn [mbind option_bind].
  destruct (sink_flush_law (k_connection k) (world s) (Hsk c k Ek)) as (r & x & w & -> & Hx & _ & Hw). cbn [mbind option_bind].
  destruct (serving_connection c s k x w Hs Ek Hx Hw) as [Hs1 _]. set (s1 := set_world w _) in *. destruct r as [n|e].
  - eexists false, _. split; [done|]. apply serving_world; [apply update_calm|done].
  - destruct (bool_decide _); [by exists false, s1|]. destruct (destroy_client_gone c s1 Hs1) as (s' & E & Hg). unfold destroy_client_with_error. rewrite E. by exists true, s'.
Qed.

(** What is left to be looked at; all of it when the socket was read. *)
Lemma handle_readable_spec c mask s : serving c s →
  ∃ o s', handle_readable c mask s = Some (o, s') ∧
    match o with
    | None => gone c s'
    | Some len => serving c s' ∧ (len < 8 ∨ len = input c s') ∧ (has mask WL_EVENT_READABLE = true → len = input c s' ∨ input c s' = 0)
    end.
Proof.
  intros Hs. pose proof Hs as (((_ & Hsk) & _) & _ & k & Ek & _). unfold handle_readable.
  destruct (has mask WL_EVENT_READABLE); [|exists (Some 0), s; split_and!; [done|done|by left|done]]. rewrite Ek. cbn [mbind option_bind].
  destruct (source_read_law (k_connection k) (world s) (Hsk c k Ek)) as (r & x & w & -> & Hx & Hw & Hn & He). cbn [mbind option_bind].
  destruct (serving_connection c s k x w Hs Ek Hx Hw) as [Hs1 Hin]. set (s1 := set_world w _) in *. destruct (destroy_client_gone c s1 Hs1) as (s' & E & Hg). unfold destroy_client_with_error. destruct r as [n|e].
  - destruct (n =? 0); [rewrite E; by exists None, s'|]. exists (Some n), s1. rewrite Hin, <- (Hn n eq_refl). by split_and!; [| |right|left].
  - case_bool_decide as He'; [|rewrite E; by exists None, s']. subst e. exists (Some (-1)), s1. rewrite Hin, (He eq_refl). by split_and!; [| |left|right].
Qed.

(** C6: Whatever bytes a client sends, the callback of its socket
    [wl_client_connection_data] returns for every event mask: no read or write
    of a freed object, no failed assertion, no endless loop.  The server keeps
    its invariant, and the client is either served on, without a protocol
    error and, when the socket was readable, with no whole message left in its
    input, or gone with all its resources.  The functions of the compositor are
    only called with arguments as the protocol describes them. *)
Theorem client_data_safe c mask s : serving c s →
  ∃ s', wl_client_connection_data c mask s = Some s' ∧
    (gone c s' ∨ serving c s' ∧ (∃ k, clients s' !! c = Some k ∧ k_error k = false) ∧ (has mask WL_EVENT_READABLE = true → waits c s')).
Proof.
  intros Hs. pose proof (destroy_client_gone c s Hs) as (sd & Ed & Hgd). unfold wl_client_connection_data, destroy_client_with_error. rewrite Ed.
  destruct (has mask WL_EVENT_HANGUP); [eauto|]. destruct (has mask WL_EVENT_ERROR); [eauto|].
  destruct (handle_writable_spec c mask s Hs) as (b & s1 & -> & H1'). cbn [mbind option_bind]. destruct b; [eauto|].
  destruct (handle_readable_spec c mask s1 H1') as (o & s2 & -> & H2'). cbn [mbind option_bind]. destruct o as [len|]; [|eauto]. destruct H2' as (Hs2 & Hlen & Hread).
  destruct (request_loop_spec (S (Z.to_nat len)) c len s2 Hs2 Hlen ltac:(lia)) as (s3 & E3 & Hs3 & Hend). rewrite E3. cbn [mbind option_bind].
  pose proof Hs3 as (_ & _ & k & Ek & _). rewrite Ek. cbn [mbind option_bind]. destruct (k_error k) eqn:Ek'.
  { destruct (destroy_client_gone c s3 Hs3) as (s4 & -> & Hg). eauto. }
  exists s3. split; [done|]. right. split_and!; [done|by exists k|]. intros Hr. destruct (Hread Hr) as [Hl|Hz].
  - destruct (Hend Hl) as [(k' & Ek2 & Hk')|Hw]; [congruence|done].
  - destruct Hlen as [Hlen|Hlen]; [|destruct (Hend Hlen) as [(k' & Ek2 & Hk')|Hw]; [congruence|done]].
    cbn [WlDispatch.request_loop] in E3. rewrite (proj2 (Z.ltb_lt len 8) Hlen) in E3. injection E3 as <-. exists k. split; [done|]. left. unfold input in Hz. rewrite Ek in Hz. cbn in Hz. lia.
Qed.
End serving.
