(* ===== verification/WlDispatchRun.v ===== *)
(** * A client talking to a display

    A concrete run of [wl_client_connection_data] on the display of
    [WlServerRun]: the client syncs, binds a global and has sent the first half
    of a message when the socket is read. *)

From stdpp Require Import strings.
From S2P Require Import Prelude Decimal Os OsSim WlOs WlRing WlConnection WlSession WlArray WlMap WlMessage WlClosure WlTransmit WlDemarshal WlProtocol WlPrint WlServer WlServerSpec WlServerRun WlEventLoop WlDispatch WlDispatchSpec.
Open Scope Z_scope.

#[local] Existing Instances demo_sink demo_sink_laws.
#[local] Instance demo_source : RequestSource wl_connection sim := connection_source demo_fuel.
#[local] Instance demo_source_laws : RequestSourceLaws wl_connection sim := connection_source_laws 12 2 demo_fuel ltac:(lia) demo_fuel_ok.

(** A compositor that installs no tables and lets every bind be. *)
Definition demo_requests (_ : wl_interface) : list wl_message := [].
Definition demo_table (_ : Z) : list (option Z) := [].
Definition demo_update (_ _ : Z) (w : sim) : sim := w.
Definition demo_call (_ : Z) (_ : list (ffi_type * ffi_value)) (s : server wl_connection sim) : option (server wl_connection sim) := Some s.
Definition demo_dispatch (_ _ _ : Z) (_ : wl_message) (_ : list wl_argument) (s : server wl_connection sim) : option (server wl_connection sim) := Some s.
Definition demo_bind (_ : bind_call) (s : server wl_connection sim) : option (server wl_connection sim) := Some s.

#[local] Notation demo_serving := (serving demo_requests demo_description demo_filter demo_table).
#[local] Notation demo_data := (wl_client_connection_data demo_events demo_requests demo_description pick demo_notify demo_user_destroy demo_log
  demo_remove_source demo_update demo_filter demo_table demo_call demo_dispatch demo_bind).

(** *** The state *)

(** [wl_display.sync] (3), then [wl_registry.bind] (1, "wl_compositor", 4, 4),
    then the id of a further message. *)
Definition demo_bytes : list Z :=
  [1; 0; 0; 0;  0; 0; 12; 0;  3; 0; 0; 0] ++
  [2; 0; 0; 0;  0; 0; 40; 0;  1; 0; 0; 0;  14; 0; 0; 0] ++ str "wl_compositor" ++ [0; 0; 0;  4; 0; 0; 0;  4; 0; 0; 0] ++
  [1; 0; 0; 0].
Definition set_script (script : list (list Z * list cmsg)) (w : sim) : sim :=
  mk_sim (sim_sent w) (sim_sent_fds w) (sim_rcvd w) script (sim_room w) (sim_eintr w) (sim_mem w) (sim_fds w) (sim_closed w).
Definition demo_talking (bs : list Z) : server wl_connection sim := set_world (set_script [(bs, [])] (world demo_state)) demo_state.

(** The resources are the display and the registry of the client. *)
Definition core_resource (r : wl_resource) : bool :=
  bool_decide (Forall (λ b, 0 < b < 256) (str (if_name (o_interface (r_object r))))) &&
  match r_implementation r with
  | display_interface => bool_decide (if_name (o_interface (r_object r)) = "wl_display")
  | registry_interface => bool_decide (if_name (o_interface (r_object r)) = "wl_registry")
  | _ => false
  end.
Lemma core_resource_served r : core_resource r = true → served_resource demo_requests demo_description demo_table r.
Proof.
  unfold core_resource. intros [Hn%bool_decide_eq_true Hi]%andb_true_iff. split; [exact Hn|right].
  destruct (r_implementation r); try discriminate Hi; exact (bool_decide_eq_true_1 _ Hi).
Qed.
Lemma demo_core : map_Forall (λ _ r, core_resource r = true) (v_resources (view_of demo_state)).
Proof. apply (bool_decide_unpack _). vm_compute. exact I. Qed.
Lemma demo_display_there : ∃ k, clients demo_state !! 4 = Some k ∧ k_display_resource k ≠ 0.
Proof.
  assert (k_display_resource <$> clients demo_state !! 4 = Some 4) as (k & E & Ek)%fmap_Some by (apply (bool_decide_unpack _); vm_compute; exact I).
  exists k. refine (conj E _). rewrite <- Ek. discriminate.
Qed.
Lemma set_script_calm script w : sinks_kept w (set_script script w).
Proof. intros d (Hi & Hb & Hbud). exact (conj Hi (conj Hb Hbud)). Qed.

#[local] Opaque demo_state.

Lemma demo_talking_serving bs : demo_serving 4 (demo_talking bs).
Proof.
  destruct demo_display_ok as [Hwf Hfol]. destruct demo_client as (_ & _ & Hin). refine (serving_world demo_requests demo_description demo_filter demo_table 4 demo_state _ (set_script_calm _ _) _).
  refine (conj (conj Hwf (conj Hfol _)) (conj Hin demo_display_there)). intros p v Hv. exact (core_resource_served v (demo_core p v Hv)).
Qed.

(** *** The run *)

Lemma client_data_safe_witness :
  (∃ s', demo_data 4 WL_EVENT_READABLE (demo_talking demo_bytes) = Some s' ∧ demo_serving 4 s' ∧ waits 4 s') ∧
  (∃ s', demo_data 4 WL_EVENT_READABLE (demo_talking [9; 0; 0; 0; 0; 0; 8; 0]) = Some s' ∧ clients s' !! 4 = None).
Proof.
  pose proof (λ bs, client_data_safe demo_events demo_requests demo_description pick demo_notify demo_user_destroy demo_log demo_open demo_remove_source demo_update demo_filter
    demo_table demo_call demo_dispatch demo_bind (λ _, demo_calm) (λ _ _, demo_calm) (λ _ _ _, demo_calm) (λ _, demo_calm) demo_open_ok pick_ok (λ _ _, demo_calm)
    (λ _ _ Hm, False_ind _ (proj1 (elem_of_nil _) Hm)) (λ c s p r opcode message args q f Hcall _ _, ex_intro _ s (conj eq_refl (conj (proj1 Hcall) (Z.le_refl _))))
    (λ c s p r opcode message args d Hcall _, ex_intro _ s (conj eq_refl (conj (proj1 Hcall) (Z.le_refl _))))
    (λ c s k g name version id Hs _ _ _ _, ex_intro _ s (conj eq_refl (conj Hs (Z.le_refl _)))) 4 WL_EVENT_READABLE (demo_talking bs) (demo_talking_serving bs)) as Hsafe. split.
  - destruct (Hsafe demo_bytes) as (s' & E & H). exists s'. refine (conj E _).
    assert ((s' ← demo_data 4 WL_EVENT_READABLE (demo_talking demo_bytes); k ← clients s' !! 4; Some (k_error k)) = Some false) as Hk by (vm_compute; reflexivity).
    rewrite E in Hk. cbn [mbind option_bind] in Hk. destruct H as [(_ & Hnone & _)|(Hs & _ & Hw)]; [rewrite Hnone in Hk; discriminate Hk|]. exact (conj Hs (Hw eq_refl)).
  - destruct (Hsafe [9; 0; 0; 0; 0; 0; 8; 0]) as (s' & E & H). exists s'. refine (conj E _).
    assert ((s' ← demo_data 4 WL_EVENT_READABLE (demo_talking [9; 0; 0; 0; 0; 0; 8; 0]); k ← clients s' !! 4; Some (k_error k)) = None) as Hk by (vm_compute; reflexivity).
    rewrite E in Hk. cbn [mbind option_bind] in Hk. destruct (clients s' !! 4) as [k|]; [discriminate Hk|reflexivity].
Defined.
