(* ===== verification/XkbAtom.v ===== *)
(** * The atom table of libxkbcommon

    Models libxkbcommon/build/src/atom.c: an insert-only hash table with linear
    probing that maps strings to atoms, and the array that maps atoms back to
    strings.  The abstract view is the list of the interned strings: interning
    finds a string or appends it, and the atom of a string is its position. *)

From S2P Require Import Prelude.
Open Scope Z_scope.

Definition XKB_ATOM_NONE : Z := 0.

(** Strings are their bytes, without the terminating null; the first entry of
    [strings] is a null pointer. *)
Record atom_table : Type := mk_table {
  at_index : list Z;
  at_strings : list (option (list Z))
}.

Definition index_size (t : atom_table) : Z := Z.of_nat (length (at_index t)).

(** FNV-1a over both ends of the string. *)
Definition hash_step (hash c : Z) : Z := u32 (Z.lxor hash c * 16777619).

Fixpoint hash_loop (n : nat) (string : list Z) (i : nat) (hash : Z) : Z :=
  match n with
  | O => hash
  | S n =>
      let hash := hash_step hash (nth i string 0) in
      let hash := hash_step hash (nth (length string - 1 - i) string 0) in
      hash_loop n string (S i) hash
  end.
Definition hash_buf (string : list Z) : Z :=
  hash_loop ((length string + 1) / 2) string 0 2166136261.

Definition atom_table_new : atom_table := mk_table [0; 0; 0; 0] [None].

(** Out of range is a failed [assert]. *)
Definition atom_text (t : atom_table) (atom : Z) : option (option (list Z)) :=
  if 0 <=? atom then at_strings t !! Z.to_nat atom else None.

(** [(hash + i) & (index_size - 1)]; the sum is a [size_t]. *)
Definition index_pos (size hash i : Z) : Z := Z.land (u64 (hash + i)) (size - 1).

(** The inner loop of the rehash: the first free slot from [i] on. *)
Fixpoint place_loop (n : nat) (index : list Z) (hash i atom : Z) : list Z :=
  match n with
  | O => index
  | S n =>
      let pos := index_pos (Z.of_nat (length index)) hash i in
      if pos =? 0 then place_loop n index hash (i + 1) atom
      else if nth (Z.to_nat pos) index 0 =? XKB_ATOM_NONE
           then <[Z.to_nat pos := atom]> index
           else place_loop n index hash (i + 1) atom
  end.

(** The strings from atom [j] on are placed in the new index. *)
Fixpoint rehash_loop (strings : list (option (list Z))) (j : Z) (index : list Z) : option (list Z) :=
  match strings with
  | [] => Some index
  | None :: _ => None  (* a null pointer *)
  | Some s :: strings =>
      rehash_loop strings (j + 1) (place_loop (length index) index (hash_buf s) 0 j)
  end.

(** [darray_size(strings) > 0.80 * index_size]. *)
Definition needs_growth (t : atom_table) : bool :=
  4 * index_size t <? 5 * Z.of_nat (length (at_strings t)).

(** The memory the code asks for is assumed to be there: it does not check. *)
Definition atom_table_grow (t : atom_table) : option atom_table :=
  if needs_growth t then
    index ← rehash_loop (drop 1 (at_strings t)) 1
              (replicate (2 * length (at_index t)) XKB_ATOM_NONE);
    Some (mk_table index (at_strings t))
  else Some t.

(** [strncmp(existing, string, len) == 0]. *)
Fixpoint strncmp_equal (existing string : list Z) : bool :=
  match existing, string with
  | _, [] => true
  | [], c :: _ => c =? 0
  | a :: existing, c :: string => (a =? c) && ((a =? 0) || strncmp_equal existing string)
  end.

(** [existing[len]], a terminating null after the last byte. *)
Definition char_at (existing : list Z) (len : nat) : option Z :=
  if decide (len = length existing) then Some 0 else existing !! len.

Definition atom_matches (existing string : list Z) : option bool :=
  if strncmp_equal existing string then
    c ← char_at existing (length string); Some (c =? 0)
  else Some false.

(** What [strndup] copies. *)
Fixpoint strndup (string : list Z) : list Z :=
  match string with
  | [] => []
  | c :: string => if c =? 0 then [] else c :: strndup string
  end.

Fixpoint probe_loop (n : nat) (t : atom_table) (string : list Z) (hash i : Z) (add : bool)
    : option (Z * atom_table) :=
  match n with
  | O => None  (* assert *)
  | S n =>
      let pos := index_pos (index_size t) hash i in
      if pos =? 0 then probe_loop n t string hash (i + 1) add
      else
        existing_atom ← at_index t !! Z.to_nat pos;
        if existing_atom =? XKB_ATOM_NONE then
          if add then
            let new_atom := u32 (Z.of_nat (length (at_strings t))) in
            Some (new_atom, mk_table (<[Z.to_nat pos := new_atom]> (at_index t))
                                     (at_strings t ++ [Some (strndup string)]))
          else Some (XKB_ATOM_NONE, t)
        else
          existing ← at_strings t !! Z.to_nat existing_atom;
          existing_value ← existing;
          m ← atom_matches existing_value string;
          if (m : bool) then Some (existing_atom, t) else probe_loop n t string hash (i + 1) add
  end.

Definition atom_intern (t : atom_table) (string : list Z) (add : bool) : option (Z * atom_table) :=
  t ← atom_table_grow t;
  probe_loop (length (at_index t)) t string (hash_buf string) 0 add.

(** ** Probe sequences *)

Lemma least_nat (P : nat → Prop) `{∀ i, Decision (P i)} i :
  P i → ∃ m, (m <= i)%nat ∧ P m ∧ ∀ m', (m' < m)%nat → ¬ P m'.
Proof.
  induction i as [i IH] using lt_wf_ind. intros Hi.
  destruct (decide (Exists P (seq 0 i))) as [He|Hne].
  - apply Exists_exists in He as (j&Hj%elem_of_seq&HPj). destruct (IH j) as (m&?&?&?); [lia|done|].
    exists m. split_and!; [lia|done|done].
  - exists i. split_and!; [lia|done|]. intros m' Hm' HP. apply Hne, Exists_exists. exists m'.
    split; [apply elem_of_seq; lia|done].
Qed.

Section probe.
Context (k : nat) (Hk : (k <= 62)%nat).
Let n : nat := (2 ^ k)%nat.

Lemma size_pow : Z.of_nat n = 2 ^ Z.of_nat k.
Proof. unfold n. by rewrite Nat2Z.inj_pow. Qed.

(** The slot of the [i]-th probe. *)
Definition slot (h : Z) (i : nat) : nat := Z.to_nat (index_pos (Z.of_nat n) h (Z.of_nat i)).

Lemma size_bound : Z.of_nat n <= 2 ^ 62.
Proof. rewrite size_pow. apply Z.pow_le_mono_r; lia. Qed.

Lemma index_pos_mod h (i : nat) :
  0 <= h < 2 ^ 32 → (i < n)%nat → index_pos (Z.of_nat n) h (Z.of_nat i) = (h + Z.of_nat i) mod Z.of_nat n.
Proof.
  intros Hh Hi. pose proof size_bound as Hb. unfold index_pos.
  replace (Z.of_nat n - 1) with (Z.ones (Z.of_nat k)) by (rewrite Z.ones_equiv, size_pow; lia).
  rewrite Z.land_ones, <- size_pow by lia. f_equal. apply Z.mod_small. lia.
Qed.

Lemma slot_lt h i : 0 <= h < 2 ^ 32 → (i < n)%nat → (slot h i < n)%nat.
Proof. intros. unfold slot. rewrite index_pos_mod by done. pose proof (Z.mod_pos_bound (h + Z.of_nat i) (Z.of_nat n)). lia. Qed.

(** The probes visit every slot. *)
Lemma slot_surj h p : 0 <= h < 2 ^ 32 → (p < n)%nat → ∃ i, (i < n)%nat ∧ slot h i = p.
Proof.
  intros Hh Hp. exists (Z.to_nat ((Z.of_nat p - h) mod Z.of_nat n)).
  pose proof (Z.mod_pos_bound (Z.of_nat p - h) (Z.of_nat n)) as Hb. split; [lia|].
  unfold slot. rewrite index_pos_mod by lia. rewrite Z2Nat.id by lia.
  rewrite Zplus_mod_idemp_r. replace (h + (Z.of_nat p - h)) with (Z.of_nat p) by lia.
  rewrite Z.mod_small by lia. lia.
Qed.

Lemma slot_zero h i : slot h i = 0%nat ↔ index_pos (Z.of_nat n) h (Z.of_nat i) = 0.
Proof.
  unfold slot. assert (0 <= index_pos (Z.of_nat n) h (Z.of_nat i)) by (apply Z.land_nonneg; left; apply u64_bound). lia.
Qed.

(** The probe [i] for [h] finds [a], after slots that are taken or reserved. *)
Definition taken (index : list Z) (p : nat) : Prop := p = 0%nat ∨ ∃ a, index !! p = Some a ∧ a ≠ 0.
Definition reaches (index : list Z) (h : Z) (i : nat) (a : Z) : Prop :=
  (i < n)%nat ∧ slot h i ≠ 0%nat ∧ index !! slot h i = Some a ∧ ∀ i', (i' < i)%nat → taken index (slot h i').

(** The index lists the strings [S], which have the atoms 1, 2, ... *)
Record index_ok (index : list Z) (S : list (list Z)) : Prop := {
  ix_length : length index = n;
  ix_zero : index !! 0%nat = Some 0;
  ix_range : ∀ p a, index !! p = Some a → 0 <= a <= Z.of_nat (length S);
  ix_unique : ∀ p q a, index !! p = Some a → index !! q = Some a → a ≠ 0 → p = q;
  ix_reach : ∀ j s, S !! j = Some s → ∃ i, reaches index (hash_buf s) i (Z.of_nat j + 1)
}.

Lemma hash_loop_bound m s i h : 0 <= h < 2 ^ 32 → 0 <= hash_loop m s i h < 2 ^ 32.
Proof. revert i h. induction m as [|m IH]; intros i h Hh; [done|]. cbn [hash_loop]. apply IH. apply u32_bound. Qed.

Lemma hash_bound s : 0 <= hash_buf s < 2 ^ 32.
Proof. by apply hash_loop_bound. Qed.

(** While there are fewer strings than slots, one is free. *)
Lemma some_free index S :
  index_ok index S → (length S + 1 < n)%nat → ∃ p, (p < n)%nat ∧ p ≠ 0%nat ∧ index !! p = Some 0.
Proof.
  intros Hok Hlt. destruct (decide (Exists (λ a, a = 0) (drop 1 index))) as [He|Hne].
  - apply Exists_exists in He as (a&[q Hq]%list_elem_of_lookup&->). rewrite lookup_drop in Hq.
    exists (1 + q)%nat. split_and!; [|lia|done]. apply lookup_lt_Some in Hq. by rewrite (ix_length _ _ Hok) in Hq.
  - exfalso. rewrite <- Forall_Exists_neg, Forall_forall in Hne.
    assert (length (drop 1 index) <= length (seqZ 1 (Z.of_nat (length S))))%nat as Hle.
    { apply NoDup_incl_length.
      - apply NoDup_ListNoDup, NoDup_alt. intros p q a Hp Hq. rewrite lookup_drop in Hp, Hq.
        assert (1 + p = 1 + q)%nat; [|lia]. apply (ix_unique _ _ Hok _ _ a Hp Hq). apply Hne.
        apply list_elem_of_lookup. exists p. by rewrite lookup_drop.
      - intros a Ha%list_elem_of_In. apply list_elem_of_In. apply elem_of_seqZ. pose proof (Hne a Ha).
        apply list_elem_of_lookup in Ha as [p Hp]. rewrite lookup_drop in Hp.
        pose proof (ix_range _ _ Hok _ _ Hp). lia. }
    rewrite length_drop, (ix_length _ _ Hok), length_seqZ in Hle. lia.
Qed.

#[local] Instance taken_dec index p : Decision (taken index p).
Proof.
  unfold taken. destruct (decide (p = 0%nat)); [left; auto|].
  destruct (index !! p) as [a|]; [|right; naive_solver]. destruct (decide (a = 0)); [right|left]; naive_solver.
Defined.

Lemma free_slot index S h :
  index_ok index S → 0 <= h < 2 ^ 32 → (length S + 1 < n)%nat → ∃ i, reaches index h i 0.
Proof.
  intros Hok Hh Hlt. destruct (some_free index S Hok Hlt) as (p&Hp&Hp0&Hi).
  destruct (slot_surj h p Hh Hp) as (i0&Hi0&<-).
  destruct (least_nat (λ i, ¬ taken index (slot h i)) i0) as (i&Hle&Hn&Hmin).
  { intros [?|(a&Ha&?)]; [done|]. congruence. }
  exists i. assert (i < n)%nat as Hin by lia. pose proof (slot_lt h i Hh Hin) as Hsl. unfold taken in Hn.
  split_and!; [done|naive_solver| |intros i' Hi'; by apply dec_stable, Hmin].
  destruct (lookup_lt_is_Some_2 index (slot h i)) as [a Ha]; [by rewrite (ix_length _ _ Hok)|].
  destruct (decide (a = 0)) as [->|]; [done|naive_solver].
Qed.

(** Filling the slot a new string is probed to. *)
Lemma index_insert index S s i :
  index_ok index S → reaches index (hash_buf s) i 0 →
  index_ok (<[slot (hash_buf s) i := Z.of_nat (length S) + 1]> index) (S ++ [s]).
Proof.
  intros [Hl Hz Hr Hu Hre] (Hi&Hs0&Hs&Htk). pose proof (hash_bound s) as Hh.
  pose proof (slot_lt _ i Hh Hi) as Hsl. set (p := slot (hash_buf s) i) in *.
  assert (Hlk : ∀ q, <[p := Z.of_nat (length S) + 1]> index !! q =
            if decide (q = p) then Some (Z.of_nat (length S) + 1) else index !! q).
  { intros q. case_decide as E; [subst; rewrite list_lookup_insert_eq by lia; done|by rewrite list_lookup_insert_ne]. }
  assert (Htk' : ∀ q, taken index q → taken (<[p := Z.of_nat (length S) + 1]> index) q).
  { intros q [?|(a&Ha&?)]; [by left|right]. rewrite Hlk. case_decide; [eexists; split; [done|lia]|by exists a]. }
  constructor.
  - by rewrite length_insert.
  - rewrite Hlk, decide_False by done. done.
  - intros q a. rewrite Hlk, length_app. cbn. case_decide; [intros [= <-]; lia|]. intros Ha%Hr. lia.
  - intros q q' a. rewrite !Hlk. case_decide as E1; case_decide as E2; [congruence|..|apply Hu].
    + intros [= <-] Ha%Hr. lia.
    + intros Ha%Hr [= <-]. lia.
  - intros j s' [Hj|[Hj Hs']]%lookup_app_Some.
    + destruct (Hre j s' Hj) as (i'&Hi'&Hs0'&Hs'&Htk''). exists i'. split_and!; [done|done| |auto].
      rewrite Hlk, decide_False; [done|]. intros E. rewrite E, Hs in Hs'. injection Hs'. lia.
    + apply list_lookup_singleton_Some in Hs' as [Hj' <-]. exists i. split_and!; [done|done| |].
      * rewrite Hlk, decide_True by done. f_equal. lia.
      * intros i' Hi'. apply Htk', Htk. done.
Qed.

(** The rehash puts a string where the probe will find it. *)
Lemma place_loop_spec index h atom m i0 i :
  reaches index h i 0 → length index = n → (i0 <= i < i0 + m)%nat →
  place_loop m index h (Z.of_nat i0) atom = <[slot h i := atom]> index.
Proof.
  intros (Hi&Hs0&Hs&Htk) Hl. revert i0. induction m as [|m IH]; intros i0 Hi0; [lia|]. cbn [place_loop].
  rewrite Hl.
  assert (Hpos : ∀ x, Z.to_nat (index_pos (Z.of_nat n) h (Z.of_nat x)) = slot h x) by done.
  replace (Z.of_nat i0 + 1) with (Z.of_nat (S i0)) by lia.
  destruct (decide (i0 = i)) as [->|Hne].
  - destruct (Z.eqb_spec (index_pos (Z.of_nat n) h (Z.of_nat i)) 0) as [E|_].
    { by apply slot_zero in E. }
    rewrite Hpos, (nth_lookup_Some _ _ 0 0) by done. done.
  - case_step; [apply IH; lia|]. destruct (Htk i0 ltac:(lia)) as [E|(a&Ha&Hnz)].
    + exfalso. zbool. by apply slot_zero in E.
    + rewrite Hpos, (nth_lookup_Some _ _ 0 a) by done. rewrite (proj2 (Z.eqb_neq _ _)) by done. apply IH. lia.
Qed.

Lemma index_empty : (2 <= k)%nat → index_ok (replicate n XKB_ATOM_NONE) [].
Proof.
  intros Hk2. constructor.
  - apply length_replicate.
  - apply lookup_replicate. split; [done|]. unfold n. apply Nat.neq_0_lt_0, Nat.pow_nonzero. done.
  - intros p a [-> _]%lookup_replicate. done.
  - intros p q a [-> _]%lookup_replicate. done.
  - intros j s Hj. done.
Qed.

Lemma rehash_loop_spec index S S' :
  index_ok index S → (length S + length S' + 1 < n)%nat →
  ∃ index', rehash_loop (Some <$> S') (Z.of_nat (length S) + 1) index = Some index' ∧
    index_ok index' (S ++ S').
Proof.
  revert index S. induction S' as [|s S' IH]; intros index S Hok Hlt; cbn [fmap list_fmap rehash_loop].
  - exists index. by rewrite app_nil_r.
  - cbn in Hlt. destruct (free_slot index S (hash_buf s) Hok (hash_bound s)) as [i Hi]; [lia|].
    rewrite (place_loop_spec index (hash_buf s) _ _ 0 i Hi) by (rewrite ?(ix_length _ _ Hok); (done || destruct Hi; lia)).
    destruct (IH (<[slot (hash_buf s) i := Z.of_nat (length S) + 1]> index) (S ++ [s])) as (index'&E&Hok').
    + by apply index_insert.
    + rewrite length_app. cbn. lia.
    + exists index'. split; [|by rewrite <- app_assoc in Hok'].
      rewrite length_app in E. cbn in E. rewrite <- E. do 2 f_equal. lia.
Qed.

(** ** Comparing strings *)

Definition no_nul (s : list Z) : Prop := Forall (λ c, c ≠ 0) s.

Lemma atom_matches_spec e s : no_nul e → no_nul s → atom_matches e s = Some (bool_decide (e = s)).
Proof.
  intros He Hs. unfold atom_matches. revert s Hs. induction He as [|a e Ha He IH]; intros s Hs.
  - destruct Hs as [|c s Hc Hs]; [done|]. cbn [strncmp_equal]. by rewrite (proj2 (Z.eqb_neq _ _)).
  - destruct Hs as [|c s Hc Hs]; cbn [strncmp_equal].
    + unfold char_at. cbn [length lookup list_lookup mbind option_bind]. rewrite decide_False by done.
      cbn [mbind option_bind]. by rewrite (proj2 (Z.eqb_neq _ _)).
    + destruct (Z.eqb_spec a c) as [->|Hne]; cbn [andb].
      * rewrite (proj2 (Z.eqb_neq c 0)) by done. cbn [orb]. specialize (IH s Hs).
        destruct (strncmp_equal e s); unfold char_at in *; cbn [length lookup list_lookup] in *.
        -- rewrite (decide_ext (S (length s) = S (length e)) (length s = length e)) by lia.
           etransitivity; [exact IH|]. f_equal. apply bool_decide_ext. naive_solver.
        -- etransitivity; [exact IH|]. f_equal. apply bool_decide_ext. naive_solver.
      * f_equal. symmetry. apply bool_decide_eq_false_2. naive_solver.
Qed.

Lemma strndup_id s : no_nul s → strndup s = s.
Proof. induction 1 as [|c s Hc Hs IH]; [done|]. cbn. rewrite (proj2 (Z.eqb_neq _ _)) by done. by rewrite IH. Qed.

(** ** Interning *)

Lemma strings_lookup (S : list (list Z)) j :
  (None :: (Some <$> S)) !! Datatypes.S j = Some <$> S !! j.
Proof. exact (list_lookup_fmap Some S j). Qed.

Lemma probe_skip t S s h i0 m add :
  at_strings t = None :: (Some <$> S) → index_ok (at_index t) S → Forall no_nul S → no_nul s →
  taken (at_index t) (slot h i0) → (∀ j, S !! j = Some s → at_index t !! slot h i0 ≠ Some (Z.of_nat j + 1)) →
  probe_loop (Datatypes.S m) t s h (Z.of_nat i0) add = probe_loop m t s h (Z.of_nat (Datatypes.S i0)) add.
Proof.
  intros Hstr Hok Hnn Hs Htk Hno. cbn [probe_loop]. unfold index_size. rewrite (ix_length _ _ Hok).
  replace (Z.of_nat i0 + 1) with (Z.of_nat (Datatypes.S i0)) by lia. case_step; [done|]. zbool.
  destruct Htk as [E|(a&Ha&Hnz)].
  { by apply slot_zero in E. }
  fold (slot h i0). rewrite Ha. cbn [mbind option_bind]. rewrite (proj2 (Z.eqb_neq _ _)) by done.
  pose proof (ix_range _ _ Hok _ _ Ha) as Hr.
  destruct (lookup_lt_is_Some_2 S (Z.to_nat (a - 1))) as [e He]; [lia|].
  rewrite Hstr. replace (Z.to_nat a) with (Datatypes.S (Z.to_nat (a - 1))) by lia.
  rewrite strings_lookup, He. cbn [fmap option_fmap option_map mbind option_bind].
  rewrite atom_matches_spec by (done || (rewrite Forall_forall in Hnn; apply Hnn, list_elem_of_lookup; eauto)).
  cbn [mbind option_bind]. rewrite bool_decide_eq_false_2; [done|]. intros ->. apply (Hno _ He). rewrite Ha. f_equal. lia.
Qed.

Lemma probe_skip_all t S s h i add m :
  at_strings t = None :: (Some <$> S) → index_ok (at_index t) S → Forall no_nul S → no_nul s →
  (∀ i', (i' < i)%nat → taken (at_index t) (slot h i')) →
  (∀ i' j, (i' < i)%nat → S !! j = Some s → at_index t !! slot h i' ≠ Some (Z.of_nat j + 1)) →
  probe_loop (i + m) t s h 0 add = probe_loop m t s h (Z.of_nat i) add.
Proof.
  intros Hstr Hok Hnn Hs. revert m. induction i as [|i IH]; intros m Htk Hno; [done|].
  replace (Datatypes.S i + m)%nat with (i + Datatypes.S m)%nat by lia. rewrite IH by eauto.
  apply (probe_skip t S); [done..|apply Htk; lia|]. intros j. apply Hno. lia.
Qed.

(** A string that is in the table is found. *)
Lemma probe_found t S s j add :
  at_strings t = None :: (Some <$> S) → index_ok (at_index t) S → Forall no_nul S → NoDup S →
  S !! j = Some s → probe_loop n t s (hash_buf s) 0 add = Some (Z.of_nat j + 1, t).
Proof.
  intros Hstr Hok Hnn Hnd Hj. assert (Hs : no_nul s) by (rewrite Forall_forall in Hnn; apply Hnn, list_elem_of_lookup; eauto).
  destruct (ix_reach _ _ Hok j s Hj) as (i0&Hi0&_&Hlk0&Htk).
  destruct (least_nat (λ i, at_index t !! slot (hash_buf s) i = Some (Z.of_nat j + 1)) i0 Hlk0) as (i&Hle&Hlk&Hmin).
  replace n with (i + Datatypes.S (n - i - 1))%nat by lia.
  rewrite (probe_skip_all t S); try done.
  - assert (Hs0 : slot (hash_buf s) i ≠ 0%nat).
    { intros E. rewrite E, (ix_zero _ _ Hok) in Hlk. injection Hlk. lia. }
    cbn [probe_loop]. unfold index_size. rewrite (ix_length _ _ Hok). fold (slot (hash_buf s) i). case_step.
    { exfalso. zbool. by apply Hs0, slot_zero. }
    rewrite Hlk. cbn [mbind option_bind]. rewrite (proj2 (Z.eqb_neq _ _)) by (unfold XKB_ATOM_NONE; lia). rewrite Hstr.
    replace (Z.to_nat (Z.of_nat j + 1)) with (Datatypes.S j) by lia.
    rewrite strings_lookup, Hj. cbn [fmap option_fmap option_map mbind option_bind].
    rewrite atom_matches_spec by done. cbn [mbind option_bind]. by rewrite bool_decide_eq_true_2.
  - intros i' Hi'. apply Htk. lia.
  - intros i' j' Hi' Hj'. assert (j' = j) as -> by by eapply NoDup_lookup. by apply Hmin.
Qed.

(** A string that is not in the table is added at the end, or not found. *)
Lemma probe_new t S s add :
  at_strings t = None :: (Some <$> S) → index_ok (at_index t) S → Forall no_nul S → no_nul s →
  s ∉ S → (length S + 1 < n)%nat → Z.of_nat (length S) + 1 < 2 ^ 32 →
  ∃ t', probe_loop n t s (hash_buf s) 0 add = Some (if add then Z.of_nat (length S) + 1 else XKB_ATOM_NONE, t') ∧
    (if add then at_strings t' = None :: (Some <$> (S ++ [s])) ∧ index_ok (at_index t') (S ++ [s]) else t' = t).
Proof.
  intros Hstr Hok Hnn Hs Hnin Hlt H32. destruct (free_slot _ S (hash_buf s) Hok (hash_bound s) Hlt) as [i Hre].
  pose proof Hre as (Hi&Hs0&Hlk&Htk). replace n with (i + Datatypes.S (n - i - 1))%nat by lia.
  rewrite (probe_skip_all t S); try done.
  2:{ intros i' j _ Hj. destruct Hnin. by eapply list_elem_of_lookup_2. }
  cbn [probe_loop]. unfold index_size. rewrite (ix_length _ _ Hok). fold (slot (hash_buf s) i). case_step.
  { exfalso. zbool. by apply Hs0, slot_zero. }
  rewrite Hlk. cbn [mbind option_bind Z.eqb]. destruct add; [|by exists t].
  assert (u32 (Z.of_nat (length (at_strings t))) = Z.of_nat (length S) + 1) as ->.
  { rewrite Hstr. cbn [length]. rewrite length_fmap. unfold u32. rewrite Z.mod_small; lia. }
  eexists. split; [done|]. cbn [at_strings at_index]. split; [|by apply index_insert].
  rewrite Hstr, strndup_id, fmap_app by done. done.
Qed.
End probe.

(** ** The table *)

(** The table holds the strings [S]. *)
Record table_ok (t : atom_table) (S : list (list Z)) : Prop := mk_table_ok {
  tb_strings : at_strings t = None :: (Some <$> S);
  tb_nodup : NoDup S;
  tb_nonul : Forall no_nul S;
  tb_index : ∃ k, (2 <= k)%nat ∧ index_ok k (at_index t) S ∧
    5 * Z.of_nat (length S) <= 4 * 2 ^ Z.of_nat k ∧
    (k = 2%nat ∨ 2 * 2 ^ Z.of_nat k <= 5 * (Z.of_nat (length S) + 1))
}.

Lemma table_new_ok : table_ok atom_table_new [].
Proof.
  constructor; [done|constructor|constructor|]. exists 2%nat. split_and!; [done| |done|by left].
  by apply (index_empty 2).
Qed.

Lemma size_fits k m :
  (2 <= k)%nat → 0 <= m → m + 1 < 2 ^ 32 → (k = 2%nat ∨ 2 * 2 ^ Z.of_nat k <= 5 * (m + 1)) → (k <= 60)%nat.
Proof.
  intros Hk Hm H32 [->|Hle]; [lia|]. destruct (decide (k <= 60)%nat) as [|Hn]; [done|].
  assert (2 ^ 61 <= 2 ^ Z.of_nat k) by (apply Z.pow_le_mono_r; lia). lia.
Qed.

(** Growing keeps the strings and makes room for one more. *)
Lemma table_grow_ok t S :
  table_ok t S → Z.of_nat (length S) + 1 < 2 ^ 32 →
  ∃ t' k, atom_table_grow t = Some t' ∧ at_strings t' = at_strings t ∧ (2 <= k <= 61)%nat ∧ index_ok k (at_index t') S ∧
    5 * (Z.of_nat (length S) + 1) <= 4 * 2 ^ Z.of_nat k ∧
    (k = 2%nat ∨ 2 * 2 ^ Z.of_nat k <= 5 * (Z.of_nat (length S) + 1)).
Proof.
  intros [Hstr Hnd Hnn (k&Hk&Hok&Hload&Hsz)] H32. pose proof (size_fits k (Z.of_nat (length S)) Hk ltac:(lia) H32 Hsz) as Hk60.
  unfold atom_table_grow, needs_growth, index_size. rewrite Hstr. cbn [length]. rewrite length_fmap, (ix_length _ _ _ Hok), size_pow.
  destruct (Z.ltb_spec (4 * 2 ^ Z.of_nat k) (5 * Z.of_nat (Datatypes.S (length S)))) as [Hg|Hg].
  - assert (E : (2 * 2 ^ k = 2 ^ Datatypes.S k)%nat) by by rewrite Nat.pow_succ_r'.
    rewrite E. cbn [drop]. rewrite drop_0.
    assert (Hsl : (0 + length S + 1 < 2 ^ Datatypes.S k)%nat).
    { apply Nat2Z.inj_lt. rewrite size_pow, Nat2Z.inj_succ, Z.pow_succ_r by lia. lia. }
    destruct (rehash_loop_spec (Datatypes.S k) ltac:(lia) (replicate (2 ^ Datatypes.S k) XKB_ATOM_NONE) [] S) as (index'&Ei&Hok').
    { apply index_empty; lia. } { done. }
    change (Z.of_nat (length []) + 1) with 1 in Ei. rewrite Ei. cbn [mbind option_bind].
    eexists _, (Datatypes.S k). split_and!; [done|done|lia|lia|done|..]; rewrite Nat2Z.inj_succ, Z.pow_succ_r by lia.
    + lia.
    + right. lia.
  - exists t, k. split_and!; [done|done|done|lia|done|lia|done].
Qed.

(** The specification: find the string or append it. *)
Lemma intern_spec t S s add :
  table_ok t S → no_nul s → Z.of_nat (length S) + 2 < 2 ^ 32 →
  ∃ t' S', table_ok t' S' ∧
    ((∃ j, S !! j = Some s ∧ S' = S ∧ atom_intern t s add = Some (Z.of_nat j + 1, t')) ∨
     (s ∉ S ∧ add = true ∧ S' = S ++ [s] ∧ atom_intern t s add = Some (Z.of_nat (length S) + 1, t')) ∨
     (s ∉ S ∧ add = false ∧ S' = S ∧ atom_intern t s add = Some (XKB_ATOM_NONE, t'))).
Proof.
  intros Hok Hs H32. pose proof Hok as [Hstr Hnd Hnn _].
  destruct (table_grow_ok t S Hok ltac:(lia)) as (t1&k&Eg&Estr&Hk&Hix&Hload&Hsz). unfold atom_intern.
  rewrite Eg. cbn [mbind option_bind]. rewrite (ix_length _ _ _ Hix). rewrite Hstr in Estr.
  assert (Hok1 : table_ok t1 S).
  { constructor; try done. exists k. split_and!; [lia|done|lia|done]. }
  destruct (decide (s ∈ S)) as [[j Hj]%list_elem_of_lookup|Hnin].
  - exists t1, S. split; [done|]. left. exists j. split_and!; try done. by apply (probe_found k ltac:(lia) t1 S).
  - destruct (probe_new k ltac:(lia) t1 S s add) as (t2&E&Ht2); try done; [|lia|].
    { apply Nat2Z.inj_lt. rewrite size_pow, Nat2Z.inj_add. assert (2 ^ 2 <= 2 ^ Z.of_nat k) by (apply Z.pow_le_mono_r; lia). lia. }
    rewrite E. destruct add.
    + destruct Ht2 as [Estr2 Hix2]. exists t2, (S ++ [s]). split; [|right; left; done].
      constructor; [done| | |].
      * apply NoDup_app. split_and!; [done|set_solver|apply NoDup_singleton].
      * apply Forall_app. split; [done|]. by constructor.
      * exists k. rewrite length_app. cbn [length]. split_and!; [lia|done|lia|destruct Hsz; [by left|right; lia]].
    + subst t2. exists t1, S. split; [done|]. right. right. done.
Qed.

(** The reference: a list of strings. *)
Definition ref_intern (S : list (list Z)) (s : list Z) (add : bool) : Z * list (list Z) :=
  match list_find (λ x, x = s) S with
  | Some (j, _) => (Z.of_nat j + 1, S)
  | None => if add then (Z.of_nat (length S) + 1, S ++ [s]) else (XKB_ATOM_NONE, S)
  end.

Lemma intern_refines t S s add :
  table_ok t S → no_nul s → Z.of_nat (length S) + 2 < 2 ^ 32 →
  ∃ t', atom_intern t s add = Some ((ref_intern S s add).1, t') ∧ table_ok t' (ref_intern S s add).2.
Proof.
  intros Hok Hs H32. pose proof (tb_nodup _ _ Hok) as Hnd.
  destruct (intern_spec t S s add Hok Hs H32) as (t'&S'&Hok'&[(j&Hj&->&E)|[(Hn&->&->&E)|(Hn&->&->&E)]]); unfold ref_intern.
  - rewrite (proj2 (list_find_Some _ S j s)); [by exists t'|]. split_and!; [done|done|].
    intros j' y Hy Hlt ->. assert (j = j') by by eapply NoDup_lookup. lia.
  - rewrite (proj2 (list_find_None _ S)); [by exists t'|]. apply Forall_forall. by intros x Hx ->.
  - rewrite (proj2 (list_find_None _ S)); [by exists t'|]. apply Forall_forall. by intros x Hx ->.
Qed.

Fixpoint intern_all (ops : list (list Z * bool)) (t : atom_table) : option (list Z * atom_table) :=
  match ops with
  | [] => Some ([], t)
  | (s, add) :: ops =>
      '(a, t) ← atom_intern t s add;
      '(l, t) ← intern_all ops t;
      Some (a :: l, t)
  end.
Fixpoint ref_all (ops : list (list Z * bool)) (S : list (list Z)) : list Z * list (list Z) :=
  match ops with
  | [] => ([], S)
  | (s, add) :: ops =>
      let '(a, S1) := ref_intern S s add in
      let '(l, S2) := ref_all ops S1 in (a :: l, S2)
  end.

Lemma ref_intern_length S s add : (length (ref_intern S s add).2 <= length S + 1)%nat.
Proof. unfold ref_intern. destruct (list_find _ _) as [[??]|]; [cbn; lia|]. destruct add; cbn; rewrite ?length_app; cbn; lia. Qed.

Lemma intern_all_refines ops t S :
  table_ok t S → Forall (λ op, no_nul op.1) ops → Z.of_nat (length S) + Z.of_nat (length ops) + 2 < 2 ^ 32 →
  ∃ t', intern_all ops t = Some ((ref_all ops S).1, t') ∧ table_ok t' (ref_all ops S).2.
Proof.
  revert t S. induction ops as [|[s add] ops IH]; intros t S Hok Hops H32; [by exists t|].
  apply Forall_cons in Hops as [Hs Hops]. cbn [intern_all ref_all length] in *.
  destruct (intern_refines t S s add Hok Hs) as (t1&->&Hok1); [lia|]. cbn [mbind option_bind].
  pose proof (ref_intern_length S s add) as Hl. destruct (ref_intern S s add) as [a S1]. cbn [fst snd] in *.
  destruct (IH t1 S1 Hok1 Hops) as (t2&->&Hok2); [lia|]. cbn [mbind option_bind].
  destruct (ref_all ops S1) as [l S2]. cbn. by exists t2.
Qed.

(** C20: the atom table is a list of distinct strings: any sequence of interning
    and looking up strings without null bytes terminates, finds a free slot,
    and gives the atoms that searching the list and appending to it would
    give, also across the growth of the hash index; and the text of an atom is
    the string it was made for. *)
Theorem atoms_refine_list ops :
  Forall (λ op, no_nul op.1) ops → Z.of_nat (length ops) + 2 < 2 ^ 32 →
  ∃ t, intern_all ops atom_table_new = Some ((ref_all ops []).1, t) ∧
    (∀ j s, (ref_all ops []).2 !! j = Some s → atom_text t (Z.of_nat j + 1) = Some (Some s)) ∧
    NoDup (ref_all ops []).2.
Proof.
  intros Hops H32. destruct (intern_all_refines ops atom_table_new [] table_new_ok Hops) as (t&->&Hok); [cbn; lia|].
  exists t. split_and!; [done| |apply (tb_nodup _ _ Hok)]. intros j s Hj. unfold atom_text.
  rewrite (proj2 (Z.leb_le _ _)), (tb_strings _ _ Hok) by lia.
  replace (Z.to_nat (Z.of_nat j + 1)) with (Datatypes.S j) by lia. by rewrite strings_lookup, Hj.
Qed.

(** Five strings, one of them twice, and one that is not there. *)
Definition demo_ops : list (list Z * bool) :=
  [([83; 104], true); ([76], true); ([67], true); ([83; 104], true); ([77; 49], true); ([77; 50], true); ([88], false)].

Lemma atoms_refine_list_witness :
  ∃ t, intern_all demo_ops atom_table_new = Some ([1; 2; 3; 1; 4; 5; 0], t) ∧
    (∀ j s, (ref_all demo_ops []).2 !! j = Some s → atom_text t (Z.of_nat j + 1) = Some (Some s)) ∧
    NoDup (ref_all demo_ops []).2.
Proof.
  apply (atoms_refine_list demo_ops).
  - repeat constructor; done.
  - cbn. lia.
Defined.
