(* ===== verification/XkbUtf8.v ===== *)
(** * UTF-8 in libxkbcommon

    Models libxkbcommon/build/src/utf8.c: the conversion of a code point to
    UTF-8 and the validation of a byte string.  The theorems relate the two:
    the conversion is exact, and the validator accepts exactly the
    concatenations of converted code points. *)

From S2P Require Import Prelude.
Open Scope Z_scope.

(** ** The code *)

(** The loop that writes the bytes after the first, last one first. *)
Fixpoint tail_loop (count : nat) (unichar shift : Z) (tail : list Z) : Z * list Z :=
  match count with
  | O => (shift, tail)
  | S count =>
      tail_loop count unichar (shift + 6)
        (Z.lor 0x80 (Z.land (Z.shiftr unichar shift) 0x3f) :: tail)
  end.

(** The result and the bytes written to the buffer, the null included. *)
Definition utf32_to_utf8 (unichar : Z) : Z * list Z :=
  let encode length head :=
    let '(shift, tail) := tail_loop (Nat.pred length) unichar 0 [] in
    (Z.of_nat length + 1,
     Z.lor head (Z.land (Z.shiftr unichar shift) 0x3f) :: tail ++ [0]) in
  if unichar <=? 0x7f then (2, [unichar; 0])
  else if unichar <=? 0x7ff then encode 2%nat 0xc0
  else if (0xd800 <=? unichar) && (unichar <=? 0xdfff) then (0, [0])
  else if unichar <=? 0xffff then encode 3%nat 0xe0
  else if unichar <=? 0x10ffff then encode 4%nat 0xf0
  else (0, [0]).

Definition between (lo hi b : Z) : bool := (lo <=? b) && (b <=? hi).

(** What a first byte asks for: the range of the byte after it, where it is
    not any continuation byte, and the number of continuation bytes. *)
Definition lead_byte (b : Z) : option (option (Z * Z) * nat) :=
  if b <=? 0x7f then Some (None, 0%nat)
  else if between 0xc2 0xdf b then Some (None, 1%nat)
  else if b =? 0xe0 then Some (Some (0xa0, 0xbf), 1%nat)
  else if between 0xe1 0xec b then Some (None, 2%nat)
  else if b =? 0xed then Some (Some (0x80, 0x9f), 1%nat)
  else if between 0xee 0xef b then Some (None, 2%nat)
  else if b =? 0xf0 then Some (Some (0x90, 0xbf), 2%nat)
  else if between 0xf1 0xf3 b then Some (None, 3%nat)
  else if b =? 0xf4 then Some (Some (0x80, 0x8f), 2%nat)
  else None.

(** The inner [while] loop: continuation bytes are skipped. *)
Fixpoint skip_tail (tail_bytes : nat) (s : list Z) : nat * list Z :=
  match tail_bytes, s with
  | S n, c :: s' => if between 0x80 0xbf c then skip_tail n s' else (tail_bytes, s)
  | _, _ => (tail_bytes, s)
  end.

Fixpoint valid_loop (fuel : nat) (s : list Z) : option bool :=
  match fuel with
  | O => None
  | S fuel =>
      match s with
      | [] => Some true
      | b :: s =>
          match lead_byte b with
          | None => Some false
          | Some (second, tail_bytes) =>
              let rest (s : list Z) :=
                let '(tail_bytes, s) := skip_tail tail_bytes s in
                if negb (Nat.eqb tail_bytes 0) then Some false else valid_loop fuel s in
              match second with
              | None => rest s
              | Some (lo, hi) =>
                  match s with
                  | [] => Some false
                  | c :: s => if between lo hi c then rest s else Some false
                  end
              end
          end
      end
  end.

(** [ss] and [len] are the bytes to check. *)
Definition is_valid_utf8 (s : list Z) : option bool := valid_loop (S (length s)) s.

(** ** The encoding in closed form *)

(** The code points that can be encoded. *)
Definition scalar (cp : Z) : Prop := 0 <= cp <= 0x10ffff ∧ ¬ (0xd800 <= cp <= 0xdfff).

Definition encode (cp : Z) : list Z :=
  if cp <=? 0x7f then [cp]
  else if cp <=? 0x7ff then [0xc0 + cp / 64; 0x80 + cp mod 64]
  else if cp <=? 0xffff then [0xe0 + cp / 4096; 0x80 + cp / 64 mod 64; 0x80 + cp mod 64]
  else [0xf0 + cp / 262144; 0x80 + cp / 4096 mod 64; 0x80 + cp / 64 mod 64; 0x80 + cp mod 64].

Lemma cont_byte x : Z.lor 0x80 (Z.land x 0x3f) = 0x80 + x mod 64.
Proof.
  change 0x3f with (Z.ones 6). rewrite Z.land_ones by lia. apply (lor_low _ _ 6); [done|].
  apply Z.mod_pos_bound. lia.
Qed.

Lemma head_byte head x k :
  0 <= k <= 6 → head mod 2 ^ k = 0 → 0 <= x < 2 ^ k → Z.lor head (Z.land x 0x3f) = head + x.
Proof.
  intros Hk Hh Hx. assert (2 ^ k <= 2 ^ 6) by (apply Z.pow_le_mono_r; lia).
  change 0x3f with (Z.ones 6). rewrite Z.land_ones, Z.mod_small by lia. by apply (lor_low _ _ k).
Qed.

Lemma utf32_to_utf8_spec cp :
  0 <= cp →
  utf32_to_utf8 cp = if decide (scalar cp) then (Z.of_nat (length (encode cp)) + 1, encode cp ++ [0]) else (0, [0]).
Proof.
  intros H0. unfold utf32_to_utf8, encode, scalar. cbn [tail_loop Nat.pred Z.add].
  rewrite !cont_byte, !Z.shiftr_div_pow2 by lia.
  change (2 ^ (6 + 6 + 6)) with 262144. change (2 ^ (6 + 6)) with 4096. change (2 ^ 6) with 64. change (2 ^ 0) with 1.
  rewrite Z.div_1_r.
  destruct (Z.leb_spec cp 0x7f); [rewrite decide_True by lia; done|].
  destruct (Z.leb_spec cp 0x7ff).
  { rewrite decide_True by lia. rewrite (head_byte _ _ 5) by (done || mlia). done. }
  destruct ((0xd800 <=? cp) && (cp <=? 0xdfff)) eqn:Hsur; zbool; [rewrite decide_False by lia; done| |];
  (destruct (Z.leb_spec cp 0xffff);
   [rewrite decide_True by lia; rewrite (head_byte _ _ 4) by (done || mlia); done|]);
  (destruct (Z.leb_spec cp 0x10ffff);
   [rewrite decide_True by lia; rewrite (head_byte _ _ 3) by (done || mlia); done|rewrite decide_False by lia; done]).
Qed.

(** ** The validator *)

Definition cont (c : Z) : Prop := 0x80 <= c <= 0xbf.

Lemma between_spec lo hi b : between lo hi b = true ↔ lo <= b <= hi.
Proof. unfold between. rewrite andb_true_iff, !Z.leb_le. done. Qed.

(** A well-formed sequence: its first byte, the range of the second byte and
    the number of bytes after those. *)
Inductive lead_spec : Z → option (Z * Z) → nat → Prop :=
  | lead_1 b : b <= 0x7f → lead_spec b None 0
  | lead_2 b : 0xc2 <= b <= 0xdf → lead_spec b None 1
  | lead_3a : lead_spec 0xe0 (Some (0xa0, 0xbf)) 1
  | lead_3b b : 0xe1 <= b <= 0xec ∨ 0xee <= b <= 0xef → lead_spec b None 2
  | lead_3c : lead_spec 0xed (Some (0x80, 0x9f)) 1
  | lead_4a : lead_spec 0xf0 (Some (0x90, 0xbf)) 2
  | lead_4b b : 0xf1 <= b <= 0xf3 → lead_spec b None 3
  | lead_4c : lead_spec 0xf4 (Some (0x80, 0x8f)) 2.

Lemma lead_byte_spec b second n : lead_byte b = Some (second, n) ↔ lead_spec b second n.
Proof.
  split.
  - unfold lead_byte, between. intros H. repeat case_match; zbool; simplify_eq; try (constructor; lia).
  - unfold lead_byte, between. intros []; repeat case_match; zbool; try done; try lia.
Qed.

Lemma skip_tail_full t s : Forall cont t → skip_tail (length t) (t ++ s) = (0%nat, s).
Proof.
  induction 1 as [|c t Hc Ht IH]; [by destruct s|]. cbn.
  by rewrite (proj2 (between_spec _ _ _) Hc).
Qed.

Lemma skip_tail_inv n s s' : skip_tail n s = (0%nat, s') → ∃ t, s = t ++ s' ∧ length t = n ∧ Forall cont t.
Proof.
  revert s. induction n as [|n IH]; intros s; [intros [= <-]; by exists []|].
  destruct s as [|c s]; [done|]. cbn. destruct (between 0x80 0xbf c) eqn:Hc; [|done].
  intros (t&->&Hl&Ht)%IH. apply between_spec in Hc. exists (c :: t). cbn. split_and!; [done|lia|by constructor].
Qed.

(** One round of the loop on a well-formed sequence. *)
Lemma valid_round fuel b second t s :
  lead_spec b second (match second with None => length t | Some _ => Nat.pred (length t) end) →
  match second with None => Forall cont t
  | Some (lo, hi) => ∃ c t', t = c :: t' ∧ lo <= c <= hi ∧ Forall cont t' end →
  valid_loop (S fuel) ((b :: t) ++ s) = valid_loop fuel s.
Proof.
  intros Hl Ht. cbn [app valid_loop]. rewrite (proj2 (lead_byte_spec _ _ _) Hl). destruct second as [[lo hi]|].
  - destruct Ht as (c&t'&->&Hc&Ht'). cbn [app length Nat.pred]. rewrite (proj2 (between_spec _ _ _) Hc).
    by rewrite skip_tail_full.
  - by rewrite skip_tail_full.
Qed.

Lemma cont_mod x : cont (0x80 + x mod 64).
Proof. unfold cont. pose proof (Z.mod_pos_bound x 64). lia. Qed.
#[local] Hint Resolve cont_mod : core.

Lemma valid_encode fuel cp s : scalar cp → valid_loop (S fuel) (encode cp ++ s) = valid_loop fuel s.
Proof.
  intros [Hr Hs]. unfold encode.
  destruct (Z.leb_spec cp 0x7f); [apply (valid_round _ _ None); [constructor; lia|done]|].
  destruct (Z.leb_spec cp 0x7ff); [apply (valid_round _ _ None); [constructor; mlia|auto]|].
  destruct (Z.leb_spec cp 0xffff).
  - destruct (decide (cp / 4096 = 0)) as [E|]; [|destruct (decide (cp / 4096 = 13)) as [E|]].
    + rewrite E. apply (valid_round _ _ (Some (0xa0, 0xbf))); [constructor|]. eexists _, _. split_and!; [done|mlia|mlia|auto].
    + rewrite E. apply (valid_round _ _ (Some (0x80, 0x9f))); [constructor|]. eexists _, _. split_and!; [done|mlia|mlia|auto].
    + apply (valid_round _ _ None); [constructor; mlia|auto].
  - destruct (decide (cp / 262144 = 0)) as [E|]; [|destruct (decide (cp / 262144 = 4)) as [E|]].
    + rewrite E. apply (valid_round _ _ (Some (0x90, 0xbf))); [constructor|]. eexists _, _. split_and!; [done|mlia|mlia|auto].
    + rewrite E. apply (valid_round _ _ (Some (0x80, 0x8f))); [constructor|]. eexists _, _. split_and!; [done|mlia|mlia|auto].
    + apply (valid_round _ _ None); [constructor; mlia|auto].
Qed.

(** Every well-formed sequence encodes a code point. *)
Lemma encode_2 b c : 0xc2 <= b <= 0xdf → cont c → ∃ cp, scalar cp ∧ encode cp = [b; c].
Proof.
  unfold cont. intros Hb Hc. exists ((b - 0xc0) * 64 + (c - 0x80)). split; [unfold scalar; lia|].
  unfold encode. rewrite (proj2 (Z.leb_gt _ 0x7f)), (proj2 (Z.leb_le _ 0x7ff)) by lia. repeat f_equal; mlia.
Qed.

Lemma encode_3 b c d :
  0xe0 <= b <= 0xef → cont c → cont d → (b = 0xe0 → 0xa0 <= c) → (b = 0xed → c <= 0x9f) →
  ∃ cp, scalar cp ∧ encode cp = [b; c; d].
Proof.
  unfold cont. intros Hb Hc Hd H1 H2. exists ((b - 0xe0) * 4096 + (c - 0x80) * 64 + (d - 0x80)).
  split; [unfold scalar; lia|]. unfold encode.
  rewrite (proj2 (Z.leb_gt _ 0x7f)), (proj2 (Z.leb_gt _ 0x7ff)), (proj2 (Z.leb_le _ 0xffff)) by lia.
  repeat f_equal; mlia.
Qed.

Lemma encode_4 b c d e :
  0xf0 <= b <= 0xf4 → cont c → cont d → cont e → (b = 0xf0 → 0x90 <= c) → (b = 0xf4 → c <= 0x8f) →
  ∃ cp, scalar cp ∧ encode cp = [b; c; d; e].
Proof.
  unfold cont. intros Hb Hc Hd He H1 H2.
  exists ((b - 0xf0) * 262144 + (c - 0x80) * 4096 + (d - 0x80) * 64 + (e - 0x80)).
  split; [unfold scalar; lia|]. unfold encode.
  rewrite (proj2 (Z.leb_gt _ 0x7f)), (proj2 (Z.leb_gt _ 0x7ff)), (proj2 (Z.leb_gt _ 0xffff)) by lia.
  repeat f_equal; mlia.
Qed.

Ltac cont_list :=
  repeat match goal with
  | H : length ?t = _ |- _ => destruct t; cbn in H; simplify_eq
  | H : _ = length ?t |- _ => destruct t; cbn in H; simplify_eq
  | H : Forall cont (_ :: _) |- _ => apply Forall_cons in H as [? H]
  end.

Lemma sequence_encodes b second t :
  0 <= b → lead_spec b second (match second with None => length t | Some _ => Nat.pred (length t) end) →
  match second with None => Forall cont t
  | Some (lo, hi) => ∃ c t', t = c :: t' ∧ lo <= c <= hi ∧ Forall cont t' end →
  ∃ cp, scalar cp ∧ encode cp = b :: t.
Proof.
  intros Hb Hl Ht. destruct second as [[lo hi]|].
  - destruct Ht as (c&t'&->&Hc&Ht'). cbn [length Nat.pred] in Hl. inversion Hl; subst; cont_list.
    + apply encode_3; unfold cont in *; lia || done.
    + apply encode_3; unfold cont in *; lia || done.
    + apply encode_4; unfold cont in *; lia || done.
    + apply encode_4; unfold cont in *; lia || done.
  - inversion Hl; subst.
    + destruct t; [|done]. exists b. split; [unfold scalar; lia|]. unfold encode. by rewrite (proj2 (Z.leb_le _ _)).
    + cont_list. by apply encode_2.
    + cont_list. apply encode_3; try done; lia.
    + cont_list. apply encode_4; try done; lia.
Qed.

Lemma valid_sound fuel s :
  Forall (λ b, 0 <= b) s → valid_loop fuel s = Some true →
  ∃ cps, Forall scalar cps ∧ s = concat (map encode cps).
Proof.
  revert s. induction fuel as [|fuel IH]; intros s Hs; [done|]. destruct s as [|b s]; [by exists []|].
  cbn [valid_loop]. destruct (lead_byte b) as [[second n]|] eqn:Hl; [|done]. apply lead_byte_spec in Hl.
  apply Forall_cons in Hs as [Hb Hs].
  assert (Hfin : ∀ t s', s = t ++ s' → (∃ cp, scalar cp ∧ encode cp = b :: t) → valid_loop fuel s' = Some true →
    ∃ cps, Forall scalar cps ∧ b :: s = concat (map encode cps)).
  { intros t s' -> (cp&Hcp&E) Hv. apply Forall_app in Hs as [_ Hs']. destruct (IH s' Hs' Hv) as (cps&Hcps&->).
    exists (cp :: cps). split; [by constructor|]. cbn. by rewrite E. }
  destruct second as [[lo hi]|].
  - destruct s as [|c s]; [done|]. destruct (between lo hi c) eqn:Hc; [|done]. apply between_spec in Hc.
    destruct (skip_tail n s) as [[|] s'] eqn:Hsk; [|done]. cbn [negb Nat.eqb]. intros Hv.
    apply skip_tail_inv in Hsk as (t&->&<-&Ht). apply (Hfin (c :: t) s'); [done| |done].
    apply (sequence_encodes b (Some (lo, hi))); [done|done|by eexists _, _].
  - destruct (skip_tail n s) as [[|] s'] eqn:Hsk; [|done]. cbn [negb Nat.eqb]. intros Hv.
    apply skip_tail_inv in Hsk as (t&->&<-&Ht). apply (Hfin t s'); [done| |done].
    by apply (sequence_encodes b None).
Qed.

Lemma encode_length cp : (1 <= length (encode cp) <= 4)%nat.
Proof. unfold encode. repeat case_match; cbn; lia. Qed.

Lemma valid_complete cps fuel :
  Forall scalar cps → (length cps < fuel)%nat → valid_loop fuel (concat (map encode cps)) = Some true.
Proof.
  intros Hcps. revert fuel. induction Hcps as [|cp cps Hcp Hcps IH]; intros fuel Hf; (destruct fuel as [|fuel]; [cbn in Hf; lia|]); [done|].
  cbn [map concat]. rewrite valid_encode by done. apply IH. cbn in Hf. lia.
Qed.

Lemma concat_encode_length cps : (length cps <= length (concat (map encode cps)))%nat.
Proof. induction cps as [|cp cps IH]; [done|]. cbn. rewrite length_app. pose proof (encode_length cp). lia. Qed.

Lemma skip_tail_length n s : (length (skip_tail n s).2 <= length s)%nat.
Proof.
  revert s. induction n as [|n IH]; intros s; [done|]. destruct s as [|c s]; [done|]. cbn.
  case_match; [|done]. specialize (IH s). lia.
Qed.

Lemma valid_total fuel s : (length s < fuel)%nat → is_Some (valid_loop fuel s).
Proof.
  revert s. induction fuel as [|fuel IH]; intros s Hf; [lia|]. destruct s as [|b s]; [by eexists|]. cbn [valid_loop].
  assert (Hr : ∀ n s', (length s' <= length s)%nat → is_Some (let '(tail_bytes, s0) := skip_tail n s' in
            if negb (Nat.eqb tail_bytes 0) then Some false else valid_loop fuel s0)).
  { intros n s' Hs'. pose proof (skip_tail_length n s') as Hl. destruct (skip_tail n s') as [m s'']. cbn in Hl.
    case_match; [by eexists|]. apply IH. cbn in Hf. lia. }
  destruct (lead_byte b) as [[[[lo hi]|] n]|]; [|by apply Hr|by eexists].
  destruct s as [|c s]; [by eexists|]. case_match; [|by eexists]. apply Hr. cbn. lia.
Qed.

(** ** The properties *)

(** [bs] is what the conversion of [cp] writes before the null. *)
Definition converts (cp : Z) (bs : list Z) : Prop :=
  0 <= cp ∧ utf32_to_utf8 cp = (Z.of_nat (length bs) + 1, bs ++ [0]).

Lemma converts_encode cp bs : converts cp bs ↔ scalar cp ∧ bs = encode cp.
Proof.
  unfold converts. split.
  - intros [H0 E]. rewrite utf32_to_utf8_spec in E by done. case_decide; [|injection E; lia].
    split; [done|]. injection E as _ E. by apply app_inj_tail in E as [-> _].
  - intros [Hs ->]. split; [apply Hs|]. rewrite utf32_to_utf8_spec by apply Hs. by rewrite decide_True.
Qed.

(** C31: [is_valid_utf8] always answers, and it accepts a byte string exactly
    when the string is a concatenation of what [utf32_to_utf8] writes for code
    points; [utf32_to_utf8] converts every code point up to 0x10FFFF that is
    not a surrogate and refuses everything else. *)
Theorem utf8_valid_iff_encoded s :
  Forall (λ b, 0 <= b <= 255) s →
  is_Some (is_valid_utf8 s) ∧
  (is_valid_utf8 s = Some true ↔
     ∃ l, Forall (λ p, converts p.1 p.2) l ∧ s = concat (map snd l)) ∧
  (∀ cp, 0 <= cp → (∃ bs, converts cp bs) ↔ cp <= 0x10ffff ∧ ¬ (0xd800 <= cp <= 0xdfff)) ∧
  (∀ cp, 0 <= cp → (¬ ∃ bs, converts cp bs) → utf32_to_utf8 cp = (0, [0])).
Proof.
  intros Hs. assert (Hs' : Forall (λ b, 0 <= b) s) by (eapply Forall_impl; [done|]; cbn; lia). split_and!.
  - apply valid_total. lia.
  - split.
    + intros (cps&Hcps&->)%valid_sound; [|done]. exists (map (λ cp, (cp, encode cp)) cps).
      rewrite Forall_map, map_map. split; [|done]. eapply Forall_impl; [done|]. intros cp Hcp. by apply converts_encode.
    + intros (l&Hl&->). unfold is_valid_utf8.
      assert (map snd l = map encode (map fst l) ∧ Forall scalar (map fst l)) as [-> Hsc].
      { clear Hs Hs'. induction Hl as [|[cp bs] l [? E]%converts_encode Hl [IH1 IH2]]; [done|]. cbn in *.
        split; [by rewrite E, IH1|by constructor]. }
      apply valid_complete; [done|]. pose proof (concat_encode_length (map fst l)). lia.
  - intros cp H0. split.
    + intros (bs&[[? ?] _]%converts_encode). lia.
    + intros ?. exists (encode cp). apply converts_encode. unfold scalar. split; [lia|done].
  - intros cp H0 Hn. rewrite utf32_to_utf8_spec by done. rewrite decide_False; [done|].
    intros Hsc. apply Hn. exists (encode cp). by apply converts_encode.
Qed.

(** The euro sign, an a, and a byte that does not fit. *)
Lemma utf8_valid_iff_encoded_witness (s := [0xe2; 0x82; 0xac; 0x61]) :
  is_Some (is_valid_utf8 s) ∧
  (is_valid_utf8 s = Some true ↔
     ∃ l, Forall (λ p, converts p.1 p.2) l ∧ s = concat (map snd l)) ∧
  (∀ cp, 0 <= cp → (∃ bs, converts cp bs) ↔ cp <= 0x10ffff ∧ ¬ (0xd800 <= cp <= 0xdfff)) ∧
  (∀ cp, 0 <= cp → (¬ ∃ bs, converts cp bs) → utf32_to_utf8 cp = (0, [0])).
Proof. apply (utf8_valid_iff_encoded s). repeat constructor; lia. Defined.
