(* ===== verification/XkbKeysym.v ===== *)
(** * Names of keysyms

    Models libxkbcommon/build/src/keysym.c except the case conversion: the
    name of a keysym, the keysym of a name with its perfect hash and its
    case-insensitive search, and the iterator over keysyms; with the string
    comparisons of utils.c it uses.  The tables are those of ks_tables.h.
    Strings are lists of character codes without the null. *)

From Stdlib Require Import String.
From S2P Require Import Prelude Decimal XkbKeysymTables.
Open Scope Z_scope.

(** ** The code *)

Definition XKB_KEYSYM_MAX : Z := 0x1fffffff.
Definition XKB_KEYSYM_MAX_EXPLICIT : Z := 0x1008ffb8.
Definition XKB_KEYSYM_UNICODE_OFFSET : Z := 0x01000000.
Definition XKB_KEYSYM_UNICODE_MIN : Z := 0x01000100.
Definition XKB_KEYSYM_UNICODE_MAX : Z := 0x0110ffff.
Definition XKB_KEYSYM_NAME_MAX_SIZE : Z := 27.
Definition XKB_KEY_NoSymbol : Z := 0.
Definition XKB_KEYSYM_CASE_INSENSITIVE : Z := 1.

(** A [char] is signed. *)
Definition schar (c : Z) : Z := if c <? 128 then c else c - 256.

(** [lower_map] of utils.c is the identity but for the ASCII capitals. *)
Definition to_lower (c : Z) : Z := if (65 <=? c) && (c <=? 90) then c + 32 else c.

(** The null ends a string: it is the character after the last one. *)
Fixpoint istrcmp (a b : list Z) : Z :=
  let c := to_lower (default 0 (head a)) in
  let d := to_lower (default 0 (head b)) in
  if negb (c =? d) then schar c - schar d
  else match a with [] => 0 | _ :: a => istrcmp a (tail b) end.

Fixpoint istrncmp (a b : list Z) (n : nat) : Z :=
  match n with
  | O => 0
  | S n =>
      let c := to_lower (default 0 (head a)) in
      let d := to_lower (default 0 (head b)) in
      if negb (c =? d) then schar c - schar d
      else match a with [] => 0 | _ :: a => istrncmp a (tail b) n end
  end.

(** The array of characters, and the string that starts at an offset. *)
Definition keysym_names : list Z := concat (map (λ s, chars s ++ [0]) keysym_name_list).

Fixpoint cstring (l : list Z) : list Z :=
  match l with
  | [] => []
  | c :: l => if c =? 0 then [] else c :: cstring l
  end.

Definition get_name (entry : Z * Z) : list Z := cstring (drop (Z.to_nat entry.2) keysym_names).

(** The bisection of [find_keysym_index] and of [xkb_keysym_from_name]: the
    sign of [cmp] says where to go on; -1 is returned when nothing is found. *)
Fixpoint bisect (fuel : nat) (cmp : Z → option Z) (lo hi : Z) : option Z :=
  if lo <=? hi then
    match fuel with
    | O => None
    | S fuel =>
        let mid := (lo + hi) / 2 in
        c ← cmp mid;
        if 0 <? c then bisect fuel cmp (mid + 1) hi
        else if c <? 0 then bisect fuel cmp lo (mid - 1)
        else Some mid
    end
  else Some (-1).

(** An element of an array; [None] is an access out of bounds. *)
Definition elem {A} (l : list A) (i : Z) : option A := if i <? 0 then None else l !! Z.to_nat i.

Definition find_keysym_index (ks : Z) : option Z :=
  if XKB_KEYSYM_MAX_EXPLICIT <? ks then Some (-1)
  else
    bisect (length keysym_to_name) (λ mid, e ← elem keysym_to_name mid; Some (ks - e.1))
      0 (Z.of_nat (length keysym_to_name) - 1).

(** [snprintf] returns the length of the text and writes what fits. *)
Definition snprintf (size : Z) (text : list Z) : Z * list Z :=
  (Z.of_nat (length text), if size <=? 0 then [] else take (Z.to_nat (size - 1)) text ++ [0]).

Definition get_unicode_name (ks size : Z) : Z * list Z :=
  let width := if Z.land ks 0xff0000 =? 0 then 4%nat else 8%nat in
  snprintf size (85 :: fmt_pad 48 width (fmt_X (Z.land ks 0xffffff))).

(** The result and the contents of the buffer. *)
Definition xkb_keysym_get_name (ks size : Z) : option (Z * list Z) :=
  if XKB_KEYSYM_MAX <? ks then Some (-1, (snprintf size (chars "Invalid")).2)
  else
    index ← find_keysym_index ks;
    if negb (index =? -1) then e ← elem keysym_to_name index; Some (snprintf size (get_name e))
    else if (XKB_KEYSYM_UNICODE_MIN <=? ks) && (ks <=? XKB_KEYSYM_UNICODE_MAX) then Some (get_unicode_name ks size)
    else Some (snprintf size (chars "0x" ++ fmt_pad 48 8 (fmt_x ks))).

Definition xkb_keysym_is_assigned (ks : Z) : option bool :=
  if (XKB_KEYSYM_UNICODE_MIN <=? ks) && (ks <=? XKB_KEYSYM_UNICODE_MAX) then Some true
  else index ← find_keysym_index ks; Some (negb (index =? -1)).

Definition hex_value (c : Z) : option Z :=
  if (48 <=? c) && (c <=? 57) then Some (c - 48)
  else if (97 <=? c) && (c <=? 102) then Some (10 + c - 97)
  else if (65 <=? c) && (c <=? 70) then Some (10 + c - 65)
  else None.

Fixpoint parse_loop (i : nat) (result : Z) (s : list Z) : option Z :=
  match s with
  | [] => if Nat.eqb i 0 then None else Some result
  | c :: s =>
      if Nat.ltb i 8 then d ← hex_value c; parse_loop (S i) (u32 (u32 (Z.shiftl result 4) + d)) s
      else None
  end.

(** [None] is the result false. *)
Definition parse_keysym_hex (s : list Z) : option Z := parse_loop 0 0 s.

Fixpoint keysym_hash_loop (i : nat) (sum : Z) (key T : list Z) : option Z :=
  match key with
  | [] => Some (sum mod 4622)
  | c :: key => t ← T !! (i mod 32)%nat; keysym_hash_loop (S i) (u64 (sum + t * schar c)) key T
  end.

Definition keysym_name_hash_f (key : list Z) (T : list Z) : option Z := keysym_hash_loop 0 0 key T.

Definition hash_T1 : list Z := chars "5XIszGSHrUVRAzLN0l8MLLfHRGGeJyyt".
Definition hash_T2 : list Z := chars "OmXqMt6YLQmWcqQWNXDALosGVTbkNhjb".

Definition keysym_name_perfect_hash (key : list Z) : option Z :=
  h1 ← keysym_name_hash_f key hash_T1;
  g1 ← elem keysym_name_G h1;
  h2 ← keysym_name_hash_f key hash_T2;
  g2 ← elem keysym_name_G h2;
  Some ((g1 + g2) mod 4622).

(** The loop over the entries that match case-insensitively: the last one. *)
Fixpoint last_match (fuel : nat) (i : Z) : option Z :=
  if i <? Z.of_nat (length name_to_keysym) - 1 then
    match fuel with
    | O => None
    | S fuel =>
        e ← elem name_to_keysym i;
        e1 ← elem name_to_keysym (i + 1);
        if istrcmp (get_name e1) (get_name e) =? 0 then last_match fuel (i + 1) else Some i
    end
  else Some i.

(** The keysym a table has for the name, if any. *)
Definition lookup_name (name : list Z) (icase : bool) : option (option Z) :=
  if negb icase then
    pos ← keysym_name_perfect_hash name;
    if pos <? Z.of_nat (length name_to_keysym) then
      e ← elem name_to_keysym pos;
      Some (if bool_decide (name = get_name e) then Some e.1 else None)
    else Some None
  else
    mid ← bisect (length name_to_keysym) (λ mid, e ← elem name_to_keysym mid; Some (istrcmp name (get_name e)))
            0 (Z.of_nat (length name_to_keysym) - 1);
    if mid =? -1 then Some None
    else
      i ← last_match (length name_to_keysym) mid;
      e ← elem name_to_keysym i;
      Some (Some e.1).

Definition has_prefix (p name : list Z) : bool := bool_decide (take (length p) name = p).

(** A name of one of the two numeric forms; [None] when it is of neither. *)
Definition numeric_name (name : list Z) (icase : bool) : option Z :=
  match name with
  | 85 :: s => Some s
  | 117 :: s => if icase then Some s else None
  | _ => None
  end ≫= (λ s,
    Some match parse_keysym_hex s with
         | None => XKB_KEY_NoSymbol
         | Some val =>
             if (val <? 0x20) || ((0x7e <? val) && (val <? 0xa0)) then XKB_KEY_NoSymbol
             else if val <? 0x100 then val
             else if 0x10ffff <? val then XKB_KEY_NoSymbol
             else Z.lor val XKB_KEYSYM_UNICODE_OFFSET
         end).

Definition hex_name (name : list Z) (icase : bool) : option Z :=
  match name with
  | 48 :: 120 :: s => Some s
  | 48 :: 88 :: s => if icase then Some s else None
  | _ => None
  end ≫= (λ s,
    Some match parse_keysym_hex s with
         | None => XKB_KEY_NoSymbol
         | Some val => if XKB_KEYSYM_MAX <? val then XKB_KEY_NoSymbol else val
         end).

(** [mem] says whether [strdup] finds memory. *)
Fixpoint from_name_loop (fuel : nat) (mem : bool) (name : list Z) (icase : bool) : option Z :=
  match fuel with
  | O => None
  | S fuel =>
      o ← lookup_name name icase;
      match o with
      | Some ks => Some ks
      | None =>
          match numeric_name name icase with
          | Some ks => Some ks
          | None =>
              match hex_name name icase with
              | Some ks => Some ks
              | None =>
                  if has_prefix (chars "XF86_") name || (icase && (istrncmp name (chars "XF86_") 5 =? 0)) then
                    if mem then from_name_loop fuel mem (take 4 name ++ drop 5 name) icase else Some XKB_KEY_NoSymbol
                  else Some XKB_KEY_NoSymbol
              end
          end
      end
  end.

Definition xkb_keysym_from_name (mem : bool) (name : list Z) (flags : Z) : option Z :=
  let icase := negb (Z.land flags XKB_KEYSYM_CASE_INSENSITIVE =? 0) in
  if negb (Z.land flags (Z.lnot XKB_KEYSYM_CASE_INSENSITIVE) =? 0) then Some XKB_KEY_NoSymbol
  else from_name_loop (S (length name)) mem name icase.

(** ** Classes of keysyms *)

Definition xkb_keysym_is_keypad (ks : Z) : bool := (0xff80 <=? ks) && (ks <=? 0xffbd).

Definition xkb_keysym_is_modifier (ks : Z) : bool :=
  (0xffe1 <=? ks) && (ks <=? 0xffee) || (0xfe01 <=? ks) && (ks <=? 0xfe13) || (ks =? 0xff7e) || (ks =? 0xff7f).

(** ** The iterator *)

Record xkb_keysym_iterator : Type := mk_iter { it_explicit : bool; it_index : Z; it_keysym : Z }.

Definition xkb_keysym_iterator_new (explicit : bool) : xkb_keysym_iterator :=
  mk_iter explicit (-1) XKB_KEYSYM_UNICODE_MAX.

Definition xkb_keysym_iterator_get_keysym (it : xkb_keysym_iterator) : Z := it_keysym it.

Definition in_names (index : Z) : bool := (0 <=? index) && (index <? Z.of_nat (length keysym_to_name)).

Definition xkb_keysym_iterator_is_explicitly_named (it : xkb_keysym_iterator) : option bool :=
  if in_names (it_index it) then
    if it_explicit it then Some true
    else e ← elem keysym_to_name (it_index it); Some (it_keysym it =? e.1)
  else Some false.

Definition xkb_keysym_iterator_get_name (it : xkb_keysym_iterator) (size : Z) : option (Z * list Z) :=
  if negb (in_names (it_index it)) then Some (-1, [])
  else
    e ← elem keysym_to_name (it_index it);
    if it_explicit it || (it_keysym it =? e.1) then Some (snprintf size (get_name e))
    else Some (get_unicode_name (it_keysym it) size).

(** [None] is a failed assertion or an access out of bounds. *)
Definition xkb_keysym_iterator_next (it : xkb_keysym_iterator) : option (bool * xkb_keysym_iterator) :=
  let '(mk_iter explicit index ks) := it in
  if Z.of_nat (length keysym_to_name) - 1 <=? index then Some (false, it)
  else
    next ← elem keysym_to_name (index + 1);
    if explicit || (XKB_KEYSYM_UNICODE_MAX <=? ks) || (next.1 <? XKB_KEYSYM_UNICODE_MIN) then
      if explicit || (next.1 <=? XKB_KEYSYM_UNICODE_MIN) || (XKB_KEYSYM_UNICODE_MAX <=? next.1)
      then Some (true, mk_iter explicit (index + 1) next.1) else None
    else
      e ← elem keysym_to_name index;
      let index := if e.1 <=? ks then index + 1 else index in
      Some (true, mk_iter explicit index (if XKB_KEYSYM_UNICODE_MIN <=? ks then ks + 1 else XKB_KEYSYM_UNICODE_MIN)).
