(* ===== verification/XkbKeysymSpec.v ===== *)
(** * Correctness of the keysym names

    What the tables promise, checked by evaluation, and from it the theorems on
    keysym.c: the perfect hash finds exactly the names of the table, printing
    and parsing a keysym are inverse, and the case-insensitive search finds the
    last entry that matches. *)

From Stdlib Require Import String.
From S2P Require Import Prelude Decimal XkbKeysymTables XkbKeysym.
Open Scope Z_scope.

(** ** Arrays *)

Lemma elem_lookup {A} (l : list A) (i : nat) : elem l (Z.of_nat i) = l !! i.
Proof. unfold elem. rewrite (proj2 (Z.ltb_ge _ _)) by lia. by rewrite Nat2Z.id. Qed.

Lemma elem_Some {A} (l : list A) i : 0 <= i < Z.of_nat (length l) → ∃ x, elem l i = Some x.
Proof.
  intros Hi. destruct (lookup_lt_is_Some_2 l (Z.to_nat i)) as [x Hx]; [lia|]. exists x.
  unfold elem. by rewrite (proj2 (Z.ltb_ge _ _)) by lia.
Qed.

Lemma elem_inv {A} (l : list A) i x : elem l i = Some x → 0 <= i < Z.of_nat (length l) ∧ l !! Z.to_nat i = Some x.
Proof.
  unfold elem. case_step; [done|]. zbool. intros Hx. split; [|done]. apply lookup_lt_Some in Hx. lia.
Qed.

(** Adjacent elements in order, and any two. *)
Fixpoint ordered {A} (r : A → A → bool) (l : list A) : bool :=
  match l with
  | x :: ((y :: _) as l) => r x y && ordered r l
  | _ => true
  end.

Lemma ordered_lookup {A} (r : A → A → bool) l i j x y :
  (∀ a b c, r a b = true → r b c = true → r a c = true) →
  ordered r l = true → (i < j)%nat → l !! i = Some x → l !! j = Some y → r x y = true.
Proof.
  intros Htrans. revert i j x. induction l as [|a l IH]; intros i j x Hl Hij Hi Hj; [done|].
  destruct j as [|j]; [lia|]. destruct l as [|b l]; [done|]. cbn [ordered] in Hl. apply andb_true_iff in Hl as [Hab Hl].
  destruct i as [|i]; cbn in Hi, Hj.
  - injection Hi as <-. destruct j as [|j]; [cbn in Hj; congruence|].
    eapply Htrans; [done|]. by apply (IH 0%nat (S j)); [|lia|..].
  - apply (IH i j); [done|lia|done|done].
Qed.

(** ** The bisection *)

Section bisect.
Context (cmp : Z → option Z) (n : Z).
Hypothesis Hdef : ∀ i, 0 <= i < n → ∃ c, cmp i = Some c.
Hypothesis Hmono : ∀ i j c d, 0 <= i → i < j → j < n → cmp i = Some c → cmp j = Some d → (c < 0 → d < 0) ∧ (0 < d → 0 < c).

Lemma bisect_spec fuel lo hi :
  0 <= lo → hi < n → hi - lo + 1 <= Z.of_nat fuel →
  ∃ r, bisect fuel cmp lo hi = Some r ∧
    (lo <= r <= hi ∧ cmp r = Some 0 ∨ r = -1 ∧ ∀ i c, lo <= i <= hi → cmp i = Some c → c ≠ 0).
Proof.
  revert lo hi. induction fuel as [|fuel IH]; intros lo hi Hlo Hhi Hf; cbn [bisect].
  { rewrite (proj2 (Z.leb_gt _ _)) by lia. exists (-1). split; [done|]. right. split; [done|]. intros; lia. }
  destruct (Z.leb_spec lo hi) as [Hle|Hgt]; [|exists (-1); split; [done|]; right; split; [done|]; intros; lia].
  set (mid := (lo + hi) / 2). assert (lo <= mid <= hi) as Hmid by (unfold mid; mlia).
  destruct (Hdef mid) as [c Hc]; [lia|]. rewrite Hc. cbn [mbind option_bind].
  assert (∀ i d, 0 <= i < n → cmp i = Some d → (i < mid → 0 < c → d ≠ 0) ∧ (mid < i → c < 0 → d ≠ 0)) as Hout.
  { intros i d Hi Hd. split; intros H1 H2.
    - destruct (Hmono i mid d c) as [_ H]; [lia..|done|done|]. specialize (H H2). lia.
    - destruct (Hmono mid i c d) as [H _]; [lia..|done|done|]. specialize (H H2). lia. }
  destruct (Z.ltb_spec 0 c); [|destruct (Z.ltb_spec c 0)].
  - destruct (IH (mid + 1) hi) as (r & -> & Hr); [lia..|]. exists r. split; [done|].
    destruct Hr as [[? ?]|[-> Hr]]; [left; split; [lia|done]|right; split; [done|]].
    intros i d Hi Hd. destruct (Z.lt_trichotomy i mid) as [?|[->|?]]; [by apply (proj1 (Hout i d ltac:(lia) Hd))|congruence || (rewrite Hd in Hc; injection Hc; lia)|].
    apply (Hr i); [lia|done].
  - destruct (IH lo (mid - 1)) as (r & -> & Hr); [lia..|]. exists r. split; [done|].
    destruct Hr as [[? ?]|[-> Hr]]; [left; split; [lia|done]|right; split; [done|]].
    intros i d Hi Hd. destruct (Z.lt_trichotomy i mid) as [?|[->|?]]; [apply (Hr i); [lia|done]|rewrite Hd in Hc; injection Hc; lia|].
    by apply (proj2 (Hout i d ltac:(lia) Hd)).
  - exists mid. split; [done|]. left. split; [done|]. by assert (c = 0) as <- by lia.
Qed.
End bisect.

(** ** The tables *)

(** The offset of each name is the length of the ones before it. *)
Fixpoint offsets (o : Z) (names : list string) : list Z :=
  match names with
  | [] => []
  | s :: names => o :: offsets (o + Z.of_nat (length (chars s)) + 1) names
  end.

Definition name_offsets : list Z := offsets 0 keysym_name_list.

Definition named (c : Z) : bool := (0 <? c) && (c <? 128).

(** Names are words of letters, digits and underscores. *)
Definition word_char (c : Z) : bool :=
  ((97 <=? c) && (c <=? 122)) || ((65 <=? c) && (c <=? 90)) || ((48 <=? c) && (c <=? 57)) || (c =? 95).

Lemma chars_words : forallb (λ s, forallb word_char (chars s)) keysym_name_list = true.
Proof. vm_compute. reflexivity. Qed.

Lemma word_named c : word_char c = true → named c = true.
Proof. unfold word_char, named. zbool. lia. Qed.

Lemma table_offsets : map snd name_to_keysym = name_offsets.
Proof. vm_compute. reflexivity. Qed.

Lemma keysyms_ordered : ordered (λ a b, a <? b) (map fst keysym_to_name) = true.
Proof. vm_compute. reflexivity. Qed.

Lemma max_explicit : forallb (λ e, e.1 <=? XKB_KEYSYM_MAX_EXPLICIT) keysym_to_name = true.
Proof. vm_compute. reflexivity. Qed.

(** Arrays as maps, which evaluation looks up fast. *)
Definition array_map {A} (l : list A) : gmap Z A := list_to_map (zip (seqZ 0 (Z.of_nat (length l))) l).

Lemma array_map_lookup {A} (l : list A) i : array_map l !! i = elem l i.
Proof.
  unfold array_map, elem. set (n := Z.of_nat (length l)).
  assert (NoDup (zip (seqZ 0 n) l).*1) as Hnd.
  { rewrite fst_zip by (rewrite length_seqZ; lia). apply NoDup_seqZ. }
  apply option_eq. intros x. rewrite <- elem_of_list_to_map by done. rewrite list_elem_of_lookup.
  setoid_rewrite lookup_zip_with_Some. case_step; zbool.
  - split; [|done]. intros (k & ? & ? & [= -> ->] & Hk & _). apply lookup_seqZ in Hk. lia.
  - split.
    + intros (k & ? & ? & [= -> ->] & Hk & Hx). apply lookup_seqZ in Hk as [-> _]. by rewrite Z.add_0_l, Nat2Z.id.
    + intros Hx. exists (Z.to_nat i), i, x. split; [done|]. split; [|done]. apply lookup_seqZ.
      apply lookup_lt_Some in Hx. lia.
Qed.

(** The hash of a short name, without the wrap-around of the sum. *)
Fixpoint hash_short (sum : Z) (key T : list Z) : Z :=
  match key, T with
  | c :: key, t :: T => hash_short (sum + t * c) key T
  | _, _ => sum mod 4622
  end.

Lemma hash_loop_short key T k sum :
  Forall (λ t, 0 <= t < 128) T → Forall (λ c, named c = true) key → length T = 32%nat → (k + length key <= 32)%nat →
  0 <= sum <= 2 ^ 14 * Z.of_nat k → keysym_hash_loop k sum key T = Some (hash_short sum key (drop k T)).
Proof.
  intros HT Hkey HlT. revert k sum. induction Hkey as [|c key Hc Hkey IH]; intros k sum Hk Hs; cbn [keysym_hash_loop hash_short]; [done|].
  cbn [length] in Hk. rewrite Nat.mod_small by lia.
  destruct (lookup_lt_is_Some_2 T k) as [t Ht]; [lia|]. rewrite Ht, (drop_S T t k) by done. cbn [mbind option_bind].
  assert (0 <= t < 128) by (by eapply Forall_lookup_1 in HT). unfold named in Hc. zbool.
  unfold schar. rewrite (proj2 (Z.ltb_lt _ _)) by lia. rewrite u64_small by nia. apply IH; [lia|nia].
Qed.

Definition hash_with (G : gmap Z Z) (key : list Z) : option Z :=
  g1 ← G !! hash_short 0 key hash_T1;
  g2 ← G !! hash_short 0 key hash_T2;
  Some ((g1 + g2) mod 4622).

Lemma hash_T1_ok : Forall (λ t, 0 <= t < 128) hash_T1 ∧ length hash_T1 = 32%nat.
Proof. apply (bool_decide_unpack _). vm_compute. exact I. Qed.

Lemma hash_T2_ok : Forall (λ t, 0 <= t < 128) hash_T2 ∧ length hash_T2 = 32%nat.
Proof. apply (bool_decide_unpack _). vm_compute. exact I. Qed.

Lemma hash_f_short key T :
  Forall (λ t, 0 <= t < 128) T ∧ length T = 32%nat → Forall (λ c, named c = true) key → (length key <= 32)%nat →
  keysym_name_hash_f key T = Some (hash_short 0 key T).
Proof. intros [HT Hl] Hk Hlen. by apply (hash_loop_short key T 0 0). Qed.

Lemma perfect_hash_with key :
  Forall (λ c, named c = true) key → (length key <= 32)%nat →
  keysym_name_perfect_hash key = hash_with (array_map keysym_name_G) key.
Proof.
  intros Hk Hl. unfold keysym_name_perfect_hash, hash_with.
  rewrite (hash_f_short key hash_T1 hash_T1_ok Hk Hl), (hash_f_short key hash_T2 hash_T2_ok Hk Hl).
  cbn [mbind option_bind]. by rewrite !array_map_lookup.
Qed.

Fixpoint hash_check (G : gmap Z Z) (i : Z) (names : list string) : bool :=
  match names with
  | [] => true
  | s :: names =>
      let key := chars s in
      bool_decide (length key <= 27)%nat && bool_decide (hash_with G key = Some i) && hash_check G (i + 1) names
  end.

Lemma hash_checked : hash_check (array_map keysym_name_G) 0 keysym_name_list = true.
Proof. vm_compute. reflexivity. Qed.

(** The entries of the other table are entries of this one. *)
Definition entries_check (m : gmap Z Z) (tbl : list (Z * Z)) : bool :=
  forallb (λ e, bool_decide (m !! e.2 = Some e.1)) tbl.

Lemma canonical_checked : entries_check (list_to_map (prod_swap <$> name_to_keysym)) keysym_to_name = true.
Proof. vm_compute. reflexivity. Qed.

(** ** The names *)

#[local] Opaque keysym_name_list keysym_name_G name_to_keysym keysym_to_name.

Lemma cstring_app l k : Forall (λ c, named c = true) l → cstring (l ++ 0 :: k) = l.
Proof.
  induction 1 as [|c l Hc Hl IH]; [done|]. cbn [app cstring]. unfold named in Hc. zbool.
  rewrite (proj2 (Z.eqb_neq c 0)) by lia. by rewrite IH.
Qed.

Lemma cstring_offsets names pre o i off s :
  Forall (λ s, Forall (λ c, named c = true) (chars s)) names → o = Z.of_nat (length pre) →
  offsets o names !! i = Some off → names !! i = Some s →
  cstring (drop (Z.to_nat off) (pre ++ concat (map (λ s, chars s ++ [0]) names))) = chars s.
Proof.
  intros Hn. revert pre o i. induction Hn as [|t names Ht Hn IH]; intros pre o i Ho Hoff Hs; [done|].
  cbn [offsets map concat] in *. destruct i as [|i].
  - injection Hoff as <-. injection Hs as ->. rewrite Ho, Nat2Z.id, drop_app_length, <- app_assoc. by apply cstring_app.
  - rewrite <- (IH (pre ++ chars t ++ [0]) (o + Z.of_nat (length (chars t)) + 1) i); [by rewrite <- !app_assoc| |exact Hoff|done].
    rewrite !length_app. cbn. lia.
Qed.

Lemma names_words : Forall (λ s, Forall (λ c, word_char c = true) (chars s)) keysym_name_list.
Proof.
  apply Forall_forall. intros s Hs. apply Forall_forall. intros c Hc.
  pose proof chars_words as H. rewrite forallb_forall in H. apply list_elem_of_In in Hs, Hc.
  specialize (H s Hs). rewrite forallb_forall in H. by apply H.
Qed.
Lemma names_named : Forall (λ s, Forall (λ c, named c = true) (chars s)) keysym_name_list.
Proof. eapply Forall_impl; [exact names_words|]. intros s Hs. cbn. eapply Forall_impl; [exact Hs|]. intros c. cbn. apply word_named. Qed.

Lemma entry_name i e : name_to_keysym !! i = Some e → ∃ s, keysym_name_list !! i = Some s ∧ get_name e = chars s.
Proof.
  intros He. assert (name_offsets !! i = Some e.2) as Ho.
  { rewrite <- table_offsets. change (map snd name_to_keysym) with (snd <$> name_to_keysym). by rewrite list_lookup_fmap, He. }
  assert (length name_offsets = length keysym_name_list) as Hl.
  { unfold name_offsets. generalize 0. induction keysym_name_list as [|s l IH]; intros o; [done|]. cbn. by rewrite IH. }
  destruct (lookup_lt_is_Some_2 keysym_name_list i) as [s Hs].
  { rewrite <- Hl. by eapply lookup_lt_Some. }
  exists s. split; [done|]. unfold get_name, keysym_names. rewrite <- (app_nil_l (concat _)).
  unfold name_offsets in Ho. exact (cstring_offsets keysym_name_list [] 0 i e.2 s names_named eq_refl Ho Hs).
Qed.

(** The hash of a name of the table is the position of the name. *)
Lemma hash_check_lookup G k names i s :
  hash_check G k names = true → names !! i = Some s →
  (length (chars s) <= 27)%nat ∧ hash_with G (chars s) = Some (k + Z.of_nat i).
Proof.
  revert k i. induction names as [|t names IH]; intros k i H Hs; [done|]. cbn [hash_check] in H.
  apply andb_true_iff in H as [H H2]. apply andb_true_iff in H as [H0 H1].
  destruct i as [|i].
  - injection Hs as ->. apply bool_decide_eq_true_1 in H0, H1. split; [done|]. rewrite H1. f_equal. lia.
  - destruct (IH (k + 1) i H2 Hs) as [? ->]. split; [done|]. f_equal. lia.
Qed.

Lemma entry_hash i e :
  name_to_keysym !! i = Some e → (length (get_name e) <= 27)%nat ∧ Forall (λ c, named c = true) (get_name e) ∧
  keysym_name_perfect_hash (get_name e) = Some (Z.of_nat i).
Proof.
  intros He. destruct (entry_name i e He) as (s & Hs & ->).
  destruct (hash_check_lookup _ _ _ _ _ hash_checked Hs) as [Hl Hh].
  assert (Forall (λ c, named c = true) (chars s)) as Hn by (by eapply Forall_lookup_1 in Hs; [|apply names_named]).
  split; [done|]. split; [done|]. 
  rewrite (perfect_hash_with (chars s) Hn) by (clear - Hl; lia). rewrite Z.add_0_l in Hh. exact Hh.
Qed.

(** A [char] array without the null. *)
Definition is_string (name : list Z) : Prop := Forall (λ c, 0 < c < 256) name.

Lemma hash_loop_total i sum key T :
  length T = 32%nat → ∃ h, keysym_hash_loop i sum key T = Some h ∧ 0 <= h < 4622.
Proof.
  intros HT. revert i sum. induction key as [|c key IH]; intros i sum; cbn [keysym_hash_loop].
  - eexists. split; [done|]. by apply Z.mod_pos_bound.
  - destruct (lookup_lt_is_Some_2 T (i mod 32)) as [t ->]; [rewrite HT; apply Nat.mod_upper_bound; lia|apply IH].
Qed.

Lemma length_G : Z.of_nat (length keysym_name_G) = 4622.
Proof. vm_compute. reflexivity. Qed.

Lemma perfect_hash_total key : ∃ h, keysym_name_perfect_hash key = Some h ∧ 0 <= h < 4622.
Proof.
  unfold keysym_name_perfect_hash, keysym_name_hash_f.
  destruct (hash_loop_total 0 0 key hash_T1) as (h1 & -> & H1); [apply hash_T1_ok|]. cbn [mbind option_bind].
  destruct (elem_Some keysym_name_G h1) as [g1 ->]; [by rewrite length_G|]. cbn [mbind option_bind].
  destruct (hash_loop_total 0 0 key hash_T2) as (h2 & -> & H2); [apply hash_T2_ok|]. cbn [mbind option_bind].
  destruct (elem_Some keysym_name_G h2) as [g2 ->]; [by rewrite length_G|]. cbn [mbind option_bind].
  eexists. split; [done|]. by apply Z.mod_pos_bound.
Qed.

(** The exact lookup finds a keysym exactly when the table has the name. *)
Lemma lookup_exact name :
  ∃ r, lookup_name name false = Some r ∧
    ∀ k, r = Some k ↔ ∃ e, e ∈ name_to_keysym ∧ get_name e = name ∧ e.1 = k.
Proof.
  unfold lookup_name. cbn [negb]. destruct (perfect_hash_total name) as (h & Eh & Hh). rewrite Eh. cbn [mbind option_bind].
  assert (∀ i e, name_to_keysym !! i = Some e → get_name e = name → h = Z.of_nat i) as Huniq.
  { intros i e He <-. destruct (entry_hash i e He) as (_ & _ & H). rewrite Eh in H. by injection H. }
  destruct (Z.ltb_spec h (Z.of_nat (length name_to_keysym))) as [Hlt|Hge].
  - destruct (elem_Some name_to_keysym h) as [e He]; [lia|]. rewrite He. cbn [mbind option_bind].
    apply elem_inv in He as [_ He]. eexists. split; [done|]. intros k. case_bool_decide as Hn.
    + split; [intros [= <-]; exists e; split; [by eapply list_elem_of_lookup_2|done]|].
      intros (e' & Hin & Hne & <-). apply list_elem_of_lookup_1 in Hin as [i Hi]. pose proof (Huniq i e' Hi Hne).
      subst h. rewrite Nat2Z.id in He. congruence.
    + split; [done|]. intros (e' & Hin & Hne & <-). apply list_elem_of_lookup_1 in Hin as [i Hi].
      pose proof (Huniq i e' Hi Hne). subst h. rewrite Nat2Z.id in He. congruence.
  - eexists. split; [done|]. intros k. split; [done|]. intros (e' & Hin & Hne & <-).
    apply list_elem_of_lookup_1 in Hin as [i Hi]. pose proof (Huniq i e' Hi Hne). apply lookup_lt_Some in Hi. lia.
Qed.

(** Every keysym with a name has it in the table of names. *)
Lemma canonical_entry e : e ∈ keysym_to_name → e ∈ name_to_keysym.
Proof.
  intros He. pose proof canonical_checked as H. unfold entries_check in H. rewrite forallb_forall in H.
  apply list_elem_of_In in He. specialize (H e He). apply bool_decide_eq_true_1, elem_of_list_to_map_2 in H.
  apply list_elem_of_fmap in H as ([k o] & E & Hin). destruct e as [k' o']. unfold prod_swap in E. cbn in *. congruence.
Qed.

(** ** Keysyms and their names *)

Lemma find_index_spec ks :
  ∃ r, find_keysym_index ks = Some r ∧
    ((∃ e, elem keysym_to_name r = Some e ∧ e.1 = ks) ∨ r = -1 ∧ ∀ e, e ∈ keysym_to_name → e.1 ≠ ks).
Proof.
  set (n := Z.of_nat (length keysym_to_name)).
  assert (∀ i j e f, (i < j)%nat → keysym_to_name !! i = Some e → keysym_to_name !! j = Some f → e.1 < f.1) as Hord.
  { intros i j e f Hij He Hf. apply Z.ltb_lt.
    apply (ordered_lookup (λ a b, a <? b) (map fst keysym_to_name) i j); [intros; zbool; lia|exact keysyms_ordered|done|..].
    - change (map fst keysym_to_name) with (fst <$> keysym_to_name). by rewrite list_lookup_fmap, He.
    - change (map fst keysym_to_name) with (fst <$> keysym_to_name). by rewrite list_lookup_fmap, Hf. }
  unfold find_keysym_index. fold n. destruct (Z.ltb_spec XKB_KEYSYM_MAX_EXPLICIT ks) as [Hmax|Hle].
  { exists (-1). split; [done|]. right. split; [done|]. intros e He <-.
    pose proof max_explicit as H. rewrite forallb_forall in H. apply list_elem_of_In in He. specialize (H e He). zbool. lia. }
  destruct (bisect_spec (λ mid, e ← elem keysym_to_name mid; Some (ks - e.1)) n) with
    (fuel := length keysym_to_name) (lo := 0) (hi := n - 1) as (r & -> & Hr); [| |lia..|].
  - intros i Hi. destruct (elem_Some keysym_to_name i Hi) as [e ->]. by eexists.
  - intros i j c d Hi Hij Hj. destruct (elem keysym_to_name i) as [e|] eqn:He; [|done]. intros [= <-].
    destruct (elem keysym_to_name j) as [f|] eqn:Hf; [|done]. intros [= <-].
    apply elem_inv in He as [_ He], Hf as [_ Hf]. pose proof (Hord (Z.to_nat i) (Z.to_nat j) e f ltac:(lia) He Hf). lia.
  - exists r. split; [done|]. destruct Hr as [[_ Hr]|[-> Hr]].
    + left. destruct (elem keysym_to_name r) as [e|] eqn:He; [|done]. exists e. split; [done|]. injection Hr as Hr. lia.
    + right. split; [done|]. intros e He. apply list_elem_of_lookup_1 in He as [i Hi].
      pose proof (lookup_lt_Some _ _ _ Hi). intros E. apply (Hr (Z.of_nat i) (ks - e.1)); [lia| |lia].
      by rewrite elem_lookup, Hi.
Qed.

(** ** Numbers in names *)

Lemma hex_value_digit ten d : ten = 65 ∨ ten = 97 → 0 <= d < 16 → hex_value (hex_digit ten d) = Some d.
Proof.
  intros Ht Hd. assert (d = 0 ∨ d = 1 ∨ d = 2 ∨ d = 3 ∨ d = 4 ∨ d = 5 ∨ d = 6 ∨ d = 7 ∨ d = 8 ∨ d = 9 ∨ d = 10 ∨
    d = 11 ∨ d = 12 ∨ d = 13 ∨ d = 14 ∨ d = 15) as H by lia.
  destruct Ht as [-> | ->]; repeat destruct H as [->|H]; try reflexivity; subst; reflexivity.
Qed.

Lemma parse_hex_fixed ten w n i r tl :
  ten = 65 ∨ ten = 97 → (i + w <= 8)%nat → 0 <= n < 16 ^ Z.of_nat w → 0 <= r < 16 ^ Z.of_nat i →
  parse_loop i r (hex_fixed ten w n ++ tl) = parse_loop (i + w) (r * 16 ^ Z.of_nat w + n) tl.
Proof.
  intros Ht. revert n tl. induction w as [|w IH]; intros n tl Hw Hn Hr.
  { rewrite Nat.add_0_r. cbn in *. f_equal. lia. }
  rewrite Nat2Z.inj_succ, Z.pow_succ_r in Hn by lia. cbn [hex_fixed]. rewrite <- app_assoc.
  rewrite IH; [|lia|split; [apply Z.div_pos; lia|apply Z.div_lt_upper_bound; lia]|done].
  cbn [app parse_loop]. rewrite (proj2 (Nat.ltb_lt _ _)) by lia. rewrite hex_value_digit by (done || apply Z.mod_pos_bound; lia).
  cbn [mbind option_bind]. rewrite Nat.add_succ_r. f_equal. rewrite Z.shiftl_mul_pow2 by lia.
  set (a := r * 16 ^ Z.of_nat w + n / 16).
  assert (0 <= a < 16 ^ 7).
  { assert (16 ^ Z.of_nat i * 16 ^ Z.of_nat w = 16 ^ (Z.of_nat i + Z.of_nat w)) as E by (rewrite Z.pow_add_r; lia).
    assert (16 ^ (Z.of_nat i + Z.of_nat w) <= 16 ^ 7) by (apply Z.pow_le_mono_r; lia).
    assert (0 <= n / 16 < 16 ^ Z.of_nat w) by (split; [apply Z.div_pos; lia|apply Z.div_lt_upper_bound; lia]).
    unfold a. nia. }
  pose proof (Z.mod_pos_bound n 16 ltac:(lia)). rewrite !u32_small by (rewrite ?u32_small; lia).
  unfold a. rewrite Nat2Z.inj_succ, Z.pow_succ_r by lia. pose proof (Z.div_mod n 16). lia.
Qed.

Lemma parse_hex ten w n :
  ten = 65 ∨ ten = 97 → (0 < w <= 8)%nat → 0 <= n < 16 ^ Z.of_nat w → parse_keysym_hex (hex_fixed ten w n) = Some n.
Proof.
  intros Ht Hw Hn. unfold parse_keysym_hex. rewrite <- (app_nil_r (hex_fixed ten w n)).
  rewrite parse_hex_fixed by (done || lia). cbn [parse_loop]. rewrite (proj2 (Nat.eqb_neq _ _)) by lia. done.
Qed.

(** No name of the table has one of the numeric forms. *)
Definition numeric (name : list Z) : bool :=
  match name with
  | 85 :: s => bool_decide (4 <= length s)%nat && forallb (λ c, bool_decide (is_Some (hex_value c))) s
  | 48 :: 120 :: _ => true
  | _ => false
  end.

Lemma names_not_numeric : forallb (λ s, negb (numeric (chars s))) keysym_name_list = true.
Proof. vm_compute. reflexivity. Qed.

Lemma lookup_numeric name : numeric name = true → lookup_name name false = Some None.
Proof.
  intros Hn. destruct (lookup_exact name) as ([k|] & -> & Hr); [|done].
  destruct (proj1 (Hr k) eq_refl) as (e & He & <- & _). apply list_elem_of_lookup_1 in He as [i Hi].
  destruct (entry_name i e Hi) as (s & Hs & E). pose proof names_not_numeric as H. rewrite forallb_forall in H.
  specialize (H s). rewrite <- E, Hn in H. apply list_elem_of_lookup_2, list_elem_of_In in Hs. by apply H in Hs.
Qed.

Lemma hex_fixed_digits ten w n :
  ten = 65 ∨ ten = 97 → forallb (λ c, bool_decide (is_Some (hex_value c))) (hex_fixed ten w n) = true.
Proof.
  intros Ht. revert n. induction w as [|w IH]; intros n; [done|]. cbn [hex_fixed]. rewrite forallb_app, IH. cbn.
  rewrite hex_value_digit by (done || apply Z.mod_pos_bound; lia). done.
Qed.

(** The exact reading of a name. *)
Lemma from_name_found mem name k : lookup_name name false = Some (Some k) → xkb_keysym_from_name mem name 0 = Some k.
Proof.
  intros H. change (xkb_keysym_from_name mem name 0) with (from_name_loop (S (length name)) mem name false).
  cbn [from_name_loop]. by rewrite H.
Qed.

Lemma from_name_numeric mem name k :
  lookup_name name false = Some None → numeric_name name false = Some k ∨ numeric_name name false = None ∧ hex_name name false = Some k →
  xkb_keysym_from_name mem name 0 = Some k.
Proof.
  intros H Hk. change (xkb_keysym_from_name mem name 0) with (from_name_loop (S (length name)) mem name false).
  cbn [from_name_loop]. rewrite H. cbn [mbind option_bind]. destruct Hk as [-> |[-> ->]]; done.
Qed.

Lemma from_unicode mem w n :
  (4 <= w <= 8)%nat → 0x100 <= n <= 0x10ffff → n < 16 ^ Z.of_nat w →
  xkb_keysym_from_name mem (85 :: hex_fixed 65 w n) 0 = Some (n + XKB_KEYSYM_UNICODE_OFFSET).
Proof.
  intros Hw Hn Hnw. apply from_name_numeric.
  - apply lookup_numeric. cbn [numeric]. rewrite hex_fixed_digits by by left. rewrite length_hex_fixed.
    rewrite bool_decide_eq_true_2 by lia. done.
  - left. cbn [mbind option_bind numeric_name]. rewrite parse_hex by (by left || lia).
    rewrite (proj2 (Z.ltb_ge n 0x20)), (proj2 (Z.ltb_ge n 0xa0)), (proj2 (Z.ltb_ge n 0x100)), (proj2 (Z.ltb_ge 0x10ffff n)) by lia.
    rewrite andb_false_r. cbn [orb]. f_equal. rewrite Z.lor_comm. unfold XKB_KEYSYM_UNICODE_OFFSET.
    rewrite (lor_low 0x01000000 n 24) by (done || lia). lia.
Qed.

Lemma from_hex mem n :
  0 <= n <= XKB_KEYSYM_MAX → xkb_keysym_from_name mem (48 :: 120 :: hex_fixed 97 8 n) 0 = Some n.
Proof.
  intros Hn. unfold XKB_KEYSYM_MAX in Hn. apply from_name_numeric; [by apply lookup_numeric|].
  right. split; [done|]. cbn [hex_name mbind option_bind]. rewrite parse_hex by (by right || cbn; lia).
  unfold XKB_KEYSYM_MAX. by rewrite (proj2 (Z.ltb_ge _ n)) by lia.
Qed.

(** ** Printing *)

(** No bit of the upper byte of a code point makes it short. *)
Lemma unicode_short ks : 0x01000000 <= ks <= 0x0110ffff → Z.land ks 0xff0000 = 0 → ks - 0x01000000 < 16 ^ 4.
Proof.
  intros Hks E. assert (Z.land (Z.shiftr ks 16) 0xff = 0) as E2.
  { change 0xff with (Z.shiftr 0xff0000 16). by rewrite <- Z.shiftr_land, E. }
  change 0xff with (Z.ones 8) in E2. rewrite Z.land_ones, Z.shiftr_div_pow2 in E2 by lia.
  change (2 ^ 8) with 256 in E2. change (2 ^ 16) with 65536 in E2. change (16 ^ 4) with 65536. mlia.
Qed.


Lemma snprintf_fits size text :
  Z.of_nat (length text) < size → snprintf size text = (Z.of_nat (length text), text ++ [0]).
Proof. intros H. unfold snprintf. rewrite (proj2 (Z.leb_gt _ _)) by lia. by rewrite take_ge by lia. Qed.

Lemma hex_words ten w n : ten = 65 ∨ ten = 97 → Forall (λ c, word_char c = true) (hex_fixed ten w n).
Proof.
  intros Ht. revert n. induction w as [|w IH]; intros n; [constructor|]. cbn [hex_fixed]. apply Forall_app. split; [apply IH|].
  constructor; [|constructor]. pose proof (Z.mod_pos_bound n 16 ltac:(lia)). unfold hex_digit, word_char. case_step; zbool; lia.
Qed.

Lemma entry_word i e : name_to_keysym !! i = Some e → Forall (λ c, word_char c = true) (get_name e).
Proof. intros He. destruct (entry_name i e He) as (s & Hs & ->). by eapply Forall_lookup_1 in Hs; [|apply names_words]. Qed.

(** The name of a keysym: a word of at most 27 characters, which reads back
    as the keysym. *)
Lemma printed_name mem ks :
  0 <= ks <= XKB_KEYSYM_MAX →
  ∃ name, (∀ size, xkb_keysym_get_name ks size = Some (snprintf size name)) ∧ Forall (λ c, word_char c = true) name ∧
    Z.of_nat (length name) <= XKB_KEYSYM_NAME_MAX_SIZE ∧ xkb_keysym_from_name mem name 0 = Some ks.
Proof.
  unfold XKB_KEYSYM_NAME_MAX_SIZE. intros Hks. unfold xkb_keysym_get_name. rewrite (proj2 (Z.ltb_ge _ ks)) by lia.
  destruct (find_index_spec ks) as (r & -> & Hr). cbn [mbind option_bind]. destruct Hr as [(e & He & <-)|[-> Hno]].
  - pose proof He as He'. apply elem_inv in He' as [Hpos Hl]. rewrite (proj2 (Z.eqb_neq r (-1))) by lia. cbn [negb].
    rewrite He. cbn [mbind option_bind]. exists (get_name e).
    pose proof (canonical_entry e (list_elem_of_lookup_2 _ _ _ Hl)) as Hin.
    destruct (list_elem_of_lookup_1 _ _ Hin) as [i Hi]. destruct (entry_hash i e Hi) as (Hlen & _).
    split; [done|]. split; [by eapply entry_word|]. split; [lia|]. apply from_name_found.
    destruct (lookup_exact (get_name e)) as (k & -> & Hk). f_equal. apply Hk. by exists e.
  - cbn [Z.eqb negb Pos.eqb]. unfold XKB_KEYSYM_UNICODE_MIN, XKB_KEYSYM_UNICODE_MAX.
    destruct ((0x01000100 <=? ks) && (ks <=? 0x0110ffff)) eqn:Hu.
    + zbool. set (n := ks - 0x01000000). assert (Z.land ks 0xffffff = n) as En.
      { change 0xffffff with (Z.ones 24). rewrite Z.land_ones by lia. unfold n. change (2 ^ 24) with 0x01000000. mlia. }
      unfold get_unicode_name. rewrite En. set (w := if Z.land ks 0xff0000 =? 0 then 4%nat else 8%nat).
      assert (n < 16 ^ Z.of_nat w ∧ (4 <= w <= 8)%nat) as [Hnw Hw].
      { unfold w. destruct (Z.eqb_spec (Z.land ks 0xff0000) 0) as [Ez|]; [|cbn; unfold n; lia]. split; [|lia].
        apply unicode_short in Ez; [|lia]. exact Ez. }
      exists (85 :: hex_fixed 65 w n). unfold fmt_X. rewrite fmt_pad_hex by (unfold n in *; lia).
      split; [done|]. cbn [length]. rewrite length_hex_fixed.
      split; [repeat (constructor; [done|]); apply hex_words; auto|]. split; [lia|]. rewrite from_unicode by (unfold n in *; lia). f_equal. unfold n, XKB_KEYSYM_UNICODE_OFFSET. lia.
    + exists (48 :: 120 :: hex_fixed 97 8 ks). unfold fmt_x. unfold XKB_KEYSYM_MAX in Hks. rewrite fmt_pad_hex by (cbn; lia).
      change (chars "0x" ++ hex_fixed 97 8 ks) with (48 :: 120 :: hex_fixed 97 8 ks).
      split; [done|]. cbn [length]. rewrite length_hex_fixed.
      split; [repeat (constructor; [done|]); apply hex_words; auto|]. split; [lia|]. apply from_hex. unfold XKB_KEYSYM_MAX. lia.
Qed.

Lemma name_roundtrip mem ks size :
  0 <= ks <= XKB_KEYSYM_MAX → XKB_KEYSYM_NAME_MAX_SIZE < size →
  ∃ name, xkb_keysym_get_name ks size = Some (Z.of_nat (length name), name ++ [0]) ∧
    Z.of_nat (length name) <= XKB_KEYSYM_NAME_MAX_SIZE ∧ xkb_keysym_from_name mem name 0 = Some ks.
Proof.
  intros Hks Hsize. destruct (printed_name mem ks Hks) as (name & E & _ & Hl & Hf). exists name. rewrite E, snprintf_fits by lia. done.
Qed.

(** ** Case-insensitive order *)

Definition lowered (name : list Z) : list Z := map to_lower name.

(** The value of a character in a comparison. *)
Definition rank (c : Z) : Z := schar (to_lower c).

Lemma rank_inj c d : 0 <= c < 256 → 0 <= d < 256 → rank c = rank d ↔ to_lower c = to_lower d.
Proof. intros Hc Hd. unfold rank, schar, to_lower. repeat case_step; zbool; lia. Qed.

Lemma rank_nonzero c : 0 < c < 256 → rank c ≠ 0.
Proof. intros Hc. unfold rank, schar, to_lower. repeat case_step; zbool; lia. Qed.

(** The comparison by ranks; the end of a string has rank zero. *)
Fixpoint rank_cmp (a b : list Z) : Z :=
  match a, b with
  | [], [] => 0
  | [], d :: _ => - rank d
  | c :: _, [] => rank c
  | c :: a, d :: b => if rank c =? rank d then rank_cmp a b else rank c - rank d
  end.

Lemma istrcmp_rank a b : is_string a → is_string b → istrcmp a b = rank_cmp a b.
Proof.
  assert (∀ c, 0 < c < 256 → to_lower c ≠ 0) as Hz by (intros c Hc; unfold to_lower; case_step; zbool; lia).
  intros Ha. revert b. induction Ha as [|c a Hc Ha IH]; intros b Hb; destruct Hb as [|d b Hd Hb]; [done|..];
    cbn [istrcmp rank_cmp]; change (default 0 (head [])) with 0; change (to_lower 0) with 0.
  - change (default 0 (head (d :: b))) with d. specialize (Hz d Hd). rewrite (proj2 (Z.eqb_neq 0 (to_lower d))) by lia.
    cbn [negb]. unfold rank. change (schar 0) with 0. lia.
  - change (default 0 (head (c :: a))) with c. specialize (Hz c Hc). rewrite (proj2 (Z.eqb_neq (to_lower c) 0)) by lia.
    cbn [negb]. unfold rank. change (schar 0) with 0. lia.
  - change (default 0 (head (c :: a))) with c. change (default 0 (head (d :: b))) with d. cbn [tail].
    pose proof (rank_inj c d ltac:(lia) ltac:(lia)) as Hr. destruct (Z.eqb_spec (to_lower c) (to_lower d)) as [E|E]; cbn [negb].
    + rewrite (proj2 (Z.eqb_eq _ _)) by (by apply Hr). by apply IH.
    + rewrite (proj2 (Z.eqb_neq _ _)) by (by rewrite Hr). done.
Qed.

Lemma rank_cmp_0 a b : is_string a → is_string b → rank_cmp a b = 0 ↔ lowered a = lowered b.
Proof.
  unfold lowered. intros Ha. revert b. induction Ha as [|c a Hc Ha IH]; intros b Hb; destruct Hb as [|d b Hd Hb]; cbn [rank_cmp map]; [done|..].
  - pose proof (rank_nonzero d Hd). split; [lia|done].
  - pose proof (rank_nonzero c Hc). split; [lia|done].
  - pose proof (rank_inj c d ltac:(lia) ltac:(lia)) as Hr. destruct (Z.eqb_spec (rank c) (rank d)) as [E|E].
    + rewrite IH by done. apply Hr in E. rewrite E. split; [by intros ->|intros H; by injection H].
    + split; [lia|]. intros [= E' _]. apply Hr in E'. lia.
Qed.

Lemma rank_cmp_sym a b : rank_cmp a b = - rank_cmp b a.
Proof.
  revert b. induction a as [|c a IH]; intros [|d b]; cbn; [done|lia|lia|].
  rewrite (Z.eqb_sym (rank d)). case_step; [apply IH|lia].
Qed.

(** Between two strings, and before or after both. *)
Lemma rank_cmp_trans a b c :
  is_string a → is_string b → is_string c →
  (rank_cmp a b < 0 → rank_cmp b c <= 0 → rank_cmp a c < 0) ∧ (rank_cmp a b <= 0 → rank_cmp b c < 0 → rank_cmp a c < 0) ∧
  (rank_cmp a b <= 0 → rank_cmp b c <= 0 → rank_cmp a c <= 0).
Proof.
  intros Ha. revert b c. induction Ha as [|x a Hx Ha IH]; intros b c Hb Hc; destruct Hb as [|y b Hy Hb], Hc as [|z c Hz Hc]; cbn; try lia.
  - pose proof (rank_nonzero y Hy). destruct (Z.eqb_spec (rank y) (rank z)); lia.
  - pose proof (rank_nonzero x Hx). destruct (Z.eqb_spec (rank x) (rank z)); lia.
  - pose proof (rank_nonzero y Hy). destruct (Z.eqb_spec (rank x) (rank y)); lia.
  - specialize (IH b c Hb Hc). destruct (Z.eqb_spec (rank x) (rank y)), (Z.eqb_spec (rank y) (rank z)), (Z.eqb_spec (rank x) (rank z)); lia.
Qed.

(** The table is sorted by this order. *)
Lemma names_ordered : ordered (λ a b, rank_cmp a b <=? 0) (map chars keysym_name_list) = true.
Proof. vm_compute. reflexivity. Qed.

Lemma entry_string i e : name_to_keysym !! i = Some e → is_string (get_name e).
Proof.
  intros He. destruct (entry_hash i e He) as (_ & Hn & _). eapply Forall_impl; [exact Hn|]. intros c Hc.
  unfold named in Hc. zbool. lia.
Qed.

Lemma sorted_strings l i j x y :
  ordered (λ a b, rank_cmp a b <=? 0) l = true → Forall is_string l → (i < j)%nat → l !! i = Some x → l !! j = Some y →
  rank_cmp x y <= 0.
Proof.
  revert i j x. induction l as [|a l IH]; intros i j x Hl Hs Hij Hi Hj; [done|]. apply Forall_cons in Hs as [Ha Hs].
  destruct j as [|j]; [lia|]. destruct l as [|b l]; [done|]. cbn [ordered] in Hl. apply andb_true_iff in Hl as [Hab Hl]. zbool.
  destruct i as [|i]; cbn in Hi, Hj.
  - injection Hi as <-. destruct j as [|j]; [cbn in Hj; congruence|]. pose proof (IH 0%nat (S j) b Hl Hs ltac:(lia) eq_refl Hj).
    apply Forall_cons in Hs as [Hb Hs']. assert (is_string y) by (eapply Forall_lookup_1 in Hs'; [done|exact Hj]).
    by apply (rank_cmp_trans a b y).
  - apply (IH i j); [done|done|lia|done|done].
Qed.

Lemma entries_ordered i j e f :
  (i < j)%nat → name_to_keysym !! i = Some e → name_to_keysym !! j = Some f → rank_cmp (get_name e) (get_name f) <= 0.
Proof.
  intros Hij He Hf. destruct (entry_name i e He) as (s & Hs & Es), (entry_name j f Hf) as (t & Ht & Et).
  pose proof (entry_string i e He) as Se. pose proof (entry_string j f Hf) as Sf. rewrite Es, Et in *.
  assert (Forall is_string (map chars keysym_name_list)) as Hall.
  { apply Forall_map. eapply Forall_impl; [exact names_named|]. intros u Hu. cbn. eapply Forall_impl; [exact Hu|].
    intros c Hc. unfold named in Hc. cbn in Hc. zbool. lia. }
  revert Hall Hs Ht. pose proof names_ordered as Hord. revert Hord. generalize keysym_name_list. intros names Hord Hall Hs Ht.
  apply (sorted_strings (map chars names) i j); [done|done|done|..].
  - change (map chars names) with (chars <$> names). by rewrite list_lookup_fmap, Hs.
  - change (map chars names) with (chars <$> names). by rewrite list_lookup_fmap, Ht.
Qed.

(** ** The case-insensitive search *)

(** An entry whose name is the given one but for the case. *)
Definition matches (name : list Z) (i : nat) : Prop :=
  ∃ e, name_to_keysym !! i = Some e ∧ lowered (get_name e) = lowered name.

Lemma last_match_spec fuel i name :
  matches name i → Z.of_nat (length name_to_keysym) - Z.of_nat i <= Z.of_nat fuel →
  ∃ j, last_match fuel (Z.of_nat i) = Some (Z.of_nat j) ∧ (i <= j)%nat ∧ matches name j ∧ ¬ matches name (S j).
Proof.
  revert i. induction fuel as [|fuel IH]; intros i (e & He & Hn) Hf; cbn [last_match].
  { pose proof (lookup_lt_Some _ _ _ He). lia. }
  pose proof (lookup_lt_Some _ _ _ He). destruct (Z.ltb_spec (Z.of_nat i) (Z.of_nat (length name_to_keysym) - 1)) as [Hlt|Hge].
  - rewrite elem_lookup, He. cbn [mbind option_bind]. destruct (lookup_lt_is_Some_2 name_to_keysym (S i)) as [e1 He1]; [lia|].
    replace (Z.of_nat i + 1) with (Z.of_nat (S i)) by lia. rewrite elem_lookup, He1. cbn [mbind option_bind].
    pose proof (entry_string _ _ He) as Se. pose proof (entry_string _ _ He1) as Se1.
    rewrite istrcmp_rank by done. destruct (Z.eqb_spec (rank_cmp (get_name e1) (get_name e)) 0) as [E|E]; rewrite rank_cmp_0 in E by done.
    + destruct (IH (S i)) as (j & -> & Hij & Hj); [exists e1; split; [done|congruence]|lia|]. exists j. split; [done|]. split; [lia|done].
    + exists i. split; [done|]. split; [done|]. split; [by exists e|]. intros (e' & He' & Hn'). apply E. congruence.
  - exists i. split; [done|]. split; [done|]. split; [by exists e|]. intros (e' & He' & _). apply lookup_lt_Some in He'. lia.
Qed.

(** What lies between two entries that match also matches. *)
Lemma between_matches i j k name ei ej ek :
  (i < j < k)%nat → name_to_keysym !! i = Some ei → name_to_keysym !! j = Some ej → name_to_keysym !! k = Some ek →
  lowered (get_name ei) = lowered name → lowered (get_name ek) = lowered name → lowered (get_name ej) = lowered name.
Proof.
  intros Hijk Hi Hj Hk Ei Ek. pose proof (entry_string _ _ Hi) as Si. pose proof (entry_string _ _ Hj) as Sj.
  pose proof (entry_string _ _ Hk) as Sk. pose proof (entries_ordered i j _ _ ltac:(lia) Hi Hj) as Hij.
  pose proof (entries_ordered j k _ _ ltac:(lia) Hj Hk) as Hjk. rewrite <- Ei. apply rank_cmp_0; [done|done|].
  assert (rank_cmp (get_name ei) (get_name ek) = 0) as Eik by (apply rank_cmp_0; [done|done|congruence]).
  destruct (rank_cmp_trans (get_name ei) (get_name ej) (get_name ek)) as (H1 & _ & _); [done..|]. rewrite rank_cmp_sym. lia.
Qed.

(** It finds the last entry that matches, when there is one. *)
Lemma lookup_icase name :
  is_string name →
  ∃ r, lookup_name name true = Some r ∧
    match r with
    | None => ∀ i, ¬ matches name i
    | Some k => ∃ i e, name_to_keysym !! i = Some e ∧ e.1 = k ∧ matches name i ∧ ∀ j, matches name j → (j <= i)%nat
    end.
Proof.
  intros Hs. unfold lookup_name. cbn [negb]. set (n := Z.of_nat (length name_to_keysym)).
  destruct (bisect_spec (λ mid, e ← elem name_to_keysym mid; Some (istrcmp name (get_name e))) n) with
    (fuel := length name_to_keysym) (lo := 0) (hi := n - 1) as (r & -> & Hr); [| |lia..|].
  - intros i Hi. destruct (elem_Some name_to_keysym i Hi) as [e ->]. by eexists.
  - intros i j c d Hi Hij Hj. destruct (elem name_to_keysym i) as [e|] eqn:He; [|done]. intros [= <-].
    destruct (elem name_to_keysym j) as [f|] eqn:Hf; [|done]. intros [= <-].
    apply elem_inv in He as [_ He], Hf as [_ Hf]. pose proof (entry_string _ _ He) as Se. pose proof (entry_string _ _ Hf) as Sf.
    pose proof (entries_ordered (Z.to_nat i) (Z.to_nat j) e f ltac:(lia) He Hf) as Ho. rewrite !istrcmp_rank by done.
    split; intros H.
    + destruct (rank_cmp_trans name (get_name e) (get_name f)) as (Ht & _ & _); [done..|]. by apply Ht.
    + rewrite rank_cmp_sym in H |- *. destruct (rank_cmp_trans (get_name e) (get_name f) name) as (_ & Ht & _); [done..|].
      specialize (Ht Ho ltac:(lia)). lia.
  - cbn [mbind option_bind]. destruct Hr as [[Hpos Hr]|[-> Hr]].
    + rewrite (proj2 (Z.eqb_neq r (-1))) by lia. destruct (elem name_to_keysym r) as [e|] eqn:He; [|done].
      apply elem_inv in He as [_ He]. injection Hr as Hr. rewrite istrcmp_rank, rank_cmp_0 in Hr by (done || by eapply entry_string).
      destruct (last_match_spec (length name_to_keysym) (Z.to_nat r) name) as (j & Hj & Hrj & Hm & Hno); [by exists e|lia|].
      rewrite Z2Nat.id in Hj by lia. rewrite Hj. cbn [mbind option_bind]. destruct Hm as (ej & Hej & Hn).
      rewrite elem_lookup, Hej. cbn [mbind option_bind]. eexists. split; [done|]. exists j, ej. split; [done|]. split; [done|].
      split; [by exists ej|]. intros k (ek & Hek & Hnk). destruct (decide (k <= j)%nat) as [|Hgt]; [done|]. exfalso. apply Hno.
      destruct (lookup_lt_is_Some_2 name_to_keysym (S j)) as [f Hf]; [apply lookup_lt_Some in Hek; lia|]. exists f. split; [done|].
      destruct (decide (k = S j)) as [->|]; [congruence|].
      by apply (between_matches j (S j) k name ej f ek); [lia|..].
    + cbn [Z.eqb Pos.eqb]. eexists. split; [done|]. intros i (e & He & Hn). pose proof (lookup_lt_Some _ _ _ He).
      apply (Hr (Z.of_nat i) (istrcmp name (get_name e))); [lia|by rewrite elem_lookup, He|].
      rewrite istrcmp_rank, rank_cmp_0 by (done || by eapply entry_string). done.
Qed.

(** ** Any name *)

Lemma entries_bounded : forallb (λ e, (0 <=? e.1) && (e.1 <=? XKB_KEYSYM_MAX)) name_to_keysym = true.
Proof. vm_compute. reflexivity. Qed.

Lemma entry_bound e : e ∈ name_to_keysym → 0 <= e.1 <= XKB_KEYSYM_MAX.
Proof.
  intros He. pose proof entries_bounded as H. rewrite forallb_forall in H. apply list_elem_of_In in He. specialize (H e He).
  zbool. lia.
Qed.

Lemma parse_loop_bound i r s v : 0 <= r < 2 ^ 32 → parse_loop i r s = Some v → 0 <= v < 2 ^ 32.
Proof.
  revert i r. induction s as [|c s IH]; intros i r Hr; cbn [parse_loop].
  - case_step; [done|]. by intros [= <-].
  - case_step; [|done]. destruct (hex_value c); [|done]. cbn [mbind option_bind]. apply IH, u32_bound.
Qed.

Lemma numeric_name_bound name icase k : numeric_name name icase = Some k → 0 <= k <= XKB_KEYSYM_MAX.
Proof.
  unfold numeric_name, XKB_KEYSYM_MAX. destruct (match name with [] => None | _ => _ end) as [s|]; [|done]. cbn [mbind option_bind].
  intros [= <-]. destruct (parse_keysym_hex s) as [v|] eqn:E; [|done]. apply parse_loop_bound in E; [|lia].
  repeat case_step; zbool; try (unfold XKB_KEY_NoSymbol; lia). rewrite Z.lor_comm. unfold XKB_KEYSYM_UNICODE_OFFSET.
  rewrite (lor_low 0x01000000 v 24) by (done || lia). lia.
Qed.

Lemma hex_name_bound name icase k : hex_name name icase = Some k → 0 <= k <= XKB_KEYSYM_MAX.
Proof.
  unfold hex_name, XKB_KEYSYM_MAX. destruct (match name with [] => None | _ => _ end) as [s|]; [|done]. cbn [mbind option_bind].
  intros [= <-]. destruct (parse_keysym_hex s) as [v|] eqn:E; [|done]. apply parse_loop_bound in E; [|lia].
  case_step; zbool; unfold XKB_KEY_NoSymbol; lia.
Qed.

Lemma lookup_total name icase :
  is_string name → ∃ r, lookup_name name icase = Some r ∧ ∀ k, r = Some k → 0 <= k <= XKB_KEYSYM_MAX.
Proof.
  intros Hs. destruct icase.
  - destruct (lookup_icase name Hs) as ([k|] & -> & Hr); eexists; (split; [done|]); [|done]. intros k' [= <-].
    destruct Hr as (i & e & He & <- & _). apply entry_bound. by eapply list_elem_of_lookup_2.
  - destruct (lookup_exact name) as (r & -> & Hr). exists r. split; [done|]. intros k Hk. apply Hr in Hk as (e & He & _ & <-).
    by apply entry_bound.
Qed.

(** A string that agrees with another on [n] characters has as many. *)
Lemma istrncmp_0_length a b n : is_string a → is_string b → (n <= length b)%nat → istrncmp a b n = 0 → (n <= length a)%nat.
Proof.
  intros Ha. revert b n. induction Ha as [|c a Hc Ha IH]; intros b n Hb Hn; destruct n as [|n]; [lia| |lia|];
    destruct Hb as [|d b Hd Hb]; cbn [length] in *; try lia; cbn [istrncmp].
  - change (default 0 (head [])) with 0. change (default 0 (head (d :: b))) with d.
    pose proof (rank_inj 0 d ltac:(lia) ltac:(lia)) as Hr. pose proof (rank_nonzero d Hd) as Hd0. change (rank 0) with 0 in Hr.
    case_step; zbool; [|intros _; exfalso; apply Hd0; symmetry; by apply Hr].
    change (schar (to_lower 0)) with 0. unfold rank in Hd0. lia.
  - change (default 0 (head (c :: a))) with c. change (default 0 (head (d :: b))) with d. cbn [tail].
    pose proof (rank_inj c d ltac:(lia) ltac:(lia)) as Hr. case_step; zbool; [|intros H; apply IH in H; [lia|done|lia]].
    intros H. exfalso. apply Heqb0, Hr. unfold rank. lia.
Qed.

(** The prefix to drop is there. *)
Lemma xf86_length name icase :
  is_string name → has_prefix (chars "XF86_") name || (icase && (istrncmp name (chars "XF86_") 5 =? 0)) = true → (5 <= length name)%nat.
Proof.
  intros Hs H. apply orb_true_iff in H as [H|H].
  - unfold has_prefix in H. apply bool_decide_eq_true_1 in H. apply (f_equal length) in H. rewrite length_take in H.
    change (length (chars "XF86_")) with 5%nat in H. lia.
  - apply andb_true_iff in H as [_ H]. zbool. apply istrncmp_0_length in H; [done|done| |done].
    repeat constructor.
Qed.

Lemma from_name_loop_total fuel mem name icase :
  is_string name → (length name < fuel)%nat → ∃ k, from_name_loop fuel mem name icase = Some k ∧ 0 <= k <= XKB_KEYSYM_MAX.
Proof.
  revert name. induction fuel as [|fuel IH]; intros name Hs Hf; [lia|]. cbn [from_name_loop].
  destruct (lookup_total name icase Hs) as (r & -> & Hr). cbn [mbind option_bind]. destruct r as [k|]; [eauto|].
  destruct (numeric_name name icase) as [k|] eqn:E1; [apply numeric_name_bound in E1; eauto|].
  destruct (hex_name name icase) as [k|] eqn:E2; [apply hex_name_bound in E2; eauto|].
  case_step; [|exists 0; split; [done|unfold XKB_KEYSYM_MAX; lia]].
  destruct mem; [|exists 0; split; [done|unfold XKB_KEYSYM_MAX; lia]]. apply xf86_length in Heqb; [|done]. apply IH.
  - apply Forall_app. split; [by apply Forall_take|by apply Forall_drop].
  - rewrite length_app, length_take, length_drop. lia.
Qed.

(** ** The theorems *)

(** C22: the name printed for any keysym has at most the documented 27
    characters and reads back as that keysym: table names, Unicode names and
    hexadecimal names alike. *)
Theorem keysym_name_roundtrip mem ks size :
  0 <= ks <= XKB_KEYSYM_MAX → XKB_KEYSYM_NAME_MAX_SIZE < size →
  ∃ name, xkb_keysym_get_name ks size = Some (Z.of_nat (length name), name ++ [0]) ∧
    Z.of_nat (length name) <= XKB_KEYSYM_NAME_MAX_SIZE ∧ xkb_keysym_from_name mem name 0 = Some ks.
Proof. apply name_roundtrip. Qed.

Lemma keysym_name_roundtrip_witness :
  ∃ name, xkb_keysym_get_name 0x61 64 = Some (Z.of_nat (length name), name ++ [0]) ∧
    Z.of_nat (length name) <= XKB_KEYSYM_NAME_MAX_SIZE ∧ xkb_keysym_from_name true name 0 = Some 0x61.
Proof. apply (keysym_name_roundtrip true 0x61 64); unfold XKB_KEYSYM_MAX, XKB_KEYSYM_NAME_MAX_SIZE; lia. Defined.

(** Reading a name is total: for any string and flags it ends, stays
    within the tables, and returns a valid keysym. *)
Theorem from_name_total mem name flags :
  is_string name → ∃ k, xkb_keysym_from_name mem name flags = Some k ∧ 0 <= k <= XKB_KEYSYM_MAX.
Proof.
  intros Hs. unfold xkb_keysym_from_name. case_step; [exists 0; split; [done|unfold XKB_KEYSYM_MAX; lia]|].
  apply from_name_loop_total; [done|lia].
Qed.

Lemma from_name_total_witness : ∃ k, xkb_keysym_from_name true [88; 70; 56; 54; 95; 95] 1 = Some k ∧ 0 <= k <= XKB_KEYSYM_MAX.
Proof. apply (from_name_total true [88; 70; 56; 54; 95; 95] 1). repeat constructor; lia. Defined.

(** C27: the perfect hash loses nothing: the exact lookup gives a keysym
    exactly when a linear search of the table would. *)
Theorem perfect_hash_exact name :
  ∃ r, lookup_name name false = Some r ∧ ∀ k, r = Some k ↔ ∃ e, e ∈ name_to_keysym ∧ get_name e = name ∧ e.1 = k.
Proof. apply lookup_exact. Qed.

(** The case-insensitive search returns the last of the entries whose
    name differs at most in case, and nothing exactly when there is none. *)
Theorem icase_finds_last name :
  is_string name →
  ∃ r, lookup_name name true = Some r ∧
    match r with
    | None => ∀ i, ¬ matches name i
    | Some k => ∃ i e, name_to_keysym !! i = Some e ∧ e.1 = k ∧ matches name i ∧ ∀ j, matches name j → (j <= i)%nat
    end.
Proof. apply lookup_icase. Qed.

Lemma icase_finds_last_witness :
  ∃ r, lookup_name [97] true = Some r ∧
    match r with
    | None => ∀ i, ¬ matches [97] i
    | Some k => ∃ i e, name_to_keysym !! i = Some e ∧ e.1 = k ∧ matches [97] i ∧ ∀ j, matches [97] j → (j <= i)%nat
    end.
Proof. apply (icase_finds_last [97]). repeat constructor; lia. Defined.
