(* ===== verification/XkbKeysymIter.v ===== *)
(** * The iterator over keysyms

    What [xkb_keysym_iterator_next] of libxkbcommon/build/src/keysym.c visits:
    over the named keysyms, all of them in order; over all assigned keysyms,
    all but one. *)

From S2P Require Import Prelude XkbKeysymTables XkbKeysym XkbKeysymSpec.
Open Scope Z_scope.

(** ** The table *)

Definition nth_keysym (j : nat) : Z := default 0 (fst <$> keysym_to_name !! j).

Definition count : nat := 2446.
(** The first named Unicode keysym, and the first named keysym after them. *)
Definition first_uni : nat := 1297.
Definition first_high : nat := 2011.

Lemma table_shape :
  length keysym_to_name = count ∧ nth_keysym 1296 = 0xffffff ∧ nth_keysym first_uni = 0x0100012c ∧
  nth_keysym 2010 = 0x010028ff ∧ nth_keysym first_high = 0x100000a8 ∧ nth_keysym 0 = 0.
Proof. vm_compute. done. Qed.

Lemma length_keysyms : length keysym_to_name = count.
Proof. apply table_shape. Qed.

#[local] Opaque keysym_name_list keysym_name_G name_to_keysym keysym_to_name.

Lemma nth_lookup j : (j < count)%nat → ∃ e, keysym_to_name !! j = Some e ∧ e.1 = nth_keysym j.
Proof.
  intros Hj. destruct (lookup_lt_is_Some_2 keysym_to_name j) as [e He]; [by rewrite length_keysyms|]. exists e.
  split; [done|]. unfold nth_keysym. by rewrite He.
Qed.

Lemma nth_elem j : (j < count)%nat → ∃ e, elem keysym_to_name (Z.of_nat j) = Some e ∧ e.1 = nth_keysym j.
Proof. intros Hj. rewrite elem_lookup. by apply nth_lookup. Qed.

Lemma nth_increasing i j : (i < j)%nat → (j < count)%nat → nth_keysym i < nth_keysym j.
Proof.
  intros Hij Hj. destruct (nth_lookup i) as (e & He & <-); [lia|]. destruct (nth_lookup j) as (f & Hf & <-); [done|].
  apply Z.ltb_lt. apply (ordered_lookup (λ a b, a <? b) (map fst keysym_to_name) i j); [intros; zbool; lia|exact keysyms_ordered|done|..].
  - change (map fst keysym_to_name) with (fst <$> keysym_to_name). by rewrite list_lookup_fmap, He.
  - change (map fst keysym_to_name) with (fst <$> keysym_to_name). by rewrite list_lookup_fmap, Hf.
Qed.

Lemma nth_nondecreasing i j : (i <= j)%nat → (j < count)%nat → nth_keysym i <= nth_keysym j.
Proof. intros Hij Hj. destruct (decide (i = j)) as [->|]; [lia|]. pose proof (nth_increasing i j). lia. Qed.

(** Below, in and above the Unicode range. *)
Lemma nth_low j : (j < first_uni)%nat → 0 <= nth_keysym j <= 0xffffff.
Proof.
  unfold first_uni. intros Hj. destruct table_shape as (_ & E1 & _ & _ & _ & E0). rewrite <- E1, <- E0 at 1.
  split; apply nth_nondecreasing; unfold count; lia.
Qed.

Lemma nth_uni j : (first_uni <= j < first_high)%nat → 0x0100012c <= nth_keysym j <= 0x010028ff.
Proof.
  unfold first_uni, first_high. intros Hj. destruct table_shape as (_ & _ & E1 & E2 & _ & _). rewrite <- E1, <- E2 at 1.
  split; apply nth_nondecreasing; unfold count, first_uni; lia.
Qed.

Lemma nth_high j : (first_high <= j < count)%nat → 0x100000a8 <= nth_keysym j.
Proof.
  intros Hj. destruct table_shape as (_ & _ & _ & _ & E1 & _). rewrite <- E1. apply nth_nondecreasing; lia.
Qed.

(** ** Iterating *)

(** [n] calls that return true. *)
Fixpoint iterate (n : nat) (it : xkb_keysym_iterator) : option xkb_keysym_iterator :=
  match n with
  | O => Some it
  | S n =>
      match xkb_keysym_iterator_next it with
      | Some (true, it) => iterate n it
      | _ => None
      end
  end.

Lemma iterate_S n it it' it'' :
  iterate n it = Some it' → xkb_keysym_iterator_next it' = Some (true, it'') → iterate (S n) it = Some it''.
Proof.
  revert it. induction n as [|n IH]; intros it H1 H2; cbn [iterate] in *.
  - injection H1 as ->. by rewrite H2.
  - destruct (xkb_keysym_iterator_next it) as [[[] it1]|]; [|done..]. by apply IH.
Qed.

Lemma next_explicit j :
  -1 <= j < Z.of_nat count - 1 →
  ∀ ks, xkb_keysym_iterator_next (mk_iter true j ks) = Some (true, mk_iter true (j + 1) (nth_keysym (Z.to_nat (j + 1)))).
Proof.
  intros Hj ks. unfold xkb_keysym_iterator_next. rewrite length_keysyms. rewrite (proj2 (Z.leb_gt _ _)) by lia.
  destruct (nth_elem (Z.to_nat (j + 1))) as (e & He & <-); [lia|]. rewrite Z2Nat.id in He by lia. by rewrite He.
Qed.

(** ** The states of the other iteration *)

Notation iter := (mk_iter false).

Inductive phase : xkb_keysym_iterator → Prop :=
  | ph_start : phase (iter (-1) XKB_KEYSYM_UNICODE_MAX)
  | ph_low j : (j < first_uni)%nat → phase (iter (Z.of_nat j) (nth_keysym j))
  | ph_uni j k : (first_uni <= j <= first_high)%nat → nth_keysym (Nat.pred j) < k <= nth_keysym j →
      XKB_KEYSYM_UNICODE_MIN <= k <= XKB_KEYSYM_UNICODE_MAX → phase (iter (Z.of_nat j) k)
  | ph_high j : (first_high < j < count)%nat → phase (iter (Z.of_nat j) (nth_keysym j)).

Lemma next_low j ks :
  -1 <= j < Z.of_nat first_uni - 1 →
  xkb_keysym_iterator_next (iter j ks) = Some (true, iter (j + 1) (nth_keysym (Z.to_nat (j + 1)))).
Proof.
  intros Hj. unfold xkb_keysym_iterator_next. rewrite length_keysyms. unfold first_uni, count in *.
  rewrite (proj2 (Z.leb_gt _ _)) by lia. destruct (nth_elem (Z.to_nat (j + 1))) as (e & He & E); [unfold count; lia|].
  rewrite Z2Nat.id in He by lia. rewrite He. cbn [mbind option_bind orb]. pose proof (nth_low (Z.to_nat (j + 1))) as Hl. unfold first_uni in Hl.
  unfold XKB_KEYSYM_UNICODE_MIN. rewrite (proj2 (Z.ltb_lt e.1 _)), (proj2 (Z.leb_le e.1 0x01000100)) by lia.
  rewrite orb_true_r. cbn [orb]. by rewrite E.
Qed.

Lemma next_enter :
  xkb_keysym_iterator_next (iter (Z.of_nat 1296) (nth_keysym 1296)) =
  Some (true, iter (Z.of_nat first_uni) XKB_KEYSYM_UNICODE_MIN).
Proof.
  unfold xkb_keysym_iterator_next. rewrite length_keysyms. destruct table_shape as (_ & E1 & E2 & _).
  rewrite (proj2 (Z.leb_gt _ _)) by (unfold count; lia).
  destruct (nth_elem 1297) as (e & He & E); [unfold count; lia|]. change (Z.of_nat 1296 + 1) with (Z.of_nat 1297).
  destruct (nth_elem 1296) as (f & Hf & F); [unfold count; lia|]. rewrite He, Hf, E1. cbn [mbind option_bind orb].
  rewrite E, F, E1. fold first_uni. rewrite E2. reflexivity.
Qed.

Lemma next_uni j k :
  (first_uni <= j <= first_high)%nat → nth_keysym (Nat.pred j) < k <= nth_keysym j →
  XKB_KEYSYM_UNICODE_MIN <= k < XKB_KEYSYM_UNICODE_MAX →
  ∃ j', xkb_keysym_iterator_next (iter (Z.of_nat j) k) = Some (true, iter (Z.of_nat j') (k + 1)) ∧
    (first_uni <= j' <= first_high)%nat ∧ nth_keysym (Nat.pred j') < k + 1 <= nth_keysym j'.
Proof.
  intros Hj Hk Hr. unfold xkb_keysym_iterator_next. rewrite length_keysyms. unfold first_uni, first_high in *.
  rewrite (proj2 (Z.leb_gt _ _)) by (unfold count; lia). replace (Z.of_nat j + 1) with (Z.of_nat (S j)) by lia.
  destruct (nth_elem (S j)) as (e & He & E); [unfold count; lia|]. destruct (nth_elem j) as (f & Hf & F); [unfold count; lia|].
  rewrite He, Hf. cbn [mbind option_bind orb]. pose proof (nth_increasing j (S j) ltac:(lia) ltac:(unfold count; lia)) as Hinc.
  rewrite (proj2 (Z.leb_gt XKB_KEYSYM_UNICODE_MAX k)), (proj2 (Z.ltb_ge e.1 XKB_KEYSYM_UNICODE_MIN)) by lia. cbn [orb].
  rewrite (proj2 (Z.leb_le XKB_KEYSYM_UNICODE_MIN k)) by lia.
  rewrite F. destruct (Z.leb_spec (nth_keysym j) k).
  - exists (S j). split; [done|]. cbn [Nat.pred]. split; [|lia]. split; [lia|].
    destruct (decide (j = 2011%nat)) as [->|]; [|lia]. pose proof (nth_high 2011) as Hh. unfold first_high, count in Hh.
    unfold XKB_KEYSYM_UNICODE_MAX in *. lia.
  - exists j. split; [done|]. split; [done|lia].
Qed.

Lemma next_leave j :
  (first_uni <= j <= first_high)%nat → nth_keysym (Nat.pred j) < XKB_KEYSYM_UNICODE_MAX <= nth_keysym j →
  j = first_high ∧
  xkb_keysym_iterator_next (iter (Z.of_nat j) XKB_KEYSYM_UNICODE_MAX) =
  Some (true, iter (Z.of_nat (S first_high)) (nth_keysym (S first_high))).
Proof.
  intros Hj Hk. assert (j = first_high) as ->.
  { destruct (decide (j < first_high)%nat) as [Hlt|]; [|lia]. pose proof (nth_uni j ltac:(lia)).
    unfold XKB_KEYSYM_UNICODE_MAX in *. lia. }
  split; [done|]. unfold xkb_keysym_iterator_next. rewrite length_keysyms. unfold first_high in *.
  rewrite (proj2 (Z.leb_gt _ _)) by (unfold count; lia). change (Z.of_nat 2011 + 1) with (Z.of_nat 2012).
  destruct (nth_elem 2012) as (e & He & E); [unfold count; lia|]. rewrite He. cbn [mbind option_bind orb].
  rewrite Z.leb_refl. cbn [orb]. pose proof (nth_high 2012) as Hh. unfold first_high, count in Hh.
  rewrite E, (proj2 (Z.leb_le XKB_KEYSYM_UNICODE_MAX (nth_keysym 2012))) by (unfold XKB_KEYSYM_UNICODE_MAX; lia).
  rewrite orb_true_r. done.
Qed.

Lemma next_high j :
  (first_high < j < Nat.pred count)%nat →
  xkb_keysym_iterator_next (iter (Z.of_nat j) (nth_keysym j)) = Some (true, iter (Z.of_nat (S j)) (nth_keysym (S j))).
Proof.
  intros Hj. unfold xkb_keysym_iterator_next. rewrite length_keysyms. unfold first_high, count in *. cbn [Nat.pred] in *.
  rewrite (proj2 (Z.leb_gt _ _)) by lia. replace (Z.of_nat j + 1) with (Z.of_nat (S j)) by lia.
  destruct (nth_elem (S j)) as (e & He & E); [unfold count; lia|]. rewrite He. cbn [mbind option_bind orb].
  pose proof (nth_high j) as H1. pose proof (nth_high (S j)) as H2. unfold first_high, count in H1, H2.
  unfold XKB_KEYSYM_UNICODE_MAX. rewrite E, (proj2 (Z.leb_le _ (nth_keysym j))), (proj2 (Z.leb_le 0x0110ffff (nth_keysym (S j)))) by lia.
  rewrite orb_true_r. done.
Qed.

Lemma next_end ks : xkb_keysym_iterator_next (iter (Z.of_nat count - 1) ks) = Some (false, iter (Z.of_nat count - 1) ks).
Proof. unfold xkb_keysym_iterator_next. rewrite length_keysyms. by rewrite (proj2 (Z.leb_le _ _)) by lia. Qed.

(** Every call is defined, and leads from one of the states to another. *)
Lemma next_phase it :
  phase it → ∃ b it', xkb_keysym_iterator_next it = Some (b, it') ∧ phase it'.
Proof.
  intros [|j Hj|j k Hj Hk Hr|j Hj].
  - rewrite next_low by (unfold first_uni; lia). eexists _, _. split; [done|]. apply (ph_low 0). unfold first_uni. lia.
  - destruct (decide (j = 1296%nat)) as [->|Hne].
    + rewrite next_enter. eexists _, _. split; [done|]. destruct table_shape as (_ & E1 & E2 & _).
      unfold XKB_KEYSYM_UNICODE_MIN, XKB_KEYSYM_UNICODE_MAX. constructor; unfold first_uni, first_high in *; [lia| |unfold XKB_KEYSYM_UNICODE_MIN, XKB_KEYSYM_UNICODE_MAX; lia].
      cbn [Nat.pred]. lia.
    + rewrite next_low by (unfold first_uni in *; lia). eexists _, _. split; [done|].
      replace (Z.of_nat j + 1) with (Z.of_nat (S j)) by lia. rewrite Nat2Z.id. apply ph_low. unfold first_uni in *. lia.
  - destruct (decide (k = XKB_KEYSYM_UNICODE_MAX)) as [->|Hne].
    + destruct (next_leave j Hj Hk) as [-> ->]. eexists _, _. split; [done|]. apply ph_high. unfold first_high, count. lia.
    + destruct (next_uni j k Hj Hk) as (j' & -> & Hj' & Hk'); [lia|]. eexists _, _. split; [done|]. apply ph_uni; [done|done|lia].
  - destruct (decide (j = Nat.pred count)) as [->|Hne].
    + replace (Z.of_nat (Nat.pred count)) with (Z.of_nat count - 1) by (unfold count; lia). rewrite next_end.
      eexists _, _. split; [done|]. replace (Z.of_nat count - 1) with (Z.of_nat (Nat.pred count)) by (unfold count; lia). by constructor.
    + rewrite next_high by lia. eexists _, _. split; [done|]. apply ph_high. unfold count in *. cbn [Nat.pred] in *. lia.
Qed.

Lemma iterate_phase n it it' : phase it → iterate n it = Some it' → phase it'.
Proof.
  revert it. induction n as [|n IH]; intros it Hp; cbn [iterate]; [by intros [= <-]|].
  destruct (next_phase it Hp) as (b & it1 & -> & Hp1). destruct b; [by apply IH|done].
Qed.

(** ** What is reached *)

Definition reached (it : xkb_keysym_iterator) : Prop := ∃ n, (0 < n)%nat ∧ iterate n (xkb_keysym_iterator_new false) = Some it.

Lemma reached_next it it' : reached it → xkb_keysym_iterator_next it = Some (true, it') → reached it'.
Proof. intros (n & Hn & H) Hx. exists (S n). split; [lia|]. by eapply iterate_S. Qed.

Lemma reached_low j : (j < first_uni)%nat → reached (iter (Z.of_nat j) (nth_keysym j)).
Proof.
  induction j as [|j IH]; intros Hj.
  - exists 1%nat. split; [lia|]. cbn [iterate]. unfold xkb_keysym_iterator_new. rewrite next_low by (unfold first_uni; lia). done.
  - eapply reached_next; [apply IH; lia|]. rewrite next_low by lia. replace (Z.of_nat j + 1) with (Z.of_nat (S j)) by lia. by rewrite Nat2Z.id.
Qed.

Lemma reached_uni (n : nat) :
  XKB_KEYSYM_UNICODE_MIN + Z.of_nat n <= XKB_KEYSYM_UNICODE_MAX →
  ∃ j, reached (iter (Z.of_nat j) (XKB_KEYSYM_UNICODE_MIN + Z.of_nat n)) ∧ (first_uni <= j <= first_high)%nat ∧
    nth_keysym (Nat.pred j) < XKB_KEYSYM_UNICODE_MIN + Z.of_nat n <= nth_keysym j.
Proof.
  induction n as [|n IH]; intros Hn.
  - exists first_uni. rewrite Z.add_0_r. split.
    + eapply reached_next; [|apply next_enter]. apply reached_low. unfold first_uni. lia.
    + destruct table_shape as (_ & E1 & E2 & _). split; [unfold first_uni, first_high; lia|].
      unfold first_uni in *. cbn [Nat.pred]. unfold XKB_KEYSYM_UNICODE_MIN. lia.
  - destruct IH as (j & Hr & Hj & Hk); [lia|]. destruct (next_uni j _ Hj Hk) as (j' & Hx & Hj' & Hk'); [lia|]. exists j'.
    replace (XKB_KEYSYM_UNICODE_MIN + Z.of_nat (S n)) with (XKB_KEYSYM_UNICODE_MIN + Z.of_nat n + 1) by lia.
    split; [by eapply reached_next|done].
Qed.

Lemma reached_high j : (first_high < j < count)%nat → reached (iter (Z.of_nat j) (nth_keysym j)).
Proof.
  induction j as [|j IH]; intros Hj; [lia|]. destruct (decide (j = first_high)) as [->|Hne].
  - destruct (reached_uni (Z.to_nat (XKB_KEYSYM_UNICODE_MAX - XKB_KEYSYM_UNICODE_MIN))) as (j & Hr & Hj' & Hk).
    { unfold XKB_KEYSYM_UNICODE_MAX, XKB_KEYSYM_UNICODE_MIN. lia. }
    rewrite Z2Nat.id in Hr, Hk by (unfold XKB_KEYSYM_UNICODE_MAX, XKB_KEYSYM_UNICODE_MIN; lia).
    rewrite Zplus_minus in Hr, Hk. destruct (next_leave j Hj' Hk) as [-> Hx]. by eapply reached_next.
  - eapply reached_next; [apply IH; lia|]. apply next_high. unfold count in *. cbn [Nat.pred]. lia.
Qed.

Lemma named_index ks : (∃ e, e ∈ keysym_to_name ∧ e.1 = ks) ↔ ∃ j, (j < count)%nat ∧ nth_keysym j = ks.
Proof.
  split.
  - intros (e & He & <-). apply list_elem_of_lookup_1 in He as [j Hj]. exists j. pose proof (lookup_lt_Some _ _ _ Hj) as Hl.
    rewrite length_keysyms in Hl. split; [done|]. unfold nth_keysym. by rewrite Hj.
  - intros (j & Hj & <-). destruct (nth_lookup j Hj) as (e & He & E). exists e. split; [by eapply list_elem_of_lookup_2|done].
Qed.

Lemma assigned_iff ks :
  xkb_keysym_is_assigned ks = Some true ↔
  XKB_KEYSYM_UNICODE_MIN <= ks <= XKB_KEYSYM_UNICODE_MAX ∨ ∃ j, (j < count)%nat ∧ nth_keysym j = ks.
Proof.
  unfold xkb_keysym_is_assigned. destruct ((_ <=? ks) && _) eqn:E; zbool; [split; [intros _; left; lia|done]| |];
    rewrite <- named_index; destruct (find_index_spec ks) as (r & -> & Hr); cbn [mbind option_bind].
  all: destruct Hr as [(e & He & <-)|[-> Hno]];
    [apply elem_inv in He as [? He]; rewrite (proj2 (Z.eqb_neq r (-1))) by lia; split; [intros _; right; exists e; split; [by eapply list_elem_of_lookup_2|done]|done]|].
  all: split; [done|]; intros [Hu|(e & He & Ee)]; [lia|by specialize (Hno e He)].
Qed.

Lemma low_uni_high j : (j < count)%nat →
  (j < first_uni)%nat ∨ XKB_KEYSYM_UNICODE_MIN <= nth_keysym j <= XKB_KEYSYM_UNICODE_MAX ∨ j = first_high ∨ (first_high < j < count)%nat.
Proof.
  intros Hj. destruct (decide (j < first_uni)%nat); [by left|]. destruct (decide (j < first_high)%nat).
  - right. left. pose proof (nth_uni j ltac:(lia)). unfold XKB_KEYSYM_UNICODE_MIN, XKB_KEYSYM_UNICODE_MAX. lia.
  - destruct (decide (j = first_high)); [by right; right; left|]. right. right. right. lia.
Qed.

(** ** The theorems *)

(** The iterator over the named keysyms visits the whole table in order,
    and then stops. *)
Theorem explicit_iteration j :
  (j < count)%nat →
  iterate (S j) (xkb_keysym_iterator_new true) = Some (mk_iter true (Z.of_nat j) (nth_keysym j)) ∧
  (S j = count → xkb_keysym_iterator_next (mk_iter true (Z.of_nat j) (nth_keysym j)) = Some (false, mk_iter true (Z.of_nat j) (nth_keysym j))).
Proof.
  intros Hj. split.
  - induction j as [|j IH].
    + cbn [iterate]. unfold xkb_keysym_iterator_new. rewrite next_explicit by (unfold count; lia). done.
    + eapply iterate_S; [apply IH; lia|]. rewrite next_explicit by lia.
      replace (Z.of_nat j + 1) with (Z.of_nat (S j)) by lia. by rewrite Nat2Z.id.
  - intros E. unfold xkb_keysym_iterator_next. rewrite length_keysyms. by rewrite (proj2 (Z.leb_le _ _)) by lia.
Qed.

Lemma explicit_iteration_witness :
  iterate 3 (xkb_keysym_iterator_new true) = Some (mk_iter true 2 (nth_keysym 2)) ∧
  (3%nat = count → xkb_keysym_iterator_next (mk_iter true 2 (nth_keysym 2)) = Some (false, mk_iter true 2 (nth_keysym 2))).
Proof. apply (explicit_iteration 2). unfold count. lia. Defined.

(** The iterator over the assigned keysyms visits exactly the assigned
    keysyms but one: the first named keysym after the Unicode range,
    hpmute_acute, is passed over. *)
Theorem iterator_misses_one ks :
  (∃ it, reached it ∧ xkb_keysym_iterator_get_keysym it = ks) ↔ xkb_keysym_is_assigned ks = Some true ∧ ks ≠ 0x100000a8.
Proof.
  rewrite assigned_iff. destruct table_shape as (_ & _ & _ & _ & Eh & _). split.
  - intros (it & (n & Hn & Hit) & <-). apply iterate_phase in Hit as Hp; [|constructor].
    unfold xkb_keysym_iterator_get_keysym. destruct Hp as [|j Hj|j k Hj Hk Hr|j Hj]; cbn [it_keysym].
    + split; [left; unfold XKB_KEYSYM_UNICODE_MIN, XKB_KEYSYM_UNICODE_MAX; lia|done].
    + split; [right; exists j; split; [unfold first_uni, count in *; lia|done]|]. pose proof (nth_low j Hj). lia.
    + split; [by left|]. unfold XKB_KEYSYM_UNICODE_MAX in Hr. lia.
    + split; [right; exists j; split; [lia|done]|]. pose proof (nth_increasing first_high j ltac:(lia) ltac:(lia)). lia.
  - intros [Ha Hne]. assert (∀ k, XKB_KEYSYM_UNICODE_MIN <= k <= XKB_KEYSYM_UNICODE_MAX → ∃ it, reached it ∧ it_keysym it = k) as Huni.
    { intros k Hk. destruct (reached_uni (Z.to_nat (k - XKB_KEYSYM_UNICODE_MIN))) as (j & Hr & _); [lia|].
      rewrite Z2Nat.id, Zplus_minus in Hr by lia. eauto. }
    destruct Ha as [Hu|(j & Hj & <-)]; [by apply Huni|].
    destruct (low_uni_high j Hj) as [Hl|[Hu|[->|Hh]]]; [|by apply Huni|congruence|].
    + eexists. split; [by apply reached_low|done].
    + eexists. split; [by apply reached_high|done].
Qed.
