(* ===== verification/XkbCase.v ===== *)
(** * The case of keysyms

    Models the case conversion of libxkbcommon/build/src/keysym.c:
    [UCSConvertCase] for Unicode code points with its tables, [XConvertCase]
    for keysyms, and the functions built on them. *)

From S2P Require Import Prelude XkbKeysym XkbKeysymSpec.
Open Scope Z_scope.

(** ** The tables *)

Definition IPAExt_upper_mapping : list Z :=
  [
   0x0181; 0x0186; 0x0255; 0x0189; 0x018A; 0x0258; 0x018F; 0x025A; 0x0190; 0x025C; 0x025D; 0x025E; 0x025F;
   0x0193; 0x0261; 0x0262; 0x0194; 0x0264; 0x0265; 0x0266; 0x0267; 0x0197; 0x0196; 0x026A; 0x026B; 0x026C;
   0x026D; 0x026E; 0x019C; 0x0270; 0x0271; 0x019D; 0x0273; 0x0274; 0x019F; 0x0276; 0x0277; 0x0278; 0x0279;
   0x027A; 0x027B; 0x027C; 0x027D; 0x027E; 0x027F; 0x01A6; 0x0281; 0x0282; 0x01A9; 0x0284; 0x0285; 0x0286;
   0x0287; 0x01AE; 0x0289; 0x01B1; 0x01B2; 0x028C; 0x028D; 0x028E; 0x028F; 0x0290; 0x0291; 0x01B7
  ].

Definition LatinExtB_upper_mapping : list Z :=
  [
   0x0180; 0x0181; 0x0182; 0x0182; 0x0184; 0x0184; 0x0186; 0x0187; 0x0187; 0x0189; 0x018A; 0x018B; 0x018B;
   0x018D; 0x018E; 0x018F; 0x0190; 0x0191; 0x0191; 0x0193; 0x0194; 0x01F6; 0x0196; 0x0197; 0x0198; 0x0198;
   0x019A; 0x019B; 0x019C; 0x019D; 0x0220; 0x019F; 0x01A0; 0x01A0; 0x01A2; 0x01A2; 0x01A4; 0x01A4; 0x01A6;
   0x01A7; 0x01A7; 0x01A9; 0x01AA; 0x01AB; 0x01AC; 0x01AC; 0x01AE; 0x01AF; 0x01AF; 0x01B1; 0x01B2; 0x01B3;
   0x01B3; 0x01B5; 0x01B5; 0x01B7; 0x01B8; 0x01B8; 0x01BA; 0x01BB; 0x01BC; 0x01BC; 0x01BE; 0x01F7; 0x01C0;
   0x01C1; 0x01C2; 0x01C3; 0x01C4; 0x01C4; 0x01C4; 0x01C7; 0x01C7; 0x01C7; 0x01CA; 0x01CA; 0x01CA
  ].

Definition LatinExtB_lower_mapping : list Z :=
  [
   0x0180; 0x0253; 0x0183; 0x0183; 0x0185; 0x0185; 0x0254; 0x0188; 0x0188; 0x0256; 0x0257; 0x018C; 0x018C;
   0x018D; 0x01DD; 0x0259; 0x025B; 0x0192; 0x0192; 0x0260; 0x0263; 0x0195; 0x0269; 0x0268; 0x0199; 0x0199;
   0x019A; 0x019B; 0x026F; 0x0272; 0x019E; 0x0275; 0x01A1; 0x01A1; 0x01A3; 0x01A3; 0x01A5; 0x01A5; 0x0280;
   0x01A8; 0x01A8; 0x0283; 0x01AA; 0x01AB; 0x01AD; 0x01AD; 0x0288; 0x01B0; 0x01B0; 0x028A; 0x028B; 0x01B4;
   0x01B4; 0x01B6; 0x01B6; 0x0292; 0x01B9; 0x01B9; 0x01BA; 0x01BB; 0x01BD; 0x01BD; 0x01BE; 0x01BF; 0x01C0;
   0x01C1; 0x01C2; 0x01C3; 0x01C6; 0x01C6; 0x01C6; 0x01C9; 0x01C9; 0x01C9; 0x01CC; 0x01CC; 0x01CC
  ].

Definition Greek_upper_mapping : list Z :=
  [
   0x0000; 0x0000; 0x0000; 0x0000; 0x0374; 0x0375; 0x0000; 0x0000; 0x0000; 0x0000; 0x037A; 0x0000; 0x0000;
   0x0000; 0x037E; 0x0000; 0x0000; 0x0000; 0x0000; 0x0000; 0x0384; 0x0385; 0x0386; 0x0387; 0x0388; 0x0389;
   0x038A; 0x0000; 0x038C; 0x0000; 0x038E; 0x038F; 0x0390; 0x0391; 0x0392; 0x0393; 0x0394; 0x0395; 0x0396;
   0x0397; 0x0398; 0x0399; 0x039A; 0x039B; 0x039C; 0x039D; 0x039E; 0x039F; 0x03A0; 0x03A1; 0x0000; 0x03A3;
   0x03A4; 0x03A5; 0x03A6; 0x03A7; 0x03A8; 0x03A9; 0x03AA; 0x03AB; 0x0386; 0x0388; 0x0389; 0x038A; 0x03B0;
   0x0391; 0x0392; 0x0393; 0x0394; 0x0395; 0x0396; 0x0397; 0x0398; 0x0399; 0x039A; 0x039B; 0x039C; 0x039D;
   0x039E; 0x039F; 0x03A0; 0x03A1; 0x03A3; 0x03A3; 0x03A4; 0x03A5; 0x03A6; 0x03A7; 0x03A8; 0x03A9; 0x03AA;
   0x03AB; 0x038C; 0x038E; 0x038F; 0x0000; 0x0392; 0x0398; 0x03D2; 0x03D3; 0x03D4; 0x03A6; 0x03A0; 0x03D7;
   0x03D8; 0x03D8; 0x03DA; 0x03DA; 0x03DC; 0x03DC; 0x03DE; 0x03DE; 0x03E0; 0x03E0; 0x03E2; 0x03E2; 0x03E4;
   0x03E4; 0x03E6; 0x03E6; 0x03E8; 0x03E8; 0x03EA; 0x03EA; 0x03EC; 0x03EC; 0x03EE; 0x03EE; 0x039A; 0x03A1;
   0x03F9; 0x03F3; 0x03F4; 0x0395; 0x03F6; 0x03F7; 0x03F7; 0x03F9; 0x03FA; 0x03FA; 0x0000; 0x0000; 0x0000;
   0x0000
  ].

Definition Greek_lower_mapping : list Z :=
  [
   0x0000; 0x0000; 0x0000; 0x0000; 0x0374; 0x0375; 0x0000; 0x0000; 0x0000; 0x0000; 0x037A; 0x0000; 0x0000;
   0x0000; 0x037E; 0x0000; 0x0000; 0x0000; 0x0000; 0x0000; 0x0384; 0x0385; 0x03AC; 0x0387; 0x03AD; 0x03AE;
   0x03AF; 0x0000; 0x03CC; 0x0000; 0x03CD; 0x03CE; 0x0390; 0x03B1; 0x03B2; 0x03B3; 0x03B4; 0x03B5; 0x03B6;
   0x03B7; 0x03B8; 0x03B9; 0x03BA; 0x03BB; 0x03BC; 0x03BD; 0x03BE; 0x03BF; 0x03C0; 0x03C1; 0x0000; 0x03C3;
   0x03C4; 0x03C5; 0x03C6; 0x03C7; 0x03C8; 0x03C9; 0x03CA; 0x03CB; 0x03AC; 0x03AD; 0x03AE; 0x03AF; 0x03B0;
   0x03B1; 0x03B2; 0x03B3; 0x03B4; 0x03B5; 0x03B6; 0x03B7; 0x03B8; 0x03B9; 0x03BA; 0x03BB; 0x03BC; 0x03BD;
   0x03BE; 0x03BF; 0x03C0; 0x03C1; 0x03C2; 0x03C3; 0x03C4; 0x03C5; 0x03C6; 0x03C7; 0x03C8; 0x03C9; 0x03CA;
   0x03CB; 0x03CC; 0x03CD; 0x03CE; 0x0000; 0x03D0; 0x03D1; 0x03D2; 0x03D3; 0x03D4; 0x03D5; 0x03D6; 0x03D7;
   0x03D9; 0x03D9; 0x03DB; 0x03DB; 0x03DD; 0x03DD; 0x03DF; 0x03DF; 0x03E1; 0x03E1; 0x03E3; 0x03E3; 0x03E5;
   0x03E5; 0x03E7; 0x03E7; 0x03E9; 0x03E9; 0x03EB; 0x03EB; 0x03ED; 0x03ED; 0x03EF; 0x03EF; 0x03F0; 0x03F1;
   0x03F2; 0x03F3; 0x03B8; 0x03F5; 0x03F6; 0x03F8; 0x03F8; 0x03F2; 0x03FB; 0x03FB; 0x0000; 0x0000; 0x0000;
   0x0000
  ].

Definition GreekExt_lower_mapping : list Z :=
  [
   0x1F00; 0x1F01; 0x1F02; 0x1F03; 0x1F04; 0x1F05; 0x1F06; 0x1F07; 0x1F00; 0x1F01; 0x1F02; 0x1F03; 0x1F04;
   0x1F05; 0x1F06; 0x1F07; 0x1F10; 0x1F11; 0x1F12; 0x1F13; 0x1F14; 0x1F15; 0x0000; 0x0000; 0x1F10; 0x1F11;
   0x1F12; 0x1F13; 0x1F14; 0x1F15; 0x0000; 0x0000; 0x1F20; 0x1F21; 0x1F22; 0x1F23; 0x1F24; 0x1F25; 0x1F26;
   0x1F27; 0x1F20; 0x1F21; 0x1F22; 0x1F23; 0x1F24; 0x1F25; 0x1F26; 0x1F27; 0x1F30; 0x1F31; 0x1F32; 0x1F33;
   0x1F34; 0x1F35; 0x1F36; 0x1F37; 0x1F30; 0x1F31; 0x1F32; 0x1F33; 0x1F34; 0x1F35; 0x1F36; 0x1F37; 0x1F40;
   0x1F41; 0x1F42; 0x1F43; 0x1F44; 0x1F45; 0x0000; 0x0000; 0x1F40; 0x1F41; 0x1F42; 0x1F43; 0x1F44; 0x1F45;
   0x0000; 0x0000; 0x1F50; 0x1F51; 0x1F52; 0x1F53; 0x1F54; 0x1F55; 0x1F56; 0x1F57; 0x0000; 0x1F51; 0x0000;
   0x1F53; 0x0000; 0x1F55; 0x0000; 0x1F57; 0x1F60; 0x1F61; 0x1F62; 0x1F63; 0x1F64; 0x1F65; 0x1F66; 0x1F67;
   0x1F60; 0x1F61; 0x1F62; 0x1F63; 0x1F64; 0x1F65; 0x1F66; 0x1F67; 0x1F70; 0x1F71; 0x1F72; 0x1F73; 0x1F74;
   0x1F75; 0x1F76; 0x1F77; 0x1F78; 0x1F79; 0x1F7A; 0x1F7B; 0x1F7C; 0x1F7D; 0x0000; 0x0000; 0x1F80; 0x1F81;
   0x1F82; 0x1F83; 0x1F84; 0x1F85; 0x1F86; 0x1F87; 0x1F80; 0x1F81; 0x1F82; 0x1F83; 0x1F84; 0x1F85; 0x1F86;
   0x1F87; 0x1F90; 0x1F91; 0x1F92; 0x1F93; 0x1F94; 0x1F95; 0x1F96; 0x1F97; 0x1F90; 0x1F91; 0x1F92; 0x1F93;
   0x1F94; 0x1F95; 0x1F96; 0x1F97; 0x1FA0; 0x1FA1; 0x1FA2; 0x1FA3; 0x1FA4; 0x1FA5; 0x1FA6; 0x1FA7; 0x1FA0;
   0x1FA1; 0x1FA2; 0x1FA3; 0x1FA4; 0x1FA5; 0x1FA6; 0x1FA7; 0x1FB0; 0x1FB1; 0x1FB2; 0x1FB3; 0x1FB4; 0x0000;
   0x1FB6; 0x1FB7; 0x1FB0; 0x1FB1; 0x1F70; 0x1F71; 0x1FB3; 0x1FBD; 0x1FBE; 0x1FBF; 0x1FC0; 0x1FC1; 0x1FC2;
   0x1FC3; 0x1FC4; 0x0000; 0x1FC6; 0x1FC7; 0x1F72; 0x1F73; 0x1F74; 0x1F75; 0x1FC3; 0x1FCD; 0x1FCE; 0x1FCF;
   0x1FD0; 0x1FD1; 0x1FD2; 0x1FD3; 0x0000; 0x0000; 0x1FD6; 0x1FD7; 0x1FD0; 0x1FD1; 0x1F76; 0x1F77; 0x0000;
   0x1FDD; 0x1FDE; 0x1FDF; 0x1FE0; 0x1FE1; 0x1FE2; 0x1FE3; 0x1FE4; 0x1FE5; 0x1FE6; 0x1FE7; 0x1FE0; 0x1FE1;
   0x1F7A; 0x1F7B; 0x1FE5; 0x1FED; 0x1FEE; 0x1FEF; 0x0000; 0x0000; 0x1FF2; 0x1FF3; 0x1FF4; 0x0000; 0x1FF6;
   0x1FF7; 0x1F78; 0x1F79; 0x1F7C; 0x1F7D; 0x1FF3; 0x1FFD; 0x1FFE; 0x0000
  ].

Definition GreekExt_upper_mapping : list Z :=
  [
   0x1F08; 0x1F09; 0x1F0A; 0x1F0B; 0x1F0C; 0x1F0D; 0x1F0E; 0x1F0F; 0x1F08; 0x1F09; 0x1F0A; 0x1F0B; 0x1F0C;
   0x1F0D; 0x1F0E; 0x1F0F; 0x1F18; 0x1F19; 0x1F1A; 0x1F1B; 0x1F1C; 0x1F1D; 0x0000; 0x0000; 0x1F18; 0x1F19;
   0x1F1A; 0x1F1B; 0x1F1C; 0x1F1D; 0x0000; 0x0000; 0x1F28; 0x1F29; 0x1F2A; 0x1F2B; 0x1F2C; 0x1F2D; 0x1F2E;
   0x1F2F; 0x1F28; 0x1F29; 0x1F2A; 0x1F2B; 0x1F2C; 0x1F2D; 0x1F2E; 0x1F2F; 0x1F38; 0x1F39; 0x1F3A; 0x1F3B;
   0x1F3C; 0x1F3D; 0x1F3E; 0x1F3F; 0x1F38; 0x1F39; 0x1F3A; 0x1F3B; 0x1F3C; 0x1F3D; 0x1F3E; 0x1F3F; 0x1F48;
   0x1F49; 0x1F4A; 0x1F4B; 0x1F4C; 0x1F4D; 0x0000; 0x0000; 0x1F48; 0x1F49; 0x1F4A; 0x1F4B; 0x1F4C; 0x1F4D;
   0x0000; 0x0000; 0x1F50; 0x1F59; 0x1F52; 0x1F5B; 0x1F54; 0x1F5D; 0x1F56; 0x1F5F; 0x0000; 0x1F59; 0x0000;
   0x1F5B; 0x0000; 0x1F5D; 0x0000; 0x1F5F; 0x1F68; 0x1F69; 0x1F6A; 0x1F6B; 0x1F6C; 0x1F6D; 0x1F6E; 0x1F6F;
   0x1F68; 0x1F69; 0x1F6A; 0x1F6B; 0x1F6C; 0x1F6D; 0x1F6E; 0x1F6F; 0x1FBA; 0x1FBB; 0x1FC8; 0x1FC9; 0x1FCA;
   0x1FCB; 0x1FDA; 0x1FDB; 0x1FF8; 0x1FF9; 0x1FEA; 0x1FEB; 0x1FFA; 0x1FFB; 0x0000; 0x0000; 0x1F88; 0x1F89;
   0x1F8A; 0x1F8B; 0x1F8C; 0x1F8D; 0x1F8E; 0x1F8F; 0x1F88; 0x1F89; 0x1F8A; 0x1F8B; 0x1F8C; 0x1F8D; 0x1F8E;
   0x1F8F; 0x1F98; 0x1F99; 0x1F9A; 0x1F9B; 0x1F9C; 0x1F9D; 0x1F9E; 0x1F9F; 0x1F98; 0x1F99; 0x1F9A; 0x1F9B;
   0x1F9C; 0x1F9D; 0x1F9E; 0x1F9F; 0x1FA8; 0x1FA9; 0x1FAA; 0x1FAB; 0x1FAC; 0x1FAD; 0x1FAE; 0x1FAF; 0x1FA8;
   0x1FA9; 0x1FAA; 0x1FAB; 0x1FAC; 0x1FAD; 0x1FAE; 0x1FAF; 0x1FB8; 0x1FB9; 0x1FB2; 0x1FBC; 0x1FB4; 0x0000;
   0x1FB6; 0x1FB7; 0x1FB8; 0x1FB9; 0x1FBA; 0x1FBB; 0x1FBC; 0x1FBD; 0x0399; 0x1FBF; 0x1FC0; 0x1FC1; 0x1FC2;
   0x1FCC; 0x1FC4; 0x0000; 0x1FC6; 0x1FC7; 0x1FC8; 0x1FC9; 0x1FCA; 0x1FCB; 0x1FCC; 0x1FCD; 0x1FCE; 0x1FCF;
   0x1FD8; 0x1FD9; 0x1FD2; 0x1FD3; 0x0000; 0x0000; 0x1FD6; 0x1FD7; 0x1FD8; 0x1FD9; 0x1FDA; 0x1FDB; 0x0000;
   0x1FDD; 0x1FDE; 0x1FDF; 0x1FE8; 0x1FE9; 0x1FE2; 0x1FE3; 0x1FE4; 0x1FEC; 0x1FE6; 0x1FE7; 0x1FE8; 0x1FE9;
   0x1FEA; 0x1FEB; 0x1FEC; 0x1FED; 0x1FEE; 0x1FEF; 0x0000; 0x0000; 0x1FF2; 0x1FFC; 0x1FF4; 0x0000; 0x1FF6;
   0x1FF7; 0x1FF8; 0x1FF9; 0x1FFA; 0x1FFB; 0x1FFC; 0x1FFD; 0x1FFE; 0x0000
  ].

(** ** The code *)

Definition within (lo hi c : Z) : bool := (lo <=? c) && (c <=? hi).
Definition odd (c : Z) : bool := negb (Z.land c 1 =? 0).

(** A pair is [*lower] and [*upper].  Code points up to U+00FF. *)
Definition latin1_case (code : Z) : Z * Z :=
  if within 0x41 0x5a code then (code + 0x20, code)
  else if within 0x61 0x7a code then (code, code - 0x20)
  else if within 0xc0 0xd6 code || within 0xd8 0xde code then (code + 0x20, code)
  else if within 0xe0 0xf6 code || within 0xf8 0xfe code then (code, code - 0x20)
  else if code =? 0xff then (code, 0x178)
  else if code =? 0xb5 then (code, 0x39c)
  else (code, code).

Definition latin_ext_a_case (code : Z) : Z * Z :=
  if within 0x100 0x12f code || within 0x132 0x137 code || within 0x14a 0x177 code then (Z.lor code 1, Z.land code (Z.lnot 1))
  else if within 0x139 0x148 code || within 0x179 0x17e code then
    if odd code then (code + 1, code) else (code, code - 1)
  else if code =? 0x130 then (0x69, code)
  else if code =? 0x131 then (code, 0x49)
  else if code =? 0x178 then (0xff, code)
  else if code =? 0x17f then (code, 0x53)
  else (code, code).

Definition latin_ext_b_case (code : Z) : option (Z * Z) :=
  if within 0x1cd 0x1dc code then Some (if odd code then (code + 1, code) else (code, code - 1))
  else if within 0x1de 0x1ef code || within 0x1f4 0x1f5 code || within 0x1f8 0x21f code || within 0x222 0x233 code
  then Some (Z.lor code 1, Z.land code (Z.lnot 1))
  else if within 0x180 0x1cc code then
    l ← elem LatinExtB_lower_mapping (code - 0x180);
    u ← elem LatinExtB_upper_mapping (code - 0x180);
    Some (l, u)
  else if code =? 0x1dd then Some (code, 0x18e)
  else if (code =? 0x1f1) || (code =? 0x1f2) then Some (0x1f3, 0x1f1)
  else if code =? 0x1f3 then Some (code, 0x1f1)
  else if code =? 0x1f6 then Some (0x195, code)
  else if code =? 0x1f7 then Some (0x1bf, code)
  else if code =? 0x220 then Some (0x19e, code)
  else Some (code, code).

(** Two tables in which zero stands for the code point itself. *)
Definition table_case (lower upper : list Z) (base code : Z) : option (Z * Z) :=
  l ← elem lower (code - base);
  u ← elem upper (code - base);
  Some (if l =? 0 then code else l, if u =? 0 then code else u).

Definition cyrillic_case (code : Z) (p : Z * Z) : Z * Z :=
  let '(l, u) := p in
  if within 0x400 0x40f code then (l + 0x50, u)
  else if within 0x410 0x42f code then (l + 0x20, u)
  else if within 0x430 0x44f code then (l, u - 0x20)
  else if within 0x450 0x45f code then (l, u - 0x50)
  else if within 0x460 0x481 code || within 0x48a 0x4bf code || within 0x4d0 0x4f5 code || within 0x4f8 0x4f9 code ||
          within 0x500 0x50f code
  then (Z.lor l 1, Z.land u (Z.lnot 1))
  else if within 0x4c1 0x4ce code then if odd code then (l + 1, u) else (l, u - 1)
  else p.

Definition armenian_case (code : Z) (p : Z * Z) : Z * Z :=
  let '(l, u) := p in
  if within 0x531 0x556 code then (l + 0x30, u)
  else if within 0x561 0x586 code then (l, u - 0x30)
  else p.

Definition latin_ext_additional_case (code : Z) (p : Z * Z) : Z * Z :=
  let '(l, u) := p in
  if within 0x1e00 0x1e95 code || within 0x1ea0 0x1ef9 code then (Z.lor l 1, Z.land u (Z.lnot 1))
  else if code =? 0x1e9b then (l, 0x1e60)
  else if code =? 0x1e9e then (0xdf, u)
  else p.

(** The last chain of ranges. *)
Definition symbols_case (code : Z) (p : Z * Z) : Z * Z :=
  let '(l, u) := p in
  if within 0x2100 0x214f code then
    if code =? 0x2126 then (0x3c9, u)
    else if code =? 0x212a then (0x6b, u)
    else if code =? 0x212b then (0xe5, u)
    else p
  else if within 0x2160 0x216f code then (l + 0x10, u)
  else if within 0x2170 0x217f code then (l, u - 0x10)
  else if within 0x24b6 0x24cf code then (l + 0x1a, u)
  else if within 0x24d0 0x24e9 code then (l, u - 0x1a)
  else if within 0xff21 0xff3a code then (l + 0x20, u)
  else if within 0xff41 0xff5a code then (l, u - 0x20)
  else if within 0x10400 0x10427 code then (l + 0x28, u)
  else if within 0x10428 0x1044f code then (l, u - 0x28)
  else p.

Definition UCSConvertCase (code : Z) : option (Z * Z) :=
  if code <=? 0xff then Some (latin1_case code)
  else if within 0x100 0x17f code then Some (latin_ext_a_case code)
  else if within 0x180 0x24f code then latin_ext_b_case code
  else
    p ← (if within 0x253 0x292 code then u ← elem IPAExt_upper_mapping (code - 0x253); Some (code, u) else Some (code, code));
    let p := if code =? 0x345 then (p.1, 0x399) else p in
    p ← (if within 0x370 0x3ff code then table_case Greek_lower_mapping Greek_upper_mapping 0x370 code else Some p);
    let p := if within 0x400 0x4ff code || within 0x500 0x52f code then cyrillic_case code p else p in
    let p := if within 0x530 0x58f code then armenian_case code p else p in
    let p := if within 0x1e00 0x1eff code then latin_ext_additional_case code p else p in
    p ← (if within 0x1f00 0x1fff code then table_case GreekExt_lower_mapping GreekExt_upper_mapping 0x1f00 code else Some p);
    Some (symbols_case code p).

(** The legacy keysyms by their upper byte; the names are those of
    xkbcommon-keysyms.h. *)
Definition latin2_case (sym : Z) : Z * Z :=
  if sym =? 0x1a1 (* Aogonek *) then (0x1b1, sym)
  else if within 0x1a3 0x1a6 sym (* Lstroke, Sacute *) then (sym + 0x10, sym)
  else if within 0x1a9 0x1ac sym (* Scaron, Zacute *) then (sym + 0x10, sym)
  else if within 0x1ae 0x1af sym (* Zcaron, Zabovedot *) then (sym + 0x10, sym)
  else if sym =? 0x1b1 then (sym, 0x1a1)
  else if within 0x1b3 0x1b6 sym then (sym, sym - 0x10)
  else if within 0x1b9 0x1bc sym then (sym, sym - 0x10)
  else if within 0x1be 0x1bf sym then (sym, sym - 0x10)
  else if within 0x1c0 0x1de sym (* Racute, Tcedilla *) then (sym + 0x20, sym)
  else if within 0x1e0 0x1fe sym then (sym, sym - 0x20)
  else (sym, sym).

Definition latin3_case (sym : Z) : Z * Z :=
  if within 0x2a1 0x2a6 sym (* Hstroke, Hcircumflex *) then (sym + 0x10, sym)
  else if within 0x2ab 0x2ac sym (* Gbreve, Jcircumflex *) then (sym + 0x10, sym)
  else if within 0x2b1 0x2b6 sym then (sym, sym - 0x10)
  else if within 0x2bb 0x2bc sym then (sym, sym - 0x10)
  else if within 0x2c5 0x2de sym (* Cabovedot, Scircumflex *) then (sym + 0x20, sym)
  else if within 0x2e5 0x2fe sym then (sym, sym - 0x20)
  else (sym, sym).

Definition latin4_case (sym : Z) : Z * Z :=
  if within 0x3a3 0x3ac sym (* Rcedilla, Tslash *) then (sym + 0x10, sym)
  else if within 0x3b3 0x3bc sym then (sym, sym - 0x10)
  else if sym =? 0x3bd (* ENG *) then (0x3bf, sym)
  else if sym =? 0x3bf then (sym, 0x3bd)
  else if within 0x3c0 0x3de sym (* Amacron, Umacron *) then (sym + 0x20, sym)
  else if within 0x3e0 0x3fe sym then (sym, sym - 0x20)
  else (sym, sym).

Definition cyrillic_legacy_case (sym : Z) : Z * Z :=
  if within 0x6b1 0x6bf sym (* Serbian_DJE, Cyrillic_DZHE *) then (sym - 0x10, sym)
  else if within 0x6a1 0x6af sym then (sym, sym + 0x10)
  else if within 0x6e0 0x6ff sym (* Cyrillic_YU, Cyrillic_HARDSIGN *) then (sym - 0x20, sym)
  else if within 0x6c0 0x6df sym then (sym, sym + 0x20)
  else (sym, sym).

Definition greek_legacy_case (sym : Z) : Z * Z :=
  if within 0x7a1 0x7ab sym (* Greek_ALPHAaccent, Greek_OMEGAaccent *) then (sym + 0x10, sym)
  else if within 0x7b1 0x7bb sym && negb (sym =? 0x7b6) && negb (sym =? 0x7ba) then (sym, sym - 0x10)
  else if within 0x7c1 0x7d9 sym (* Greek_ALPHA, Greek_OMEGA *) then (sym + 0x20, sym)
  else if within 0x7e1 0x7f9 sym && negb (sym =? 0x7f3) then (sym, sym - 0x20)
  else (sym, sym).

Definition latin9_case (sym : Z) : Z * Z :=
  if sym =? 0x13bc (* OE *) then (0x13bd, sym)
  else if sym =? 0x13bd then (sym, 0x13bc)
  else if sym =? 0x13be (* Ydiaeresis *) then (0xff, sym)
  else (sym, sym).

Definition XConvertCase (sym : Z) : option (Z * Z) :=
  if sym <? 0xb5 then UCSConvertCase sym
  else if Z.land sym 0xff000000 =? XKB_KEYSYM_UNICODE_OFFSET then
    '(l, u) ← UCSConvertCase (Z.land sym 0x00ffffff);
    Some (Z.lor l XKB_KEYSYM_UNICODE_OFFSET, Z.lor u XKB_KEYSYM_UNICODE_OFFSET)
  else
    match Z.shiftr sym 8 with
    | 0 =>
        if sym =? 0xb5 (* mu *) then Some (sym, 0x7cc)
        else if sym =? 0xff (* ydiaeresis *) then Some (sym, 0x13be)
        else UCSConvertCase sym
    | 1 => Some (latin2_case sym)
    | 2 => Some (latin3_case sym)
    | 3 => Some (latin4_case sym)
    | 6 => Some (cyrillic_legacy_case sym)
    | 7 => Some (greek_legacy_case sym)
    | 0x13 => Some (latin9_case sym)
    | _ => Some (sym, sym)
    end.

Definition xkb_keysym_to_lower (ks : Z) : option Z := fst <$> XConvertCase ks.
Definition xkb_keysym_to_upper (ks : Z) : option Z := snd <$> XConvertCase ks.
Definition xkb_keysym_is_lower (ks : Z) : option bool := '(l, u) ← XConvertCase ks; Some (negb (l =? u) && (ks =? l)).
Definition xkb_keysym_is_upper (ks : Z) : option bool := '(l, u) ← XConvertCase ks; Some (negb (l =? u) && (ks =? u)).

(** ** Evaluation over ranges *)

Lemma forallb_seqZ (f : Z → bool) a n c : forallb f (seqZ a n) = true → a <= c < a + n → f c = true.
Proof.
  intros H Hc. rewrite forallb_forall in H. apply H, list_elem_of_In, elem_of_seqZ. lia.
Qed.

Lemma within_spec lo hi c : within lo hi c = true ↔ lo <= c <= hi.
Proof. unfold within. rewrite andb_true_iff, !Z.leb_le. done. Qed.

Lemma within_out lo hi c : c < lo ∨ hi < c → within lo hi c = false.
Proof. intros H. apply not_true_iff_false. rewrite within_spec. lia. Qed.

(** The code points with case lie in these ranges. *)
Definition case_ranges : list (Z * Z) :=
  [(0, 0x590); (0x1e00, 0x200); (0x2100, 0x80); (0x24b6, 0x34); (0xff21, 0x3a); (0x10400, 0x50)].
Definition in_case_range (c : Z) : Prop := Exists (λ r, r.1 <= c < r.1 + r.2) case_ranges.

Lemma ucs_identity c : 0 <= c → ¬ in_case_range c → UCSConvertCase c = Some (c, c).
Proof.
  intros H0 Hno. assert (0x590 <= c ∧ ¬ (0x1e00 <= c < 0x2000) ∧ ¬ (0x2100 <= c < 0x2180) ∧ ¬ (0x24b6 <= c < 0x24ea) ∧
    ¬ (0xff21 <= c < 0xff5b) ∧ ¬ (0x10400 <= c < 0x10450)) as Hc.
  { repeat split; [apply Z.le_ngt|..]; intros Hc; apply Hno; unfold in_case_range, case_ranges; rewrite !Exists_cons; cbn [fst snd]; lia. }
  clear Hno. unfold UCSConvertCase. rewrite (proj2 (Z.leb_gt c 0xff)) by lia.
  rewrite !(within_out 0x100), !(within_out 0x180), !(within_out 0x253), !(within_out 0x370), !(within_out 0x400), !(within_out 0x500),
    !(within_out 0x530), !(within_out 0x1e00), !(within_out 0x1f00) by lia.
  rewrite (proj2 (Z.eqb_neq c 0x345)) by lia. cbn [mbind option_bind orb]. unfold symbols_case.
  rewrite !(within_out 0x2100), !(within_out 0x2160), !(within_out 0x2170), !(within_out 0x24b6), !(within_out 0x24d0),
    !(within_out 0xff21), !(within_out 0xff41), !(within_out 0x10400), !(within_out 0x10428) by lia.
  done.
Qed.

(** The letters that are neither lower nor upper case: the titlecase digraphs. *)
Definition titlecase (c : Z) : bool := (c =? 0x1c5) || (c =? 0x1c8) || (c =? 0x1cb) || (c =? 0x1f2).

(** What a conversion [conv] promises at [c]. *)
Definition case_ok (conv : Z → option (Z * Z)) (title : Z → bool) (bound c : Z) : bool :=
  match conv c with
  | Some (l, u) =>
      (0 <=? l) && (l <? bound) && (0 <=? u) && (u <? bound) &&
      bool_decide (fst <$> conv l = Some l) && bool_decide (snd <$> conv u = Some u) && ((c =? l) || (c =? u) || title c)
  | None => false
  end.

Lemma case_ok_spec conv title bound c :
  case_ok conv title bound c = true →
  ∃ l u, conv c = Some (l, u) ∧ 0 <= l < bound ∧ 0 <= u < bound ∧ fst <$> conv l = Some l ∧ snd <$> conv u = Some u ∧
    (c = l ∨ c = u ∨ title c = true).
Proof.
  unfold case_ok. destruct (conv c) as [[l u]|]; [|done]. rewrite !andb_true_iff, !orb_true_iff. intros H. exists l, u.
  rewrite !Z.eqb_eq, !Z.leb_le, !Z.ltb_lt, !bool_decide_eq_true in H. tauto.
Qed.

Lemma ucs_checked :
  forallb (λ r, forallb (case_ok UCSConvertCase titlecase (2 ^ 24)) (seqZ r.1 r.2)) case_ranges = true.
Proof. vm_compute. reflexivity. Qed.

Lemma ucs_case c :
  0 <= c < 2 ^ 24 →
  ∃ l u, UCSConvertCase c = Some (l, u) ∧ 0 <= l < 2 ^ 24 ∧ 0 <= u < 2 ^ 24 ∧ fst <$> UCSConvertCase l = Some l ∧
    snd <$> UCSConvertCase u = Some u ∧ (c = l ∨ c = u ∨ titlecase c = true).
Proof.
  intros Hc. destruct (decide (in_case_range c)) as [Hin|Hno].
  - apply case_ok_spec. apply Exists_exists in Hin as (r & Hr & Hcr). pose proof ucs_checked as H. rewrite forallb_forall in H.
    apply list_elem_of_In in Hr. specialize (H r Hr). by apply (forallb_seqZ _ _ _ _ H).
  - exists c, c. rewrite ucs_identity by (done || lia). cbn. auto 10 with lia.
Qed.

(** The legacy keysyms with case lie in these pages. *)
Definition case_pages : list Z := [0; 1; 2; 3; 6; 7; 0x13].

Lemma legacy_checked :
  forallb (λ p, forallb (case_ok XConvertCase (λ _, false) (2 ^ 24)) (seqZ (p * 256) 256)) case_pages = true.
Proof. vm_compute. reflexivity. Qed.

Lemma legacy_identity sym :
  0xb5 <= sym → Z.land sym 0xff000000 ≠ XKB_KEYSYM_UNICODE_OFFSET → Z.shiftr sym 8 ∉ case_pages → XConvertCase sym = Some (sym, sym).
Proof.
  intros H1 H2 H3. unfold XConvertCase. rewrite (proj2 (Z.ltb_ge _ _)), (proj2 (Z.eqb_neq _ _)) by done.
  unfold case_pages in H3. rewrite !not_elem_of_cons in H3. destruct H3 as (N0 & N1 & N2 & N3 & N6 & N7 & N13 & _).
  revert N0 N1 N2 N3 N6 N7 N13. generalize (Z.shiftr sym 8). intros p N0 N1 N2 N3 N6 N7 N13.
  destruct p as [|p|p]; [done| |done]. do 5 (try destruct p as [p|p|]; try done).
Qed.

Lemma high_byte sym : 0 <= sym < 2 ^ 32 → Z.land sym 0xff000000 = sym / 2 ^ 24 * 2 ^ 24.
Proof.
  intros Hs. change 0xff000000 with (Z.shiftl (Z.ones 8) 24).
  assert (Z.land sym (Z.shiftl (Z.ones 8) 24) = Z.shiftl (Z.land (Z.shiftr sym 24) (Z.ones 8)) 24) as ->.
  { apply Z.bits_inj'. intros n Hn. rewrite Z.land_spec, !Z.shiftl_spec, Z.land_spec by done.
    destruct (Z.lt_ge_cases n 24); [rewrite !(Z.testbit_neg_r _ (n - 24)) by lia; by rewrite andb_false_r|].
    rewrite Z.shiftr_spec by lia. by rewrite Z.sub_add. }
  rewrite Z.land_ones, Z.shiftr_div_pow2, Z.shiftl_mul_pow2 by lia. f_equal. apply Z.mod_small.
  split; [apply Z.div_pos; lia|apply Z.div_lt_upper_bound; lia].
Qed.

Lemma unicode_split sym :
  0 <= sym < 2 ^ 32 → Z.land sym 0xff000000 = XKB_KEYSYM_UNICODE_OFFSET ↔ XKB_KEYSYM_UNICODE_OFFSET <= sym < XKB_KEYSYM_UNICODE_OFFSET + 2 ^ 24.
Proof.
  intros Hs. rewrite high_byte by done. unfold XKB_KEYSYM_UNICODE_OFFSET. change (2 ^ 24) with 0x01000000. split; intros; mlia.
Qed.

Lemma unicode_case c :
  0 <= c < 2 ^ 24 →
  XConvertCase (XKB_KEYSYM_UNICODE_OFFSET + c) =
    '(l, u) ← UCSConvertCase c; Some (XKB_KEYSYM_UNICODE_OFFSET + l, XKB_KEYSYM_UNICODE_OFFSET + u).
Proof.
  intros Hc. unfold XConvertCase. rewrite (proj2 (Z.ltb_ge _ _)) by (unfold XKB_KEYSYM_UNICODE_OFFSET; lia).
  rewrite (proj2 (Z.eqb_eq _ _)) by (apply unicode_split; unfold XKB_KEYSYM_UNICODE_OFFSET in *; lia).
  assert (Z.land (XKB_KEYSYM_UNICODE_OFFSET + c) 0x00ffffff = c) as ->.
  { change 0x00ffffff with (Z.ones 24). rewrite Z.land_ones by lia. change XKB_KEYSYM_UNICODE_OFFSET with (1 * 2 ^ 24).
    rewrite Z.add_comm, Z_mod_plus_full. by apply Z.mod_small. }
  destruct (ucs_case c Hc) as (l & u & -> & Hl & Hu & _). cbn [mbind option_bind].
  rewrite !(Z.lor_comm _ XKB_KEYSYM_UNICODE_OFFSET), !(lor_low XKB_KEYSYM_UNICODE_OFFSET _ 24) by (done || lia). done.
Qed.

Lemma page_of sym : 0 <= sym → Z.shiftr sym 8 * 256 <= sym < Z.shiftr sym 8 * 256 + 256.
Proof. intros Hs. rewrite Z.shiftr_div_pow2 by lia. change (2 ^ 8) with 256. mlia. Qed.

(** The conversion of any keysym: the two forms are keysyms, each converted to
    itself. *)
Lemma convert_case ks :
  0 <= ks < 2 ^ 32 →
  ∃ l u, XConvertCase ks = Some (l, u) ∧ 0 <= l < 2 ^ 32 ∧ 0 <= u < 2 ^ 32 ∧
    xkb_keysym_to_lower l = Some l ∧ xkb_keysym_to_upper u = Some u ∧
    (ks = l ∨ ks = u ∨ titlecase (ks - XKB_KEYSYM_UNICODE_OFFSET) = true).
Proof.
  intros Hks. unfold xkb_keysym_to_lower, xkb_keysym_to_upper.
  destruct (decide (Z.shiftr ks 8 ∈ case_pages)) as [Hp|Hp].
  { pose proof legacy_checked as H. rewrite forallb_forall in H. apply list_elem_of_In in Hp. specialize (H _ Hp).
    apply (forallb_seqZ _ _ _ ks) in H; [|apply page_of; lia]. apply case_ok_spec in H as (l & u & E & ? & ? & Hl & Hu & Hc).
    exists l, u. split; [done|]. split; [lia|]. split; [lia|]. split; [done|]. split; [done|].
    destruct Hc as [?|[?|?]]; [by left|by right; left|done]. }
  assert (0xb5 <= ks).
  { apply Z.le_ngt. intros Hlt. apply Hp. pose proof (page_of ks ltac:(lia)). assert (Z.shiftr ks 8 = 0) as -> by lia. by left. }
  destruct (decide (Z.land ks 0xff000000 = XKB_KEYSYM_UNICODE_OFFSET)) as [Hu|Hu].
  - apply unicode_split in Hu; [|done].
    assert (∃ c, ks = XKB_KEYSYM_UNICODE_OFFSET + c ∧ 0 <= c < 2 ^ 24) as (c & -> & Hc) by (exists (ks - XKB_KEYSYM_UNICODE_OFFSET); lia).
    destruct (ucs_case c Hc) as (l & u & E & Hl & Hup & Fl & Fu & Ht). rewrite (unicode_case c Hc), E. cbn [mbind option_bind].
    eexists _, _. split; [done|]. split; [unfold XKB_KEYSYM_UNICODE_OFFSET; lia|]. split; [unfold XKB_KEYSYM_UNICODE_OFFSET; lia|].
    rewrite (unicode_case l Hl), (unicode_case u Hup).
    destruct (UCSConvertCase l) as [[l1 l2]|]; [|done]. destruct (UCSConvertCase u) as [[u1 u2]|]; [|done].
    cbn in *. injection Fl as ->. injection Fu as ->. split; [done|]. split; [done|].
    replace (XKB_KEYSYM_UNICODE_OFFSET + c - XKB_KEYSYM_UNICODE_OFFSET) with c by lia. destruct Ht as [->|[->|Ht]]; auto.
  - rewrite legacy_identity by done. exists ks, ks. split; [done|]. rewrite legacy_identity by done. cbn. auto 10.
Qed.

(** ** The theorems *)

(** Case conversion is total for all keysyms, with its tables never read
    out of bounds; the lower-case form is its own lower-case form and the
    upper-case form its own upper-case form; and every keysym is one of the two
    but for the four titlecase digraphs. *)
Theorem case_conversion ks :
  0 <= ks < 2 ^ 32 →
  ∃ l u, XConvertCase ks = Some (l, u) ∧ xkb_keysym_to_lower l = Some l ∧ xkb_keysym_to_upper u = Some u ∧
    (ks = l ∨ ks = u ∨ titlecase (ks - XKB_KEYSYM_UNICODE_OFFSET) = true).
Proof. intros Hks. destruct (convert_case ks Hks) as (l & u & E & _ & _ & H). by exists l, u. Qed.

Lemma case_conversion_witness :
  ∃ l u, XConvertCase 0x010001c5 = Some (l, u) ∧ xkb_keysym_to_lower l = Some l ∧ xkb_keysym_to_upper u = Some u ∧
    (0x010001c5 = l ∨ 0x010001c5 = u ∨ titlecase (0x010001c5 - XKB_KEYSYM_UNICODE_OFFSET) = true).
Proof. apply (case_conversion 0x010001c5). lia. Defined.
