(* ===== verification/XkbKeymap.v ===== *)
(** * Keymaps of libxkbcommon

    Models the compiled keymap of libxkbcommon/build/src/keymap.h and the
    functions that query it (keymap.c, keymap-priv.c): keys, groups, levels and
    key types, modifiers, layouts and LEDs by index and by name, and wrapping
    a group into range.  The keymap is what the compiler leaves; the theorems
    assume it is well formed in the sense of [keymap_ok]. *)

From S2P Require Import Prelude XkbAtom.
Open Scope Z_scope.

(** ** Data *)

Definition XKB_INVALID : Z := 0xffffffff.
Notation XKB_LAYOUT_INVALID := XKB_INVALID (only parsing).
Notation XKB_LEVEL_INVALID := XKB_INVALID (only parsing).
Notation XKB_MOD_INVALID := XKB_INVALID (only parsing).
Notation XKB_LED_INVALID := XKB_INVALID (only parsing).
Notation XKB_KEYCODE_INVALID := XKB_INVALID (only parsing).

Definition MOD_REAL_MASK_ALL : Z := 0xff.
Definition XKB_MAX_MODS : nat := 32.

Inductive action_type : Type :=
  | ACTION_TYPE_NONE | ACTION_TYPE_MOD_SET | ACTION_TYPE_MOD_LATCH | ACTION_TYPE_MOD_LOCK
  | ACTION_TYPE_GROUP_SET | ACTION_TYPE_GROUP_LATCH | ACTION_TYPE_GROUP_LOCK
  | ACTION_TYPE_PTR_MOVE | ACTION_TYPE_PTR_BUTTON | ACTION_TYPE_PTR_LOCK | ACTION_TYPE_PTR_DEFAULT
  | ACTION_TYPE_TERMINATE | ACTION_TYPE_SWITCH_VT | ACTION_TYPE_CTRL_SET | ACTION_TYPE_CTRL_LOCK
  | ACTION_TYPE_PRIVATE | ACTION_TYPE_OTHER (n : Z).

#[export] Instance action_type_eq_dec : EqDecision action_type.
Proof. solve_decision. Defined.

Definition ACTION_LOCK_CLEAR : Z := 1.
Definition ACTION_LATCH_TO_LOCK : Z := 2.
Definition ACTION_LOCK_NO_LOCK : Z := 4.
Definition ACTION_LOCK_NO_UNLOCK : Z := 8.
Definition ACTION_ABSOLUTE_SWITCH : Z := 32.

(** The members of the union that the state uses: the type, the flags, the
    effective mask of a modifier action and the group of a group action. *)
Record xkb_action : Type := mk_action {
  act_type : action_type; act_flags : Z; act_mask : Z; act_group : Z
}.
Definition act_set_type (t : action_type) (a : xkb_action) : xkb_action :=
  mk_action t (act_flags a) (act_mask a) (act_group a).
Definition act_set_flags (f : Z) (a : xkb_action) : xkb_action :=
  mk_action (act_type a) f (act_mask a) (act_group a).

Record xkb_mods : Type := mk_mods { m_mods : Z; m_mask : Z }.

Record xkb_key_type_entry : Type := mk_entry { e_level : Z; e_mods : xkb_mods; e_preserve : xkb_mods }.
Record xkb_key_type : Type := mk_type {
  kt_mods : xkb_mods; kt_num_levels : Z; kt_entries : list xkb_key_type_entry
}.

Record xkb_level : Type := mk_level { lv_action : xkb_action; lv_syms : list Z }.
Record xkb_group : Type := mk_group { g_type : xkb_key_type; g_levels : list xkb_level }.

Inductive range_exceed : Type := RANGE_WRAP | RANGE_SATURATE | RANGE_REDIRECT.

Record xkb_key : Type := mk_key {
  k_keycode : Z;
  k_name : Z;
  k_repeats : bool;
  k_out_of_range_action : range_exceed;
  k_out_of_range_number : Z;
  k_groups : list xkb_group
}.
Definition k_num_groups (k : xkb_key) : Z := Z.of_nat (length (k_groups k)).

Record xkb_mod : Type := mk_mod { mod_name : Z; mod_type : Z; mod_mapping : Z }.
Definition MOD_BOTH : Z := 3.

Record xkb_led : Type := mk_led {
  led_name : Z; led_which_groups : Z; led_groups : Z; led_which_mods : Z; led_mods : xkb_mods; led_ctrls : Z
}.

Record xkb_keymap : Type := mk_keymap {
  km_atoms : atom_table;            (* of the context *)
  km_enabled_ctrls : Z;
  km_min_key_code : Z;
  km_max_key_code : Z;
  km_keys : gmap Z xkb_key;
  km_key_aliases : list (Z * Z);    (* real, alias *)
  km_mods : list xkb_mod;
  km_num_groups : Z;
  km_group_names : list Z;
  km_leds : list xkb_led
}.

(** ** Queries *)

(** [NULL] outside the range; inside it the array has an entry. *)
Definition XkbKey (km : xkb_keymap) (kc : Z) : option xkb_key :=
  if (kc <? km_min_key_code km) || (km_max_key_code km <? kc) then None else km_keys km !! kc.

Definition group_at (k : xkb_key) (layout : Z) : option xkb_group :=
  if 0 <=? layout then k_groups k !! Z.to_nat layout else None.
Definition level_at (g : xkb_group) (level : Z) : option xkb_level :=
  if 0 <=? level then g_levels g !! Z.to_nat level else None.

Definition XkbKeyNumLevels (k : xkb_key) (layout : Z) : option Z :=
  g ← group_at k layout; Some (kt_num_levels (g_type g)).

Definition entry_is_active (e : xkb_key_type_entry) : bool :=
  (m_mods (e_mods e) =? 0) || negb (m_mask (e_mods e) =? 0).

(** [group] is an [int32_t]; the result is a [uint32_t]. *)
Definition XkbWrapGroupIntoRange (group num_groups : Z) (action : range_exceed) (number : Z) : Z :=
  if num_groups =? 0 then XKB_LAYOUT_INVALID
  else if (0 <=? group) && (group <? num_groups) then group
  else
    match action with
    | RANGE_REDIRECT => if num_groups <=? number then 0 else number
    | RANGE_SATURATE => if group <? 0 then 0 else num_groups - 1
    | RANGE_WRAP =>
        if group <? 0 then u32 (num_groups + Z.rem group num_groups) else group mod num_groups
    end.

Definition key_wrap (k : xkb_key) (layout : Z) : Z :=
  XkbWrapGroupIntoRange layout (k_num_groups k) (k_out_of_range_action k) (k_out_of_range_number k).

Definition xkb_keymap_num_mods (km : xkb_keymap) : Z := Z.of_nat (length (km_mods km)).

(** The first index from [i] on whose element satisfies [p]. *)
Fixpoint index_from {A} (p : A → bool) (i : Z) (l : list A) : Z :=
  match l with
  | [] => XKB_INVALID
  | x :: l => if p x then i else index_from p (i + 1) l
  end.

Definition XkbModNameToIndex (mods : list xkb_mod) (name type : Z) : Z :=
  index_from (λ m, negb (Z.land (mod_type m) type =? 0) && (name =? mod_name m)) 0 mods.

(** [xkb_atom_lookup] of the context. *)
Definition xkb_atom_lookup (km : xkb_keymap) (name : list Z) : option Z :=
  fst <$> atom_intern (km_atoms km) name false.

Definition xkb_keymap_mod_get_index (km : xkb_keymap) (name : list Z) : option Z :=
  atom ← xkb_atom_lookup km name;
  if atom =? XKB_ATOM_NONE then Some XKB_MOD_INVALID
  else Some (XkbModNameToIndex (km_mods km) atom MOD_BOTH).

Definition xkb_keymap_mod_get_name (km : xkb_keymap) (idx : Z) : option (option (list Z)) :=
  if xkb_keymap_num_mods km <=? idx then Some None
  else m ← km_mods km !! Z.to_nat idx; atom_text (km_atoms km) (mod_name m).

Definition xkb_keymap_num_layouts (km : xkb_keymap) : Z := km_num_groups km.

Definition xkb_keymap_layout_get_name (km : xkb_keymap) (idx : Z) : option (option (list Z)) :=
  if Z.of_nat (length (km_group_names km)) <=? idx then Some None
  else a ← km_group_names km !! Z.to_nat idx; atom_text (km_atoms km) a.

Definition xkb_keymap_layout_get_index (km : xkb_keymap) (name : list Z) : option Z :=
  atom ← xkb_atom_lookup km name;
  if atom =? XKB_ATOM_NONE then Some XKB_LAYOUT_INVALID
  else Some (index_from (λ n, n =? atom) 0 (km_group_names km)).

Definition xkb_keymap_num_layouts_for_key (km : xkb_keymap) (kc : Z) : Z :=
  match XkbKey km kc with None => 0 | Some k => k_num_groups k end.

Definition xkb_keymap_num_levels_for_key (km : xkb_keymap) (kc layout : Z) : option Z :=
  match XkbKey km kc with
  | None => Some 0
  | Some k =>
      let layout := key_wrap k (i32 layout) in
      if layout =? XKB_LAYOUT_INVALID then Some 0 else XkbKeyNumLevels k layout
  end.

Definition xkb_keymap_num_leds (km : xkb_keymap) : Z := Z.of_nat (length (km_leds km)).

Definition xkb_keymap_led_get_name (km : xkb_keymap) (idx : Z) : option (option (list Z)) :=
  if xkb_keymap_num_leds km <=? idx then Some None
  else l ← km_leds km !! Z.to_nat idx; atom_text (km_atoms km) (led_name l).

Definition xkb_keymap_led_get_index (km : xkb_keymap) (name : list Z) : option Z :=
  atom ← xkb_atom_lookup km name;
  if atom =? XKB_ATOM_NONE then Some XKB_LED_INVALID
  else Some (index_from (λ l, led_name l =? atom) 0 (km_leds km)).

(** The masks of the active entries for a level, at most [size] of them. *)
Fixpoint masks_for_level (entries : list xkb_key_type_entry) (level : Z) (size : nat) : list Z :=
  match size, entries with
  | O, _ | _, [] => []
  | S size', e :: entries =>
      if entry_is_active e && (e_level e =? level)
      then m_mask (e_mods e) :: masks_for_level entries level size'
      else masks_for_level entries level size
  end.

(** The masks written to [masks_out]; the result is their number. *)
Definition xkb_keymap_key_get_mods_for_level (km : xkb_keymap) (kc layout level : Z) (size : nat)
    : option (list Z) :=
  match XkbKey km kc with
  | None => Some []
  | Some k =>
      let layout := key_wrap k (i32 layout) in
      if layout =? XKB_LAYOUT_INVALID then Some []
      else
        n ← XkbKeyNumLevels k layout;
        if n <=? level then Some []
        else
          g ← group_at k layout;
          let entries := kt_entries (g_type g) in
          let first :=
            if level =? 0 then
              let empty_mapped :=
                (0 <? Z.of_nat size) && existsb (λ e, entry_is_active e && (m_mask (e_mods e) =? 0)) entries in
              if negb empty_mapped && (0 <? Z.of_nat size) then [0] else []
            else [] in
          Some (first ++ masks_for_level entries level (size - length first))
  end.

(** The symbols, [[]] for an error or for none. *)
Definition xkb_keymap_key_get_syms_by_level (km : xkb_keymap) (kc layout level : Z) : option (list Z) :=
  match XkbKey km kc with
  | None => Some []
  | Some k =>
      let layout := key_wrap k (i32 layout) in
      if layout =? XKB_LAYOUT_INVALID then Some []
      else
        n ← XkbKeyNumLevels k layout;
        if n <=? level then Some []
        else
          g ← group_at k layout;
          l ← level_at g level;
          Some (lv_syms l)
  end.

Definition xkb_keymap_min_keycode (km : xkb_keymap) : Z := km_min_key_code km.
Definition xkb_keymap_max_keycode (km : xkb_keymap) : Z := km_max_key_code km.

(** The keys of [xkb_keys_foreach]. *)
Definition keys_from (km : xkb_keymap) : list Z :=
  seqZ (km_min_key_code km) (km_max_key_code km - km_min_key_code km + 1).

Fixpoint for_each_key {A} (km : xkb_keymap) (iter : Z → A → A) (kcs : list Z) (data : A) : option A :=
  match kcs with
  | [] => Some data
  | kc :: kcs => k ← km_keys km !! kc; for_each_key km iter kcs (iter (k_keycode k) data)
  end.
Definition xkb_keymap_key_for_each {A} (km : xkb_keymap) (iter : Z → A → A) (data : A) : option A :=
  for_each_key km iter (keys_from km) data.

Definition xkb_keymap_key_get_name (km : xkb_keymap) (kc : Z) : option (option (list Z)) :=
  match XkbKey km kc with None => Some None | Some k => atom_text (km_atoms km) (k_name k) end.

Fixpoint key_named (km : xkb_keymap) (name : Z) (kcs : list Z) : option (option xkb_key) :=
  match kcs with
  | [] => Some None
  | kc :: kcs =>
      k ← km_keys km !! kc;
      if k_name k =? name then Some (Some k) else key_named km name kcs
  end.

Fixpoint resolve_alias (aliases : list (Z * Z)) (name : Z) : Z :=
  match aliases with
  | [] => XKB_ATOM_NONE
  | (real, alias) :: aliases => if alias =? name then real else resolve_alias aliases name
  end.
Definition XkbResolveKeyAlias (km : xkb_keymap) (name : Z) : Z := resolve_alias (km_key_aliases km) name.

Definition XkbKeyByName (km : xkb_keymap) (name : Z) (use_aliases : bool) : option (option xkb_key) :=
  o ← key_named km name (keys_from km);
  match o with
  | Some k => Some (Some k)
  | None =>
      if use_aliases then
        let new_name := XkbResolveKeyAlias km name in
        if negb (new_name =? XKB_ATOM_NONE) then key_named km new_name (keys_from km) else Some None
      else Some None
  end.

Definition xkb_keymap_key_by_name (km : xkb_keymap) (name : list Z) : option Z :=
  atom ← xkb_atom_lookup km name;
  let atom :=
    if negb (atom =? 0) then
      let ratom := XkbResolveKeyAlias km atom in
      if negb (ratom =? 0) then ratom else atom
    else atom in
  if atom =? 0 then Some XKB_KEYCODE_INVALID
  else
    o ← key_named km atom (keys_from km);
    match o with Some k => Some (k_keycode k) | None => Some XKB_KEYCODE_INVALID end.

Definition xkb_keymap_key_repeats (km : xkb_keymap) (kc : Z) : bool :=
  match XkbKey km kc with None => false | Some k => k_repeats k end.

(** A level without symbols has the symbol 0. *)
Definition XkbLevelsSameSyms (a b : xkb_level) : bool := bool_decide (lv_syms a = lv_syms b).

(** ** Well-formed keymaps *)

(** A group has as many levels as its type says and the entries of the type
    stay within them. *)
Definition group_ok (g : xkb_group) : Prop :=
  Z.of_nat (length (g_levels g)) = kt_num_levels (g_type g) ∧ 0 < kt_num_levels (g_type g) ∧
  Forall (λ e, 0 <= e_level e < kt_num_levels (g_type g)) (kt_entries (g_type g)).

Definition mask_ok (x : Z) : Prop := 0 <= x < 2 ^ 32.

Definition action_ok (G : Z) (a : xkb_action) : Prop := mask_ok (act_mask a) ∧ - G <= act_group a <= G.

(** What the compiler guarantees: keys for the whole range, levels as the types
    say, masks of 32 bits, at most [XKB_MAX_MODS] modifiers and
    [XKB_MAX_LEDS] LEDs; it allows 4 groups, fewer than 32 are enough here.
    [G] bounds the group of a group action. *)
Record keymap_ok (km : xkb_keymap) (G : Z) : Prop := mk_keymap_ok {
  kok_range : 0 <= km_min_key_code km ∧ km_max_key_code km < XKB_INVALID;
  kok_keys : ∀ kc, km_min_key_code km <= kc <= km_max_key_code km →
    ∃ k, km_keys km !! kc = Some k ∧ k_keycode k = kc;
  kok_groups : ∀ kc k, km_keys km !! kc = Some k →
    k_num_groups k <= km_num_groups km ∧ 0 <= k_out_of_range_number k ∧ Forall group_ok (k_groups k);
  kok_actions : ∀ kc k g l, km_keys km !! kc = Some k → g ∈ k_groups k → l ∈ g_levels g → action_ok G (lv_action l);
  kok_num_groups : 0 <= km_num_groups km <= 31;
  kok_mods : (length (km_mods km) <= 32)%nat;
  kok_mappings : Forall (λ m, mask_ok (mod_mapping m)) (km_mods km);
  kok_leds : (length (km_leds km) <= 32)%nat
}.

(** ** Groups in range *)

(** The wrapped group is in range unless it is a negative multiple. *)
Lemma wrap_in_range group n a number :
  0 < n < 2 ^ 31 → 0 <= number →
  (0 <= group ∨ a ≠ RANGE_WRAP ∨ group mod n ≠ 0) →
  0 <= XkbWrapGroupIntoRange group n a number < n.
Proof.
  intros Hn Hnum Hc. unfold XkbWrapGroupIntoRange. rewrite (proj2 (Z.eqb_neq _ _)) by lia.
  destruct ((0 <=? group) && (group <? n)) eqn:E; [zbool; lia|]. destruct a.
  - destruct (Z.ltb_spec group 0) as [Hneg|Hpos].
    + destruct Hc as [?|[?|Hc]]; [lia|done|]. pose proof (Z.rem_bound_pos (- group) n ltac:(lia) ltac:(lia)) as Hr.
      rewrite Z.rem_opp_l in Hr by lia. unfold u32. rewrite Z.mod_small by lia. split; [lia|].
      assert (Z.rem group n ≠ 0); [|lia]. intros E0. apply Hc. apply Z.rem_divide in E0; [|lia].
      by apply Z.mod_divide; [lia|].
    + apply Z.mod_pos_bound. lia.
  - case_step; lia.
  - case_step; zbool; lia.
Qed.

(** A negative multiple of the number of groups wraps to that number. *)
Lemma wrap_negative_multiple n m :
  0 < n < 2 ^ 31 → 0 < m → XkbWrapGroupIntoRange (- (m * n)) n RANGE_WRAP 0 = n.
Proof.
  intros Hn Hm. unfold XkbWrapGroupIntoRange. rewrite (proj2 (Z.eqb_neq _ _)) by lia.
  assert (- (m * n) < 0) by nia. rewrite (proj2 (Z.leb_gt _ _)) by lia. cbn [andb]. rewrite (proj2 (Z.ltb_lt _ 0)) by lia.
  rewrite Z.rem_opp_l, Z.rem_mul by lia. unfold u32. rewrite Z.mod_small by lia. lia.
Qed.

Lemma wrap_bound group n :
  0 < n < 2 ^ 31 → 0 <= XkbWrapGroupIntoRange group n RANGE_WRAP 0 <= n.
Proof.
  intros Hn. destruct (decide (0 <= group ∨ group mod n ≠ 0)) as [Hc|Hc].
  - pose proof (wrap_in_range group n RANGE_WRAP 0 Hn ltac:(lia) ltac:(tauto)). lia.
  - assert (group mod n = 0) as Hz by (destruct (decide (group mod n = 0)); [done|tauto]).
    assert (group = - ((- (group / n)) * n)) as -> by (pose proof (Z.div_mod group n); lia).
    rewrite wrap_negative_multiple; [lia|done|]. assert (group < 0) by (destruct (decide (0 <= group)); [tauto|lia]).
    pose proof (Z.div_mod group n ltac:(lia)). nia.
Qed.
