(* ===== verification/XkbState.v ===== *)
(** * The keyboard state of libxkbcommon

    Models libxkbcommon/build/src/state.c: the components of the state, the
    filters that implement the modifier and group actions of keys, the update
    by key events and by masks, the derived effective state and LEDs, and the
    queries.  The keymap does not change and is a parameter. *)

From S2P Require Import Prelude XkbAtom XkbKeymap.
Open Scope Z_scope.

(** ** Data *)

Inductive direction : Type := XKB_KEY_UP | XKB_KEY_DOWN.
#[export] Instance direction_eq_dec : EqDecision direction.
Proof. solve_decision. Defined.

(** The value of [filter->func]. *)
Inductive filter_func : Type := FModSet | FModLatch | FModLock | FGroupSet | FGroupLock.
#[export] Instance filter_func_eq_dec : EqDecision filter_func.
Proof. solve_decision. Defined.

(** A key is named by its keycode; [priv] is a [uint32_t]. *)
Record xkb_filter : Type := mk_filter {
  f_action : xkb_action; f_key : Z; f_priv : Z; f_func : option filter_func; f_refcnt : Z
}.
Definition f_set_action (a : xkb_action) (f : xkb_filter) : xkb_filter :=
  mk_filter a (f_key f) (f_priv f) (f_func f) (f_refcnt f).
Definition f_set_key (k : Z) (f : xkb_filter) : xkb_filter :=
  mk_filter (f_action f) k (f_priv f) (f_func f) (f_refcnt f).
Definition f_set_priv (p : Z) (f : xkb_filter) : xkb_filter :=
  mk_filter (f_action f) (f_key f) p (f_func f) (f_refcnt f).
Definition f_set_func (u : option filter_func) (f : xkb_filter) : xkb_filter :=
  mk_filter (f_action f) (f_key f) (f_priv f) u (f_refcnt f).
Definition f_set_refcnt (n : Z) (f : xkb_filter) : xkb_filter :=
  mk_filter (f_action f) (f_key f) (f_priv f) (f_func f) n.

Record state_components : Type := mk_components {
  base_group : Z; latched_group : Z; locked_group : Z; eff_group : Z;
  base_mods : Z; latched_mods : Z; locked_mods : Z; eff_mods : Z; leds : Z
}.
#[export] Instance components_eq_dec : EqDecision state_components.
Proof. solve_decision. Defined.

Definition c_set_base_group (x : Z) (c : state_components) : state_components :=
  mk_components x (latched_group c) (locked_group c) (eff_group c) (base_mods c) (latched_mods c) (locked_mods c) (eff_mods c) (leds c).
Definition c_set_latched_group (x : Z) (c : state_components) : state_components :=
  mk_components (base_group c) x (locked_group c) (eff_group c) (base_mods c) (latched_mods c) (locked_mods c) (eff_mods c) (leds c).
Definition c_set_locked_group (x : Z) (c : state_components) : state_components :=
  mk_components (base_group c) (latched_group c) x (eff_group c) (base_mods c) (latched_mods c) (locked_mods c) (eff_mods c) (leds c).
Definition c_set_group (x : Z) (c : state_components) : state_components :=
  mk_components (base_group c) (latched_group c) (locked_group c) x (base_mods c) (latched_mods c) (locked_mods c) (eff_mods c) (leds c).
Definition c_set_base_mods (x : Z) (c : state_components) : state_components :=
  mk_components (base_group c) (latched_group c) (locked_group c) (eff_group c) x (latched_mods c) (locked_mods c) (eff_mods c) (leds c).
Definition c_set_latched_mods (x : Z) (c : state_components) : state_components :=
  mk_components (base_group c) (latched_group c) (locked_group c) (eff_group c) (base_mods c) x (locked_mods c) (eff_mods c) (leds c).
Definition c_set_locked_mods (x : Z) (c : state_components) : state_components :=
  mk_components (base_group c) (latched_group c) (locked_group c) (eff_group c) (base_mods c) (latched_mods c) x (eff_mods c) (leds c).
Definition c_set_mods (x : Z) (c : state_components) : state_components :=
  mk_components (base_group c) (latched_group c) (locked_group c) (eff_group c) (base_mods c) (latched_mods c) (locked_mods c) x (leds c).
Definition c_set_leds (x : Z) (c : state_components) : state_components :=
  mk_components (base_group c) (latched_group c) (locked_group c) (eff_group c) (base_mods c) (latched_mods c) (locked_mods c) (eff_mods c) x.

Record xkb_state : Type := mk_state {
  st_components : state_components;
  st_set_mods : Z;
  st_clear_mods : Z;
  st_mod_key_count : list Z;      (* of XKB_MAX_MODS 16-bit integers *)
  st_filters : list xkb_filter
}.
Definition st_set_components (c : state_components) (s : xkb_state) : xkb_state :=
  mk_state c (st_set_mods s) (st_clear_mods s) (st_mod_key_count s) (st_filters s).
Definition st_upd (f : state_components → state_components) (s : xkb_state) : xkb_state :=
  st_set_components (f (st_components s)) s.
Definition st_put_set (x : Z) (s : xkb_state) : xkb_state :=
  mk_state (st_components s) x (st_clear_mods s) (st_mod_key_count s) (st_filters s).
Definition st_put_clear (x : Z) (s : xkb_state) : xkb_state :=
  mk_state (st_components s) (st_set_mods s) x (st_mod_key_count s) (st_filters s).
Definition st_put_counts (l : list Z) (s : xkb_state) : xkb_state :=
  mk_state (st_components s) (st_set_mods s) (st_clear_mods s) l (st_filters s).
Definition st_put_filters (l : list xkb_filter) (s : xkb_state) : xkb_state :=
  mk_state (st_components s) (st_set_mods s) (st_clear_mods s) (st_mod_key_count s) l.

(** ** Arithmetic of the C types *)

(** Signed overflow is undefined. *)
Definition add_int (a b : Z) : option Z :=
  if (- 2 ^ 31 <=? a + b) && (a + b <? 2 ^ 31) then Some (a + b) else None.
Definition clear_bits (x mask : Z) : Z := Z.ldiff x mask.
Definition test (x mask : Z) : bool := negb (Z.land x mask =? 0).
(** [1u << n]: undefined for a shift of 32 or more, or a negative one. *)
Definition bit_u32 (n : Z) : option Z :=
  if (0 <=? n) && (n <? 32) then Some (2 ^ n) else None.

Definition XKB_STATE_MODS_DEPRESSED : Z := 1.
Definition XKB_STATE_MODS_LATCHED : Z := 2.
Definition XKB_STATE_MODS_LOCKED : Z := 4.
Definition XKB_STATE_MODS_EFFECTIVE : Z := 8.
Definition XKB_STATE_LAYOUT_DEPRESSED : Z := 16.
Definition XKB_STATE_LAYOUT_LATCHED : Z := 32.
Definition XKB_STATE_LAYOUT_LOCKED : Z := 64.
Definition XKB_STATE_LAYOUT_EFFECTIVE : Z := 128.
Definition XKB_STATE_LEDS : Z := 256.

Section state.
Context (km : xkb_keymap).

(** ** Levels, layouts and actions of a key *)

(** The pointer to an entry is its index with the entry. *)
Definition get_entry_for_mods (type : xkb_key_type) (mods : Z) : option (nat * xkb_key_type_entry) :=
  list_find (λ e, entry_is_active e && (m_mask (e_mods e) =? mods)) (kt_entries type).

(** The outer option is undefined behaviour, the inner one [NULL]. *)
Definition get_entry_for_key_state (s : xkb_state) (k : xkb_key) (group : Z)
    : option (option (nat * xkb_key_type_entry)) :=
  g ← group_at k group;
  let active_mods := Z.land (eff_mods (st_components s)) (m_mask (kt_mods (g_type g))) in
  Some (get_entry_for_mods (g_type g) active_mods).

Definition xkb_state_key_get_level (s : xkb_state) (kc layout : Z) : option Z :=
  match XkbKey km kc with
  | None => Some XKB_LEVEL_INVALID
  | Some k =>
      if k_num_groups k <=? layout then Some XKB_LEVEL_INVALID
      else
        entry ← get_entry_for_key_state s k layout;
        match entry with None => Some 0 | Some (_, e) => Some (e_level e) end
  end.

Definition xkb_state_key_get_layout (s : xkb_state) (kc : Z) : Z :=
  match XkbKey km kc with
  | None => XKB_LAYOUT_INVALID
  | Some k => key_wrap k (i32 (eff_group (st_components s)))
  end.

Definition no_action : xkb_action := mk_action ACTION_TYPE_NONE 0 0 0.

Definition xkb_key_get_action (s : xkb_state) (k : xkb_key) : option xkb_action :=
  let layout := xkb_state_key_get_layout s (k_keycode k) in
  if layout =? XKB_LAYOUT_INVALID then Some no_action
  else
    level ← xkb_state_key_get_level s (k_keycode k) layout;
    if level =? XKB_LEVEL_INVALID then Some no_action
    else
      g ← group_at k layout;
      l ← level_at g level;
      Some (lv_action l).

(** ** Filters *)

Inductive filter_result : Type := XKB_FILTER_CONSUME | XKB_FILTER_CONTINUE.
Definition outcome : Type := option (filter_result * xkb_state * xkb_filter).

Definition xkb_filter_group_set_new (s : xkb_state) (f : xkb_filter) : option (xkb_state * xkb_filter) :=
  let c := st_components s in
  let f := f_set_priv (u32 (base_group c)) f in
  g ← (if test (act_flags (f_action f)) ACTION_ABSOLUTE_SWITCH then Some (act_group (f_action f))
       else add_int (base_group c) (act_group (f_action f)));
  Some (st_upd (c_set_base_group g) s, f).

Definition drop_lock_clear (f : xkb_filter) : xkb_filter :=
  f_set_action (act_set_flags (clear_bits (act_flags (f_action f)) ACTION_LOCK_CLEAR) (f_action f)) f.

(** The reference counting the functions share: [inl] returns at once, [inr]
    goes on with the release of the last press. *)
Definition press_or_release (s : xkb_state) (f : xkb_filter) (dir : direction) : outcome + xkb_filter :=
  match dir with
  | XKB_KEY_DOWN =>
      inl (n ← add_int (f_refcnt f) 1; Some (XKB_FILTER_CONSUME, s, f_set_refcnt n f))
  | XKB_KEY_UP =>
      let f := f_set_refcnt (f_refcnt f - 1) f in
      if 0 <? f_refcnt f then inl (Some (XKB_FILTER_CONSUME, s, f)) else inr f
  end.

Definition xkb_filter_group_set_func (s : xkb_state) (f : xkb_filter) (key : Z) (dir : direction) : outcome :=
  if negb (key =? f_key f) then Some (XKB_FILTER_CONTINUE, s, drop_lock_clear f)
  else
    match press_or_release s f dir with
    | inl r => r
    | inr f =>
        let s := st_upd (c_set_base_group (i32 (f_priv f))) s in
        let s := if test (act_flags (f_action f)) ACTION_LOCK_CLEAR then st_upd (c_set_locked_group 0) s else s in
        Some (XKB_FILTER_CONTINUE, s, f_set_func None f)
    end.

Definition xkb_filter_group_lock_new (s : xkb_state) (f : xkb_filter) : option (xkb_state * xkb_filter) :=
  let c := st_components s in
  g ← (if test (act_flags (f_action f)) ACTION_ABSOLUTE_SWITCH then Some (act_group (f_action f))
       else add_int (locked_group c) (act_group (f_action f)));
  Some (st_upd (c_set_locked_group g) s, f).

Definition xkb_filter_group_lock_func (s : xkb_state) (f : xkb_filter) (key : Z) (dir : direction) : outcome :=
  if negb (key =? f_key f) then Some (XKB_FILTER_CONTINUE, s, f)
  else
    match press_or_release s f dir with
    | inl r => r
    | inr f => Some (XKB_FILTER_CONTINUE, s, f_set_func None f)
    end.

Definition xkb_filter_mod_set_new (s : xkb_state) (f : xkb_filter) : option (xkb_state * xkb_filter) :=
  Some (st_put_set (act_mask (f_action f)) s, f).

Definition xkb_filter_mod_set_func (s : xkb_state) (f : xkb_filter) (key : Z) (dir : direction) : outcome :=
  if negb (key =? f_key f) then Some (XKB_FILTER_CONTINUE, s, drop_lock_clear f)
  else
    match press_or_release s f dir with
    | inl r => r
    | inr f =>
        let mask := act_mask (f_action f) in
        let s := st_put_clear mask s in
        let s := if test (act_flags (f_action f)) ACTION_LOCK_CLEAR
                 then st_upd (λ c, c_set_locked_mods (clear_bits (locked_mods c) mask) c) s else s in
        Some (XKB_FILTER_CONTINUE, s, f_set_func None f)
    end.

Definition xkb_filter_mod_lock_new (s : xkb_state) (f : xkb_filter) : option (xkb_state * xkb_filter) :=
  let mask := act_mask (f_action f) in
  let f := f_set_priv (Z.land (locked_mods (st_components s)) mask) f in
  let s := st_put_set (Z.lor (st_set_mods s) mask) s in
  let s := if negb (test (act_flags (f_action f)) ACTION_LOCK_NO_LOCK)
           then st_upd (λ c, c_set_locked_mods (Z.lor (locked_mods c) mask) c) s else s in
  Some (s, f).

Definition xkb_filter_mod_lock_func (s : xkb_state) (f : xkb_filter) (key : Z) (dir : direction) : outcome :=
  if negb (key =? f_key f) then Some (XKB_FILTER_CONTINUE, s, f)
  else
    match press_or_release s f dir with
    | inl r => r
    | inr f =>
        let s := st_put_clear (Z.lor (st_clear_mods s) (act_mask (f_action f))) s in
        let s := if negb (test (act_flags (f_action f)) ACTION_LOCK_NO_UNLOCK)
                 then st_upd (λ c, c_set_locked_mods (clear_bits (locked_mods c) (f_priv f)) c) s else s in
        Some (XKB_FILTER_CONTINUE, s, f_set_func None f)
    end.

Definition NO_LATCH : Z := 0.
Definition LATCH_KEY_DOWN : Z := 1.
Definition LATCH_PENDING : Z := 2.

Definition xkb_action_breaks_latch (a : xkb_action) : bool :=
  match act_type a with
  | ACTION_TYPE_NONE | ACTION_TYPE_PTR_BUTTON | ACTION_TYPE_PTR_LOCK | ACTION_TYPE_CTRL_SET
  | ACTION_TYPE_CTRL_LOCK | ACTION_TYPE_SWITCH_VT | ACTION_TYPE_TERMINATE => true
  | _ => false
  end.

Definition xkb_filter_mod_latch_new (s : xkb_state) (f : xkb_filter) : option (xkb_state * xkb_filter) :=
  let f := f_set_priv LATCH_KEY_DOWN f in
  Some (st_put_set (act_mask (f_action f)) s, f).

Definition clear_latched (mask : Z) (s : xkb_state) : xkb_state :=
  st_upd (λ c, c_set_latched_mods (clear_bits (latched_mods c) mask) c) s.
Definition clear_locked (mask : Z) (s : xkb_state) : xkb_state :=
  st_upd (λ c, c_set_locked_mods (clear_bits (locked_mods c) mask) c) s.

(** The same latch pressed again: it becomes a lock or a plain set. *)
Definition latch_promote (s : xkb_state) (f : xkb_filter) (a : xkb_action) (key : Z)
    : xkb_state * xkb_filter :=
  let f := f_set_action a f in
  let '(s, f) :=
    if test (act_flags a) ACTION_LATCH_TO_LOCK then
      (st_upd (λ c, c_set_locked_mods (Z.lor (locked_mods c) (act_mask a)) c) s,
       f_set_func (Some FModLock) (f_set_action (act_set_type ACTION_TYPE_MOD_LOCK a) f))
    else
      (st_put_set (act_mask a) s,
       f_set_func (Some FModSet) (f_set_action (act_set_type ACTION_TYPE_MOD_SET a) f)) in
  (clear_latched (act_mask a) s, f_set_key key f).

(** The release of the latching key. *)
Definition latch_release (s : xkb_state) (f : xkb_filter) (latch : Z) : xkb_state * xkb_filter :=
  let mask := act_mask (f_action f) in
  if (latch =? NO_LATCH) ||
     (test (act_flags (f_action f)) ACTION_LOCK_CLEAR &&
      (Z.land (locked_mods (st_components s)) mask =? mask))
  then
    let s := if latch =? LATCH_PENDING then clear_latched mask s else st_put_clear mask s in
    (clear_locked mask s, f_set_priv latch (f_set_func None f))
  else
    let s := st_put_clear mask s in
    (st_upd (λ c, c_set_latched_mods (Z.lor (latched_mods c) mask) c) s, f_set_priv LATCH_PENDING f).

Definition xkb_filter_mod_latch_func (s : xkb_state) (f : xkb_filter) (key : xkb_key) (dir : direction)
    : outcome :=
  let latch := f_priv f in
  if bool_decide (dir = XKB_KEY_DOWN) && (latch =? LATCH_PENDING) then
    a ← xkb_key_get_action s key;
    if bool_decide (act_type a = ACTION_TYPE_MOD_LATCH) &&
       (act_flags a =? act_flags (f_action f)) && (act_mask a =? act_mask (f_action f))
    then
      let '(s, f) := latch_promote s f a (k_keycode key) in Some (XKB_FILTER_CONSUME, s, f)
    else if xkb_action_breaks_latch a then
      Some (XKB_FILTER_CONTINUE, clear_latched (act_mask (f_action f)) s, f_set_func None f)
    else Some (XKB_FILTER_CONTINUE, s, f_set_priv latch f)
  else if bool_decide (dir = XKB_KEY_UP) && (k_keycode key =? f_key f) then
    let '(s, f) := latch_release s f latch in Some (XKB_FILTER_CONTINUE, s, f)
  else if bool_decide (dir = XKB_KEY_DOWN) && (latch =? LATCH_KEY_DOWN) then
    Some (XKB_FILTER_CONTINUE, s, f_set_priv NO_LATCH f)
  else Some (XKB_FILTER_CONTINUE, s, f_set_priv latch f).

(** The table [filter_action_funcs]; the types without an entry have no filter. *)
Definition filter_action_new (t : action_type)
    : option (filter_func * (xkb_state → xkb_filter → option (xkb_state * xkb_filter))) :=
  match t with
  | ACTION_TYPE_MOD_SET => Some (FModSet, xkb_filter_mod_set_new)
  | ACTION_TYPE_MOD_LATCH => Some (FModLatch, xkb_filter_mod_latch_new)
  | ACTION_TYPE_MOD_LOCK => Some (FModLock, xkb_filter_mod_lock_new)
  | ACTION_TYPE_GROUP_SET => Some (FGroupSet, xkb_filter_group_set_new)
  | ACTION_TYPE_GROUP_LOCK => Some (FGroupLock, xkb_filter_group_lock_new)
  | _ => None
  end.

Definition filter_run (u : filter_func) (s : xkb_state) (f : xkb_filter) (key : xkb_key) (dir : direction)
    : outcome :=
  match u with
  | FModSet => xkb_filter_mod_set_func s f (k_keycode key) dir
  | FModLatch => xkb_filter_mod_latch_func s f key dir
  | FModLock => xkb_filter_mod_lock_func s f (k_keycode key) dir
  | FGroupSet => xkb_filter_group_set_func s f (k_keycode key) dir
  | FGroupLock => xkb_filter_group_lock_func s f (k_keycode key) dir
  end.

(** The loop over the active filters; the filters are passed apart from the
    state, which the functions do not read them from. *)
Fixpoint run_filters (key : xkb_key) (dir : direction) (fs : list xkb_filter) (s : xkb_state) (consumed : bool)
    : option (list xkb_filter * xkb_state * bool) :=
  match fs with
  | [] => Some ([], s, consumed)
  | f :: fs =>
      match f_func f with
      | None =>
          '(fs, s, consumed) ← run_filters key dir fs s consumed; Some (f :: fs, s, consumed)
      | Some u =>
          '(r, s, f) ← filter_run u s f key dir;
          let consumed := match r with XKB_FILTER_CONSUME => true | XKB_FILTER_CONTINUE => consumed end in
          '(fs, s, consumed) ← run_filters key dir fs s consumed; Some (f :: fs, s, consumed)
      end
  end.

Definition zero_filter : xkb_filter := mk_filter no_action 0 0 None 0.

(** The index of the filter and the new array. *)
Definition xkb_filter_new (fs : list xkb_filter) : nat * xkb_filter * list xkb_filter :=
  match list_find (λ f, f_func f = None) fs with
  | Some (i, f) => (i, f_set_refcnt 1 f, <[i := f_set_refcnt 1 f]> fs)
  | None => (length fs, f_set_refcnt 1 zero_filter, fs ++ [f_set_refcnt 1 zero_filter])
  end.

Definition xkb_filter_apply_all (s : xkb_state) (key : xkb_key) (dir : direction) : option xkb_state :=
  '(fs, s, consumed) ← run_filters key dir (st_filters s) s false;
  let s := st_put_filters fs s in
  if consumed || bool_decide (dir = XKB_KEY_UP) then Some s
  else
    a ← xkb_key_get_action s key;
    match filter_action_new (act_type a) with
    | None => Some s
    | Some (u, new) =>
        let '(i, f, fs) := xkb_filter_new (st_filters s) in
        let f := f_set_action a (f_set_func (Some u) (f_set_key (k_keycode key) f)) in
        '(s, f) ← new s f;
        Some (st_put_filters (<[i := f]> fs) s)
    end.

Definition xkb_state_new : xkb_state :=
  mk_state (mk_components 0 0 0 0 0 0 0 0 0) 0 0 (replicate XKB_MAX_MODS 0) [].

(** ** The derived state *)

Definition led_mod_mask (led : xkb_led) (c : state_components) : Z :=
  let w := led_which_mods led in
  let m := 0 in
  let m := if test w XKB_STATE_MODS_EFFECTIVE then Z.lor m (eff_mods c) else m in
  let m := if test w XKB_STATE_MODS_DEPRESSED then Z.lor m (base_mods c) else m in
  let m := if test w XKB_STATE_MODS_LATCHED then Z.lor m (latched_mods c) else m in
  if test w XKB_STATE_MODS_LOCKED then Z.lor m (locked_mods c) else m.

(** [group_mask |= 1u << g] where the bit [b] of [which_groups] is set. *)
Definition add_group (w b g m : Z) : option Z :=
  if test w b then x ← bit_u32 g; Some (Z.lor m x) else Some m.

Definition led_group_mask (led : xkb_led) (c : state_components) : option Z :=
  let w := led_which_groups led in
  m ← add_group w XKB_STATE_LAYOUT_EFFECTIVE (eff_group c) 0;
  m ← add_group w XKB_STATE_LAYOUT_DEPRESSED (base_group c) m;
  m ← add_group w XKB_STATE_LAYOUT_LATCHED (latched_group c) m;
  add_group w XKB_STATE_LAYOUT_LOCKED (locked_group c) m.

Definition led_lit (led : xkb_led) (c : state_components) : option bool :=
  if negb (led_which_mods led =? 0) && negb (m_mask (led_mods led) =? 0) &&
     test (m_mask (led_mods led)) (led_mod_mask led c)
  then Some true
  else
    by_group ←
      (if negb (led_which_groups led =? 0) && negb (led_groups led =? 0)
       then m ← led_group_mask led c; Some (test (led_groups led) m) else Some false);
    if by_group : bool then Some true
    else Some (test (led_ctrls led) (km_enabled_ctrls km)).

Fixpoint led_loop (idx : Z) (ls : list xkb_led) (c : state_components) : option state_components :=
  match ls with
  | [] => Some c
  | led :: ls =>
      lit ← led_lit led c;
      c ← (if lit : bool then b ← bit_u32 idx; Some (c_set_leds (Z.lor (leds c) b) c) else Some c);
      led_loop (idx + 1) ls c
  end.

Definition xkb_state_led_update_all (c : state_components) : option state_components :=
  led_loop 0 (km_leds km) (c_set_leds 0 c).

Definition or_zero (wrapped : Z) : Z := if wrapped =? XKB_LAYOUT_INVALID then 0 else wrapped.

Definition xkb_state_update_derived (c : state_components) : option state_components :=
  let c := c_set_mods (Z.lor (Z.lor (base_mods c) (latched_mods c)) (locked_mods c)) c in
  let wrapped := XkbWrapGroupIntoRange (locked_group c) (km_num_groups km) RANGE_WRAP 0 in
  let c := c_set_locked_group (i32 (or_zero wrapped)) c in
  g ← add_int (base_group c) (latched_group c);
  g ← add_int g (locked_group c);
  let wrapped := XkbWrapGroupIntoRange g (km_num_groups km) RANGE_WRAP 0 in
  xkb_state_led_update_all (c_set_group (or_zero wrapped) c).

Definition get_state_component_changes (a b : state_components) : Z :=
  let diff (x y flag mask : Z) := if x =? y then mask else Z.lor mask flag in
  diff (leds a) (leds b) XKB_STATE_LEDS
  (diff (locked_mods a) (locked_mods b) XKB_STATE_MODS_LOCKED
  (diff (latched_mods a) (latched_mods b) XKB_STATE_MODS_LATCHED
  (diff (base_mods a) (base_mods b) XKB_STATE_MODS_DEPRESSED
  (diff (eff_mods a) (eff_mods b) XKB_STATE_MODS_EFFECTIVE
  (diff (locked_group a) (locked_group b) XKB_STATE_LAYOUT_LOCKED
  (diff (latched_group a) (latched_group b) XKB_STATE_LAYOUT_LATCHED
  (diff (base_group a) (base_group b) XKB_STATE_LAYOUT_DEPRESSED
  (diff (eff_group a) (eff_group b) XKB_STATE_LAYOUT_EFFECTIVE 0)))))))).

(** ** Updates *)

(** The two loops over the bits; they end because the mask has 32 bits. *)
Fixpoint set_loop (fuel : nat) (i : nat) (bit : Z) (s : xkb_state) : option xkb_state :=
  if st_set_mods s =? 0 then Some s
  else
    match fuel with
    | O => None
    | S fuel =>
        s ← (if test (st_set_mods s) bit then
               n ← st_mod_key_count s !! i;
               let s := st_put_counts (<[i := i16 (n + 1)]> (st_mod_key_count s)) s in
               let s := st_upd (λ c, c_set_base_mods (Z.lor (base_mods c) bit) c) s in
               Some (st_put_set (clear_bits (st_set_mods s) bit) s)
             else Some s);
        set_loop fuel (S i) (u32 (2 * bit)) s
    end.

Fixpoint clear_loop (fuel : nat) (i : nat) (bit : Z) (s : xkb_state) : option xkb_state :=
  if st_clear_mods s =? 0 then Some s
  else
    match fuel with
    | O => None
    | S fuel =>
        s ← (if test (st_clear_mods s) bit then
               n ← st_mod_key_count s !! i;
               let n := i16 (n - 1) in
               let s := st_put_counts (<[i := n]> (st_mod_key_count s)) s in
               let s := if n <=? 0 then
                          let s := st_upd (λ c, c_set_base_mods (clear_bits (base_mods c) bit) c) s in
                          st_put_counts (<[i := 0]> (st_mod_key_count s)) s
                        else s in
               Some (st_put_clear (clear_bits (st_clear_mods s) bit) s)
             else Some s);
        clear_loop fuel (S i) (u32 (2 * bit)) s
    end.

Definition xkb_state_update_key (s : xkb_state) (kc : Z) (dir : direction) : option (Z * xkb_state) :=
  match XkbKey km kc with
  | None => Some (0, s)
  | Some key =>
      let prev := st_components s in
      let s := st_put_clear 0 (st_put_set 0 s) in
      s ← xkb_filter_apply_all s key dir;
      s ← set_loop 33 0 1 s;
      s ← clear_loop 33 0 1 s;
      c ← xkb_state_update_derived (st_components s);
      Some (get_state_component_changes prev c, st_set_components c s)
  end.

Fixpoint effective_loop (i : Z) (l : list xkb_mod) (mods mask : Z) : option Z :=
  match l with
  | [] => Some mask
  | m :: l =>
      b ← bit_u32 i;
      effective_loop (i + 1) l mods (if test mods b then Z.lor mask (mod_mapping m) else mask)
  end.
Definition mod_mask_get_effective (mods : Z) : option Z :=
  effective_loop 0 (km_mods km) mods (Z.land mods MOD_REAL_MASK_ALL).

(** The mask of the modifiers of the keymap; [1ull] has 64 bits. *)
Definition existing_mods : option Z :=
  let n := xkb_keymap_num_mods km in
  if n <? 64 then Some (u32 (2 ^ n - 1)) else None.

Definition xkb_state_update_mask (s : xkb_state)
    (base latched locked base_layout latched_layout locked_layout : Z) : option (Z * xkb_state) :=
  let prev := st_components s in
  mask ← existing_mods;
  let base := Z.land base mask in
  let latched := Z.land latched mask in
  let locked := Z.land locked mask in
  b ← mod_mask_get_effective base;
  la ← mod_mask_get_effective latched;
  lo ← mod_mask_get_effective locked;
  let c := c_set_base_mods (Z.lor base b) prev in
  let c := c_set_latched_mods (Z.lor latched la) c in
  let c := c_set_locked_mods (Z.lor locked lo) c in
  let c := c_set_base_group (i32 base_layout) c in
  let c := c_set_latched_group (i32 latched_layout) c in
  let c := c_set_locked_group (i32 locked_layout) c in
  c ← xkb_state_update_derived c;
  Some (get_state_component_changes prev c, st_set_components c s).

Definition xkb_state_serialize_mods (s : xkb_state) (type : Z) : Z :=
  let c := st_components s in
  if test type XKB_STATE_MODS_EFFECTIVE then eff_mods c
  else
    let ret := 0 in
    let ret := if test type XKB_STATE_MODS_DEPRESSED then Z.lor ret (base_mods c) else ret in
    let ret := if test type XKB_STATE_MODS_LATCHED then Z.lor ret (latched_mods c) else ret in
    if test type XKB_STATE_MODS_LOCKED then Z.lor ret (locked_mods c) else ret.

Definition xkb_state_serialize_layout (s : xkb_state) (type : Z) : Z :=
  let c := st_components s in
  if test type XKB_STATE_LAYOUT_EFFECTIVE then eff_group c
  else
    let ret := 0 in
    let ret := if test type XKB_STATE_LAYOUT_DEPRESSED then u32 (ret + base_group c) else ret in
    let ret := if test type XKB_STATE_LAYOUT_LATCHED then u32 (ret + latched_group c) else ret in
    if test type XKB_STATE_LAYOUT_LOCKED then u32 (ret + locked_group c) else ret.

(** ** Queries *)

Definition xkb_state_key_get_syms (s : xkb_state) (kc : Z) : option (list Z) :=
  let layout := xkb_state_key_get_layout s kc in
  if layout =? XKB_LAYOUT_INVALID then Some []
  else
    level ← xkb_state_key_get_level s kc layout;
    if level =? XKB_LEVEL_INVALID then Some []
    else xkb_keymap_key_get_syms_by_level km kc layout level.

Definition xkb_state_mod_index_is_active (s : xkb_state) (idx type : Z) : option Z :=
  if xkb_keymap_num_mods km <=? idx then Some (-1)
  else b ← bit_u32 idx; Some (Z.b2z (test (xkb_state_serialize_mods s type) b)).

Definition XKB_STATE_MATCH_ANY : Z := 1.
Definition XKB_STATE_MATCH_ALL : Z := 2.
Definition XKB_STATE_MATCH_NON_EXCLUSIVE : Z := 65536.

Definition match_mod_masks (s : xkb_state) (type match_ wanted : Z) : bool :=
  let active := xkb_state_serialize_mods s type in
  if negb (test match_ XKB_STATE_MATCH_NON_EXCLUSIVE) && negb (clear_bits active wanted =? 0) then false
  else if test match_ XKB_STATE_MATCH_ANY then test active wanted
  else Z.land active wanted =? wanted.

(** The variable arguments up to the first [XKB_MOD_INVALID]; [None] inside
    for an index out of range. *)
Fixpoint wanted_indices (args : list Z) (wanted : Z) : option (option Z) :=
  match args with
  | [] => None     (* no sentinel *)
  | idx :: args =>
      if idx =? XKB_MOD_INVALID then Some (Some wanted)
      else if xkb_keymap_num_mods km <=? idx then Some None
      else b ← bit_u32 idx; wanted_indices args (Z.lor wanted b)
  end.
Definition xkb_state_mod_indices_are_active (s : xkb_state) (type match_ : Z) (args : list Z) : option Z :=
  w ← wanted_indices args 0;
  match w with
  | None => Some (-1)
  | Some wanted => Some (Z.b2z (match_mod_masks s type match_ wanted))
  end.

Definition xkb_state_mod_name_is_active (s : xkb_state) (name : list Z) (type : Z) : option Z :=
  idx ← xkb_keymap_mod_get_index km name;
  if idx =? XKB_MOD_INVALID then Some (-1) else xkb_state_mod_index_is_active s idx type.

(** The variable arguments; [None] in the list is the final [NULL]. *)
Fixpoint wanted_names (args : list (option (list Z))) (wanted : Z) : option (option Z) :=
  match args with
  | [] => None     (* no sentinel *)
  | None :: _ => Some (Some wanted)
  | Some name :: args =>
      idx ← xkb_keymap_mod_get_index km name;
      if idx =? XKB_MOD_INVALID then Some None
      else b ← bit_u32 idx; wanted_names args (Z.lor wanted b)
  end.
Definition xkb_state_mod_names_are_active (s : xkb_state) (type match_ : Z) (args : list (option (list Z)))
    : option Z :=
  w ← wanted_names args 0;
  match w with
  | None => Some (-1)
  | Some wanted => Some (Z.b2z (match_mod_masks s type match_ wanted))
  end.

Definition xkb_state_layout_index_is_active (s : xkb_state) (idx type : Z) : Z :=
  let c := st_components s in
  if km_num_groups km <=? idx then -1
  else
    let ret := false in
    let ret := if test type XKB_STATE_LAYOUT_EFFECTIVE then ret || (eff_group c =? idx) else ret in
    let ret := if test type XKB_STATE_LAYOUT_DEPRESSED then ret || (base_group c =? i32 idx) else ret in
    let ret := if test type XKB_STATE_LAYOUT_LATCHED then ret || (latched_group c =? i32 idx) else ret in
    let ret := if test type XKB_STATE_LAYOUT_LOCKED then ret || (locked_group c =? i32 idx) else ret in
    Z.b2z ret.

Definition xkb_state_layout_name_is_active (s : xkb_state) (name : list Z) (type : Z) : option Z :=
  idx ← xkb_keymap_layout_get_index km name;
  if idx =? XKB_LAYOUT_INVALID then Some (-1) else Some (xkb_state_layout_index_is_active s idx type).

Definition xkb_state_led_index_is_active (s : xkb_state) (idx : Z) : option Z :=
  if xkb_keymap_num_leds km <=? idx then Some (-1)
  else
    l ← km_leds km !! Z.to_nat idx;
    if led_name l =? XKB_ATOM_NONE then Some (-1)
    else b ← bit_u32 idx; Some (Z.b2z (test (leds (st_components s)) b)).

Definition xkb_state_led_name_is_active (s : xkb_state) (name : list Z) : option Z :=
  idx ← xkb_keymap_led_get_index km name;
  if idx =? XKB_LED_INVALID then Some (-1) else xkb_state_led_index_is_active s idx.

(** ** Consumed modifiers *)

Inductive xkb_consumed_mode : Type := XKB_CONSUMED_MODE_XKB | XKB_CONSUMED_MODE_GTK.

Definition one_bit_set (x : Z) : bool := negb (x =? 0) && (Z.land x (x - 1) =? 0).

(** The loop over the entries of the type, [i] the index of the first. *)
Fixpoint gtk_loop (g : xkb_group) (matching : option nat) (no_mods : xkb_level)
    (i : nat) (es : list xkb_key_type_entry) (consumed : Z) : option Z :=
  match es with
  | [] => Some consumed
  | e :: es =>
      if negb (entry_is_active e) then gtk_loop g matching no_mods (S i) es consumed
      else
        level ← level_at g (e_level e);
        if XkbLevelsSameSyms level no_mods then gtk_loop g matching no_mods (S i) es consumed
        else
          let consumed :=
            if bool_decide (matching = Some i) || one_bit_set (m_mask (e_mods e))
            then Z.lor consumed (clear_bits (m_mask (e_mods e)) (m_mask (e_preserve e))) else consumed in
          gtk_loop g matching no_mods (S i) es consumed
  end.

Definition key_get_consumed (s : xkb_state) (key : xkb_key) (mode : xkb_consumed_mode) : option Z :=
  let group := xkb_state_key_get_layout s (k_keycode key) in
  if group =? XKB_LAYOUT_INVALID then Some 0
  else
    g ← group_at key group;
    let type := g_type g in
    matching ← get_entry_for_key_state s key group;
    let preserve := match matching with Some (_, e) => m_mask (e_preserve e) | None => 0 end in
    consumed ←
      match mode with
      | XKB_CONSUMED_MODE_XKB => Some (m_mask (kt_mods type))
      | XKB_CONSUMED_MODE_GTK =>
          let leveli := match get_entry_for_mods type 0 with Some (_, e) => e_level e | None => 0 end in
          no_mods ← level_at g leveli;
          gtk_loop g (fst <$> matching) no_mods 0 (kt_entries type) 0
      end;
    Some (clear_bits consumed preserve).

Definition xkb_state_mod_index_is_consumed2 (s : xkb_state) (kc idx : Z) (mode : xkb_consumed_mode) : option Z :=
  match XkbKey km kc with
  | None => Some (-1)
  | Some key =>
      if xkb_keymap_num_mods km <=? idx then Some (-1)
      else
        b ← bit_u32 idx;
        c ← key_get_consumed s key mode;
        Some (Z.b2z (test b c))
  end.
Definition xkb_state_mod_index_is_consumed (s : xkb_state) (kc idx : Z) : option Z :=
  xkb_state_mod_index_is_consumed2 s kc idx XKB_CONSUMED_MODE_XKB.

Definition xkb_state_mod_mask_remove_consumed (s : xkb_state) (kc mask : Z) : option Z :=
  match XkbKey km kc with
  | None => Some 0
  | Some key => c ← key_get_consumed s key XKB_CONSUMED_MODE_XKB; Some (clear_bits mask c)
  end.

(** The modes are those of the enumeration; the source also rejects others. *)
Definition xkb_state_key_get_consumed_mods2 (s : xkb_state) (kc : Z) (mode : xkb_consumed_mode) : option Z :=
  match XkbKey km kc with None => Some 0 | Some key => key_get_consumed s key mode end.
Definition xkb_state_key_get_consumed_mods (s : xkb_state) (kc : Z) : option Z :=
  xkb_state_key_get_consumed_mods2 s kc XKB_CONSUMED_MODE_XKB.
End state.
