(* ===== verification/XkbHeld.v ===== *)
(** * The held keys of a keyboard state

    The abstract contract of the filters of libxkbcommon/build/src/state.c: the
    map of the keys that are held, each with the modifiers it sets and the
    number of presses seen.  [xkb_state_update_key] refines it for keymaps
    without latch actions: the depressed modifiers are exactly the union of
    the modifiers of the held keys. *)

From S2P Require Import Prelude XkbAtom XkbKeymap XkbState.
Open Scope Z_scope.

(** ** The bits of a mask *)

Lemma test_pow2 m i : 0 <= i → test m (2 ^ i) = Z.testbit m i.
Proof.
  intros Hi. unfold test. destruct (Z.testbit m i) eqn:E.
  - apply negb_true_iff, Z.eqb_neq. intros H.
    assert (Z.testbit (Z.land m (2 ^ i)) i = true) as Hb by (rewrite Z.land_spec, Z.pow2_bits_true, E by lia; done).
    rewrite H, Z.bits_0 in Hb. done.
  - apply negb_false_iff, Z.eqb_eq. apply Z.bits_inj'. intros j Hj.
    rewrite Z.land_spec, Z.bits_0, Z.pow2_bits_eqb by lia. destruct (Z.eqb_spec i j) as [->|]; [by rewrite E|].
    by rewrite andb_false_r.
Qed.

Lemma mask_bits_above m i : mask_ok m → 32 <= i → Z.testbit m i = false.
Proof. intros [? ?] Hi. eapply testbit_above; eauto. Qed.

Lemma mask_ok_bits m : 0 <= m → (∀ i, 32 <= i → Z.testbit m i = false) → mask_ok m.
Proof.
  intros H0 Hb. split; [done|]. destruct (Z.lt_ge_cases m (2 ^ 32)) as [|Hge]; [done|].
  assert (0 < m) as Hpos by lia. pose proof (Z.bit_log2 m Hpos) as Hl.
  rewrite Hb in Hl; [done|]. apply Z.log2_le_pow2; lia.
Qed.

Lemma mask_ok_lor a b : mask_ok a → mask_ok b → mask_ok (Z.lor a b).
Proof.
  intros Ha Hb. apply mask_ok_bits; [apply Z.lor_nonneg; unfold mask_ok in *; lia|].
  intros i Hi. rewrite Z.lor_spec, !mask_bits_above by done. done.
Qed.

Lemma mask_ok_ldiff a b : mask_ok a → mask_ok (Z.ldiff a b).
Proof.
  intros Ha. apply mask_ok_bits; [apply Z.ldiff_nonneg; unfold mask_ok in *; lia|].
  intros i Hi. rewrite Z.ldiff_spec, mask_bits_above by done. done.
Qed.

Lemma mask_ok_land a b : mask_ok a → mask_ok (Z.land a b).
Proof.
  intros Ha. apply mask_ok_bits; [apply Z.land_nonneg; unfold mask_ok in *; lia|].
  intros i Hi. rewrite Z.land_spec, mask_bits_above by done. done.
Qed.

#[export] Hint Resolve mask_ok_lor mask_ok_ldiff mask_ok_land : k1.

Lemma mask_zero m : mask_ok m → (∀ i, 0 <= i < 32 → Z.testbit m i = false) → m = 0.
Proof.
  intros Hm Hb. apply Z.bits_inj'. intros i Hi. rewrite Z.bits_0.
  destruct (Z.lt_ge_cases i 32); [apply Hb; lia|by apply mask_bits_above].
Qed.

Lemma u32_double i : 0 <= i < 32 → u32 (2 * u32 (2 ^ i)) = u32 (2 ^ (i + 1)).
Proof.
  intros Hi. assert (2 ^ i < 2 ^ 32) by (apply Z.pow_lt_mono_r; lia).
  pose proof (Z.pow_nonneg 2 i ltac:(lia)). rewrite (u32_small (2 ^ i)) by lia. by rewrite Z.pow_add_r, Z.mul_comm by lia.
Qed.

Lemma u32_bit i : 0 <= i < 32 → u32 (2 ^ i) = 2 ^ i.
Proof.
  intros Hi. apply u32_small. split; [apply Z.pow_nonneg; lia|]. apply Z.pow_lt_mono_r; lia.
Qed.

(** ** The loops over the bits *)

(** [lo] has no bits below [i]. *)
Definition from_bit (i : nat) (m : Z) : Prop := ∀ j, 0 <= j < Z.of_nat i → Z.testbit m j = false.

Lemma from_bit_end m : mask_ok m → from_bit 32 m → m = 0.
Proof. intros Hm Hf. apply mask_zero; [done|]. intros i Hi. by apply Hf. Qed.

Lemma from_bit_step m i :
  from_bit i m → Z.testbit m (Z.of_nat i) = false → from_bit (S i) m.
Proof.
  intros Hf Hb j Hj. destruct (decide (j = Z.of_nat i)) as [->|]; [done|]. apply Hf. lia.
Qed.

Lemma from_bit_clear m i : from_bit i m → from_bit (S i) (clear_bits m (2 ^ Z.of_nat i)).
Proof.
  intros Hf. apply from_bit_step.
  - intros j Hj. unfold clear_bits. by rewrite Z.ldiff_spec, Hf by lia.
  - unfold clear_bits. rewrite Z.ldiff_spec, Z.pow2_bits_true by lia. by rewrite andb_false_r.
Qed.

Lemma testbit_clear m i j :
  0 <= j → Z.testbit (clear_bits m (2 ^ Z.of_nat i)) j = Z.testbit m j && negb (Z.of_nat i =? j).
Proof. intros Hj. unfold clear_bits. by rewrite Z.ldiff_spec, Z.pow2_bits_eqb by lia. Qed.

Lemma testbit_set m i j :
  0 <= j → Z.testbit (Z.lor m (2 ^ Z.of_nat i)) j = Z.testbit m j || (Z.of_nat i =? j).
Proof. intros Hj. by rewrite Z.lor_spec, Z.pow2_bits_eqb by lia. Qed.

(** What changes between two states of an update: the counts and the base
    modifiers only. *)
Definition same_rest (s s' : xkb_state) : Prop :=
  st_filters s' = st_filters s ∧
  st_components s' = c_set_base_mods (base_mods (st_components s')) (st_components s).

Lemma same_rest_refl s : same_rest s s.
Proof. split; [done|]. by destruct s as [[]]. Qed.

Lemma same_rest_trans s1 s2 s3 : same_rest s1 s2 → same_rest s2 s3 → same_rest s1 s3.
Proof.
  intros [F1 C1] [F2 C2]. split; [congruence|]. rewrite C2. rewrite C1. done.
Qed.

(** The effect of a loop on one count. *)
Definition bump (b : bool) (n : Z) : Z := if b then i16 (n + 1) else n.
Definition drop_count (b : bool) (n : Z) : Z :=
  if b then (if i16 (n - 1) <=? 0 then 0 else i16 (n - 1)) else n.

Lemma imap_none (f : bool → Z → Z) l :
  (∀ n, f false n = n) → imap (λ j n, f (Z.testbit 0 (Z.of_nat j)) n) l = l.
Proof.
  intros Hf. apply list_eq. intros j. rewrite list_lookup_imap. destruct (l !! j); cbn; [|done].
  by rewrite Z.bits_0, Hf.
Qed.

Lemma imap_step (f : bool → Z → Z) m i l n :
  (∀ n, f false n = n) → l !! i = Some n → Z.testbit m (Z.of_nat i) = true →
  imap (λ j x, f (Z.testbit (clear_bits m (2 ^ Z.of_nat i)) (Z.of_nat j)) x) (<[i := f true n]> l) =
  imap (λ j x, f (Z.testbit m (Z.of_nat j)) x) l.
Proof.
  intros Hf Hl Hb. apply list_eq. intros j. rewrite !list_lookup_imap.
  destruct (decide (j = i)) as [->|Hne].
  - rewrite list_lookup_insert_eq by (by eapply lookup_lt_Some). rewrite Hl. cbn.
    rewrite testbit_clear, Z.eqb_refl, andb_false_r by lia. by rewrite Hf, Hb.
  - rewrite list_lookup_insert_ne by done. destruct (l !! j); cbn; [|done].
    rewrite testbit_clear by lia. rewrite (proj2 (Z.eqb_neq _ _)) by lia. by rewrite andb_true_r.
Qed.

Lemma from_bit_lt i m : mask_ok m → from_bit i m → m ≠ 0 → (i < 32)%nat.
Proof.
  intros Hm Hf Hn. destruct (decide (i < 32)%nat); [done|]. exfalso. apply Hn, from_bit_end; [done|].
  intros j Hj. apply Hf. lia.
Qed.

Lemma u32_bit_S i : (i < 32)%nat → u32 (2 * u32 (2 ^ Z.of_nat i)) = u32 (2 ^ Z.of_nat (S i)).
Proof. intros Hi. rewrite u32_double by lia. by rewrite Nat2Z.inj_succ, Z.add_1_r. Qed.

Lemma lor_clear b m i :
  Z.testbit m (Z.of_nat i) = true →
  Z.lor (Z.lor b (2 ^ Z.of_nat i)) (clear_bits m (2 ^ Z.of_nat i)) = Z.lor b m.
Proof.
  intros Hb. apply Z.bits_inj'. intros j Hj. rewrite Z.lor_spec, testbit_set, testbit_clear, Z.lor_spec by done.
  destruct (Z.eqb_spec (Z.of_nat i) j) as [<-|]; [rewrite Hb|]; by repeat destruct (Z.testbit _ _).
Qed.

Lemma pow2_mask_ok i : (i < 32)%nat → mask_ok (2 ^ Z.of_nat i).
Proof. intros Hi. split; [apply Z.pow_nonneg; lia|]. apply Z.pow_lt_mono_r; lia. Qed.
#[local] Hint Resolve pow2_mask_ok : k1.

Lemma set_loop_spec fuel i s :
  (fuel + i = 33)%nat → length (st_mod_key_count s) = XKB_MAX_MODS →
  mask_ok (st_set_mods s) → from_bit i (st_set_mods s) →
  ∃ s', set_loop fuel i (u32 (2 ^ Z.of_nat i)) s = Some s' ∧ same_rest s s' ∧
    st_clear_mods s' = st_clear_mods s ∧
    st_mod_key_count s' = imap (λ j n, bump (Z.testbit (st_set_mods s) (Z.of_nat j)) n) (st_mod_key_count s) ∧
    base_mods (st_components s') = Z.lor (base_mods (st_components s)) (st_set_mods s).
Proof.
  revert i s. induction fuel as [|fuel IH]; intros i s Hfu Hlen Hm Hf; cbn [set_loop];
    (destruct (Z.eqb_spec (st_set_mods s) 0) as [E0|Hne];
      [exists s; rewrite E0, Z.lor_0_r, imap_none by done; auto using same_rest_refl|
       pose proof (from_bit_lt _ _ Hm Hf Hne) as Hi]); [lia|].
  rewrite u32_bit_S by done. rewrite (u32_bit (Z.of_nat i)), test_pow2 by lia.
  destruct (Z.testbit (st_set_mods s) (Z.of_nat i)) eqn:Eb.
  - destruct (lookup_lt_is_Some_2 (st_mod_key_count s) i) as [n Hn]; [unfold XKB_MAX_MODS in Hlen; lia|].
    rewrite Hn. cbn [mbind option_bind]. unfold st_upd.
    edestruct (IH (S i)) as (s' & -> & Hr & Hc & Hk & Hb);
      [lia| | |by apply from_bit_clear|];
      [cbn; by rewrite length_insert|unfold clear_bits; cbn; auto with k1|].
    exists s'. split; [done|]. split; [eapply same_rest_trans; [|exact Hr]; done|]. split; [done|].
    rewrite Hk, Hb. cbn. split; [by apply (imap_step bump)|by apply lor_clear].
  - cbn [mbind option_bind]. apply IH; [lia|done..|]. by apply from_bit_step.
Qed.

(** The base modifiers after the clearing loop: a bit goes when its count does. *)
Definition cleared (s : xkb_state) (j : nat) : bool :=
  Z.testbit (st_clear_mods s) (Z.of_nat j) &&
  match st_mod_key_count s !! j with Some n => i16 (n - 1) <=? 0 | None => false end.

Lemma cleared_step s s1 i n x j :
  st_mod_key_count s !! i = Some n → Z.testbit (st_clear_mods s) (Z.of_nat i) = true →
  st_clear_mods s1 = clear_bits (st_clear_mods s) (2 ^ Z.of_nat i) →
  st_mod_key_count s1 = <[i := x]> (st_mod_key_count s) →
  base_mods (st_components s1) =
    (if i16 (n - 1) <=? 0 then clear_bits (base_mods (st_components s)) (2 ^ Z.of_nat i)
     else base_mods (st_components s)) →
  Z.testbit (base_mods (st_components s1)) (Z.of_nat j) && negb (cleared s1 j) =
  Z.testbit (base_mods (st_components s)) (Z.of_nat j) && negb (cleared s j).
Proof.
  intros Hn Hb Hc Hk ->. unfold cleared. rewrite Hc, Hk, testbit_clear by lia.
  destruct (decide (i = j)) as [<-|Hne].
  - rewrite Hn, Hb, Z.eqb_refl. cbn [negb andb].
    destruct (_ <=? 0); [|done]. rewrite testbit_clear, Z.eqb_refl by lia. by rewrite !andb_false_r.
  - rewrite list_lookup_insert_ne by done. assert (Z.of_nat i =? Z.of_nat j = false) as E by (apply Z.eqb_neq; lia).
    rewrite E. cbn. rewrite andb_true_r. f_equal. destruct (_ <=? 0); [|done].
    rewrite testbit_clear, E by lia. by rewrite andb_true_r.
Qed.

Lemma clear_loop_spec fuel i s :
  (fuel + i = 33)%nat → length (st_mod_key_count s) = XKB_MAX_MODS →
  mask_ok (st_clear_mods s) → mask_ok (base_mods (st_components s)) → from_bit i (st_clear_mods s) →
  ∃ s', clear_loop fuel i (u32 (2 ^ Z.of_nat i)) s = Some s' ∧ same_rest s s' ∧
    st_mod_key_count s' =
      imap (λ j n, drop_count (Z.testbit (st_clear_mods s) (Z.of_nat j)) n) (st_mod_key_count s) ∧
    mask_ok (base_mods (st_components s')) ∧
    ∀ j : nat, Z.testbit (base_mods (st_components s')) (Z.of_nat j) =
      Z.testbit (base_mods (st_components s)) (Z.of_nat j) && negb (cleared s j).
Proof.
  revert i s. induction fuel as [|fuel IH]; intros i s Hfu Hlen Hm Hbm Hf; cbn [clear_loop];
    (destruct (Z.eqb_spec (st_clear_mods s) 0) as [E0|Hne];
      [exists s; unfold cleared; rewrite E0, imap_none by done; repeat split; try done;
         [by destruct s as [[]]|apply Hbm|apply Hbm|intros j; by rewrite Z.bits_0, andb_true_r]|
       pose proof (from_bit_lt _ _ Hm Hf Hne) as Hi]); [lia|].
  rewrite u32_bit_S by done. rewrite (u32_bit (Z.of_nat i)), test_pow2 by lia.
  destruct (Z.testbit (st_clear_mods s) (Z.of_nat i)) eqn:Eb.
  - destruct (lookup_lt_is_Some_2 (st_mod_key_count s) i) as [n Hn]; [unfold XKB_MAX_MODS in Hlen; lia|].
    rewrite Hn. cbn [mbind option_bind].
    set (n' := i16 (n - 1)).
    set (s1 := if n' <=? 0 then _ else _).
    assert (s1 = mk_state (c_set_base_mods (if n' <=? 0 then clear_bits (base_mods (st_components s)) (2 ^ Z.of_nat i)
                                             else base_mods (st_components s)) (st_components s))
                   (st_set_mods s) (st_clear_mods s) (<[i := drop_count true n]> (st_mod_key_count s)) (st_filters s)) as Hs1.
    { unfold s1, drop_count, st_upd, st_put_counts, st_set_components. fold n'. destruct (n' <=? 0); cbn; [by rewrite list_insert_insert_eq|].
      by destruct s as [[]]. }
    clearbody s1. subst s1. unfold st_put_clear. cbn [st_components st_set_mods st_clear_mods st_mod_key_count st_filters].
    edestruct (IH (S i)) as (s' & -> & Hr & Hk & Hmb & Hb);
      [lia| | | |by apply from_bit_clear|];
      [cbn; by rewrite length_insert|unfold clear_bits; cbn; auto with k1|cbn; destruct (n' <=? 0); unfold clear_bits; auto with k1|].
    exists s'. split; [done|]. split; [eapply same_rest_trans; [|exact Hr]; done|].
    rewrite Hk. cbn. split; [by apply (imap_step drop_count)|]. split; [done|].
    intros j. rewrite Hb. by eapply cleared_step.
  - cbn [mbind option_bind]. apply IH; [lia|done..|]. by apply from_bit_step.
Qed.

(** ** The abstract state: the held keys *)

(** The modifiers a held key sets and how often it was pressed. *)
Record hold : Type := mk_hold { h_mask : Z; h_presses : Z }.
Notation held := (gmap Z hold).

(** The modifiers of an action that holds the key; [None] for the others. *)
Definition action_mask (a : xkb_action) : option Z :=
  match act_type a with
  | ACTION_TYPE_MOD_SET | ACTION_TYPE_MOD_LOCK | ACTION_TYPE_MOD_LATCH => Some (act_mask a)
  | ACTION_TYPE_GROUP_SET | ACTION_TYPE_GROUP_LOCK => Some 0
  | _ => None
  end.

Definition held_press (a : xkb_action) (kc : Z) (h : held) : held :=
  match h !! kc with
  | Some x => <[kc := mk_hold (h_mask x) (h_presses x + 1)]> h
  | None => match action_mask a with Some m => <[kc := mk_hold m 1]> h | None => h end
  end.

Definition held_release (kc : Z) (h : held) : held :=
  match h !! kc with
  | Some x => if 1 <? h_presses x then <[kc := mk_hold (h_mask x) (h_presses x - 1)]> h else delete kc h
  | None => h
  end.

(** The key [kc], with the action [a] in the current state, goes up or down. *)
Definition held_step (a : xkb_action) (kc : Z) (dir : direction) (h : held) : held :=
  match dir with XKB_KEY_DOWN => held_press a kc h | XKB_KEY_UP => held_release kc h end.

(** The number of held keys that set modifier [i]. *)
Definition sets (i : nat) (x : hold) : bool := Z.testbit (h_mask x) (Z.of_nat i).
Definition holders (i : nat) (h : held) : nat := size (filter (λ kx, sets i kx.2 = true) h).

Lemma holders_empty i : holders i ∅ = 0%nat.
Proof. reflexivity. Qed.

Lemma holders_insert i h kc x :
  h !! kc = None → holders i (<[kc := x]> h) = (holders i h + Nat.b2n (sets i x))%nat.
Proof.
  intros Hn. unfold holders. destruct (sets i x) eqn:E.
  - rewrite map_filter_insert_True by done. rewrite map_size_insert_None; [cbn; lia|].
    apply map_lookup_filter_None. auto.
  - rewrite map_filter_insert_False by (cbn; congruence). rewrite delete_id by done. cbn. lia.
Qed.

Lemma holders_delete i h kc x :
  h !! kc = Some x → holders i h = (holders i (delete kc h) + Nat.b2n (sets i x))%nat.
Proof.
  intros Hx. rewrite <- (holders_insert i (delete kc h) kc x) by apply lookup_delete_eq.
  by rewrite insert_delete_id.
Qed.

Lemma holders_update i h kc x y :
  h !! kc = Some x → h_mask y = h_mask x → holders i (<[kc := y]> h) = holders i h.
Proof.
  intros Hx Hm. rewrite <- (insert_delete_eq h kc y), holders_insert by apply lookup_delete_eq.
  rewrite (holders_delete i h kc x Hx). unfold sets. by rewrite Hm.
Qed.

Lemma holders_pos i h : (0 < holders i h)%nat ↔ ∃ kc x, h !! kc = Some x ∧ sets i x = true.
Proof.
  unfold holders. split.
  - intros Hp. destruct (map_choose (filter (λ kx, sets i kx.2 = true) h)) as (kc & x & Hx).
    { intros E. rewrite E, map_size_empty in Hp. lia. }
    apply map_lookup_filter_Some in Hx. naive_solver.
  - intros (kc & x & Hx & Hs). apply Nat.neq_0_lt_0. intros E. apply map_size_empty_inv in E.
    assert (filter (λ kx, sets i kx.2 = true) h !! kc = Some x) as Hl by (by apply map_lookup_filter_Some).
    by rewrite E, lookup_empty in Hl.
Qed.

Lemma holders_size i h : (holders i h <= size h)%nat.
Proof. unfold holders. apply map_size_filter. Qed.

(** ** The levels of a key *)

Section lookup.
Context (km : xkb_keymap) (G : Z) (Hkm : keymap_ok km G).

Lemma key_found kc key : XkbKey km kc = Some key → km_min_key_code km <= kc <= km_max_key_code km ∧ km_keys km !! kc = Some key ∧ k_keycode key = kc.
Proof.
  unfold XkbKey. intros H. case_step_in H; [done|]. zbool. assert (km_min_key_code km <= kc <= km_max_key_code km) as Hr by (split; lia).
  destruct (kok_keys _ _ Hkm kc Hr) as (k & Hl & Hc). split; [done|]. split; [done|]. congruence.
Qed.

Lemma get_layout_ok s kc key :
  XkbKey km kc = Some key → 0 <= eff_group (st_components s) <= 31 →
  xkb_state_key_get_layout km s kc = XKB_LAYOUT_INVALID ∨
  0 <= xkb_state_key_get_layout km s kc < k_num_groups key.
Proof.
  intros Hk Hg. destruct (key_found kc key Hk) as (_ & Hl & _).
  destruct (kok_groups _ _ Hkm kc key Hl) as (Hn & Hnum & _). pose proof (kok_num_groups _ _ Hkm).
  unfold xkb_state_key_get_layout. rewrite Hk. unfold key_wrap. rewrite i32_small by lia.
  destruct (decide (k_num_groups key = 0)) as [E|Hne]; [left; by rewrite E|right].
  apply wrap_in_range; [unfold k_num_groups in *; lia|done|]. left. lia.
Qed.

Lemma group_at_ok key layout :
  0 <= layout < k_num_groups key → ∃ g, group_at key layout = Some g ∧ g ∈ k_groups key.
Proof.
  intros Hl. unfold group_at. rewrite (proj2 (Z.leb_le _ _)) by lia.
  destruct (lookup_lt_is_Some_2 (k_groups key) (Z.to_nat layout)) as [g Hg]; [unfold k_num_groups in *; lia|].
  exists g. split; [done|]. by eapply list_elem_of_lookup_2.
Qed.

Lemma get_entry_ok type mods i e :
  get_entry_for_mods type mods = Some (i, e) → e ∈ kt_entries type.
Proof. intros H. apply list_find_Some in H as (Hl & _). by eapply list_elem_of_lookup_2. Qed.

Lemma get_level_ok s kc key g layout :
  XkbKey km kc = Some key → 0 <= layout < k_num_groups key → group_at key layout = Some g → g ∈ k_groups key →
  ∃ level l, xkb_state_key_get_level km s kc layout = Some level ∧ level_at g level = Some l ∧ l ∈ g_levels g.
Proof.
  intros Hk Hr Hg Hin. destruct (key_found kc key Hk) as (_ & Hl & _).
  destruct (kok_groups _ _ Hkm kc key Hl) as (_ & _ & Hgs).
  rewrite Forall_forall in Hgs. destruct (Hgs g Hin) as (Hlen & Hpos & Hes). rewrite Forall_forall in Hes.
  assert (∀ v, 0 <= v < kt_num_levels (g_type g) → ∃ l, level_at g v = Some l ∧ l ∈ g_levels g) as Hat.
  { intros v Hv. unfold level_at. rewrite (proj2 (Z.leb_le _ _)) by lia.
    destruct (lookup_lt_is_Some_2 (g_levels g) (Z.to_nat v)) as [l Hll]; [lia|]. exists l.
    split; [done|]. by eapply list_elem_of_lookup_2. }
  unfold xkb_state_key_get_level, get_entry_for_key_state. rewrite Hk, Hg, (proj2 (Z.leb_gt _ _)) by lia.
  cbn [mbind option_bind]. destruct (get_entry_for_mods _ _) as [[i e]|] eqn:E.
  - apply get_entry_ok in E. destruct (Hat (e_level e)) as (l & ? & ?); [by apply Hes|]. by eexists _, l.
  - destruct (Hat 0) as (l & ? & ?); [lia|]. by eexists _, l.
Qed.

End lookup.

(** ** The active filters as held keys *)

Definition filter_mask (u : filter_func) (f : xkb_filter) : Z :=
  match u with FModSet | FModLatch | FModLock => act_mask (f_action f) | FGroupSet | FGroupLock => 0 end.
Definition filter_hold (f : xkb_filter) : option (Z * hold) :=
  u ← f_func f; Some (f_key f, mk_hold (filter_mask u f) (f_refcnt f)).
Definition active (fs : list xkb_filter) : list (Z * hold) := omap filter_hold fs.

Section held.
Context (km : xkb_keymap) (G : Z).

(** Keymaps the theorems are about: well formed, with no latch actions, fewer
    keys than an [int16_t] counts, and no LED that shows the depressed group,
    which may be negative. *)
Record plain_keymap : Prop := mk_plain {
  pk_ok : keymap_ok km G;
  pk_G : 0 <= G;
  pk_latch : ∀ kc k g l, km_keys km !! kc = Some k → g ∈ k_groups k → l ∈ g_levels g →
    act_type (lv_action l) ≠ ACTION_TYPE_MOD_LATCH;
  pk_keys : km_max_key_code km - km_min_key_code km < 2 ^ 15 - 1;
  pk_leds : Forall (λ l, test (led_which_groups l) XKB_STATE_LAYOUT_DEPRESSED = false) (km_leds km)
}.

Definition key_range (kc : Z) : Prop := km_min_key_code km <= kc <= km_max_key_code km.
Definition group_bound (n x : Z) : Prop := - (n * G) <= x <= n * G.

(** An active filter after [n] events. *)
Definition filter_ok (n : Z) (f : xkb_filter) : Prop :=
  ∀ u, f_func f = Some u →
    u ≠ FModLatch ∧ mask_ok (act_mask (f_action f)) ∧ 1 <= f_refcnt f <= n ∧ key_range (f_key f) ∧
    (u = FGroupSet → group_bound n (i32 (f_priv f))).

Record filters_rep (n : Z) (fs : list xkb_filter) (h : held) : Prop := mk_filters_rep {
  fr_keys : NoDup (active fs).*1;
  fr_map : h = list_to_map (active fs);
  fr_ok : Forall (filter_ok n) fs
}.

Lemma filter_ok_mono n m f : 0 <= G → n <= m → filter_ok n f → filter_ok m f.
Proof.
  intros HG Hnm Hf u Hu. destruct (Hf u Hu) as (?&?&?&?&Hp). repeat (split; [done || lia|]).
  intros E. specialize (Hp E). unfold group_bound in *. nia.
Qed.

Lemma active_app fs1 fs2 : active (fs1 ++ fs2) = active fs1 ++ active fs2.
Proof. apply omap_app. Qed.

Lemma active_split fs kc x :
  (kc, x) ∈ active fs → NoDup (active fs).*1 →
  ∃ l1 f l2, fs = l1 ++ f :: l2 ∧ filter_hold f = Some (kc, x) ∧ kc ∉ (active l1).*1 ∧ kc ∉ (active l2).*1.
Proof.
  intros Hin Hnd. apply list_elem_of_omap in Hin as (f & Hf & Hx).
  apply list_elem_of_split in Hf as (l1 & l2 & ->). exists l1, f, l2. split; [done|]. split; [done|].
  revert Hnd. rewrite active_app. unfold active at 2. cbn [omap list_omap]. rewrite Hx, fmap_app, fmap_cons. cbn [fst].
  rewrite NoDup_app, NoDup_cons. intros (_ & Hd & Hn & _). split; [|done]. intros Hk. apply (Hd _ Hk). left.
Qed.

(** ** Running the filters *)

(** A filter of another key at most forgets the flag [ACTION_LOCK_CLEAR]. *)
Lemma filter_run_other n u s f key dir :
  f_func f = Some u → filter_ok n f → k_keycode key ≠ f_key f →
  ∃ f', filter_run km u s f key dir = Some (XKB_FILTER_CONTINUE, s, f') ∧
    filter_hold f' = filter_hold f ∧ filter_ok n f'.
Proof.
  intros Hu Hf Hk. destruct (Hf u Hu) as (Hl & Hm & Hr & Hin & Hp).
  assert (k_keycode key =? f_key f = false) as E by (by apply Z.eqb_neq).
  assert (filter_ok n (drop_lock_clear f)) by (intros u' Hu'; apply Hf; done).
  assert (filter_hold (drop_lock_clear f) = filter_hold f) by done.
  destruct u; cbn [filter_run]; [| done |..];
    unfold xkb_filter_mod_set_func, xkb_filter_mod_lock_func, xkb_filter_group_set_func, xkb_filter_group_lock_func;
    rewrite E; cbn [negb]; eauto.
Qed.

Lemma run_filters_other n key dir fs s b :
  Forall (filter_ok n) fs → k_keycode key ∉ (active fs).*1 →
  ∃ fs', run_filters km key dir fs s b = Some (fs', s, b) ∧ active fs' = active fs ∧ Forall (filter_ok n) fs'.
Proof.
  induction fs as [|f fs IH]; intros Hok Hk; [by exists []|].
  apply Forall_cons in Hok as [Hf Hok]. cbn [run_filters]. unfold active in *. cbn [omap list_omap] in Hk |- *.
  destruct (f_func f) as [u|] eqn:Eu.
  - unfold filter_hold in Hk at 1. rewrite Eu in Hk. cbn [mbind option_bind] in Hk.
    rewrite fmap_cons, not_elem_of_cons in Hk. destruct Hk as [Hne Hk].
    destruct (filter_run_other n u s f key dir Eu Hf Hne) as (f' & -> & Hh & Hf').
    destruct (IH Hok Hk) as (fs' & Hrun & Ha & Hok'). cbn [mbind option_bind]. rewrite Hrun. cbn [mbind option_bind].
    exists (f' :: fs'). split; [done|]. split; [cbn [omap list_omap]; by rewrite Hh, Ha|by constructor].
  - assert (filter_hold f = None) as En by (unfold filter_hold; by rewrite Eu). rewrite En in Hk |- *.
    destruct (IH Hok Hk) as (fs' & Hrun & Ha & Hok'). rewrite Hrun. cbn [mbind option_bind].
    exists (f :: fs'). split; [done|]. split; [cbn [omap list_omap]; by rewrite En, Ha|by constructor].
Qed.

Lemma run_filters_app key dir fs1 fs2 s b :
  run_filters km key dir (fs1 ++ fs2) s b =
    '(fs1', s1, b1) ← run_filters km key dir fs1 s b;
    '(fs2', s2, b2) ← run_filters km key dir fs2 s1 b1; Some (fs1' ++ fs2', s2, b2).
Proof.
  revert s b. induction fs1 as [|f fs1 IH]; intros s b; cbn [run_filters app].
  - cbn [mbind option_bind]. by destruct (run_filters km key dir fs2 s b) as [[[]]|].
  - destruct (f_func f) as [u|].
    + destruct (filter_run km u s f key dir) as [[[r s1] f1]|]; cbn [mbind option_bind]; [|done].
      rewrite IH. destruct (run_filters km key dir fs1 _ _) as [[[fs1' s2] b2]|]; cbn [mbind option_bind]; [|done].
      by destruct (run_filters km key dir fs2 _ _) as [[[]]|].
    + rewrite IH. destruct (run_filters km key dir fs1 _ _) as [[[fs1' s2] b2]|]; cbn [mbind option_bind]; [|done].
      by destruct (run_filters km key dir fs2 _ _) as [[[]]|].
Qed.

Definition consumed_by (r : filter_result) : bool :=
  match r with XKB_FILTER_CONSUME => true | XKB_FILTER_CONTINUE => false end.

(** Only the filter of the key itself acts. *)
Lemma run_filters_own n key dir l1 f l2 u s r s' f' :
  Forall (filter_ok n) (l1 ++ f :: l2) → f_func f = Some u →
  k_keycode key ∉ (active l1).*1 → k_keycode key ∉ (active l2).*1 →
  filter_run km u s f key dir = Some (r, s', f') →
  ∃ l1' l2', run_filters km key dir (l1 ++ f :: l2) s false = Some (l1' ++ f' :: l2', s', consumed_by r) ∧
    active l1' = active l1 ∧ active l2' = active l2 ∧ Forall (filter_ok n) l1' ∧ Forall (filter_ok n) l2'.
Proof.
  intros Hok Hu H1 H2 Hrun. apply Forall_app in Hok as [Ho1 Ho2]. apply Forall_cons in Ho2 as [Hf Ho2].
  destruct (run_filters_other n key dir l1 s false Ho1 H1) as (l1' & E1 & A1 & O1).
  destruct (run_filters_other n key dir l2 s' (consumed_by r) Ho2 H2) as (l2' & E2 & A2 & O2).
  exists l1', l2'. split; [|done]. rewrite run_filters_app, E1. cbn [mbind option_bind run_filters].
  rewrite Hu, Hrun. cbn [mbind option_bind]. destruct r; cbn [consumed_by] in *; by rewrite E2.
Qed.

(** What the filters leave alone, and the bounds on the groups. *)
Definition keeps (s s' : xkb_state) : Prop :=
  st_mod_key_count s' = st_mod_key_count s ∧
  base_mods (st_components s') = base_mods (st_components s) ∧
  latched_group (st_components s') = latched_group (st_components s).

Definition groups_ok (n lo hi : Z) (c : state_components) : Prop :=
  group_bound n (base_group c) ∧ lo <= locked_group c <= hi ∧ latched_group c = 0.

Lemma own_down n u s f key :
  f_func f = Some u → filter_ok n f → k_keycode key = f_key f → n < 2 ^ 31 - 1 →
  filter_run km u s f key XKB_KEY_DOWN = Some (XKB_FILTER_CONSUME, s, f_set_refcnt (f_refcnt f + 1) f).
Proof.
  intros Hu Hf Hk Hn. destruct (Hf u Hu) as (Hl & _ & Hr & _).
  assert (add_int (f_refcnt f) 1 = Some (f_refcnt f + 1)) as Ea.
  { unfold add_int. rewrite (proj2 (Z.leb_le _ _)), (proj2 (Z.ltb_lt _ _)) by lia. done. }
  destruct u; cbn [filter_run]; [|done|..];
    unfold xkb_filter_mod_set_func, xkb_filter_mod_lock_func, xkb_filter_group_set_func, xkb_filter_group_lock_func;
    rewrite Hk, Z.eqb_refl; cbn [negb press_or_release]; by rewrite Ea.
Qed.

Lemma own_up_more n u s f key :
  f_func f = Some u → filter_ok n f → k_keycode key = f_key f → 1 < f_refcnt f →
  filter_run km u s f key XKB_KEY_UP = Some (XKB_FILTER_CONSUME, s, f_set_refcnt (f_refcnt f - 1) f).
Proof.
  intros Hu Hf Hk Hr. destruct (Hf u Hu) as (Hl & _).
  assert (0 <? f_refcnt f - 1 = true) as Ea by (apply Z.ltb_lt; lia).
  destruct u; cbn [filter_run]; [|done|..];
    unfold xkb_filter_mod_set_func, xkb_filter_mod_lock_func, xkb_filter_group_set_func, xkb_filter_group_lock_func;
    rewrite Hk, Z.eqb_refl; cbn [negb press_or_release f_refcnt f_set_refcnt]; by rewrite Ea.
Qed.

Lemma own_up_last n u s f key hi :
  f_func f = Some u → filter_ok n f → k_keycode key = f_key f → f_refcnt f <= 1 → st_clear_mods s = 0 →
  groups_ok n 0 hi (st_components s) →
  ∃ s' f', filter_run km u s f key XKB_KEY_UP = Some (XKB_FILTER_CONTINUE, s', f') ∧ f_func f' = None ∧
    keeps s s' ∧ st_set_mods s' = st_set_mods s ∧ st_clear_mods s' = filter_mask u f ∧
    groups_ok n 0 hi (st_components s').
Proof.
  intros Hu Hf Hk Hr Hc (Hb & Hlo & Hla). destruct (Hf u Hu) as (Hl & _ & _ & _ & Hp).
  assert (0 <? f_refcnt f - 1 = false) as Ea by (apply Z.ltb_ge; lia).
  destruct u; cbn [filter_run]; [|done|..];
    unfold xkb_filter_mod_set_func, xkb_filter_mod_lock_func, xkb_filter_group_set_func, xkb_filter_group_lock_func;
    rewrite Hk, Z.eqb_refl; cbn [negb press_or_release f_refcnt f_set_refcnt]; rewrite Ea; eexists _, _;
    (split; [reflexivity|]); (split; [done|]); unfold keeps, groups_ok; try case_step; cbn;
    rewrite ?Hc; repeat split; try done; try lia; try apply Hb; by apply Hp.
Qed.

(** ** The held keys of changed filters *)

Lemma active_middle l1 f l2 :
  active (l1 ++ f :: l2) =
  active l1 ++ match filter_hold f with Some e => [e] | None => [] end ++ active l2.
Proof. rewrite active_app. unfold active at 2. cbn [omap list_omap]. by destruct (filter_hold f). Qed.

Lemma map_middle (A B : list (Z * hold)) kc x :
  NoDup (A ++ (kc, x) :: B).*1 →
  (list_to_map (A ++ (kc, x) :: B) : held) = <[kc := x]> (list_to_map (A ++ B)) ∧
  (list_to_map (A ++ B) : held) !! kc = None ∧ NoDup (A ++ B).*1 ∧ kc ∉ (A ++ B).*1.
Proof.
  intros Hnd. assert (A ++ (kc, x) :: B ≡ₚ (kc, x) :: A ++ B) as Hp by (by rewrite Permutation_middle).
  rewrite (list_to_map_proper _ _ Hnd Hp). rewrite Hp in Hnd. apply NoDup_cons in Hnd as [Hk Hnd].
  split; [done|]. split; [|done]. by apply not_elem_of_list_to_map_1.
Qed.

Lemma rep_update n m l1 f l2 h kc x l1' f' l2' y :
  0 <= G → n <= m → filters_rep n (l1 ++ f :: l2) h → filter_hold f = Some (kc, x) →
  active l1' = active l1 → active l2' = active l2 → Forall (filter_ok n) l1' → Forall (filter_ok n) l2' →
  filter_hold f' = Some (kc, y) → filter_ok m f' →
  filters_rep m (l1' ++ f' :: l2') (<[kc := y]> h).
Proof.
  intros HG Hnm [Hk Hm Hok] Hf H1 H2 O1 O2 Hf' Of. rewrite active_middle, Hf in Hk, Hm. cbn [app] in Hk, Hm.
  destruct (map_middle _ _ _ _ Hk) as (E & Hn & Hnd & Hnin).
  assert (NoDup (active l1 ++ (kc, y) :: active l2).*1) as Hk' by (revert Hk; by rewrite !fmap_app, !fmap_cons).
  split.
  - by rewrite active_middle, Hf', H1, H2.
  - rewrite active_middle, Hf', H1, H2. cbn [app]. destruct (map_middle _ _ _ _ Hk') as (-> & _).
    by rewrite Hm, E, insert_insert_eq.
  - apply Forall_app. split; [|constructor; [done|]]; (eapply Forall_impl; [eassumption|]); intros; by eapply filter_ok_mono.
Qed.

Lemma rep_delete n m l1 f l2 h kc x l1' f' l2' :
  0 <= G → n <= m → filters_rep n (l1 ++ f :: l2) h → filter_hold f = Some (kc, x) →
  active l1' = active l1 → active l2' = active l2 → Forall (filter_ok n) l1' → Forall (filter_ok n) l2' →
  f_func f' = None → filters_rep m (l1' ++ f' :: l2') (delete kc h).
Proof.
  intros HG Hnm [Hk Hm Hok] Hf H1 H2 O1 O2 Hf'. rewrite active_middle, Hf in Hk, Hm. cbn [app] in Hk, Hm.
  destruct (map_middle _ _ _ _ Hk) as (E & Hn & Hnd & Hnin).
  assert (filter_hold f' = None) as Eh by (unfold filter_hold; by rewrite Hf').
  assert (active (l1' ++ f' :: l2') = active l1 ++ active l2) as Ea by (by rewrite active_middle, Eh, H1, H2).
  split; [by rewrite Ea|rewrite Ea, Hm, E; by rewrite delete_insert_id|].
  apply Forall_app. split; [|constructor; [intros u; congruence|]]; (eapply Forall_impl; [eassumption|]);
    intros; by eapply filter_ok_mono.
Qed.

(** The slot of a new filter: an inactive one, or one at the end. *)
Lemma filter_new_slot fs f :
  let '(i, f0, fs1) := xkb_filter_new fs in
  f_refcnt f0 = 1 ∧
  ∃ l1 l2, <[i := f]> fs1 = l1 ++ f :: l2 ∧ active fs = active l1 ++ active l2 ∧
    (∀ P, Forall P fs → Forall P l1 ∧ Forall P l2).
Proof.
  unfold xkb_filter_new. destruct (list_find _ fs) as [[i f0]|] eqn:E.
  - apply list_find_Some in E as (Hl & Hn & _). apply list_elem_of_split_length in Hl as (l1 & l2 & -> & ->).
    split; [done|]. exists l1, l2. rewrite !insert_app_r_alt by lia. rewrite !Nat.sub_diag. cbn [list_insert insert].
    split; [done|]. split.
    + rewrite active_middle. unfold filter_hold. by rewrite Hn.
    + intros P HP. apply Forall_app in HP as [? HP]. by apply Forall_cons in HP as [_ ?].
  - split; [done|]. exists fs, []. rewrite insert_app_r_alt by lia. rewrite Nat.sub_diag. cbn [active omap list_omap].
    rewrite app_nil_r. auto.
Qed.

Lemma rep_insert n m fs h l1 f l2 kc y :
  0 <= G → n <= m → filters_rep n fs h → kc ∉ (active fs).*1 →
  active fs = active l1 ++ active l2 → (∀ P, Forall P fs → Forall P l1 ∧ Forall P l2) →
  filter_hold f = Some (kc, y) → filter_ok m f →
  filters_rep m (l1 ++ f :: l2) (<[kc := y]> h).
Proof.
  intros HG Hnm [Hk Hm Hok] Hkc Ea HP Hf Of.
  assert (NoDup (active l1 ++ (kc, y) :: active l2).*1) as Hnd.
  { rewrite <- Permutation_middle, <- Ea, fmap_cons. by constructor. }
  destruct (HP _ Hok) as [O1 O2]. split.
  - by rewrite active_middle, Hf.
  - rewrite active_middle, Hf. cbn [app]. destruct (map_middle _ _ _ _ Hnd) as (-> & _). by rewrite Hm, Ea.
  - apply Forall_app. split; [|constructor; [done|]]; (eapply Forall_impl; [eassumption|]); intros; by eapply filter_ok_mono.
Qed.

(** ** The action of a key *)

Hypothesis Hkm : plain_keymap.

Lemma get_action_ok s kc key :
  XkbKey km kc = Some key → 0 <= eff_group (st_components s) <= 31 →
  ∃ a, xkb_key_get_action km s key = Some a ∧ action_ok G a ∧ act_type a ≠ ACTION_TYPE_MOD_LATCH.
Proof.
  intros Hk Hg. destruct (key_found km G (pk_ok Hkm) kc key Hk) as (_ & Hl & Hc). unfold xkb_key_get_action. rewrite Hc.
  assert (action_ok G no_action) as Hna.
  { pose proof (pk_G Hkm). split; [split; cbn; lia|cbn; lia]. }
  destruct (Z.eqb_spec (xkb_state_key_get_layout km s kc) XKB_LAYOUT_INVALID) as [|Hne]; [by exists no_action|].
  destruct (get_layout_ok km G (pk_ok Hkm) s kc key Hk Hg) as [|Hr]; [done|].
  destruct (group_at_ok key _ Hr) as (g & Eg & Hin).
  destruct (get_level_ok km G (pk_ok Hkm) s kc key g _ Hk Hr Eg Hin) as (level & l & -> & El & Hlin). cbn [mbind option_bind].
  destruct (level =? XKB_LEVEL_INVALID); [by exists no_action|]. rewrite Eg. cbn [mbind option_bind]. rewrite El.
  exists (lv_action l). split; [done|].
  split; [by eapply (kok_actions _ _ (pk_ok Hkm))|by eapply (pk_latch Hkm)].
Qed.

(** ** One event through the filters *)

(** The modifiers an event adds to and takes from the counts. *)
Definition set_mask (a : xkb_action) (kc : Z) (dir : direction) (h : held) : Z :=
  match dir, h !! kc with XKB_KEY_DOWN, None => default 0 (action_mask a) | _, _ => 0 end.
Definition clear_mask (kc : Z) (dir : direction) (h : held) : Z :=
  match dir, h !! kc with XKB_KEY_UP, Some x => if 1 <? h_presses x then 0 else h_mask x | _, _ => 0 end.

Definition event_done (n : Z) (s s' : xkb_state) (a : xkb_action) (kc : Z) (dir : direction) (h : held) : Prop :=
  filters_rep (n + 1) (st_filters s') (held_step a kc dir h) ∧ keeps s s' ∧
  groups_ok (n + 1) (- G) (31 + G) (st_components s') ∧
  st_set_mods s' = set_mask a kc dir h ∧ st_clear_mods s' = clear_mask kc dir h.

(** The state before the event, with the accumulated masks reset. *)
Definition event_ready (n : Z) (s : xkb_state) (h : held) : Prop :=
  filters_rep n (st_filters s) h ∧ st_set_mods s = 0 ∧ st_clear_mods s = 0 ∧
  groups_ok n 0 31 (st_components s) ∧ 0 <= eff_group (st_components s) <= 31.

Lemma groups_ok_weaken n c : groups_ok n 0 31 c → groups_ok (n + 1) (- G) (31 + G) c.
Proof. pose proof (pk_G Hkm). unfold groups_ok, group_bound. intros (? & ? & ?). repeat split; nia. Qed.

Lemma add_int_ok a b : - 2 ^ 31 <= a + b < 2 ^ 31 → add_int a b = Some (a + b).
Proof. intros H. unfold add_int. by rewrite (proj2 (Z.leb_le _ _)), (proj2 (Z.ltb_lt _ _)) by lia. Qed.

Lemma filter_start n s u new f :
  let a := f_action f in
  filter_action_new (act_type a) = Some (u, new) → action_ok G a → act_type a ≠ ACTION_TYPE_MOD_LATCH →
  st_set_mods s = 0 → groups_ok n 0 31 (st_components s) → 0 <= n → (n + 1) * G + 32 < 2 ^ 31 →
  ∃ s' f', new s f = Some (s', f') ∧ keeps s s' ∧
    f_func f' = f_func f ∧ f_key f' = f_key f ∧ f_refcnt f' = f_refcnt f ∧ f_action f' = a ∧
    u ≠ FModLatch ∧ action_mask a = Some (filter_mask u f) ∧ st_set_mods s' = filter_mask u f ∧
    st_clear_mods s' = st_clear_mods s ∧ groups_ok (n + 1) (- G) (31 + G) (st_components s') ∧
    (u = FGroupSet → group_bound n (i32 (f_priv f'))).
Proof.
  intros a Hnew [Hm Hg] Hl Hs Hok Hn0 Hb. pose proof (groups_ok_weaken _ _ Hok) as Hok'.
  pose proof (pk_G Hkm) as HG. destruct Hok as (Hbg & Hlg & Hla). unfold group_bound in Hbg.
  assert (add_int (base_group (st_components s)) (act_group a) = Some (base_group (st_components s) + act_group a)) as E1
    by (apply add_int_ok; nia).
  assert (add_int (locked_group (st_components s)) (act_group a) = Some (locked_group (st_components s) + act_group a)) as E2
    by (apply add_int_ok; nia).
  unfold filter_action_new in Hnew. unfold action_mask. fold a in Hnew.
  destruct (act_type a); try done; injection Hnew as <- <-;
    unfold xkb_filter_mod_set_new, xkb_filter_mod_lock_new, xkb_filter_group_set_new, xkb_filter_group_lock_new; fold a;
    cbn [f_action f_set_priv]; fold a; try (case_step; cbn [mbind option_bind]); rewrite ?E1, ?E2; cbn [mbind option_bind];
    (eexists _, _; split; [reflexivity|]); unfold keeps, groups_ok, group_bound in *; cbn; fold a;
    rewrite ?Hs, ?Z.lor_0_l; repeat split; try done; try lia; try nia; rewrite i32_u32 by nia; nia.
Qed.

Lemma keeps_filters s fs : keeps s (st_put_filters fs s).
Proof. done. Qed.

Lemma keeps_filters_r s s' fs : keeps s s' → keeps s (st_put_filters fs s').
Proof. done. Qed.

Lemma rep_mono n m fs h : 0 <= G → n <= m → filters_rep n fs h → filters_rep m fs h.
Proof.
  intros HG Hnm [? ? Hok]. split; [done..|]. eapply Forall_impl; [done|]. intros. by eapply filter_ok_mono.
Qed.

(** The filter of a held key. *)
Lemma rep_lookup n fs h kc x :
  filters_rep n fs h → h !! kc = Some x →
  ∃ l1 f l2 u, fs = l1 ++ f :: l2 ∧ f_func f = Some u ∧ f_key f = kc ∧ x = mk_hold (filter_mask u f) (f_refcnt f) ∧
    filter_ok n f ∧ kc ∉ (active l1).*1 ∧ kc ∉ (active l2).*1.
Proof.
  intros [Hk -> Hok] Hx. apply elem_of_list_to_map_2 in Hx.
  destruct (active_split fs kc x Hx Hk) as (l1 & f & l2 & -> & Hf & H1 & H2).
  unfold filter_hold in Hf. destruct (f_func f) as [u|] eqn:Eu; [|done]. cbn in Hf. injection Hf as <- <-.
  assert (filter_ok n f) by (apply Forall_app in Hok as [_ Hok]; by apply Forall_cons in Hok as [? _]).
  by exists l1, f, l2, u.
Qed.

Lemma rep_not_held n fs h kc : filters_rep n fs h → h !! kc = None → kc ∉ (active fs).*1.
Proof. intros [_ -> _]. apply not_elem_of_list_to_map_2. Qed.

(** A held key goes down again. *)
Lemma apply_press_again n s h kc key a x :
  0 <= n < 2 ^ 31 - 1 → event_ready n s h → k_keycode key = kc → h !! kc = Some x →
  ∃ s', xkb_filter_apply_all km s key XKB_KEY_DOWN = Some s' ∧ event_done n s s' a kc XKB_KEY_DOWN h.
Proof.
  intros Hn (Hrep & Hs & Hc & Hg & _) Hkc Hx. pose proof (pk_G Hkm) as HG.
  destruct (rep_lookup n _ h kc x Hrep Hx) as (l1 & f & l2 & u & Efs & Hu & Hk & -> & Hf & H1 & H2).
  pose proof (fr_ok _ _ _ Hrep) as Hok. rewrite Efs in Hok.
  edestruct (run_filters_own n key XKB_KEY_DOWN l1 f l2 u s) as (l1' & l2' & Erun & A1 & A2 & O1 & O2);
    [done|done|by rewrite Hkc|by rewrite Hkc|apply (own_down n); [done|done|congruence|lia]|].
  unfold xkb_filter_apply_all. rewrite Efs, Erun. cbn [mbind option_bind consumed_by orb]. eexists. split; [done|].
  unfold event_done, held_step, held_press, set_mask, clear_mask. rewrite Hx. cbn.
  split; [|split; [done|]; split; [by apply groups_ok_weaken|done]].
  rewrite Efs in Hrep. eapply (rep_update n); try done; [lia| | |].
  - unfold filter_hold. rewrite Hu. cbn. by rewrite Hk.
  - unfold filter_hold. cbn. rewrite Hu. cbn. rewrite Hk. by destruct u.
  - intros u' Hu'. cbn in *. rewrite Hu in Hu'. injection Hu' as <-. destruct (Hf u Hu) as (?&?&?&?&Hp).
    repeat (split; [done || lia|]). intros E. specialize (Hp E). unfold group_bound in *. nia.
Qed.

(** A held key goes up. *)
Lemma apply_release n s h kc key a x :
  0 <= n → event_ready n s h → k_keycode key = kc → h !! kc = Some x →
  ∃ s', xkb_filter_apply_all km s key XKB_KEY_UP = Some s' ∧ event_done n s s' a kc XKB_KEY_UP h.
Proof.
  intros Hn (Hrep & Hs & Hc & Hg & _) Hkc Hx. pose proof (pk_G Hkm) as HG.
  destruct (rep_lookup n _ h kc x Hrep Hx) as (l1 & f & l2 & u & Efs & Hu & Hk & Ex & Hf & H1 & H2).
  pose proof (fr_ok _ _ _ Hrep) as Hok. rewrite Efs in Hok, Hrep.
  assert (filter_hold f = Some (kc, x)) as Hfh by (unfold filter_hold; rewrite Hu; cbn; congruence).
  unfold event_done, held_step, held_release, set_mask, clear_mask, xkb_filter_apply_all. rewrite Hx, Efs.
  destruct (Z.ltb_spec 1 (h_presses x)) as [Hgt|Hle]; rewrite Ex in * |-; cbn [h_presses] in *.
  - edestruct (run_filters_own n key XKB_KEY_UP l1 f l2 u s) as (l1' & l2' & Erun & A1 & A2 & O1 & O2);
      [done|done|by rewrite Hkc|by rewrite Hkc|apply (own_up_more n); [done|done|congruence|lia]|].
    rewrite Erun. cbn [mbind option_bind consumed_by orb]. eexists. split; [done|].
    split; [|split; [done|]; split; [by apply groups_ok_weaken|done]].
    eapply (rep_update n); try done; [lia| |].
    + unfold filter_hold. cbn. rewrite Hu. cbn. rewrite Hk, Ex. by destruct u.
    + intros u' Hu'. cbn in *. rewrite Hu in Hu'. injection Hu' as <-. destruct (Hf u Hu) as (?&?&?&?&Hp).
      repeat (split; [done || lia|]). intros E. specialize (Hp E). unfold group_bound in *. nia.
  - edestruct (own_up_last n u s f key 31) as (s' & f' & Hrun & Hf' & Hkeep & Hs' & Hc' & Hg'); [done|done|congruence|done..|].
    edestruct (run_filters_own n key XKB_KEY_UP l1 f l2 u s) as (l1' & l2' & Erun & A1 & A2 & O1 & O2);
      [done|done|by rewrite Hkc|by rewrite Hkc|exact Hrun|].
    rewrite Erun. cbn [mbind option_bind consumed_by orb]. rewrite bool_decide_eq_true_2 by done. eexists. split; [done|].
    split; [eapply (rep_delete n); try done; lia|]. split; [done|]. split; [by apply groups_ok_weaken|].
    cbn. rewrite Hs', Hc', Ex. by rewrite Hs.
Qed.

(** A key that is not held goes up: nothing. *)
Lemma apply_release_other n s h kc key a :
  0 <= n → event_ready n s h → k_keycode key = kc → h !! kc = None →
  ∃ s', xkb_filter_apply_all km s key XKB_KEY_UP = Some s' ∧ event_done n s s' a kc XKB_KEY_UP h.
Proof.
  intros Hn (Hrep & Hs & Hc & Hg & _) Hkc Hx. pose proof (pk_G Hkm) as HG.
  destruct (run_filters_other n key XKB_KEY_UP (st_filters s) s false) as (fs' & Erun & Ea & Ho);
    [apply Hrep|rewrite Hkc; by eapply rep_not_held|].
  unfold xkb_filter_apply_all. rewrite Erun. cbn [mbind option_bind orb]. rewrite bool_decide_eq_true_2 by done.
  eexists. split; [done|]. unfold event_done, held_step, held_release, set_mask, clear_mask. rewrite Hx.
  split; [|split; [done|]; split; [by apply groups_ok_weaken|done]].
  apply (rep_mono n); [done|lia|]. destruct Hrep as [? ? ?]. cbn [st_filters st_put_filters]. split; by rewrite ?Ea.
Qed.

(** A key that is not held goes down: its action may hold it. *)
Lemma apply_press n s h kc key a :
  0 <= n → (n + 1) * G + 32 < 2 ^ 31 → event_ready n s h → key_range kc → k_keycode key = kc → h !! kc = None →
  xkb_key_get_action km s key = Some a → action_ok G a → act_type a ≠ ACTION_TYPE_MOD_LATCH →
  ∃ s', xkb_filter_apply_all km s key XKB_KEY_DOWN = Some s' ∧ event_done n s s' a kc XKB_KEY_DOWN h.
Proof.
  intros Hn HnG (Hrep & Hs & Hc & Hg & _) Hkr Hkc Hx Hact Haok Hal. pose proof (pk_G Hkm) as HG.
  destruct (run_filters_other n key XKB_KEY_DOWN (st_filters s) s false) as (fs' & Erun & Ea & Ho);
    [apply Hrep|rewrite Hkc; by eapply rep_not_held|].
  assert (filters_rep n fs' h) as Hrep' by (destruct Hrep as [? ? ?]; split; by rewrite ?Ea).
  unfold xkb_filter_apply_all. rewrite Erun. cbn [mbind option_bind orb]. rewrite bool_decide_eq_false_2 by done.
  change (xkb_key_get_action km (st_put_filters fs' s) key) with (xkb_key_get_action km s key). rewrite Hact.
  cbn [mbind option_bind st_filters st_put_filters].
  unfold event_done, held_step, held_press, set_mask, clear_mask. rewrite Hx.
  destruct (filter_action_new (act_type a)) as [[u new]|] eqn:Enew.
  - pose proof (filter_new_slot fs') as Hslot. destruct (xkb_filter_new fs') as [[i f0] fs1].
    set (f := f_set_action a (f_set_func (Some u) (f_set_key (k_keycode key) f0))).
    edestruct (filter_start n (st_put_filters fs' s) u new f)
      as (s' & f' & -> & Hkeep & Ef & Ek & Er & Eact & Hul & Em & Es & Ec & Hg' & Hp); [done..|].
    destruct (Hslot f') as (Hr0 & l1 & l2 & Eins & El & HP). cbn [mbind option_bind]. eexists. split; [done|].
    assert (filter_mask u f' = filter_mask u f) as Emf by (destruct u; cbn; by rewrite ?Eact).
    change (f_action f) with a in Em, Eact. rewrite Em. cbn [st_filters st_put_filters default from_option].
    split; [|split; [done|]; split; [done|]; cbn; split; [done|by rewrite Ec]].
    rewrite Eins. eapply (rep_insert n); [done|lia|exact Hrep'| |done|exact HP| |].
    + by apply (rep_not_held n fs' h).
    + unfold filter_hold. rewrite Ef. cbn. by rewrite Ek, Er, Emf, <- Hkc, <- Hr0.
    + intros u' Hu'. rewrite Ef in Hu'. cbn in Hu'. injection Hu' as <-. rewrite Eact, Er, Ek. cbn. rewrite Hr0, Hkc.
      split; [done|]. split; [apply Haok|]. split; [lia|]. split; [done|]. intros E. specialize (Hp E).
      unfold group_bound in *. nia.
  - eexists. split; [done|].
    assert (action_mask a = None) as Em by (unfold action_mask, filter_action_new in *; by destruct (act_type a)).
    rewrite Em. cbn. split; [apply (rep_mono n); [done|lia|done]|]. split; [done|]. split; [by apply groups_ok_weaken|done].
Qed.

Lemma apply_all_spec n s h kc key dir :
  0 <= n < 2 ^ 31 - 1 → (n + 1) * G + 32 < 2 ^ 31 → event_ready n s h → XkbKey km kc = Some key →
  ∃ a s', xkb_key_get_action km s key = Some a ∧ action_ok G a ∧ xkb_filter_apply_all km s key dir = Some s' ∧
    event_done n s s' a kc dir h.
Proof.
  intros Hn HnG Hr Hk. destruct (key_found km G (pk_ok Hkm) kc key Hk) as (Hkr & _ & Hkc).
  destruct (get_action_ok s kc key Hk) as (a & Ha & Haok & Hal); [apply Hr|].
  exists a. assert (∃ s', xkb_filter_apply_all km s key dir = Some s' ∧ event_done n s s' a kc dir h) as (s' & ? & ?).
  { destruct dir, (h !! kc) as [x|] eqn:Ex.
    - eapply apply_release; eauto. lia.
    - eapply apply_release_other; eauto. lia.
    - eapply apply_press_again; eauto.
    - eapply apply_press; eauto. lia. }
  by exists s'.
Qed.

(** ** The counts *)

(** One modifier through both loops. *)
Definition count_after (a : xkb_action) (kc : Z) (dir : direction) (h : held) (i : nat) (n : Z) : Z :=
  drop_count (Z.testbit (clear_mask kc dir h) (Z.of_nat i)) (bump (Z.testbit (set_mask a kc dir h) (Z.of_nat i)) n).

Definition bit_after (a : xkb_action) (kc : Z) (dir : direction) (h : held) (i : nat) (n : Z) (b : bool) : bool :=
  (b || Z.testbit (set_mask a kc dir h) (Z.of_nat i)) &&
  negb (Z.testbit (clear_mask kc dir h) (Z.of_nat i) &&
        (i16 (bump (Z.testbit (set_mask a kc dir h) (Z.of_nat i)) n - 1) <=? 0)).

Lemma count_step a kc dir h i :
  Z.of_nat (size h) < 2 ^ 15 → Z.of_nat (size (held_step a kc dir h)) < 2 ^ 15 →
  let n := Z.of_nat (holders i h) in
  let n' := Z.of_nat (holders i (held_step a kc dir h)) in
  count_after a kc dir h i n = n' ∧ bit_after a kc dir h i n (0 <? n) = (0 <? n').
Proof.
  intros Hsz Hsz' n n'. pose proof (holders_size i h) as Hh. pose proof (holders_size i (held_step a kc dir h)) as Hh'.
  unfold count_after, bit_after, set_mask, clear_mask. subst n n'. unfold held_step, held_press, held_release in *.
  destruct dir, (h !! kc) as [x|] eqn:Ex; rewrite ?Z.bits_0; cbn [bump drop_count andb orb negb];
    rewrite ?orb_false_r, ?andb_true_r; try done.
  - destruct (Z.ltb_spec 1 (h_presses x)) as [Hp|Hp].
    + rewrite Z.bits_0, (holders_update i h kc x _ Ex) by done. cbn. by rewrite andb_true_r.
    + rewrite (holders_delete i h kc x Ex) in *. unfold sets in *.
      destruct (Z.testbit (h_mask x) (Z.of_nat i)); cbn [Nat.b2n drop_count andb negb] in *; [|by rewrite Nat.add_0_r, andb_true_r].
      rewrite i16_small by lia. split; [case_step; zbool; lia|].
      destruct (Z.leb_spec (Z.of_nat (holders i (delete kc h) + 1) - 1) 0); destruct (Z.ltb_spec 0 (Z.of_nat (holders i (delete kc h))));
        destruct (Z.ltb_spec 0 (Z.of_nat (holders i (delete kc h) + 1))); try done; lia.
  - by rewrite (holders_update i h kc x _ Ex).
  - destruct (action_mask a) as [m|]; cbn [default from_option id]; [|by rewrite Z.bits_0, orb_false_r].
    rewrite (holders_insert i h kc _ Ex) in *. unfold sets in *. cbn [h_mask] in *.
    destruct (Z.testbit m (Z.of_nat i)); cbn [Nat.b2n bump] in *; [|by rewrite Nat.add_0_r, orb_false_r].
    rewrite i16_small by lia. rewrite orb_true_r. split; [lia|]. symmetry. apply Z.ltb_lt. lia.
Qed.

(** As many keys can be held as the keymap has. *)
Lemma rep_size n fs h : filters_rep n fs h → Z.of_nat (size h) < 2 ^ 15.
Proof.
  intros [Hk -> Hok]. rewrite map_size_list_to_map by done. pose proof (pk_keys Hkm).
  assert ((active fs).*1 ⊆+ keys_from km) as Hsub.
  { apply NoDup_submseteq; [done|]. intros kc Hkc. apply list_elem_of_fmap in Hkc as ([kc' x] & -> & Hx).
    apply list_elem_of_omap in Hx as (f & Hf & Hh). unfold filter_hold in Hh.
    destruct (f_func f) as [u|] eqn:Eu; [|done]. cbn in Hh. injection Hh as <- <-.
    rewrite Forall_forall in Hok. destruct (Hok f Hf u Eu) as (_ & _ & _ & [? ?] & _).
    apply elem_of_seqZ. cbn. lia. }
  apply submseteq_length in Hsub. rewrite length_fmap in Hsub. unfold keys_from in Hsub. rewrite length_seqZ in Hsub. lia.
Qed.

Lemma held_mask_ok n fs h kc x : filters_rep n fs h → h !! kc = Some x → mask_ok (h_mask x).
Proof.
  intros Hrep Hx. destruct (rep_lookup n fs h kc x Hrep Hx) as (_ & f & _ & u & _ & Hu & _ & -> & Hf & _).
  destruct (Hf u Hu) as (_ & Hm & _). destruct u; cbn; [done..| |]; unfold mask_ok; lia.
Qed.

Lemma clear_mask_ok n fs h kc dir : filters_rep n fs h → mask_ok (clear_mask kc dir h).
Proof.
  intros Hrep. unfold clear_mask. destruct dir, (h !! kc) eqn:E; try (unfold mask_ok; lia).
  case_step; [unfold mask_ok; lia|]. by eapply held_mask_ok.
Qed.

Lemma set_mask_ok a kc dir h : action_ok G a → mask_ok (set_mask a kc dir h).
Proof.
  intros [Hm _]. unfold set_mask, action_mask. destruct dir, (h !! kc); try (unfold mask_ok; lia).
  destruct (act_type a); cbn; try done; unfold mask_ok; lia.
Qed.
End held.
