(* ===== verification/XkbEvents.v ===== *)
(** * Sequences of key events

    The derived part of the keyboard state, whole calls of
    [xkb_state_update_key] and sequences of them: the state always represents
    the held keys, no modifier stays depressed once all keys are released, the
    reported changes are exact, and a second state fed with the serialised
    components mirrors the first. *)

From S2P Require Import Prelude XkbAtom XkbKeymap XkbState XkbHeld.
Open Scope Z_scope.

(** A sequence of key events. *)
Fixpoint run_keys (km : xkb_keymap) (s : xkb_state) (evs : list (Z * direction)) : option xkb_state :=
  match evs with
  | [] => Some s
  | (kc, dir) :: evs => '(_, s) ← xkb_state_update_key km s kc dir; run_keys km s evs
  end.

(** The held keys after the events, each press with the action the key has
    in the state it meets. *)
Inductive held_run (km : xkb_keymap) : xkb_state → held → list (Z * direction) → held → Prop :=
  | held_run_nil s h : held_run km s h [] h
  | held_run_key s h kc dir key a c s' evs h' :
      XkbKey km kc = Some key → xkb_key_get_action km s key = Some a →
      xkb_state_update_key km s kc dir = Some (c, s') →
      held_run km s' (held_step a kc dir h) evs h' →
      held_run km s h ((kc, dir) :: evs) h'
  | held_run_other s h kc dir evs h' :
      XkbKey km kc = None → held_run km s h evs h' → held_run km s h ((kc, dir) :: evs) h'.

(** How often a key has been pressed and not released, per key. *)
Definition pending (kc : Z) (evs : list (Z * direction)) (n : Z) : Z :=
  fold_left (λ n e, if e.1 =? kc then match e.2 with XKB_KEY_DOWN => n + 1 | XKB_KEY_UP => Z.max 0 (n - 1) end else n) evs n.

(** ** The derived state *)

Definition led_groups_ok (c : state_components) : Prop :=
  0 <= eff_group c <= 31 ∧ latched_group c = 0 ∧ 0 <= locked_group c <= 31.

Lemma bit_u32_ok g : 0 <= g <= 31 → bit_u32 g = Some (2 ^ g).
Proof. intros H. unfold bit_u32. by rewrite (proj2 (Z.leb_le _ _)), (proj2 (Z.ltb_lt _ _)) by lia. Qed.

Lemma add_group_ok w b g m : 0 <= g <= 31 → ∃ x, add_group w b g m = Some x.
Proof. intros H. unfold add_group. rewrite bit_u32_ok by done. case_step; eauto. Qed.

Lemma led_lit_ok km led c :
  led_groups_ok c → test (led_which_groups led) XKB_STATE_LAYOUT_DEPRESSED = false →
  ∃ b, led_lit km led c = Some b.
Proof.
  intros (He & Hla & Hlo) Hd. unfold led_lit. case_step; [eauto|].
  assert (∃ m, led_group_mask led c = Some m) as [m Em].
  { unfold led_group_mask. destruct (add_group_ok (led_which_groups led) XKB_STATE_LAYOUT_EFFECTIVE (eff_group c) 0 He) as [x ->].
    cbn [mbind option_bind].
    assert (add_group (led_which_groups led) XKB_STATE_LAYOUT_DEPRESSED (base_group c) x = Some x) as ->
      by (unfold add_group; by rewrite Hd).
    cbn [mbind option_bind]. rewrite Hla.
    destruct (add_group_ok (led_which_groups led) XKB_STATE_LAYOUT_LATCHED 0 x) as [y ->]; [lia|]. cbn [mbind option_bind].
    by apply add_group_ok. }
  rewrite Em. case_step; cbn [mbind option_bind]; [case_step|]; eauto.
Qed.

Lemma led_loop_ok km ls idx c :
  led_groups_ok c → 0 <= idx → idx + Z.of_nat (length ls) <= 32 →
  Forall (λ l, test (led_which_groups l) XKB_STATE_LAYOUT_DEPRESSED = false) ls →
  ∃ x, led_loop km idx ls c = Some (c_set_leds x c).
Proof.
  revert idx c. induction ls as [|l ls IH]; intros idx c Hc Hi Hlen Hf; cbn [led_loop].
  - exists (leds c). by destruct c.
  - apply Forall_cons in Hf as [Hl Hf]. cbn [length] in Hlen. destruct (led_lit_ok km l c Hc Hl) as [b ->].
    cbn [mbind option_bind]. rewrite bit_u32_ok by lia. cbn [mbind option_bind].
    destruct b; cbn [mbind option_bind].
    + destruct (IH (idx + 1) (c_set_leds (Z.lor (leds c) (2 ^ idx)) c)) as [x ->]; [done|lia|lia|done|]. by exists x.
    + apply IH; [done|lia|lia|done].
Qed.

Section derived.
Context (km : xkb_keymap) (G : Z) (Hkm : plain_keymap km G).

Lemma or_zero_wrap g :
  0 <= or_zero (XkbWrapGroupIntoRange g (km_num_groups km) RANGE_WRAP 0) <= 31.
Proof.
  pose proof (kok_num_groups _ _ (pk_ok _ _ Hkm)) as Hn. unfold or_zero.
  destruct (decide (km_num_groups km = 0)) as [->|Hne]; [cbn; lia|].
  pose proof (wrap_bound g (km_num_groups km) ltac:(lia)). case_step; lia.
Qed.

Lemma update_derived_ok n c :
  groups_ok G n (- G) (31 + G) c → 0 <= n → n * G + 64 < 2 ^ 31 →
  ∃ c', xkb_state_update_derived km c = Some c' ∧ base_mods c' = base_mods c ∧
    groups_ok G n 0 31 c' ∧ 0 <= eff_group c' <= 31.
Proof.
  intros (Hb & Hlo & Hla) Hn0 Hn. unfold xkb_state_update_derived. pose proof (pk_G _ _ Hkm) as HG. unfold group_bound in Hb.
  cbn [c_set_mods locked_group c_set_locked_group base_group latched_group base_mods latched_mods locked_mods].
  set (lo := or_zero _). assert (0 <= lo <= 31) as Hl by apply or_zero_wrap. rewrite i32_small by lia.
  rewrite Hla. rewrite add_int_ok by lia. cbn [mbind option_bind]. rewrite add_int_ok by lia. cbn [mbind option_bind].
  set (g := or_zero _). assert (0 <= g <= 31) as Hg by apply or_zero_wrap. unfold xkb_state_led_update_all.
  match goal with |- context [led_loop _ _ _ ?d] => destruct (led_loop_ok km (km_leds km) 0 d) as [x ->] end.
  - unfold led_groups_ok. cbn. lia.
  - lia.
  - pose proof (kok_leds _ _ (pk_ok _ _ Hkm)). lia.
  - apply (pk_leds _ _ Hkm).
  - eexists. split; [done|]. cbn. unfold groups_ok, group_bound. cbn. repeat split; lia.
Qed.

(** ** One key event *)

Record held_rep (n : Z) (s : xkb_state) (h : held) : Prop := mk_held_rep {
  hr_filters : filters_rep km G n (st_filters s) h;
  hr_len : length (st_mod_key_count s) = XKB_MAX_MODS;
  hr_counts : ∀ i, (i < 32)%nat → st_mod_key_count s !! i = Some (Z.of_nat (holders i h));
  hr_base_ok : mask_ok (base_mods (st_components s));
  hr_base : ∀ i, (i < 32)%nat →
    Z.testbit (base_mods (st_components s)) (Z.of_nat i) = (0 <? Z.of_nat (holders i h));
  hr_groups : groups_ok G n 0 31 (st_components s);
  hr_eff : 0 <= eff_group (st_components s) <= 31
}.

Lemma held_rep_new : held_rep 0 xkb_state_new ∅.
Proof.
  assert (∀ i, (i < 32)%nat → Z.of_nat (holders i ∅) = 0) as Hh by done.
  split; try done.
  - split; [constructor|done|constructor].
  - intros i Hi. cbn [st_mod_key_count xkb_state_new]. by rewrite lookup_replicate_2.
  - intros i Hi. rewrite Hh by done. apply Z.bits_0.
Qed.

Lemma bits_loops n s h s1 a kc dir :
  held_rep n s h → event_done km G n s s1 a kc dir h → action_ok G a →
  ∃ s2 s3, set_loop 33 0 1 s1 = Some s2 ∧ clear_loop 33 0 1 s2 = Some s3 ∧
    st_filters s3 = st_filters s1 ∧ length (st_mod_key_count s3) = XKB_MAX_MODS ∧
    st_components s3 = c_set_base_mods (base_mods (st_components s3)) (st_components s1) ∧
    mask_ok (base_mods (st_components s3)) ∧
    ∀ i, (i < 32)%nat → let n' := Z.of_nat (holders i (held_step a kc dir h)) in
      st_mod_key_count s3 !! i = Some n' ∧ Z.testbit (base_mods (st_components s3)) (Z.of_nat i) = (0 <? n').
Proof.
  intros Hrep (Hf & (Hk1 & Hk2 & Hk3) & Hg & Hs & Hc) Ha.
  pose proof (set_mask_ok G a kc dir h Ha) as Hsm. pose proof (clear_mask_ok km G n _ h kc dir (hr_filters _ _ _ Hrep)) as Hcm.
  destruct (set_loop_spec 33 0 s1) as (s2 & E2 & [R2 C2] & Cl2 & K2 & B2); [done|by rewrite Hk1; apply Hrep|by rewrite Hs| |].
  { intros j Hj. lia. }
  destruct (clear_loop_spec 33 0 s2) as (s3 & E3 & [R3 C3] & K3 & M3 & B3);
    [done|rewrite K2, length_imap, Hk1; apply Hrep|by rewrite Cl2, Hc| | |].
  { rewrite B2, Hk2, Hs. apply mask_ok_lor; [apply Hrep|done]. }
  { intros j Hj. lia. }
  exists s2, s3. split; [exact E2|]. split; [exact E3|]. split; [congruence|].
  split; [by rewrite K3, length_imap, K2, length_imap, Hk1; apply Hrep|].
  split; [rewrite C3, C2; done|]. split; [done|]. intros i Hi n'.
  pose proof (hr_counts _ _ _ Hrep i Hi) as Hcnt. rewrite <- Hk1 in Hcnt.
  destruct (count_step a kc dir h i) as [Hca Hba];
    [by eapply rep_size; [exact Hkm|apply Hrep]|by eapply rep_size|].
  assert (st_mod_key_count s2 !! i = Some (bump (Z.testbit (set_mask a kc dir h) (Z.of_nat i)) (Z.of_nat (holders i h)))) as Hi2.
  { by rewrite K2, list_lookup_imap, Hcnt, Hs. }
  split.
  - rewrite K3, list_lookup_imap, Hi2. cbn. rewrite Cl2, Hc. f_equal. exact Hca.
  - rewrite B3, B2, Z.lor_spec. unfold cleared. rewrite Cl2, Hi2, Hs, Hc, Hk2, (hr_base _ _ _ Hrep i Hi). apply Hba.
Qed.

(** The number of events the integers of the state have room for. *)
Definition room (n : Z) : Prop := 0 <= n < 2 ^ 31 - 1 ∧ (n + 1) * G + 64 < 2 ^ 31.

Lemma ready_of_rep n s h : held_rep n s h → event_ready km G n (st_put_clear 0 (st_put_set 0 s)) h.
Proof. intros [? ? ? ? ? ? ?]. unfold event_ready. auto. Qed.

Lemma update_key_spec n s h kc key dir :
  room n → held_rep n s h → XkbKey km kc = Some key →
  ∃ a c s', xkb_key_get_action km s key = Some a ∧ xkb_state_update_key km s kc dir = Some (c, s') ∧
    c = get_state_component_changes (st_components s) (st_components s') ∧
    held_rep (n + 1) s' (held_step a kc dir h).
Proof.
  intros [Hn HG] Hrep Hk. set (s0 := st_put_clear 0 (st_put_set 0 s)).
  destruct (apply_all_spec km G Hkm n s0 h kc key dir) as (a & s1 & Ha & Haok & Eap & Hdone); [done|lia|by apply ready_of_rep|done|].
  assert (held_rep n s0 h) as Hrep0 by (by destruct Hrep).
  destruct (bits_loops n s0 h s1 a kc dir Hrep0 Hdone Haok) as (s2 & s3 & E2 & E3 & F3 & L3 & C3 & M3 & B3).
  destruct Hdone as (Hf & _ & Hg & _).
  destruct (update_derived_ok (n + 1) (st_components s3)) as (c' & Ed & Eb & Hg' & He'); [by rewrite C3|lia|lia|].
  exists a, (get_state_component_changes (st_components s) c'), (st_set_components c' s3). split; [done|].
  split; [|split; [done|]].
  - unfold xkb_state_update_key. rewrite Hk. fold s0. rewrite Eap. cbn [mbind option_bind]. rewrite E2. cbn [mbind option_bind].
    rewrite E3. cbn [mbind option_bind]. by rewrite Ed.
  - split; cbn; rewrite ?Eb; try done; [by rewrite F3|intros i Hi; by apply B3|intros i Hi; by apply B3].
Qed.

(** ** Sequences of events *)

Lemma run_keys_spec evs n s h :
  (∀ m, n <= m < n + Z.of_nat (length evs) → room m) → held_rep n s h →
  ∃ s' h' m, run_keys km s evs = Some s' ∧ held_run km s h evs h' ∧ held_rep m s' h'.
Proof.
  revert n s h. induction evs as [|[kc dir] evs IH]; intros n s h Hroom Hrep.
  - exists s, h, n. split; [done|]. split; [constructor|done].
  - cbn [length] in Hroom. cbn [run_keys]. destruct (XkbKey km kc) as [key|] eqn:Ek.
    + destruct (update_key_spec n s h kc key dir) as (a & c & s1 & Ha & Eu & _ & Hrep1); [apply Hroom; lia|done..|].
      destruct (IH (n + 1) s1 _ ltac:(intros; apply Hroom; lia) Hrep1) as (s' & h' & m & Er & Hr & Hrep').
      exists s', h', m. rewrite Eu. split; [done|]. split; [by econstructor|done].
    + destruct (IH n s h ltac:(intros; apply Hroom; lia) Hrep) as (s' & h' & m & Er & Hr & Hrep').
      exists s', h', m. unfold xkb_state_update_key. rewrite Ek. split; [done|]. split; [by apply held_run_other|done].
Qed.

Lemma held_bits n s h i :
  held_rep n s h → (i < 32)%nat →
  Z.testbit (base_mods (st_components s)) (Z.of_nat i) = true ↔
  ∃ kc x, h !! kc = Some x ∧ Z.testbit (h_mask x) (Z.of_nat i) = true.
Proof.
  intros Hrep Hi. rewrite (hr_base _ _ _ Hrep i Hi), Z.ltb_lt. rewrite <- (holders_pos i h). lia.
Qed.
End derived.

(** ** All keys released *)

Definition pend1 (kc kc' : Z) (dir : direction) (n : Z) : Z :=
  if kc' =? kc then match dir with XKB_KEY_DOWN => n + 1 | XKB_KEY_UP => Z.max 0 (n - 1) end else n.

Section pending.
Context (km : xkb_keymap).

(** The held keys are keys of the keymap, pressed at most as often as [p] says. *)
Record pending_le (h : held) (p : Z → Z) : Prop := mk_pending_le {
  pl_nonneg : ∀ kc, 0 <= p kc;
  pl_presses : ∀ kc x, h !! kc = Some x → 1 <= h_presses x <= p kc;
  pl_keys : ∀ kc, XkbKey km kc = None → h !! kc = None
}.

Lemma pend1_nonneg k kc dir n : 0 <= n → 0 <= pend1 k kc dir n.
Proof. unfold pend1. destruct (kc =? k), dir; lia. Qed.

Lemma pending_step h p a kc key dir :
  XkbKey km kc = Some key → pending_le h p → pending_le (held_step a kc dir h) (λ k, pend1 k kc dir (p k)).
Proof.
  intros Hkey [Hp Hh Hk]. unfold held_step, held_press, held_release. split.
  - auto using pend1_nonneg.
  - intros k x. unfold pend1. destruct (Z.eqb_spec kc k) as [<-|Hne].
    + specialize (Hp kc). destruct dir, (h !! kc) as [y|] eqn:Ey; [|congruence|..];
        try (pose proof (Hh kc y Ey)); try case_step; zbool;
        rewrite ?lookup_insert_eq, ?lookup_delete_eq, ?Ey; intros [= <-]; cbn; lia.
    + destruct dir, (h !! kc) as [y|]; try case_step; rewrite ?lookup_insert_ne, ?lookup_delete_ne by done; by apply Hh.
  - intros k Hn. assert (kc ≠ k) as Hne by congruence.
    destruct dir, (h !! kc) as [y|]; try case_step; rewrite ?lookup_insert_ne, ?lookup_delete_ne by done; by apply Hk.
Qed.

Lemma pending_run s h evs h' p :
  held_run km s h evs h' → pending_le h p → pending_le h' (λ k, pending k evs (p k)).
Proof.
  intros Hr. revert p. induction Hr as [|? ? kc dir ? a ? ? ? ? ? ? ? ? IH|? ? kc dir ? ? Hk ? IH]; intros p Hp; [done|..].
  - eapply (pending_step _ _ a kc _ dir) in Hp; [|done]. by apply IH in Hp.
  - apply (IH (λ k, pend1 k kc dir (p k))). destruct Hp as [Hp Hh Hn]. split; [auto using pend1_nonneg| |done].
    intros k x Hx. unfold pend1. destruct (Z.eqb_spec kc k) as [<-|]; [rewrite Hn in Hx by done; done|by apply Hh].
Qed.

Lemma all_released s evs h' :
  held_run km s ∅ evs h' → (∀ kc, pending kc evs 0 = 0) → h' = ∅.
Proof.
  intros Hr Hz. destruct (pending_run s ∅ evs h' (λ _, 0) Hr) as [_ Hp _].
  { split; [done| |done]. intros kc x Hx. by rewrite lookup_empty in Hx. }
  apply map_empty. intros kc. destruct (h' !! kc) as [x|] eqn:Ex; [|done].
  pose proof (Hp kc x Ex) as Hb. rewrite Hz in Hb. lia.
Qed.
End pending.

(** ** Reported changes *)

(** [r] has exactly the flags of the components that differ. *)
Definition reports (r : Z) (a b : state_components) : Prop :=
  test r XKB_STATE_MODS_DEPRESSED = negb (base_mods a =? base_mods b) ∧
  test r XKB_STATE_MODS_LATCHED = negb (latched_mods a =? latched_mods b) ∧
  test r XKB_STATE_MODS_LOCKED = negb (locked_mods a =? locked_mods b) ∧
  test r XKB_STATE_MODS_EFFECTIVE = negb (eff_mods a =? eff_mods b) ∧
  test r XKB_STATE_LAYOUT_DEPRESSED = negb (base_group a =? base_group b) ∧
  test r XKB_STATE_LAYOUT_LATCHED = negb (latched_group a =? latched_group b) ∧
  test r XKB_STATE_LAYOUT_LOCKED = negb (locked_group a =? locked_group b) ∧
  test r XKB_STATE_LAYOUT_EFFECTIVE = negb (eff_group a =? eff_group b) ∧
  test r XKB_STATE_LEDS = negb (leds a =? leds b) ∧
  (r = 0 ↔ a = b).

Lemma changes_refl a : get_state_component_changes a a = 0.
Proof. unfold get_state_component_changes. by rewrite !Z.eqb_refl. Qed.

Lemma changes_flags a b :
  let r := get_state_component_changes a b in
  test r XKB_STATE_MODS_DEPRESSED = negb (base_mods a =? base_mods b) ∧
  test r XKB_STATE_MODS_LATCHED = negb (latched_mods a =? latched_mods b) ∧
  test r XKB_STATE_MODS_LOCKED = negb (locked_mods a =? locked_mods b) ∧
  test r XKB_STATE_MODS_EFFECTIVE = negb (eff_mods a =? eff_mods b) ∧
  test r XKB_STATE_LAYOUT_DEPRESSED = negb (base_group a =? base_group b) ∧
  test r XKB_STATE_LAYOUT_LATCHED = negb (latched_group a =? latched_group b) ∧
  test r XKB_STATE_LAYOUT_LOCKED = negb (locked_group a =? locked_group b) ∧
  test r XKB_STATE_LAYOUT_EFFECTIVE = negb (eff_group a =? eff_group b) ∧
  test r XKB_STATE_LEDS = negb (leds a =? leds b).
Proof.
  intros r. subst r. unfold get_state_component_changes.
  generalize (leds a =? leds b) (locked_mods a =? locked_mods b) (latched_mods a =? latched_mods b)
    (base_mods a =? base_mods b) (eff_mods a =? eff_mods b) (locked_group a =? locked_group b)
    (latched_group a =? latched_group b) (base_group a =? base_group b) (eff_group a =? eff_group b).
  intros [] [] [] [] [] [] [] [] []; vm_compute; repeat split.
Qed.

Lemma changes_zero a b : get_state_component_changes a b = 0 → a = b.
Proof.
  intros H. pose proof (changes_flags a b) as Hf. cbv zeta in Hf. rewrite H in Hf.
  destruct Hf as (H1&H2&H3&H4&H5&H6&H7&H8&H9).
  destruct a, b. cbn in *. f_equal; apply Z.eqb_eq; by apply negb_false_iff.
Qed.

Lemma changes_reports a b : reports (get_state_component_changes a b) a b.
Proof.
  pose proof (changes_flags a b) as (H1&H2&H3&H4&H5&H6&H7&H8&H9). unfold reports.
  repeat (split; [assumption|]). split; [apply changes_zero|intros ->; apply changes_refl].
Qed.

(** ** Mirroring a state *)

Lemma led_loop_only km idx ls c c' : led_loop km idx ls c = Some c' → ∃ x, c' = c_set_leds x c.
Proof.
  revert idx c. induction ls as [|l ls IH]; intros idx c H; cbn [led_loop] in H.
  - injection H as <-. exists (leds c). by destruct c.
  - destruct (led_lit km l c) as [[]|]; cbn [mbind option_bind] in H; [|by eapply IH|done].
    destruct (bit_u32 idx); cbn [mbind option_bind] in H; [|done]. apply IH in H as [x ->]. by exists x.
Qed.

(** The components that are inputs of the derivation. *)
Definition same_inputs (a b : state_components) : Prop :=
  base_mods a = base_mods b ∧ latched_mods a = latched_mods b ∧ locked_mods a = locked_mods b ∧
  base_group a = base_group b ∧ latched_group a = latched_group b ∧ locked_group a = locked_group b.

(** A locked group within the range of the keymap. *)
Definition locked_in_range (km : xkb_keymap) (c : state_components) : Prop :=
  0 <= locked_group c < Z.max 1 (km_num_groups km) ∧ 0 <= km_num_groups km < 2 ^ 31.

Lemma wrap_locked km c : locked_in_range km c →
  i32 (or_zero (XkbWrapGroupIntoRange (locked_group c) (km_num_groups km) RANGE_WRAP 0)) = locked_group c.
Proof.
  intros [Hl Hn]. unfold XkbWrapGroupIntoRange, or_zero. destruct (Z.eqb_spec (km_num_groups km) 0) as [E|Hne].
  - rewrite E in Hl. rewrite Z.eqb_refl, i32_small by lia. lia.
  - rewrite (proj2 (Z.leb_le _ _)), (proj2 (Z.ltb_lt _ _)) by lia. cbn [andb].
    rewrite (proj2 (Z.eqb_neq _ _)); [apply i32_small; lia|]. unfold XKB_INVALID. lia.
Qed.

(** The derived state is determined by its inputs and stable. *)
Lemma derived_stable km c0 c1 c :
  xkb_state_update_derived km c0 = Some c1 → locked_in_range km c1 → same_inputs c c1 →
  xkb_state_update_derived km c = Some c1.
Proof.
  intros Hd Hl Hs. unfold xkb_state_update_derived in Hd |- *. cbn in Hd |- *.
  set (lo := i32 (or_zero (XkbWrapGroupIntoRange (locked_group c0) _ _ _))) in Hd.
  destruct (add_int (base_group c0) (latched_group c0)) as [g1|] eqn:E1; cbn [mbind option_bind] in Hd; [|done].
  destruct (add_int g1 lo) as [g2|] eqn:E2; cbn [mbind option_bind] in Hd; [|done].
  pose proof Hd as Hd'. unfold xkb_state_led_update_all in Hd'. apply led_loop_only in Hd' as [x Hx].
  assert (locked_group c1 = lo) as Elo by (rewrite Hx; done).
  assert (locked_group c = locked_group c1) as Ec by apply Hs.
  pose proof (wrap_locked km c1 Hl) as Hw. rewrite <- Ec in Hw. rewrite Hw, Ec, Elo.
  destruct Hs as (H1 & H2 & H3 & H4 & H5 & _). rewrite Hx in H1, H2, H3, H4, H5. cbn in H1, H2, H3, H4, H5.
  rewrite H1, H2, H3, H4, H5, E1. cbn [mbind option_bind]. rewrite E2. cbn [mbind option_bind].
  rewrite <- Hd. unfold xkb_state_led_update_all. f_equal. unfold c_set_leds, c_set_group, c_set_locked_group, c_set_mods. cbn. congruence.
Qed.

(** A mask of modifiers of the keymap that contains what they map to. *)
Definition resolved (km : xkb_keymap) (m : Z) : Prop :=
  ∃ mask e, existing_mods km = Some mask ∧ Z.land m mask = m ∧ mod_mask_get_effective km m = Some e ∧ Z.lor m e = m.

Definition int32 (x : Z) : Prop := - 2 ^ 31 <= x < 2 ^ 31.

Lemma update_mask_eq km s bm lm km' bg lg kg mask eb el ek :
  existing_mods km = Some mask →
  mod_mask_get_effective km (Z.land bm mask) = Some eb → mod_mask_get_effective km (Z.land lm mask) = Some el →
  mod_mask_get_effective km (Z.land km' mask) = Some ek →
  xkb_state_update_mask km s bm lm km' bg lg kg =
    c ← xkb_state_update_derived km
          (mk_components (i32 bg) (i32 lg) (i32 kg) (eff_group (st_components s))
             (Z.lor (Z.land bm mask) eb) (Z.lor (Z.land lm mask) el) (Z.lor (Z.land km' mask) ek)
             (eff_mods (st_components s)) (leds (st_components s)));
    Some (get_state_component_changes (st_components s) c, st_set_components c s).
Proof.
  intros E1 E2 E3 E4. unfold xkb_state_update_mask. rewrite E1. cbn [mbind option_bind]. rewrite E2. cbn [mbind option_bind].
  rewrite E3. cbn [mbind option_bind]. rewrite E4. reflexivity.
Qed.

Lemma i32_u32_int x : int32 x → i32 (u32 x) = x.
Proof. apply i32_u32. Qed.

Lemma update_mask_components km s c0 c1 :
  xkb_state_update_derived km c0 = Some c1 → locked_in_range km c1 →
  resolved km (base_mods c1) → resolved km (latched_mods c1) → resolved km (locked_mods c1) →
  int32 (base_group c1) → int32 (latched_group c1) →
  xkb_state_update_mask km s (base_mods c1) (latched_mods c1) (locked_mods c1)
    (u32 (base_group c1)) (u32 (latched_group c1)) (u32 (locked_group c1)) =
  Some (get_state_component_changes (st_components s) c1, st_set_components c1 s).
Proof.
  intros Hd Hl (m & b & Em & B1 & B2 & B3) (m' & la & Em' & A1 & A2 & A3) (m'' & lo & Em'' & L1 & L2 & L3) Hbg Hlg.
  rewrite Em in Em', Em''. injection Em' as <-. injection Em'' as <-.
  assert (int32 (locked_group c1)) as Hlo by (unfold int32; destruct Hl; lia).
  erewrite update_mask_eq; [|exact Em|by rewrite B1|by rewrite A1|by rewrite L1].
  rewrite B1, A1, L1, B3, A3, L3, !i32_u32_int by done.
  by rewrite (derived_stable km c0 c1 _ Hd Hl).
Qed.

(** ** A keymap to try the theorems on

    Key 50 sets Shift, key 62 sets Shift too, key 66 locks the modifier Lock,
    key 64 adds a group while held, key 38 has two levels and two groups.  The
    LED shows the locked modifier Lock. *)

Definition one_level : xkb_key_type := mk_type (mk_mods 0 0) 1 [].
Definition shift_type : xkb_key_type :=
  mk_type (mk_mods 1 1) 2 [mk_entry 1 (mk_mods 1 1) (mk_mods 0 0)].
Definition action_key (kc : Z) (a : xkb_action) : xkb_key :=
  mk_key kc 0 false RANGE_WRAP 0 [mk_group one_level [mk_level a []]].
Definition letter_key (kc : Z) (syms : list Z) : xkb_key :=
  mk_key kc 0 true RANGE_WRAP 0
    ((λ x, mk_group shift_type [mk_level no_action [x]; mk_level no_action [x - 32]]) <$> syms).
Definition demo_mods : list xkb_mod :=
  (λ i, mk_mod (Z.of_nat i + 1) 1 0) <$> seq 0 8.
Definition demo_keymap (keys : list xkb_key) (led : xkb_led) : xkb_keymap :=
  mk_keymap atom_table_new 0 50 (50 + Z.of_nat (length keys) - 1)
    (list_to_map ((λ k, (k_keycode k, k)) <$> keys)) [] demo_mods 2 [] [led].

Definition lock_led : xkb_led := mk_led 9 0 0 XKB_STATE_MODS_LOCKED (mk_mods 2 2) 0.
Definition us_keys : list xkb_key :=
  [action_key 50 (mk_action ACTION_TYPE_MOD_SET 0 1 0); action_key 51 (mk_action ACTION_TYPE_MOD_SET 0 1 0);
   action_key 52 (mk_action ACTION_TYPE_MOD_LOCK 0 2 0); action_key 53 (mk_action ACTION_TYPE_GROUP_SET 0 0 1);
   letter_key 54 [97; 98]].
Definition us_keymap : xkb_keymap := demo_keymap us_keys lock_led.

Lemma us_plain : plain_keymap us_keymap 1.
Proof.
  assert (∀ kc k, km_keys us_keymap !! kc = Some k → k ∈ us_keys ∧ k_keycode k = kc) as Hin.
  { intros kc k Hk. apply elem_of_list_to_map_2 in Hk. apply list_elem_of_fmap in Hk as (k' & [= -> ->] & Hk'). done. }
  assert (Forall (λ k, k_num_groups k <= 2 ∧ 0 <= k_out_of_range_number k ∧ Forall group_ok (k_groups k)) us_keys) as H1.
  { unfold group_ok. apply (bool_decide_unpack _). vm_compute. exact I. }
  assert (Forall (λ k, Forall (λ g, Forall (λ l, action_ok 1 (lv_action l) ∧ act_type (lv_action l) ≠ ACTION_TYPE_MOD_LATCH)
    (g_levels g)) (k_groups k)) us_keys) as H2.
  { unfold action_ok, mask_ok. apply (bool_decide_unpack _). vm_compute. exact I. }
  rewrite Forall_forall in H1, H2.
  assert (∀ kc k g l, km_keys us_keymap !! kc = Some k → g ∈ k_groups k → l ∈ g_levels g →
    action_ok 1 (lv_action l) ∧ act_type (lv_action l) ≠ ACTION_TYPE_MOD_LATCH) as H3.
  { intros kc k g l Hk Hg Hl. destruct (Hin kc k Hk) as [Hk' _]. specialize (H2 k Hk'). rewrite Forall_forall in H2.
    specialize (H2 g Hg). rewrite Forall_forall in H2. by apply H2. }
  split; [|done|intros; by eapply H3|done|by repeat constructor].
  split; [done| |intros kc k Hk; by apply H1, (Hin kc k)|intros; by eapply H3|done| |by repeat constructor|cbn; lia].
  - intros kc Hkc. cbn in Hkc.
    assert (kc = 50 ∨ kc = 51 ∨ kc = 52 ∨ kc = 53 ∨ kc = 54) as [->|[->|[->|[->| ->]]]] by lia;
      (eexists; split; [vm_compute; reflexivity|done]).
  - cbn. lia.
Qed.

(** ** The theorems *)

(** C13: for a well-formed keymap with no latch actions, fewer than 2^15 keys
    and no LED that shows the depressed group ([plain_keymap]), any sequence of
    key events so short that neither its length nor the sum of the group
    actions, each at most [G], overflows an [int], is processed without
    undefined behaviour, and the depressed modifiers are afterwards exactly the
    modifiers of the keys that are held. *)
Theorem held_modifiers_refine km G evs :
  plain_keymap km G → Z.of_nat (length evs) < 2 ^ 31 - 1 → (Z.of_nat (length evs) + 1) * G + 64 < 2 ^ 31 →
  ∃ s h, run_keys km xkb_state_new evs = Some s ∧ held_run km xkb_state_new ∅ evs h ∧
    ∀ i : nat, (i < 32)%nat →
      Z.testbit (base_mods (st_components s)) (Z.of_nat i) = true ↔
      ∃ kc x, h !! kc = Some x ∧ Z.testbit (h_mask x) (Z.of_nat i) = true.
Proof.
  intros Hkm Hn HG. pose proof (pk_G _ _ Hkm).
  destruct (run_keys_spec km G Hkm evs 0 xkb_state_new ∅) as (s & h & m & Er & Hr & Hrep);
    [intros m Hm; split; nia|apply held_rep_new|].
  exists s, h. split; [done|]. split; [done|]. intros i Hi. by eapply held_bits.
Qed.

Lemma held_modifiers_refine_witness :
  ∃ s h, run_keys us_keymap xkb_state_new [(50, XKB_KEY_DOWN); (51, XKB_KEY_DOWN); (50, XKB_KEY_UP)] = Some s ∧
    held_run us_keymap xkb_state_new ∅ [(50, XKB_KEY_DOWN); (51, XKB_KEY_DOWN); (50, XKB_KEY_UP)] h ∧
    ∀ i : nat, (i < 32)%nat →
      Z.testbit (base_mods (st_components s)) (Z.of_nat i) = true ↔
      ∃ kc x, h !! kc = Some x ∧ Z.testbit (h_mask x) (Z.of_nat i) = true.
Proof. apply (held_modifiers_refine us_keymap 1); [exact us_plain|cbn; lia|cbn; lia]. Defined.

(** C12: for a well-formed keymap with no latch actions, fewer than 2^15 keys
    and no LED that shows the depressed group ([plain_keymap]), and for
    sequences that do not overflow an [int] as above, no modifier stays
    depressed: when every key has been released as often as it was pressed, in
    whatever order and through whatever other keys, the depressed modifiers are
    empty. *)
Theorem no_stuck_modifiers km G evs :
  plain_keymap km G → Z.of_nat (length evs) < 2 ^ 31 - 1 → (Z.of_nat (length evs) + 1) * G + 64 < 2 ^ 31 →
  (∀ kc, pending kc evs 0 = 0) →
  ∃ s, run_keys km xkb_state_new evs = Some s ∧ base_mods (st_components s) = 0.
Proof.
  intros Hkm Hn HG Hp. pose proof (pk_G _ _ Hkm).
  destruct (run_keys_spec km G Hkm evs 0 xkb_state_new ∅) as (s & h & m & Er & Hr & Hrep);
    [intros m Hm; split; nia|apply held_rep_new|].
  apply all_released in Hr as ->; [|done]. exists s. split; [done|]. apply mask_zero; [apply Hrep|].
  intros i Hi. rewrite <- (Z2Nat.id i) by lia. rewrite (hr_base _ _ _ _ _ Hrep) by lia. done.
Qed.

Lemma no_stuck_modifiers_witness :
  ∃ s, run_keys us_keymap xkb_state_new
    [(50, XKB_KEY_DOWN); (51, XKB_KEY_DOWN); (54, XKB_KEY_DOWN); (50, XKB_KEY_UP); (51, XKB_KEY_UP); (54, XKB_KEY_UP)] = Some s ∧
    base_mods (st_components s) = 0.
Proof.
  apply (no_stuck_modifiers us_keymap 1); [exact us_plain|cbn; lia|cbn; lia|].
  intros kc. unfold pending. cbn [fold_left fst snd]. destruct (50 =? kc), (51 =? kc), (54 =? kc); reflexivity.
Defined.

(** The value [xkb_state_update_key] returns has exactly the flags of the
    components that the event changed, and is 0 only if none did. *)
Theorem changes_exact km s kc dir r s' :
  xkb_state_update_key km s kc dir = Some (r, s') → reports r (st_components s) (st_components s').
Proof.
  unfold xkb_state_update_key. destruct (XkbKey km kc) as [key|].
  - intros H. destruct (xkb_filter_apply_all _ _ _ _) as [s1|]; cbn [mbind option_bind] in H; [|done].
    destruct (set_loop _ _ _ s1) as [s2|]; cbn [mbind option_bind] in H; [|done].
    destruct (clear_loop _ _ _ s2) as [s3|]; cbn [mbind option_bind] in H; [|done].
    destruct (xkb_state_update_derived km _) as [c|]; cbn [mbind option_bind] in H; [|done].
    injection H as <- <-. apply changes_reports.
  - intros [= <- <-]. rewrite <- (changes_refl (st_components s)). apply changes_reports.
Qed.

Lemma changes_exact_witness :
  ∃ s, xkb_state_update_key us_keymap xkb_state_new 52 XKB_KEY_DOWN = Some (269, s) ∧
    reports 269 (st_components xkb_state_new) (st_components s).
Proof.
  destruct (xkb_state_update_key us_keymap xkb_state_new 52 XKB_KEY_DOWN) as [[r s]|] eqn:E;
    [|exfalso; vm_compute in E; discriminate].
  assert (r = 269) as -> by (vm_compute in E; congruence).
  exists s. split; [reflexivity|]. apply (changes_exact us_keymap xkb_state_new 52 XKB_KEY_DOWN 269 s E).
Defined.

(** A second state that is given the serialised depressed, latched and
    locked components of the first has afterwards the same components, the
    derived modifiers, group and LEDs included. *)
Theorem mask_mirrors km s slave c0 :
  xkb_state_update_derived km c0 = Some (st_components s) → locked_in_range km (st_components s) →
  resolved km (base_mods (st_components s)) → resolved km (latched_mods (st_components s)) →
  resolved km (locked_mods (st_components s)) →
  int32 (base_group (st_components s)) → int32 (latched_group (st_components s)) →
  ∃ r, xkb_state_update_mask km slave
    (xkb_state_serialize_mods s XKB_STATE_MODS_DEPRESSED) (xkb_state_serialize_mods s XKB_STATE_MODS_LATCHED)
    (xkb_state_serialize_mods s XKB_STATE_MODS_LOCKED) (xkb_state_serialize_layout s XKB_STATE_LAYOUT_DEPRESSED)
    (xkb_state_serialize_layout s XKB_STATE_LAYOUT_LATCHED) (xkb_state_serialize_layout s XKB_STATE_LAYOUT_LOCKED) =
  Some (r, st_set_components (st_components s) slave) ∧ reports r (st_components slave) (st_components s).
Proof.
  intros Hd Hl Hb Hla Hlo Hbg Hlg. eexists. split; [|apply changes_reports].
  rewrite <- (update_mask_components km slave c0 (st_components s)) by done. reflexivity.
Qed.

Lemma mask_mirrors_witness :
  ∃ s, run_keys us_keymap xkb_state_new [(52, XKB_KEY_DOWN); (52, XKB_KEY_UP); (50, XKB_KEY_DOWN); (53, XKB_KEY_DOWN)] = Some s ∧
    ∃ r, xkb_state_update_mask us_keymap xkb_state_new
    (xkb_state_serialize_mods s XKB_STATE_MODS_DEPRESSED) (xkb_state_serialize_mods s XKB_STATE_MODS_LATCHED)
    (xkb_state_serialize_mods s XKB_STATE_MODS_LOCKED) (xkb_state_serialize_layout s XKB_STATE_LAYOUT_DEPRESSED)
    (xkb_state_serialize_layout s XKB_STATE_LAYOUT_LATCHED) (xkb_state_serialize_layout s XKB_STATE_LAYOUT_LOCKED) =
  Some (r, st_set_components (st_components s) xkb_state_new) ∧ reports r (st_components xkb_state_new) (st_components s).
Proof.
  eexists. split; [vm_compute; reflexivity|].
  match goal with |- context [xkb_state_serialize_mods ?s _] =>
    apply (mask_mirrors us_keymap s xkb_state_new (st_components s)) end.
  - vm_compute; reflexivity.
  - split; vm_compute; split; congruence.
  - eexists _, _. repeat split; vm_compute; reflexivity.
  - eexists _, _. repeat split; vm_compute; reflexivity.
  - eexists _, _. repeat split; vm_compute; reflexivity.
  - split; vm_compute; congruence.
  - split; vm_compute; congruence.
Defined.

(** ** What the theorems leave out

    Runs outside the hypotheses of the theorems above: latch actions, the
    depressed group, and a LED that shows it. *)

Definition down (kc : Z) : Z * direction := (kc, XKB_KEY_DOWN).
Definition up (kc : Z) : Z * direction := (kc, XKB_KEY_UP).

Definition latch_keymap : xkb_keymap :=
  demo_keymap
    [action_key 50 (mk_action ACTION_TYPE_MOD_LATCH ACTION_LATCH_TO_LOCK 1 0);
     action_key 51 (mk_action ACTION_TYPE_MOD_LOCK 0 2 0); action_key 52 (mk_action ACTION_TYPE_MOD_SET 0 1 0)] lock_led.

(** Locking Shift by latching it twice takes the lock off the modifier Lock:
    the release uses the latch state 2 the filter still has in [priv] as the
    mask of locks to drop. *)
Lemma latch_to_lock_unlocks_lock :
  ∃ s, run_keys latch_keymap xkb_state_new [down 51; up 51; down 50; up 50; down 50] = Some s ∧
    locked_mods (st_components s) = 3 ∧
    ∃ s', run_keys latch_keymap s [up 50] = Some s' ∧ locked_mods (st_components s') = 1.
Proof. eexists. split; [vm_compute; reflexivity|]. split; [reflexivity|]. eexists. by vm_compute. Qed.

(** The same promotion takes Shift from a key that still holds it. *)
Lemma latch_to_lock_drops_held :
  ∃ s, run_keys latch_keymap xkb_state_new [down 50; up 50; down 52; down 50; up 50] = Some s ∧
    base_mods (st_components s) = 0 ∧ f_func <$> st_filters s !! 1%nat = Some (Some FModSet).
Proof. eexists. split; [vm_compute; reflexivity|]. done. Qed.

Definition group_keymap (g : Z) (led : xkb_led) : xkb_keymap :=
  demo_keymap
    [action_key 50 (mk_action ACTION_TYPE_GROUP_SET 0 0 g); action_key 51 (mk_action ACTION_TYPE_GROUP_SET 0 0 g)] led.

(** Two overlapping group keys released in the order they were pressed leave
    the depressed group set with no key held. *)
Lemma depressed_group_stuck :
  ∃ s, run_keys (group_keymap 1 lock_led) xkb_state_new [down 50; down 51; up 50; up 51] = Some s ∧
    base_group (st_components s) = 1 ∧ Forall (λ f, f_func f = None) (st_filters s).
Proof. eexists. split; [vm_compute; reflexivity|]. by repeat constructor. Qed.

(** A LED for the depressed group shifts by a negative number. *)
Lemma negative_group_led_undefined :
  run_keys (group_keymap (-1) (mk_led 9 XKB_STATE_LAYOUT_DEPRESSED 1 0 (mk_mods 0 0) 0)) xkb_state_new [down 50] = None.
Proof. reflexivity. Qed.

(** Two groups down from the first is the group 2 of a keymap with the groups
    0 and 1. *)
Lemma effective_group_out_of_range :
  ∃ s, run_keys (group_keymap (-2) lock_led) xkb_state_new [down 50] = Some s ∧ eff_group (st_components s) = 2 ∧
    km_num_groups (group_keymap (-2) lock_led) = 2.
Proof. eexists. split; [vm_compute; reflexivity|]. done. Qed.
