(* ===== verification/XkbText.v ===== *)
(** The text of a key: the rest of libxkbcommon's [state.c], from the symbols
    of a key in a state to one symbol, to a UTF-32 code point and to UTF-8 in
    the caller's buffer, with the transformations for Caps Lock and Control.
    It composes the keymap, the state, the case conversion, the Unicode table
    and the UTF-8 validator. *)
From Stdlib Require Import ZArith Lia.
From stdpp Require Import base list gmap strings.
From S2P Require Import Prelude XkbAtom XkbUtf8 XkbKeysymTables XkbKeysym XkbKeysymUtf XkbCase XkbKeymap XkbState XkbHeld XkbEvents.

Open Scope Z_scope.

Definition XKB_MOD_NAME_CAPS : list Z := chars "Lock".
Definition XKB_MOD_NAME_CTRL : list Z := chars "Control".

Section text.
Context (km : xkb_keymap).

Definition should_do_transformation (name : list Z) (s : xkb_state) (kc : Z) : option bool :=
  idx ← xkb_keymap_mod_get_index km name;
  active ← xkb_state_mod_index_is_active km s idx XKB_STATE_MODS_EFFECTIVE;
  if 0 <? active then
    consumed ← xkb_state_mod_index_is_consumed km s kc idx;
    Some (consumed =? 0)
  else Some false.
Definition should_do_caps_transformation : xkb_state → Z → option bool := should_do_transformation XKB_MOD_NAME_CAPS.
Definition should_do_ctrl_transformation : xkb_state → Z → option bool := should_do_transformation XKB_MOD_NAME_CTRL.

Definition XkbToControl (ch : Z) : Z :=
  if ((64 <=? ch) && (ch <? 127)) || (ch =? 32) then Z.land ch 0x1f
  else if ch =? 50 (* 2 *) then 0
  else if (51 <=? ch) && (ch <=? 55) (* 3 to 7 *) then ch - (51 - 27)
  else if ch =? 56 (* 8 *) then 127
  else if ch =? 47 (* / *) then 0x1f
  else ch.

Definition capitalize (s : xkb_state) (kc sym : Z) : option Z :=
  caps ← should_do_caps_transformation s kc;
  if (caps : bool) then xkb_keysym_to_upper sym else Some sym.

Definition xkb_state_key_get_one_sym (s : xkb_state) (kc : Z) : option Z :=
  syms ← xkb_state_key_get_syms km s kc;
  match syms with [sym] => capitalize s kc sym | _ => Some XKB_KEY_NoSymbol end.

(** The loop over the layouts that looks for a symbol in ASCII; [n] layouts
    are left from [i] on. *)
Fixpoint ascii_loop (n : nat) (i : Z) (s : xkb_state) (kc sym : Z) : option Z :=
  match n with
  | O => Some sym
  | S n =>
      level ← xkb_state_key_get_level km s kc i;
      if level =? XKB_LEVEL_INVALID then ascii_loop n (i + 1) s kc sym
      else
        syms ← xkb_keymap_key_get_syms_by_level km kc i level;
        match syms with
        | [x] => if x <=? 127 then Some x else ascii_loop n (i + 1) s kc sym
        | _ => ascii_loop n (i + 1) s kc sym
        end
  end.

Definition get_one_sym_for_string (s : xkb_state) (kc : Z) : option Z :=
  let layout := xkb_state_key_get_layout km s kc in
  let num_layouts := xkb_keymap_num_layouts_for_key km kc in
  level ← xkb_state_key_get_level km s kc layout;
  if (layout =? XKB_LAYOUT_INVALID) || (num_layouts =? 0) || (level =? XKB_LEVEL_INVALID) then Some XKB_KEY_NoSymbol
  else
    syms ← xkb_keymap_key_get_syms_by_level km kc layout level;
    match syms with
    | [sym] =>
        ctrl ← should_do_ctrl_transformation s kc;
        sym ← if (ctrl : bool) && (127 <? sym) then ascii_loop (Z.to_nat num_layouts) 0 s kc sym else Some sym;
        capitalize s kc sym
    | _ => Some XKB_KEY_NoSymbol
    end.

(** [memcpy] into the buffer, undefined out of its bounds. *)
Definition copy_to (buffer : list Z) (offset : Z) (bytes : list Z) : option (list Z) :=
  if (0 <=? offset) && (offset + Z.of_nat (length bytes) <=? Z.of_nat (length buffer))
  then Some (take (Z.to_nat offset) buffer ++ bytes ++ drop (Z.to_nat offset + length bytes) buffer)
  else None.

(** The loop over the symbols: whether all of them have text, the offset and
    the buffer. The offset is an [int]. *)
Fixpoint utf8_loop (syms : list Z) (offset : Z) (buffer : list Z) : option (bool * Z * list Z) :=
  match syms with
  | [] => Some (true, offset, buffer)
  | sym :: syms =>
      '(ret, tmp) ← xkb_keysym_to_utf8 sym 7;
      if ret <=? 0 then Some (false, offset, buffer)
      else
        let ret := ret - 1 in
        if 2 ^ 31 <=? offset + ret then None
        else
          buffer ← if offset + ret <=? Z.of_nat (length buffer)
                   then copy_to buffer offset (take (Z.to_nat ret) tmp) else Some buffer;
          utf8_loop syms (offset + ret) buffer
  end.

(** The result and the buffer, whose length is [size]. *)
Definition xkb_state_key_get_utf8 (s : xkb_state) (kc : Z) (buffer : list Z) : option (Z * list Z) :=
  let size := Z.of_nat (length buffer) in
  let err_bad buffer := if 0 <? size then b ← copy_to buffer 0 [0]; Some (0, b) else Some (0, buffer) in
  sym ← get_one_sym_for_string s kc;
  syms ← if negb (sym =? XKB_KEY_NoSymbol) then Some [sym] else xkb_state_key_get_syms km s kc;
  '(ok, offset, buffer) ← utf8_loop syms 0 buffer;
  if negb ok then err_bad buffer
  else if size <=? offset then
    if 0 <? size then b ← copy_to buffer (size - 1) [0]; Some (offset, b) else Some (offset, buffer)
  else
    buffer ← copy_to buffer offset [0];
    valid ← is_valid_utf8 (take (Z.to_nat offset) buffer);
    if negb valid then err_bad buffer
    else
      c ← buffer !! 0%nat;
      if (offset =? 1) && (c <=? 127) then
        ctrl ← should_do_ctrl_transformation s kc;
        if (ctrl : bool) then b ← copy_to buffer 0 [XkbToControl c]; Some (offset, b) else Some (offset, buffer)
      else Some (offset, buffer).

Definition xkb_state_key_get_utf32 (s : xkb_state) (kc : Z) : option Z :=
  sym ← get_one_sym_for_string s kc;
  cp ← xkb_keysym_to_utf32 sym;
  if cp <=? 127 then
    ctrl ← should_do_ctrl_transformation s kc;
    Some (if (ctrl : bool) then XkbToControl cp else cp)
  else Some cp.
End text.

(** ** Totality *)

Definition syms_ok (syms : list Z) : Prop :=
  Forall (λ x, 0 <= x < 2 ^ 32) syms ∧ Z.of_nat (length syms) < 2 ^ 28.

(** A well-formed keymap whose names are those of a table of atoms and whose
    symbols are 32-bit numbers, few enough for the length of their text to be
    an [int]. *)
Record text_keymap (km : xkb_keymap) (G : Z) : Prop := mk_text_keymap {
  tk_ok : keymap_ok km G;
  tk_atoms : ∃ S, table_ok (km_atoms km) S ∧ Z.of_nat (length S) + 2 < 2 ^ 32;
  tk_syms : ∀ kc k g l, km_keys km !! kc = Some k → g ∈ k_groups k → l ∈ g_levels g → syms_ok (lv_syms l)
}.

(** The states a key event can lead to. *)
Definition group_ready (s : xkb_state) : Prop := 0 <= eff_group (st_components s) <= 31.

Lemma index_from_pos {A} (p : A → bool) i l : 0 <= i → 0 <= index_from p i l.
Proof. revert i. induction l as [|x l IH]; intros i Hi; [done|]. cbn. case_step; [done|]. apply IH. lia. Qed.

Section total.
Context (km : xkb_keymap) (G : Z) (Hkm : text_keymap km G).

Lemma mod_index_ok name : no_nul name → ∃ idx, xkb_keymap_mod_get_index km name = Some idx ∧ 0 <= idx.
Proof.
  intros Hn. destruct (tk_atoms _ _ Hkm) as (S & HS & Hlen). destruct (intern_refines _ _ name false HS Hn Hlen) as (t & E & _).
  unfold xkb_keymap_mod_get_index, xkb_atom_lookup. rewrite E. cbn [fmap option_fmap option_map mbind option_bind fst].
  case_step; eexists; split; try done. by apply index_from_pos.
Qed.

Lemma mod_bit_ok idx : 0 <= idx → xkb_keymap_num_mods km <=? idx = false → bit_u32 idx = Some (2 ^ idx).
Proof. intros H0 H. zbool. pose proof (kok_mods _ _ (tk_ok _ _ Hkm)). unfold xkb_keymap_num_mods in *. apply bit_u32_ok. lia. Qed.

Lemma layout_ok s kc key :
  group_ready s → XkbKey km kc = Some key →
  xkb_state_key_get_layout km s kc = XKB_LAYOUT_INVALID ∨
  ∃ g, 0 <= xkb_state_key_get_layout km s kc < k_num_groups key ∧
    group_at key (xkb_state_key_get_layout km s kc) = Some g ∧ g ∈ k_groups key.
Proof.
  intros Hg Hk. destruct (get_layout_ok km G (tk_ok _ _ Hkm) s kc key Hk Hg) as [?|Hr]; [by left|right].
  destruct (group_at_ok key _ Hr) as (g & ? & ?). by exists g.
Qed.

Lemma consumed_ok s kc key : group_ready s → XkbKey km kc = Some key → ∃ c, key_get_consumed km s key XKB_CONSUMED_MODE_XKB = Some c.
Proof.
  intros Hg Hk. unfold key_get_consumed. destruct (key_found km G (tk_ok _ _ Hkm) kc key Hk) as (_ & _ & Hc). rewrite Hc.
  destruct (layout_ok s kc key Hg Hk) as [->|(g & Hr & Eg & _)]; [by exists 0|]. case_step; [by exists 0|].
  unfold get_entry_for_key_state. rewrite !Eg. cbn [mbind option_bind]. eauto.
Qed.

Lemma transformation_ok name s kc :
  no_nul name → group_ready s → ∃ b, should_do_transformation km name s kc = Some b.
Proof.
  intros Hn Hg. unfold should_do_transformation, xkb_state_mod_index_is_active, xkb_state_mod_index_is_consumed, xkb_state_mod_index_is_consumed2.
  destruct (mod_index_ok name Hn) as (idx & -> & H0). cbn [mbind option_bind].
  destruct (xkb_keymap_num_mods km <=? idx) eqn:Hi; [by exists false|]. rewrite (mod_bit_ok idx H0 Hi). cbn [mbind option_bind].
  case_step; [|eauto]. destruct (XkbKey km kc) as [key|] eqn:Hk; [|eauto].
  destruct (consumed_ok s kc key Hg Hk) as [c ->]. cbn. eauto.
Qed.

Lemma caps_ok s kc : group_ready s → ∃ b, should_do_caps_transformation km s kc = Some b.
Proof. apply transformation_ok. by repeat constructor. Qed.
Lemma ctrl_ok s kc : group_ready s → ∃ b, should_do_ctrl_transformation km s kc = Some b.
Proof. apply transformation_ok. by repeat constructor. Qed.

(** The symbols at a layout of the key. *)
Lemma syms_at_ok s kc key layout g :
  XkbKey km kc = Some key → 0 <= layout < k_num_groups key → group_at key layout = Some g → g ∈ k_groups key →
  ∃ level syms, xkb_state_key_get_level km s kc layout = Some level ∧ xkb_keymap_key_get_syms_by_level km kc layout level = Some syms ∧
    syms_ok syms.
Proof.
  intros Hk Hr Eg Hin. destruct (get_level_ok km G (tk_ok _ _ Hkm) s kc key g layout Hk Hr Eg Hin) as (level & l & El & Ell & Hl).
  destruct (key_found km G (tk_ok _ _ Hkm) kc key Hk) as (_ & Hkk & _). exists level.
  destruct (kok_groups _ _ (tk_ok _ _ Hkm) kc key Hkk) as (Hn & _). pose proof (kok_num_groups _ _ (tk_ok _ _ Hkm)).
  assert (key_wrap key (i32 layout) = layout) as Ew.
  { unfold key_wrap, XkbWrapGroupIntoRange. rewrite i32_small by lia. rewrite (proj2 (Z.eqb_neq _ _)), (proj2 (Z.leb_le _ _)),
      (proj2 (Z.ltb_lt _ _)) by lia. done. }
  unfold xkb_keymap_key_get_syms_by_level, XkbKeyNumLevels. rewrite Hk, Ew, Eg. cbn [mbind option_bind]. rewrite Ell.
  rewrite (proj2 (Z.eqb_neq layout XKB_LAYOUT_INVALID)) by (unfold XKB_LAYOUT_INVALID, XKB_INVALID; lia).
  case_step; eexists; (split; [done|]; split; [done|]); [split; [constructor|done]|]. by eapply (tk_syms _ _ Hkm).
Qed.

Lemma get_syms_ok s kc : group_ready s → ∃ syms, xkb_state_key_get_syms km s kc = Some syms ∧ syms_ok syms.
Proof.
  intros Hg. assert (syms_ok []) as Hnil by (split; [constructor|done]). unfold xkb_state_key_get_syms.
  destruct (XkbKey km kc) as [key|] eqn:Hk; [|unfold xkb_state_key_get_layout; rewrite Hk; by exists []].
  destruct (layout_ok s kc key Hg Hk) as [->|(g & Hr & Eg & Hin)]; [by exists []|]. case_step; [by exists []|].
  destruct (syms_at_ok s kc key _ g Hk Hr Eg Hin) as (level & syms & -> & E & Hs). cbn [mbind option_bind].
  case_step; [by exists []|]. by exists syms.
Qed.

Lemma capitalize_ok s kc sym : group_ready s → 0 <= sym < 2 ^ 32 → ∃ x, capitalize km s kc sym = Some x ∧ 0 <= x < 2 ^ 32.
Proof.
  intros Hg Hs. unfold capitalize. destruct (caps_ok s kc Hg) as [[] ->]; cbn [mbind option_bind]; [|by exists sym].
  destruct (convert_case sym Hs) as (l & u & E & _ & Hu & _). unfold xkb_keysym_to_upper. rewrite E. by exists u.
Qed.

Lemma ascii_loop_ok n i s kc key sym :
  XkbKey km kc = Some key → 0 <= i → i + Z.of_nat n <= k_num_groups key → 0 <= sym < 2 ^ 32 →
  ∃ x, ascii_loop km n i s kc sym = Some x ∧ 0 <= x < 2 ^ 32.
Proof.
  intros Hk. revert i. induction n as [|n IH]; intros i Hi Hn Hs; [by exists sym|]. cbn [ascii_loop].
  destruct (group_at_ok key i ltac:(lia)) as (g & Eg & Hin).
  destruct (syms_at_ok s kc key i g Hk ltac:(lia) Eg Hin) as (level & syms & -> & E & [Hr _]). cbn [mbind option_bind].
  case_step; [apply IH; lia|]. rewrite E. cbn [mbind option_bind].
  destruct syms as [|x [|]]; [apply IH; lia| |apply IH; lia]. case_step; [|apply IH; lia]. exists x. split; [done|].
  exact (Forall_inv Hr).
Qed.

Lemma one_sym_ok s kc : group_ready s → ∃ sym, get_one_sym_for_string km s kc = Some sym ∧ 0 <= sym < 2 ^ 32.
Proof.
  intros Hg. unfold get_one_sym_for_string, xkb_keymap_num_layouts_for_key.
  destruct (XkbKey km kc) as [key|] eqn:Hk.
  2: { unfold xkb_state_key_get_level, xkb_state_key_get_layout. rewrite Hk. by exists 0. }
  destruct (layout_ok s kc key Hg Hk) as [El|(g & Hr & Eg & Hin)].
  - rewrite El. unfold xkb_state_key_get_level. rewrite Hk. destruct (key_found km G (tk_ok _ _ Hkm) kc key Hk) as (_ & Hkk & _).
    destruct (kok_groups _ _ (tk_ok _ _ Hkm) kc key Hkk) as (Hn & _). pose proof (kok_num_groups _ _ (tk_ok _ _ Hkm)).
    rewrite (proj2 (Z.leb_le _ _)) by (unfold XKB_LAYOUT_INVALID, XKB_INVALID; lia). by exists 0.
  - destruct (syms_at_ok s kc key _ g Hk Hr Eg Hin) as (level & syms & -> & E & [Hs _]). cbn [mbind option_bind].
    case_step; [by exists 0|]. rewrite E. cbn [mbind option_bind]. destruct syms as [|sym [|]]; [by exists 0| |by exists 0].
    apply Forall_inv in Hs. destruct (ctrl_ok s kc Hg) as [ctrl ->]. cbn [mbind option_bind].
    destruct (ctrl && (127 <? sym)); cbn [mbind option_bind]; [|by apply capitalize_ok].
    destruct (ascii_loop_ok (Z.to_nat (k_num_groups key)) 0 s kc key sym Hk) as (x & -> & Hx); [lia..|done|].
    cbn [mbind option_bind]. by apply capitalize_ok.
Qed.
End total.

(** ** The text *)

(** The text of a sequence of symbols, if all of them have one. *)
Fixpoint syms_text (syms : list Z) : option (list Z) :=
  match syms with
  | [] => Some []
  | sym :: syms =>
      cp ← xkb_keysym_to_utf32 sym;
      if cp =? 0 then None else t ← syms_text syms; Some (encode cp ++ t)
  end.

Lemma copy_to_ok buffer offset bytes :
  0 <= offset → offset + Z.of_nat (length bytes) <= Z.of_nat (length buffer) →
  ∃ buffer', copy_to buffer offset bytes = Some buffer' ∧ length buffer' = length buffer ∧
    take (Z.to_nat offset + length bytes) buffer' = take (Z.to_nat offset) buffer ++ bytes ∧
    drop (Z.to_nat offset + length bytes) buffer' = drop (Z.to_nat offset + length bytes) buffer.
Proof.
  intros H0 Hl. unfold copy_to. rewrite (proj2 (Z.leb_le _ _)), (proj2 (Z.leb_le _ _)) by done. eexists. split; [done|].
  assert (length (take (Z.to_nat offset) buffer ++ bytes) = Z.to_nat offset + length bytes)%nat as E
    by (rewrite length_app, length_take; lia).
  split; [rewrite !length_app, length_take, length_drop; lia|].
  rewrite app_assoc. split; [by rewrite take_app_length'|by rewrite drop_app_length'].
Qed.

(** A symbol and its text in the array [tmp]. *)
Lemma sym_utf8 sym :
  0 <= sym →
  ∃ cp, xkb_keysym_to_utf32 sym = Some cp ∧ scalar cp ∧
    xkb_keysym_to_utf8 sym 7 = Some (if cp =? 0 then (0, []) else (Z.of_nat (length (encode cp)) + 1, encode cp ++ [0])).
Proof.
  intros Hs. destruct (to_utf32_scalar sym Hs) as (cp & E & Hcp). exists cp. split; [done|]. split; [done|].
  unfold xkb_keysym_to_utf8, NO_KEYSYM_UNICODE_CONVERSION. rewrite E. cbn [mbind option_bind].
  change (7 <? 7) with false. cbn iota. case_step; [done|]. rewrite utf32_to_utf8_spec by (destruct Hcp; lia). by rewrite decide_True.
Qed.

Lemma utf8_loop_spec syms offset buffer :
  Forall (λ x, 0 <= x < 2 ^ 32) syms → 0 <= offset → offset + 4 * Z.of_nat (length syms) < 2 ^ 31 →
  ∃ ok offset' buffer', utf8_loop syms offset buffer = Some (ok, offset', buffer') ∧ length buffer' = length buffer ∧
    match syms_text syms with
    | None => ok = false
    | Some t => ok = true ∧ offset' = offset + Z.of_nat (length t) ∧
        (offset' <= Z.of_nat (length buffer) → take (Z.to_nat offset') buffer' = take (Z.to_nat offset) buffer ++ t)
    end.
Proof.
  revert offset buffer. induction syms as [|sym syms IH]; intros offset buffer Hs H0 Hl.
  { exists true, offset, buffer. split; [done|]. split; [done|]. cbn. rewrite app_nil_r. auto with lia. }
  apply Forall_cons in Hs as [Hsym Hs]. cbn [utf8_loop syms_text length] in *.
  destruct (sym_utf8 sym ltac:(lia)) as (cp & -> & Hcp & ->). cbn [mbind option_bind].
  destruct (Z.eqb_spec cp 0) as [->|Hne]; [by eexists false, offset, buffer|]. cbn beta iota.
  pose proof (encode_length cp) as He. rewrite (proj2 (Z.leb_gt _ 0)) by lia. rewrite Z.add_simpl_r.
  rewrite (proj2 (Z.leb_gt (2 ^ 31) _)) by lia. rewrite Nat2Z.id, take_app_length.
  destruct (Z.leb_spec (offset + Z.of_nat (length (encode cp))) (Z.of_nat (length buffer))) as [Hfit|Hbig].
  - destruct (copy_to_ok buffer offset (encode cp) H0 Hfit) as (b & -> & Hlb & Ht & _). cbn [mbind option_bind].
    destruct (IH (offset + Z.of_nat (length (encode cp))) b Hs) as (ok & o & b' & -> & Hlb' & Hm); [lia..|].
    exists ok, o, b'. split; [done|]. split; [congruence|]. destruct (syms_text syms) as [t|]; [|done]. cbn [mbind option_bind].
    destruct Hm as (-> & -> & Hm). rewrite length_app. split; [done|]. split; [lia|]. intros Ho. rewrite Hm by lia.
    rewrite Z2Nat.inj_add, Nat2Z.id, Ht by lia. by rewrite app_assoc.
  - cbn [mbind option_bind].
    destruct (IH (offset + Z.of_nat (length (encode cp))) buffer Hs) as (ok & o & b' & -> & Hlb' & Hm); [lia..|].
    exists ok, o, b'. split; [done|]. split; [congruence|]. destruct (syms_text syms) as [t|]; [|done]. cbn [mbind option_bind].
    destruct Hm as (-> & -> & Hm). rewrite length_app. split; [done|]. split; lia.
Qed.

Lemma syms_text_encoded syms t : Forall (λ x, 0 <= x < 2 ^ 32) syms → syms_text syms = Some t → ∃ cps, Forall scalar cps ∧ t = concat (map encode cps).
Proof.
  revert t. induction syms as [|sym syms IH]; intros t Hs Ht; [injection Ht as <-; by exists []|].
  apply Forall_cons in Hs as [Hsym Hs]. cbn in Ht. destruct (sym_utf8 sym ltac:(lia)) as (cp & E & Hcp & _). rewrite E in Ht.
  cbn in Ht. case_step_in Ht; [done|]. destruct (syms_text syms) as [t'|]; [|done]. injection Ht as <-.
  destruct (IH t' Hs eq_refl) as (cps & Hcps & ->). exists (cp :: cps). split; [by constructor|done].
Qed.

Lemma encoded_valid cps : Forall scalar cps → is_valid_utf8 (concat (map encode cps)) = Some true.
Proof. intros H. apply valid_complete; [done|]. pose proof (concat_encode_length cps). lia. Qed.

(** ** The specification *)

Definition controlled (ctrl : bool) (t : list Z) : list Z :=
  match t with [c] => [if ctrl then XkbToControl c else c] | _ => t end.

(** The text of a key in a state, without a buffer: that of its one symbol or
    of all of them, none if one of them has none, and a control character for
    a single ASCII character under Control. *)
Definition key_text (km : xkb_keymap) (s : xkb_state) (kc : Z) : option (list Z) :=
  sym ← get_one_sym_for_string km s kc;
  syms ← if negb (sym =? XKB_KEY_NoSymbol) then Some [sym] else xkb_state_key_get_syms km s kc;
  ctrl ← should_do_ctrl_transformation km s kc;
  Some (controlled ctrl (default [] (syms_text syms))).

Lemma to_control_ascii c : 0 <= c <= 127 → 0 <= XkbToControl c <= 127.
Proof.
  intros Hc. unfold XkbToControl. assert (0 <= Z.land c 0x1f < 32) by (change 0x1f with (Z.ones 5); rewrite Z.land_ones by lia; apply Z.mod_pos_bound; lia).
  repeat case_step; zbool; lia.
Qed.

Lemma encode_ascii c : 0 <= c <= 127 → encode c = [c].
Proof. intros Hc. unfold encode. by rewrite (proj2 (Z.leb_le _ _)) by lia. Qed.

(** A text of one byte is ASCII. *)
Lemma encoded_one cps c : Forall scalar cps → concat (map encode cps) = [c] → 0 <= c <= 127.
Proof.
  intros Hs E. destruct cps as [|cp [|cp' cps]]; [done| |].
  - apply Forall_inv in Hs as [Hs _]. revert E. cbn. rewrite app_nil_r. unfold encode. repeat case_step; intros [= <-]; zbool; lia.
  - pose proof (encode_length cp). pose proof (encode_length cp'). apply (f_equal length) in E. cbn in E.
    rewrite !length_app in E. cbn in E. lia.
Qed.

Lemma text_syms_ok km G s kc sym :
  text_keymap km G → group_ready s → 0 <= sym < 2 ^ 32 →
  ∃ syms, (if negb (sym =? XKB_KEY_NoSymbol) then Some [sym] else xkb_state_key_get_syms km s kc) = Some syms ∧ syms_ok syms.
Proof.
  intros Hkm Hg Hs. case_step; [|by eapply get_syms_ok]. exists [sym]. split; [done|]. split; [by constructor|done].
Qed.

(** The end of the function: the error paths and the terminator. *)
Lemma store_null buffer i :
  0 <= i < Z.of_nat (length buffer) →
  ∃ b, copy_to buffer i [0] = Some b ∧ length b = length buffer ∧
    take (Z.to_nat i + 1) b = take (Z.to_nat i) buffer ++ [0].
Proof. intros Hi. destruct (copy_to_ok buffer i [0]) as (b & E & Hl & Ht & _); [lia|cbn; lia|]. by exists b. Qed.

Lemma last_null b i : take (i + 1) b = take i b ++ [0] → length b = (i + 1)%nat → last b = Some 0.
Proof. intros H Hl. rewrite take_ge in H by lia. rewrite H. apply last_snoc. Qed.

Lemma key_text_ok km G s kc :
  text_keymap km G → group_ready s → ∃ text, key_text km s kc = Some text ∧ is_valid_utf8 text = Some true.
Proof.
  intros Hkm Hg. unfold key_text. destruct (one_sym_ok km G Hkm s kc Hg) as (sym & -> & Hsym). cbn [mbind option_bind].
  destruct (text_syms_ok km G s kc sym Hkm Hg Hsym) as (syms & -> & [Hs _]). cbn [mbind option_bind].
  destruct (ctrl_ok km G Hkm s kc Hg) as [ctrl ->]. cbn [mbind option_bind]. eexists. split; [done|].
  destruct (syms_text syms) as [t|] eqn:Et; [|done]. destruct (syms_text_encoded syms t Hs Et) as (cps & Hcps & ->). cbn [default].
  pose proof (encoded_valid cps Hcps) as Hv. destruct (concat (map encode cps)) as [|c [|]] eqn:E; [done| |done].
  destruct ctrl; [|done]. pose proof (to_control_ascii c (encoded_one cps c Hcps E)) as Hc.
  cbn [id controlled]. replace [XkbToControl c] with (concat (map encode [XkbToControl c])) by (cbn; by rewrite encode_ascii).
  apply encoded_valid. constructor; [unfold scalar; lia|done].
Qed.

(** What the caller finds in a buffer of any size. *)
Definition holds_text (text : list Z) (size : nat) (r : Z * list Z) : Prop :=
  r.1 = Z.of_nat (length text) ∧ length r.2 = size ∧
  ((length text < size)%nat → take (length text + 1) r.2 = text ++ [0]) ∧
  ((0 < size <= length text)%nat → last r.2 = Some 0).

Lemma bad_text buffer : ∃ r,
  (if 0 <? Z.of_nat (length buffer) then b ← copy_to buffer 0 [0]; Some (0, b) else Some (0, buffer)) = Some r ∧
  holds_text [] (length buffer) r.
Proof.
  destruct (Z.ltb_spec 0 (Z.of_nat (length buffer))).
  - destruct (store_null buffer 0) as (b & -> & Hl & Ht); [lia|]. cbn [mbind option_bind]. eexists. split; [done|].
    split; [done|]. split; [done|]. split; [intros; exact Ht|cbn; lia].
  - eexists. split; [done|]. split; [done|]. split; [done|]. cbn. split; lia.
Qed.

(** A buffer with the text and its terminator. *)
Lemma with_text t b : take (length t + 1) b = t ++ [0] → take (length t) b = t.
Proof.
  intros H. transitivity (take (length t) (take (length t + 1) b)); [rewrite take_take; f_equal; lia|]. by rewrite H, take_app_length.
Qed.

(** The control transformation of a text of one character. *)
Lemma control_text t b (ctrl : bool) :
  take (length t + 1) b = t ++ [0] → (∀ c, t = [c] → c <= 127) →
  ∃ r, (c ← b !! 0%nat;
        if (Z.of_nat (length t) =? 1) && (c <=? 127) then
          if ctrl then b' ← copy_to b 0 [XkbToControl c]; Some (Z.of_nat (length t), b') else Some (Z.of_nat (length t), b)
        else Some (Z.of_nat (length t), b)) = Some r ∧
    holds_text (controlled ctrl t) (length b) r.
Proof.
  intros Ht Hc. assert ((length t < length b)%nat) as Hlen.
  { apply (f_equal length) in Ht. rewrite length_take, length_app in Ht. cbn in Ht. lia. }
  destruct t as [|c [|c2 t]].
  - destruct b as [|x b]; [cbn in Hlen; lia|]. injection Ht as ->. eexists. split; [done|]. split_and!; cbn; [done|done|done|lia].
  - destruct b as [|x [|y b]]; [cbn in Hlen; lia..|]. injection Ht as -> ->. specialize (Hc c eq_refl). cbn [lookup list_lookup mbind option_bind length].
    rewrite (proj2 (Z.leb_le _ _)) by done. change (Z.of_nat 1 =? 1) with true. cbn [andb].
    assert (copy_to (c :: 0 :: b) 0 [XkbToControl c] = Some (XkbToControl c :: 0 :: b)) as ->
      by (unfold copy_to; rewrite (proj2 (Z.leb_le (0 + _) _)) by (cbn [length]; lia); done).
    destruct ctrl; cbn [mbind option_bind]; eexists; (split; [reflexivity|]); split_and!; cbn; try done; lia.
  - destruct b as [|x b]; [cbn in Hlen; lia|]. cbn [lookup list_lookup mbind option_bind].
    rewrite (proj2 (Z.eqb_neq _ 1)) by (cbn; lia). cbn [andb]. eexists. split; [done|].
    split_and!; cbn [fst snd]; [done|done|intros _; exact Ht|cbn [controlled]; intros; exfalso; lia].
Qed.

Lemma get_utf8_ok km G s kc text buffer :
  text_keymap km G → group_ready s → key_text km s kc = Some text →
  ∃ r, xkb_state_key_get_utf8 km s kc buffer = Some r ∧ holds_text text (length buffer) r.
Proof.
  intros Hkm Hg. unfold key_text, xkb_state_key_get_utf8. cbn zeta. destruct (one_sym_ok km G Hkm s kc Hg) as (sym & -> & Hsym). cbn [mbind option_bind].
  destruct (text_syms_ok km G s kc sym Hkm Hg Hsym) as (syms & -> & [Hs Hn]). cbn [mbind option_bind].
  destruct (ctrl_ok km G Hkm s kc Hg) as [ctrl ->]. cbn [mbind option_bind].
  destruct (utf8_loop_spec syms 0 buffer Hs) as (ok & offset & b & -> & Hlen & Hm); [lia|lia|]. cbn [mbind option_bind]. rewrite <- Hlen.
  destruct (syms_text syms) as [t|] eqn:Et; cbn [default]; [|subst ok; intros [= <-]; apply bad_text].
  destruct Hm as (-> & -> & Hm). cbn [negb]. rewrite <- Hlen in Hm. rewrite Z.add_0_l in *. cbn [app take Z.to_nat] in Hm.
  destruct (syms_text_encoded syms t Hs Et) as (cps & Hcps & Ecps). cbn [id]. intros [= <-].
  assert (length (controlled ctrl t) = length t) as Ht' by (by destruct t as [|? [|]]).
  destruct (Z.leb_spec (Z.of_nat (length b)) (Z.of_nat (length t))) as [Hbig|Hfit].
  - destruct (Z.ltb_spec 0 (Z.of_nat (length b)));
      [|eexists; split; [done|]; split_and!; cbn [fst snd]; rewrite ?Ht'; [done|done|intros; exfalso; lia..]].
    destruct (store_null b (Z.of_nat (length b) - 1)) as (b' & -> & Hl & Ht); [lia|]. cbn [mbind option_bind].
    eexists. split; [done|]. split_and!; cbn [fst snd]; rewrite ?Ht'; [done|done|intros; exfalso; lia|]. intros _.
    replace (Z.to_nat (Z.of_nat (length b) - 1) + 1)%nat with (length b) in Ht by lia. rewrite take_ge in Ht by lia.
    rewrite Ht. apply last_snoc.
  - destruct (store_null b (Z.of_nat (length t))) as (b' & -> & Hl & Ht); [lia|]. cbn [mbind option_bind].
    rewrite Hm, Nat2Z.id in Ht by lia. rewrite Nat2Z.id, (with_text t b' Ht), Ecps, encoded_valid, <- Ecps by done.
    cbn [mbind option_bind negb]. rewrite <- Hl. apply control_text; [done|]. intros c ->. by eapply encoded_one.
Qed.

Lemma get_utf32_ok km G s kc :
  text_keymap km G → group_ready s →
  ∃ cp text, xkb_state_key_get_utf32 km s kc = Some cp ∧ key_text km s kc = Some text ∧ (cp ≠ 0 → text = encode cp).
Proof.
  intros Hkm Hg. unfold key_text, xkb_state_key_get_utf32. destruct (one_sym_ok km G Hkm s kc Hg) as (sym & -> & Hsym). cbn [mbind option_bind].
  destruct (text_syms_ok km G s kc sym Hkm Hg Hsym) as (syms & Es & [Hs _]). rewrite Es. cbn [mbind option_bind].
  destruct (ctrl_ok km G Hkm s kc Hg) as [ctrl ->]. cbn [mbind option_bind].
  destruct (to_utf32_scalar sym ltac:(lia)) as (cp & E & Hcp). rewrite E. cbn [mbind option_bind].
  destruct (Z.eqb_spec sym XKB_KEY_NoSymbol) as [->|Hne].
  { injection E as <-. eexists _, _. split; [done|]. split; [done|]. intros Hz. exfalso. apply Hz. by destruct ctrl. }
  injection Es as <-. cbn [syms_text]. rewrite E. cbn [mbind option_bind].
  destruct (Z.leb_spec cp 127) as [Ha|Ha].
  - eexists _, _. split; [done|]. split; [done|]. intros Hz.
    destruct (Z.eqb_spec cp 0) as [->|Hc]; [exfalso; apply Hz; by destruct ctrl|]. destruct Hcp as [? _].
    rewrite (encode_ascii cp) by lia. cbn. destruct ctrl; [|by rewrite encode_ascii by lia].
    pose proof (to_control_ascii cp ltac:(lia)). by rewrite encode_ascii.
  - eexists _, _. split; [done|]. split; [done|]. intros _. rewrite (proj2 (Z.eqb_neq _ _)) by lia. cbn. rewrite app_nil_r.
    unfold encode, controlled. rewrite (proj2 (Z.leb_gt _ 127)) by lia. by destruct (cp <=? 0x7ff), (cp <=? 0xffff).
Qed.

(** ** The theorems *)

(** C21: the text of a key is defined for every key and state; it is valid
    UTF-8, it does not depend on the buffer, the result is its length, a
    buffer with room for it holds it with its terminator, a smaller one is
    never overrun and still terminated; and it is the encoding of the code
    point that the UTF-32 variant returns, when that one is not 0. *)
Theorem key_text_delivered km G s kc :
  text_keymap km G → group_ready s →
  ∃ text cp, key_text km s kc = Some text ∧ is_valid_utf8 text = Some true ∧
    xkb_state_key_get_utf32 km s kc = Some cp ∧ (cp ≠ 0 → text = encode cp) ∧
    ∀ buffer, ∃ r, xkb_state_key_get_utf8 km s kc buffer = Some r ∧ holds_text text (length buffer) r.
Proof.
  intros Hkm Hg. destruct (get_utf32_ok km G s kc Hkm Hg) as (cp & text & Ecp & Et & He).
  destruct (key_text_ok km G s kc Hkm Hg) as (text' & Et' & Hv). simplify_eq. exists text, cp. split_and!; try done.
  intros buffer. by eapply get_utf8_ok.
Qed.

(** The keymap of the examples with named modifiers, and a state in which the
    second one, Lock, or the third one, Control, is active. *)
Definition named_atoms : option (list Z * atom_table) :=
  intern_all [(chars "Shift", true); (XKB_MOD_NAME_CAPS, true); (XKB_MOD_NAME_CTRL, true)] atom_table_new.
Definition with_atoms (keys : list xkb_key) : xkb_keymap :=
  mk_keymap (from_option snd atom_table_new named_atoms) 0 50 (50 + Z.of_nat (length keys) - 1)
    (list_to_map ((λ k, (k_keycode k, k)) <$> keys)) [] demo_mods 2 [] [lock_led].
Definition effective (mods : Z) : xkb_state :=
  st_set_components (c_set_mods mods (st_components xkb_state_new)) xkb_state_new.

Lemma with_atoms_ok : text_keymap (with_atoms us_keys) 1.
Proof.
  destruct (pk_ok _ _ us_plain) as [K1 K2 K3 K4 K5 K6 K7 K8]. split; [by split| |].
  - destruct (intern_all_refines [(chars "Shift", true); (XKB_MOD_NAME_CAPS, true); (XKB_MOD_NAME_CTRL, true)] atom_table_new []
      table_new_ok) as (t & E & Ht); [by repeat constructor|cbn; lia|].
    eexists. split; [|shelve]. cbn [with_atoms km_atoms]. unfold named_atoms. rewrite E. exact Ht. Unshelve. vm_compute. done.
  - intros kc k g l Hk Hg Hl. apply elem_of_list_to_map_2 in Hk. apply list_elem_of_fmap in Hk as (k' & [= -> ->] & Hk').
    assert (Forall (λ k, Forall (λ g, Forall (λ l, syms_ok (lv_syms l)) (g_levels g)) (k_groups k)) us_keys) as H.
    { unfold syms_ok. apply (bool_decide_unpack _). vm_compute. exact I. }
    rewrite Forall_forall in H. specialize (H _ Hk'). rewrite Forall_forall in H. specialize (H _ Hg). rewrite Forall_forall in H. by apply H.
Qed.

Lemma key_text_delivered_witness :
  ∃ text cp, key_text (with_atoms us_keys) (effective 4) 54 = Some text ∧ is_valid_utf8 text = Some true ∧
    xkb_state_key_get_utf32 (with_atoms us_keys) (effective 4) 54 = Some cp ∧ (cp ≠ 0 → text = encode cp) ∧
    ∀ buffer, ∃ r, xkb_state_key_get_utf8 (with_atoms us_keys) (effective 4) 54 buffer = Some r ∧ holds_text text (length buffer) r.
Proof. apply (key_text_delivered (with_atoms us_keys) 1); [exact with_atoms_ok|]. unfold group_ready. cbn. lia. Defined.

(** Under Control the letter gives a control character, under Lock a capital. *)
Lemma control_and_caps :
  xkb_state_key_get_utf32 (with_atoms us_keys) (effective 4) 54 = Some 1 ∧
  xkb_state_key_get_one_sym (with_atoms us_keys) (effective 2) 54 = Some 65 ∧
  xkb_state_key_get_utf8 (with_atoms us_keys) (effective 6) 54 [7; 7] = Some (1, [1; 0]).
Proof. vm_compute. done. Qed.

(** ** Truncation

    The text is not cut at a character: the copy takes a character that ends
    where the buffer does, and its last byte then gives way to the terminator;
    and a buffer too small for the first character keeps whatever it held. *)
Definition euro_keymap : xkb_keymap := with_atoms [letter_key 50 [0x20ac]].

Lemma truncates_in_sequence :
  ∃ b, xkb_state_key_get_utf8 euro_keymap xkb_state_new 50 [7; 7; 7] = Some (3, b) ∧ b = [0xe2; 0x82; 0] ∧
    is_valid_utf8 [0xe2; 0x82] = Some false.
Proof. eexists. split; [vm_compute; reflexivity|]. done. Qed.

Lemma truncation_keeps_garbage x :
  xkb_state_key_get_utf8 euro_keymap xkb_state_new 50 [x; 7] = Some (3, [x; 0]).
Proof. vm_compute. done. Qed.
