(* ===== verification/XkbCompose.v ===== *)
(** * Compose tables

    Models libxkbcommon/build/src/compose: the ternary search tree of
    table.h in its array of nodes, the insertion of a sequence
    ([add_production] of parser.c), the state that follows a sequence (state.c)
    and the iterator over the sequences (table.c).  Offsets are numbers, and
    an access outside an array is [None]; memory is assumed to be there, as the
    code does. Reference counts and messages are left out. *)
From S2P Require Import Prelude XkbKeysym XkbKeysymUtf.

Open Scope Z_scope.

Definition MAX_LHS_LEN : Z := 10.
Definition MAX_COMPOSE_NODES : Z := 2 ^ 23.
Definition XKB_COMPOSE_MAX_STRING_SIZE : Z := 256.

(** The union of a node: [n_utf8] are the 31 bits that only a leaf uses,
    [n_word] is [internal.eqkid] or [leaf.keysym]. *)
Record compose_node : Type := mk_node {
  n_keysym : Z; n_lokid : Z; n_hikid : Z; n_utf8 : Z; n_is_leaf : bool; n_word : Z
}.

Record xkb_compose_table : Type := mk_compose { ct_utf8 : list Z; ct_nodes : list compose_node }.

Definition dummy_node : compose_node := mk_node XKB_KEY_NoSymbol 0 0 0 true XKB_KEY_NoSymbol.
Definition xkb_compose_table_new : xkb_compose_table := mk_compose [0] [dummy_node].

Definition num_nodes (t : xkb_compose_table) : Z := Z.of_nat (length (ct_nodes t)).
Definition node_at (ns : list compose_node) (i : Z) : option compose_node :=
  if 0 <=? i then ns !! Z.to_nat i else None.
Definition node_put (ns : list compose_node) (i : Z) (n : compose_node) : list compose_node := <[Z.to_nat i := n]> ns.

(** The null-terminated string at an offset, [None] if none ends there. *)
Fixpoint c_string (l : list Z) : option (list Z) :=
  match l with
  | [] => None
  | c :: l => if c =? 0 then Some [] else (c ::.) <$> c_string l
  end.
Definition utf8_at (utf8 : list Z) (off : Z) : option (list Z) := c_string (drop (Z.to_nat off) utf8).

(** ** Inserting a sequence *)

(** [p_string] is the text before the terminator; the modifiers of a
    production are parsed but not used for matching. *)
Record production : Type := mk_production {
  p_lhs : list Z; p_keysym : Z; p_string : list Z; p_has_keysym : bool; p_has_string : bool; p_modmask : Z; p_mods : Z
}.

(** A pointer to a field of a node. *)
Inductive kid_field : Type := LOKID | HIKID | EQKID.
Definition set_kid (f : kid_field) (x : Z) (n : compose_node) : compose_node :=
  match f with
  | LOKID => mk_node (n_keysym n) x (n_hikid n) (n_utf8 n) (n_is_leaf n) (n_word n)
  | HIKID => mk_node (n_keysym n) (n_lokid n) x (n_utf8 n) (n_is_leaf n) (n_word n)
  | EQKID => mk_node (n_keysym n) (n_lokid n) (n_hikid n) (n_utf8 n) (n_is_leaf n) x
  end.
Definition set_inner (n : compose_node) : compose_node :=
  mk_node (n_keysym n) (n_lokid n) (n_hikid n) (n_utf8 n) false 0.

Definition store_kid (ns : list compose_node) (pptr : option (Z * kid_field)) (x : Z) : option (list compose_node) :=
  match pptr with
  | None => Some ns
  | Some (i, f) => n ← node_at ns i; Some (node_put ns i (set_kid f x n))
  end.

Definition new_node (keysym : Z) : compose_node := mk_node keysym 0 0 0 false 0.

Definition same_string (t : xkb_compose_table) (n : compose_node) (p : production) : option bool :=
  if (n_utf8 n =? 0) && negb (p_has_string p) then Some true
  else if negb (n_utf8 n =? 0) && p_has_string p then s ← utf8_at (ct_utf8 t) (n_utf8 n); Some (bool_decide (s = p_string p))
  else Some false.
Definition same_keysym (n : compose_node) (p : production) : bool :=
  ((n_word n =? XKB_KEY_NoSymbol) && negb (p_has_keysym p)) ||
  (negb (n_word n =? XKB_KEY_NoSymbol) && p_has_keysym p && (n_word n =? p_keysym p)).

(** The result of a sequence is stored in its last node. *)
Definition set_leaf (t : xkb_compose_table) (curr : Z) (n : compose_node) (p : production) : xkb_compose_table :=
  let utf8 := if p_has_string p then Z.of_nat (length (ct_utf8 t)) mod 2 ^ 31 else n_utf8 n in
  let keysym := if p_has_keysym p then p_keysym p else n_word n in
  mk_compose (if p_has_string p then ct_utf8 t ++ p_string p ++ [0] else ct_utf8 t)
    (node_put (ct_nodes t) curr (mk_node (n_keysym n) (n_lokid n) (n_hikid n) utf8 true keysym)).

Fixpoint add_loop (fuel : nat) (t : xkb_compose_table) (p : production) (lhs_pos : nat) (curr : Z)
    (pptr : option (Z * kid_field)) : option xkb_compose_table :=
  match fuel with
  | O => None
  | S fuel =>
      keysym ← p_lhs p !! lhs_pos;
      let last := (S lhs_pos =? length (p_lhs p))%nat in
      '(t, curr) ← (if curr =? 0 then
                      let curr := num_nodes t in
                      ns ← store_kid (ct_nodes t) pptr curr;
                      Some (mk_compose (ct_utf8 t) (ns ++ [new_node keysym]), curr)
                    else Some (t, curr));
      node ← node_at (ct_nodes t) curr;
      if keysym <? n_keysym node then add_loop fuel t p lhs_pos (n_lokid node) (Some (curr, LOKID))
      else if n_keysym node <? keysym then add_loop fuel t p lhs_pos (n_hikid node) (Some (curr, HIKID))
      else if negb last then
        let '(t, node) :=
          if n_is_leaf node
          then (mk_compose (ct_utf8 t) (node_put (ct_nodes t) curr (set_inner node)), set_inner node)
          else (t, node) in
        add_loop fuel t p (S lhs_pos) (n_word node) (Some (curr, EQKID))
      else if n_is_leaf node then
        same ← same_string t node p;
        if (same : bool) && same_keysym node p then Some t else Some (set_leaf t curr node p)
      else if negb (n_word node =? 0) then Some t
      else Some (set_leaf t curr node p)
  end.

(** The loop moves down the tree or along the sequence. *)
Definition add_production (t : xkb_compose_table) (p : production) : option xkb_compose_table :=
  if MAX_COMPOSE_NODES <=? num_nodes t + Z.of_nat (length (p_lhs p)) then Some t
  else add_loop (length (ct_nodes t) + 2 * length (p_lhs p)) t p 0 (if num_nodes t =? 1 then 0 else 1) None.

(** ** Following a sequence *)

Record xkb_compose_state : Type := mk_cstate { cs_prev_context : Z; cs_context : Z }.

Definition xkb_compose_state_new : xkb_compose_state := mk_cstate 0 0.
Definition xkb_compose_state_reset (s : xkb_compose_state) : xkb_compose_state := mk_cstate 0 0.

Inductive xkb_compose_feed_result : Type := XKB_COMPOSE_FEED_IGNORED | XKB_COMPOSE_FEED_ACCEPTED.
Inductive xkb_compose_status : Type :=
  XKB_COMPOSE_NOTHING | XKB_COMPOSE_COMPOSING | XKB_COMPOSE_COMPOSED | XKB_COMPOSE_CANCELLED.

Fixpoint feed_loop (fuel : nat) (ns : list compose_node) (keysym context : Z) : option Z :=
  if context =? 0 then Some 0
  else
    match fuel with
    | O => None
    | S fuel =>
        node ← node_at ns context;
        if keysym <? n_keysym node then feed_loop fuel ns keysym (n_lokid node)
        else if n_keysym node <? keysym then feed_loop fuel ns keysym (n_hikid node)
        else Some context
    end.

Definition xkb_compose_state_feed (t : xkb_compose_table) (s : xkb_compose_state) (keysym : Z)
    : option (xkb_compose_feed_result * xkb_compose_state) :=
  if xkb_keysym_is_modifier keysym then Some (XKB_COMPOSE_FEED_IGNORED, s)
  else
    node ← node_at (ct_nodes t) (cs_context s);
    let context := if n_is_leaf node then 1 else n_word node in
    let context := if (context =? 1) && (num_nodes t =? 1) then 0 else context in
    context ← feed_loop (length (ct_nodes t)) (ct_nodes t) keysym context;
    Some (XKB_COMPOSE_FEED_ACCEPTED, mk_cstate (cs_context s) context).

Definition xkb_compose_state_get_status (t : xkb_compose_table) (s : xkb_compose_state) : option xkb_compose_status :=
  prev_node ← node_at (ct_nodes t) (cs_prev_context s);
  node ← node_at (ct_nodes t) (cs_context s);
  Some (if (cs_context s =? 0) && negb (n_is_leaf prev_node) then XKB_COMPOSE_CANCELLED
        else if cs_context s =? 0 then XKB_COMPOSE_NOTHING
        else if negb (n_is_leaf node) then XKB_COMPOSE_COMPOSING
        else XKB_COMPOSE_COMPOSED).

(** The result and the bytes written to the buffer. *)
Definition xkb_compose_state_get_utf8 (t : xkb_compose_table) (s : xkb_compose_state) (size : Z) : option (Z * list Z) :=
  let fail := Some (0, if 0 <? size then [0] else []) in
  node ← node_at (ct_nodes t) (cs_context s);
  if negb (n_is_leaf node) then fail
  else if (n_utf8 node =? 0) && negb (n_word node =? XKB_KEY_NoSymbol) then
    '(ret, utf8) ← xkb_keysym_to_utf8 (n_word node) 7;
    if ret <=? 0 then fail else text ← c_string utf8; Some (snprintf size text)
  else
    text ← utf8_at (ct_utf8 t) (n_utf8 node);
    Some (snprintf size text).

Definition xkb_compose_state_get_one_sym (t : xkb_compose_table) (s : xkb_compose_state) : option Z :=
  node ← node_at (ct_nodes t) (cs_context s);
  Some (if negb (n_is_leaf node) then XKB_KEY_NoSymbol else n_word node).

(** ** Listing the sequences *)

Inductive node_direction : Type := NODE_LEFT | NODE_DOWN | NODE_RIGHT | NODE_UP.

(** [it_sequence] is the array of [MAX_LHS_LEN] keysyms, of which
    [it_length] are in use; the last cursor of the array is the first of the list. *)
Record xkb_compose_table_iterator : Type := mk_citer {
  it_sequence : list Z; it_length : Z; it_entry_keysym : Z; it_entry_utf8 : Z; it_cursors : list (Z * node_direction)
}.

Definition xkb_compose_table_iterator_new (t : xkb_compose_table) : xkb_compose_table_iterator :=
  mk_citer (replicate (Z.to_nat MAX_LHS_LEN) 0) 0 0 0 (if 1 <? num_nodes t then [(1, NODE_LEFT)] else []).

(** The entry is the iterator's own: its sequence, keysym and string. *)
Definition entry_sequence (it : xkb_compose_table_iterator) : list Z := take (Z.to_nat (it_length it)) (it_sequence it).

Definition push_if (x : Z) (cs : list (Z * node_direction)) : list (Z * node_direction) :=
  if x =? 0 then cs else (x, NODE_LEFT) :: cs.

(** One turn of the loop on the cursor [(off, dir)]; the flag is set when an
    entry is complete. *)
Definition iterator_turn (t : xkb_compose_table) (off : Z) (dir : node_direction) (cs : list (Z * node_direction))
    (it : xkb_compose_table_iterator) : option (bool * xkb_compose_table_iterator) :=
  node ← node_at (ct_nodes t) off;
  match dir with
  | NODE_LEFT =>
      Some (false, mk_citer (it_sequence it) (it_length it) (it_entry_keysym it) (it_entry_utf8 it)
                     (push_if (n_lokid node) ((off, NODE_DOWN) :: cs)))
  | NODE_DOWN =>
      if MAX_LHS_LEN <? it_length it then None  (* the assertion *)
      else if MAX_LHS_LEN <=? it_length it then None  (* out of the array *)
      else
        let seq := <[Z.to_nat (it_length it) := n_keysym node]> (it_sequence it) in
        if n_is_leaf node
        then Some (true, mk_citer seq (it_length it + 1) (n_word node) (n_utf8 node) ((off, NODE_RIGHT) :: cs))
        else Some (false, mk_citer seq (it_length it + 1) (it_entry_keysym it) (it_entry_utf8 it)
                            ((n_word node, NODE_LEFT) :: (off, NODE_RIGHT) :: cs))
  | NODE_RIGHT =>
      Some (false, mk_citer (it_sequence it) (it_length it - 1) (it_entry_keysym it) (it_entry_utf8 it)
                     (push_if (n_hikid node) ((off, NODE_UP) :: cs)))
  | NODE_UP => Some (false, mk_citer (it_sequence it) (it_length it) (it_entry_keysym it) (it_entry_utf8 it) cs)
  end.

Fixpoint iterator_loop (fuel : nat) (t : xkb_compose_table) (it : xkb_compose_table_iterator)
    : option (bool * xkb_compose_table_iterator) :=
  match it_cursors it with
  | [] => Some (false, it)
  | (off, dir) :: cs =>
      match fuel with
      | O => None
      | S fuel =>
          '(done, it) ← iterator_turn t off dir cs it;
          if (done : bool) then Some (true, it) else iterator_loop fuel t it
      end
  end.

(** [false] stands for [NULL]; a node is met four times. *)
Definition xkb_compose_table_iterator_next (t : xkb_compose_table) (it : xkb_compose_table_iterator)
    : option (bool * xkb_compose_table_iterator) :=
  iterator_loop (4 * length (ct_nodes t)) t it.
