(* ===== verification/XkbComposeTree.v ===== *)
(** * The ternary search tree of a compose table

    The tree that the nodes of a compose table represent, insertion into it,
    and the proof that [add_production] of libxkbcommon/build/src/compose/parser.c
    implements that insertion on the array of nodes. *)
From S2P Require Import Prelude XkbKeysym XkbCompose.

Open Scope Z_scope.

(** ** Trees *)

(** A node with its offset, its keysym and its kids; a leaf has the offset of
    its text and its keysym. *)
Inductive tst : Type :=
  | TNil
  | TLeaf (p ks : Z) (lo hi : tst) (u sym : Z)
  | TInner (p ks : Z) (lo eq hi : tst).

#[global] Instance tst_eq_dec : EqDecision tst.
Proof. solve_decision. Defined.

Fixpoint offsets (t : tst) : list Z :=
  match t with
  | TNil => []
  | TLeaf p _ lo hi _ _ => p :: offsets lo ++ offsets hi
  | TInner p _ lo eq hi => p :: offsets lo ++ offsets eq ++ offsets hi
  end.

(** The keysyms that the first level of a tree offers, in order. *)
Fixpoint level_keys (t : tst) : list Z :=
  match t with
  | TNil => []
  | TLeaf _ ks lo hi _ _ | TInner _ ks lo _ hi => level_keys lo ++ ks :: level_keys hi
  end.

(** The order of the keysyms, no inner node without a sequence, and texts in
    the array of texts. *)
Fixpoint tree_ok (U : list Z) (t : tst) : Prop :=
  match t with
  | TNil => True
  | TLeaf _ ks lo hi u _ =>
      Forall (λ k, k < ks) (level_keys lo) ∧ Forall (λ k, ks < k) (level_keys hi) ∧ tree_ok U lo ∧ tree_ok U hi ∧
      0 <= u < Z.of_nat (length U) ∧ is_Some (utf8_at U u)
  | TInner _ ks lo eq hi =>
      Forall (λ k, k < ks) (level_keys lo) ∧ Forall (λ k, ks < k) (level_keys hi) ∧ tree_ok U lo ∧ tree_ok U eq ∧ tree_ok U hi ∧ eq ≠ TNil
  end.

(** The tree at offset [q] of the nodes. *)
Fixpoint rep (ns : list compose_node) (q : Z) (t : tst) : Prop :=
  match t with
  | TNil => q = 0
  | TLeaf p ks lo hi u sym =>
      q = p ∧ 0 < p ∧ ∃ n, node_at ns p = Some n ∧ n_keysym n = ks ∧ n_is_leaf n = true ∧ n_utf8 n = u ∧ n_word n = sym ∧
        rep ns (n_lokid n) lo ∧ rep ns (n_hikid n) hi
  | TInner p ks lo eq hi =>
      q = p ∧ 0 < p ∧ ∃ n, node_at ns p = Some n ∧ n_keysym n = ks ∧ n_is_leaf n = false ∧
        rep ns (n_lokid n) lo ∧ rep ns (n_word n) eq ∧ rep ns (n_hikid n) hi
  end.

(** ** Insertion *)

Definition leaf_data (U : list Z) (p : production) (u sym : Z) : list Z * Z * Z :=
  (if p_has_string p then U ++ p_string p ++ [0] else U,
   if p_has_string p then Z.of_nat (length U) mod 2 ^ 31 else u,
   if p_has_keysym p then p_keysym p else sym).

(** The new nodes of a sequence, from offset [n] on. *)
Fixpoint chain (n : Z) (seq : list Z) (u sym : Z) : tst :=
  match seq with
  | [] => TNil
  | [k] => TLeaf n k TNil TNil u sym
  | k :: seq => TInner n k TNil (chain (n + 1) seq u sym) TNil
  end.
Definition new_chain (U : list Z) (n : Z) (p : production) (seq : list Z) : list Z * tst :=
  let '(U', u, sym) := leaf_data U p 0 0 in (U', chain n seq u sym).

Definition text_of (U : list Z) (u : Z) : list Z := default [] (utf8_at U u).
Definition duplicate (U : list Z) (p : production) (u sym : Z) : bool :=
  (if u =? 0 then negb (p_has_string p) else p_has_string p && bool_decide (text_of U u = p_string p)) &&
  (if sym =? 0 then negb (p_has_keysym p) else p_has_keysym p && (sym =? p_keysym p)).

Fixpoint put (U : list Z) (n : Z) (p : production) (seq : list Z) (t : tst) : list Z * tst :=
  match t, seq with
  | TNil, _ => new_chain U n p seq
  | _, [] => (U, t)
  | TLeaf q ks lo hi u sym, k :: rest =>
      if k <? ks then let '(U, lo) := put U n p seq lo in (U, TLeaf q ks lo hi u sym)
      else if ks <? k then let '(U, hi) := put U n p seq hi in (U, TLeaf q ks lo hi u sym)
      else
        match rest with
        | [] => if duplicate U p u sym then (U, t) else let '(U, u, sym) := leaf_data U p u sym in (U, TLeaf q ks lo hi u sym)
        | _ => let '(U, eq) := new_chain U n p rest in (U, TInner q ks lo eq hi)
        end
  | TInner q ks lo eq hi, k :: rest =>
      if k <? ks then let '(U, lo) := put U n p seq lo in (U, TInner q ks lo eq hi)
      else if ks <? k then let '(U, hi) := put U n p seq hi in (U, TInner q ks lo eq hi)
      else
        match rest with
        | [] => (U, t)
        | _ => let '(U, eq) := put U n p rest eq in (U, TInner q ks lo eq hi)
        end
  end.

(** ** The array *)

Definition in_range (ns : list compose_node) (t : tst) : Prop := Forall (λ o, 0 < o < Z.of_nat (length ns)) (offsets t).

Lemma node_at_app ns ns' i : 0 <= i < Z.of_nat (length ns) → node_at (ns ++ ns') i = node_at ns i.
Proof. intros Hi. unfold node_at. case_step; [|done]. apply lookup_app_l. lia. Qed.

Lemma node_at_put ns i j n : 0 <= i < Z.of_nat (length ns) → node_at (node_put ns i n) j = if decide (j = i) then Some n else node_at ns j.
Proof.
  intros Hi. unfold node_at, node_put. destruct (decide (j = i)) as [->|Hne].
  - rewrite (proj2 (Z.leb_le _ _)) by lia. apply list_lookup_insert_eq. lia.
  - case_step; [|done]. zbool. apply list_lookup_insert_ne. lia.
Qed.

Lemma node_at_put_eq ns i n : 0 <= i < Z.of_nat (length ns) → node_at (node_put ns i n) i = Some n.
Proof. intros Hi. rewrite node_at_put by done. by rewrite decide_True. Qed.
Lemma node_at_put_ne ns i j n : 0 <= i < Z.of_nat (length ns) → j ≠ i → node_at (node_put ns i n) j = node_at ns j.
Proof. intros Hi Hne. rewrite node_at_put by done. by rewrite decide_False. Qed.

Lemma node_at_last ns n : node_at (ns ++ [n]) (Z.of_nat (length ns)) = Some n.
Proof. unfold node_at. rewrite (proj2 (Z.leb_le _ _)) by lia. rewrite Nat2Z.id. rewrite lookup_app_r by lia. by rewrite Nat.sub_diag. Qed.

Lemma node_at_lt ns i n : node_at ns i = Some n → 0 <= i < Z.of_nat (length ns).
Proof. unfold node_at. case_step; [|done]. zbool. intros H. apply lookup_lt_Some in H. lia. Qed.

Lemma length_put ns i n : length (node_put ns i n) = length ns.
Proof. apply length_insert. Qed.

(** A tree only depends on its nodes. *)
Lemma rep_frame ns ns' q t : rep ns q t → (∀ o, o ∈ offsets t → node_at ns' o = node_at ns o) → rep ns' q t.
Proof.
  revert q. induction t as [|p ks lo IHlo hi IHhi u sym|p ks lo IHlo eq IHeq hi IHhi]; intros q H Hf; [done| |].
  - destruct H as (-> & Hp & n & Hn & ? & ? & ? & ? & Hlo & Hhi). split; [done|]. split; [done|]. exists n. cbn [offsets] in Hf.
    rewrite Hf by set_solver. split_and!; try done; [apply IHlo|apply IHhi]; try done; intros; apply Hf; set_solver.
  - destruct H as (-> & Hp & n & Hn & ? & ? & Hlo & Heq & Hhi). split; [done|]. split; [done|]. exists n. cbn [offsets] in Hf.
    rewrite Hf by set_solver. split_and!; try done; [apply IHlo|apply IHeq|apply IHhi]; try done; intros; apply Hf; set_solver.
Qed.

Lemma rep_nil ns q t : rep ns q t → in_range ns t → (q = 0 ↔ t = TNil).
Proof. destruct t; cbn; [done| |]; intros (-> & ? & _) _; split; intros; [lia|done|lia|done]. Qed.

(** The rest of the sequence from a position on. *)
Lemma rest_lookup {A} (l : list A) pos k rest :
  drop pos l = k :: rest → l !! pos = Some k ∧ drop (S pos) l = rest ∧ ((S pos =? length l)%nat = bool_decide (rest = [])).
Proof.
  intros H. assert (l !! pos = Some k) as Hk by (rewrite <- (Nat.add_0_r pos), <- lookup_drop, H; done).
  assert (drop (S pos) l = rest) as Hd by (rewrite <- Nat.add_1_r, <- drop_drop, H; done). split; [done|]. split; [done|].
  apply (f_equal length) in Hd. rewrite length_drop in Hd. apply lookup_lt_Some in Hk.
  destruct (Nat.eqb_spec (S pos) (length l)) as [He|He]; symmetry; rewrite ?bool_decide_eq_true, ?bool_decide_eq_false.
  - apply length_zero_iff_nil. lia.
  - intros ->. cbn in Hd. lia.
Qed.

(** An insertion that changed [ns] into [ns'] below the tree [t]. *)
Definition frame (ns ns' : list compose_node) (t : tst) : Prop :=
  (length ns <= length ns')%nat ∧ ∀ q, 0 <= q < Z.of_nat (length ns) → q ∉ offsets t → node_at ns' q = node_at ns q.

Definition p_ok (p : production) : Prop := p_has_keysym p = true ∨ p_has_string p = true.

Lemma add_chain fuel U ns p pos pptr ns1 seq :
  drop pos (p_lhs p) = seq → seq ≠ [] → (length seq <= fuel)%nat → ns ≠ [] →
  store_kid ns pptr (Z.of_nat (length ns)) = Some ns1 → length ns1 = length ns →
  ∃ ns', add_loop fuel (mk_compose U ns) p pos 0 pptr = Some (mk_compose (new_chain U (Z.of_nat (length ns)) p seq).1 ns') ∧
    length ns' = (length ns + length seq)%nat ∧
    (∀ q, 0 <= q < Z.of_nat (length ns) → node_at ns' q = node_at ns1 q) ∧
    rep ns' (Z.of_nat (length ns)) (new_chain U (Z.of_nat (length ns)) p seq).2.
Proof.
  intros Hseq Hne Hf Hns Hst Hl1. revert fuel ns ns1 pos pptr Hseq Hf Hns Hst Hl1.
  induction seq as [|k rest IH]; intros fuel ns ns1 pos pptr Hseq Hf Hns Hst Hl1; [done|]. clear Hne.
  destruct fuel as [|fuel]; [cbn in Hf; lia|]. destruct (rest_lookup _ _ _ _ Hseq) as (Hk & Hd & Hlast).
  cbn [add_loop]. rewrite Hk. cbn [mbind option_bind Z.eqb ct_nodes ct_utf8 num_nodes]. unfold num_nodes. cbn [ct_nodes]. rewrite Hst, Hlast.
  cbn [mbind option_bind ct_nodes ct_utf8]. rewrite <- Hl1, node_at_last. cbn [mbind option_bind new_node n_keysym n_is_leaf n_word].
  rewrite Z.ltb_irrefl. set (m := Z.of_nat (length ns1)) in *.
  assert (0 <= m < Z.of_nat (length (ns1 ++ [new_node k]))) as Hm by (rewrite length_app; cbn; lia).
  assert (length ns1 ≠ 0%nat) as Hpos by (destruct ns; [done|]; cbn in Hl1; lia).
  destruct rest as [|k2 rest].
  - rewrite bool_decide_eq_true_2 by done. cbn [negb]. change (negb (0 =? 0)) with false. cbn iota. unfold new_chain, leaf_data, set_leaf.
    cbn [ct_utf8 ct_nodes n_utf8 n_word n_keysym n_lokid n_hikid chain fst snd]. eexists. split; [done|].
    rewrite length_put, length_app. split; [cbn; lia|]. split.
    + intros q Hq. rewrite node_at_put_ne by (done || lia). by apply node_at_app.
    + cbn. split; [done|]. split; [lia|]. eexists. rewrite node_at_put_eq by done. split; [done|]. by split_and!.
  - rewrite bool_decide_eq_false_2 by done. cbn [negb].
    set (ns2 := ns1 ++ [new_node k]) in *.
    assert (Z.of_nat (length ns2) = m + 1) as Hl2 by (unfold ns2; rewrite length_app; cbn; lia).
    destruct (IH ltac:(done) fuel ns2 (node_put ns2 m (set_kid EQKID (Z.of_nat (length ns2)) (new_node k))) (S pos) (Some (m, EQKID)))
      as (ns' & E & Hlen & Hfr & Hrep).
    { done. } { cbn in *. lia. } { unfold ns2. by destruct ns1. }
    { cbn [store_kid]. by rewrite (node_at_last ns1 (new_node k) : node_at ns2 m = _). } { apply length_put. }
    rewrite Hl2 in *. unfold new_chain in *. destruct (leaf_data U p 0 0) as [[U' u] sym]. exists ns'. rewrite E.
    split; [done|]. split; [unfold ns2 in Hlen; rewrite length_app in Hlen; cbn in *; lia|]. split.
    + intros q Hq. rewrite Hfr by lia. rewrite node_at_put_ne by lia. by apply node_at_app.
    + cbn [snd]. change (chain m (k :: k2 :: rest) u sym) with (TInner m k TNil (chain (m + 1) (k2 :: rest) u sym) TNil).
      cbn [rep]. split; [done|]. split; [lia|]. eexists. rewrite Hfr by lia. rewrite node_at_put_eq by lia. split; [done|]. by split_and!.
Qed.

Definition kid (f : kid_field) (n : compose_node) : Z :=
  match f with LOKID => n_lokid n | HIKID => n_hikid n | EQKID => n_word n end.
Lemma set_kid_same f n : set_kid f (kid f n) n = n.
Proof. by destruct n, f. Qed.

(** What the loop does on a tree, from its root. *)
Definition adds (fuel : nat) (U : list Z) (ns : list compose_node) (p : production) (pos : nat) (seq : list Z) (t : tst) : Prop :=
  ∀ curr pptr, rep ns curr t →
  ∃ ns', add_loop fuel (mk_compose U ns) p pos curr pptr = Some (mk_compose (put U (Z.of_nat (length ns)) p seq t).1 ns') ∧
    rep ns' curr (put U (Z.of_nat (length ns)) p seq t).2 ∧ (length ns' <= length ns + length seq)%nat ∧ frame ns ns' t.

(** The same from the kid of a node, which may be missing. *)
Lemma add_kid fuel U ns p pos seq t q f n :
  drop pos (p_lhs p) = seq → seq ≠ [] → (length seq <= fuel)%nat →
  node_at ns q = Some n → q ∉ offsets t → rep ns (kid f n) t → (t ≠ TNil → adds fuel U ns p pos seq t) →
  ∃ ns' x, add_loop fuel (mk_compose U ns) p pos (kid f n) (Some (q, f)) =
      Some (mk_compose (put U (Z.of_nat (length ns)) p seq t).1 ns') ∧
    node_at ns' q = Some (set_kid f x n) ∧ rep ns' x (put U (Z.of_nat (length ns)) p seq t).2 ∧
    (length ns <= length ns' <= length ns + length seq)%nat ∧
    ∀ o, 0 <= o < Z.of_nat (length ns) → o ≠ q → o ∉ offsets t → node_at ns' o = node_at ns o.
Proof.
  intros Hseq Hne Hf Hn Hq Hrep IH. pose proof (node_at_lt _ _ _ Hn) as Hlt. destruct (decide (t = TNil)) as [->|Ht].
  - cbn in Hrep. rewrite Hrep.
    destruct (add_chain fuel U ns p pos (Some (q, f)) (node_put ns q (set_kid f (Z.of_nat (length ns)) n)) seq) as (ns' & E & Hlen & Hfr & Hr);
      try done.
    { intros ->. cbn in Hlt. lia. } { cbn. by rewrite Hn. } { apply length_put. }
    exists ns', (Z.of_nat (length ns)). split; [exact E|]. rewrite Hfr by done. rewrite node_at_put_eq by done.
    split; [done|]. split; [exact Hr|]. split; [lia|]. intros o Ho Hoq _. rewrite Hfr by done. by apply node_at_put_ne.
  - destruct (IH Ht (kid f n) (Some (q, f)) Hrep) as (ns' & E & Hr & Hle & Hlen & Hfr). exists ns', (kid f n). split; [done|].
    rewrite Hfr, set_kid_same by done. split; [done|]. split; [done|]. split; [lia|]. intros o Ho _ Hot. by apply Hfr.
Qed.

Lemma same_string_spec U ns n p u :
  n_utf8 n = u → (u ≠ 0 → is_Some (utf8_at U u)) →
  same_string (mk_compose U ns) n p = Some (if u =? 0 then negb (p_has_string p) else p_has_string p && bool_decide (text_of U u = p_string p)).
Proof.
  intros Hu Ht. unfold same_string, text_of. cbn [ct_utf8]. rewrite Hu. destruct (Z.eqb_spec u 0) as [->|Hne].
  - by destruct (p_has_string p).
  - destruct (Ht Hne) as [x ->]. by destruct (p_has_string p).
Qed.

Lemma same_keysym_spec n p sym :
  n_word n = sym → same_keysym n p = (if sym =? 0 then negb (p_has_keysym p) else p_has_keysym p && (sym =? p_keysym p)).
Proof. intros <-. unfold same_keysym, XKB_KEY_NoSymbol. destruct (n_word n =? 0), (p_has_keysym p); cbn; by rewrite ?orb_false_r. Qed.

(** One turn of the loop at a node. *)
Lemma add_step fuel U ns p pos q pptr n k rest :
  drop pos (p_lhs p) = k :: rest → 0 < q → node_at ns q = Some n →
  add_loop (S fuel) (mk_compose U ns) p pos q pptr =
    if k <? n_keysym n then add_loop fuel (mk_compose U ns) p pos (kid LOKID n) (Some (q, LOKID))
    else if n_keysym n <? k then add_loop fuel (mk_compose U ns) p pos (kid HIKID n) (Some (q, HIKID))
    else if negb (bool_decide (rest = [])) then
      if n_is_leaf n then add_loop fuel (mk_compose U (node_put ns q (set_inner n))) p (S pos) 0 (Some (q, EQKID))
      else add_loop fuel (mk_compose U ns) p (S pos) (kid EQKID n) (Some (q, EQKID))
    else if n_is_leaf n then
      same ← same_string (mk_compose U ns) n p;
      if (same : bool) && same_keysym n p then Some (mk_compose U ns) else Some (set_leaf (mk_compose U ns) q n p)
    else if negb (n_word n =? 0) then Some (mk_compose U ns) else Some (set_leaf (mk_compose U ns) q n p).
Proof.
  intros Hseq Hq Hn. destruct (rest_lookup _ _ _ _ Hseq) as (Hk & Hd & Hlast). cbn [add_loop]. rewrite Hk, Hlast.
  cbn [mbind option_bind]. rewrite (proj2 (Z.eqb_neq q 0)) by lia. cbn [mbind option_bind ct_nodes]. rewrite Hn. cbn [mbind option_bind kid].
  by destruct (n_is_leaf n).
Qed.

(** The nodes of the kids of a node are apart from each other. *)
Lemma nodup_two q (l1 l2 : list Z) :
  NoDup (q :: l1 ++ l2) → q ∉ l1 ∧ q ∉ l2 ∧ NoDup l1 ∧ NoDup l2 ∧ (∀ o, o ∈ l1 → o ∉ l2).
Proof. rewrite NoDup_cons, NoDup_app, not_elem_of_app. tauto. Qed.

Lemma frame_kid ns ns' q t s (o : Z) :
  (∀ o, 0 <= o < Z.of_nat (length ns) → o ≠ q → o ∉ offsets t → node_at ns' o = node_at ns o) →
  in_range ns s → q ∉ offsets s → (∀ o, o ∈ offsets s → o ∉ offsets t) → o ∈ offsets s → node_at ns' o = node_at ns o.
Proof.
  intros Hf Hr Hq Hd Ho. unfold in_range in Hr. rewrite Forall_forall in Hr. specialize (Hr o Ho). apply Hf; [lia|by intros ->|by apply Hd].
Qed.

(** The loop on a tree. *)
Lemma add_tree_leaf fuel U ns p pos k rest q ks lo hi u sym :
  drop pos (p_lhs p) = k :: rest → in_range ns (TLeaf q ks lo hi u sym) → NoDup (offsets (TLeaf q ks lo hi u sym)) →
  tree_ok U (TLeaf q ks lo hi u sym) → (length (k :: rest) <= fuel)%nat →
  (lo ≠ TNil → adds fuel U ns p pos (k :: rest) lo) → (hi ≠ TNil → adds fuel U ns p pos (k :: rest) hi) →
  adds (S fuel) U ns p pos (k :: rest) (TLeaf q ks lo hi u sym).
Proof.
  intros Hseq Hr Hnd Hok Hf IHlo IHhi curr pptr (-> & Hq & n & Hn & <- & Hleaf & Hu & Hw & Hlo & Hhi).
  destruct (nodup_two _ _ _ Hnd) as (Nlo & Nhi & _ & _ & Hdis). apply Forall_cons in Hr as [Hqr Hr]. apply Forall_app in Hr as [Rlo Rhi].
  rewrite (add_step _ _ _ _ _ _ _ _ _ _ Hseq Hq Hn). rewrite Hleaf. cbn [put].
  destruct (k <? n_keysym n); [|destruct (n_keysym n <? k); [|destruct rest as [|k2 rest]]].
  - destruct (add_kid fuel U ns p pos (k :: rest) lo q LOKID n) as (ns' & x & -> & Hn' & Hr' & Hlen & Hfr); try done.
    destruct (put _ _ _ _ lo) as [U' lo']. exists ns'. split; [done|]. split.
    + split; [done|]. split; [done|]. eexists. split; [done|]. split_and!; try done.
      apply (rep_frame ns); [done|]. intros o Ho. apply (frame_kid ns ns' q lo hi); try done. intros o' ? ?. by apply (Hdis o').
    + split; [cbn in *; lia|]. split; [lia|]. intros o Ho Hni. cbn [offsets] in Hni. apply Hfr; [done|set_solver|set_solver].
  - destruct (add_kid fuel U ns p pos (k :: rest) hi q HIKID n) as (ns' & x & -> & Hn' & Hr' & Hlen & Hfr); try done.
    destruct (put _ _ _ _ hi) as [U' hi']. exists ns'. split; [done|]. split.
    + split; [done|]. split; [done|]. eexists. split; [done|]. split_and!; try done.
      apply (rep_frame ns); [done|]. intros o Ho. by apply (frame_kid ns ns' q hi lo).
    + split; [cbn in *; lia|]. split; [lia|]. intros o Ho Hni. cbn [offsets] in Hni. apply Hfr; [done|set_solver|set_solver].
  - rewrite bool_decide_eq_true_2 by done. cbn [negb].
    destruct Hok as (_ & _ & _ & _ & Hub & Hus).
    rewrite (same_string_spec U ns n p u Hu) by done. rewrite (same_keysym_spec n p sym Hw). cbn [mbind option_bind].
    change ((if u =? 0 then negb (p_has_string p) else p_has_string p && bool_decide (text_of U u = p_string p)) && _) with (duplicate U p u sym).
    destruct (duplicate U p u sym).
    + exists ns. split; [done|]. split; [|split; [lia|done]]. split; [done|]. split; [done|]. exists n. by split_and!.
    + unfold set_leaf, leaf_data. cbn [ct_utf8 ct_nodes]. eexists. split; [done|]. cbn [snd]. split.
      * split; [done|]. split; [done|]. rewrite node_at_put_eq by lia. eexists. split; [done|]. cbn. rewrite Hu, Hw.
        split_and!; try done; (apply (rep_frame ns); [done|]; intros o Ho; apply node_at_put_ne; [lia|by intros ->]).
      * rewrite length_put. split; [lia|]. split; [by rewrite length_put|]. intros o Ho Hni. apply node_at_put_ne; [lia|]. cbn in Hni. set_solver.
  - rewrite bool_decide_eq_false_2 by done. cbn [negb]. destruct (rest_lookup _ _ _ _ Hseq) as (_ & Hd & _).
    destruct (add_chain fuel U (node_put ns q (set_inner n)) p (S pos) (Some (q, EQKID))
      (node_put (node_put ns q (set_inner n)) q (set_kid EQKID (Z.of_nat (length ns)) (set_inner n))) (k2 :: rest)) as (ns' & E & Hlen & Hfr & Hr');
      try done.
    { cbn in *. lia. } { intros E. apply (f_equal length) in E. rewrite length_put in E. cbn in E. lia. }
    { cbn [store_kid]. rewrite node_at_put_eq by lia. rewrite length_put. done. } { by rewrite !length_put. }
    rewrite length_put in *. destruct (new_chain U (Z.of_nat (length ns)) p (k2 :: rest)) as [U' t']. exists ns'. split; [done|].
    assert (∀ o, 0 <= o < Z.of_nat (length ns) → o ≠ q → node_at ns' o = node_at ns o) as Hfr'.
    { intros o Ho Hoq. rewrite Hfr by done. rewrite !node_at_put_ne by (rewrite ?length_put; done || lia). done. }
    split.
    + split; [done|]. split; [done|]. rewrite Hfr by lia. rewrite node_at_put_eq by (rewrite length_put; lia). eexists. split; [done|].
      assert (∀ s o, in_range ns s → q ∉ offsets s → o ∈ offsets s → node_at ns' o = node_at ns o) as Hs
        by (intros s o Hs Hns; apply (frame_kid ns ns' q TNil s o); auto; set_solver).
      split_and!; try done; (apply (rep_frame ns); [done|]; intros o Ho); [by apply (Hs lo)|by apply (Hs hi)].
    + split; [cbn in *; lia|]. split; [lia|]. intros o Ho Hni. cbn in Hni. apply Hfr'; [done|set_solver].
Qed.

Lemma nodup_three q (l1 l2 l3 : list Z) :
  NoDup (q :: l1 ++ l2 ++ l3) → q ∉ l1 ∧ q ∉ l2 ∧ q ∉ l3 ∧ NoDup l1 ∧ NoDup l2 ∧ NoDup l3 ∧
    (∀ o, o ∈ l1 → o ∉ l2) ∧ (∀ o, o ∈ l1 → o ∉ l3) ∧ (∀ o, o ∈ l2 → o ∉ l3).
Proof. rewrite NoDup_cons, !NoDup_app, !not_elem_of_app. set_solver. Qed.

Lemma add_tree_inner fuel U ns p pos k rest q ks lo eq hi :
  drop pos (p_lhs p) = k :: rest → in_range ns (TInner q ks lo eq hi) → NoDup (offsets (TInner q ks lo eq hi)) →
  tree_ok U (TInner q ks lo eq hi) → (length (k :: rest) <= fuel)%nat →
  (lo ≠ TNil → adds fuel U ns p pos (k :: rest) lo) → (hi ≠ TNil → adds fuel U ns p pos (k :: rest) hi) →
  (rest ≠ [] → adds fuel U ns p (S pos) rest eq) →
  adds (S fuel) U ns p pos (k :: rest) (TInner q ks lo eq hi).
Proof.
  intros Hseq Hr Hnd Hok Hf IHlo IHhi IHeq curr pptr (-> & Hq & n & Hn & <- & Hleaf & Hlo & Heq & Hhi).
  destruct (nodup_three _ _ _ _ Hnd) as (Nlo & Neq & Nhi & _ & _ & _ & D1 & D2 & D3).
  apply Forall_cons in Hr as [Hqr Hr]. apply Forall_app in Hr as [Rlo Hr]. apply Forall_app in Hr as [Req Rhi].
  rewrite (add_step _ _ _ _ _ _ _ _ _ _ Hseq Hq Hn). rewrite Hleaf. cbn [put].
  destruct (k <? n_keysym n); [|destruct (n_keysym n <? k); [|destruct rest as [|k2 rest]]].
  - destruct (add_kid fuel U ns p pos (k :: rest) lo q LOKID n) as (ns' & x & -> & Hn' & Hr' & Hlen & Hfr); try done.
    destruct (put _ _ _ _ lo) as [U' lo']. exists ns'. split; [done|].
    split.
    + split; [done|]. split; [done|]. eexists. split; [done|]. split_and!; try done; (apply (rep_frame ns); [done|]); intros o Ho;
        [apply (frame_kid ns ns' q lo eq)|apply (frame_kid ns ns' q lo hi)]; try done; set_solver.
    + split; [cbn in *; lia|]. split; [lia|]. intros o Ho Hni. cbn [offsets] in Hni. apply Hfr; [done|set_solver|set_solver].
  - destruct (add_kid fuel U ns p pos (k :: rest) hi q HIKID n) as (ns' & x & -> & Hn' & Hr' & Hlen & Hfr); try done.
    destruct (put _ _ _ _ hi) as [U' hi']. exists ns'. split; [done|]. split.
    + split; [done|]. split; [done|]. eexists. split; [done|]. split_and!; try done; (apply (rep_frame ns); [done|]); intros o Ho;
        [apply (frame_kid ns ns' q hi lo)|apply (frame_kid ns ns' q hi eq)]; try done; set_solver.
    + split; [cbn in *; lia|]. split; [lia|]. intros o Ho Hni. cbn [offsets] in Hni. apply Hfr; [done|set_solver|set_solver].
  - rewrite bool_decide_eq_true_2 by done. cbn [negb]. destruct Hok as (_ & _ & _ & _ & _ & Hne).
    rewrite (proj2 (Z.eqb_neq (n_word n) 0)) by (intros E; apply Hne, (rep_nil ns (n_word n)); done). cbn [negb].
    exists ns. split; [done|]. split; [|split; [lia|done]]. split; [done|]. split; [done|]. exists n. by split_and!.
  - rewrite bool_decide_eq_false_2 by done. cbn [negb]. destruct (rest_lookup _ _ _ _ Hseq) as (_ & Hd & _).
    destruct (add_kid fuel U ns p (S pos) (k2 :: rest) eq q EQKID n) as (ns' & x & -> & Hn' & Hr' & Hlen & Hfr); try done.
    { cbn in *. lia. } { intros _. by apply IHeq. }
    destruct (put _ _ _ _ eq) as [U' eq']. exists ns'. split; [done|]. split.
    + split; [done|]. split; [done|]. eexists. split; [done|]. split_and!; try done; (apply (rep_frame ns); [done|]); intros o Ho;
        [apply (frame_kid ns ns' q eq lo)|apply (frame_kid ns ns' q eq hi)]; try done; set_solver.
    + split; [cbn in *; lia|]. split; [lia|]. intros o Ho Hni. cbn [offsets] in Hni. apply Hfr; [done|set_solver|set_solver].
Qed.

Lemma add_tree U ns p t : ∀ fuel pos seq,
  drop pos (p_lhs p) = seq → seq ≠ [] → t ≠ TNil → in_range ns t → NoDup (offsets t) → tree_ok U t →
  (length (offsets t) + length seq <= fuel)%nat → adds fuel U ns p pos seq t.
Proof.
  induction t as [|q ks lo IHlo hi IHhi u sym|q ks lo IHlo eq IHeq hi IHhi]; intros fuel pos seq Hseq Hne Ht Hr Hnd Hok Hf; [done| |].
  all: destruct seq as [|k rest]; [done|]; destruct (rest_lookup _ _ _ _ Hseq) as (_ & Hd & _); destruct fuel as [|fuel]; [cbn in Hf; lia|].
  all: pose proof Hr as Hr'; apply Forall_cons in Hr' as [_ Hr']; apply Forall_app in Hr' as [Rlo Hr']; pose proof Hnd as Hnd'; pose proof Hok as Hok'.
  - destruct (nodup_two _ _ _ Hnd') as (_ & _ & ? & ? & _), Hok' as (_ & _ & ? & ? & _). cbn in Hf. rewrite length_app in Hf.
    apply add_tree_leaf; try done; [cbn; lia|intros; apply IHlo|intros; apply IHhi]; try done; cbn; lia.
  - destruct (nodup_three _ _ _ _ Hnd') as (_ & _ & _ & ? & ? & ? & _), Hok' as (_ & _ & ? & ? & ? & ?). cbn in Hf. rewrite !length_app in Hf.
    apply Forall_app in Hr' as [Req Rhi].
    apply add_tree_inner; try done; [cbn; lia|intros; apply IHlo|intros; apply IHhi|intros; apply IHeq]; try done; cbn; lia.
Qed.

(** ** What insertion preserves *)

Lemma c_string_app l x s : c_string l = Some s → c_string (l ++ x) = Some s.
Proof.
  revert s. induction l as [|c l IH]; intros s H; [done|]. cbn in *. case_step; [done|].
  destruct (c_string l) as [s'|]; [|done]. by rewrite (IH s').
Qed.

Lemma c_string_text s x : Forall (λ c, c ≠ 0) s → c_string (s ++ 0 :: x) = Some s.
Proof. induction 1 as [|c s Hc _ IH]; [done|]. cbn. rewrite (proj2 (Z.eqb_neq _ _)), IH by done. done. Qed.

Lemma utf8_at_app U x u s : 0 <= u <= Z.of_nat (length U) → utf8_at U u = Some s → utf8_at (U ++ x) u = Some s.
Proof. intros Hu H. unfold utf8_at in *. rewrite drop_app_le by lia. by apply c_string_app. Qed.

Lemma utf8_at_new U s : Forall (λ c, c ≠ 0) s → utf8_at (U ++ s ++ [0]) (Z.of_nat (length U)) = Some s.
Proof. intros Hs. unfold utf8_at. rewrite Nat2Z.id, drop_app_length. by apply c_string_text. Qed.

Lemma tree_ok_app U x t : tree_ok U t → tree_ok (U ++ x) t.
Proof.
  induction t as [|q ks lo IHlo hi IHhi u sym|q ks lo IHlo eq IHeq hi IHhi]; cbn; [done| |tauto].
  intros (? & ? & ? & ? & Hu & [s Hs]). split_and!; auto; [lia|rewrite length_app; lia|]. exists s. apply utf8_at_app; [lia|done].
Qed.

(** Any offset finds a terminator when the last byte is one. *)
Lemma c_string_end l : is_Some (c_string (l ++ [0])).
Proof. induction l as [|c l [s IH]]; [by eexists|]. cbn. case_step; [by eexists|]. rewrite IH. by eexists. Qed.

Lemma utf8_at_end U u : 0 <= u <= Z.of_nat (length U) → is_Some (utf8_at (U ++ [0]) u).
Proof. intros Hu. unfold utf8_at. rewrite drop_app_le by lia. apply c_string_end. Qed.

(** A production as the parser makes it. *)
Record prod_ok (p : production) : Prop := mk_prod_ok {
  po_lhs : p_lhs p ≠ [];
  po_any : p_ok p;
  po_string : Forall (λ c, c ≠ 0) (p_string p)
}.

Lemma leaf_data_ok U p u sym U' u' sym' :
  prod_ok p → 0 <= u < Z.of_nat (length U) → is_Some (utf8_at U u) → leaf_data U p u sym = (U', u', sym') →
  (∃ x, U' = U ++ x) ∧ 0 <= u' < Z.of_nat (length U') ∧ is_Some (utf8_at U' u').
Proof.
  intros [_ _ Hs] Hu Hus [= <- <- <-]. destruct (p_has_string p).
  - pose proof (Z.mod_pos_bound (Z.of_nat (length U)) (2 ^ 31) ltac:(lia)). pose proof (Z.mod_le (Z.of_nat (length U)) (2 ^ 31) ltac:(lia) ltac:(lia)).
    split; [by eexists|]. rewrite !length_app. cbn [length]. split; [lia|]. rewrite app_assoc. apply utf8_at_end. rewrite length_app. lia.
  - split; [exists []; by rewrite app_nil_r|done].
Qed.

Lemma chain_cons n k k2 seq u sym : chain n (k :: k2 :: seq) u sym = TInner n k TNil (chain (n + 1) (k2 :: seq) u sym) TNil.
Proof. done. Qed.

Lemma chain_ok U n seq u sym : seq ≠ [] → 0 <= u < Z.of_nat (length U) → is_Some (utf8_at U u) → tree_ok U (chain n seq u sym) ∧ chain n seq u sym ≠ TNil.
Proof.
  intros Hne Hu Hus. revert n. induction seq as [|k [|k2 seq] IH]; intros n; [done| |].
  - cbn [chain tree_ok level_keys]. split_and!; try done; try constructor; lia.
  - rewrite chain_cons. destruct (IH ltac:(done) (n + 1)) as [? ?]. cbn [tree_ok]. split_and!; try done; constructor.
Qed.

Lemma chain_offsets n seq u sym : offsets (chain n seq u sym) = seqZ n (Z.of_nat (length seq)).
Proof.
  revert n. induction seq as [|k [|k2 seq] IH]; intros n; [done|done|]. rewrite chain_cons. cbn [offsets app]. rewrite app_nil_r, IH.
  rewrite (seqZ_cons n) by (cbn; lia). f_equal. f_equal; cbn; lia.
Qed.

Lemma chain_level_keys n k seq u sym : level_keys (chain n (k :: seq) u sym) = [k].
Proof. by destruct seq. Qed.

(** The result of an insertion is a tree with the new nodes among its own. *)
Definition grown (U : list Z) (n : Z) (seq : list Z) (t : tst) (r : list Z * tst) : Prop :=
  (∃ x, r.1 = U ++ x) ∧ tree_ok r.1 r.2 ∧ r.2 ≠ TNil ∧ NoDup (offsets r.2) ∧
  (∀ o, o ∈ offsets r.2 → o ∈ offsets t ∨ n <= o < n + Z.of_nat (length seq)) ∧
  (∀ k, k ∈ level_keys r.2 → k ∈ level_keys t ∨ head seq = Some k).

Lemma new_chain_grown U n p seq :
  prod_ok p → seq ≠ [] → (∃ s, utf8_at U 0 = Some s) → U ≠ [] → grown U n seq TNil (new_chain U n p seq).
Proof.
  intros Hp Hne H0 HU. unfold new_chain. destruct (leaf_data U p 0 0) as [[U' u] sym] eqn:E.
  destruct (leaf_data_ok U p 0 0 U' u sym Hp) as (Hx & Hu & Hus); [destruct U; [done|cbn; lia]|by destruct H0 as [s ->]|done|].
  destruct (chain_ok U' n seq u sym Hne Hu Hus) as [Hok Hn]. split; [done|]. split; [done|]. split; [done|]. cbn [snd].
  rewrite chain_offsets. split; [apply NoDup_seqZ|]. split; [intros o Ho%elem_of_seqZ; by right|].
  destruct seq as [|k seq]; [done|]. rewrite chain_level_keys. intros k' ->%list_elem_of_singleton. by right.
Qed.

(** Replacing one kid of a node by a grown one. *)
Lemma grown_nodup U n seq t r (l1 l2 : list Z) :
  grown U n seq t r → Forall (λ o, o < n) (l1 ++ l2) → NoDup (l1 ++ offsets t ++ l2) → NoDup (l1 ++ offsets r.2 ++ l2).
Proof.
  intros (_ & _ & _ & Hnd & Hin & _) Hlt H. rewrite Forall_forall in Hlt.
  rewrite !NoDup_app in *. setoid_rewrite elem_of_app in Hlt. setoid_rewrite elem_of_app in H. setoid_rewrite elem_of_app.
  destruct H as (H1 & H2 & H3 & H4 & H5). split_and!; try done.
  - intros o Ho [Hr|Hr]; [|by apply (H2 o Ho); right]. destruct (Hin o Hr) as [?|?]; [by apply (H2 o Ho); left|]. specialize (Hlt o (or_introl Ho)). lia.
  - intros o Hr Ho. destruct (Hin o Hr) as [Ht|?]; [by apply (H4 o Ht)|]. specialize (Hlt o (or_intror Ho)). lia.
Qed.

Lemma level_keys_grown U n k seq t r (P : Z → Prop) :
  grown U n (k :: seq) t r → P k → Forall P (level_keys t) → Forall P (level_keys r.2).
Proof.
  intros (_ & _ & _ & _ & _ & Hk) Pk Ht. rewrite Forall_forall in *. intros x Hx. destruct (Hk x Hx) as [?|[= <-]]; auto.
Qed.

Section grow.
Context (U : list Z) (n : Z) (p : production).
Hypothesis Hp : prod_ok p.
Hypothesis HU : ∃ s, utf8_at U 0 = Some s.

Lemma U_nonempty : U ≠ [].
Proof. by destruct HU as [s Hs]; intros ->. Qed.

Lemma put_grown_leaf q ks lo hi u sym k rest :
  tree_ok U (TLeaf q ks lo hi u sym) → NoDup (offsets (TLeaf q ks lo hi u sym)) → Forall (λ o, o < n) (offsets (TLeaf q ks lo hi u sym)) →
  grown U n (k :: rest) lo (put U n p (k :: rest) lo) → grown U n (k :: rest) hi (put U n p (k :: rest) hi) →
  grown U n (k :: rest) (TLeaf q ks lo hi u sym) (put U n p (k :: rest) (TLeaf q ks lo hi u sym)).
Proof.
  intros Hok Hnd Hlt Glo Ghi. pose proof Hok as (Klo & Khi & Olo & Ohi & Hu & Hus). cbn [put]. cbn [offsets] in Hnd, Hlt.
  apply Forall_cons in Hlt as [Lq Hlt]. apply Forall_app in Hlt as [Llo Lhi].
  assert (Forall (λ o, o < n) ([q] ++ offsets hi)) as L1 by (by constructor).
  assert (Forall (λ o, o < n) ((q :: offsets lo) ++ offsets hi)) as L2 by (constructor; [done|by apply Forall_app]).
  destruct (Z.ltb_spec k ks) as [L|L]; [|destruct (Z.ltb_spec ks k) as [L'|L']; [|assert (k = ks) as -> by lia; destruct rest as [|k2 rest]]].
  - pose proof Glo as ([x Hx] & Ook & _ & _ & Oin & Kin). pose proof (level_keys_grown _ _ _ _ _ _ (λ k, k < ks) Glo L Klo).
    pose proof (grown_nodup _ _ _ _ _ [q] (offsets hi) Glo L1 Hnd).
    destruct (put _ _ _ _ lo) as [U' lo']. cbn [fst snd] in *. subst U'. split; [by eexists|]. cbn [fst snd tree_ok offsets]. split_and!; try done.
    + by apply tree_ok_app.
    + lia.
    + rewrite length_app. lia.
    + destruct Hus as [s Hs]. exists s. apply utf8_at_app; [lia|done].
    + cbn [offsets]. set_solver.
    + cbn [level_keys]. set_solver.
  - pose proof Ghi as ([x Hx] & Ook & _ & _ & Oin & Kin). pose proof (level_keys_grown _ _ _ _ _ _ (λ k, ks < k) Ghi L' Khi).
    pose proof (grown_nodup _ _ _ _ _ (q :: offsets lo) [] Ghi) as Hnd'. rewrite !app_nil_r in Hnd'. cbn [app] in Hnd'.
    destruct (put _ _ _ _ hi) as [U' hi']. cbn [fst snd] in *. subst U'. split; [by eexists|]. cbn [fst snd tree_ok offsets]. split_and!; try done.
    + by apply tree_ok_app.
    + lia.
    + rewrite length_app. lia.
    + destruct Hus as [s Hs]. exists s. apply utf8_at_app; [lia|done].
    + apply Hnd'; [by constructor|done].
    + cbn [offsets]. set_solver.
    + cbn [level_keys]. set_solver.
  - destruct (duplicate U p u sym); [split; [exists []; by rewrite app_nil_r|]; split_and!; try done; set_solver|].
    destruct (leaf_data U p u sym) as [[U' u'] sym'] eqn:E. destruct (leaf_data_ok _ _ _ _ _ _ _ Hp Hu Hus E) as ([x ->] & Hu' & Hus').
    split; [by eexists|]. cbn [fst snd tree_ok offsets]. split_and!; try done; [by apply tree_ok_app|by apply tree_ok_app|lia|lia|set_solver|set_solver].
  - pose proof (new_chain_grown U n p (k2 :: rest) Hp ltac:(done) HU U_nonempty) as G. pose proof G as ([x Hx] & Ook & Hne & _ & Oin & _).
    pose proof (grown_nodup _ _ _ _ _ (q :: offsets lo) (offsets hi) G L2 Hnd).
    destruct (new_chain _ _ _ _) as [U' eq']. cbn [fst snd] in *. subst U'. split; [by eexists|]. cbn [fst snd tree_ok offsets].
    split_and!; try done; [by apply tree_ok_app|by apply tree_ok_app| |set_solver].
    intros o Ho. cbn [offsets] in *. rewrite !elem_of_cons, !elem_of_app in Ho. destruct Ho as [->|[?|[Ho|?]]]; [set_solver..| |set_solver].
    destruct (Oin o Ho) as [?|?]; [set_solver|]. right. cbn [length] in *. lia.
Qed.

Lemma put_grown_inner q ks lo eq hi k rest :
  tree_ok U (TInner q ks lo eq hi) → NoDup (offsets (TInner q ks lo eq hi)) → Forall (λ o, o < n) (offsets (TInner q ks lo eq hi)) →
  grown U n (k :: rest) lo (put U n p (k :: rest) lo) → grown U n (k :: rest) hi (put U n p (k :: rest) hi) →
  (rest ≠ [] → grown U n rest eq (put U n p rest eq)) →
  grown U n (k :: rest) (TInner q ks lo eq hi) (put U n p (k :: rest) (TInner q ks lo eq hi)).
Proof.
  intros Hok Hnd Hlt Glo Ghi Geq. pose proof Hok as (Klo & Khi & Olo & Oeq & Ohi & Hne). cbn [put]. cbn [offsets] in Hnd, Hlt.
  apply Forall_cons in Hlt as [Lq Hlt]. apply Forall_app in Hlt as [Llo Hlt]. apply Forall_app in Hlt as [Leq Lhi].
  assert (∀ a b, Forall (λ o, o < n) a → Forall (λ o, o < n) b → Forall (λ o, o < n) (a ++ b)) as Lapp by (intros; by apply Forall_app).
  assert (Forall (λ o, o < n) [q]) as L1 by (by constructor).
  destruct (Z.ltb_spec k ks) as [L|L]; [|destruct (Z.ltb_spec ks k) as [L'|L']; [|assert (k = ks) as -> by lia; destruct rest as [|k2 rest]]].
  - pose proof Glo as ([x Hx] & Ook & _ & _ & Oin & Kin). pose proof (level_keys_grown _ _ _ _ _ _ (λ k, k < ks) Glo L Klo).
    pose proof (grown_nodup _ _ _ _ _ [q] (offsets eq ++ offsets hi) Glo ltac:(auto) Hnd).
    destruct (put _ _ _ _ lo) as [U' lo']. cbn [fst snd] in *. subst U'. split; [by eexists|]. cbn [fst snd tree_ok offsets].
    split_and!; try done; [by apply tree_ok_app|by apply tree_ok_app|set_solver|cbn [level_keys]; set_solver].
  - pose proof Ghi as ([x Hx] & Ook & _ & _ & Oin & Kin). pose proof (level_keys_grown _ _ _ _ _ _ (λ k, ks < k) Ghi L' Khi).
    pose proof (grown_nodup _ _ _ _ _ (q :: offsets lo ++ offsets eq) [] Ghi) as Hnd'. rewrite !app_nil_r in Hnd'. cbn [app] in Hnd'.
    rewrite <- !app_assoc in Hnd'.
    destruct (put _ _ _ _ hi) as [U' hi']. cbn [fst snd] in *. subst U'. split; [by eexists|]. cbn [fst snd tree_ok offsets].
    split_and!; try done; [by apply tree_ok_app|by apply tree_ok_app|apply Hnd'; [constructor; auto|done]|set_solver|cbn [level_keys]; set_solver].
  - split; [exists []; by rewrite app_nil_r|]. split_and!; try done; set_solver.
  - pose proof (Geq ltac:(done)) as G. pose proof G as ([x Hx] & Ook & Hne' & _ & Oin & _).
    pose proof (grown_nodup _ _ _ _ _ (q :: offsets lo) (offsets hi) G ltac:(constructor; auto) Hnd).
    destruct (put _ _ _ _ eq) as [U' eq']. cbn [fst snd] in *. subst U'. split; [by eexists|]. cbn [fst snd tree_ok offsets].
    split_and!; try done; [by apply tree_ok_app|by apply tree_ok_app| |cbn [level_keys]; set_solver].
    intros o Ho. rewrite !elem_of_cons, !elem_of_app in Ho. destruct Ho as [->|[?|[Ho|?]]]; [set_solver..| |set_solver].
    destruct (Oin o Ho) as [?|?]; [set_solver|]. right. cbn [length] in *. lia.
Qed.

Lemma put_grown t : ∀ seq,
  seq ≠ [] → tree_ok U t → NoDup (offsets t) → Forall (λ o, o < n) (offsets t) → grown U n seq t (put U n p seq t).
Proof.
  induction t as [|q ks lo IHlo hi IHhi u sym|q ks lo IHlo eq IHeq hi IHhi]; intros seq Hne Hok Hnd Hlt.
  - apply new_chain_grown; [done..|exact HU|apply U_nonempty].
  - destruct seq as [|k rest]; [done|]. pose proof Hok as (_ & _ & ? & ? & _). destruct (nodup_two _ _ _ Hnd) as (_ & _ & ? & ? & _).
    pose proof Hlt as Hlt'. cbn [offsets] in Hlt'. rewrite Forall_cons, Forall_app in Hlt'. destruct Hlt' as (_ & ? & ?).
    apply put_grown_leaf; auto.
  - destruct seq as [|k rest]; [done|]. pose proof Hok as (_ & _ & ? & ? & ? & _). destruct (nodup_three _ _ _ _ Hnd) as (_ & _ & _ & ? & ? & ? & _).
    pose proof Hlt as Hlt'. cbn [offsets] in Hlt'. rewrite Forall_cons, !Forall_app in Hlt'. destruct Hlt' as (_ & ? & ? & ?).
    apply put_grown_inner; auto.
Qed.
End grow.
