(* ===== verification/XkbComposeSpec.v ===== *)
(** * Compose tables as maps

    The contract of a compose table: a finite map from sequences of keysyms
    to a text and a keysym, no sequence a prefix of another.  [add_production]
    refines an insertion into that map, and a state follows the sequences of
    the map. *)
From S2P Require Import Prelude XkbUtf8 XkbKeysym XkbKeysymUtf XkbCompose XkbComposeTree.

Open Scope Z_scope.

(** ** Lookup in a tree *)

Fixpoint tfind (t : tst) (seq : list Z) : option (Z * Z) :=
  match t, seq with
  | TNil, _ | _, [] => None
  | TLeaf _ ks lo hi u sym, k :: rest =>
      if k <? ks then tfind lo seq else if ks <? k then tfind hi seq
      else match rest with [] => Some (u, sym) | _ => None end
  | TInner _ ks lo eq hi, k :: rest =>
      if k <? ks then tfind lo seq else if ks <? k then tfind hi seq else tfind eq rest
  end.

(** A longer sequence starts with [seq]. *)
Fixpoint below (t : tst) (seq : list Z) : bool :=
  match t, seq with
  | TNil, _ | _, [] => false
  | TLeaf _ ks lo hi _ _, k :: _ => if k <? ks then below lo seq else if ks <? k then below hi seq else false
  | TInner _ ks lo eq hi, k :: rest =>
      if k <? ks then below lo seq else if ks <? k then below hi seq
      else match rest with [] => true | _ => below eq rest end
  end.

(** The text, if any, and the keysym of a sequence. *)
Definition entry : Type := option (list Z) * Z.
Definition entry_of (U : list Z) (l : Z * Z) : entry := (if l.1 =? 0 then None else Some (text_of U l.1), l.2).
Definition find (U : list Z) (t : tst) (seq : list Z) : option entry := entry_of U <$> tfind t seq.

Definition updated (old : option entry) (p : production) : entry :=
  let '(s, k) := default (None, 0) old in
  (if p_has_string p then Some (p_string p) else s, if p_has_keysym p then p_keysym p else k).

Lemma tfind_nil t : tfind t [] = None.
Proof. by destruct t. Qed.

Lemma text_of_app U x u : 0 <= u < Z.of_nat (length U) → is_Some (utf8_at U u) → text_of (U ++ x) u = text_of U u.
Proof. intros Hu [s Hs]. unfold text_of. rewrite Hs, (utf8_at_app U x u s); [done|lia|done]. Qed.

Lemma tfind_text U t seq u sym : tree_ok U t → tfind t seq = Some (u, sym) → 0 <= u < Z.of_nat (length U) ∧ is_Some (utf8_at U u).
Proof.
  revert seq. induction t as [|q ks lo IHlo hi IHhi u' sym'|q ks lo IHlo eq IHeq hi IHhi]; intros seq Hok H; [done| |].
  - destruct Hok as (_ & _ & ? & ? & ? & ?). destruct seq as [|k rest]; [done|]. cbn in H. case_step_in H; [eauto|]. case_step_in H; [eauto|].
    destruct rest; [|done]. by injection H as -> ->.
  - destruct Hok as (_ & _ & ? & ? & ? & ?). destruct seq as [|k rest]; [done|]. cbn in H. case_step_in H; [eauto|]. case_step_in H; eauto.
Qed.

Lemma find_app U x t seq : tree_ok U t → find (U ++ x) t seq = find U t seq.
Proof.
  intros Hok. unfold find. destruct (tfind t seq) as [[u sym]|] eqn:E; [|done]. destruct (tfind_text U t seq u sym Hok E).
  unfold entry_of. cbn. case_step; [done|]. by rewrite text_of_app.
Qed.

(** ** Insertion *)

(** What an insertion of [seq] does to the lookup of any sequence. *)
Definition inserted (old new : list Z → option entry) (seq : list Z) (p : production) : Prop :=
  ∀ s, new s = if decide (s = seq) then Some (updated (old seq) p) else if decide (s `prefix_of` seq) then None else old s.

(** Room for another text: its offset fits into 31 bits. *)
Definition room (U : list Z) : Prop := Z.of_nat (length U) < 2 ^ 31.

Lemma leaf_data_find U p u sym :
  prod_ok p → room U → 0 < Z.of_nat (length U) → (u ≠ 0 → 0 <= u < Z.of_nat (length U) ∧ is_Some (utf8_at U u)) →
  let '(U', u', sym') := leaf_data U p u sym in entry_of U' (u', sym') = updated (Some (entry_of U (u, sym))) p.
Proof.
  intros Hp Hroom H0 Hu. unfold leaf_data, entry_of, updated. cbn. destruct (p_has_string p) eqn:Es.
  - destruct Hp as [_ _ Hs]. unfold room in Hroom. rewrite Z.mod_small by lia. rewrite (proj2 (Z.eqb_neq _ _)) by lia. unfold text_of. rewrite utf8_at_new by done. done.
  - done.
Qed.

Lemma chain_find n seq u sym s : seq ≠ [] → tfind (chain n seq u sym) s = if decide (s = seq) then Some (u, sym) else None.
Proof.
  revert n s. induction seq as [|k [|k2 seq] IH]; intros n s Hne; [done| |].
  - cbn. destruct s as [|a s]; [done|]. destruct (Z.ltb_spec a k); [rewrite decide_False by (intros [= -> ->]; lia); done|].
    destruct (Z.ltb_spec k a); [rewrite decide_False by (intros [= -> ->]; lia); done|]. assert (a = k) as -> by lia.
    destruct s; [by rewrite decide_True|by rewrite decide_False].
  - rewrite chain_cons. destruct s as [|a s]; [done|]. cbn [tfind].
    destruct (Z.ltb_spec a k); [rewrite decide_False by (intros [= -> ->]; lia); done|].
    destruct (Z.ltb_spec k a); [rewrite decide_False by (intros [= -> ->]; lia); done|]. assert (a = k) as -> by lia.
    rewrite IH by done. destruct (decide (s = k2 :: seq)) as [->|Hs]; [by rewrite decide_True|rewrite decide_False; congruence].
Qed.

Lemma new_chain_inserted U n p seq :
  prod_ok p → room U → 0 < Z.of_nat (length U) → seq ≠ [] →
  inserted (λ _, None) (find (new_chain U n p seq).1 (new_chain U n p seq).2) seq p.
Proof.
  intros Hp Hroom HU Hne s. pose proof (leaf_data_find U p 0 0 Hp Hroom HU ltac:(done)) as E. unfold new_chain.
  destruct (leaf_data U p 0 0) as [[U' u] sym]. cbn [fst snd]. unfold find. rewrite chain_find by done.
  destruct (decide (s = seq)); cbn; [|by case_decide]. by rewrite E.
Qed.

Lemma prefix_cons_iff (a b : Z) s t : a :: s `prefix_of` b :: t ↔ a = b ∧ s `prefix_of` t.
Proof. split; [intros H; split; [by eapply prefix_cons_inv_1|by eapply prefix_cons_inv_2]|intros [-> H]; by apply prefix_cons]. Qed.

(** A sequence with another first keysym is not touched. *)
Lemma other_first (old : list Z → option entry) (a k : Z) s rest p :
  a ≠ k → (if decide (a :: s = k :: rest) then Some (updated (old (k :: rest)) p) else if decide (a :: s `prefix_of` k :: rest) then None else old (a :: s)) = old (a :: s).
Proof. intros Hne. rewrite !decide_False; [done| |congruence]. rewrite prefix_cons_iff. tauto. Qed.

Lemma empty_inserted (old : list Z → option entry) k rest p :
  None = (if decide ([] = k :: rest) then Some (updated (old (k :: rest)) p) else if decide ([] `prefix_of` k :: rest) then None else old []).
Proof. rewrite decide_False by done. by rewrite decide_True by apply prefix_nil. Qed.

(** The first keysym is that of the node: the rest is inserted below it. *)
Lemma same_first (old old' : list Z → option entry) k s rest p x :
  (∀ s, s ≠ [] → old (k :: s) = old' s) → s ≠ [] → rest ≠ [] →
  x = (if decide (s = rest) then Some (updated (old' rest) p) else if decide (s `prefix_of` rest) then None else old' s) →
  x = (if decide (k :: s = k :: rest) then Some (updated (old (k :: rest)) p) else if decide (k :: s `prefix_of` k :: rest) then None else old (k :: s)).
Proof.
  intros Ho Hs Hr ->. rewrite !Ho by done. destruct (decide (s = rest)) as [->|Hne]; [by rewrite decide_True|].
  rewrite (decide_False (P := k :: s = k :: rest)) by congruence.
  destruct (decide (s `prefix_of` rest)) as [Hp|Hp]; [rewrite decide_True|rewrite decide_False]; try done; rewrite prefix_cons_iff; tauto.
Qed.

Section insertion.
Context (U : list Z) (n : Z) (p : production).
Hypothesis Hp : prod_ok p.
Hypothesis Hroom : room U.
Hypothesis HU : ∃ s, utf8_at U 0 = Some s.

Lemma U_pos : 0 < Z.of_nat (length U).
Proof. destruct HU as [s Hs]. destruct U; [done|cbn; lia]. Qed.

Notation put_find seq t := (find (put U n p seq t).1 (put U n p seq t).2).

Lemma put_app seq t : seq ≠ [] → tree_ok U t → ∃ x, (put U n p seq t).1 = U ++ x ∧ (length x <= length (p_string p) + 1)%nat.
Proof.
  revert seq. set (grows (V : list Z) := ∃ x, V = U ++ x ∧ (length x <= length (p_string p) + 1)%nat).
  assert (grows U) as Hnil by (exists []; rewrite app_nil_r; cbn; split; [done|lia]).
  assert (grows (U ++ p_string p ++ [0])) as Happ by (eexists; split; [done|]; rewrite length_app; cbn; lia).
  assert (∀ seq, seq ≠ [] → grows (new_chain U n p seq).1) as Hc.
  { intros seq Hne. unfold new_chain, leaf_data. by destruct (p_has_string p). }
  induction t as [|q ks lo IHlo hi IHhi u sym|q ks lo IHlo eq IHeq hi IHhi]; intros seq Hne Hok; [by apply Hc| |].
  - destruct seq as [|k rest]; [done|]. destruct Hok as (_ & _ & Olo & Ohi & _). cbn [put].
    case_step; [specialize (IHlo (k :: rest) ltac:(done) Olo); by destruct (put _ _ _ _ lo)|].
    case_step; [specialize (IHhi (k :: rest) ltac:(done) Ohi); by destruct (put _ _ _ _ hi)|].
    destruct rest as [|k2 rest]; [|specialize (Hc (k2 :: rest) ltac:(done)); by destruct (new_chain _ _ _ _)].
    case_step; [done|]. unfold leaf_data. by destruct (p_has_string p).
  - destruct seq as [|k rest]; [done|]. destruct Hok as (_ & _ & Olo & Oeq & Ohi & _). cbn [put].
    case_step; [specialize (IHlo (k :: rest) ltac:(done) Olo); by destruct (put _ _ _ _ lo)|].
    case_step; [specialize (IHhi (k :: rest) ltac:(done) Ohi); by destruct (put _ _ _ _ hi)|].
    destruct rest as [|k2 rest]; [done|]. specialize (IHeq (k2 :: rest) ltac:(done) Oeq). by destruct (put _ _ _ _ eq).
Qed.

Lemma duplicate_updated u sym :
  duplicate U p u sym = true → Some (entry_of U (u, sym)) = Some (updated (Some (entry_of U (u, sym))) p).
Proof.
  unfold duplicate, updated, entry_of. cbn. intros H. apply andb_true_iff in H as [H1 H2]. f_equal.
  destruct (Z.eqb_spec u 0), (Z.eqb_spec sym 0), (p_has_string p), (p_has_keysym p); cbn in *; try done;
    rewrite ?bool_decide_eq_true, ?Z.eqb_eq in *; congruence.
Qed.

Lemma find_leaf V q ks lo hi u sym a s :
  find V (TLeaf q ks lo hi u sym) (a :: s) =
    if a <? ks then find V lo (a :: s) else if ks <? a then find V hi (a :: s)
    else match s with [] => Some (entry_of V (u, sym)) | _ => None end.
Proof. unfold find. cbn. case_step; [done|]. case_step; [done|]. by destruct s. Qed.

Lemma find_inner V q ks lo eq hi a s :
  find V (TInner q ks lo eq hi) (a :: s) =
    if a <? ks then find V lo (a :: s) else if ks <? a then find V hi (a :: s) else find V eq s.
Proof. unfold find. cbn. case_step; [done|]. by case_step. Qed.

Lemma entry_app x u sym : 0 <= u < Z.of_nat (length U) → is_Some (utf8_at U u) → entry_of (U ++ x) (u, sym) = entry_of U (u, sym).
Proof. intros Hu Hus. unfold entry_of. cbn. case_step; [done|]. by rewrite text_of_app. Qed.

(** Below a kid with smaller or greater keysyms. *)
Lemma inserted_kid (old new old' new' : list Z → option entry) k rest (side : Z → bool) :
  inserted old' new' (k :: rest) p → side k = true →
  (∀ a s, side a = true → old (a :: s) = old' (a :: s)) → (∀ a s, side a = true → new (a :: s) = new' (a :: s)) →
  (∀ a s, side a = false → new (a :: s) = old (a :: s)) → new [] = None → inserted old new (k :: rest) p.
Proof.
  intros H Hk Ho Hn Hout Hnil s. destruct s as [|a s]; [rewrite Hnil; apply (empty_inserted old)|].
  destruct (side a) eqn:Ha.
  - rewrite (Hn a s Ha), (H (a :: s)), (Ho k rest Hk), (Ho a s Ha). done.
  - rewrite (Hout a s Ha). symmetry. apply (other_first old). intros ->. congruence.
Qed.

Lemma put_inserted_leaf q ks lo hi u sym k rest :
  tree_ok U (TLeaf q ks lo hi u sym) → below (TLeaf q ks lo hi u sym) (k :: rest) = false →
  (below lo (k :: rest) = false → inserted (find U lo) (put_find (k :: rest) lo) (k :: rest) p) →
  (below hi (k :: rest) = false → inserted (find U hi) (put_find (k :: rest) hi) (k :: rest) p) →
  inserted (find U (TLeaf q ks lo hi u sym)) (put_find (k :: rest) (TLeaf q ks lo hi u sym)) (k :: rest) p.
Proof.
  intros Hok Hb IHlo IHhi. pose proof Hok as (_ & _ & Olo & Ohi & Hu & Hus).
  pose proof (put_app (k :: rest) lo ltac:(done) Olo) as (x & Hx & _). pose proof (put_app (k :: rest) hi ltac:(done) Ohi) as (y & Hy & _).
  cbn [below] in Hb. cbn [put]. destruct (k <? ks) eqn:L; [|destruct (ks <? k) eqn:L'].
  - destruct (put _ _ _ _ lo) as [U' lo']. cbn [fst snd] in *. subst U'.
    apply (inserted_kid _ _ (find U lo) (find (U ++ x) lo') _ _ (λ a, a <? ks)); auto.
    + intros a s Ha. by rewrite find_leaf, Ha.
    + intros a s Ha. by rewrite find_leaf, Ha.
    + intros a s Ha. rewrite !find_leaf, Ha, find_app, entry_app by done. done.
  - destruct (put _ _ _ _ hi) as [U' hi']. cbn [fst snd] in *. subst U'.
    apply (inserted_kid _ _ (find U hi) (find (U ++ y) hi') _ _ (λ a, ks <? a)); auto.
    + intros a s Ha. rewrite find_leaf, Ha. by destruct (Z.ltb_spec a ks), (Z.ltb_spec ks a); try lia.
    + intros a s Ha. rewrite find_leaf, Ha. by destruct (Z.ltb_spec a ks), (Z.ltb_spec ks a); try lia.
    + intros a s Ha. rewrite !find_leaf, Ha, find_app, entry_app by done. done.
  - assert (k = ks) as -> by (destruct (Z.ltb_spec k ks), (Z.ltb_spec ks k); try done; lia). clear L L'.
    intros s. destruct s as [|a s]; [unfold find at 1; rewrite tfind_nil; apply (empty_inserted (find U (TLeaf q ks lo hi u sym)))|].
    destruct rest as [|k2 rest].
    + destruct (duplicate U p u sym) eqn:Hd; [|pose proof (leaf_data_find U p u sym Hp Hroom U_pos ltac:(auto)) as E; destruct (leaf_data U p u sym) as [[U' u'] sym'] eqn:El].
      * cbn [fst snd]. destruct (decide (a :: s = [ks])) as [[= -> ->]|Hne]; [rewrite !find_leaf, !Z.ltb_irrefl; by apply duplicate_updated|].
        destruct (decide (a :: s `prefix_of` [ks])) as [Hpr|]; [|done]. apply prefix_cons_iff in Hpr as [-> Hpr%prefix_nil_inv]. subst s. done.
      * destruct (leaf_data_ok _ _ _ _ _ _ _ Hp Hu Hus El) as ([z ->] & _). cbn [fst snd].
        destruct (decide (a = ks)) as [->|Hne].
        -- rewrite !find_leaf, !Z.ltb_irrefl. destruct s as [|b s]; [rewrite decide_True by done; by rewrite E|]. rewrite !decide_False; [done| |done].
           rewrite prefix_cons_iff. intros [_ Hpr%prefix_nil_inv]. done.
        -- rewrite (other_first (find U (TLeaf q ks lo hi u sym))) by done. rewrite !find_leaf, !find_app by done.
           destruct (Z.ltb_spec a ks); [done|]. destruct (Z.ltb_spec ks a); [done|]. lia.
    + pose proof (new_chain_inserted U n p (k2 :: rest) Hp Hroom U_pos ltac:(done)) as Hc.
      pose proof (put_app (k2 :: rest) TNil ltac:(done) I) as (z & Hz & _). cbn [put] in Hz.
      destruct (new_chain _ _ _ _) as [U' eq']. cbn [fst snd] in *. subst U'. rewrite find_inner. destruct (decide (a = ks)) as [->|Hne].
      * rewrite !Z.ltb_irrefl. destruct s as [|b s].
        -- unfold find at 1. rewrite tfind_nil. cbn. rewrite decide_False by done. rewrite decide_True; [done|]. apply prefix_cons, prefix_nil.
        -- apply (same_first _ (λ _, None)); [intros s' Hs'; rewrite find_leaf, !Z.ltb_irrefl; by destruct s'|done|done|apply Hc].
      * rewrite (other_first (find U (TLeaf q ks lo hi u sym))) by done. rewrite find_leaf, !find_app by done.
        destruct (Z.ltb_spec a ks); [done|]. destruct (Z.ltb_spec ks a); [done|]. lia.
Qed.

Lemma put_inserted_inner q ks lo eq hi k rest :
  tree_ok U (TInner q ks lo eq hi) → below (TInner q ks lo eq hi) (k :: rest) = false →
  (below lo (k :: rest) = false → inserted (find U lo) (put_find (k :: rest) lo) (k :: rest) p) →
  (below hi (k :: rest) = false → inserted (find U hi) (put_find (k :: rest) hi) (k :: rest) p) →
  (rest ≠ [] → below eq rest = false → inserted (find U eq) (put_find rest eq) rest p) →
  inserted (find U (TInner q ks lo eq hi)) (put_find (k :: rest) (TInner q ks lo eq hi)) (k :: rest) p.
Proof.
  intros Hok Hb IHlo IHhi IHeq. pose proof Hok as (_ & _ & Olo & Oeq & Ohi & _).
  pose proof (put_app (k :: rest) lo ltac:(done) Olo) as (x & Hx & _). pose proof (put_app (k :: rest) hi ltac:(done) Ohi) as (y & Hy & _).
  cbn [below] in Hb. cbn [put]. destruct (k <? ks) eqn:L; [|destruct (ks <? k) eqn:L'].
  - destruct (put _ _ _ _ lo) as [U' lo']. cbn [fst snd] in *. subst U'.
    apply (inserted_kid _ _ (find U lo) (find (U ++ x) lo') _ _ (λ a, a <? ks)); auto.
    + intros a s Ha. by rewrite find_inner, Ha.
    + intros a s Ha. by rewrite find_inner, Ha.
    + intros a s Ha. rewrite !find_inner, Ha, !find_app by done. done.
  - destruct (put _ _ _ _ hi) as [U' hi']. cbn [fst snd] in *. subst U'.
    apply (inserted_kid _ _ (find U hi) (find (U ++ y) hi') _ _ (λ a, ks <? a)); auto.
    + intros a s Ha. rewrite find_inner, Ha. by destruct (Z.ltb_spec a ks), (Z.ltb_spec ks a); try lia.
    + intros a s Ha. rewrite find_inner, Ha. by destruct (Z.ltb_spec a ks), (Z.ltb_spec ks a); try lia.
    + intros a s Ha. rewrite !find_inner, Ha, !find_app by done. done.
  - assert (k = ks) as -> by (destruct (Z.ltb_spec k ks), (Z.ltb_spec ks k); try done; lia). clear L L'.
    destruct rest as [|k2 rest]; [done|]. specialize (IHeq ltac:(done) Hb).
    pose proof (put_app (k2 :: rest) eq ltac:(done) Oeq) as (z & Hz & _). destruct (put _ _ _ (k2 :: rest) eq) as [U' eq']. cbn [fst snd] in *. subst U'.
    intros s. destruct s as [|a s]; [unfold find at 1; rewrite tfind_nil; apply (empty_inserted (find U (TInner q ks lo eq hi)))|].
    rewrite find_inner. destruct (decide (a = ks)) as [->|Hne].
    + rewrite !Z.ltb_irrefl. destruct s as [|b s].
      * unfold find at 1. rewrite tfind_nil. cbn. rewrite decide_False by done. rewrite decide_True; [done|]. apply prefix_cons, prefix_nil.
      * apply (same_first _ (find U eq)); [intros s' Hs'; by rewrite find_inner, !Z.ltb_irrefl|done|done|apply IHeq].
    + rewrite (other_first (find U (TInner q ks lo eq hi))) by done. rewrite find_inner, !find_app by done.
      destruct (Z.ltb_spec a ks); [done|]. destruct (Z.ltb_spec ks a); [done|]. lia.
Qed.

Lemma put_inserted t : ∀ seq, seq ≠ [] → tree_ok U t → below t seq = false → inserted (find U t) (put_find seq t) seq p.
Proof.
  induction t as [|q ks lo IHlo hi IHhi u sym|q ks lo IHlo eq IHeq hi IHhi]; intros seq Hne Hok Hb.
  - apply (new_chain_inserted U n p seq Hp Hroom U_pos Hne).
  - destruct seq as [|k rest]; [done|]. pose proof Hok as (_ & _ & ? & ? & _). apply put_inserted_leaf; auto.
  - destruct seq as [|k rest]; [done|]. pose proof Hok as (_ & _ & ? & ? & ? & _). apply put_inserted_inner; auto.
Qed.

(** A prefix of another sequence is not inserted. *)
Lemma put_below t : ∀ seq, below t seq = true → put U n p seq t = (U, t).
Proof.
  induction t as [|q ks lo IHlo hi IHhi u sym|q ks lo IHlo eq IHeq hi IHhi]; intros seq Hb; [done| |].
  - destruct seq as [|k rest]; [done|]. cbn [below put] in *. destruct (k <? ks); [by rewrite IHlo|]. destruct (ks <? k); [by rewrite IHhi|done].
  - destruct seq as [|k rest]; [done|]. cbn [below put] in *. destruct (k <? ks); [by rewrite IHlo|]. destruct (ks <? k); [by rewrite IHhi|].
    destruct rest as [|k2 rest]; [done|]. by rewrite IHeq.
Qed.
End insertion.

(** ** Prefixes *)

Lemma tfind_some U t : tree_ok U t → t ≠ TNil → ∃ k s, is_Some (tfind t (k :: s)).
Proof.
  induction t as [|q ks lo IHlo hi IHhi u sym|q ks lo IHlo eq IHeq hi IHhi]; intros Hok Hne; [done| |].
  - exists ks, []. cbn. by rewrite Z.ltb_irrefl.
  - destruct Hok as (_ & _ & _ & Oeq & _ & Hn). destruct (IHeq Oeq Hn) as (k & s & H). exists ks, (k :: s). cbn. by rewrite !Z.ltb_irrefl.
Qed.

(** [below] says that the tree has a longer sequence. *)
Lemma below_spec U t seq : tree_ok U t → seq ≠ [] → below t seq = true ↔ ∃ k s, is_Some (tfind t (seq ++ k :: s)).
Proof.
  revert seq. induction t as [|q ks lo IHlo hi IHhi u sym|q ks lo IHlo eq IHeq hi IHhi]; intros seq Hok Hne.
  - split; [done|]. by intros (k & s & [? ?]).
  - destruct seq as [|a seq]; [done|]. pose proof Hok as (_ & _ & ? & ? & _). cbn. case_step; [by apply (IHlo (a :: seq))|]. case_step; [by apply (IHhi (a :: seq))|].
    split; [done|]. intros (k & s & [? Hs]). by destruct seq.
  - destruct seq as [|a seq]; [done|]. pose proof Hok as (_ & _ & ? & Oeq & ? & Hn). cbn. case_step; [by apply (IHlo (a :: seq))|]. case_step; [by apply (IHhi (a :: seq))|].
    destruct seq as [|b seq]; [|by apply IHeq]. split; [|done]. intros _. by apply (tfind_some U).
Qed.

(** No sequence is a prefix of another. *)
Lemma find_not_below t seq : is_Some (tfind t seq) → below t seq = false.
Proof.
  revert seq. induction t as [|q ks lo IHlo hi IHhi u sym|q ks lo IHlo eq IHeq hi IHhi]; intros seq [x H]; [done| |].
  - destruct seq as [|a seq]; [done|]. cbn in *. case_step; [by apply IHlo|]. case_step; [by apply IHhi|]. done.
  - destruct seq as [|a seq]; [done|]. cbn in *. case_step; [by apply IHlo|]. case_step; [by apply IHhi|].
    destruct seq; [by rewrite tfind_nil in H|]. by apply IHeq.
Qed.

(** ** Tables *)

Record table_rep (T : xkb_compose_table) (t : tst) : Prop := mk_table_rep {
  tr_root : if num_nodes T =? 1 then t = TNil else t ≠ TNil ∧ rep (ct_nodes T) 1 t;
  tr_zero : ∃ d, node_at (ct_nodes T) 0 = Some d ∧ n_is_leaf d = true ∧ n_utf8 d = 0 ∧ n_word d = 0;
  tr_range : in_range (ct_nodes T) t;
  tr_nodup : NoDup (offsets t);
  tr_ok : tree_ok (ct_utf8 T) t;
  tr_text : utf8_at (ct_utf8 T) 0 = Some [];
  tr_max : num_nodes T < MAX_COMPOSE_NODES
}.

Lemma table_new_rep : table_rep xkb_compose_table_new TNil.
Proof. split; try done; [by eexists|constructor|constructor]. Qed.

Lemma num_nodes_pos T t : table_rep T t → 1 <= num_nodes T.
Proof. intros H. destruct (tr_zero _ _ H) as (d & Hd & _). apply node_at_lt in Hd. unfold num_nodes. lia. Qed.

Lemma offsets_length ns t : in_range ns t → NoDup (offsets t) → (length (offsets t) <= length ns)%nat.
Proof.
  intros Hr Hnd. assert (length (offsets t) = length (Z.to_nat <$> offsets t)) as -> by (by rewrite length_fmap).
  rewrite <- (length_seq (length ns) 0). apply submseteq_length, NoDup_submseteq.
  - apply NoDup_fmap_2_strong; [|done]. unfold in_range in Hr. rewrite Forall_forall in Hr. intros x y Hx Hy.
    pose proof (Hr x Hx). pose proof (Hr y Hy). lia.
  - intros i (o & -> & Ho)%list_elem_of_fmap. unfold in_range in Hr. rewrite Forall_forall in Hr. specialize (Hr o Ho). apply elem_of_seq. lia.
Qed.

Lemma rep_in_range ns q t : rep ns q t → in_range ns t.
Proof.
  unfold in_range. revert q. induction t as [|p ks lo IHlo hi IHhi u sym|p ks lo IHlo eq IHeq hi IHhi]; intros q H; [constructor| |].
  - destruct H as (_ & Hp & n & Hn & _ & _ & _ & _ & Hlo & Hhi). apply node_at_lt in Hn. cbn [offsets]. constructor; [lia|].
    apply Forall_app. split; [by eapply IHlo|by eapply IHhi].
  - destruct H as (_ & Hp & n & Hn & _ & _ & Hlo & Heq & Hhi). apply node_at_lt in Hn. cbn [offsets]. constructor; [lia|].
    rewrite !Forall_app. split_and!; [by eapply IHlo|by eapply IHeq|by eapply IHhi].
Qed.

(** [add_production] is the insertion into the tree. *)
Lemma add_production_put T t p :
  table_rep T t → prod_ok p → num_nodes T + Z.of_nat (length (p_lhs p)) < MAX_COMPOSE_NODES →
  ∃ T', add_production T p = Some T' ∧ ct_utf8 T' = (put (ct_utf8 T) (num_nodes T) p (p_lhs p) t).1 ∧
    num_nodes T' <= num_nodes T + Z.of_nat (length (p_lhs p)) ∧
    table_rep T' (put (ct_utf8 T) (num_nodes T) p (p_lhs p) t).2.
Proof.
  intros HT Hp Hmax. pose proof HT as [Hroot Hzero Hr Hnd Hok Htext _]. pose proof (num_nodes_pos T t HT).
  unfold add_production. rewrite (proj2 (Z.leb_gt _ _)) by done. destruct T as [U ns]. unfold num_nodes in *. cbn [ct_utf8 ct_nodes] in *.
  assert (∃ s, utf8_at U 0 = Some s) as HU by eauto. pose proof (po_lhs _ Hp) as Hne.
  assert (Forall (λ o, o < Z.of_nat (length ns)) (offsets t)) as Hlt by (eapply Forall_impl; [exact Hr|]; cbn; lia).
  pose proof (put_grown U (Z.of_nat (length ns)) p Hp HU t (p_lhs p) Hne Hok Hnd Hlt) as ([x Hx] & Gok & Gne & Gnd & Gin & _).
  pose proof Hzero as (d & Hd & Hdl & Hdu & Hdw).
  assert (∃ ns', add_loop (length ns + 2 * length (p_lhs p)) (mk_compose U ns) p 0 (if Z.of_nat (length ns) =? 1 then 0 else 1) None =
      Some (mk_compose (put U (Z.of_nat (length ns)) p (p_lhs p) t).1 ns') ∧ rep ns' 1 (put U (Z.of_nat (length ns)) p (p_lhs p) t).2 ∧
      (length ns <= length ns')%nat ∧ (length ns' <= length ns + length (p_lhs p))%nat ∧ (1 < length ns')%nat ∧ node_at ns' 0 = node_at ns 0) as (ns' & E & Hrep & Hle & Hle2 & Hone & H0).
  { destruct (Z.eqb_spec (Z.of_nat (length ns)) 1) as [H1|H1].
    - subst t. destruct (add_chain (length ns + 2 * length (p_lhs p)) U ns p 0 None ns (p_lhs p)) as (ns' & E & Hlen & Hfr & Hrep); try done; [lia|by intros ->|].
      exists ns'. cbn [put] in *. split; [exact E|]. rewrite H1 in *. split; [done|]. split; [lia|]. split; [lia|]. split; [|apply Hfr; lia].
      destruct (p_lhs p); [done|]. cbn in *. lia.
    - destruct Hroot as [Htn Hrep]. pose proof (offsets_length ns t Hr Hnd).
      destruct (add_tree U ns p t (length ns + 2 * length (p_lhs p)) 0 (p_lhs p) eq_refl Hne Htn Hr Hnd Hok ltac:(lia) 1 None Hrep) as (ns' & E & Hrep' & Hle2 & Hle & Hfr).
      exists ns'. split; [done|]. split; [done|]. split; [lia|]. split; [lia|]. split; [lia|]. apply Hfr; [lia|].
      unfold in_range in Hr. rewrite Forall_forall in Hr. intros Ho%Hr. lia. }
  exists (mk_compose (put U (Z.of_nat (length ns)) p (p_lhs p) t).1 ns'). split; [done|]. split; [done|]. cbn [ct_nodes ct_utf8]. split; [lia|].
  destruct (put _ _ _ _ _) as [U' t']. cbn [fst snd] in *. subst U'. split; unfold num_nodes; cbn [ct_nodes ct_utf8]; try done.
  - rewrite (proj2 (Z.eqb_neq _ _)) by lia. done.
  - rewrite H0. eauto.
  - by apply (rep_in_range ns' 1).
  - apply utf8_at_app; [lia|done].
  - lia.
Qed.

(** ** The map of a table *)

Definition models (T : xkb_compose_table) (t : tst) (m : gmap (list Z) entry) : Prop :=
  table_rep T t ∧ ∀ s, m !! s = find (ct_utf8 T) t s.

(** A sequence that is a prefix of another is not added; one that has
    prefixes in the map replaces them; one that is there is updated. *)
Definition longer (m : gmap (list Z) entry) (seq : list Z) : bool :=
  bool_decide (¬ map_Forall (λ s _, ¬ (seq `prefix_of` s ∧ s ≠ seq)) m).
Definition compose_add (m : gmap (list Z) entry) (p : production) : gmap (list Z) entry :=
  if longer m (p_lhs p) then m
  else <[p_lhs p := updated (m !! p_lhs p) p]> (filter (λ x, ¬ (x.1 `prefix_of` p_lhs p)) m).

Lemma longer_spec m seq : longer m seq = true ↔ ∃ k s, is_Some (m !! (seq ++ k :: s)).
Proof.
  unfold longer. rewrite bool_decide_eq_true. split.
  - intros H. apply map_not_Forall in H as (s & e & He & Hs); [|intros; apply _]. apply dec_stable in Hs as [[s' ->] Hne].
    destruct s' as [|k s']; [by rewrite app_nil_r in Hne|]. by exists k, s'.
  - intros (k & s & [e He]) H. apply (H _ _ He). split; [by eexists|]. intros E. apply (f_equal length) in E. rewrite length_app in E. cbn in E. lia.
Qed.

Lemma longer_below T t m seq : models T t m → seq ≠ [] → longer m seq = below t seq.
Proof.
  intros [HT Hm] Hne. apply eq_true_iff_eq. rewrite longer_spec, (below_spec _ _ _ (tr_ok _ _ HT)) by done.
  split; intros (k & s & H); exists k, s; [rewrite Hm in H; unfold find in H; by apply fmap_is_Some in H|rewrite Hm; by apply fmap_is_Some].
Qed.

Lemma compose_add_lookup m p s :
  longer m (p_lhs p) = false →
  compose_add m p !! s =
    if decide (s = p_lhs p) then Some (updated (m !! p_lhs p) p) else if decide (s `prefix_of` p_lhs p) then None else m !! s.
Proof.
  intros Hl. unfold compose_add. rewrite Hl. destruct (decide (s = p_lhs p)) as [->|Hne]; [by rewrite lookup_insert_eq|].
  rewrite lookup_insert_ne by done. destruct (decide (s `prefix_of` p_lhs p)) as [Hp|Hp].
  - apply map_lookup_filter_None. right. intros e _. cbn. tauto.
  - destruct (m !! s) as [e|] eqn:E; [by apply map_lookup_filter_Some|]. apply map_lookup_filter_None. by left.
Qed.

Lemma add_production_models T t m p :
  models T t m → prod_ok p → room (ct_utf8 T) → num_nodes T + Z.of_nat (length (p_lhs p)) < MAX_COMPOSE_NODES →
  ∃ T' t', add_production T p = Some T' ∧ models T' t' (compose_add m p) ∧
    num_nodes T' <= num_nodes T + Z.of_nat (length (p_lhs p)) ∧
    Z.of_nat (length (ct_utf8 T')) <= Z.of_nat (length (ct_utf8 T)) + Z.of_nat (length (p_string p)) + 1.
Proof.
  intros Hmod Hp Hroom Hmax. pose proof Hmod as [HT Hm]. pose proof (po_lhs _ Hp) as Hne. assert (∃ s, utf8_at (ct_utf8 T) 0 = Some s) as HU by (rewrite (tr_text _ _ HT); eauto).
  destruct (add_production_put T t p HT Hp Hmax) as (T' & E & EU & Hn & HT').
  exists T', (put (ct_utf8 T) (num_nodes T) p (p_lhs p) t).2. split; [done|]. split; [split; [done|]|].
  - intros s. rewrite EU. destruct (below t (p_lhs p)) eqn:Hb.
    + rewrite put_below by done. unfold compose_add. rewrite (longer_below T t m _ Hmod Hne), Hb. apply Hm.
    + rewrite compose_add_lookup by (by rewrite (longer_below T t)). rewrite !Hm. symmetry.
      apply (put_inserted (ct_utf8 T) (num_nodes T) p Hp Hroom HU t (p_lhs p) Hne (tr_ok _ _ HT) Hb s).
  - split; [done|]. rewrite EU. destruct (put_app (ct_utf8 T) (num_nodes T) p (p_lhs p) t Hne (tr_ok _ _ HT)) as (x & -> & Hx).
    rewrite length_app. lia.
Qed.

Lemma models_new : models xkb_compose_table_new TNil ∅.
Proof. split; [apply table_new_rep|]. done. Qed.

Fixpoint add_all (T : xkb_compose_table) (ps : list production) : option xkb_compose_table :=
  match ps with
  | [] => Some T
  | p :: ps => T ← add_production T p; add_all T ps
  end.

(** A production as the parser makes it, and the room it needs. *)
Definition production_ok (p : production) : Prop :=
  p_lhs p ≠ [] ∧ Z.of_nat (length (p_lhs p)) <= MAX_LHS_LEN ∧ p_ok p ∧ Forall (λ c, c ≠ 0) (p_string p) ∧
  Z.of_nat (length (p_string p)) < XKB_COMPOSE_MAX_STRING_SIZE.

Lemma add_all_models ps T t m :
  models T t m → Forall production_ok ps →
  num_nodes T + MAX_LHS_LEN * Z.of_nat (length ps) < MAX_COMPOSE_NODES →
  Z.of_nat (length (ct_utf8 T)) + XKB_COMPOSE_MAX_STRING_SIZE * Z.of_nat (length ps) < 2 ^ 31 →
  ∃ T' t', add_all T ps = Some T' ∧ models T' t' (foldl compose_add m ps).
Proof.
  revert T t m. induction ps as [|p ps IH]; intros T t m Hm Hps Hn Hu; [by exists T, t|].
  apply Forall_cons in Hps as [(Hne & Hl & Hp & Hs & Hsl) Hps]. unfold MAX_LHS_LEN, XKB_COMPOSE_MAX_STRING_SIZE in *. cbn [length add_all foldl] in *.
  destruct (add_production_models T t m p Hm) as (T' & t' & -> & Hm' & Hn' & Hu'); [by split|unfold room; lia|lia|]. cbn [mbind option_bind].
  apply (IH T' t'); [done|done|lia|lia].
Qed.

(** No sequence of the map is a prefix of another. *)
Lemma models_prefix_free T t m s s' : models T t m → is_Some (m !! s) → is_Some (m !! s') → s `prefix_of` s' → s = s'.
Proof.
  intros Hm Hs Hs' [r ->]. destruct r as [|k r]; [by rewrite app_nil_r|]. exfalso.
  assert (s ≠ []) as Hne. { intros ->. destruct Hm as [_ Hm]. rewrite Hm in Hs. unfold find in Hs. rewrite tfind_nil in Hs. by destruct Hs. }
  assert (longer m s = true) as Hl by (apply longer_spec; by exists k, r). rewrite (longer_below T t m s Hm Hne) in Hl.
  destruct Hm as [_ Hm]. rewrite Hm in Hs. apply fmap_is_Some in Hs. by rewrite (find_not_below t s Hs) in Hl.
Qed.

(** A later line without a keysym keeps the keysym of the earlier one. *)
Lemma override_keeps_keysym :
  compose_add (compose_add ∅ (mk_production [0x61] 0x62 [0x78] true true 0 0)) (mk_production [0x61] 0 [0x79] false true 0 0) !! [0x61] =
    Some (Some [0x79], 0x62).
Proof. vm_compute. reflexivity. Qed.

(** ** The theorems *)

(** C7: adding any productions one after the other, as the parser does, is
    defined and gives a table that is the map the specification builds:
    longest sequences win over their prefixes and later lines over earlier
    ones; no sequence of the table is a prefix of another. *)
Theorem compose_table_refines ps :
  Forall production_ok ps → Z.of_nat (length ps) <= 2 ^ 19 →
  ∃ T t m, add_all xkb_compose_table_new ps = Some T ∧ models T t m ∧ m = foldl compose_add ∅ ps ∧
    ∀ s s', is_Some (m !! s) → is_Some (m !! s') → s `prefix_of` s' → s = s'.
Proof.
  intros Hps Hn. destruct (add_all_models ps xkb_compose_table_new TNil ∅ models_new Hps) as (T & t & E & Hm);
    [change (num_nodes xkb_compose_table_new) with 1; unfold MAX_LHS_LEN, MAX_COMPOSE_NODES; lia|
     change (Z.of_nat (length (ct_utf8 xkb_compose_table_new))) with 1; unfold XKB_COMPOSE_MAX_STRING_SIZE; lia|].
  exists T, t, (foldl compose_add ∅ ps). split; [done|]. split; [done|]. split; [done|]. intros s s'. by apply (models_prefix_free T t).
Qed.

(** Three lines; the third makes the first a prefix of a longer sequence. *)
Definition demo_productions : list production :=
  [mk_production [0x62; 0x63] 0 [0x78] false true 0 0; mk_production [0x61] 0xfe50 [] true false 0 0;
   mk_production [0x62; 0x63; 0x64] 0xfe51 [0x79] true true 0 0].

Lemma demo_productions_ok : Forall production_ok demo_productions.
Proof. unfold production_ok, p_ok. apply (bool_decide_unpack _). vm_compute. exact I. Qed.

Lemma compose_table_refines_witness :
  ∃ T t m, add_all xkb_compose_table_new demo_productions = Some T ∧ models T t m ∧ m = foldl compose_add ∅ demo_productions ∧
    ∀ s s', is_Some (m !! s) → is_Some (m !! s') → s `prefix_of` s' → s = s'.
Proof. apply (compose_table_refines demo_productions); [exact demo_productions_ok|cbn; lia]. Defined.
