(* ===== verification/XkbComposeRun.v ===== *)
(** * Composing

    What the users of a compose table see: a state that is fed keysyms follows
    the sequences of the map of the table (state.c of
    libxkbcommon/build/src/compose), and the iterator of table.c lists that map
    in order. *)
From S2P Require Import Prelude XkbUtf8 XkbKeysym XkbKeysymUtf XkbCompose XkbComposeTree XkbComposeSpec.

Open Scope Z_scope.

(** ** Positions in a tree *)

Fixpoint locate (t : tst) (seq : list Z) : option tst :=
  match t, seq with
  | TNil, _ | _, [] => None
  | TLeaf _ ks lo hi _ _, k :: rest =>
      if k <? ks then locate lo seq else if ks <? k then locate hi seq else match rest with [] => Some t | _ => None end
  | TInner _ ks lo eq hi, k :: rest =>
      if k <? ks then locate lo seq else if ks <? k then locate hi seq
      else match rest with [] => Some t | _ => locate eq rest end
  end.

Definition root (t : tst) : Z := match t with TNil => 0 | TLeaf p _ _ _ _ _ | TInner p _ _ _ _ => p end.
Definition root_of (o : option tst) : Z := default 0 (root <$> o).

Lemma locate_find t seq : match locate t seq with
  | Some (TLeaf _ _ _ _ u sym) => tfind t seq = Some (u, sym) ∧ below t seq = false
  | Some (TInner _ _ _ _ _) => tfind t seq = None ∧ below t seq = true
  | _ => tfind t seq = None ∧ below t seq = false
  end.
Proof.
  revert seq. induction t as [|q ks lo IHlo hi IHhi u sym|q ks lo IHlo eq IHeq hi IHhi]; intros [|k seq]; try done; cbn.
  - destruct (k <? ks); [apply (IHlo (k :: seq))|]. destruct (ks <? k); [apply (IHhi (k :: seq))|]. by destruct seq.
  - destruct (k <? ks); [apply (IHlo (k :: seq))|]. destruct (ks <? k); [apply (IHhi (k :: seq))|].
    destruct seq as [|k2 seq]; [by rewrite tfind_nil|apply IHeq].
Qed.

Lemma locate_rep ns q t seq s : rep ns q t → locate t seq = Some s → rep ns (root s) s ∧ s ≠ TNil.
Proof.
  revert q seq. induction t as [|p ks lo IHlo hi IHhi u sym|p ks lo IHlo eq IHeq hi IHhi]; intros q [|k seq] Hr H; try done.
  - pose proof Hr as (-> & _ & n & _ & _ & _ & _ & _ & Hlo & Hhi). cbn in H. case_step_in H; [by eapply IHlo|]. case_step_in H; [by eapply IHhi|].
    destruct seq; [|done]. injection H as <-. done.
  - pose proof Hr as (-> & _ & n & _ & _ & _ & Hlo & Heq & Hhi). cbn in H. case_step_in H; [by eapply IHlo|]. case_step_in H; [by eapply IHhi|].
    destruct seq; [injection H as <-; done|by eapply IHeq].
Qed.

(** One more keysym. *)
Lemma locate_app t pre k : pre ≠ [] → locate t (pre ++ [k]) = match locate t pre with Some (TInner _ _ _ eq _) => locate eq [k] | _ => None end.
Proof.
  revert pre. induction t as [|p ks lo IHlo hi IHhi u sym|p ks lo IHlo eq IHeq hi IHhi]; intros [|a pre] Hne; try done; cbn.
  - destruct (a <? ks); [apply (IHlo (a :: pre)); done|]. destruct (ks <? a); [apply (IHhi (a :: pre)); done|]. by destruct pre.
  - destruct (a <? ks); [apply (IHlo (a :: pre)); done|]. destruct (ks <? a); [apply (IHhi (a :: pre)); done|]. destruct pre as [|b pre]; [done|by apply IHeq].
Qed.

(** ** Feeding a keysym *)

Lemma feed_loop_locate ns k fuel q t :
  rep ns q t → (length (offsets t) <= fuel)%nat → feed_loop fuel ns k q = Some (root_of (locate t [k])).
Proof.
  revert fuel q. induction t as [|p ks lo IHlo hi IHhi u sym|p ks lo IHlo eq IHeq hi IHhi]; intros fuel q Hr Hf.
  - rewrite Hr. by destruct fuel.
  - destruct Hr as (-> & Hp & n & Hn & <- & _ & _ & _ & Hlo & Hhi). destruct fuel as [|fuel]; [cbn in Hf; lia|]. cbn in Hf. rewrite length_app in Hf.
    cbn [feed_loop]. rewrite (proj2 (Z.eqb_neq _ _)), Hn by lia. cbn [mbind option_bind locate].
    case_step; [apply IHlo; [done|lia]|]. case_step; [apply IHhi; [done|lia]|]. done.
  - destruct Hr as (-> & Hp & n & Hn & <- & _ & Hlo & Heq & Hhi). destruct fuel as [|fuel]; [cbn in Hf; lia|]. cbn in Hf. rewrite !length_app in Hf.
    cbn [feed_loop]. rewrite (proj2 (Z.eqb_neq _ _)), Hn by lia. cbn [mbind option_bind locate].
    case_step; [apply IHlo; [done|lia]|]. case_step; [apply IHhi; [done|lia]|]. done.
Qed.

(** The position [c] of a state stands for the keysyms [pre] of a sequence. *)
Definition at_pos (t : tst) (c : Z) (pre : list Z) : Prop :=
  pre = [] ∧ c = 0 ∨ pre ≠ [] ∧ ∃ s, locate t pre = Some s ∧ c = root s.

(** What the node of a position is. *)
Lemma at_pos_node T t m c pre :
  models T t m → at_pos t c pre →
  ∃ n, node_at (ct_nodes T) c = Some n ∧ (c = 0 ↔ pre = []) ∧
    match pre with
    | [] => n_is_leaf n = true ∧ n_utf8 n = 0 ∧ n_word n = 0
    | _ =>
        match m !! pre with
        | Some e => n_is_leaf n = true ∧ e = entry_of (ct_utf8 T) (n_utf8 n, n_word n) ∧ is_Some (utf8_at (ct_utf8 T) (n_utf8 n))
        | None => n_is_leaf n = false ∧ longer m pre = true
        end
    end.
Proof.
  intros [HT Hm] [[-> ->]|(Hne & s & Hs & ->)].
  - destruct (tr_zero _ _ HT) as (d & Hd & ?). by exists d.
  - pose proof (tr_root _ _ HT) as Hroot. case_step_in Hroot; [by subst t|]. destruct Hroot as [Htn Hrep].
    destruct (locate_rep _ _ _ _ _ Hrep Hs) as [Hr Hsn]. pose proof (locate_find t pre) as Hf. rewrite Hs in Hf.
    assert (longer m pre = below t pre) as Hl by (by apply (longer_below T t)). rewrite Hm. unfold find.
    destruct s as [|p ks lo hi u sym|p ks lo eq hi]; [done| |]; destruct Hf as [Hf Hb].
    + destruct Hr as (_ & Hp & n & Hn & _ & Hleaf & Hu & Hw & _). exists n. split; [done|]. cbn [root]. split; [split; [lia|done]|]. rewrite Hf. cbn.
      rewrite <- Hu, <- Hw. destruct pre; [done|]. split; [done|]. split; [done|]. rewrite Hu. by eapply tfind_text; [apply (tr_ok _ _ HT)|].
    + destruct Hr as (_ & Hp & n & Hn & _ & Hleaf & _). exists n. split; [done|]. cbn [root]. split; [split; [lia|done]|]. rewrite Hf. cbn.
      destruct pre; [done|]. split; [done|]. by rewrite Hl, Hb.
Qed.

Lemma locate_size t seq s : locate t seq = Some s → (length (offsets s) <= length (offsets t))%nat.
Proof.
  revert seq. induction t as [|p ks lo IHlo hi IHhi u sym|p ks lo IHlo eq IHeq hi IHhi]; intros [|k seq] H; try done; cbn in H.
  - case_step_in H; [specialize (IHlo _ H); cbn; rewrite length_app; lia|]. case_step_in H; [specialize (IHhi _ H); cbn; rewrite length_app; lia|].
    destruct seq; [|done]. by injection H as <-.
  - case_step_in H; [specialize (IHlo _ H); cbn; rewrite !length_app; lia|]. case_step_in H; [specialize (IHhi _ H); cbn; rewrite !length_app; lia|].
    destruct seq; [by injection H as <-|]. specialize (IHeq _ H). cbn. rewrite !length_app. lia.
Qed.

(** ** The specification *)

(** The keysyms of the sequence so far and the status. *)
Definition base (m : gmap (list Z) entry) (pre : list Z) : list Z := if m !! pre then [] else pre.
Definition compose_step (m : gmap (list Z) entry) (pre : list Z) (k : Z) : list Z * xkb_compose_status :=
  let seq := base m pre ++ [k] in
  if m !! seq then (seq, XKB_COMPOSE_COMPOSED)
  else if longer m seq then (seq, XKB_COMPOSE_COMPOSING)
  else ([], match base m pre with [] => XKB_COMPOSE_NOTHING | _ => XKB_COMPOSE_CANCELLED end).

Lemma at_pos_next T t m c pre k :
  models T t m → at_pos t c pre → at_pos t (root_of (locate t (base m pre ++ [k]))) (compose_step m pre k).1.
Proof.
  intros Hm Hat. unfold compose_step. set (seq := base m pre ++ [k]). assert (seq ≠ []) as Hne by (unfold seq; by destruct (base m pre)).
  pose proof (locate_find t seq) as Hf. assert (m !! seq = find (ct_utf8 T) t seq) as -> by apply Hm. rewrite (longer_below T t m seq Hm Hne). unfold find.
  destruct (locate t seq) as [[|p ks lo hi u sym|p ks lo eq hi]|] eqn:E; destruct Hf as [-> ->]; cbn; [by left|right; eauto|right; eauto|by left].
Qed.

Lemma feed_context T t m c pre k prev :
  models T t m → at_pos t c pre → xkb_keysym_is_modifier k = false →
  xkb_compose_state_feed T (mk_cstate prev c) k = Some (XKB_COMPOSE_FEED_ACCEPTED, mk_cstate c (root_of (locate t (base m pre ++ [k])))).
Proof.
  intros Hm Hat Hk. unfold xkb_compose_state_feed. rewrite Hk. cbn [cs_context]. destruct (at_pos_node T t m c pre Hm Hat) as (n & En & _ & Hn). rewrite En.
  cbn [mbind option_bind]. pose proof Hm as [HT Hmm]. pose proof (offsets_length _ _ (tr_range _ _ HT) (tr_nodup _ _ HT)) as Hfuel. pose proof (tr_root _ _ HT) as Hroot.
  assert (n_is_leaf n = true → base m pre = []) as Hbase1.
  { intros Hl. unfold base. destruct pre as [|a pre]; [by case_step|]. destruct (m !! (a :: pre)); [done|]. destruct Hn. congruence. }
  destruct (n_is_leaf n) eqn:Hleaf.
  - rewrite Hbase1 by done. cbn [app]. case_step_in Hroot.
    + subst t. rewrite (proj2 (Z.eqb_eq 1 1)) by done. cbn [andb]. by destruct (length (ct_nodes T)).
    + rewrite andb_false_r. destruct Hroot as [_ Hrep]. by rewrite (feed_loop_locate _ _ _ _ t).
  - destruct Hat as [[-> ->]|(Hne & s & Hs & ->)]; [by destruct Hn|]. destruct pre as [|a pre]; [done|].
    case_step_in Hroot; [by subst t|]. destruct Hroot as [_ Hrep].
    unfold base. destruct (m !! (a :: pre)) as [e|] eqn:Em; [by destruct Hn|].
    destruct (locate_rep _ _ _ _ _ Hrep Hs) as [Hr Hsn]. pose proof (locate_size _ _ _ Hs).
    rewrite locate_app, Hs by done. rewrite andb_false_r.
    destruct s as [|p ks lo hi u sym|p ks lo eq hi]; [done| |]; destruct Hr as (_ & Hp & n' & En' & _ & Hleaf' & Hr); cbn [root] in En; [congruence|].
    cbn [root] in *. assert (n' = n) as -> by congruence. destruct Hr as (_ & Heq & _). cbn [offsets length] in *. rewrite !length_app in *.
    rewrite (feed_loop_locate _ _ _ _ eq) by (done || lia). done.
Qed.

Lemma feed_status T t m c pre k :
  models T t m → at_pos t c pre →
  xkb_compose_state_get_status T (mk_cstate c (root_of (locate t (base m pre ++ [k])))) = Some (compose_step m pre k).2.
Proof.
  intros Hm Hat. pose proof (at_pos_next T t m c pre k Hm Hat) as Hat'.
  destruct (at_pos_node T t m c pre Hm Hat) as (n & En & _ & Hn). destruct (at_pos_node T t m _ _ Hm Hat') as (n' & En' & Hz & Hn').
  unfold xkb_compose_state_get_status. cbn [cs_context cs_prev_context]. rewrite En, En'. cbn [mbind option_bind]. f_equal.
  unfold compose_step in *. set (seq := base m pre ++ [k]) in *. assert (seq ≠ []) as Hne by (unfold seq; by destruct (base m pre)).
  destruct (m !! seq) as [e|] eqn:Em; [|destruct (longer m seq) eqn:El]; cbn [fst snd] in *.
  - rewrite (proj2 (Z.eqb_neq _ 0)) by (intros E%Hz; done). cbn [andb]. destruct seq; [done|]. rewrite Em in Hn'. by destruct Hn' as (-> & _).
  - rewrite (proj2 (Z.eqb_neq _ 0)) by (intros E%Hz; done). cbn [andb]. destruct seq; [done|]. rewrite Em in Hn'. by destruct Hn' as (-> & _).
  - rewrite (proj2 (Z.eqb_eq _ 0)) by (by apply Hz). cbn [andb]. unfold base in *. destruct pre as [|a pre].
    + destruct Hn as (-> & _). cbn. by destruct (m !! []).
    + destruct (m !! (a :: pre)); [by destruct Hn as (-> & _)|by destruct Hn as (-> & _)].
Qed.

(** The result that a position offers. *)
Definition keysym_text (sym : Z) : list Z :=
  match xkb_keysym_to_utf32 sym with Some cp => if cp =? 0 then [] else encode cp | None => [] end.
Definition result_text (o : option entry) : list Z :=
  match o with Some (Some s, _) => s | Some (None, sym) => keysym_text sym | None => [] end.
Definition result_keysym (o : option entry) : Z := match o with Some (_, sym) => sym | None => XKB_KEY_NoSymbol end.

Lemma encode_nonzero cp : scalar cp → cp ≠ 0 → Forall (λ c, c ≠ 0) (encode cp).
Proof. intros [? _] Hne. unfold encode. repeat case_step; zbool; repeat constructor; mlia. Qed.

Lemma keysym_utf8_text sym :
  0 <= sym →
  ∃ ret utf8, xkb_keysym_to_utf8 sym 7 = Some (ret, utf8) ∧
    (if ret <=? 0 then Some [] else c_string utf8) = Some (keysym_text sym).
Proof.
  intros Hs. destruct (to_utf32_scalar sym Hs) as (cp & E & Hcp). unfold xkb_keysym_to_utf8, keysym_text, NO_KEYSYM_UNICODE_CONVERSION. rewrite E.
  change (7 <? 7) with false. cbn [mbind option_bind]. case_step; [by eexists _, _|]. zbool.
  rewrite utf32_to_utf8_spec by (destruct Hcp; lia). rewrite decide_True by done. eexists _, _. split; [done|].
  rewrite (proj2 (Z.leb_gt _ _)) by (pose proof (encode_length cp); lia). apply c_string_text, encode_nonzero; [done|lia].
Qed.

Lemma get_result T t m c pre prev :
  models T t m → at_pos t c pre → m !! [] = None → (∀ s e, m !! s = Some e → 0 <= e.2) →
  xkb_compose_state_get_one_sym T (mk_cstate prev c) = Some (result_keysym (m !! pre)) ∧
  ∀ size, xkb_compose_state_get_utf8 T (mk_cstate prev c) size = Some (snprintf size (result_text (m !! pre))).
Proof.
  intros Hm Hat Hnil Hsyms. unfold xkb_compose_state_get_one_sym, xkb_compose_state_get_utf8. cbn [cs_context].
  assert (∀ size, (0, if 0 <? size then [0] else []) = snprintf size []) as Hfail.
  { intros size. unfold snprintf. destruct (Z.ltb_spec 0 size), (Z.leb_spec size 0); try lia; by rewrite ?take_nil. }
  destruct (at_pos_node T t m c pre Hm Hat) as (n & -> & _ & Hn). cbn [mbind option_bind].
  destruct pre as [|a pre].
  - destruct Hn as (-> & Hu & Hw). rewrite Hnil, Hu, Hw. cbn [negb]. split; [done|]. intros size. cbn [andb Z.eqb negb].
    rewrite (tr_text _ _ (proj1 Hm)). done.
  - destruct (m !! (a :: pre)) as [e|] eqn:Em; [|destruct Hn as (-> & _); split; [done|]; intros size; by rewrite Hfail].
    destruct Hn as (-> & -> & [s Hs]). specialize (Hsyms _ _ Em). cbn [snd] in Hsyms. cbn [negb]. split; [done|]. intros size.
    unfold entry_of. cbn [fst snd]. destruct (Z.eqb_spec (n_utf8 n) 0) as [H0|H0]; cbn [andb].
    + destruct (Z.eqb_spec (n_word n) XKB_KEY_NoSymbol) as [H1|H1]; cbn [negb result_text].
      * rewrite H0, H1, (tr_text _ _ (proj1 Hm)). done.
      * destruct (keysym_utf8_text (n_word n) Hsyms) as (ret & utf8 & -> & E). cbn [mbind option_bind].
        destruct (ret <=? 0); [injection E as <-; by rewrite Hfail|]. by rewrite E.
    + unfold text_of. by rewrite Hs.
Qed.

(** ** The theorems *)

Fixpoint feed_all (T : xkb_compose_table) (s : xkb_compose_state) (ks : list Z) : option xkb_compose_state :=
  match ks with
  | [] => Some s
  | k :: ks => '(_, s) ← xkb_compose_state_feed T s k; feed_all T s ks
  end.
(** Modifiers are passed over. *)
Definition compose_run (m : gmap (list Z) entry) (ks : list Z) : list Z * xkb_compose_status :=
  foldl (λ r k, if xkb_keysym_is_modifier k then r else compose_step m r.1 k) ([], XKB_COMPOSE_NOTHING) ks.

Lemma feed_all_run T t m ks : ∀ r prev c,
  models T t m → at_pos t c r.1 → xkb_compose_state_get_status T (mk_cstate prev c) = Some r.2 →
  ∃ s, feed_all T (mk_cstate prev c) ks = Some s ∧
    let r' := foldl (λ r k, if xkb_keysym_is_modifier k then r else compose_step m r.1 k) r ks in
    at_pos t (cs_context s) r'.1 ∧ xkb_compose_state_get_status T s = Some r'.2.
Proof.
  induction ks as [|k ks IH]; intros r prev c Hm Hat Hst; [by eexists|]. cbn [feed_all foldl].
  destruct (xkb_keysym_is_modifier k) eqn:Hk.
  - unfold xkb_compose_state_feed. rewrite Hk. cbn [mbind option_bind]. by apply IH.
  - rewrite (feed_context T t m c r.1 k prev Hm Hat Hk). cbn [mbind option_bind]. apply IH; [done|by apply (at_pos_next T t m c)|by apply feed_status].
Qed.

(** C15: a state fed any keysyms is always defined and composes as the map of
    its table says: the status tells whether the keysyms since the last
    sequence complete one, start one, or break one off, and the keysym and the
    text are those of the completed sequence; modifiers do not count. *)
Theorem compose_follows_map T t m ks :
  models T t m → (∀ s e, m !! s = Some e → 0 <= e.2) →
  ∃ s, feed_all T xkb_compose_state_new ks = Some s ∧
    xkb_compose_state_get_status T s = Some (compose_run m ks).2 ∧
    xkb_compose_state_get_one_sym T s = Some (result_keysym (m !! (compose_run m ks).1)) ∧
    ∀ size, xkb_compose_state_get_utf8 T s size = Some (snprintf size (result_text (m !! (compose_run m ks).1))).
Proof.
  intros Hm Hsyms. destruct (feed_all_run T t m ks ([], XKB_COMPOSE_NOTHING) 0 0 Hm) as (s & E & Hat & Hst); [by left| |].
  { unfold xkb_compose_state_get_status. cbn [cs_context cs_prev_context]. destruct (tr_zero _ _ (proj1 Hm)) as (d & -> & Hd & _). cbn. by rewrite Hd. }
  exists s. split; [exact E|]. split; [exact Hst|]. destruct s as [prev c].
  apply (get_result T t m c (compose_run m ks).1 prev Hm Hat); [|done]. destruct Hm as [_ Hm]. rewrite Hm. unfold find. by rewrite tfind_nil.
Qed.

(** A table from three lines, fed a sequence with Shift in the middle. *)
Definition demo_map : gmap (list Z) entry := foldl compose_add ∅ demo_productions.

Lemma demo_map_syms s e : demo_map !! s = Some e → 0 <= e.2.
Proof.
  intros H. apply elem_of_map_to_list in H. assert (Forall (λ x, 0 <= x.2.2) (map_to_list demo_map)) as Ha.
  { apply (bool_decide_unpack _). vm_compute. exact I. }
  rewrite Forall_forall in Ha. apply (Ha _ H).
Qed.

Lemma compose_follows_map_witness :
  ∃ T t, models T t demo_map ∧ ∃ s, feed_all T xkb_compose_state_new [0x62; 0xffe1; 0x63; 0x64] = Some s ∧
    xkb_compose_state_get_status T s = Some XKB_COMPOSE_COMPOSED ∧ xkb_compose_state_get_one_sym T s = Some 0xfe51 ∧
    xkb_compose_state_get_utf8 T s 8 = Some (1, [0x79; 0]).
Proof.
  destruct (add_all_models demo_productions xkb_compose_table_new TNil ∅ models_new demo_productions_ok) as (T & t & E & Hm); [done..|].
  exists T, t. split; [exact Hm|]. destruct (compose_follows_map T t demo_map [0x62; 0xffe1; 0x63; 0x64] Hm demo_map_syms) as (s & E1 & E2 & E3 & E4).
  exists s. split; [exact E1|]. split; [rewrite E2; vm_compute; reflexivity|]. split; [rewrite E3; vm_compute; reflexivity|].
  rewrite E4. vm_compute. reflexivity.
Defined.
