(* ===== verification/XkbComposeList.v ===== *)
(** * Listing a compose table

    The iterator of libxkbcommon/build/src/compose/table.c lists the sequences
    of a table in lexicographic order, each once, with their results. *)
From stdpp Require Import sorting.
From S2P Require Import Prelude XkbKeysym XkbCompose XkbComposeTree XkbComposeSpec.

Open Scope Z_scope.

(** ** The sequences of a tree in order *)

Definition under (k : Z) (x : list Z * (Z * Z)) : list Z * (Z * Z) := (k :: x.1, x.2).

Fixpoint listing (t : tst) : list (list Z * (Z * Z)) :=
  match t with
  | TNil => []
  | TLeaf _ ks lo hi u sym => listing lo ++ ([ks], (u, sym)) :: listing hi
  | TInner _ ks lo eq hi => listing lo ++ (under ks <$> listing eq) ++ listing hi
  end.

Fixpoint depth (t : tst) : nat :=
  match t with
  | TNil => 0
  | TLeaf _ _ lo hi _ _ => depth lo `max` 1 `max` depth hi
  | TInner _ _ lo eq hi => depth lo `max` S (depth eq) `max` depth hi
  end.

(** ** The turns of the iterator *)

Definition out (it : xkb_compose_table_iterator) : list Z * (Z * Z) := (entry_sequence it, (it_entry_utf8 it, it_entry_keysym it)).

(** [n] turns that complete the entries [l]. *)
Inductive emits (T : xkb_compose_table) : nat → xkb_compose_table_iterator → list (list Z * (Z * Z)) → xkb_compose_table_iterator → Prop :=
  | emits_end it : emits T 0 it [] it
  | emits_turn n it l it' off dir cs it1 :
      it_cursors it = (off, dir) :: cs → iterator_turn T off dir cs it = Some (false, it1) →
      emits T n it1 l it' → emits T (S n) it l it'
  | emits_entry n it l it' off dir cs it1 :
      it_cursors it = (off, dir) :: cs → iterator_turn T off dir cs it = Some (true, it1) →
      emits T n it1 l it' → emits T (S n) it (out it1 :: l) it'.

Lemma emits_app T n1 n2 it l1 it1 l2 it2 : emits T n1 it l1 it1 → emits T n2 it1 l2 it2 → emits T (n1 + n2) it (l1 ++ l2) it2.
Proof.
  intros H. revert n2 l2 it2. induction H; intros n2 l2 it2 H2; [done| |]; cbn; [by eapply emits_turn; eauto|by eapply emits_entry; eauto].
Qed.

(** The iterator has the sequence [pre] and the cursors [cs]. *)
Definition ready (it : xkb_compose_table_iterator) (pre : list Z) (cs : list (Z * node_direction)) : Prop :=
  it_cursors it = cs ∧ it_length it = Z.of_nat (length pre) ∧ length (it_sequence it) = 10%nat ∧ entry_sequence it = pre.

Lemma ready_left T it pre cs off n :
  ready it pre ((off, NODE_LEFT) :: cs) → node_at (ct_nodes T) off = Some n →
  ∃ it1, iterator_turn T off NODE_LEFT cs it = Some (false, it1) ∧ ready it1 pre (push_if (n_lokid n) ((off, NODE_DOWN) :: cs)).
Proof. intros (Hc & Hl & Hs & He) Hn. unfold iterator_turn. rewrite Hn. cbn. by eexists. Qed.

Lemma ready_right T it pre k cs off n :
  ready it (pre ++ [k]) ((off, NODE_RIGHT) :: cs) → node_at (ct_nodes T) off = Some n →
  ∃ it1, iterator_turn T off NODE_RIGHT cs it = Some (false, it1) ∧ ready it1 pre (push_if (n_hikid n) ((off, NODE_UP) :: cs)).
Proof.
  intros (Hc & Hl & Hs & He) Hn. unfold iterator_turn. rewrite Hn. cbn. eexists. split; [done|]. rewrite length_app in Hl. cbn in Hl.
  split; [done|]. cbn. split; [lia|]. split; [done|]. unfold entry_sequence in *. cbn. rewrite Hl in *.
  replace (Z.to_nat (Z.of_nat (length pre + 1))) with (length pre + 1)%nat in He by lia.
  replace (Z.to_nat (Z.of_nat (length pre + 1) - 1)) with (length pre) by lia.
  transitivity (take (length pre) (take (length pre + 1) (it_sequence it))); [rewrite take_take; f_equal; lia|]. by rewrite He, take_app_length.
Qed.

Lemma ready_up T it pre cs off n :
  ready it pre ((off, NODE_UP) :: cs) → node_at (ct_nodes T) off = Some n →
  ∃ it1, iterator_turn T off NODE_UP cs it = Some (false, it1) ∧ ready it1 pre cs.
Proof. intros (Hc & Hl & Hs & He) Hn. unfold iterator_turn. rewrite Hn. cbn. by eexists. Qed.

Lemma down_sequence it pre k :
  it_length it = Z.of_nat (length pre) → length (it_sequence it) = 10%nat → entry_sequence it = pre → (length pre < 10)%nat →
  take (Z.to_nat (it_length it + 1)) (<[Z.to_nat (it_length it) := k]> (it_sequence it)) = pre ++ [k].
Proof.
  intros Hl Hs He Hlt. unfold entry_sequence in He. rewrite Hl in *. rewrite Nat2Z.id in *.
  replace (Z.to_nat (Z.of_nat (length pre) + 1)) with (S (length pre)) by lia.
  rewrite (take_S_r _ _ k) by (apply list_lookup_insert_eq; lia). rewrite take_insert_ge by lia. by rewrite He.
Qed.

Lemma ready_down T it pre cs off n :
  ready it pre ((off, NODE_DOWN) :: cs) → node_at (ct_nodes T) off = Some n → (length pre < 10)%nat →
  ∃ it1, iterator_turn T off NODE_DOWN cs it = Some (n_is_leaf n, it1) ∧
    ready it1 (pre ++ [n_keysym n]) (if n_is_leaf n then (off, NODE_RIGHT) :: cs else (n_word n, NODE_LEFT) :: (off, NODE_RIGHT) :: cs) ∧
    (n_is_leaf n = true → out it1 = (pre ++ [n_keysym n], (n_utf8 n, n_word n))).
Proof.
  intros (Hc & Hl & Hs & He) Hn Hlt. unfold iterator_turn. rewrite Hn. cbn [mbind option_bind]. unfold MAX_LHS_LEN.
  rewrite (proj2 (Z.ltb_ge _ _)), (proj2 (Z.leb_gt _ _)) by lia. pose proof (down_sequence it pre (n_keysym n) Hl Hs He Hlt) as Hd.
  destruct (n_is_leaf n); (eexists; split; [done|]; split; [split_and!; cbn; try done; [rewrite length_app; cbn; lia|by rewrite length_insert]|]).
  - intros _. unfold out, entry_sequence. cbn. by rewrite Hd.
  - done.
Qed.

Lemma emits_one T it it1 off dir cs : it_cursors it = (off, dir) :: cs → iterator_turn T off dir cs it = Some (false, it1) → emits T 1 it [] it1.
Proof. intros Hc Ht. eapply emits_turn; [done|done|constructor]. Qed.
Lemma emits_one_entry T it it1 off dir cs : it_cursors it = (off, dir) :: cs → iterator_turn T off dir cs it = Some (true, it1) → emits T 1 it [out it1] it1.
Proof. intros Hc Ht. eapply emits_entry; [done|done|constructor]. Qed.

Definition at_pre (pre : list Z) (x : list Z * (Z * Z)) : list Z * (Z * Z) := (pre ++ x.1, x.2).

Lemma at_pre_under pre k (l : list (list Z * (Z * Z))) : at_pre pre <$> (under k <$> l) = at_pre (pre ++ [k]) <$> l.
Proof. rewrite <- list_fmap_compose. apply list_fmap_ext. intros _ [s e] _. unfold at_pre, under. cbn. by rewrite <- app_assoc. Qed.

(** Running through a tree. *)
Definition runs (T : xkb_compose_table) (t : tst) : Prop := ∀ q pre it cs,
  rep (ct_nodes T) q t → (length pre + depth t <= 10)%nat → ready it pre (push_if q cs) →
  ∃ it', emits T (4 * length (offsets t)) it (at_pre pre <$> listing t) it' ∧ ready it' pre cs.

Lemma push_if_pos p cs : 0 < p → push_if p cs = (p, NODE_LEFT) :: cs.
Proof. intros Hp. unfold push_if. by rewrite (proj2 (Z.eqb_neq _ _)) by lia. Qed.

Lemma runs_leaf T p ks lo hi u sym : runs T lo → runs T hi → runs T (TLeaf p ks lo hi u sym).
Proof.
  intros Rlo Rhi q pre it cs (-> & Hp & n & Hn & <- & Hleaf & <- & <- & Hlo & Hhi) Hd H0. rewrite push_if_pos in H0 by done. cbn [depth] in Hd.
  destruct (ready_left _ _ _ _ _ _ H0 Hn) as (it1 & E1 & H1). pose proof (emits_one _ _ _ _ _ _ (proj1 H0) E1) as S1.
  destruct (Rlo _ pre _ _ Hlo ltac:(lia) H1) as (it2 & S2 & H2).
  destruct (ready_down _ _ pre _ _ _ H2 Hn ltac:(lia)) as (it3 & E3 & H3 & Ho). rewrite Hleaf in *.
  pose proof (emits_one_entry _ _ _ _ _ _ (proj1 H2) E3) as S3. rewrite (Ho eq_refl) in S3.
  destruct (ready_right _ _ _ _ _ _ _ H3 Hn) as (it4 & E4 & H4). pose proof (emits_one _ _ _ _ _ _ (proj1 H3) E4) as S4.
  destruct (Rhi _ pre _ _ Hhi ltac:(lia) H4) as (it5 & S5 & H5).
  destruct (ready_up _ _ _ _ _ _ H5 Hn) as (it6 & E6 & H6). pose proof (emits_one _ _ _ _ _ _ (proj1 H5) E6) as S6.
  exists it6. split; [|done].
  pose proof (emits_app _ _ _ _ _ _ _ _ S1 (emits_app _ _ _ _ _ _ _ _ S2 (emits_app _ _ _ _ _ _ _ _ S3 (emits_app _ _ _ _ _ _ _ _ S4 (emits_app _ _ _ _ _ _ _ _ S5 S6))))) as Sall.
  cbn [offsets listing length]. rewrite length_app, fmap_app. cbn [fmap list_fmap]. rewrite app_nil_r in Sall.
  replace (4 * S (length (offsets lo) + length (offsets hi)))%nat with (1 + (4 * length (offsets lo) + (1 + (1 + (4 * length (offsets hi) + 1)))))%nat by lia.
  exact Sall.
Qed.

Lemma runs_inner T p ks lo eq hi : eq ≠ TNil → runs T lo → runs T eq → runs T hi → runs T (TInner p ks lo eq hi).
Proof.
  intros Hne Rlo Req Rhi q pre it cs (-> & Hp & n & Hn & <- & Hleaf & Hlo & Heq & Hhi) Hd H0. rewrite push_if_pos in H0 by done. cbn [depth] in Hd.
  destruct (ready_left _ _ _ _ _ _ H0 Hn) as (it1 & E1 & H1). pose proof (emits_one _ _ _ _ _ _ (proj1 H0) E1) as S1.
  destruct (Rlo _ pre _ _ Hlo ltac:(lia) H1) as (it2 & S2 & H2).
  destruct (ready_down _ _ pre _ _ _ H2 Hn ltac:(lia)) as (it3 & E3 & H3 & _). rewrite Hleaf in *. pose proof (emits_one _ _ _ _ _ _ (proj1 H2) E3) as S3.
  assert (0 < n_word n) as Hw by (destruct eq; [done|by destruct Heq as (-> & ? & _)|by destruct Heq as (-> & ? & _)]).
  rewrite <- push_if_pos in H3 by done. destruct (Req _ (pre ++ [n_keysym n]) _ _ Heq ltac:(rewrite length_app; cbn; lia) H3) as (it4 & S4 & H4).
  destruct (ready_right _ _ _ _ _ _ _ H4 Hn) as (it5 & E5 & H5). pose proof (emits_one _ _ _ _ _ _ (proj1 H4) E5) as S5.
  destruct (Rhi _ pre _ _ Hhi ltac:(lia) H5) as (it6 & S6 & H6).
  destruct (ready_up _ _ _ _ _ _ H6 Hn) as (it7 & E7 & H7). pose proof (emits_one _ _ _ _ _ _ (proj1 H6) E7) as S7.
  exists it7. split; [|done].
  pose proof (emits_app _ _ _ _ _ _ _ _ S1 (emits_app _ _ _ _ _ _ _ _ S2 (emits_app _ _ _ _ _ _ _ _ S3 (emits_app _ _ _ _ _ _ _ _ S4
    (emits_app _ _ _ _ _ _ _ _ S5 (emits_app _ _ _ _ _ _ _ _ S6 S7)))))) as Sall.
  cbn [offsets listing length]. rewrite !length_app, !fmap_app, at_pre_under. rewrite app_nil_r in Sall.
  replace (4 * S (length (offsets lo) + (length (offsets eq) + length (offsets hi))))%nat
    with (1 + (4 * length (offsets lo) + (1 + (4 * length (offsets eq) + (1 + (4 * length (offsets hi) + 1))))))%nat by lia.
  exact Sall.
Qed.

Lemma tree_runs T U t : tree_ok U t → runs T t.
Proof.
  induction t as [|p ks lo IHlo hi IHhi u sym|p ks lo IHlo eq IHeq hi IHhi]; intros Hok.
  - intros q pre it cs -> _ H. exists it. split; [constructor|done].
  - destruct Hok as (_ & _ & ? & ? & _). apply runs_leaf; auto.
  - destruct Hok as (_ & _ & ? & ? & ? & ?). apply runs_inner; auto.
Qed.

(** ** Calls of the iterator *)

Lemma next_entry T n it x l it' fuel :
  emits T n it (x :: l) it' → (n <= fuel)%nat →
  ∃ n1 it1, iterator_loop fuel T it = Some (true, it1) ∧ out it1 = x ∧ emits T n1 it1 l it' ∧ (n1 <= n)%nat.
Proof.
  remember (x :: l) as xl eqn:E. intros H. revert fuel x l E.
  induction H as [it|n it l0 it' off dir cs it1 Hc Ht H IH|n it l0 it' off dir cs it1 Hc Ht H IH]; intros fuel x l E Hf; [done| |].
  - destruct fuel as [|fuel]; [lia|]. cbn [iterator_loop]. rewrite Hc, Ht. cbn [mbind option_bind].
    destruct (IH fuel x l E ltac:(lia)) as (n1 & it2 & ? & ? & ? & ?). exists n1, it2. auto 10 with lia.
  - injection E as <- <-. destruct fuel as [|fuel]; [lia|]. cbn [iterator_loop]. rewrite Hc, Ht. cbn [mbind option_bind].
    exists n, it1. auto 10 with lia.
Qed.

Lemma next_exhausted T n it it' fuel : emits T n it [] it' → it_cursors it' = [] → (n <= fuel)%nat → iterator_loop fuel T it = Some (false, it').
Proof.
  remember [] as xl eqn:E. intros H Hc'. revert fuel E.
  induction H as [it|n it l0 it' off dir cs it1 Hc Ht H IH|n it l0 it' off dir cs it1 Hc Ht H IH]; intros fuel E Hf; [|destruct fuel as [|fuel]; [lia|]|done].
  - destruct fuel; cbn; by rewrite Hc'.
  - cbn [iterator_loop]. rewrite Hc, Ht. cbn [mbind option_bind]. apply IH; [done|done|lia].
Qed.

(** The entries of successive calls, until [NULL]. *)
Fixpoint next_all (calls : nat) (T : xkb_compose_table) (it : xkb_compose_table_iterator) : option (list (list Z * (Z * Z))) :=
  match calls with
  | O => None
  | S calls =>
      '(more, it) ← xkb_compose_table_iterator_next T it;
      if (more : bool) then l ← next_all calls T it; Some (out it :: l) else Some []
  end.

Lemma next_all_emits T l : ∀ n it it' calls,
  emits T n it l it' → it_cursors it' = [] → (n <= 4 * length (ct_nodes T))%nat → (length l < calls)%nat → next_all calls T it = Some l.
Proof.
  induction l as [|x l IH]; intros n it it' calls H Hc Hn Hl; destruct calls as [|calls]; try (cbn in Hl; lia); cbn [next_all]; unfold xkb_compose_table_iterator_next.
  - rewrite (next_exhausted T n it it' _ H Hc Hn). done.
  - destruct (next_entry T n it x l it' _ H Hn) as (n1 & it1 & -> & <- & H1 & Hn1). cbn [mbind option_bind].
    rewrite (IH n1 it1 it'); [done|done|done|lia|cbn in Hl; lia].
Qed.

(** ** Order *)

Fixpoint seq_lt (a b : list Z) : Prop :=
  match a, b with
  | _, [] => False
  | [], _ => True
  | x :: a, y :: b => x < y ∨ x = y ∧ seq_lt a b
  end.

Lemma listing_head t x : x ∈ listing t → ∃ k s, x.1 = k :: s ∧ k ∈ level_keys t.
Proof.
  induction t as [|p ks lo IHlo hi IHhi u sym|p ks lo IHlo eq IHeq hi IHhi]; cbn [listing level_keys]; [by intros ?%elem_of_nil| |].
  - rewrite elem_of_app, elem_of_cons. intros [(k & s & ? & ?)%IHlo|[->|(k & s & ? & ?)%IHhi]]; [exists k, s|exists ks, []|exists k, s]; set_solver.
  - rewrite !elem_of_app, list_elem_of_fmap. intros [(k & s & ? & ?)%IHlo|[(y & -> & _)|(k & s & ? & ?)%IHhi]]; [exists k, s|exists ks, y.1|exists k, s]; set_solver.
Qed.

(** A sequence in a kid starts with one of its keysyms. *)
Lemma listing_bound t (P : Z → Prop) k s e : Forall P (level_keys t) → (k :: s, e) ∈ listing t → P k.
Proof. intros HP (k' & s' & [= <- <-] & Hk)%listing_head. rewrite Forall_forall in HP. by apply HP. Qed.

Lemma listing_find U t s e : tree_ok U t → (s, e) ∈ listing t ↔ tfind t s = Some e.
Proof.
  revert s. induction t as [|p ks lo IHlo hi IHhi u sym|p ks lo IHlo eq IHeq hi IHhi]; intros s Hok.
  - split; [by intros ?%elem_of_nil|done].
  - destruct Hok as (Klo & Khi & Olo & Ohi & _). destruct s as [|k s].
    { split; [|done]. by intros (? & ? & ? & _)%listing_head. }
    cbn [listing tfind]. rewrite elem_of_app, elem_of_cons. destruct (Z.ltb_spec k ks) as [L|L]; [|destruct (Z.ltb_spec ks k) as [L'|L']].
    + rewrite <- (IHlo (k :: s) Olo). split; [|by left]. intros [?|[[= -> _]|Hin]]; [done|lia|]. apply (listing_bound _ _ _ _ _ Khi) in Hin. lia.
    + rewrite <- (IHhi (k :: s) Ohi). split; [|by right; right]. intros [Hin|[[= -> _]|?]]; [|lia|done]. apply (listing_bound _ _ _ _ _ Klo) in Hin. lia.
    + assert (k = ks) as -> by lia. split.
      * intros [Hin|[[= -> ->]|Hin]]; [|done|]; [apply (listing_bound _ _ _ _ _ Klo) in Hin|apply (listing_bound _ _ _ _ _ Khi) in Hin]; lia.
      * destruct s; [|done]. intros [= <-]. by right; left.
  - destruct Hok as (Klo & Khi & Olo & Oeq & Ohi & _). destruct s as [|k s].
    { split; [|done]. by intros (? & ? & ? & _)%listing_head. }
    cbn [listing tfind]. rewrite !elem_of_app, list_elem_of_fmap. destruct (Z.ltb_spec k ks) as [L|L]; [|destruct (Z.ltb_spec ks k) as [L'|L']].
    + rewrite <- (IHlo (k :: s) Olo). split; [|by left]. intros [?|[(y & [= -> _] & _)|Hin]]; [done|lia|]. apply (listing_bound _ _ _ _ _ Khi) in Hin. lia.
    + rewrite <- (IHhi (k :: s) Ohi). split; [|by right; right]. intros [Hin|[(y & [= -> _] & _)|?]]; [|lia|done]. apply (listing_bound _ _ _ _ _ Klo) in Hin. lia.
    + assert (k = ks) as -> by lia. rewrite <- (IHeq s Oeq). split.
      * intros [Hin|[([s' e'] & [= -> ->] & Hy)|Hin]]; [|done|]; [apply (listing_bound _ _ _ _ _ Klo) in Hin|apply (listing_bound _ _ _ _ _ Khi) in Hin]; lia.
      * intros H. right. left. by exists (s, e).
Qed.

Lemma lo_before t ks s k' s' : Forall (λ k, k < ks) (level_keys t) → s ∈ (listing t).*1 → ks <= k' → seq_lt s (k' :: s').
Proof.
  intros HP ([s0 e] & -> & Hs)%list_elem_of_fmap Hk. destruct (listing_head _ _ Hs) as (k & s1 & [= ->] & _).
  apply (listing_bound _ _ _ _ _ HP) in Hs. cbn. left. lia.
Qed.
Lemma hi_after t ks s k' s' : Forall (λ k, ks < k) (level_keys t) → s ∈ (listing t).*1 → k' <= ks → seq_lt (k' :: s') s.
Proof.
  intros HP ([s0 e] & -> & Hs)%list_elem_of_fmap Hk. destruct (listing_head _ _ Hs) as (k & s1 & [= ->] & _).
  apply (listing_bound _ _ _ _ _ HP) in Hs. cbn. left. lia.
Qed.
Lemma lo_before_hi lo hi ks a b :
  Forall (λ k, k < ks) (level_keys lo) → Forall (λ k, ks < k) (level_keys hi) → a ∈ (listing lo).*1 → b ∈ (listing hi).*1 → seq_lt a b.
Proof.
  intros Klo Khi Ha ([s0 e] & -> & Hb)%list_elem_of_fmap. destruct (listing_head _ _ Hb) as (k & s1 & [= ->] & _).
  apply (listing_bound _ _ _ _ _ Khi) in Hb. apply (lo_before lo ks); [done|done|lia].
Qed.

Lemma sorted_under k (l : list (list Z * (Z * Z))) : StronglySorted seq_lt l.*1 → StronglySorted seq_lt (under k <$> l).*1.
Proof.
  induction l as [|x l IH]; intros H; [constructor|]. rewrite !fmap_cons in *. apply StronglySorted_inv in H as [H Hx]. constructor; [by apply IH|].
  rewrite !Forall_fmap in *. eapply Forall_impl; [exact Hx|]. cbn. auto.
Qed.

Lemma listing_sorted U t : tree_ok U t → StronglySorted seq_lt (listing t).*1.
Proof.
  induction t as [|p ks lo IHlo hi IHhi u sym|p ks lo IHlo eq IHeq hi IHhi]; intros Hok; [constructor| |].
  - destruct Hok as (Klo & Khi & Olo & Ohi & _). cbn [listing]. rewrite fmap_app. apply StronglySorted_app. cbn. split_and!; [|auto|].
    + intros a b Ha [->|Hb]%elem_of_cons; [by apply (lo_before lo ks)|by apply (lo_before_hi lo hi ks)].
    + constructor; [auto|]. apply Forall_forall. intros b Hb. by apply (hi_after hi ks).
  - destruct Hok as (Klo & Khi & Olo & Oeq & Ohi & _). cbn [listing]. rewrite !fmap_app. rewrite !StronglySorted_app.
    assert (∀ a, a ∈ (under ks <$> listing eq).*1 → ∃ s, a = ks :: s) as Hu.
    { intros a (x & -> & (y & -> & _)%list_elem_of_fmap)%list_elem_of_fmap. by exists y.1. }
    split_and!; auto using sorted_under.
    + intros a b Ha [[s ->]%Hu|Hb]%elem_of_app; [by apply (lo_before lo ks)|by apply (lo_before_hi lo hi ks)].
    + intros a b [s ->]%Hu Hb. by apply (hi_after hi ks).
Qed.

(** The depth is the length of the longest sequence. *)
Lemma depth_le U t n : tree_ok U t → Forall (λ x, (length x.1 <= n)%nat) (listing t) → (depth t <= n)%nat.
Proof.
  revert n. induction t as [|p ks lo IHlo hi IHhi u sym|p ks lo IHlo eq IHeq hi IHhi]; intros n Hok H; cbn [depth listing] in *; [lia| |].
  - destruct Hok as (_ & _ & Olo & Ohi & _). apply Forall_app in H as [H1 [H2 H3]%Forall_cons]. specialize (IHlo n Olo H1). specialize (IHhi n Ohi H3). cbn in H2. lia.
  - destruct Hok as (_ & _ & Olo & Oeq & Ohi & Hne). apply Forall_app in H as [H1 [H2 H3]%Forall_app]. specialize (IHlo n Olo H1). specialize (IHhi n Ohi H3).
    rewrite Forall_fmap in H2. destruct (tfind_some U eq Oeq Hne) as (k & s & [e He]). apply (listing_find U _ _ _ Oeq) in He.
    destruct n as [|n]; [rewrite Forall_forall in H2; specialize (H2 _ He); cbn in H2; lia|].
    specialize (IHeq n Oeq). cut (depth eq <= n)%nat; [lia|]. apply IHeq. eapply Forall_impl; [exact H2|]. cbn. lia.
Qed.

Lemma table_listed T t m calls :
  models T t m → (∀ s, is_Some (m !! s) → Z.of_nat (length s) <= MAX_LHS_LEN) → (length (listing t) < calls)%nat →
  next_all calls T (xkb_compose_table_iterator_new T) = Some (listing t).
Proof.
  intros [HT Hm] Hlen Hcalls. pose proof (tr_ok _ _ HT) as Hok. assert (depth t <= 10)%nat as Hd.
  { apply (depth_le (ct_utf8 T)); [done|]. apply Forall_forall. intros [s e] He%(listing_find _ _ _ _ Hok).
    specialize (Hlen s). unfold MAX_LHS_LEN in Hlen. cbn [fst]. cut (Z.of_nat (length s) <= 10); [lia|]. apply Hlen. rewrite Hm. unfold find. by rewrite He. }
  pose proof (offsets_length _ _ (tr_range _ _ HT) (tr_nodup _ _ HT)) as Hsz.
  assert (ready (xkb_compose_table_iterator_new T) [] (if 1 <? num_nodes T then [(1, NODE_LEFT)] else [])) as Hready by done.
  pose proof (num_nodes_pos _ _ HT). pose proof (tr_root _ _ HT) as Hroot.
  assert (∃ it', emits T (4 * length (offsets t)) (xkb_compose_table_iterator_new T) (at_pre [] <$> listing t) it' ∧ ready it' [] []) as (it' & He & Hc & _).
  { destruct (Z.eqb_spec (num_nodes T) 1) as [E|E].
    - subst t. exists (xkb_compose_table_iterator_new T). rewrite E in Hready. split; [constructor|done].
    - destruct Hroot as [_ Hrep]. rewrite (proj2 (Z.ltb_lt _ _)) in Hready by lia. by apply (tree_runs T (ct_utf8 T) t Hok 1 []). }
  rewrite (list_fmap_ext (at_pre []) id), list_fmap_id in He by (by intros _ [??] _).
  apply (next_all_emits T _ (4 * length (offsets t)) _ it'); [done|done|lia|lia].
Qed.

Lemma listing_length t : (length (listing t) <= length (offsets t))%nat.
Proof. induction t; cbn; rewrite ?length_app, ?length_fmap; cbn; rewrite ?length_app, ?length_fmap; lia. Qed.

Lemma listed_map T t m s e : models T t m → m !! s = Some e ↔ ∃ u sym, (s, (u, sym)) ∈ listing t ∧ e = entry_of (ct_utf8 T) (u, sym).
Proof.
  intros [HT Hm]. pose proof (tr_ok _ _ HT) as Hok. rewrite Hm. unfold find. rewrite fmap_Some. split.
  - intros ([u sym] & Hf & ->). exists u, sym. by rewrite (listing_find (ct_utf8 T)).
  - intros (u & sym & Hf & ->). exists (u, sym). by rewrite <- (listing_find (ct_utf8 T)).
Qed.

(** ** The theorem *)

(** C26: iterating over a table returns its sequences with their results, each
    once, in lexicographic order, and then nothing; the array of the entry is
    never overrun. *)
Theorem iteration_lists_map T t m :
  models T t m → (∀ s, is_Some (m !! s) → Z.of_nat (length s) <= MAX_LHS_LEN) →
  ∃ l, next_all (S (length l)) T (xkb_compose_table_iterator_new T) = Some l ∧ StronglySorted seq_lt l.*1 ∧
    ∀ s e, m !! s = Some e ↔ ∃ u sym, (s, (u, sym)) ∈ l ∧ e = entry_of (ct_utf8 T) (u, sym).
Proof.
  intros Hm Hlen. exists (listing t). split_and!; [by apply (table_listed T t m); [..|lia]| |].
  - apply (listing_sorted (ct_utf8 T)), (tr_ok _ _ (proj1 Hm)).
  - intros s e. by apply listed_map.
Qed.

Lemma iteration_lists_map_witness :
  ∃ T t m, models T t m ∧ ∃ l, next_all (S (length l)) T (xkb_compose_table_iterator_new T) = Some l ∧ StronglySorted seq_lt l.*1 ∧
    ∀ s e, m !! s = Some e ↔ ∃ u sym, (s, (u, sym)) ∈ l ∧ e = entry_of (ct_utf8 T) (u, sym).
Proof.
  destruct (add_all_models demo_productions xkb_compose_table_new TNil ∅ models_new demo_productions_ok) as (T & t & E & Hm); [done..|].
  exists T, t, (foldl compose_add ∅ demo_productions). split; [exact Hm|].
  apply (iteration_lists_map T t (foldl compose_add ∅ demo_productions) Hm). intros s [e He].
  apply elem_of_map_to_list in He. assert (Forall (λ x, Z.of_nat (length x.1) <= MAX_LHS_LEN) (map_to_list (foldl compose_add ∅ demo_productions))) as Ha.
  { apply (bool_decide_unpack _). vm_compute. exact I. }
  rewrite Forall_forall in Ha. apply (Ha _ He).
Defined.
