(* ===== verification/XkbScanner.v ===== *)
(** * The scanner of libxkbcommon

    Models libxkbcommon/build/src/scanner-utils.h, the scanner that the text
    formats of the library share, and the character classes of utils.h.
    Characters are bytes; positions are natural numbers.  The buffer is the part
    of [buf] before [buf_pos].  A read outside of the text and a write behind
    the 1024 bytes of [buf] are undefined, [None]. *)
From S2P Require Import Prelude XkbKeysym.

Open Scope Z_scope.

(** ** Characters *)

Definition is_ascii (ch : Z) : bool := ch <? 128.
Definition is_space (ch : Z) : bool := (ch =? 32) || ((9 <=? ch) && (ch <=? 13)).
Definition is_alpha (ch : Z) : bool := ((97 <=? ch) && (ch <=? 122)) || ((65 <=? ch) && (ch <=? 90)).
Definition is_digit (ch : Z) : bool := (48 <=? ch) && (ch <=? 57).
Definition is_alnum (ch : Z) : bool := is_alpha ch || is_digit ch.
Definition is_xdigit (ch : Z) : bool :=
  ((48 <=? ch) && (ch <=? 57)) || ((97 <=? ch) && (ch <=? 102)) || ((65 <=? ch) && (ch <=? 70)).
Definition is_valid_char (ch : Z) : bool := negb (ch =? 0).

Definition NEWLINE : Z := 10.

(** ** The scanner *)

Record scanner : Type := mk_scanner {
  sc_s : list Z; sc_pos : nat; sc_buf : list Z;
  sc_line : Z; sc_column : Z; sc_token_line : Z; sc_token_column : Z
}.

Definition sc_size : Z := 1024.

Definition scanner_init (string : list Z) : scanner := mk_scanner string 0 [] 1 1 1 1.

Definition sc_move (pos : nat) (line column : Z) (s : scanner) : scanner :=
  mk_scanner (sc_s s) pos (sc_buf s) line column (sc_token_line s) (sc_token_column s).
Definition sc_set_buf (buf : list Z) (s : scanner) : scanner :=
  mk_scanner (sc_s s) (sc_pos s) buf (sc_line s) (sc_column s) (sc_token_line s) (sc_token_column s).
(** [token_line], [token_column] and [buf_pos] at the start of a token. *)
Definition sc_token (s : scanner) : scanner :=
  mk_scanner (sc_s s) (sc_pos s) [] (sc_line s) (sc_column s) (sc_line s) (sc_column s).

(** [s->s[i]]: the text is as long as [len] says. *)
Definition sc_at (s : scanner) (i : nat) : option Z := sc_s s !! i.

Definition scanner_eof (s : scanner) : bool := (length (sc_s s) <=? sc_pos s)%nat.
Definition scanner_peek (s : scanner) : option Z :=
  if (length (sc_s s) <=? sc_pos s)%nat then Some 0 else sc_at s (sc_pos s).
Definition scanner_eol (s : scanner) : option bool := c ← scanner_peek s; Some (c =? NEWLINE).

(** [memchr]: the characters before a newline. *)
Fixpoint line_length (l : list Z) : nat :=
  match l with [] => 0 | c :: l => if c =? NEWLINE then 0 else S (line_length l) end.
Definition scanner_skip_to_eol (s : scanner) : option scanner :=
  if (length (sc_s s) <? sc_pos s)%nat then None
  else
    let n := line_length (drop (sc_pos s) (sc_s s)) in
    Some (sc_move (sc_pos s + n) (sc_line s) (sc_column s + Z.of_nat n) s).

Definition scanner_next (s : scanner) : option (Z * scanner) :=
  if scanner_eof s then Some (0, s)
  else
    eol ← scanner_eol s;
    c ← sc_at s (sc_pos s);
    Some (c, if (eol : bool) then sc_move (S (sc_pos s)) (sc_line s + 1) 1 s
             else sc_move (S (sc_pos s)) (sc_line s) (sc_column s + 1) s).

(** The scanner behind the character, if it is the one asked for. *)
Definition scanner_chr (s : scanner) (ch : Z) : option (option scanner) :=
  c ← scanner_peek s;
  Some (if negb (c =? ch) then None else Some (sc_move (S (sc_pos s)) (sc_line s) (sc_column s + 1) s)).

Definition scanner_str (s : scanner) (string : list Z) : option (option scanner) :=
  if u64 (Z.of_nat (length (sc_s s)) - Z.of_nat (sc_pos s)) <? Z.of_nat (length string) then Some None
  else
    bs ← read_range (sc_s s) (Z.of_nat (sc_pos s)) (Z.of_nat (length string));
    Some (if bool_decide (bs = string)
          then Some (sc_move (sc_pos s + length string) (sc_line s) (sc_column s + Z.of_nat (length string)) s) else None).

(** Writing at [buf + buf_pos]; [buf] has [sc_size] bytes. *)
Definition buf_write (s : scanner) (bs : list Z) : option (list Z) :=
  if Z.of_nat (length (sc_buf s)) + Z.of_nat (length bs) <=? sc_size then Some (sc_buf s ++ bs) else None.

(** Whether there was room. *)
Definition scanner_buf_append (s : scanner) (ch : Z) : option (bool * scanner) :=
  if sc_size <=? Z.of_nat (length (sc_buf s)) + 1 then Some (false, s)
  else buf ← buf_write s [ch]; Some (true, sc_set_buf buf s).
(** [snprintf] writes what fits and a terminator, and returns the length. *)
Definition scanner_buf_appends (s : scanner) (str : list Z) : option (bool * scanner) :=
  let size := u64 (sc_size - Z.of_nat (length (sc_buf s))) in
  _ ← (if size =? 0 then Some [] else buf_write s (take (Z.to_nat (size - 1)) str ++ [0]));
  if size <=? Z.of_nat (length str) then Some (false, s)
  else Some (true, sc_set_buf (sc_buf s ++ str) s).

(** Up to three octal digits; the flag is the result. *)
Fixpoint oct_loop (n : nat) (i : Z) (out : Z) (s : scanner) : option (bool * Z * scanner) :=
  match n with
  | O => Some (0 <? i, out, s)
  | S n =>
      c ← scanner_peek s;
      if (48 <=? c) && (c <=? 55) then
        '(c, s) ← scanner_next s;
        if out <? 32 then oct_loop n (i + 1) (out * 8 + c - 48) s else Some (false, out, s)
      else Some (0 <? i, out, s)
  end.
Definition scanner_oct (s : scanner) : option (bool * Z * scanner) := oct_loop 3 0 0 s.

Definition xdigit_value (c : Z) : Z :=
  if (48 <=? c) && (c <=? 57) then c - 48 else if (97 <=? c) && (c <=? 102) then c - 87 else c - 55.
Fixpoint hex_digits (n : nat) (i : Z) (out : Z) (s : scanner) : option (bool * Z * scanner) :=
  match n with
  | O => Some (0 <? i, out, s)
  | S n =>
      c ← scanner_peek s;
      if is_xdigit c then
        '(c, s) ← scanner_next s;
        hex_digits n (i + 1) ((out * 16 + xdigit_value c) mod 256) s
      else Some (0 <? i, out, s)
  end.
Definition scanner_hex (s : scanner) : option (bool * Z * scanner) := hex_digits 2 0 0 s.

(** The byte order mark is skipped; other encodings are refused. *)
Definition scanner_check_supported_char_encoding (s : scanner) : option (option scanner) :=
  r ← scanner_str s [0xef; 0xbb; 0xbf];
  match r with
  | Some s => Some (Some s)
  | None =>
      if (length (sc_s s) <? 2)%nat then Some (Some s)
      else
        c0 ← sc_at s 0;
        c1 ← sc_at s 1;
        Some (if (c0 =? 0) || (c1 =? 0) then None else if negb (is_ascii c0) then None else Some s)
  end.

(** ** What the operations return *)

Definition peeked (s : scanner) : Z := default 0 (sc_s s !! sc_pos s).
Definition stepped (s : scanner) : scanner :=
  if scanner_eof s then s
  else if peeked s =? NEWLINE then sc_move (S (sc_pos s)) (sc_line s + 1) 1 s
  else sc_move (S (sc_pos s)) (sc_line s) (sc_column s + 1) s.
Definition matched (s : scanner) (ch : Z) : option scanner :=
  if peeked s =? ch then Some (sc_move (S (sc_pos s)) (sc_line s) (sc_column s + 1) s) else None.
Definition appended (s : scanner) (ch : Z) : bool * scanner :=
  if sc_size <=? Z.of_nat (length (sc_buf s)) + 1 then (false, s) else (true, sc_set_buf (sc_buf s ++ [ch]) s).

Lemma not_eof s : scanner_eof s = false ↔ (sc_pos s < length (sc_s s))%nat.
Proof. unfold scanner_eof. apply Nat.leb_gt. Qed.
Lemma peek_eq s : scanner_peek s = Some (peeked s).
Proof.
  unfold scanner_peek, peeked, sc_at. destruct (Nat.leb_spec (length (sc_s s)) (sc_pos s)) as [E|E].
  - by rewrite lookup_ge_None_2 by lia.
  - by apply lookup_lt_is_Some in E as [c ->].
Qed.
Lemma eol_eq s : scanner_eol s = Some (peeked s =? NEWLINE).
Proof. unfold scanner_eol. by rewrite peek_eq. Qed.
Lemma next_eq s : scanner_next s = Some (peeked s, stepped s).
Proof.
  unfold scanner_next, stepped. rewrite eol_eq. unfold peeked, sc_at, scanner_eof. destruct (Nat.leb_spec (length (sc_s s)) (sc_pos s)) as [E|E].
  - by rewrite lookup_ge_None_2 by lia.
  - by apply lookup_lt_is_Some in E as [c ->].
Qed.
Lemma chr_eq s ch : scanner_chr s ch = Some (matched s ch).
Proof. unfold scanner_chr, matched. rewrite peek_eq. cbn. by destruct (peeked s =? ch). Qed.
Lemma append_eq s ch : scanner_buf_append s ch = Some (appended s ch).
Proof.
  unfold scanner_buf_append, appended, buf_write. destruct (Z.leb_spec sc_size (Z.of_nat (length (sc_buf s)) + 1)); [done|].
  cbn [length]. by rewrite (proj2 (Z.leb_le _ _)) by lia.
Qed.

(** ** Progress *)

Definition is_byte (c : Z) : Prop := 0 <= c < 256.

Record sc_ok (s : scanner) : Prop := mk_sc_ok {
  so_pos : (sc_pos s <= length (sc_s s))%nat;
  so_text : Forall is_byte (sc_s s);
  so_buf : Forall is_byte (sc_buf s);
  so_room : Z.of_nat (length (sc_buf s)) < sc_size
}.

(** The text stays, the position does not move back nor past the end, and the
    buffer keeps room. *)
Definition steps (s s' : scanner) : Prop := sc_ok s' ∧ sc_s s' = sc_s s ∧ (sc_pos s <= sc_pos s')%nat.

Lemma steps_refl s : sc_ok s → steps s s.
Proof. done. Qed.
Lemma steps_trans s1 s2 s3 : steps s1 s2 → steps s2 s3 → steps s1 s3.
Proof. intros (_ & E1 & ?) (? & E2 & ?). split; [done|]. split; [congruence|lia]. Qed.

Lemma init_ok string : Forall is_byte string → sc_ok (scanner_init string).
Proof. intros H. split; cbn; [lia|done|constructor|done]. Qed.

Lemma peek_nonzero s : peeked s ≠ 0 → (sc_pos s < length (sc_s s))%nat ∧ sc_s s !! sc_pos s = Some (peeked s).
Proof.
  unfold peeked. destruct (sc_s s !! sc_pos s) as [c|] eqn:E; [|done]. intros _. split; [by eapply lookup_lt_Some|done].
Qed.

Lemma move_steps s pos line column : sc_ok s → (sc_pos s <= pos <= length (sc_s s))%nat → steps s (sc_move pos line column s).
Proof. intros [? ? ? ?] ?. split; [split; cbn; try done; lia|]. split; [done|cbn; lia]. Qed.

Lemma token_steps s : sc_ok s → steps s (sc_token s).
Proof. intros [? ? ? ?]. split; [split; cbn; try done; constructor|]. split; [done|cbn; lia]. Qed.
Lemma clear_steps s : sc_ok s → steps s (sc_set_buf [] s).
Proof. intros [? ? ? ?]. split; [split; cbn; try done; constructor|]. split; [done|cbn; lia]. Qed.

Lemma peek_byte s : sc_ok s → is_byte (peeked s).
Proof.
  intros Hs. unfold peeked. destruct (sc_s s !! sc_pos s) as [c|] eqn:E; [|done]. by eapply (proj1 (Forall_lookup _ _) (so_text _ Hs)).
Qed.

Lemma stepped_spec s : sc_ok s →
  steps s (stepped s) ∧ sc_buf (stepped s) = sc_buf s ∧ (scanner_eof s = false → sc_pos (stepped s) = S (sc_pos s)).
Proof.
  intros Hs. unfold stepped. destruct (scanner_eof s) eqn:E; [by split_and!|]. apply not_eof in E.
  split_and!; [|by case_step|by case_step]. case_step; apply move_steps; try done; lia.
Qed.

Lemma matched_spec s c s' :
  sc_ok s → matched s c = Some s' → c ≠ 0 → steps s s' ∧ sc_pos s' = S (sc_pos s) ∧ sc_buf s' = sc_buf s ∧ peeked s = c.
Proof.
  intros Hs. unfold matched. destruct (Z.eqb_spec (peeked s) c) as [E|]; [|done]. intros [= <-] Hc. rewrite <- E in Hc.
  apply peek_nonzero in Hc as [? _]. split; [apply move_steps; [done|lia]|done].
Qed.

Lemma line_length_le l : (line_length l <= length l)%nat.
Proof. induction l as [|c l IH]; cbn; [lia|]. case_step; lia. Qed.

Lemma skip_spec s :
  sc_ok s → ∃ s', scanner_skip_to_eol s = Some s' ∧ steps s s' ∧
    (scanner_eof s = false → peeked s ≠ NEWLINE → (sc_pos s < sc_pos s')%nat).
Proof.
  intros Hs. pose proof (line_length_le (drop (sc_pos s) (sc_s s))) as Hl. rewrite length_drop in Hl. pose proof (so_pos _ Hs).
  unfold scanner_skip_to_eol. rewrite (proj2 (Nat.ltb_ge _ _)) by lia. eexists. split; [done|]. split; [apply move_steps; [done|lia]|].
  intros He Hn. cbn. unfold peeked in Hn. apply not_eof in He. apply lookup_lt_is_Some in He as [c Hc].
  rewrite (drop_S _ c) by done. rewrite Hc in Hn. cbn in *. rewrite (proj2 (Z.eqb_neq _ _)) by done. lia.
Qed.

Lemma appended_spec s c :
  sc_ok s → is_byte c →
  steps s (appended s c).2 ∧ sc_pos (appended s c).2 = sc_pos s ∧
  ((appended s c).1 = true → sc_buf (appended s c).2 = sc_buf s ++ [c] ∧ Z.of_nat (length (sc_buf s)) < sc_size - 1).
Proof.
  intros [? ? ? ?] Hc. unfold appended. destruct (Z.leb_spec sc_size (Z.of_nat (length (sc_buf s)) + 1)); [done|]. cbn [fst snd].
  split; [|split; [done|intros _; split; [done|lia]]]. split; [|done]. split; cbn; try done; [apply Forall_app; split; [done|by constructor]|rewrite length_app; cbn; lia].
Qed.
Lemma append_steps s c : sc_ok s → is_byte c → steps s (appended s c).2 ∧ sc_pos (appended s c).2 = sc_pos s.
Proof. intros Hs Hc. destruct (appended_spec s c Hs Hc) as (? & ? & _). done. Qed.

Lemma appends_spec s str :
  sc_ok s → Forall is_byte str → ∃ ok s', scanner_buf_appends s str = Some (ok, s') ∧ steps s s' ∧ sc_pos s' = sc_pos s.
Proof.
  intros [? ? ? ?] Hc. unfold scanner_buf_appends, buf_write. assert (0 < sc_size <= 1024) as Hsz by (unfold sc_size; lia).
  replace (u64 _) with (sc_size - Z.of_nat (length (sc_buf s))) by (unfold u64; rewrite Z.mod_small; lia).
  rewrite (proj2 (Z.eqb_neq _ _)) by lia. rewrite (proj2 (Z.leb_le _ sc_size)) by (rewrite length_app, length_take; cbn; lia). cbn [mbind option_bind].
  destruct (Z.leb_spec (sc_size - Z.of_nat (length (sc_buf s))) (Z.of_nat (length str))); (eexists _, _; split; [done|]); [done|].
  split; [|done]. split; [|done]. split; cbn; try done; [by apply Forall_app|rewrite length_app; lia].
Qed.

Lemma digit_not_eof s : 48 <= peeked s → scanner_eof s = false.
Proof. intros H. apply not_eof. by destruct (peek_nonzero s ltac:(lia)). Qed.

Lemma oct_spec n : ∀ i out s,
  sc_ok s → 0 <= out < 256 → ∃ ok o s', oct_loop n i out s = Some (ok, o, s') ∧ steps s s' ∧ sc_buf s' = sc_buf s ∧ is_byte o.
Proof.
  induction n as [|n IH]; intros i out s Hs Ho; cbn [oct_loop]; [by eexists _, _, _|].
  rewrite peek_eq. cbn [mbind option_bind]. case_step; [|by eexists _, _, _]. zbool.
  rewrite next_eq. cbn [mbind option_bind]. destruct (stepped_spec s Hs) as (Hst & Hb & _). case_step; [|by eexists _, _, _]. zbool.
  destruct (IH (i + 1) (out * 8 + peeked s - 48) (stepped s) (proj1 Hst) ltac:(lia)) as (ok & o & s' & -> & ? & ? & ?). eexists _, _, _. split; [done|].
  split; [by eapply steps_trans|]. split; [congruence|done].
Qed.

Lemma xdigit_bound c : is_xdigit c = true → 0 <= xdigit_value c < 16 ∧ 48 <= c.
Proof. unfold is_xdigit, xdigit_value. intros H. repeat case_step; zbool; lia. Qed.

Lemma hex_spec n : ∀ i out s,
  sc_ok s → 0 <= out < 256 → ∃ ok o s', hex_digits n i out s = Some (ok, o, s') ∧ steps s s' ∧ sc_buf s' = sc_buf s ∧ is_byte o.
Proof.
  induction n as [|n IH]; intros i out s Hs Ho; cbn [hex_digits]; [by eexists _, _, _|].
  rewrite peek_eq. cbn [mbind option_bind]. case_step; [|by eexists _, _, _].
  rewrite next_eq. cbn [mbind option_bind]. destruct (stepped_spec s Hs) as (Hst & Hb & _).
  destruct (IH (i + 1) _ (stepped s) (proj1 Hst) (Z.mod_pos_bound (out * 16 + xdigit_value (peeked s)) 256 ltac:(lia))) as (ok & o & s' & -> & ? & ? & ?).
  eexists _, _, _. split; [done|]. split; [by eapply steps_trans|]. split; [congruence|done].
Qed.

Lemma str_spec s string :
  sc_ok s → ∃ r, scanner_str s string = Some r ∧ ∀ s', r = Some s' → steps s s'.
Proof.
  intros Hs. pose proof (so_pos _ Hs). unfold scanner_str. case_step; [by eexists|]. zbool.
  assert (Z.of_nat (length string) <= Z.of_nat (length (sc_s s)) - Z.of_nat (sc_pos s)) as Hl.
  { etrans; [eassumption|]. unfold u64. apply Z.mod_le; lia. }
  rewrite read_range_Some by lia. cbn [mbind option_bind]. eexists. split; [done|]. intros s'. case_bool_decide; [|done]. intros [= <-].
  apply move_steps; [done|lia].
Qed.

Lemma check_encoding_spec s :
  sc_ok s → ∃ r, scanner_check_supported_char_encoding s = Some r ∧ ∀ s', r = Some s' → steps s s'.
Proof.
  intros Hs. unfold scanner_check_supported_char_encoding. destruct (str_spec s [0xef; 0xbb; 0xbf] Hs) as (r & -> & Hr). cbn [mbind option_bind].
  destruct r as [s1|]; [eexists; split; [done|]; intros s' [= <-]; by apply Hr|]. destruct (Nat.ltb_spec (length (sc_s s)) 2); [eexists; split; [done|]; by intros s' [= <-]|].
  unfold sc_at. destruct (sc_s s) as [|c0 [|c1 l]]; try (cbn in *; lia). cbn [lookup list_lookup mbind option_bind]. eexists. split; [done|].
  intros s'. repeat case_step; by intros [= <-].
Qed.
