(* ===== verification/XkbComposeLex.v ===== *)
(** * The tokens of Compose files

    Models [lex] and [lex_include_string] of
    libxkbcommon/build/src/compose/parser.c.  A token carries its text, the
    buffer before the terminator; the text may hold null characters, as the C
    string it becomes then ends at the first.  The loops run on fuel; a file
    has enough in its length. *)
From stdpp Require Import strings.
From S2P Require Import Prelude XkbUtf8 XkbKeysymTables XkbKeysym XkbScanner.

Open Scope Z_scope.

Inductive rules_token : Type :=
  | TOK_END_OF_FILE
  | TOK_END_OF_LINE
  | TOK_INCLUDE
  | TOK_INCLUDE_STRING (str : list Z)
  | TOK_LHS_KEYSYM (str : list Z)
  | TOK_COLON
  | TOK_BANG
  | TOK_TILDE
  | TOK_STRING (str : list Z)
  | TOK_IDENT (str : list Z)
  | TOK_ERROR.

(** Spaces up to the end of the line; the flag is set at a newline. *)
Fixpoint skip_spaces (fuel : nat) (s : scanner) : option (bool * scanner) :=
  match fuel with
  | O => None
  | S fuel =>
      c ← scanner_peek s;
      if is_space c then
        '(c, s) ← scanner_next s;
        if c =? NEWLINE then Some (true, s) else skip_spaces fuel s
      else Some (false, s)
  end.

(** The results of [scanner_buf_append] in a loop are not looked at. *)
Definition append_char (s : scanner) (c : Z) : option scanner := '(_, s) ← scanner_buf_append s c; Some s.
Definition append_next (s : scanner) : option scanner := '(c, s) ← scanner_next s; append_char s c.

Fixpoint lhs_loop (fuel : nat) (s : scanner) : option scanner :=
  match fuel with
  | O => None
  | S fuel =>
      c ← scanner_peek s;
      eol ← scanner_eol s;
      if negb (c =? 62 (* > *)) && negb eol && negb (scanner_eof s)
      then s ← append_next s; lhs_loop fuel s else Some s
  end.

(** The character of a numeric escape is kept if it is one. *)
Definition append_escaped (r : bool * Z * scanner) : option scanner :=
  let '(ok, o, s) := r in if ok && is_valid_char o then append_char s o else Some s.

(** After a backslash. *)
Definition escape (s : scanner) : option scanner :=
  r ← scanner_chr s 92;
  match r with
  | Some s => append_char s 92
  | None =>
      r ← scanner_chr s 34;
      match r with
      | Some s => append_char s 34
      | None =>
          r ← scanner_chr s 120;
          r ← (match r with Some s => Some (Some s) | None => scanner_chr s 88 end);
          match r with
          | Some s => scanner_hex s ≫= append_escaped
          | None => scanner_oct s ≫= append_escaped
          end
      end
  end.

Fixpoint string_loop (fuel : nat) (s : scanner) : option scanner :=
  match fuel with
  | O => None
  | S fuel =>
      c ← scanner_peek s;
      eol ← scanner_eol s;
      if negb (scanner_eof s) && negb eol && negb (c =? 34 (* quote *)) then
        r ← scanner_chr s 92 (* backslash *);
        s ← match r with Some s => escape s | None => append_next s end;
        string_loop fuel s
      else Some s
  end.

Definition is_ident (c : Z) : bool := is_alnum c || (c =? 95).
Fixpoint ident_loop (fuel : nat) (s : scanner) : option scanner :=
  match fuel with
  | O => None
  | S fuel =>
      c ← scanner_peek s;
      if is_ident c then s ← append_next s; ident_loop fuel s else Some s
  end.

(** The end of a literal: the closing character, if any, and the terminator. *)
Definition close_token (s : scanner) (close : option Z) (tok : list Z → rules_token) : option (rules_token * scanner) :=
  r ← (match close with Some c => scanner_chr s c | None => Some (Some s) end);
  match r with
  | None => Some (TOK_ERROR, s)
  | Some s =>
      let str := sc_buf s in
      '(ok, s) ← scanner_buf_append s 0;
      Some ((if (ok : bool) then tok str else TOK_ERROR), s)
  end.

(** The token at the position, which is neither space nor comment. *)
Definition lex_string_token (fuel : nat) (s : scanner) : option (rules_token * scanner) :=
  s ← string_loop fuel s;
  '(tok, s) ← close_token s (Some 34) TOK_STRING;
  match tok with
  | TOK_STRING str =>
      valid ← is_valid_utf8 str;
      Some (if (valid : bool) then TOK_STRING str else TOK_ERROR, s)
  | _ => Some (tok, s)
  end.
Definition lex_ident_token (fuel : nat) (s : scanner) : option (rules_token * scanner) :=
  s ← ident_loop fuel (sc_set_buf [] s);
  '(tok, s) ← close_token s None TOK_IDENT;
  Some (match tok with
        | TOK_IDENT str => if bool_decide (str = chars "include") then TOK_INCLUDE else tok
        | _ => tok
        end, s).
Definition lex_token (fuel : nat) (s : scanner) : option (rules_token * scanner) :=
  r ← scanner_chr s 60 (* < *);
  match r with
  | Some s => s ← lhs_loop fuel s; close_token s (Some 62) TOK_LHS_KEYSYM
  | None =>
      r ← scanner_chr s 58 (* : *);
      match r with
      | Some s => Some (TOK_COLON, s)
      | None =>
          r ← scanner_chr s 33 (* ! *);
          match r with
          | Some s => Some (TOK_BANG, s)
          | None =>
              r ← scanner_chr s 126 (* ~ *);
              match r with
              | Some s => Some (TOK_TILDE, s)
              | None =>
                  r ← scanner_chr s 34;
                  match r with
                  | Some s => lex_string_token fuel s
                  | None =>
                      c ← scanner_peek s;
                      if is_alpha c || (c =? 95) then lex_ident_token fuel s
                      else s ← scanner_skip_to_eol s; Some (TOK_ERROR, s)
                  end
              end
          end
      end
  end.

Fixpoint lex_loop (fuel : nat) (s : scanner) : option (rules_token * scanner) :=
  match fuel with
  | O => None
  | S fuel =>
      '(eol, s) ← skip_spaces (S fuel) s;
      if (eol : bool) then Some (TOK_END_OF_LINE, s)
      else
        r ← scanner_chr s 35 (* # *);
        match r with
        | Some s => s ← scanner_skip_to_eol s; lex_loop fuel s
        | None => if scanner_eof s then Some (TOK_END_OF_FILE, s) else lex_token (S fuel) (sc_token s)
        end
  end.

Definition lex (s : scanner) : option (rules_token * scanner) := lex_loop (S (length (sc_s s))) s.

(** ** The path of an include *)

(** The environment that the expansions of a path ask for: [HOME], the
    Compose file of the locale and the directory of the locales. *)
Record include_env : Type := mk_include_env { ie_home : option (list Z); ie_locale_file : option (list Z); ie_xlocaledir : list Z }.

(** After a percent sign; the flag is false for an error. *)
Definition expansion (e : include_env) (s : scanner) : option (bool * scanner) :=
  r ← scanner_chr s 37 (* % *);
  match r with
  | Some s => s ← append_char s 37; Some (true, s)
  | None =>
      r ← scanner_chr s 72 (* H *);
      match r with
      | Some s => match ie_home e with Some home => scanner_buf_appends s home | None => Some (false, s) end
      | None =>
          r ← scanner_chr s 76 (* L *);
          match r with
          | Some s => match ie_locale_file e with Some path => scanner_buf_appends s path | None => Some (false, s) end
          | None =>
              r ← scanner_chr s 83 (* S *);
              match r with
              | Some s => scanner_buf_appends s (ie_xlocaledir e)
              | None => Some (false, s)
              end
          end
      end
  end.

(** The flag is false for an error in an expansion. *)
Fixpoint include_loop (fuel : nat) (e : include_env) (s : scanner) : option (bool * scanner) :=
  match fuel with
  | O => None
  | S fuel =>
      c ← scanner_peek s;
      eol ← scanner_eol s;
      if negb (scanner_eof s) && negb eol && negb (c =? 34) then
        r ← scanner_chr s 37;
        match r with
        | Some s => '(ok, s) ← expansion e s; if (ok : bool) then include_loop fuel e s else Some (false, s)
        | None => s ← append_next s; include_loop fuel e s
        end
      else Some (true, s)
  end.

Definition lex_include_string (e : include_env) (s : scanner) : option (rules_token * scanner) :=
  let fuel := S (length (sc_s s)) in
  '(eol, s) ← skip_spaces fuel s;
  if (eol : bool) then Some (TOK_END_OF_LINE, s)
  else
    let s := sc_token s in
    r ← scanner_chr s 34;
    match r with
    | None => Some (TOK_ERROR, s)
    | Some s =>
        '(ok, s) ← include_loop fuel e s;
        if (ok : bool) then close_token s (Some 34) TOK_INCLUDE_STRING else Some (TOK_ERROR, s)
    end.

(** ** Progress *)

Definition left (s : scanner) : nat := length (sc_s s) - sc_pos s.

Lemma steps_left s s' : steps s s' → (left s' <= left s)%nat.
Proof. intros (_ & E & ?). unfold left. rewrite E. lia. Qed.
Lemma steps_less s s' : sc_ok s' → sc_s s' = sc_s s → (sc_pos s < sc_pos s')%nat → (left s' < left s)%nat.
Proof. intros H E ?. pose proof (so_pos _ H). unfold left. rewrite E in *. lia. Qed.

Lemma space_not_eof s : is_space (peeked s) = true → scanner_eof s = false.
Proof. intros H. apply not_eof. apply peek_nonzero. intros E. by rewrite E in H. Qed.

(** Reading and matching are defined. *)
Ltac scan := repeat first [rewrite peek_eq|rewrite eol_eq|rewrite next_eq|rewrite chr_eq|rewrite append_eq]; cbn [mbind option_bind].

Lemma skip_spaces_spec fuel s :
  sc_ok s → (left s < fuel)%nat →
  ∃ eol s', skip_spaces fuel s = Some (eol, s') ∧ steps s s' ∧ (eol = true → (sc_pos s < sc_pos s')%nat) ∧
    (eol = false → is_space (peeked s') = false).
Proof.
  revert s. induction fuel as [|fuel IH]; intros s Hs Hf; [lia|]. cbn [skip_spaces]. scan. destruct (is_space (peeked s)) eqn:Hsp; [|by exists false, s]. scan.
  destruct (stepped_spec s Hs) as (Hst & _ & Hp). specialize (Hp (space_not_eof s Hsp)). set (s1 := stepped s) in *.
  case_step; [exists true, s1; split_and!; try done; lia|]. pose proof Hst as (Hs1 & Ht & _). pose proof (steps_less s s1 Hs1 Ht ltac:(lia)).
  destruct (IH s1 Hs1 ltac:(lia)) as (eol & s' & E' & Hst' & He & Hn). exists eol, s'. split; [done|]. split; [by eapply steps_trans|].
  split; [intros ->; specialize (He eq_refl); lia|done].
Qed.

Lemma append_char_spec s c : sc_ok s → is_byte c → ∃ s', append_char s c = Some s' ∧ steps s s' ∧ sc_pos s' = sc_pos s.
Proof.
  intros Hs Hc. unfold append_char. scan. destruct (append_steps s c Hs Hc). destruct (appended s c) as [ok s']. by exists s'.
Qed.
Lemma append_next_spec s : sc_ok s → scanner_eof s = false → ∃ s', append_next s = Some s' ∧ steps s s' ∧ sc_pos s' = S (sc_pos s).
Proof.
  intros Hs He. unfold append_next. scan. destruct (stepped_spec s Hs) as (Hst & _ & Hp).
  destruct (append_char_spec (stepped s) (peeked s) (proj1 Hst) (peek_byte s Hs)) as (s' & -> & Ha & Hpa). exists s'. split; [done|].
  split; [by eapply steps_trans|]. rewrite Hpa. by apply Hp.
Qed.

Lemma lhs_loop_spec fuel s : sc_ok s → (left s < fuel)%nat → ∃ s', lhs_loop fuel s = Some s' ∧ steps s s'.
Proof.
  revert s. induction fuel as [|fuel IH]; intros s Hs Hf; [lia|]. cbn [lhs_loop]. scan. case_step; [|by exists s]. zbool.
  destruct (append_next_spec s Hs) as (s1 & -> & Hst & Hp); [done|]. cbn [mbind option_bind]. pose proof Hst as (Hs1 & Ht & _). pose proof (steps_less s _ Hs1 Ht ltac:(lia)).
  destruct (IH _ Hs1 ltac:(lia)) as (s' & E & Hst'). exists s'. split; [done|by eapply steps_trans].
Qed.

Lemma ident_not_eof s : is_ident (peeked s) = true → scanner_eof s = false.
Proof. intros H. apply not_eof. apply peek_nonzero. intros E. by rewrite E in H. Qed.

Lemma ident_loop_spec fuel s :
  sc_ok s → (left s < fuel)%nat → ∃ s', ident_loop fuel s = Some s' ∧ steps s s' ∧ (is_ident (peeked s) = true → (sc_pos s < sc_pos s')%nat).
Proof.
  revert s. induction fuel as [|fuel IH]; intros s Hs Hf; [lia|]. cbn [ident_loop]. scan. destruct (is_ident (peeked s)) eqn:Hi; [|by exists s].
  destruct (append_next_spec s Hs (ident_not_eof s Hi)) as (s1 & -> & Hst & Hp). cbn [mbind option_bind]. pose proof Hst as (Hs1 & Ht & _).
  pose proof (steps_less s _ Hs1 Ht ltac:(lia)). destruct (IH _ Hs1 ltac:(lia)) as (s' & E & Hst' & _). exists s'. split; [done|].
  split; [by eapply steps_trans|]. intros _. destruct Hst' as (_ & _ & ?). lia.
Qed.

Lemma escaped_steps s ok o s1 : steps s s1 → is_byte o → ∃ s', append_escaped (ok, o, s1) = Some s' ∧ steps s s'.
Proof.
  intros Hst Ho. unfold append_escaped. case_step; [|by exists s1]. destruct (append_char_spec s1 o (proj1 Hst) Ho) as (s' & -> & Ha & _).
  exists s'. split; [done|by eapply steps_trans].
Qed.
Lemma escape_steps s : sc_ok s → ∃ s', escape s = Some s' ∧ steps s s'.
Proof.
  intros Hs. assert (∀ c s1, matched s c = Some s1 → c ≠ 0 → is_byte c → ∃ s', append_char s1 c = Some s' ∧ steps s s') as Ha.
  { intros c s1 E Hc Hb. destruct (matched_spec _ _ _ Hs E Hc) as (Hst & _). destruct (append_char_spec s1 c (proj1 Hst) Hb) as (s' & -> & ? & _).
    exists s'. split; [done|by eapply steps_trans]. }
  assert (∀ s1, steps s s1 → ∃ s', scanner_hex s1 ≫= append_escaped = Some s' ∧ steps s s') as Hx.
  { intros s1 Hst. destruct (hex_spec 2 0 0 s1 (proj1 Hst) ltac:(lia)) as (ok & o & s2 & E & Hst2 & _ & Ho). unfold scanner_hex. rewrite E. cbn [mbind option_bind].
    apply escaped_steps; [by eapply steps_trans|done]. }
  unfold escape. scan. destruct (matched s 92) as [s1|] eqn:E1; [by apply Ha|]. scan. destruct (matched s 34) as [s1|] eqn:E2; [by apply Ha|]. scan.
  destruct (matched s 120) as [s1|] eqn:E3; scan; [apply Hx; by apply (matched_spec s 120)|]. destruct (matched s 88) as [s1|] eqn:E4; scan; [apply Hx; by apply (matched_spec s 88)|].
  destruct (oct_spec 3 0 0 s Hs ltac:(lia)) as (ok & o & s2 & E & Hst & _ & Ho). unfold scanner_oct. rewrite E. cbn [mbind option_bind]. by apply escaped_steps.
Qed.

Lemma string_loop_spec fuel s : sc_ok s → (left s < fuel)%nat → ∃ s', string_loop fuel s = Some s' ∧ steps s s'.
Proof.
  revert s. induction fuel as [|fuel IH]; intros s Hs Hf; [lia|]. cbn [string_loop]. scan. case_step; [|by exists s]. scan.
  assert (∃ s1, match matched s 92 with Some s => escape s | None => append_next s end = Some s1 ∧ steps s s1 ∧ (sc_pos s < sc_pos s1)%nat) as (s1 & -> & Hst & Hp).
  { destruct (matched s 92) as [s2|] eqn:E.
    - destruct (matched_spec _ _ _ Hs E ltac:(done)) as (Hst & Hp & _). destruct (escape_steps s2 (proj1 Hst)) as (s1 & -> & He). exists s1. split; [done|].
      split; [by eapply steps_trans|]. destruct He as (_ & _ & ?). lia.
    - zbool. destruct (append_next_spec s Hs) as (s1 & -> & ? & ?); [done|]. exists s1. split; [done|]. split; [done|lia]. }
  cbn [mbind option_bind]. pose proof Hst as (Hs1 & Ht & _). pose proof (steps_less s s1 Hs1 Ht Hp). destruct (IH s1 Hs1 ltac:(lia)) as (s' & E & Hst'). exists s'.
  split; [done|by eapply steps_trans].
Qed.

(** ** Tokens *)

Definition text_ok (str : list Z) : Prop := Forall is_byte str ∧ Z.of_nat (length str) < sc_size - 1.
Definition token_ok (tok : rules_token) : Prop :=
  match tok with
  | TOK_INCLUDE_STRING str | TOK_LHS_KEYSYM str | TOK_IDENT str => text_ok str
  | TOK_STRING str => text_ok str ∧ is_valid_utf8 str = Some true
  | _ => True
  end.

(** What a call that returns a token does to the scanner. *)
Definition lexed (s : scanner) (tok : rules_token) (s' : scanner) : Prop :=
  steps s s' ∧ token_ok tok ∧ (tok ≠ TOK_END_OF_FILE → (sc_pos s < sc_pos s')%nat).

Lemma close_token_spec s close tok0 :
  sc_ok s → (∀ c, close = Some c → c ≠ 0) →
  ∃ tok s', close_token s close tok0 = Some (tok, s') ∧ steps s s' ∧ (tok = TOK_ERROR ∨ ∃ str, tok = tok0 str ∧ text_ok str).
Proof.
  intros Hs Hc. unfold close_token.
  assert (match close with Some c => scanner_chr s c | None => Some (Some s) end = Some (match close with Some c => matched s c | None => Some s end)) as ->
    by (destruct close; [apply chr_eq|done]). cbn [mbind option_bind].
  destruct (match close with Some c => matched s c | None => Some s end) as [s1|] eqn:E; [|eexists _, _; split; [done|]; split; [done|by left]].
  assert (steps s s1 ∧ sc_buf s1 = sc_buf s) as [Hst Hb].
  { destruct close as [c|]; [|by injection E as <-]. by destruct (matched_spec _ _ _ Hs E ltac:(auto)) as (? & _ & ? & _). }
  scan. destruct (appended_spec s1 0 (proj1 Hst) ltac:(done)) as (Hst2 & _ & Hok). destruct (appended s1 0) as [ok s2]. cbn [fst snd] in *.
  eexists _, _. split; [done|]. split; [by eapply steps_trans|]. destruct ok; [|by left]. right. exists (sc_buf s1). split; [done|].
  destruct (Hok eq_refl) as [_ ?]. split; [|done]. apply (so_buf _ (proj1 Hst)).
Qed.

Lemma lexed_after s s1 tok s' : steps s s1 → (sc_pos s < sc_pos s1)%nat → steps s1 s' → token_ok tok → lexed s tok s'.
Proof. intros H1 Hp H2 Ht. split; [by eapply steps_trans|]. split; [done|]. intros _. destruct H2 as (_ & _ & ?). lia. Qed.

Ltac punct E Hs :=
  let Hst := fresh in let Hp := fresh in
  destruct (matched_spec _ _ _ Hs E ltac:(done)) as (Hst & Hp & _);
  eexists _, _; split; [done|]; apply (lexed_after _ _ _ _ Hst ltac:(lia)); [apply steps_refl, Hst|done].

Lemma lex_string_token_spec fuel s :
  sc_ok s → (left s < fuel)%nat → ∃ tok s', lex_string_token fuel s = Some (tok, s') ∧ steps s s' ∧ token_ok tok.
Proof.
  intros Hs Hf. unfold lex_string_token. destruct (string_loop_spec fuel s Hs Hf) as (s2 & -> & Hst2). cbn [mbind option_bind].
  destruct (close_token_spec s2 (Some 34) TOK_STRING (proj1 Hst2)) as (tok & s3 & -> & Hst3 & Htok); [by intros c [= <-]|]. cbn [mbind option_bind].
  destruct Htok as [->|(str & -> & Hstr)]; [eexists _, _; split; [done|]; split; [by eapply steps_trans|done]|].
  destruct (valid_total (S (length str)) str ltac:(lia)) as [v Hv]. unfold is_valid_utf8 at 1. rewrite Hv. cbn [mbind option_bind].
  eexists _, _. split; [done|]. split; [by eapply steps_trans|by destruct v].
Qed.

Lemma lex_ident_token_spec fuel s :
  sc_ok s → (left s < fuel)%nat → is_ident (peeked s) = true → ∃ tok s', lex_ident_token fuel s = Some (tok, s') ∧ lexed s tok s'.
Proof.
  intros Hs Hf Hi. unfold lex_ident_token. pose proof (clear_steps s Hs) as Hst0.
  destruct (ident_loop_spec fuel (sc_set_buf [] s) (proj1 Hst0) Hf) as (s2 & -> & Hst2 & Hp). specialize (Hp Hi). cbn [sc_pos sc_set_buf] in Hp. cbn [mbind option_bind].
  destruct (close_token_spec s2 None TOK_IDENT (proj1 Hst2)) as (tok & s3 & -> & Hst3 & Htok); [done|]. cbn [mbind option_bind].
  eexists _, _. split; [done|]. apply (lexed_after s s2); [exact (steps_trans _ _ _ Hst0 Hst2)|done|done|].
  destruct Htok as [->|(str & -> & ?)]; [done|]. by case_bool_decide.
Qed.

Lemma lex_token_spec fuel s :
  sc_ok s → (left s < fuel)%nat → scanner_eof s = false → is_space (peeked s) = false →
  ∃ tok s', lex_token fuel s = Some (tok, s') ∧ lexed s tok s'.
Proof.
  intros Hs Hf He Hsp. unfold lex_token. scan. destruct (matched s 60) as [s1|] eqn:E1.
  { destruct (matched_spec _ _ _ Hs E1 ltac:(done)) as (Hst & Hp & _). pose proof (steps_left _ _ Hst). pose proof (proj1 Hst) as Hs1.
    destruct (lhs_loop_spec fuel s1 Hs1 ltac:(lia)) as (s2 & -> & Hst2). cbn [mbind option_bind].
    destruct (close_token_spec s2 (Some 62) TOK_LHS_KEYSYM (proj1 Hst2)) as (tok & s3 & -> & Hst3 & Htok); [by intros c [= <-]|]. eexists _, _. split; [done|].
    apply (lexed_after s s1); [done|lia|by eapply steps_trans|]. destruct Htok as [->|(str & -> & ?)]; done. }
  scan. destruct (matched s 58) as [s1|] eqn:E2; [punct E2 Hs|]. scan. destruct (matched s 33) as [s1|] eqn:E3; [punct E3 Hs|].
  scan. destruct (matched s 126) as [s1|] eqn:E4; [punct E4 Hs|]. scan. destruct (matched s 34) as [s1|] eqn:E5.
  { destruct (matched_spec _ _ _ Hs E5 ltac:(done)) as (Hst & Hp & _). pose proof (steps_left _ _ Hst).
    destruct (lex_string_token_spec fuel s1 (proj1 Hst) ltac:(lia)) as (tok & s2 & -> & Hst2 & Ht). eexists _, _. split; [done|]. by apply (lexed_after s s1); [|lia|..]. }
  scan. destruct (is_alpha (peeked s) || (peeked s =? 95)) eqn:Hid.
  - apply lex_ident_token_spec; [done..|]. unfold is_ident, is_alnum. by destruct (is_alpha (peeked s)), (is_digit (peeked s)), (peeked s =? 95).
  - destruct (skip_spec s Hs) as (s1 & -> & Hst & Hp). cbn [mbind option_bind]. eexists _, _. split; [done|]. split; [done|]. split; [done|]. intros _. apply Hp; [done|].
    intros E. by rewrite E in Hsp.
Qed.

Lemma lexed_trans s s1 tok s' : steps s s1 → lexed s1 tok s' → lexed s tok s'.
Proof. intros Hst (H1 & H2 & H3). split; [by eapply steps_trans|]. split; [done|]. intros Ht. specialize (H3 Ht). destruct Hst as (_ & _ & ?). lia. Qed.

Lemma lex_loop_spec fuel s : sc_ok s → (left s < fuel)%nat → ∃ tok s', lex_loop fuel s = Some (tok, s') ∧ lexed s tok s'.
Proof.
  revert s. induction fuel as [|fuel IH]; intros s Hs Hf; [lia|]. cbn [lex_loop].
  destruct (skip_spaces_spec (S fuel) s Hs Hf) as (eol & s1 & -> & Hst & He & Hn). cbn [mbind option_bind].
  destruct eol; [eexists _, _; split; [done|]; split; [done|]; split; [done|]; auto|]. specialize (Hn eq_refl). pose proof (proj1 Hst) as Hs1.
  pose proof (steps_left _ _ Hst). scan. destruct (matched s1 35) as [s2|] eqn:E.
  - destruct (matched_spec _ _ _ Hs1 E ltac:(done)) as (Hst2 & Hp & _). destruct (skip_spec s2 (proj1 Hst2)) as (s3 & -> & Hst3 & _). cbn [mbind option_bind].
    pose proof (steps_trans _ _ _ Hst2 Hst3) as Hst4. pose proof Hst4 as (Hs4 & Ht4 & _).
    assert (sc_pos s1 < sc_pos s3)%nat as Hp4 by (destruct Hst3 as (_ & _ & ?); lia). pose proof (steps_less _ _ Hs4 Ht4 Hp4).
    destruct (IH _ Hs4 ltac:(lia)) as (tok & s' & -> & Hl). eexists _, _. split; [done|]. apply (lexed_trans s s1 _ _ Hst), (lexed_trans s1 s3 _ _ Hst4), Hl.
  - destruct (scanner_eof s1) eqn:Hef; [eexists _, _; split; [done|]; split; [done|]; by split|].
    pose proof (token_steps s1 Hs1) as Hstt. destruct (lex_token_spec (S fuel) (sc_token s1) (proj1 Hstt)) as (tok & s' & -> & Hl); [|done|done|].
    { change (left (sc_token s1)) with (left s1). lia. }
    eexists _, _. split; [done|]. apply (lexed_trans s s1 _ _ Hst), (lexed_trans s1 (sc_token s1) _ _ Hstt), Hl.
Qed.

Lemma lex_spec s : sc_ok s → ∃ tok s', lex s = Some (tok, s') ∧ lexed s tok s'.
Proof. intros Hs. apply lex_loop_spec; [done|]. unfold left. lia. Qed.

(** ** Includes *)

Definition env_ok (e : include_env) : Prop :=
  (∀ home, ie_home e = Some home → Forall is_byte home) ∧ (∀ path, ie_locale_file e = Some path → Forall is_byte path) ∧
  Forall is_byte (ie_xlocaledir e).

Lemma expansion_spec e s : env_ok e → sc_ok s → ∃ ok s', expansion e s = Some (ok, s') ∧ steps s s'.
Proof.
  intros (Hh & Hl & Hx) Hs. assert (∀ c s1 str, matched s c = Some s1 → c ≠ 0 → Forall is_byte str → ∃ ok s', scanner_buf_appends s1 str = Some (ok, s') ∧ steps s s') as Ha.
  { intros c s1 str E Hc Hstr. destruct (matched_spec _ _ _ Hs E Hc) as (Hst & _). destruct (appends_spec s1 str (proj1 Hst) Hstr) as (ok & s' & -> & ? & _).
    eexists _, _. split; [done|by eapply steps_trans]. }
  unfold expansion. scan. destruct (matched s 37) as [s1|] eqn:E1.
  { destruct (matched_spec _ _ _ Hs E1 ltac:(done)) as (Hst & _). destruct (append_char_spec s1 37 (proj1 Hst) ltac:(done)) as (s' & -> & ? & _).
    eexists _, _. split; [done|by eapply steps_trans]. }
  scan. destruct (matched s 72) as [s1|] eqn:E2.
  { destruct (ie_home e) as [home|] eqn:Eh; [by apply (Ha 72); [..|apply Hh]|]. eexists _, _. split; [done|]. by apply (matched_spec _ _ _ Hs E2). }
  scan. destruct (matched s 76) as [s1|] eqn:E3.
  { destruct (ie_locale_file e) as [path|] eqn:El; [by apply (Ha 76); [..|apply Hl]|]. eexists _, _. split; [done|]. by apply (matched_spec _ _ _ Hs E3). }
  scan. destruct (matched s 83) as [s1|] eqn:E4; [by apply (Ha 83)|]. by eexists _, _.
Qed.

Lemma include_loop_spec fuel e s :
  env_ok e → sc_ok s → (left s < fuel)%nat → ∃ ok s', include_loop fuel e s = Some (ok, s') ∧ steps s s'.
Proof.
  intros He. revert s. induction fuel as [|fuel IH]; intros s Hs Hf; [lia|]. cbn [include_loop]. scan. case_step; [|by exists true, s]. scan.
  destruct (matched s 37) as [s1|] eqn:E.
  - destruct (matched_spec _ _ _ Hs E ltac:(done)) as (Hst & Hp & _). destruct (expansion_spec e s1 He (proj1 Hst)) as (ok & s2 & -> & Hst2).
    cbn [mbind option_bind]. pose proof (steps_trans _ _ _ Hst Hst2) as Hst3.
    destruct ok; [|by exists false, s2]. pose proof Hst3 as (Hs3 & Ht3 & _). assert (sc_pos s < sc_pos s2)%nat as Hp3 by (destruct Hst2 as (_ & _ & ?); lia).
    pose proof (steps_less _ _ Hs3 Ht3 Hp3). destruct (IH s2 Hs3 ltac:(lia)) as (ok & s' & -> & Hst'). exists ok, s'. split; [done|by eapply steps_trans].
  - zbool. destruct (append_next_spec s Hs) as (s1 & -> & Hst & Hp); [done|]. cbn [mbind option_bind]. pose proof Hst as (Hs1 & Ht1 & _). pose proof (steps_less _ _ Hs1 Ht1 ltac:(lia)).
    destruct (IH _ Hs1 ltac:(lia)) as (ok & s' & -> & Hst'). exists ok, s'. split; [done|by eapply steps_trans].
Qed.

Lemma lex_include_string_spec e s :
  env_ok e → sc_ok s → ∃ tok s', lex_include_string e s = Some (tok, s') ∧ steps s s' ∧ token_ok tok.
Proof.
  intros He Hs. unfold lex_include_string. destruct (skip_spaces_spec (S (length (sc_s s))) s Hs) as (eol & s1 & -> & Hst & _); [unfold left; lia|].
  cbn [mbind option_bind]. destruct eol; [by eexists _, _|]. pose proof (token_steps s1 (proj1 Hst)) as Hst1. pose proof (steps_trans _ _ _ Hst Hst1) as Hst2.
  scan. destruct (matched (sc_token s1) 34) as [s2|] eqn:E; [|by eexists _, _].
  destruct (matched_spec _ _ _ (proj1 Hst1) E ltac:(done)) as (Hst3 & _). pose proof (steps_trans _ _ _ Hst2 Hst3) as Hst4.
  destruct (include_loop_spec (S (length (sc_s s))) e s2 He (proj1 Hst3)) as (ok & s3 & -> & Hst5).
  { destruct Hst4 as (_ & E4 & _). unfold left. rewrite E4. lia. }
  cbn [mbind option_bind]. pose proof (steps_trans _ _ _ Hst4 Hst5) as Hst6. destruct ok; [|by eexists _, _].
  destruct (close_token_spec s3 (Some 34) TOK_INCLUDE_STRING (proj1 Hst6)) as (tok & s4 & -> & Hst7 & Htok); [by intros c [= <-]|]. eexists _, _. split; [done|].
  split; [by eapply steps_trans|]. destruct Htok as [->|(str & -> & ?)]; done.
Qed.
