(* ===== verification/XkbComposeParse.v ===== *)
(** * The parser of Compose files

    Models [parse], [do_include], [resolve_modifier], [parse_string] and
    [parse_file] of libxkbcommon/build/src/compose/parser.c.  The labels of
    [parse] are the constructors of [label], a turn of the automaton is
    [parse_step]; an included file is parsed by the same function one level
    deeper.  The files are a function from paths to contents; messages are
    left out. *)
From stdpp Require Import strings.
From S2P Require Import Prelude XkbUtf8 XkbKeysymTables XkbKeysym XkbKeysymSpec XkbCompose XkbComposeTree XkbComposeSpec XkbScanner XkbComposeLex.

Open Scope Z_scope.

Definition MAX_INCLUDE_DEPTH : nat := 5.
Definition MAX_ERRORS : Z := 10.
Definition ALL_MODS_MASK : Z := 15.
Definition NO_MODIFIER : Z := 0xffffffff.

Definition modifier_names : list (list Z * Z) :=
  [(chars "Shift", 0); (chars "Ctrl", 2); (chars "Alt", 3); (chars "Meta", 3); (chars "Lock", 1); (chars "Caps", 1)].
Fixpoint find_modifier (mods : list (list Z * Z)) (name : list Z) : Z :=
  match mods with
  | [] => NO_MODIFIER
  | (n, m) :: mods => if bool_decide (name = n) then m else find_modifier mods name
  end.
Definition resolve_modifier (name : list Z) : Z := find_modifier modifier_names name.

(** ** The automaton *)

Record parse_state : Type := mk_ps { ps_table : xkb_compose_table; ps_s : scanner; ps_prod : production; ps_errors : Z }.
Definition ps_set_s (s : scanner) (st : parse_state) : parse_state := mk_ps (ps_table st) s (ps_prod st) (ps_errors st).
Definition ps_set_prod (p : production) (st : parse_state) : parse_state := mk_ps (ps_table st) (ps_s st) p (ps_errors st).
Definition ps_set_table (t : xkb_compose_table) (st : parse_state) : parse_state := mk_ps t (ps_s st) (ps_prod st) (ps_errors st).
Definition ps_set_errors (n : Z) (st : parse_state) : parse_state := mk_ps (ps_table st) (ps_s st) (ps_prod st) n.

Definition p_set_mods (modmask mods : Z) (p : production) : production :=
  mk_production (p_lhs p) (p_keysym p) (p_string p) (p_has_keysym p) (p_has_string p) modmask mods.
Definition p_reset (p : production) : production := mk_production [] (p_keysym p) (p_string p) false false 0 0.
(** Writes behind the arrays [lhs] and [string] are undefined; [string] also
    takes the terminator. *)
Definition p_add_lhs (k : Z) (p : production) : option production :=
  if Z.of_nat (length (p_lhs p)) <? MAX_LHS_LEN
  then Some (mk_production (p_lhs p ++ [k]) (p_keysym p) (p_string p) (p_has_keysym p) (p_has_string p) 0 0) else None.
Definition p_set_string (str : list Z) (p : production) : option production :=
  if Z.of_nat (length str) + 1 <=? XKB_COMPOSE_MAX_STRING_SIZE
  then Some (mk_production (p_lhs p) (p_keysym p) str (p_has_keysym p) true (p_modmask p) (p_mods p)) else None.
Definition p_set_keysym (k : Z) (p : production) : production :=
  mk_production (p_lhs p) k (p_string p) true (p_has_string p) (p_modmask p) (p_mods p).

(** The labels, with the token [tok] where it is looked at again. *)
Inductive label : Type :=
  | L_initial | L_initial_eol | L_include | L_include_eol (path : list Z)
  | L_lhs | L_lhs_tok (tok : rules_token)
  | L_lhs_keysym | L_lhs_keysym_tok (tok : rules_token)
  | L_lhs_mod_list | L_lhs_mod_list_tok (tok : rules_token)
  | L_rhs | L_unexpected (tok : rules_token) | L_error (tok : rules_token) | L_skip (tok : rules_token)
  | L_fail | L_finished.

Definition line_end (tok : rules_token) : bool := match tok with TOK_END_OF_LINE | TOK_END_OF_FILE => true | _ => false end.

(** The result on the right-hand side is complete. *)
Definition end_production (tok : rules_token) (st : parse_state) : option (label * parse_state) :=
  if negb (p_has_string (ps_prod st)) && negb (p_has_keysym (ps_prod st)) then Some (L_skip tok, st)
  else t ← add_production (ps_table st) (ps_prod st); Some (L_initial, ps_set_table t st).

Section parse.
Context (env : include_env) (do_include : xkb_compose_table → list Z → option (bool * xkb_compose_table)).

(** The labels at which a token is read. *)
Definition lex_step (k : rules_token → parse_state → option (label * parse_state)) (st : parse_state) : option (label * parse_state) :=
  '(tok, s) ← lex (ps_s st); k tok (ps_set_s s st).

Definition lhs_tok_step (tok : rules_token) (st : parse_state) : label * parse_state :=
  match tok with
  | TOK_COLON => (match p_lhs (ps_prod st) with [] => L_skip tok | _ => L_rhs end, st)
  | TOK_IDENT str =>
      if bool_decide (str = chars "None") then (L_lhs_keysym, ps_set_prod (p_set_mods ALL_MODS_MASK 0 (ps_prod st)) st)
      else (L_lhs_mod_list_tok tok, st)
  | TOK_TILDE => (L_lhs_mod_list_tok tok, st)
  | TOK_BANG => (L_lhs_mod_list, ps_set_prod (p_set_mods ALL_MODS_MASK (p_mods (ps_prod st)) (ps_prod st)) st)
  | _ => (L_lhs_keysym_tok tok, st)
  end.

Definition lhs_keysym_step (tok : rules_token) (st : parse_state) : option (label * parse_state) :=
  match tok with
  | TOK_LHS_KEYSYM str =>
      keysym ← xkb_keysym_from_name true (cstring str) 0;
      if keysym =? XKB_KEY_NoSymbol then Some (L_error tok, st)
      else if MAX_LHS_LEN <? Z.of_nat (length (p_lhs (ps_prod st))) + 1 then Some (L_skip tok, st)
      else p ← p_add_lhs keysym (ps_prod st); Some (L_lhs, ps_set_prod p st)
  | _ => Some (L_unexpected tok, st)
  end.

(** The modifier named by a token, after the tilde if there is one. *)
Definition modifier_step (tilde : bool) (tok : rules_token) (st : parse_state) : label * parse_state :=
  match tok with
  | TOK_IDENT str =>
      let mod_ := resolve_modifier str in
      if mod_ =? NO_MODIFIER then (L_error tok, st)
      else
        let p := ps_prod st in
        let bit := Z.shiftl 1 mod_ in
        (L_lhs_mod_list,
         ps_set_prod (p_set_mods (Z.lor (p_modmask p) bit) (if tilde then Z.ldiff (p_mods p) bit else Z.lor (p_mods p) bit) p) st)
  | _ => (L_unexpected tok, st)
  end.
Definition mod_list_step (tok : rules_token) (st : parse_state) : option (label * parse_state) :=
  match tok with
  | TOK_TILDE => lex_step (λ tok st, Some (modifier_step true tok st)) st
  | TOK_IDENT _ => Some (modifier_step false tok st)
  | _ => Some (L_lhs_keysym_tok tok, st)
  end.

(** The length of a text counts its terminator. *)
Definition rhs_step (tok : rules_token) (st : parse_state) : option (label * parse_state) :=
  match tok with
  | TOK_STRING str =>
      let len := Z.of_nat (length str) + 1 in
      if p_has_string (ps_prod st) then Some (L_skip tok, st)
      else if len <=? 0 then Some (L_skip tok, st)
      else if XKB_COMPOSE_MAX_STRING_SIZE <? len then Some (L_skip tok, st)
      else p ← p_set_string (cstring str) (ps_prod st); Some (L_rhs, ps_set_prod p st)
  | TOK_IDENT str =>
      keysym ← xkb_keysym_from_name true (cstring str) 0;
      if keysym =? XKB_KEY_NoSymbol then Some (L_error tok, st)
      else if p_has_keysym (ps_prod st) then Some (L_skip tok, st)
      else end_production tok (ps_set_prod (p_set_keysym keysym (ps_prod st)) st)
  | TOK_END_OF_LINE => end_production tok st
  | _ => Some (L_unexpected tok, st)
  end.

Definition parse_step (l : label) (st : parse_state) : option (label * parse_state) :=
  match l with
  | L_initial => Some (L_initial_eol, ps_set_prod (p_reset (ps_prod st)) st)
  | L_initial_eol =>
      lex_step (λ tok st, Some (match tok with
                                | TOK_END_OF_LINE => L_initial_eol
                                | TOK_END_OF_FILE => L_finished
                                | TOK_INCLUDE => L_include
                                | _ => L_lhs_tok tok
                                end, st)) st
  | L_include =>
      '(tok, s) ← lex_include_string env (ps_s st);
      Some (match tok with TOK_INCLUDE_STRING path => L_include_eol path | _ => L_unexpected tok end, ps_set_s s st)
  | L_include_eol path =>
      lex_step (λ tok st,
        match tok with
        | TOK_END_OF_LINE =>
            '(ok, t) ← do_include (ps_table st) (cstring path);
            Some (if (ok : bool) then L_initial else L_fail, ps_set_table t st)
        | _ => Some (L_unexpected tok, st)
        end) st
  | L_lhs => lex_step (λ tok st, Some (L_lhs_tok tok, st)) st
  | L_lhs_tok tok => Some (lhs_tok_step tok st)
  | L_lhs_keysym => lex_step (λ tok st, Some (L_lhs_keysym_tok tok, st)) st
  | L_lhs_keysym_tok tok => lhs_keysym_step tok st
  | L_lhs_mod_list => lex_step (λ tok st, Some (L_lhs_mod_list_tok tok, st)) st
  | L_lhs_mod_list_tok tok => mod_list_step tok st
  | L_rhs => lex_step rhs_step st
  | L_unexpected tok => Some (L_error tok, st)
  | L_error tok =>
      let st := ps_set_errors (ps_errors st + 1) st in
      Some (if ps_errors st <=? MAX_ERRORS then L_skip tok else L_fail, st)
  | L_skip tok =>
      if line_end tok then Some (L_initial, st) else lex_step (λ tok st, Some (L_skip tok, st)) st
  | L_fail | L_finished => Some (l, st)
  end.

Fixpoint parse_run (fuel : nat) (l : label) (st : parse_state) : option (bool * xkb_compose_table) :=
  match l with
  | L_finished => Some (true, ps_table st)
  | L_fail => Some (false, ps_table st)
  | _ =>
      match fuel with
      | O => None
      | S fuel => '(l, st) ← parse_step l st; parse_run fuel l st
      end
  end.

Definition new_production : production := mk_production [] 0 [] false false 0 0.
Definition parse_text (t : xkb_compose_table) (string : list Z) : option (bool * xkb_compose_table) :=
  r ← scanner_check_supported_char_encoding (scanner_init string);
  match r with
  | None => Some (false, t)
  | Some s => parse_run (32 * S (length string)) L_initial (mk_ps t s new_production 0)
  end.
End parse.

(** A file as [fopen] finds it; mapping an empty one is an error. *)
Definition map_file (file : list Z) : option (list Z) := match file with [] => None | _ => Some file end.

(** [depth] is what [include_depth] leaves of [MAX_INCLUDE_DEPTH]. *)
Fixpoint parse (env : include_env) (files : list Z → option (list Z)) (depth : nat) (t : xkb_compose_table) (string : list Z)
    : option (bool * xkb_compose_table) :=
  parse_text env
    (λ t path,
      match depth with
      | O => Some (false, t)
      | S depth =>
          match file ← files path; map_file file with
          | None => Some (false, t)
          | Some string => parse env files depth t string
          end
      end) t string.

Definition parse_string (env : include_env) (files : list Z → option (list Z)) (t : xkb_compose_table) (string : list Z)
    : option (bool * xkb_compose_table) := parse env files MAX_INCLUDE_DEPTH t string.
Definition parse_file (env : include_env) (files : list Z → option (list Z)) (t : xkb_compose_table) (file : list Z)
    : option (bool * xkb_compose_table) :=
  match map_file file with None => Some (false, t) | Some string => parse_string env files t string end.

(** ** Safety *)

(** [T'] is [T] after some lines were added to it. *)
Definition extended (T T' : xkb_compose_table) : Prop := ∃ ps, Forall production_ok ps ∧ add_all T ps = Some T'.

Lemma add_all_app T T' ps qs : add_all T ps = Some T' → add_all T (ps ++ qs) = add_all T' qs.
Proof.
  revert T. induction ps as [|p ps IH]; intros T H; [by injection H as ->|]. cbn in *. destruct (add_production T p); [|done]. cbn in *. by apply IH.
Qed.
Lemma extended_refl T : extended T T.
Proof. exists []. split; [constructor|done]. Qed.
Lemma extended_trans T1 T2 T3 : extended T1 T2 → extended T2 T3 → extended T1 T3.
Proof. intros (ps & Hp & E1) (qs & Hq & E2). exists (ps ++ qs). split; [by apply Forall_app|]. by rewrite (add_all_app T1 T2). Qed.

Definition table_ok (T : xkb_compose_table) : Prop := ∃ t, table_rep T t.

Lemma add_production_total T p : table_ok T → production_ok p → ∃ T', add_production T p = Some T' ∧ table_ok T' ∧ extended T T'.
Proof.
  intros [t HT] Hp. assert (∃ T', add_production T p = Some T' ∧ table_ok T') as (T' & E & Hok).
  { destruct (Z.leb_spec MAX_COMPOSE_NODES (num_nodes T + Z.of_nat (length (p_lhs p)))) as [H|H].
    - exists T. split; [|by exists t]. unfold add_production. by rewrite (proj2 (Z.leb_le _ _)).
    - destruct Hp as (? & ? & ? & ? & ?). destruct (add_production_put T t p HT ltac:(by split) H) as (T' & E & _ & _ & HT').
      exists T'. split; [done|]. by eexists. }
  exists T'. split; [done|]. split; [done|]. exists [p]. split; [by constructor|]. cbn. by rewrite E.
Qed.

Lemma cstring_nonzero l : Forall (λ c, c ≠ 0) (cstring l).
Proof. induction l as [|c l IH]; cbn; [constructor|]. destruct (Z.eqb_spec c 0); by constructor. Qed.
Lemma cstring_id l : Forall (λ c, c ≠ 0) l → cstring l = l.
Proof. induction 1 as [|c l Hc Hl IH]; [done|]. cbn. by rewrite (proj2 (Z.eqb_neq _ _)), IH. Qed.
Lemma cstring_length l : (length (cstring l) <= length l)%nat.
Proof. induction l as [|c l IH]; cbn; [lia|]. case_step; cbn; lia. Qed.
Lemma cstring_is_string l : Forall is_byte l → is_string (cstring l).
Proof.
  induction 1 as [|c l Hc Hl IH]; cbn; [constructor|]. destruct (Z.eqb_spec c 0); constructor; [|done]. unfold is_byte in Hc. lia.
Qed.

Lemma keysym_of_text str : Forall is_byte str → ∃ k, xkb_keysym_from_name true (cstring str) 0 = Some k.
Proof.
  intros H. destruct (from_name_loop_total (S (length (cstring str))) true (cstring str) false) as (k & E & _);
    [by apply cstring_is_string|lia|]. by exists k.
Qed.

(** The texts and the left-hand side of the production under construction. *)
Definition partial_ok (p : production) : Prop :=
  Z.of_nat (length (p_lhs p)) <= MAX_LHS_LEN ∧ Forall (λ c, c ≠ 0) (p_string p) ∧ Z.of_nat (length (p_string p)) < XKB_COMPOSE_MAX_STRING_SIZE.

(** The token that a label looks at. *)
Definition label_ok (l : label) : Prop :=
  match l with L_lhs_tok tok | L_lhs_keysym_tok tok | L_lhs_mod_list_tok tok => token_ok tok | _ => True end.

Record parse_ok (l : label) (st : parse_state) : Prop := mk_parse_ok {
  pk_table : table_ok (ps_table st);
  pk_s : sc_ok (ps_s st);
  pk_prod : partial_ok (ps_prod st);
  pk_tok : label_ok l;
  pk_rhs : l = L_rhs → p_lhs (ps_prod st) ≠ []
}.

(** The number of turns that the label takes without reading. *)
Definition rank (l : label) : nat :=
  match l with
  | L_finished | L_fail => 0
  | L_initial_eol => 1
  | L_initial => 2
  | L_skip tok => if line_end tok then 3 else 4
  | L_error _ => 5
  | L_unexpected _ => 6
  | L_include_eol _ => 7
  | L_lhs_keysym_tok (TOK_LHS_KEYSYM _) => 14
  | L_lhs_keysym_tok _ => 7
  | L_lhs_keysym | L_rhs | L_include => 8
  | L_lhs_mod_list => 9
  | L_lhs => 10
  | L_lhs_mod_list_tok TOK_END_OF_FILE => 8
  | L_lhs_mod_list_tok _ => 15
  | L_lhs_tok TOK_END_OF_FILE => 9
  | L_lhs_tok _ => 16
  end.
Definition measure (l : label) (st : parse_state) : nat := 32 * left (ps_s st) + rank l.

(** A turn is defined, keeps the invariant and comes nearer to the end. *)
Definition turn (l : label) (st : parse_state) (r : option (label * parse_state)) : Prop :=
  ∃ l' st', r = Some (l', st') ∧ parse_ok l' st' ∧ extended (ps_table st) (ps_table st') ∧ (measure l' st' < measure l st)%nat.

Lemma rank_le l : (rank l <= 16)%nat.
Proof. destruct l as [| | | | |[]| |[]| |[]| | | |[]| |]; cbn; lia. Qed.

(** After a token was read: the end of the file comes once only. *)
Lemma lex_turn l st k :
  parse_ok l st →
  (∀ tok s, sc_ok s → token_ok tok →
     ∃ l' st', k tok (ps_set_s s st) = Some (l', st') ∧ parse_ok l' st' ∧ extended (ps_table st) (ps_table st') ∧ ps_s st' = s ∧
       (tok = TOK_END_OF_FILE → (rank l' < rank l)%nat)) →
  turn l st (lex_step k st).
Proof.
  intros Hst Hk. unfold lex_step. destruct (lex_spec _ (pk_s _ _ Hst)) as (tok & s & -> & Hs & Ht & Hp). cbn [mbind option_bind].
  destruct (Hk tok s (proj1 Hs) Ht) as (l' & st' & E & Hok & He & Es & Hr). exists l', st'. split; [done|]. split; [done|]. split; [done|].
  unfold measure. rewrite Es. pose proof (steps_left _ _ Hs). pose proof (rank_le l').
  destruct (match tok with TOK_END_OF_FILE => true | _ => false end) eqn:Et; [destruct tok; try done; specialize (Hr eq_refl); lia|].
  destruct Hs as (Hs & E1 & _). pose proof (steps_less _ _ Hs E1 (Hp ltac:(by intros ->))). lia.
Qed.

Lemma parse_ok_at l st l' p s :
  parse_ok l st → sc_ok s → partial_ok p →
  label_ok l' →
  (l' = L_rhs → p_lhs p ≠ []) → parse_ok l' (mk_ps (ps_table st) s p (ps_errors st)).
Proof. intros [? _ _ _ _] ? ? ? ?. by split. Qed.

(** A token that only leads to another label. *)
Lemma lex_goto l st (f : rules_token → label) :
  parse_ok l st → (f TOK_END_OF_FILE ≠ L_rhs → (rank (f TOK_END_OF_FILE) < rank l)%nat) →
  (∀ tok, token_ok tok → f tok ≠ L_rhs ∧
     label_ok (f tok)) →
  turn l st (lex_step (λ tok st, Some (f tok, st)) st).
Proof.
  intros Hst He Hf. apply lex_turn; [done|]. intros tok s Hs Ht. destruct (Hf tok Ht) as [Hn Hok]. eexists _, _. split; [done|].
  split; [by apply (parse_ok_at l st); [..|apply Hst| |]|]. split; [apply extended_refl|]. split; [done|]. intros ->. by apply He.
Qed.

Lemma partial_mods p modmask mods : partial_ok p → partial_ok (p_set_mods modmask mods p).
Proof. done. Qed.
Lemma partial_reset p : partial_ok p → partial_ok (p_reset p).
Proof. intros (? & ? & ?). split; [done|]. done. Qed.

Lemma end_production_ok l st tok :
  parse_ok l st → p_lhs (ps_prod st) ≠ [] →
  ∃ l' st', end_production tok st = Some (l', st') ∧ parse_ok l' st' ∧ extended (ps_table st) (ps_table st') ∧ ps_s st' = ps_s st.
Proof.
  intros Hst Hne. unfold end_production. destruct (negb (p_has_string (ps_prod st)) && negb (p_has_keysym (ps_prod st))) eqn:E.
  - eexists _, _. split; [done|]. split; [|split; [apply extended_refl|done]]. split; [apply Hst..|done|done].
  - destruct (pk_prod _ _ Hst) as (? & ? & ?).
    destruct (add_production_total (ps_table st) (ps_prod st) (pk_table _ _ Hst)) as (T & -> & HT & He).
    { split_and!; try done. unfold p_ok. destruct (p_has_string (ps_prod st)), (p_has_keysym (ps_prod st)); auto. }
    cbn [mbind option_bind]. eexists _, _. split; [done|]. split; [split; cbn; try done; apply Hst|]. done.
Qed.

Lemma rhs_step_ok st tok s :
  parse_ok L_rhs st → sc_ok s → token_ok tok →
  ∃ l' st', rhs_step tok (ps_set_s s st) = Some (l', st') ∧ parse_ok l' st' ∧ extended (ps_table st) (ps_table st') ∧ ps_s st' = s ∧
    (tok = TOK_END_OF_FILE → (rank l' < rank L_rhs)%nat).
Proof.
  intros Hst Hs Ht. pose proof (pk_rhs _ _ Hst eq_refl) as Hne. pose proof (pk_prod _ _ Hst) as Hp.
  assert (∀ l', l' ≠ L_rhs → label_ok l' →
    ∀ p, partial_ok p → parse_ok l' (ps_set_prod p (ps_set_s s st))) as Hgo by (intros; by apply (parse_ok_at L_rhs st)).
  assert (∀ l', l' ≠ L_rhs → label_ok l' →
    (tok = TOK_END_OF_FILE → (rank l' < rank L_rhs)%nat) →
    ∃ l'' st', Some (l', ps_set_s s st) = Some (l'', st') ∧ parse_ok l'' st' ∧ extended (ps_table st) (ps_table st') ∧ ps_s st' = s ∧
      (tok = TOK_END_OF_FILE → (rank l'' < rank L_rhs)%nat)) as Hskip.
  { intros l' H1 H2 H3. eexists _, _. split; [done|]. split; [by apply (Hgo l' H1 H2 (ps_prod st))|]. split; [apply extended_refl|done]. }
  destruct tok as [| | |str|str| | | |str|str|]; cbn [rhs_step]; try (by apply Hskip; [..|intros; cbn; lia]).
  - destruct (end_production_ok L_initial (ps_set_s s st) TOK_END_OF_LINE) as (l' & st' & -> & ? & ? & ?); [by apply (Hgo L_initial ltac:(done) I (ps_prod st))|done|].
    by eexists _, _.
  - destruct Ht as [[Hb Hl] _]. repeat (case_step; [by apply Hskip|]). zbool.
    pose proof (cstring_length str). unfold p_set_string. rewrite (proj2 (Z.leb_le _ _)) by (unfold XKB_COMPOSE_MAX_STRING_SIZE in *; lia). cbn [mbind option_bind].
    eexists _, _. split; [done|]. split; [|split; [apply extended_refl|done]]. apply (parse_ok_at L_rhs st); try done.
    destruct Hp as (? & _ & _). split; [done|]. cbn. split; [apply cstring_nonzero|]. unfold XKB_COMPOSE_MAX_STRING_SIZE in *. lia.
  - destruct (keysym_of_text str (proj1 Ht)) as [k ->]. cbn [mbind option_bind]. repeat (case_step; [by apply Hskip|]).
    destruct (end_production_ok L_initial (ps_set_prod (p_set_keysym k (ps_prod st)) (ps_set_s s st)) (TOK_IDENT str)) as (l' & st' & E & ? & ? & ?).
    { by apply (Hgo L_initial). } { done. } exists l', st'. by split.
Qed.

Lemma modifier_step_ok l st tilde tok s :
  parse_ok l st → sc_ok s → ∃ l' st', modifier_step tilde tok (ps_set_s s st) = (l', st') ∧ parse_ok l' st' ∧
    ps_table st' = ps_table st ∧ ps_s st' = s ∧ (rank l' <= 9)%nat.
Proof.
  intros Hst Hs. pose proof (pk_prod _ _ Hst).
  destruct tok; cbn [modifier_step]; try case_step; (eexists _, _; split; [reflexivity|]; split; [by apply (parse_ok_at l st)|]; split; [done|]; split; [done|cbn; lia]).
Qed.

Section turns.
Context (env : include_env) (do_include : xkb_compose_table → list Z → option (bool * xkb_compose_table)).
Hypothesis Henv : env_ok env.
Hypothesis Hinclude : ∀ T path, table_ok T → ∃ ok T', do_include T path = Some (ok, T') ∧ table_ok T' ∧ extended T T'.

(** A turn that does not read. *)
Lemma turn_goto l st l' p n :
  parse_ok l st → partial_ok p → label_ok l' → (l' = L_rhs → p_lhs p ≠ []) → (rank l' < rank l)%nat →
  turn l st (Some (l', mk_ps (ps_table st) (ps_s st) p n)).
Proof.
  intros [? ? _ _ _] ? ? ? ?. eexists _, _. split; [done|]. split; [by split|]. split; [apply extended_refl|]. unfold measure. cbn [ps_s]. lia.
Qed.
Lemma turn_label l st l' : parse_ok l st → label_ok l' → (l' = L_rhs → p_lhs (ps_prod st) ≠ []) → (rank l' < rank l)%nat → turn l st (Some (l', st)).
Proof. intros H ? ? ?. pose proof (turn_goto l st l' (ps_prod st) (ps_errors st) H (pk_prod _ _ H)) as Ht. destruct st. by apply Ht. Qed.

Lemma lhs_tok_turn tok st : parse_ok (L_lhs_tok tok) st → turn (L_lhs_tok tok) st (Some (lhs_tok_step tok st)).
Proof.
  intros H. pose proof (pk_tok _ _ H) as Ht. cbn in Ht. pose proof (pk_prod _ _ H).
  destruct tok; cbn [lhs_tok_step]; try (apply turn_label; [done|done|done|cbn; lia]).
  - destruct (p_lhs (ps_prod st)) eqn:E; (apply turn_label; [done|done|by rewrite E|cbn; lia]).
  - apply turn_goto; [done|done|done|done|cbn; lia].
  - case_step; [apply turn_goto; [done|done|done|done|cbn; lia]|]. apply turn_label; [done|done|done|cbn; lia].
Qed.

Lemma lhs_keysym_turn tok st : parse_ok (L_lhs_keysym_tok tok) st → turn (L_lhs_keysym_tok tok) st (lhs_keysym_step tok st).
Proof.
  intros H. pose proof (pk_tok _ _ H) as Ht. cbn in Ht. pose proof (pk_prod _ _ H) as (? & ? & ?).
  destruct tok as [| | | |str| | | | | |]; cbn [lhs_keysym_step]; try (apply turn_label; [done|done|done|cbn; lia]).
  destruct (keysym_of_text str (proj1 Ht)) as [k ->]. cbn [mbind option_bind].
  case_step; [apply turn_label; [done|done|done|cbn; lia]|]. case_step; [apply turn_label; [done|done|done|cbn; lia]|]. zbool.
  unfold p_add_lhs. rewrite (proj2 (Z.ltb_lt _ _)) by lia. cbn [mbind option_bind].
  apply turn_goto; [done| |done|done|cbn; lia]. split; [|done]. cbn. rewrite length_app. cbn. lia.
Qed.

Lemma mod_list_turn tok st : parse_ok (L_lhs_mod_list_tok tok) st → turn (L_lhs_mod_list_tok tok) st (mod_list_step tok st).
Proof.
  intros H. pose proof (pk_tok _ _ H) as Ht. cbn in Ht. destruct tok as [| | | | | | | | |str|]; cbn [mod_list_step]; try (apply turn_label; [done|done|done|cbn; lia]).
  - apply lex_turn; [done|]. intros tok s Hs _. destruct (modifier_step_ok _ st true tok s H Hs) as (l' & st' & -> & ? & Et & ? & ?).
    eexists _, _. split; [done|]. split; [done|]. split; [rewrite Et; apply extended_refl|]. split; [done|]. intros _. cbn. lia.
  - pose proof (modifier_step_ok _ st false (TOK_IDENT str) (ps_s st) H (pk_s _ _ H)) as (l' & st' & E & Hok & Et & Es & ?).
    replace (ps_set_s (ps_s st) st) with st in E by (by destruct st). rewrite E. eexists _, _. split; [done|]. split; [done|].
    split; [rewrite Et; apply extended_refl|]. unfold measure. rewrite Es. cbn. lia.
Qed.

Lemma include_turn st : parse_ok L_include st → turn L_include st (parse_step env do_include L_include st).
Proof.
  intros H. cbn [parse_step]. destruct (lex_include_string_spec env (ps_s st) Henv (pk_s _ _ H)) as (tok & s & -> & Hs & _). cbn [mbind option_bind].
  eexists _, _. split; [done|]. split; [apply (parse_ok_at _ _ _ _ _ H (proj1 Hs) (pk_prod _ _ H)); by destruct tok|]. split; [apply extended_refl|].
  unfold measure. cbn [ps_s ps_set_s]. pose proof (steps_left _ _ Hs). destruct tok; cbn; lia.
Qed.

Lemma include_eol_turn st path : parse_ok (L_include_eol path) st → turn (L_include_eol path) st (parse_step env do_include (L_include_eol path) st).
Proof.
  intros H. cbn [parse_step]. apply lex_turn; [done|]. intros tok s Hs _. pose proof (pk_prod _ _ H).
  assert (∀ t, parse_ok (L_unexpected t) (ps_set_s s st)) as Hu by (intros; by apply (parse_ok_at (L_include_eol path) st)).
  destruct tok; try (eexists _, _; split; [done|]; split; [done|]; split; [apply extended_refl|]; split; [done|cbn; lia]).
  destruct (Hinclude (ps_table st) (cstring path) (pk_table _ _ H)) as (ok & T & E & HT & He). cbn [ps_table ps_set_s]. rewrite E. cbn [mbind option_bind].
  eexists _, _. split; [done|]. split; [|by split]. split; [done|done|done|by destruct ok|by destruct ok].
Qed.

Lemma parse_step_turn l st : parse_ok l st → l ≠ L_finished → l ≠ L_fail → turn l st (parse_step env do_include l st).
Proof.
  intros H Hn1 Hn2. pose proof (pk_prod _ _ H).
  destruct l as [| | |path| |tok| |tok| |tok| |tok|tok|tok| |]; try done.
  - apply turn_goto; [done|by apply partial_reset|done|done|cbn; lia].
  - apply (lex_goto _ _ (λ tok, match tok with TOK_END_OF_LINE => L_initial_eol | TOK_END_OF_FILE => L_finished | TOK_INCLUDE => L_include | _ => L_lhs_tok tok end));
      [done|cbn; lia|]. intros [] ?; done.
  - by apply include_turn.
  - by apply include_eol_turn.
  - apply (lex_goto _ _ L_lhs_tok); [done|cbn; lia|done].
  - by apply lhs_tok_turn.
  - apply (lex_goto _ _ L_lhs_keysym_tok); [done|cbn; lia|done].
  - by apply lhs_keysym_turn.
  - apply (lex_goto _ _ L_lhs_mod_list_tok); [done|cbn; lia|done].
  - by apply mod_list_turn.
  - cbn [parse_step]. apply lex_turn; [done|]. intros tok s Hs Ht. by apply rhs_step_ok.
  - apply turn_label; [done|done|done|cbn; lia].
  - cbn [parse_step]. case_step; (apply turn_goto; [done|done|done|done|cbn]); [case_step|]; lia.
  - cbn [parse_step]. destruct (line_end tok) eqn:E; [apply turn_label; [done|done|done|cbn; rewrite E; lia]|].
    apply (lex_goto _ _ L_skip); [done|cbn; rewrite E; lia|done].
Qed.

Lemma parse_run_safe fuel l st :
  parse_ok l st → (measure l st < fuel)%nat →
  ∃ ok T, parse_run env do_include fuel l st = Some (ok, T) ∧ table_ok T ∧ extended (ps_table st) T.
Proof.
  revert l st. induction fuel as [|fuel IH]; intros l st H Hf; [lia|].
  assert (l = L_finished ∨ l = L_fail ∨ l ≠ L_finished ∧ l ≠ L_fail) as [->|[->|[H1 H2]]] by (destruct l; auto).
  1,2: eexists _, _; split; [done|]; split; [apply H|apply extended_refl].
  destruct (parse_step_turn l st H H1 H2) as (l' & st' & E & Hok & He & Hm). destruct (IH l' st' Hok ltac:(lia)) as (ok & T & E' & HT & He').
  exists ok, T. split; [|split; [done|by eapply extended_trans]]. destruct l; try done; cbn [parse_run]; rewrite E; exact E'.
Qed.

Lemma parse_text_safe T string :
  table_ok T → Forall is_byte string → ∃ ok T', parse_text env do_include T string = Some (ok, T') ∧ table_ok T' ∧ extended T T'.
Proof.
  intros HT Hs. unfold parse_text. destruct (check_encoding_spec _ (init_ok string Hs)) as (r & -> & Hr). cbn [mbind option_bind].
  destruct r as [s|]; [|exists false, T; split; [done|]; split; [done|apply extended_refl]]. destruct (Hr s eq_refl) as (Hok & Et & _). apply parse_run_safe; [by split|].
  unfold measure, left. cbn [ps_s rank]. rewrite Et. change (sc_s (scanner_init string)) with string. lia.
Qed.
End turns.

Definition files_ok (files : list Z → option (list Z)) : Prop := ∀ path string, files path = Some string → Forall is_byte string.

Lemma parse_total env files depth T string :
  env_ok env → files_ok files → table_ok T → Forall is_byte string →
  ∃ ok T', parse env files depth T string = Some (ok, T') ∧ table_ok T' ∧ extended T T'.
Proof.
  intros He Hf. revert T string. induction depth as [|depth IH]; intros T string HT Hs.
  - apply parse_text_safe; [done| |done|done]. intros T1 path HT1. exists false, T1. split; [done|]. split; [done|apply extended_refl].
  - cbn [parse]. apply parse_text_safe; [done| |done|done]. intros T1 path HT1. destruct (files path) as [[|c s]|] eqn:E; cbn [mbind option_bind map_file];
      [|apply IH; [done|by eapply Hf]|].
    all: exists false, T1; split; [done|]; split; [done|apply extended_refl].
Qed.

(** ** The theorem *)

(** C16: any bytes, with any environment and any files to include, include
    loops among them, are parsed to the end: no read outside of the text, no
    write behind the token buffer of 1024 bytes, the arrays of a production or
    the nodes of the table, and no endless loop.  The table is the one that
    some well-formed productions make, and so the map of the specification when
    they are not more than 2^19. *)
Theorem parse_safe env files string :
  env_ok env → files_ok files → Forall is_byte string →
  ∃ ok T ps, parse_string env files xkb_compose_table_new string = Some (ok, T) ∧ Forall production_ok ps ∧
    add_all xkb_compose_table_new ps = Some T ∧ (Z.of_nat (length ps) <= 2 ^ 19 → ∃ t, models T t (foldl compose_add ∅ ps)).
Proof.
  intros He Hf Hs. destruct (parse_total env files MAX_INCLUDE_DEPTH xkb_compose_table_new string He Hf) as (ok & T & E & _ & ps & Hps & ET);
    [eexists; apply table_new_rep|done|]. exists ok, T, ps. split; [done|]. split; [done|]. split; [done|]. intros Hn.
  destruct (add_all_models ps _ _ _ models_new Hps) as (T' & t & ET' & Hm);
    [change (num_nodes xkb_compose_table_new) with 1; unfold MAX_LHS_LEN, MAX_COMPOSE_NODES; lia|
     change (Z.of_nat (length (ct_utf8 xkb_compose_table_new))) with 1; unfold XKB_COMPOSE_MAX_STRING_SIZE; lia|].
  exists t. rewrite ET in ET'. by injection ET' as ->.
Qed.

(** A file that includes itself. *)
Definition demo_env : include_env := mk_include_env (Some (chars "/h")) None (chars "/x").
Definition demo_files (path : list Z) : option (list Z) :=
  if bool_decide (path = chars "/h/c") then Some (chars "include " ++ [34] ++ chars "%H/c" ++ [34; 10]) else None.

Lemma demo_files_ok : files_ok demo_files.
Proof. intros path string. unfold demo_files. case_step; [|done]. intros [= <-]. unfold is_byte. apply (bool_decide_unpack _). vm_compute. exact I. Qed.
Lemma demo_env_ok : env_ok demo_env.
Proof. split; [intros home [= <-]|split; [done|]]; unfold is_byte; apply (bool_decide_unpack _); vm_compute; exact I. Qed.

Definition demo_text : list Z := chars "<a> : b" ++ [10] ++ chars "include " ++ [34] ++ chars "%H/c" ++ [34; 10].

Lemma parse_safe_witness :
  ∃ ok T ps, parse_string demo_env demo_files xkb_compose_table_new demo_text = Some (ok, T) ∧ Forall production_ok ps ∧
    add_all xkb_compose_table_new ps = Some T ∧ (Z.of_nat (length ps) <= 2 ^ 19 → ∃ t, models T t (foldl compose_add ∅ ps)).
Proof.
  apply (parse_safe demo_env demo_files demo_text); [exact demo_env_ok|exact demo_files_ok|].
  unfold is_byte. apply (bool_decide_unpack _). vm_compute. exact I.
Defined.
