(* ===== verification/XkbComposeDump.v ===== *)
(** * Printing Compose tables and reading them back

    Models [escape_utf8_string_literal] of
    libxkbcommon/build/src/compose/dump.h, [parse_string_literal] of
    compose/parser.c and the part of tools/compile-compose.c that prints a
    table.  The theorem is the round trip: the printed text is parsed into a
    table with the same map. *)
From stdpp Require Import strings sorting.
From S2P Require Import Prelude Decimal XkbUtf8 XkbKeysymTables XkbKeysym XkbKeysymSpec XkbCompose XkbComposeTree XkbComposeSpec XkbComposeList XkbScanner XkbComposeLex XkbComposeParse.

Open Scope Z_scope.

(** ** The code *)

(** The bytes of a character that is not ASCII. *)
Definition char_bytes (c : Z) : nat := if c <? 0xe0 then 2%nat else if c <? 0xf0 then 3%nat else 4%nat.

(** [prev] is [previous_is_hex_escape].  A character that is cut off is copied
    with the terminator; reading past it is [None]. *)
Fixpoint escape_loop (fuel : nat) (from : list Z) (prev : bool) : option (list Z) :=
  match fuel with
  | O => None
  | S fuel =>
      match from with
      | [] => Some []
      | c :: rest =>
          if c <? 0x80 then
            if (c <=? 0x10) || (c =? 0x7f) || (XkbScanner.is_xdigit c && prev) then
              to ← escape_loop fuel rest true; Some ([92; 120] ++ fmt_pad 48 2 (fmt_x c) ++ to)
            else if (c =? 34) || (c =? 92) then to ← escape_loop fuel rest false; Some ([92; c] ++ to)
            else to ← escape_loop fuel rest false; Some (c :: to)
          else
            let nbytes := char_bytes c in
            if (length from + 1 <? nbytes)%nat then None
            else to ← escape_loop fuel (drop nbytes from) false; Some (take nbytes (from ++ [0]) ++ to)
      end
  end.
Definition escape_utf8_string_literal (from : list Z) : option (list Z) :=
  to ← escape_loop (S (length from)) from false; Some (cstring to).

Definition parse_string_literal (string : list Z) : option (option (list Z)) :=
  '(tok, _) ← lex (scanner_init string);
  Some (match tok with TOK_STRING str => Some (cstring str) | _ => None end).

(** The name of a keysym in a buffer of [XKB_KEYSYM_NAME_MAX_SIZE] bytes. *)
Definition print_keysym (ks : Z) : option (list Z) :=
  '(_, buf) ← xkb_keysym_get_name ks XKB_KEYSYM_NAME_MAX_SIZE; Some (cstring buf).
Fixpoint print_sequence (syms : list Z) : option (list Z) :=
  match syms with
  | [] => Some []
  | ks :: syms =>
      name ← print_keysym ks;
      l ← print_sequence syms;
      Some ([60] ++ name ++ [62] ++ (match syms with [] => [] | _ => [32] end) ++ l)
  end.
Definition print_compose_table_entry (utf8 : list Z) (x : list Z * (Z * Z)) : option (list Z) :=
  let '(syms, (u, keysym)) := x in
  lhs ← print_sequence syms;
  text ← utf8_at utf8 u;
  string ← match text with
           | [] => Some []
           | _ => escaped ← escape_utf8_string_literal text; Some ([32; 34] ++ escaped ++ [34])
           end;
  name ← (if negb (keysym =? XKB_KEY_NoSymbol) then name ← print_keysym keysym; Some (32 :: name) else Some []);
  Some (lhs ++ [32; 58; 32] ++ string ++ name ++ [10]).

(** The loop of [main] over the entries. *)
Fixpoint print_entries (utf8 : list Z) (l : list (list Z * (Z * Z))) : option (list Z) :=
  match l with
  | [] => Some []
  | x :: l => a ← print_compose_table_entry utf8 x; b ← print_entries utf8 l; Some (a ++ b)
  end.
Definition print_compose_table (T : xkb_compose_table) : option (list Z) :=
  l ← next_all (S (length (ct_nodes T))) T (xkb_compose_table_iterator_new T);
  print_entries (ct_utf8 T) l.

(** ** Scanning a known text *)

(** What the scanner has not read. *)
Definition rest (s : scanner) : list Z := drop (sc_pos s) (sc_s s).

(** At [c], one character further. *)
Lemma rest_cons s c r : rest s = c :: r → scanner_eof s = false ∧ peeked s = c ∧ sc_s s !! sc_pos s = Some c.
Proof.
  unfold rest. intros H. assert (sc_s s !! sc_pos s = Some c) as E.
  { replace (sc_pos s) with (sc_pos s + 0)%nat by lia. by rewrite <- lookup_drop, H. }
  assert (scanner_eof s = false) as He by (apply not_eof; by eapply lookup_lt_Some). unfold peeked. rewrite E. done.
Qed.
Lemma rest_nil s : rest s = [] → scanner_eof s = true ∧ peeked s = 0.
Proof.
  unfold rest. intros H. apply (f_equal length) in H. rewrite length_drop in H. cbn in H.
  split; [apply Nat.leb_le; lia|]. unfold peeked. by rewrite lookup_ge_None_2 by lia.
Qed.
Lemma rest_move s c r line column : rest s = c :: r → rest (sc_move (S (sc_pos s)) line column s) = r.
Proof. unfold rest. cbn. intros H. replace (S (sc_pos s)) with (sc_pos s + 1)%nat by lia. by rewrite <- drop_drop, H. Qed.
Lemma rest_next s c r : rest s = c :: r → ∃ s', scanner_next s = Some (c, s') ∧ rest s' = r ∧ sc_buf s' = sc_buf s ∧ sc_s s' = sc_s s.
Proof.
  intros H. destruct (rest_cons s c r H) as (He & Hp & Hl). rewrite next_eq, Hp. eexists. split; [done|]. unfold stepped. rewrite He.
  case_step; (split; [by eapply rest_move|done]).
Qed.
Lemma rest_chr s c r : rest s = c :: r → ∃ s', scanner_chr s c = Some (Some s') ∧ rest s' = r ∧ sc_buf s' = sc_buf s ∧ sc_s s' = sc_s s.
Proof.
  intros H. destruct (rest_cons s c r H) as (_ & Hp & _). rewrite chr_eq. unfold matched. rewrite Hp, Z.eqb_refl.
  eexists. split; [done|]. split; [by eapply rest_move|done].
Qed.
Lemma rest_chr_ne s c d r : rest s = c :: r → c ≠ d → scanner_chr s d = Some None.
Proof. intros H Hd. destruct (rest_cons s c r H) as (_ & Hp & _). rewrite chr_eq. unfold matched. rewrite Hp. by rewrite (proj2 (Z.eqb_neq _ _)). Qed.
Lemma rest_peek s c r : rest s = c :: r → scanner_peek s = Some c ∧ scanner_eol s = Some (c =? NEWLINE) ∧ scanner_eof s = false.
Proof. intros H. destruct (rest_cons s c r H) as (He & Hp & _). rewrite peek_eq, eol_eq, Hp. done. Qed.

(** The buffer after more characters, when there is room. *)
Lemma append_room s c :
  Z.of_nat (length (sc_buf s)) + 1 < sc_size → scanner_buf_append s c = Some (true, sc_set_buf (sc_buf s ++ [c]) s).
Proof. intros H. rewrite append_eq. unfold appended. by rewrite (proj2 (Z.leb_gt _ _)). Qed.

Definition buf_room (s : scanner) (n : nat) : Prop := Z.of_nat (length (sc_buf s)) + Z.of_nat n < sc_size.

Lemma append_next_at s c r :
  rest s = c :: r → buf_room s 1 → ∃ s', append_next s = Some s' ∧ rest s' = r ∧ sc_buf s' = sc_buf s ++ [c].
Proof.
  intros H Hr. destruct (rest_next s c r H) as (s1 & E & H1 & Eb & _). unfold append_next, append_char. rewrite E. cbn [mbind option_bind].
  rewrite append_room by (rewrite Eb; unfold buf_room in Hr; lia). cbn [mbind option_bind]. eexists. split; [done|]. cbn. by rewrite Eb.
Qed.

Lemma close_at s c r tok : rest s = c :: r → buf_room s 1 → ∃ s', close_token s (Some c) tok = Some (tok (sc_buf s), s') ∧ rest s' = r.
Proof.
  intros H Hr. destruct (rest_chr s c r H) as (s1 & E & H1 & Eb & _). unfold close_token. rewrite E. cbn [mbind option_bind].
  rewrite append_room by (rewrite Eb; unfold buf_room in Hr; lia). rewrite Eb. by eexists.
Qed.

Lemma skip_spaces_at n : ∀ fuel s c r,
  rest s = replicate n 32 ++ c :: r → is_space c = false → (n < fuel)%nat → ∃ s', skip_spaces fuel s = Some (false, s') ∧ rest s' = c :: r.
Proof.
  induction n as [|n IH]; intros fuel s c r H Hc Hf; (destruct fuel as [|fuel]; [lia|]); cbn [skip_spaces].
  - destruct (rest_peek s c r H) as (-> & _). cbn [mbind option_bind]. rewrite Hc. by exists s.
  - destruct (rest_peek s _ _ H) as (-> & _). destruct (rest_next s _ _ H) as (s1 & -> & H1 & _). apply IH; [done|done|lia].
Qed.

Lemma rest_length s : (length (rest s) <= length (sc_s s))%nat.
Proof. unfold rest. rewrite length_drop. lia. Qed.

Lemma lex_skip s n c r :
  rest s = replicate n 32 ++ c :: r → is_space c = false → c ≠ 35 →
  ∃ fuel s', lex s = lex_token fuel s' ∧ rest s' = c :: r ∧ sc_buf s' = [] ∧ (length (c :: r) < fuel)%nat.
Proof.
  intros H Hc Hn. pose proof (rest_length s) as Hl. rewrite H, length_app, length_replicate in Hl. unfold lex. cbn [lex_loop].
  destruct (skip_spaces_at n (S (length (sc_s s))) s c r H Hc ltac:(lia)) as (s1 & -> & H1). cbn [mbind option_bind].
  rewrite (rest_chr_ne s1 c 35 r H1 Hn). cbn [mbind option_bind]. destruct (rest_cons s1 c r H1) as (-> & _). exists (S (length (sc_s s))), (sc_token s1).
  split; [done|]. split; [done|]. split; [done|]. lia.
Qed.

Lemma lex_newline s r : rest s = 10 :: r → ∃ s', lex s = Some (TOK_END_OF_LINE, s') ∧ rest s' = r.
Proof.
  intros H. unfold lex. cbn [lex_loop skip_spaces]. destruct (rest_peek s _ _ H) as (-> & _). cbn [mbind option_bind]. destruct (rest_next s _ _ H) as (s1 & -> & H1 & _).
  by exists s1.
Qed.

Lemma lex_eof s : rest s = [] → ∃ s', lex s = Some (TOK_END_OF_FILE, s').
Proof.
  intros H. destruct (rest_nil s H) as [He Hp]. exists s. unfold lex. cbn [lex_loop skip_spaces]. rewrite peek_eq, Hp. cbn [mbind option_bind].
  change (is_space 0) with false. cbn [mbind option_bind]. rewrite chr_eq. unfold matched. rewrite Hp. cbn [Z.eqb mbind option_bind]. by rewrite He.
Qed.

(** ** The tokens of a line *)

Lemma word_char_facts c : word_char c = true → c ≠ 62 ∧ c ≠ 10 ∧ is_ident c = true ∧ is_space c = false ∧ 35 ≠ c ∧ c ≠ 0.
Proof. unfold word_char, is_ident, is_alnum, is_alpha, is_digit, is_space. zbool. lia. Qed.

Lemma lhs_loop_at name : ∀ fuel s r,
  rest s = name ++ 62 :: r → Forall (λ c, word_char c = true) name → buf_room s (length name) → (length name < fuel)%nat →
  ∃ s', lhs_loop fuel s = Some s' ∧ rest s' = 62 :: r ∧ sc_buf s' = sc_buf s ++ name.
Proof.
  induction name as [|c name IH]; intros fuel s r H Hn Hr Hf; (destruct fuel as [|fuel]; [cbn in Hf; lia|]); cbn [lhs_loop].
  - destruct (rest_peek s _ _ H) as (-> & -> & _). exists s. by rewrite app_nil_r.
  - apply Forall_cons in Hn as [Hc Hn]. apply word_char_facts in Hc as (Hc1 & Hc2 & _). destruct (rest_peek s _ _ H) as (-> & -> & ->).
    cbn [mbind option_bind]. unfold NEWLINE. rewrite !(proj2 (Z.eqb_neq _ _)) by done. cbn [negb andb].
    unfold buf_room in *. cbn [length] in *. destruct (append_next_at s _ _ H) as (s1 & -> & H1 & Eb); [unfold buf_room; lia|]. cbn [mbind option_bind].
    destruct (IH fuel s1 r H1 Hn) as (s' & -> & H' & Eb'); [rewrite Eb, length_app; cbn; lia|lia|].
    exists s'. split; [done|]. split; [done|]. by rewrite Eb', Eb, <- app_assoc.
Qed.

Lemma ident_loop_at name : ∀ fuel s d r,
  rest s = name ++ d :: r → Forall (λ c, word_char c = true) name → is_ident d = false → buf_room s (length name) → (length name < fuel)%nat →
  ∃ s', ident_loop fuel s = Some s' ∧ rest s' = d :: r ∧ sc_buf s' = sc_buf s ++ name.
Proof.
  induction name as [|c name IH]; intros fuel s d r H Hn Hd Hr Hf; (destruct fuel as [|fuel]; [cbn in Hf; lia|]); cbn [ident_loop].
  - destruct (rest_peek s _ _ H) as (-> & _). cbn [mbind option_bind]. rewrite Hd. exists s. by rewrite app_nil_r.
  - apply Forall_cons in Hn as [Hc Hn]. apply word_char_facts in Hc as (_ & _ & Hc & _). destruct (rest_peek s _ _ H) as (-> & _). cbn [mbind option_bind]. rewrite Hc.
    unfold buf_room in *. cbn [length] in *. destruct (append_next_at s _ _ H) as (s1 & -> & H1 & Eb); [unfold buf_room; lia|]. cbn [mbind option_bind].
    destruct (IH fuel s1 d r H1 Hn Hd) as (s' & -> & H' & Eb'); [rewrite Eb, length_app; cbn; lia|lia|].
    exists s'. split; [done|]. split; [done|]. by rewrite Eb', Eb, <- app_assoc.
Qed.

Lemma lex_keysym s n name r :
  rest s = replicate n 32 ++ 60 :: name ++ 62 :: r → Forall (λ c, word_char c = true) name → Z.of_nat (length name) <= XKB_KEYSYM_NAME_MAX_SIZE →
  ∃ s', lex s = Some (TOK_LHS_KEYSYM name, s') ∧ rest s' = r.
Proof.
  unfold XKB_KEYSYM_NAME_MAX_SIZE. intros H Hn Hl. destruct (lex_skip s n 60 _ H ltac:(done) ltac:(done)) as (fuel & s1 & -> & H1 & Eb & Hf).
  unfold lex_token. destruct (rest_chr s1 _ _ H1) as (s2 & -> & H2 & Eb2 & _). cbn [mbind option_bind]. cbn [length] in Hf. rewrite length_app in Hf.
  assert (sc_buf s2 = []) as E2 by congruence.
  destruct (lhs_loop_at name fuel s2 r H2 Hn) as (s3 & -> & H3 & Eb3); [unfold buf_room, sc_size; rewrite E2; cbn; lia|lia|]. cbn [mbind option_bind].
  rewrite E2 in Eb3. destruct (close_at s3 62 r TOK_LHS_KEYSYM H3) as (s4 & E & H4); [unfold buf_room, sc_size; rewrite Eb3; cbn; lia|].
  exists s4. rewrite E, Eb3. done.
Qed.

Lemma lex_colon s n r : rest s = replicate n 32 ++ 58 :: r → ∃ s', lex s = Some (TOK_COLON, s') ∧ rest s' = r.
Proof.
  intros H. destruct (lex_skip s n 58 _ H ltac:(done) ltac:(done)) as (fuel & s1 & -> & H1 & _). unfold lex_token.
  rewrite (rest_chr_ne s1 _ 60 _ H1) by done. cbn [mbind option_bind]. destruct (rest_chr s1 _ _ H1) as (s2 & -> & H2 & _). by exists s2.
Qed.

(** A word that starts like a name is an identifier. *)
Definition starts_word (name : list Z) : bool := match name with c :: _ => is_alpha c || (c =? 95) | [] => false end.

Lemma lex_ident s n name d r :
  rest s = replicate n 32 ++ name ++ d :: r → Forall (λ c, word_char c = true) name → starts_word name = true → is_ident d = false →
  Z.of_nat (length name) <= XKB_KEYSYM_NAME_MAX_SIZE → name ≠ chars "include" →
  ∃ s', lex s = Some (TOK_IDENT name, s') ∧ rest s' = d :: r.
Proof.
  unfold XKB_KEYSYM_NAME_MAX_SIZE. intros H Hn Hs Hd Hl Hi. destruct name as [|c name]; [done|]. pose proof (Forall_inv Hn) as Hc. cbn in Hs.
  apply word_char_facts in Hc as (_ & _ & _ & Hsp & Hc & _). destruct (lex_skip s n c _ H Hsp ltac:(done)) as (fuel & s1 & -> & H1 & Eb & Hf).
  unfold lex_token. assert (c ≠ 60 ∧ c ≠ 58 ∧ c ≠ 33 ∧ c ≠ 126 ∧ c ≠ 34) as (? & ? & ? & ? & ?) by (unfold is_alpha in Hs; zbool; lia).
  rewrite !(rest_chr_ne s1 c _ _ H1) by done. cbn [mbind option_bind]. destruct (rest_peek s1 _ _ H1) as (-> & _). cbn [mbind option_bind]. rewrite Hs. unfold lex_ident_token.
  change (c :: (name ++ d :: r)) with ((c :: name) ++ d :: r) in H1. cbn [length] in Hf. rewrite length_app in Hf.
  destruct (ident_loop_at (c :: name) fuel (sc_set_buf [] s1) d r H1 Hn Hd) as (s2 & -> & Hr2 & Eb2); [unfold buf_room, sc_size; cbn in *; lia|cbn; lia|].
  cbn [mbind option_bind]. cbn [sc_buf sc_set_buf app] in Eb2. unfold close_token. cbn [mbind option_bind]. rewrite Eb2, append_room by (rewrite Eb2; unfold sc_size; lia). cbn [mbind option_bind].
  rewrite bool_decide_eq_false_2 by done. eexists. split; [done|]. exact Hr2.
Qed.

(** ** Strings *)

(** [n] turns of the loop read [to] and put [str] into the buffer. *)
Definition consumes (n : nat) (to str : list Z) : Prop := ∀ fuel s r,
  rest s = to ++ r → buf_room s (length str) →
  ∃ s', string_loop (n + fuel) s = string_loop fuel s' ∧ rest s' = r ∧ sc_buf s' = sc_buf s ++ str.

Lemma consumes_nil : consumes 0 [] [].
Proof. intros fuel s r H _. exists s. by rewrite app_nil_r. Qed.

Lemma consumes_app n1 n2 to1 to2 str1 str2 : consumes n1 to1 str1 → consumes n2 to2 str2 → consumes (n1 + n2) (to1 ++ to2) (str1 ++ str2).
Proof.
  intros C1 C2 fuel s r H Hr. unfold buf_room in Hr. rewrite length_app in Hr. rewrite <- app_assoc in H.
  destruct (C1 (n2 + fuel)%nat s (to2 ++ r) H) as (s1 & E1 & H1 & Eb1); [unfold buf_room; lia|].
  destruct (C2 fuel s1 r H1) as (s2 & E2 & H2 & Eb2); [unfold buf_room; rewrite Eb1, length_app; lia|].
  exists s2. rewrite <- Nat.add_assoc, E1, E2, Eb2, Eb1, <- app_assoc. done.
Qed.

(** A character that stands for itself, and one after a backslash. *)
Lemma consumes_plain c : c ≠ 34 → c ≠ 10 → c ≠ 92 → consumes 1 [c] [c].
Proof.
  intros H1 H2 H3 fuel s r H Hr. destruct (rest_peek s _ _ H) as (Hp & Hl & He). cbn [Nat.add string_loop]. rewrite He, Hp, Hl. cbn [mbind option_bind]. unfold NEWLINE.
  rewrite (rest_chr_ne s c 92 r H), !(proj2 (Z.eqb_neq _ _)) by done. cbn [negb andb mbind option_bind].
  destruct (append_next_at s c r H Hr) as (s' & -> & ? & ?). by exists s'.
Qed.

Lemma consumes_escape fuel s r :
  rest s = 92 :: r → ∃ s1, string_loop (S fuel) s = (escape s1 ≫= string_loop fuel) ∧ rest s1 = r ∧ sc_buf s1 = sc_buf s.
Proof.
  intros H. destruct (rest_peek s _ _ H) as (Hp & Hl & He). cbn [string_loop]. rewrite He, Hp, Hl. cbn [negb andb Z.eqb Pos.eqb NEWLINE mbind option_bind].
  destruct (rest_chr s _ _ H) as (s1 & -> & H1 & Eb & _). by exists s1.
Qed.

Lemma append_at s c r s1 : rest s1 = r → sc_buf s1 = sc_buf s → buf_room s 1 →
  ∃ s', append_char s1 c = Some s' ∧ rest s' = r ∧ sc_buf s' = sc_buf s ++ [c].
Proof.
  intros H Eb Hr. unfold append_char. rewrite append_room by (rewrite Eb; unfold buf_room in Hr; lia). cbn [mbind option_bind]. eexists. split; [done|].
  cbn. by rewrite Eb.
Qed.

Lemma consumes_quoted c : c = 34 ∨ c = 92 → consumes 1 [92; c] [c].
Proof.
  intros Hc fuel s r H Hr. destruct (consumes_escape fuel s _ H) as (s1 & E & H1 & Eb).
  destruct (rest_chr s1 _ _ H1) as (s2 & E2 & H2 & Eb2 & _). destruct (append_at s c r s2 H2 ltac:(congruence) Hr) as (s' & Es & ? & ?). exists s'.
  split; [|done]. cbn [Nat.add]. rewrite E. unfold escape. destruct Hc as [-> | ->].
  - rewrite (rest_chr_ne s1 _ 92 _ H1) by done. cbn [mbind option_bind]. rewrite E2. cbn [mbind option_bind]. by rewrite Es.
  - rewrite E2. cbn [mbind option_bind]. by rewrite Es.
Qed.

Lemma hex_digit_value d : 0 <= d < 16 → is_xdigit (hex_digit 97 d) = true ∧ xdigit_value (hex_digit 97 d) = d.
Proof.
  intros Hd. assert (d = 0 ∨ d = 1 ∨ d = 2 ∨ d = 3 ∨ d = 4 ∨ d = 5 ∨ d = 6 ∨ d = 7 ∨ d = 8 ∨ d = 9 ∨ d = 10 ∨
    d = 11 ∨ d = 12 ∨ d = 13 ∨ d = 14 ∨ d = 15) as H by lia. repeat destruct H as [->|H]; try done. by subst.
Qed.

Lemma consumes_hex c : 0 < c < 256 → consumes 1 ([92; 120] ++ fmt_pad 48 2 (fmt_x c)) [c].
Proof.
  intros Hc fuel s r H Hr. unfold fmt_x in H. rewrite fmt_pad_hex in H by (cbn; lia). cbn [hex_fixed app] in H.
  destruct (consumes_escape fuel s _ H) as (s1 & E & H1 & Eb). cbn [Nat.add]. rewrite E. unfold escape.
  rewrite (rest_chr_ne s1 120 92 _ H1) by done. cbn [mbind option_bind]. rewrite (rest_chr_ne s1 120 34 _ H1) by done. cbn [mbind option_bind]. destruct (rest_chr s1 _ _ H1) as (s2 & -> & H2 & Eb2 & _). cbn [mbind option_bind].
  destruct (hex_digit_value (c / 16 mod 16)) as [Hx1 Hv1]; [mlia|]. destruct (hex_digit_value (c mod 16)) as [Hx2 Hv2]; [mlia|].
  unfold scanner_hex. cbn [hex_digits]. destruct (rest_peek s2 _ _ H2) as (-> & _). cbn [mbind option_bind]. rewrite Hx1.
  destruct (rest_next s2 _ _ H2) as (s3 & -> & H3 & Eb3 & _). cbn [mbind option_bind]. rewrite Hv1. destruct (rest_peek s3 _ _ H3) as (-> & _). cbn [mbind option_bind]. rewrite Hx2.
  destruct (rest_next s3 _ _ H3) as (s4 & -> & H4 & Eb4 & _). cbn [mbind option_bind]. rewrite Hv2. replace (((0 * 16 + c / 16 mod 16) mod 256 * 16 + c mod 16) mod 256) with c by mlia.
  unfold append_escaped, is_valid_char. rewrite (proj2 (Z.eqb_neq _ _)) by lia. change ((0 <? 0 + 1 + 1) && negb false) with true. cbn [mbind option_bind].
  destruct (append_at s c r s4 H4 ltac:(congruence) Hr) as (s' & -> & ? & ?). by exists s'.
Qed.

Lemma consumes_bytes l : Forall (λ c, 0x80 <= c) l → consumes (length l) l l.
Proof.
  induction 1 as [|c l Hc Hl IH]; [apply consumes_nil|]. apply (consumes_app 1 (length l) [c] l [c] l); [|done]. apply consumes_plain; lia.
Qed.

(** A character that is not ASCII is copied whole. *)
Lemma encode_bytes cp :
  scalar cp → 0x80 <= cp → ∃ b l, encode cp = b :: l ∧ 0x80 <= b ∧ char_bytes b = length (encode cp) ∧ Forall (λ c, 0x80 <= c < 256) (encode cp).
Proof.
  intros [Hs _] Hcp. unfold encode, char_bytes. rewrite (proj2 (Z.leb_gt _ _)) by lia. destruct (Z.leb_spec cp 0x7ff).
  { eexists _, _. split; [done|]. rewrite (proj2 (Z.ltb_lt _ _)) by mlia. split; [mlia|]. split; [done|]. repeat constructor; mlia. }
  destruct (Z.leb_spec cp 0xffff).
  { eexists _, _. split; [done|]. rewrite (proj2 (Z.ltb_ge _ 0xe0)), (proj2 (Z.ltb_lt _ 0xf0)) by mlia. split; [mlia|]. split; [done|]. repeat constructor; mlia. }
  eexists _, _. split; [done|]. rewrite !(proj2 (Z.ltb_ge _ _)) by mlia. split; [mlia|]. split; [done|]. repeat constructor; mlia.
Qed.

Lemma escape_spec cps : ∀ fuel prev,
  Forall scalar cps → Forall (λ cp, cp ≠ 0) cps → (length cps < fuel)%nat →
  ∃ n to, escape_loop fuel (concat (map encode cps)) prev = Some to ∧ Forall (λ c, 0 < c < 256) to ∧ (n <= length to)%nat ∧
    consumes n to (concat (map encode cps)).
Proof.
  induction cps as [|cp cps IH]; intros fuel prev Hs Hz Hf; (destruct fuel as [|fuel]; [cbn in Hf; lia|]).
  { exists 0%nat, []. split; [done|]. split; [constructor|]. split; [done|]. apply consumes_nil. }
  apply Forall_cons in Hs as [Hcp Hs], Hz as [Hz Hzs]. cbn [map concat length] in *. set (str := concat (map encode cps)) in *.
  assert (∀ prev to1 str1, (∃ n1, (n1 <= length to1)%nat ∧ consumes n1 to1 str1) → Forall (λ c, 0 < c < 256) to1 →
    ∃ n to, (to ← escape_loop fuel str prev; Some (to1 ++ to)) = Some to ∧ Forall (λ c, 0 < c < 256) to ∧ (n <= length to)%nat ∧
      consumes n to (str1 ++ str)) as Hstep.
  { intros prev' to1 str1 (n1 & Hn1 & Hc1) Hb1. destruct (IH fuel prev' Hs Hzs ltac:(lia)) as (n & to & -> & Hb & Hn & Hc). cbn [mbind option_bind].
    exists (n1 + n)%nat, (to1 ++ to). split; [done|]. split; [by apply Forall_app|]. split; [rewrite length_app; lia|]. by apply consumes_app. }
  destruct (Z.ltb_spec cp 0x80) as [Ha|Ha].
  - assert (encode cp = [cp]) as -> by (unfold encode; by rewrite (proj2 (Z.leb_le _ _)) by lia). destruct Hcp as [Hcp _].
    cbn [app escape_loop]. rewrite (proj2 (Z.ltb_lt _ _)) by lia. destruct ((cp <=? 0x10) || (cp =? 0x7f) || (is_xdigit cp && prev)) eqn:E1.
    { apply (Hstep true ([92; 120] ++ fmt_pad 48 2 (fmt_x cp)) [cp]); [exists 1%nat; split; [cbn; lia|apply consumes_hex; lia]|].
      unfold fmt_x. rewrite fmt_pad_hex by (cbn; lia). repeat (constructor; [lia|]).
      eapply Forall_impl; [apply (hex_words 97 2); by right|]. cbn. intros c Hc%word_named. unfold named in Hc. zbool; lia. }
    apply orb_false_iff in E1 as [[E1 _]%orb_false_iff _]. destruct ((cp =? 34) || (cp =? 92)) eqn:E2.
    { apply (Hstep false [92; cp] [cp]); [exists 1%nat; split; [cbn; lia|apply consumes_quoted; lia]|]. repeat (constructor; [lia|]); constructor. }
    apply (Hstep false [cp] [cp]); [exists 1%nat; split; [cbn; lia|apply consumes_plain; lia]|]. repeat (constructor; [lia|]); constructor.
  - destruct (encode_bytes cp Hcp Ha) as (b & l & E & Hb & Hn & Hl). assert (encode cp ++ str = b :: l ++ str) as E' by (by rewrite E).
    assert (escape_loop (S fuel) (encode cp ++ str) prev = (to ← escape_loop fuel str false; Some (encode cp ++ to))) as ->.
    { rewrite E'. cbn [escape_loop]. rewrite (proj2 (Z.ltb_ge _ _)) by lia. change (b :: l ++ str) with ((b :: l) ++ str).
      rewrite <- E, Hn, (proj2 (Nat.ltb_ge _ _)) by (rewrite length_app; lia). by rewrite drop_app_length, <- app_assoc, take_app_length. }
    apply (Hstep false (encode cp) (encode cp)); [|eapply Forall_impl; [exact Hl|cbn; lia]]. exists (length (encode cp)). split; [done|].
    apply consumes_bytes. eapply Forall_impl; [exact Hl|cbn; lia].
Qed.

Lemma valid_codes str :
  is_valid_utf8 str = Some true → is_string str →
  ∃ cps, str = concat (map encode cps) ∧ Forall scalar cps ∧ Forall (λ cp, cp ≠ 0) cps.
Proof.
  intros Hv Hz. destruct (valid_sound (S (length str)) str) as (cps & Hs & ->); [eapply Forall_impl; [exact Hz|cbn; lia]|done|]. exists cps. split; [done|]. split; [done|].
  apply Forall_forall. intros cp Hcp ->. unfold is_string in Hz. rewrite Forall_forall in Hz. cut (0 < 0 < 256); [lia|]. apply Hz. apply list_elem_of_In, in_concat. exists (encode 0).
  split; [|by left]. apply in_map. by apply list_elem_of_In.
Qed.

Lemma escape_literal str :
  is_valid_utf8 str = Some true → is_string str →
  ∃ n to, escape_utf8_string_literal str = Some to ∧ Forall (λ c, 0 < c < 256) to ∧ (n <= length to)%nat ∧ consumes n to str.
Proof.
  intros Hv Hz. destruct (valid_codes str Hv Hz) as (cps & -> & Hs & Hne). pose proof (concat_encode_length cps).
  destruct (escape_spec cps (S (length (concat (map encode cps)))) false Hs Hne ltac:(lia)) as (n & to & E & Hb & Hn & Hc).
  exists n, to. split; [|done]. unfold escape_utf8_string_literal. rewrite E. cbn [mbind option_bind]. f_equal. apply cstring_id.
  eapply Forall_impl; [exact Hb|]. cbn. lia.
Qed.

Lemma lex_string s n m to str r :
  rest s = replicate n 32 ++ 34 :: to ++ 34 :: r → consumes m to str → (m <= length to)%nat → is_valid_utf8 str = Some true →
  Z.of_nat (length str) + 1 < sc_size → ∃ s', lex s = Some (TOK_STRING str, s') ∧ rest s' = r.
Proof.
  intros H Hc Hm Hv Hl. destruct (lex_skip s n 34 _ H ltac:(done) ltac:(done)) as (fuel & s1 & -> & H1 & Eb & Hf). unfold lex_token.
  rewrite (rest_chr_ne s1 34 60 _ H1) by done. cbn [mbind option_bind]. rewrite (rest_chr_ne s1 34 58 _ H1) by done. cbn [mbind option_bind].
  rewrite (rest_chr_ne s1 34 33 _ H1) by done. cbn [mbind option_bind]. rewrite (rest_chr_ne s1 34 126 _ H1) by done. cbn [mbind option_bind]. destruct (rest_chr s1 _ _ H1) as (s2 & -> & H2 & Eb2 & _). cbn [mbind option_bind]. unfold lex_string_token.
  cbn [length] in Hf. rewrite length_app in Hf. cbn [length] in Hf.
  assert (sc_buf s2 = []) as E2 by congruence. destruct (Hc (fuel - m)%nat s2 _ H2) as (s3 & E & H3 & Eb3); [unfold buf_room; rewrite E2; cbn; lia|].
  replace (m + (fuel - m))%nat with fuel in E by lia. rewrite E. destruct (fuel - m)%nat eqn:Ef; [lia|]. cbn [string_loop].
  destruct (rest_peek s3 _ _ H3) as (-> & -> & ->). cbn [negb andb Z.eqb Pos.eqb NEWLINE mbind option_bind].
  rewrite E2 in Eb3. cbn [app] in Eb3. destruct (close_at s3 34 r TOK_STRING H3) as (s4 & E4 & H4); [unfold buf_room; rewrite Eb3; lia|].
  rewrite E4, Eb3. cbn [mbind option_bind]. rewrite Hv. cbn [mbind option_bind]. by exists s4.
Qed.

Lemma string_literal_roundtrip str :
  is_valid_utf8 str = Some true → is_string str → Z.of_nat (length str) + 1 < sc_size →
  ∃ to, escape_utf8_string_literal str = Some to ∧ parse_string_literal ([34] ++ to ++ [34]) = Some (Some str).
Proof.
  intros Hv Hz Hl. destruct (escape_literal str Hv Hz) as (n & to & E & Hb & Hn & Hc). exists to. split; [done|]. unfold parse_string_literal.
  destruct (lex_string (scanner_init ([34] ++ to ++ [34])) 0 n to str [] eq_refl Hc Hn Hv Hl) as (s' & -> & _). cbn. rewrite cstring_id; [done|]. eapply Forall_impl; [exact Hz|cbn; lia].
Qed.

(** ** Lines *)

(** A keysym whose name fits the buffer, and one that can stand on the right. *)
Definition printable_keysym (k : Z) : Prop :=
  0 < k <= XKB_KEYSYM_MAX ∧ ∃ len buf, xkb_keysym_get_name k XKB_KEYSYM_NAME_MAX_SIZE = Some (len, buf) ∧ len < XKB_KEYSYM_NAME_MAX_SIZE.
Definition printable_result (k : Z) : Prop := printable_keysym k ∧ ∃ name, print_keysym k = Some name ∧ starts_word name = true.

Lemma include_no_keysym : xkb_keysym_from_name true (chars "include") 0 = Some 0.
Proof. vm_compute. reflexivity. Qed.

Lemma print_keysym_spec k :
  printable_keysym k →
  ∃ name, print_keysym k = Some name ∧ Forall (λ c, word_char c = true) name ∧ Z.of_nat (length name) <= XKB_KEYSYM_NAME_MAX_SIZE ∧
    cstring name = name ∧ xkb_keysym_from_name true name 0 = Some k ∧ name ≠ chars "include".
Proof.
  intros (Hk & len & buf & E & Hl). destruct (printed_name true k ltac:(lia)) as (name & En & Hw & Hn & Hf).
  assert (cstring name = name) as Hc by (apply cstring_id; eapply Forall_impl; [exact Hw|]; cbn; intros c Hc; by apply word_char_facts in Hc as (_ & _ & _ & _ & _ & ?)).
  exists name. split; [|split; [done|]; split; [done|]; split; [done|]; split; [done|]].
  - unfold print_keysym. rewrite En in E |- *. cbn [mbind option_bind]. injection E as <- _. rewrite snprintf_fits by lia. f_equal.
    apply cstring_app. eapply Forall_impl; [exact Hw|]. intros c. apply word_named.
  - intros ->. rewrite include_no_keysym in Hf. injection Hf. lia.
Qed.

(** A text as a list of characters and parts. *)
Ltac flatten H := repeat (cbn [app] in H; rewrite ?app_nil_r in H; try (rewrite <- app_assoc in H)); cbn [app] in H.

Section lines.
Context (env : include_env) (do_include : xkb_compose_table → list Z → option (bool * xkb_compose_table)).

Definition moves (a b : label * parse_state) : Prop := parse_step env do_include a.1 a.2 = Some b ∧ a.1 ≠ L_finished ∧ a.1 ≠ L_fail.
Definition reaches : relation (label * parse_state) := rtc moves.

Lemma reaches_step l st l' st' z :
  parse_step env do_include l st = Some (l', st') → l ≠ L_finished → l ≠ L_fail → reaches (l', st') z → reaches (l, st) z.
Proof. intros E H1 H2 H. by eapply rtc_l; [|exact H]. Qed.

Lemma run_reaches l st st' : reaches (l, st) (L_finished, st') → ∃ fuel, parse_run env do_include fuel l st = Some (true, ps_table st').
Proof.
  intros H. remember (l, st) as a eqn:Ea. remember (L_finished, st') as b eqn:Eb. revert l st st' Ea Eb.
  induction H as [a|a c b [E [H1 H2]] Hr IH]; intros l st st' -> Eb; [injection Eb as -> ->; by exists 0%nat|].
  destruct c as [l1 st1]. destruct (IH l1 st1 st' eq_refl Eb) as [fuel Hf]. exists (S fuel). cbn [fst snd] in *.
  destruct l; try done; cbn [parse_run]; rewrite E; exact Hf.
Qed.

Lemma parse_run_mono fuel : ∀ fuel' l st r,
  parse_run env do_include fuel l st = Some r → (fuel <= fuel')%nat → parse_run env do_include fuel' l st = Some r.
Proof.
  induction fuel as [|fuel IH]; intros fuel' l st r H Hf; [by destruct l, fuel'|]. destruct fuel' as [|fuel']; [lia|].
  destruct l; cbn [parse_run] in *; try done.
  all: destruct (parse_step _ _ _ _) as [[l1 st1]|] eqn:E; [|done]; cbn [mbind option_bind] in *; apply (IH fuel'); [done|lia].
Qed.

(** The state with another production and scanner. *)
Definition ps_at (st : parse_state) (p : production) (s : scanner) : parse_state := mk_ps (ps_table st) s p (ps_errors st).

(** The production after the keysyms and after the text of a line. *)
Definition p_add_all (syms : list Z) (p : production) : production :=
  mk_production (p_lhs p ++ syms) (p_keysym p) (p_string p) (p_has_keysym p) (p_has_string p) 0 0.
Definition p_with_string (str : list Z) (p : production) : production :=
  mk_production (p_lhs p) (p_keysym p) str (p_has_keysym p) true (p_modmask p) (p_mods p).

Lemma keysym_reaches l st n k name r :
  l = L_initial_eol ∨ l = L_lhs → rest (ps_s st) = replicate n 32 ++ 60 :: name ++ 62 :: r → print_keysym k = Some name → printable_keysym k →
  Z.of_nat (length (p_lhs (ps_prod st))) < MAX_LHS_LEN →
  ∃ s, reaches (l, st) (L_lhs, ps_at st (p_add_all [k] (ps_prod st)) s) ∧ rest s = r.
Proof.
  intros Hl H En Hk Hlen. destruct (print_keysym_spec k Hk) as (name' & En' & Hw & Hn & Hc & Hf & _).
  rewrite En in En'. injection En' as <-. destruct (lex_keysym (ps_s st) n name r H Hw Hn) as (s & E & Hr). exists s. split; [|done].
  destruct Hk as [Hk _]. apply (reaches_step _ _ (L_lhs_tok (TOK_LHS_KEYSYM name)) (ps_set_s s st)); [|by destruct Hl as [-> | ->]..|].
  { destruct Hl as [-> | ->]; cbn [parse_step]; unfold lex_step; by rewrite E. }
  apply (reaches_step _ _ (L_lhs_keysym_tok (TOK_LHS_KEYSYM name)) (ps_set_s s st)); [done..|].
  eapply reaches_step; [|done..|apply rtc_refl]. cbn [parse_step lhs_keysym_step]. rewrite Hc, Hf. cbn [mbind option_bind].
  unfold XKB_KEY_NoSymbol. rewrite (proj2 (Z.eqb_neq _ _)) by lia. cbn [ps_prod ps_set_s]. rewrite (proj2 (Z.ltb_ge _ _)) by lia.
  unfold p_add_lhs. by rewrite (proj2 (Z.ltb_lt _ _)).
Qed.

Lemma sequence_reaches syms : ∀ l st n text r,
  syms ≠ [] → l = L_initial_eol ∨ l = L_lhs → print_sequence syms = Some text → rest (ps_s st) = replicate n 32 ++ text ++ r → Forall printable_keysym syms →
  Z.of_nat (length (p_lhs (ps_prod st)) + length syms) <= MAX_LHS_LEN →
  ∃ s, reaches (l, st) (L_lhs, ps_at st (p_add_all syms (ps_prod st)) s) ∧ rest s = r.
Proof.
  induction syms as [|k syms IH]; intros l st n text r Hne Hl E H Hs Hlen; [done|]. apply Forall_cons in Hs as [Hk Hs].
  cbn [print_sequence] in E. destruct (print_keysym k) as [name|] eqn:En; [|done]. cbn [mbind option_bind] in E.
  destruct (print_sequence syms) as [text'|] eqn:Et; [|done]. cbn [mbind option_bind] in E. injection E as <-.
  cbn [length] in Hlen. destruct syms as [|k' syms].
  - injection Et as <-. flatten H. destruct (keysym_reaches l st n k name _ Hl H En Hk ltac:(lia)) as (s & Hr & Hrest). by exists s.
  - flatten H. destruct (keysym_reaches l st n k name _ Hl H En Hk ltac:(lia)) as (s & Hr & Hrest).
    destruct (IH L_lhs (ps_at st (p_add_all [k] (ps_prod st)) s) 1%nat text' r ltac:(done) (or_intror eq_refl) eq_refl Hrest Hs) as (s' & Hr' & Hrest').
    { cbn. rewrite length_app. cbn in *. lia. }
    exists s'. split; [|done]. etrans; [exact Hr|]. unfold ps_at, p_add_all in *. cbn in *. by rewrite <- app_assoc in Hr'.
Qed.

(** The right-hand side: a string, a name, the end of the line. *)
Lemma string_reaches st n m to str r :
  rest (ps_s st) = replicate n 32 ++ 34 :: to ++ 34 :: r → consumes m to str → (m <= length to)%nat → is_valid_utf8 str = Some true → is_string str →
  Z.of_nat (length str) < XKB_COMPOSE_MAX_STRING_SIZE → p_has_string (ps_prod st) = false →
  ∃ s, reaches (L_rhs, st) (L_rhs, ps_at st (p_with_string str (ps_prod st)) s) ∧ rest s = r.
Proof.
  unfold XKB_COMPOSE_MAX_STRING_SIZE. intros H Hc Hm Hv Hs Hl Hp.
  destruct (lex_string (ps_s st) n m to str r H Hc Hm Hv) as (s & E & Hr); [unfold sc_size; lia|]. exists s. split; [|done].
  eapply reaches_step; [|done..|apply rtc_refl]. cbn [parse_step]. unfold lex_step. rewrite E. cbn [mbind option_bind rhs_step ps_prod ps_set_s].
  rewrite Hp. unfold XKB_COMPOSE_MAX_STRING_SIZE. rewrite (proj2 (Z.leb_gt _ _)), (proj2 (Z.ltb_ge _ _)) by lia.
  rewrite cstring_id by (eapply Forall_impl; [exact Hs|cbn; lia]). unfold p_set_string, XKB_COMPOSE_MAX_STRING_SIZE. by rewrite (proj2 (Z.leb_le _ _)) by lia.
Qed.

Lemma end_production_adds tok st T :
  p_has_string (ps_prod st) || p_has_keysym (ps_prod st) = true → add_production (ps_table st) (ps_prod st) = Some T →
  end_production tok st = Some (L_initial, ps_set_table T st).
Proof. unfold end_production. intros H ->. destruct (p_has_string (ps_prod st)), (p_has_keysym (ps_prod st)); done. Qed.

Lemma newline_reaches st T r :
  rest (ps_s st) = 10 :: r → p_has_string (ps_prod st) || p_has_keysym (ps_prod st) = true → add_production (ps_table st) (ps_prod st) = Some T →
  ∃ s, reaches (L_rhs, st) (L_initial_eol, mk_ps T s (p_reset (ps_prod st)) (ps_errors st)) ∧ rest s = r.
Proof.
  intros H Hany Ea. destruct (lex_newline _ _ H) as (s & E & Hr). exists s. split; [|done].
  apply (reaches_step _ _ L_initial (ps_set_table T (ps_set_s s st))); [|done..|eapply reaches_step; [done|done|done|apply rtc_refl]].
  cbn [parse_step]. unfold lex_step. rewrite E. cbn [mbind option_bind rhs_step]. by apply end_production_adds.
Qed.

Lemma name_reaches st n k name T r :
  rest (ps_s st) = replicate n 32 ++ name ++ 10 :: r → printable_result k → print_keysym k = Some name → p_has_keysym (ps_prod st) = false →
  add_production (ps_table st) (p_set_keysym k (ps_prod st)) = Some T →
  ∃ s, reaches (L_rhs, st) (L_initial_eol, mk_ps T s (p_reset (p_set_keysym k (ps_prod st))) (ps_errors st)) ∧ rest s = r.
Proof.
  intros H (Hk & name' & En' & Hw) En Hp Ea. rewrite En in En'. injection En' as <-.
  destruct (print_keysym_spec k Hk) as (name' & En' & Hn & Hl & Hc & Hf & Hi). rewrite En in En'. injection En' as <-. destruct Hk as [Hk _].
  destruct (lex_ident (ps_s st) n name 10 r H Hn Hw ltac:(done) Hl Hi) as (s1 & E1 & H1). destruct (lex_newline _ _ H1) as (s & E & Hr).
  exists s. split; [|done]. eapply (reaches_step _ _ L_initial); [|done..|].
  { cbn [parse_step]. unfold lex_step. rewrite E1. cbn [mbind option_bind rhs_step ps_prod ps_set_s]. rewrite Hc, Hf. cbn [mbind option_bind].
    unfold XKB_KEY_NoSymbol. rewrite (proj2 (Z.eqb_neq _ _)) by lia. rewrite Hp. apply end_production_adds; [cbn; apply orb_true_r|exact Ea]. }
  eapply reaches_step; [reflexivity|done|done|]. eapply reaches_step; [|done..|apply rtc_refl]. cbn [parse_step]. unfold lex_step. cbn [ps_s ps_set_prod ps_set_table ps_set_s].
  by rewrite E.
Qed.

(** The entries whose line is read back: an empty text is not printed. *)
Record printable (syms text : list Z) (k : Z) : Prop := mk_printable {
  pr_syms : syms ≠ [] ∧ Z.of_nat (length syms) <= MAX_LHS_LEN ∧ Forall printable_keysym syms;
  pr_text : is_valid_utf8 text = Some true ∧ is_string text ∧ Z.of_nat (length text) < XKB_COMPOSE_MAX_STRING_SIZE;
  pr_keysym : k ≠ 0 → printable_result k;
  pr_any : text ≠ [] ∨ k ≠ 0
}.

(** The production that the line of an entry makes; an earlier string may be
    there still. *)
Definition string_ok (q : production) : Prop :=
  Forall (λ c, c ≠ 0) (p_string q) ∧ Z.of_nat (length (p_string q)) < XKB_COMPOSE_MAX_STRING_SIZE.
Definition printed_as (syms text : list Z) (k : Z) (q : production) : Prop :=
  p_lhs q = syms ∧ p_has_string q = negb (bool_decide (text = [])) ∧ (text ≠ [] → p_string q = text) ∧
  p_has_keysym q = negb (k =? 0) ∧ (k ≠ 0 → p_keysym q = k) ∧ string_ok q.

Lemma words_string l : Forall (λ c, word_char c = true) l → is_string l.
Proof. intros H. eapply Forall_impl; [exact H|]. cbn. intros c Hc%word_named. unfold named in Hc. lia. Qed.

Lemma print_sequence_some syms : Forall printable_keysym syms → ∃ lhs, print_sequence syms = Some lhs ∧ is_string lhs.
Proof.
  induction 1 as [|k syms Hk Hs (lhs & E & Hb)]; [exists []; split; [done|constructor]|]. destruct (print_keysym_spec k Hk) as (name & En & Hw & _). cbn [print_sequence].
  rewrite En, E. cbn [mbind option_bind]. eexists. split; [done|]. unfold is_string in *. rewrite !Forall_app. split_and!; try done; [by repeat constructor| |by repeat constructor|].
  - by apply words_string.
  - destruct syms; [constructor|by repeat constructor].
Qed.

(** The text of an entry, in its parts. *)
Lemma print_entry_some U u syms text k :
  printable syms text k → utf8_at U u = Some text →
  ∃ lhs string name, print_compose_table_entry U (syms, (u, k)) = Some (lhs ++ [32; 58; 32] ++ string ++ name ++ [10]) ∧
    is_string (lhs ++ [32; 58; 32] ++ string ++ name ++ [10]) ∧ print_sequence syms = Some lhs ∧
    (text = [] ∧ string = [] ∨ text ≠ [] ∧ ∃ m to, string = [32; 34] ++ to ++ [34] ∧ consumes m to text ∧ (m <= length to)%nat) ∧
    (k = 0 ∧ name = [] ∨ k ≠ 0 ∧ ∃ nm, name = 32 :: nm ∧ print_keysym k = Some nm).
Proof.
  intros [(_ & _ & Hs) (Hv & Ht & _) Hk _] Hu. unfold print_compose_table_entry. destruct (print_sequence_some syms Hs) as (lhs & E & Hb).
  rewrite E, Hu. cbn [mbind option_bind]. unfold XKB_KEY_NoSymbol.
  assert (∃ name, (if negb (k =? 0) then name ← print_keysym k; Some (32 :: name) else Some []) = Some name ∧ is_string name ∧
    (k = 0 ∧ name = [] ∨ k ≠ 0 ∧ ∃ nm, name = 32 :: nm ∧ print_keysym k = Some nm)) as (name & -> & Hnb & Hname).
  { destruct (Z.eqb_spec k 0) as [->|Hne]; [exists []; split; [done|]; split; [constructor|by left]|].
    destruct (Hk Hne) as [Hp _]. destruct (print_keysym_spec k Hp) as (nm & -> & Hw & _). exists (32 :: nm). split; [done|].
    split; [constructor; [done|]|right; split; [done|]; by exists nm]. by apply words_string. }
  destruct text as [|c text'] eqn:Etext.
  - cbn [mbind option_bind]. exists lhs, [], name. split; [done|]. split; [unfold is_string in *; rewrite !Forall_app; split_and!; try done; by repeat constructor|]. split; [done|]. split; [by left|done].
  - destruct (escape_literal (c :: text') Hv Ht) as (m & to & Ee & Hto & Hm & Hc). rewrite Ee. cbn [mbind option_bind].
    exists lhs, ([32; 34] ++ to ++ [34]), name. split; [done|]. split; [|split; [done|]; split; [right; split; [done|]; by exists m, to|done]].
    unfold is_string in *. rewrite !Forall_app. split_and!; try done; try (by repeat constructor).
Qed.

Lemma colon_reaches st r :
  rest (ps_s st) = 32 :: 58 :: r → p_lhs (ps_prod st) ≠ [] → ∃ s, reaches (L_lhs, st) (L_rhs, ps_set_s s st) ∧ rest s = r.
Proof.
  intros H Hne. destruct (lex_colon (ps_s st) 1 r H) as (s & E & Hr). exists s. split; [|done].
  apply (reaches_step _ _ (L_lhs_tok TOK_COLON) (ps_set_s s st)); [cbn [parse_step]; unfold lex_step; by rewrite E|done..|].
  eapply reaches_step; [|done..|apply rtc_refl]. cbn [parse_step lhs_tok_step ps_prod ps_set_s]. by destruct (p_lhs (ps_prod st)).
Qed.

(** The right-hand side of a printed entry. *)
Lemma result_reaches st text k string name r :
  p_has_string (ps_prod st) = false → p_has_keysym (ps_prod st) = false → string_ok (ps_prod st) →
  is_valid_utf8 text = Some true ∧ is_string text ∧ Z.of_nat (length text) < XKB_COMPOSE_MAX_STRING_SIZE →
  (k ≠ 0 → printable_result k) → text ≠ [] ∨ k ≠ 0 →
  (text = [] ∧ string = [] ∨ text ≠ [] ∧ ∃ m to, string = [32; 34] ++ to ++ [34] ∧ consumes m to text ∧ (m <= length to)%nat) →
  (k = 0 ∧ name = [] ∨ k ≠ 0 ∧ ∃ nm, name = 32 :: nm ∧ print_keysym k = Some nm) →
  rest (ps_s st) = 32 :: string ++ name ++ 10 :: r →
  (∀ q, printed_as (p_lhs (ps_prod st)) text k q → ∃ T, add_production (ps_table st) q = Some T) →
  ∃ q T s, printed_as (p_lhs (ps_prod st)) text k q ∧ add_production (ps_table st) q = Some T ∧
    reaches (L_rhs, st) (L_initial_eol, mk_ps T s (p_reset q) (ps_errors st)) ∧ rest s = r.
Proof.
  intros Hs0 Hk0 Hok (Hv & Ht & Hl) Hk Hany Hstring Hname H Hadd. set (p := ps_prod st) in *.
  destruct Hstring as [[-> ->]|(Hne & m & to & -> & Hc & Hm)].
  - destruct Hname as [[-> ->]|(Hne & nm & -> & En)]; [destruct Hany; done|]. cbn [app] in H.
    assert (printed_as (p_lhs p) [] k (p_set_keysym k p)) as Hq by (split_and!; try done; by rewrite (proj2 (Z.eqb_neq _ _))).
    destruct (Hadd _ Hq) as [T Ea]. destruct (name_reaches st 2 k nm T r H (Hk Hne) En Hk0 Ea) as (s & Hr & Hs). by exists (p_set_keysym k p), T, s.
  - assert (bool_decide (text = []) = false) as Hb by (by apply bool_decide_eq_false_2). flatten H.
    assert (string_ok (p_with_string text p)) as Hok' by (split; [eapply Forall_impl; [exact Ht|cbn; lia]|done]).
    destruct (string_reaches st 2 m to text _ H Hc Hm Hv Ht Hl Hs0) as (s1 & Hr1 & H1). fold p in Hr1.
    destruct Hname as [[-> ->]|(Hkne & nm & -> & En)]; cbn [app] in H1.
    + assert (printed_as (p_lhs p) text 0 (p_with_string text p)) as Hq by (split_and!; try done; by rewrite Hb).
      destruct (Hadd _ Hq) as [T Ea]. destruct (newline_reaches (ps_at st (p_with_string text p) s1) T r H1 eq_refl Ea) as (s & Hr & Hs).
      exists (p_with_string text p), T, s. split_and!; try done. by etrans.
    + set (q := p_set_keysym k (p_with_string text p)).
      assert (printed_as (p_lhs p) text k q) as Hq by (split_and!; try done; [by rewrite Hb|by rewrite (proj2 (Z.eqb_neq _ _))]).
      destruct (Hadd _ Hq) as [T Ea].
      destruct (name_reaches (ps_at st (p_with_string text p) s1) 1 k nm T r H1 (Hk Hkne) En Hk0 Ea) as (s & Hr & Hs).
      exists q, T, s. split_and!; try done. by etrans.
Qed.

(** A line is read back as its entry. *)
Lemma line_reaches st U u syms text k line r :
  printable syms text k → utf8_at U u = Some text → print_compose_table_entry U (syms, (u, k)) = Some line →
  rest (ps_s st) = line ++ r → ps_prod st = p_reset (ps_prod st) → string_ok (ps_prod st) →
  (∀ q, printed_as syms text k q → ∃ T, add_production (ps_table st) q = Some T) →
  ∃ q T s, printed_as syms text k q ∧ add_production (ps_table st) q = Some T ∧
    reaches (L_initial_eol, st) (L_initial_eol, mk_ps T s (p_reset q) (ps_errors st)) ∧ rest s = r.
Proof.
  intros Hp Hu E H Hf Hok Hadd. destruct (print_entry_some U u syms text k Hp Hu) as (lhs & string & name & E' & _ & El & Hstring & Hname).
  rewrite E in E'. injection E' as ->. destruct Hp as [(Hne & Hl & Hs) Ht Hk Hany].
  assert (p_lhs (ps_prod st) = [] ∧ p_has_string (ps_prod st) = false ∧ p_has_keysym (ps_prod st) = false) as (Hp1 & Hp2 & Hp3) by (by rewrite Hf).
  flatten H. destruct (sequence_reaches syms L_initial_eol st 0 lhs _ Hne (or_introl eq_refl) El H Hs) as (s1 & Hr1 & H1); [by rewrite Hp1|].
  destruct (colon_reaches (ps_at st (p_add_all syms (ps_prod st)) s1) _ H1) as (s2 & Hr2 & H2); [cbn; by rewrite Hp1|].
  destruct (result_reaches (ps_set_s s2 (ps_at st (p_add_all syms (ps_prod st)) s1)) text k string name r Hp2 Hp3 Hok Ht Hk Hany Hstring Hname H2)
    as (q & T & s & Hq & Ea & Hr3 & Hs3); cbn [p_lhs p_add_all ps_prod ps_set_s ps_at ps_table ps_errors] in *; rewrite ?Hp1 in *; [done|].
  exists q, T, s. split_and!; try done. etrans; [exact Hr1|]. by etrans.
Qed.
End lines.

(** A name of 27 characters, Greek_upsilonaccentdieresis, loses its last one
    and is no keysym then. *)
Lemma long_name_lost : ∃ name, print_keysym 0x7ba = Some name ∧ xkb_keysym_from_name true name 0 = Some XKB_KEY_NoSymbol.
Proof. exists (chars "Greek_upsilonaccentdieresi"). split; vm_compute; reflexivity. Qed.

(** The keysym of a digit has the digit for a name, which is no token on the
    right-hand side: the line of [<a> : "x" U0031] is skipped when it is read
    back. *)
Definition digit_line : production := mk_production [0x61] 0x31 [120] true true 0 0.
Lemma digit_name_lost :
  (T ← add_all xkb_compose_table_new [digit_line]; text ← print_compose_table T; parse_string demo_env demo_files xkb_compose_table_new text) =
    Some (true, xkb_compose_table_new).
Proof. vm_compute. reflexivity. Qed.

(** ** The map of the printed table *)

(** An entry that reads back: the sequence has at most [MAX_LHS_LEN] keysyms,
    their names fit the buffer with the terminator (26 characters), the text,
    if there is one, is not empty, valid UTF-8 without a null character and
    shorter than 256 bytes, and the name of the keysym, if there is one, starts
    with a letter or an underscore. *)
Definition printable_entry (s : list Z) (e : entry) : Prop :=
  match e.1 with Some [] => False | text => printable s (default [] text) e.2 end.

Lemma entry_text U u k s e text :
  utf8_at U 0 = Some [] → utf8_at U u = Some text → e = entry_of U (u, k) → printable_entry s e →
  printable s text k ∧ e = (if bool_decide (text = []) then None else Some text, k).
Proof.
  unfold printable_entry, entry_of. intros H0 Hu ->. cbn [fst snd]. destruct (Z.eqb_spec u 0) as [->|Hne].
  - rewrite H0 in Hu. injection Hu as <-. done.
  - unfold text_of. rewrite Hu. cbn [default]. destruct text; [done|]. done.
Qed.

(** A line whose sequence is new, and no prefix of another nor the other way round. *)
Lemma compose_add_new m s text k q :
  printed_as s text k q → (∀ s', is_Some (m !! s') → ¬ s' `prefix_of` s ∧ ¬ s `prefix_of` s') →
  compose_add m q = <[s := (if bool_decide (text = []) then None else Some text, k)]> m.
Proof.
  intros (El & Hs & Ht & Hk & Hkk & _) Hm. assert (m !! s = None) as Hnew by (apply eq_None_not_Some; intros H; by destruct (Hm s H) as [[] _]).
  unfold compose_add. rewrite El. assert (longer m s = false) as ->.
  { apply not_true_is_false. intros (k' & s' & H)%longer_spec. destruct (Hm _ H) as [_ []]. by exists (k' :: s'). }
  rewrite Hnew. unfold updated. cbn [default]. rewrite Hs, Hk. rewrite map_filter_id by (intros s' e He; cbn; apply (Hm s'); by eexists).
  f_equal. f_equal; [case_bool_decide; [done|]; cbn; by rewrite Ht|]. destruct (Z.eqb_spec k 0) as [->|]; [done|]. cbn. auto.
Qed.

Lemma printed_adds T t m s text k q :
  models T t m → room (ct_utf8 T) → num_nodes T + MAX_LHS_LEN < MAX_COMPOSE_NODES → printable s text k → printed_as s text k q →
  ∃ T' t', add_production T q = Some T' ∧ models T' t' (compose_add m q) ∧ num_nodes T' <= num_nodes T + MAX_LHS_LEN ∧
    Z.of_nat (length (ct_utf8 T')) <= Z.of_nat (length (ct_utf8 T)) + XKB_COMPOSE_MAX_STRING_SIZE.
Proof.
  intros Hm Hr Hn [(Hne & Hl & _) _ _ Hany] (El & Hs & _ & Hk & _ & Hst & Hsl).
  destruct (add_production_models T t m q Hm) as (T' & t' & E & Hm' & Hn' & Hu'); [|done|rewrite El; lia|].
  { split; [by rewrite El| |done]. unfold p_ok. rewrite Hs, Hk. destruct Hany; [right; by rewrite bool_decide_eq_false_2|left; by rewrite (proj2 (Z.eqb_neq _ _))]. }
  exists T', t'. rewrite El in Hn'. split; [done|]. split; [done|]. lia.
Qed.

Definition prefix_free (m : gmap (list Z) entry) : Prop := ∀ s s', is_Some (m !! s) → is_Some (m !! s') → s `prefix_of` s' → s = s'.

Section entries.
Context (env : include_env) (do_include : xkb_compose_table → list Z → option (bool * xkb_compose_table)).
Context (U : list Z) (M : gmap (list Z) entry).
Hypothesis HU : utf8_at U 0 = Some [].
Hypothesis HM : map_Forall printable_entry M.
Hypothesis Hfree : prefix_free M.

(** The entries still to print. *)
Definition pending (l : list (list Z * (Z * Z))) (m : gmap (list Z) entry) : Prop :=
  Forall (λ x, M !! x.1 = Some (entry_of U x.2) ∧ is_Some (utf8_at U x.2.1) ∧ m !! x.1 = None) l ∧ NoDup l.*1 ∧ m ⊆ M.

Lemma pending_next s x l m :
  M !! s = Some (entry_of U x) → s ∉ l.*1 → NoDup l.*1 →
  Forall (λ x, M !! x.1 = Some (entry_of U x.2) ∧ is_Some (utf8_at U x.2.1) ∧ m !! x.1 = None) l → m ⊆ M →
  pending l (<[s := entry_of U x]> m).
Proof.
  intros HMs Hs Hnd Hl Hsub. split; [|split; [done|by apply insert_subseteq_l]]. rewrite Forall_forall in *. intros y Hy.
  destruct (Hl y Hy) as (H1 & H2 & H3). split; [done|]. split; [done|]. rewrite lookup_insert_ne; [done|]. intros ->. apply Hs. by apply list_elem_of_fmap_2.
Qed.

Lemma entries_reach l : ∀ st t m text,
  models (ps_table st) t m → pending l m → print_entries U l = Some text → rest (ps_s st) = text →
  ps_prod st = p_reset (ps_prod st) → string_ok (ps_prod st) →
  num_nodes (ps_table st) + MAX_LHS_LEN * Z.of_nat (length l) < MAX_COMPOSE_NODES →
  Z.of_nat (length (ct_utf8 (ps_table st))) + XKB_COMPOSE_MAX_STRING_SIZE * Z.of_nat (length l) < 2 ^ 31 →
  ∃ st' t' m', reaches env do_include (L_initial_eol, st) (L_finished, st') ∧ models (ps_table st') t' m' ∧ m ⊆ m' ∧ m' ⊆ M ∧
    ∀ s, s ∈ l.*1 → is_Some (m' !! s).
Proof.
  induction l as [|[s [u k]] l IH]; intros st t m text Hm (Hl & Hnd & Hsub) E H Hf Hok Hn Hr.
  { injection E as <-. destruct (lex_eof _ H) as (s' & El). exists (ps_set_s s' st), t, m. split; [|by split_and!; [..|set_solver]].
    eapply reaches_step; [|done..|apply rtc_refl]. cbn [parse_step]. unfold lex_step. by rewrite El. }
  apply Forall_cons in Hl as [(HMs & [tx Hu] & Hms) Hl]. cbn [fst snd fmap list_fmap] in *. apply NoDup_cons in Hnd as [Hs Hnd].
  cbn [print_entries] in E. destruct (print_compose_table_entry U (s, (u, k))) as [line|] eqn:El; [|done]. cbn [mbind option_bind] in E.
  destruct (print_entries U l) as [text'|] eqn:Et; [|done]. injection E as <-. destruct (entry_text U u k s _ tx HU Hu eq_refl (HM _ _ HMs)) as [Hp He].
  assert (∀ s', is_Some (m !! s') → ¬ s' `prefix_of` s ∧ ¬ s `prefix_of` s') as Hnew.
  { intros s' [e' He']. pose proof (lookup_weaken _ _ _ _ He' Hsub) as HM'. split; intros Hpre.
    - assert (s' = s) as -> by (by apply (Hfree s' s)). congruence.
    - assert (s = s') as <- by (by apply (Hfree s s')). congruence. }
  assert (∀ q, printed_as s tx k q → ∃ T t', add_production (ps_table st) q = Some T ∧ models T t' (compose_add m q) ∧
    num_nodes T <= num_nodes (ps_table st) + MAX_LHS_LEN ∧
    Z.of_nat (length (ct_utf8 T)) <= Z.of_nat (length (ct_utf8 (ps_table st))) + XKB_COMPOSE_MAX_STRING_SIZE) as Hadd.
  { intros q Hq. unfold MAX_LHS_LEN, XKB_COMPOSE_MAX_STRING_SIZE in *. cbn [length] in *.
    apply (printed_adds _ t m s tx k); [done|unfold room; lia|unfold MAX_LHS_LEN; lia|done|done]. }
  destruct (line_reaches env do_include st U u s tx k line text' Hp Hu El H Hf Hok) as (q & T & s1 & Hq & Ea & Hr1 & Hs1).
  { intros q Hq. destruct (Hadd q Hq) as (T & _ & ? & _). by exists T. }
  destruct (Hadd q Hq) as (T' & t' & Ea' & Hm' & Hn' & Hu'). rewrite Ea in Ea'. injection Ea' as <-.
  rewrite (compose_add_new m s tx k q Hq Hnew), <- He in Hm'. unfold MAX_LHS_LEN, XKB_COMPOSE_MAX_STRING_SIZE in *. cbn [length] in *.
  destruct (IH (mk_ps T s1 (p_reset q) (ps_errors st)) t' _ text' Hm') as (st' & t2 & m2 & Hr2 & Hm2 & Hsub1 & Hsub2 & Hall);
    [by apply (pending_next s (u, k))|done|done|done|apply Hq|cbn; lia|cbn; lia|].
  exists st', t2, m2. split; [by etrans|]. split; [done|]. split; [etrans; [|exact Hsub1]; by apply insert_subseteq|]. split; [done|].
  intros s' [->|Hs']%elem_of_cons; [|by apply Hall]. exists (entry_of U (u, k)). eapply lookup_weaken; [apply lookup_insert_eq|exact Hsub1].
Qed.
End entries.

Lemma seq_lt_irrefl s : ¬ seq_lt s s.
Proof. induction s as [|k s IH]; cbn; [intros []|]. intros [?|[_ ?]]; [lia|done]. Qed.
Lemma sorted_nodup l : StronglySorted seq_lt l → NoDup l.
Proof.
  induction 1 as [|s l Hl IH Hs]; constructor; [|done]. intros Hin. rewrite Forall_forall in Hs. by apply (seq_lt_irrefl s), Hs.
Qed.

Lemma print_entries_some U l :
  Forall (λ x, ∃ text, utf8_at U x.2.1 = Some text ∧ printable x.1 text x.2.2) l →
  ∃ text, print_entries U l = Some text ∧ is_string text ∧ (text = [] ∨ ∃ r, text = 60 :: r).
Proof.
  induction 1 as [|[s [u k]] l (tx & Hu & Hp) Hl (text & E & Hs & _)]; [exists []; split; [done|]; split; [constructor|by left]|].
  cbn [fst snd] in *. destruct (print_entry_some U u s tx k Hp Hu) as (lhs & string & name & Ee & Hes & Elhs & _). cbn [print_entries]. rewrite Ee, E.
  cbn [mbind option_bind]. eexists. split; [done|]. split; [by apply Forall_app|]. right. destruct Hp as [(Hne & _) _ _ _]. destruct s as [|c s]; [done|].
  cbn [print_sequence] in Elhs. destruct (print_keysym c) as [nm|]; [|done]. cbn [mbind option_bind] in Elhs.
  destruct (print_sequence s) as [l'|]; [|done]. injection Elhs as <-. by eexists.
Qed.

Lemma printed_encoding text :
  is_string text → text = [] ∨ (∃ r, text = 60 :: r) → scanner_check_supported_char_encoding (scanner_init text) = Some (Some (scanner_init text)).
Proof.
  intros Hs Ht. unfold scanner_check_supported_char_encoding. destruct (str_spec (scanner_init text) [0xef; 0xbb; 0xbf]) as (r & E & _).
  { apply init_ok. eapply Forall_impl; [exact Hs|]. cbn. unfold is_byte. lia. }
  rewrite E. cbn [mbind option_bind]. assert (r = None) as ->.
  { unfold scanner_str in E. case_step_in E; [congruence|]. destruct (read_range _ _ _) as [bs|] eqn:Er; [|done]. cbn [mbind option_bind] in E.
    unfold read_range in Er. case_step_in Er; [|done]. injection Er as <-. injection E as <-. rewrite bool_decide_eq_false_2; [done|]. by destruct Ht as [->|[r ->]]. }
  cbn [sc_s scanner_init]. destruct Ht as [->|[r ->]]; [done|]. destruct r as [|c r]; [done|]. cbn [length Nat.ltb Nat.leb sc_at sc_s scanner_init lookup list_lookup mbind option_bind].
  apply Forall_cons in Hs as [_ [Hc _]%Forall_cons]. rewrite (proj2 (Z.eqb_neq c 0)) by lia. done.
Qed.

(** Enough fuel gives the same result. *)
Lemma parse_finishes env files T string (P : xkb_compose_table → Prop) :
  env_ok env → files_ok files → table_ok T → Forall is_byte string →
  scanner_check_supported_char_encoding (scanner_init string) = Some (Some (scanner_init string)) →
  (∀ inc, ∃ st, reaches env inc (L_initial, mk_ps T (scanner_init string) new_production 0) (L_finished, st) ∧ P (ps_table st)) →
  ∃ T', parse_string env files T string = Some (true, T') ∧ P T'.
Proof.
  intros He Hf HT Hs Hc Hr. destruct (parse_total env files MAX_INCLUDE_DEPTH T string He Hf HT Hs) as (ok & T' & E & _).
  unfold parse_string. rewrite E. cbn [parse MAX_INCLUDE_DEPTH] in E. unfold parse_text in E. rewrite Hc in E. cbn [mbind option_bind] in E.
  match type of E with parse_run _ ?i ?n _ _ = _ =>
    destruct (Hr i) as (st & Hst & HP); destruct (run_reaches env i _ _ _ Hst) as [fuel Ef];
    apply (parse_run_mono _ _ _ (Nat.max n fuel)) in E, Ef; [|lia..] end.
  exists (ps_table st). split; [congruence|done].
Qed.

Lemma listed_entries T t M :
  models T t M → Forall (λ x, M !! x.1 = Some (entry_of (ct_utf8 T) x.2) ∧ is_Some (utf8_at (ct_utf8 T) x.2.1)) (listing t) ∧ NoDup (listing t).*1.
Proof.
  intros Hm. pose proof (tr_ok _ _ (proj1 Hm)) as Hok. split; [|by apply sorted_nodup, (listing_sorted (ct_utf8 T))].
  apply Forall_forall. intros [s [u k]] Hx. split; [apply (listed_map T t M); [done|]; by exists u, k|].
  apply (listing_find (ct_utf8 T) t s (u, k) Hok) in Hx. by eapply tfind_text.
Qed.

Lemma listing_size T t M : models T t M → (length (listing t) <= size M)%nat.
Proof.
  intros Hm. destruct (listed_entries T t M Hm) as [Hl Hnd]. rewrite <- (length_fmap fst), <- (size_list_to_set (C := gset (list Z)) _ Hnd), <- size_dom.
  apply subseteq_size. intros s Hs%elem_of_list_to_set. apply list_elem_of_fmap in Hs as (x & -> & Hx). rewrite Forall_forall in Hl.
  apply elem_of_dom. destruct (Hl x Hx) as [-> _]. by eexists.
Qed.

Lemma entry_length s e : printable_entry s e → Z.of_nat (length s) <= MAX_LHS_LEN.
Proof. unfold printable_entry. intros H. destruct (e.1) as [[|]|]; [done|..]; by destruct H as [(_ & ? & _) _ _ _]. Qed.

Lemma table_prints T t M :
  models T t M → map_Forall printable_entry M →
  ∃ text, print_compose_table T = Some text ∧ print_entries (ct_utf8 T) (listing t) = Some text ∧ is_string text ∧ (text = [] ∨ ∃ r, text = 60 :: r).
Proof.
  intros Hm HM. pose proof Hm as [HT _]. destruct (listed_entries T t M Hm) as [Hl _].
  destruct (print_entries_some (ct_utf8 T) (listing t)) as (text & Et & Hs & Hhead).
  { eapply Forall_impl; [exact Hl|]. intros [s [u k]] [HMs [tx Hu]]. cbn [fst snd] in *. exists tx. split; [done|].
    by eapply (entry_text (ct_utf8 T) u k s _ tx (tr_text _ _ HT) Hu eq_refl), HM. }
  exists text. split; [|done]. unfold print_compose_table. pose proof (listing_length t). pose proof (offsets_length _ _ (tr_range _ _ HT) (tr_nodup _ _ HT)).
  rewrite (table_listed T t M); [done|done| |lia]. intros s [e Hse]. by eapply entry_length, HM.
Qed.

(** ** The theorem *)

(** C17: a table of at most 2^19 entries that are all printable (see
    [printable_entry]: names of at most 26 characters, texts that are not empty
    and fit, result keysyms whose names do not start with a digit) is printed
    into a Compose file that is parsed, without an error, into a table of the
    same map: keysym names, escapes, lines and tokens all read back. *)
Theorem compose_dump_roundtrip T t M env files :
  models T t M → map_Forall printable_entry M → Z.of_nat (size M) <= 2 ^ 19 → env_ok env → files_ok files →
  ∃ text T' t', print_compose_table T = Some text ∧ parse_string env files xkb_compose_table_new text = Some (true, T') ∧ models T' t' M.
Proof.
  intros Hm HM Hsize He Hf. destruct (table_prints T t M Hm HM) as (text & Ep & Et & Hs & Hhead). destruct (listed_entries T t M Hm) as [Hl Hnd].
  pose proof (listing_size T t M Hm) as Hlen.
  destruct (parse_finishes env files xkb_compose_table_new text (λ T', ∃ t', models T' t' M)) as (T' & E & t' & Hm'); [done|done|eexists; apply table_new_rep| | | |].
  { eapply Forall_impl; [exact Hs|]. cbn. unfold is_byte. lia. }
  { by apply printed_encoding. }
  - intros inc. destruct (entries_reach env inc (ct_utf8 T) M (tr_text _ _ (proj1 Hm)) HM (λ s s', models_prefix_free T t M s s' Hm) (listing t)
      (mk_ps xkb_compose_table_new (scanner_init text) new_production 0) TNil ∅ text models_new) as (st & t' & m' & Hr & Hm' & _ & Hsub & Hall).
    + split; [|split; [done|apply map_empty_subseteq]]. eapply Forall_impl; [exact Hl|]. intros x [? ?]. done.
    + done.
    + done.
    + done.
    + split; [constructor|done].
    + cbn [ps_table]. change (num_nodes xkb_compose_table_new) with 1. unfold MAX_LHS_LEN, MAX_COMPOSE_NODES. lia.
    + cbn [ps_table]. change (Z.of_nat (length (ct_utf8 xkb_compose_table_new))) with 1. unfold XKB_COMPOSE_MAX_STRING_SIZE. lia.
    + exists st. split; [by eapply reaches_step|]. exists t'. replace M with m'; [done|]. apply map_eq. intros s. destruct (M !! s) as [e|] eqn:Es.
      * pose proof (proj1 (listed_map T t M s e Hm) Es) as (u & k & Hx & _). destruct (Hall s) as [e' He']; [by apply (list_elem_of_fmap_2 fst _ (s, (u, k)))|].
        rewrite He'. rewrite (lookup_weaken _ _ _ _ He' Hsub) in Es. done.
      * by eapply lookup_weaken_None.
  - by exists text, T', t'.
Qed.

(** One line: [<a> <b> :  "å" aring]. *)
Definition demo_line : production := mk_production [0x61; 0x62] 0xe5 [0xc3; 0xa5] true true 0 0.
Definition demo_line_map : gmap (list Z) entry := {[ [0x61; 0x62] := (Some [0xc3; 0xa5], 0xe5) ]}.

Lemma demo_line_models : ∃ T t, add_all xkb_compose_table_new [demo_line] = Some T ∧ models T t demo_line_map.
Proof.
  destruct (add_all_models [demo_line] xkb_compose_table_new TNil ∅ models_new) as (T & t & E & Hm); [|done|done|].
  - unfold production_ok, p_ok. apply (bool_decide_unpack _). vm_compute. exact I.
  - exists T, t. split; [done|]. cbn [foldl] in Hm. rewrite (compose_add_new ∅ [0x61; 0x62] [0xc3; 0xa5] 0xe5) in Hm; [done| |by intros s' [??]].
    split_and!; try done. split; [by repeat constructor|done].
Qed.

Ltac print_name := split; [unfold XKB_KEYSYM_MAX; lia|]; eexists _, _; split; [vm_compute; reflexivity|vm_compute; reflexivity].

Lemma demo_line_printable : map_Forall printable_entry demo_line_map.
Proof.
  unfold demo_line_map. intros s e [<- <-]%lookup_singleton_Some. unfold printable_entry. cbn [fst snd default]. split.
  - split; [done|]. split; [done|]. repeat (constructor; [print_name|]). constructor.
  - split; [vm_compute; reflexivity|]. split; [repeat (constructor; [lia|]); constructor|done].
  - intros _. split; [print_name|]. eexists. split; [vm_compute; reflexivity|]. vm_compute. reflexivity.
  - by left.
Qed.

Lemma compose_dump_roundtrip_witness :
  ∃ T t text T' t', models T t demo_line_map ∧ print_compose_table T = Some text ∧
    parse_string demo_env demo_files xkb_compose_table_new text = Some (true, T') ∧ models T' t' demo_line_map.
Proof.
  destruct demo_line_models as (T & t & _ & Hm). exists T, t.
  destruct (compose_dump_roundtrip T t demo_line_map demo_env demo_files Hm demo_line_printable) as (text & T' & t' & H);
    [unfold demo_line_map; rewrite map_size_singleton; done|exact demo_env_ok|exact demo_files_ok|]. by exists text, T', t'.
Defined.
