(* ===== verification/XkbComposePath.v ===== *)
(** * Where Compose files are found

    Models libxkbcommon/build/src/compose/paths.c and the constructors of
    compose/table.c.  The environment of the context is a function from names
    to values, the file system a function from paths to files; [XLOCALEDIR] is
    fixed when the library is built.  The theorems: names are resolved like in
    a list of pairs, and a table is built safely for any locale, environment
    and files, from the first file of the documented order. *)
From stdpp Require Import strings.
From S2P Require Import Prelude XkbKeysymTables XkbKeysym XkbCompose XkbComposeTree XkbComposeSpec XkbScanner XkbComposeLex XkbComposeParse.

Open Scope Z_scope.

(** ** The code *)

Inductive resolve_name_direction : Type := LEFT_TO_RIGHT | RIGHT_TO_LEFT.

(** Pointers into the mapped file are positions in [string]; [end] is its
    length.  [*s] behind the end is undefined. *)

(** [while (s < end && f( *s)) s++] *)
Fixpoint scan_while (fuel : nat) (string : list Z) (f : Z → bool) (s : nat) : option nat :=
  if (s <? length string)%nat then
    match fuel with
    | O => None
    | S fuel => c ← string !! s; if f c then scan_while fuel string f (S s) else Some s
    end
  else Some s.
(** [s < end && *s == ch] *)
Definition at_char (string : list Z) (ch : Z) (s : nat) : option bool :=
  if (s <? length string)%nat then c ← string !! s; Some (c =? ch) else Some false.

Definition not_newline (c : Z) : bool := negb (c =? NEWLINE).
Definition left_char (c : Z) : bool := negb (is_space c) && negb (c =? 58).
Definition right_char (c : Z) : bool := negb (is_space c).

(** [memcmp(p, name, len) == 0], when [len] is the length of the name, and
    [strndup(p, len)]. *)
Definition same_name (string : list Z) (p len : nat) (name : list Z) : option bool :=
  if (len =? length name)%nat
  then bs ← read_range string (Z.of_nat p) (Z.of_nat len); Some (bool_decide (bs = name))
  else Some false.
Definition strndup (string : list Z) (p len : nat) : option (list Z) :=
  bs ← read_range string (Z.of_nat p) (Z.of_nat len); Some (cstring bs).

Fixpoint resolve_loop (fuel : nat) (string : list Z) (s : nat) (direction : resolve_name_direction) (name : list Z) : option (option (list Z)) :=
  if (s <? length string)%nat then
    match fuel with
    | O => None
    | S fuel =>
        let skip := scan_while (length string) string in
        s ← skip is_space s;
        comment ← at_char string 35 (* # *) s;
        if (comment : bool) then
          s ← skip not_newline s;
          resolve_loop fuel string s direction name
        else
          let left := s in
          s ← skip left_char s;
          let left_len := (s - left)%nat in
          colon ← at_char string 58 (* : *) s;
          let s := if (colon : bool) then S s else s in
          s ← skip is_space s;
          let right := s in
          s ← skip right_char s;
          let right_len := (s - right)%nat in
          s ← skip not_newline s;
          match direction with
          | LEFT_TO_RIGHT =>
              found ← same_name string left left_len name;
              if (found : bool) then match_ ← strndup string right right_len; Some (Some match_)
              else resolve_loop fuel string s direction name
          | RIGHT_TO_LEFT =>
              found ← same_name string right right_len name;
              if (found : bool) then match_ ← strndup string left left_len; Some (Some match_)
              else resolve_loop fuel string s direction name
          end
    end
  else Some None.

(** A regular file or another, and its bytes. *)
Record os_file : Type := mk_file { fl_regular : bool; fl_bytes : list Z }.

Section paths.
Context (XLOCALEDIR : list Z) (getenv : list Z → option (list Z)) (fs : list Z → option os_file).

Definition fopen (path : list Z) : option (list Z) := fl_bytes <$> fs path.
Definition open_file (path : option (list Z)) : option (list Z) :=
  path ← path; f ← fs path; if fl_regular f then Some (fl_bytes f) else None.

Definition get_xlocaledir_path : list Z := default XLOCALEDIR (getenv (chars "XLOCALEDIR")).

Definition PATH_SIZE : Z := 512.
Definition resolve_name (filename : list Z) (direction : resolve_name_direction) (name : list Z) : option (option (list Z)) :=
  let path := get_xlocaledir_path ++ [47] ++ filename in
  if PATH_SIZE <=? Z.of_nat (length path) then Some None
  else
    match file ← fopen path; map_file file with
    | None => Some None
    | Some string => resolve_loop (S (length string)) string 0 direction name
    end.

Definition resolve_locale (locale : list Z) : option (list Z) :=
  alias ← resolve_name (chars "locale.alias") LEFT_TO_RIGHT locale; Some (default locale alias).

Definition get_xcomposefile_path : option (list Z) := getenv (chars "XCOMPOSEFILE").
Definition get_home_xcompose_file_path : option (list Z) := home ← getenv (chars "HOME"); Some (home ++ chars "/.XCompose").
Definition get_xdg_xcompose_file_path : option (list Z) :=
  match getenv (chars "XDG_CONFIG_HOME") with
  | Some (47 :: xdg) => Some ((47 :: xdg) ++ chars "/XCompose")
  | _ => home ← getenv (chars "HOME"); Some (home ++ chars "/.config/XCompose")
  end.

Definition get_locale_compose_file_path (locale : list Z) : option (option (list Z)) :=
  let locale := if bool_decide (locale = chars "C") then chars "en_US.UTF-8" else locale in
  resolved ← resolve_name (chars "compose.dir") RIGHT_TO_LEFT locale;
  Some (match resolved with
        | None => None
        | Some path => Some (match path with 47 :: _ => path | _ => get_xlocaledir_path ++ [47] ++ path end)
        end).

(** What the expansions of an include ask for. *)
Definition table_env (locale : list Z) : option include_env :=
  file ← get_locale_compose_file_path locale;
  Some (mk_include_env (getenv (chars "HOME")) file get_xlocaledir_path).

(** A table of a file, or [NULL]. *)
Definition table_of (r : bool * xkb_compose_table) : option xkb_compose_table := if r.1 then Some r.2 else None.

Definition xkb_compose_table_new_from_file (file locale : list Z) (format flags : Z) : option (option xkb_compose_table) :=
  if negb (flags =? 0) then Some None
  else if negb (format =? 1) then Some None
  else
    locale ← resolve_locale locale;
    env ← table_env locale;
    r ← parse_file env fopen xkb_compose_table_new file;
    Some (table_of r).

Definition xkb_compose_table_new_from_buffer (buffer locale : list Z) (format flags : Z) : option (option xkb_compose_table) :=
  if negb (flags =? 0) then Some None
  else if negb (format =? 1) then Some None
  else
    locale ← resolve_locale locale;
    env ← table_env locale;
    r ← parse_string env fopen xkb_compose_table_new buffer;
    Some (table_of r).

(** The first of the paths that opens. *)
Fixpoint first_file (paths : list (option (list Z))) : option (list Z) :=
  match paths with
  | [] => None
  | path :: paths => match open_file path with Some file => Some file | None => first_file paths end
  end.
Definition xkb_compose_table_new_from_locale (locale : list Z) (flags : Z) : option (option xkb_compose_table) :=
  if negb (flags =? 0) then Some None
  else
    locale ← resolve_locale locale;
    env ← table_env locale;
    path ← get_locale_compose_file_path locale;
    match first_file [get_xcomposefile_path; get_xdg_xcompose_file_path; get_home_xcompose_file_path; path] with
    | None => Some None
    | Some file => r ← parse_file env fopen xkb_compose_table_new file; Some (table_of r)
    end.
End paths.

(** ** The loop on what is left of the text *)

Fixpoint take_while (f : Z → bool) (s : list Z) : list Z :=
  match s with [] => [] | c :: s => if f c then c :: take_while f s else [] end.
Fixpoint drop_while (f : Z → bool) (s : list Z) : list Z :=
  match s with [] => [] | c :: s' => if f c then drop_while f s' else s end.

(** The left and the right value of a line, and what follows the line. *)
Definition read_pair (s : list Z) : list Z * list Z * list Z :=
  let lhs := take_while left_char s in
  let s := drop_while left_char s in
  let s := match s with c :: s' => if c =? 58 then s' else s | [] => s end in
  let s := drop_while is_space s in
  let rhs := take_while right_char s in
  (lhs, rhs, drop_while not_newline (drop_while right_char s)).

Fixpoint resolve_text (fuel : nat) (s : list Z) (direction : resolve_name_direction) (name : list Z) : option (option (list Z)) :=
  match s with
  | [] => Some None
  | _ =>
      match fuel with
      | O => None
      | S fuel =>
          let s := drop_while is_space s in
          if match s with c :: _ => c =? 35 (* # *) | [] => false end then resolve_text fuel (drop_while not_newline s) direction name
          else
            let '(lhs, rhs, s) := read_pair s in
            match direction with
            | LEFT_TO_RIGHT =>
                if bool_decide (lhs = name) then Some (Some (cstring rhs)) else resolve_text fuel s direction name
            | RIGHT_TO_LEFT =>
                if bool_decide (rhs = name) then Some (Some (cstring lhs)) else resolve_text fuel s direction name
            end
      end
  end.

Lemma take_drop_while f s : take_while f s ++ drop_while f s = s.
Proof. induction s as [|c s IH]; cbn; [done|]. destruct (f c); cbn; [by rewrite IH|done]. Qed.
Lemma drop_while_length f s : (length (drop_while f s) <= length s)%nat.
Proof. rewrite <- (take_drop_while f s) at 2. rewrite length_app. lia. Qed.

(** The position [s] has [r] ahead. *)
Definition ahead (string : list Z) (s : nat) (r : list Z) : Prop := (s <= length string)%nat ∧ drop s string = r.

Lemma ahead_length string s r : ahead string s r → (s + length r = length string)%nat.
Proof. intros [Hs <-]. rewrite length_drop. lia. Qed.
Lemma ahead_cons string s c r : ahead string s (c :: r) → string !! s = Some c ∧ (s < length string)%nat ∧ ahead string (S s) r.
Proof.
  intros H. pose proof (ahead_length _ _ _ H) as Hl. cbn in Hl. destruct H as [Hs E]. assert (string !! s = Some c) as Hc.
  { replace s with (s + 0)%nat by lia. by rewrite <- lookup_drop, E. }
  split; [done|]. split; [lia|]. split; [lia|]. rewrite (drop_S _ c) in E by done. by injection E.
Qed.
Lemma ahead_nil string s : ahead string s [] → (s <? length string)%nat = false.
Proof. intros H. pose proof (ahead_length _ _ _ H). cbn in *. apply Nat.ltb_ge. lia. Qed.

Lemma scan_while_spec f fuel : ∀ string s r,
  ahead string s r → (length r <= fuel)%nat →
  scan_while fuel string f s = Some (s + length (take_while f r))%nat ∧ ahead string (s + length (take_while f r)) (drop_while f r).
Proof.
  induction fuel as [|fuel IH]; intros string s [|c r] H Hf; try (cbn in Hf; lia).
  1,2: cbn [scan_while]; rewrite (ahead_nil _ _ H), Nat.add_0_r; done.
  destruct (ahead_cons _ _ _ _ H) as (Hc & Hl & H1). cbn [scan_while]. rewrite (proj2 (Nat.ltb_lt _ _)), Hc by done. cbn [mbind option_bind take_while drop_while].
  destruct (f c); [|rewrite Nat.add_0_r; done]. destruct (IH string (S s) r H1 ltac:(cbn in Hf; lia)) as [-> Ha]. cbn [length]. by rewrite Nat.add_succ_r.
Qed.
Lemma at_char_spec string ch s r : ahead string s r → at_char string ch s = Some (match r with c :: _ => c =? ch | [] => false end).
Proof.
  intros H. unfold at_char. destruct r as [|c r]; [by rewrite (ahead_nil _ _ H)|]. destruct (ahead_cons _ _ _ _ H) as (Hc & Hl & _).
  by rewrite (proj2 (Nat.ltb_lt _ _)), Hc by done.
Qed.

(** The bytes between two positions. *)
Lemma span_spec string s l r : ahead string s (l ++ r) → read_range string (Z.of_nat s) (Z.of_nat (length l)) = Some l.
Proof.
  intros H. pose proof (ahead_length _ _ _ H) as Hl. rewrite length_app in Hl. destruct H as [_ E]. rewrite read_range_Some by lia. rewrite !Nat2Z.id, E.
  by rewrite take_app_length.
Qed.
Lemma same_name_spec string s l r name : ahead string s (l ++ r) → same_name string s (length l) name = Some (bool_decide (l = name)).
Proof.
  intros H. unfold same_name. destruct (Nat.eqb_spec (length l) (length name)) as [El|El]; [by rewrite (span_spec _ _ _ _ H)|].
  by rewrite bool_decide_eq_false_2 by (by intros ->).
Qed.

(** No read is outside of the file. *)
Lemma resolve_loop_text fuel : ∀ string s r direction name,
  ahead string s r → resolve_loop fuel string s direction name = resolve_text fuel r direction name.
Proof.
  induction fuel as [|fuel IH]; intros string s r direction name H.
  { cbn [resolve_loop]. destruct r as [|c r]; [by rewrite (ahead_nil _ _ H)|]. destruct (ahead_cons _ _ _ _ H) as (_ & Hl & _).
    by rewrite (proj2 (Nat.ltb_lt _ _)) by done. }
  assert (∀ f s r, ahead string s r → scan_while (length string) string f s = Some (s + length (take_while f r))%nat ∧
    ahead string (s + length (take_while f r)) (drop_while f r)) as Hscan.
  { intros f s' r' H'. apply scan_while_spec; [done|]. pose proof (ahead_length _ _ _ H'). lia. }
  cbn [resolve_loop]. destruct r as [|c0 r0] eqn:Er; [by rewrite (ahead_nil _ _ H)|]. rewrite <- Er in *.
  assert ((s <? length string)%nat = true) as -> by (apply Nat.ltb_lt; pose proof (ahead_length _ _ _ H); subst r; cbn in *; lia).
  destruct (Hscan is_space s r H) as [-> H1]. cbn [mbind option_bind]. rewrite (at_char_spec _ _ _ _ H1). cbn [mbind option_bind].
  replace (resolve_text (S fuel) r direction name) with (resolve_text (S fuel) (c0 :: r0) direction name) by (by rewrite Er).
  cbn [resolve_text]. rewrite <- Er. set (r1 := drop_while is_space r) in *. set (s1 := (s + length (take_while is_space r))%nat) in *.
  destruct (match r1 with c :: _ => c =? 35 | [] => false end).
  { destruct (Hscan not_newline s1 r1 H1) as [-> H2]. cbn [mbind option_bind]. by apply IH. }
  unfold read_pair. destruct (Hscan left_char s1 r1 H1) as [-> H2]. cbn [mbind option_bind]. rewrite (at_char_spec _ _ _ _ H2). cbn [mbind option_bind].
  set (s2 := (s1 + length (take_while left_char r1))%nat) in *. set (lhs := take_while left_char r1) in *. set (r2 := drop_while left_char r1) in *.
  set (b := match r2 with c :: _ => c =? 58 | [] => false end).
  assert (ahead string (if b then S s2 else s2) (match r2 with c :: s' => if c =? 58 then s' else r2 | [] => r2 end)) as H3.
  { unfold b. destruct r2 as [|c r2']; [done|]. destruct (c =? 58); [|done]. by apply ahead_cons in H2 as (_ & _ & ?). }
  set (r3 := match r2 with c :: s' => if c =? 58 then s' else r2 | [] => r2 end) in *. set (s3 := if b then S s2 else s2) in *.
  destruct (Hscan is_space s3 r3 H3) as [-> H4]. cbn [mbind option_bind]. destruct (Hscan right_char _ _ H4) as [-> H5]. cbn [mbind option_bind].
  destruct (Hscan not_newline _ _ H5) as [-> H6]. cbn [mbind option_bind]. set (s4 := (s3 + length (take_while is_space r3))%nat) in *. set (r4 := drop_while is_space r3) in *.
  replace (s2 - s1)%nat with (length lhs) by lia. replace (s4 + length (take_while right_char r4) - s4)%nat with (length (take_while right_char r4)) by lia.
  assert (ahead string s1 (lhs ++ r2)) as H1' by (unfold lhs, r2; by rewrite take_drop_while).
  assert (ahead string s4 (take_while right_char r4 ++ drop_while right_char r4)) as H4' by (by rewrite take_drop_while).
  unfold strndup. rewrite (span_spec _ _ _ _ H1'), (span_spec _ _ _ _ H4'), (same_name_spec _ _ _ _ name H1'), (same_name_spec _ _ _ _ name H4'). cbn [mbind option_bind].
  destruct direction; (case_bool_decide; [done|]); by apply IH.
Qed.

(** ** Resolving a name *)

Lemma drop_while_bytes f s : Forall is_byte s → Forall is_byte (drop_while f s).
Proof. intros H. rewrite <- (take_drop_while f s) in H. by apply Forall_app in H as [_ ?]. Qed.
Lemma take_while_bytes f s : Forall is_byte s → Forall is_byte (take_while f s).
Proof. intros H. rewrite <- (take_drop_while f s) in H. by apply Forall_app in H as [? _]. Qed.

(** A pair takes something off the text, and consists of its bytes. *)
Lemma read_pair_progress c s :
  is_space c = false → (length (read_pair (c :: s)).2 <= length s)%nat.
Proof.
  intros Hc. unfold read_pair. cbn [snd]. etrans; [apply drop_while_length|]. etrans; [apply drop_while_length|]. etrans; [apply drop_while_length|].
  cbn [drop_while]. assert (left_char c = negb (c =? 58)) as -> by (unfold left_char; by rewrite Hc).
  destruct (Z.eqb_spec c 58) as [->|Hn]; cbn [negb]; [done|].
  pose proof (drop_while_length left_char s). destruct (drop_while left_char s) as [|d s']; [cbn; lia|]. destruct (d =? 58); cbn in *; lia.
Qed.
Lemma read_pair_bytes s : Forall is_byte s → Forall is_byte (read_pair s).1.1 ∧ Forall is_byte (read_pair s).1.2 ∧ Forall is_byte (read_pair s).2.
Proof.
  intros H. unfold read_pair. cbn [fst snd]. split; [by apply take_while_bytes|].
  set (s1 := match drop_while left_char s with c :: s' => if c =? 58 then s' else drop_while left_char s | [] => drop_while left_char s end).
  assert (Forall is_byte s1) as H1.
  { unfold s1. pose proof (drop_while_bytes left_char s H) as Hd. destruct (drop_while left_char s); [done|]. case_step; [by apply Forall_cons in Hd as [_ ?]|done]. }
  split; [by apply take_while_bytes, drop_while_bytes|by do 3 apply drop_while_bytes].
Qed.

Lemma head_not_space s c s' : drop_while is_space s = c :: s' → is_space c = false.
Proof. induction s as [|d s IH]; cbn; [done|]. destruct (is_space d) eqn:E; [done|]. by intros [= -> _]. Qed.

Lemma cstring_bytes l : Forall is_byte l → Forall is_byte (cstring l).
Proof. induction 1 as [|c l Hc Hl IH]; cbn; [constructor|]. case_step; by constructor. Qed.

Lemma resolve_text_total fuel : ∀ s direction name,
  Forall is_byte s → (length s < fuel)%nat → ∃ r, resolve_text fuel s direction name = Some r ∧ ∀ x, r = Some x → Forall is_byte x.
Proof.
  induction fuel as [|fuel IH]; intros s direction name Hb Hf; [lia|]. cbn [resolve_text]. destruct s as [|c0 s0] eqn:Es; [by exists None|].
  rewrite <- Es in *. clear Es. pose proof (drop_while_length is_space s). pose proof (drop_while_bytes is_space s Hb) as Hd.
  pose proof (head_not_space s) as Hsp. destruct (drop_while is_space s) as [|c s1].
  { cbn. destruct direction, fuel; case_bool_decide; eexists; split; try done; intros x [= <-]; constructor. }
  specialize (Hsp c s1 eq_refl). destruct (c =? 35) eqn:Ec.
  - zbool. subst c. apply IH; [by apply drop_while_bytes|]. cbn [drop_while]. change (not_newline 35) with true. cbv iota.
    pose proof (drop_while_length not_newline s1). cbn in *. lia.
  - pose proof (read_pair_progress c s1 Hsp) as Hp. destruct (read_pair_bytes (c :: s1) Hd) as (Hl & Hr & Hs).
    destruct (read_pair (c :: s1)) as [[l r] s2]. cbn [fst snd length] in *. destruct direction; case_step.
    1,3: eexists; split; [done|]; intros x [= <-]; by apply cstring_bytes.
    all: apply IH; [done|lia].
Qed.

(** The lines of a list of pairs. *)
Definition pair_line (x : list Z * list Z) : list Z := x.1 ++ [58; 32] ++ x.2 ++ [NEWLINE].
Definition pair_ok (x : list Z * list Z) : Prop :=
  x.1 ≠ [] ∧ Forall (λ c, left_char c = true ∧ c ≠ 0 ∧ c ≠ 35) x.1 ∧ x.2 ≠ [] ∧ Forall (λ c, right_char c = true ∧ c ≠ 0) x.2.

Fixpoint lookup_pair (ps : list (list Z * list Z)) (direction : resolve_name_direction) (name : list Z) : option (list Z) :=
  match ps with
  | [] => None
  | (l, r) :: ps =>
      match direction with
      | LEFT_TO_RIGHT => if bool_decide (l = name) then Some r else lookup_pair ps direction name
      | RIGHT_TO_LEFT => if bool_decide (r = name) then Some l else lookup_pair ps direction name
      end
  end.

Lemma while_app f l d r : Forall (λ c, f c = true) l → f d = false → take_while f (l ++ d :: r) = l ∧ drop_while f (l ++ d :: r) = d :: r.
Proof. intros H Hd. induction H as [|c l Hc Hl [IH1 IH2]]; cbn; [by rewrite Hd|]. by rewrite Hc, IH1, IH2. Qed.

Lemma read_pair_line l r rest : pair_ok (l, r) → read_pair (pair_line (l, r) ++ rest) = (l, r, NEWLINE :: rest).
Proof.
  intros (_ & Hl & Hr & Hrc). unfold read_pair, pair_line. cbn [fst snd]. rewrite <- !app_assoc. cbn [app] in *.
  destruct (while_app left_char l 58 (32 :: r ++ NEWLINE :: rest)) as [-> ->]; [eapply Forall_impl; [exact Hl|cbn; tauto]|done|].
  cbn [Z.eqb Pos.eqb drop_while is_space orb]. destruct r as [|c r]; [done|]. pose proof (proj1 (Forall_inv Hrc)) as Hc. cbn [app drop_while].
  replace (is_space c) with false by (unfold right_char in Hc; by destruct (is_space c)).
  change (c :: r ++ NEWLINE :: rest) with ((c :: r) ++ NEWLINE :: rest).
  destruct (while_app right_char (c :: r) NEWLINE rest) as [-> ->]; [eapply Forall_impl; [exact Hrc|cbn; tauto]|done|]. done.
Qed.

Lemma resolve_pairs ps : ∀ fuel pre direction name,
  pre = [] ∨ pre = [NEWLINE] → Forall pair_ok ps → name ≠ [] → (S (length ps) < fuel)%nat →
  resolve_text fuel (pre ++ concat (map pair_line ps)) direction name = Some (lookup_pair ps direction name).
Proof.
  induction ps as [|[l r] ps IH]; intros fuel pre direction name Hpre Hps Hn Hf; (destruct fuel as [|fuel]; [lia|]).
  - destruct Hpre as [-> | ->]; [done|]. destruct fuel; [cbn in Hf; lia|]. cbn. rewrite bool_decide_eq_false_2 by done. by destruct direction.
  - apply Forall_cons in Hps as [Hp Hps]. pose proof (read_pair_line l r (concat (map pair_line ps)) Hp) as Hread.
    cbn [map concat] in *. set (tl := concat (map pair_line ps)) in *. pose proof Hp as (Hne & Hl & _ & Hr). cbn [fst snd] in *.
    destruct l as [|c l]; [done|]. destruct (Forall_inv Hl) as (Hc & Hc0 & Hc35).
    assert (drop_while is_space (pre ++ pair_line (c :: l, r) ++ tl) = pair_line (c :: l, r) ++ tl) as Hd.
    { assert (is_space c = false) as Hs by (unfold left_char in Hc; by destruct (is_space c)). unfold pair_line. destruct Hpre as [-> | ->]; cbn; by rewrite Hs. }
    cbn [resolve_text]. destruct (pre ++ pair_line (c :: l, r) ++ tl) as [|d s] eqn:Es; [by destruct Hpre as [-> | ->]|].
    rewrite Hd. clear Es. assert (match pair_line (c :: l, r) ++ tl with c :: _ => c =? 35 | [] => false end = false) as -> by (cbn; by apply Z.eqb_neq).
    rewrite Hread. cbn [lookup_pair]. rewrite !cstring_id by (eapply Forall_impl; [eassumption|cbn; tauto]).
    destruct direction; (case_step; [done|]); apply (IH fuel [NEWLINE]); auto; cbn in *; lia.
Qed.

Lemma pairs_length ps : (2 * length ps <= length (concat (map pair_line ps)))%nat.
Proof. induction ps as [|[l r] ps IH]; cbn [map concat length]; [lia|]. unfold pair_line at 1. rewrite !length_app. cbn. lia. Qed.

Lemma resolve_name_pairs XLOCALEDIR getenv fs filename ps direction name :
  fopen fs (get_xlocaledir_path XLOCALEDIR getenv ++ [47] ++ filename) = Some (concat (map pair_line ps)) → Forall pair_ok ps → name ≠ [] →
  Z.of_nat (length (get_xlocaledir_path XLOCALEDIR getenv ++ [47] ++ filename)) < PATH_SIZE →
  resolve_name XLOCALEDIR getenv fs filename direction name = Some (lookup_pair ps direction name).
Proof.
  intros Hf Hps Hn Hl. unfold resolve_name. rewrite (proj2 (Z.leb_gt _ _)) by done. rewrite Hf. cbn [mbind option_bind].
  pose proof (pairs_length ps) as Hlen. destruct ps as [|x ps]; [done|]. cbn [length] in Hlen.
  destruct (concat (map pair_line (x :: ps))) as [|c s] eqn:E; [cbn in Hlen; lia|]. cbn [map_file]. rewrite <- E.
  rewrite (resolve_loop_text _ _ 0 (concat (map pair_line (x :: ps)))) by (by split; [lia|]). apply (resolve_pairs (x :: ps) _ [] direction name); auto. rewrite E. cbn in *. lia.
Qed.

Lemma lookup_pair_word ps direction name x : Forall pair_ok ps → lookup_pair ps direction name = Some x → x ≠ [].
Proof.
  induction ps as [|[l r] ps IH]; intros H; cbn; [done|]. apply Forall_cons in H as [(Hl & _ & Hr & _) H]. destruct direction; case_step; try by auto.
  - by intros [= <-].
  - by intros [= <-].
Qed.

(** ** Tables *)

Section tables.
Context (XLOCALEDIR : list Z) (getenv : list Z → option (list Z)) (fs : list Z → option os_file).
Hypothesis Hdir : Forall is_byte XLOCALEDIR.
Hypothesis Henv : ∀ name value, getenv name = Some value → Forall is_byte value.
Hypothesis Hfs : ∀ path f, fs path = Some f → Forall is_byte (fl_bytes f).

Lemma xlocaledir_bytes : Forall is_byte (get_xlocaledir_path XLOCALEDIR getenv).
Proof. unfold get_xlocaledir_path. destruct (getenv (chars "XLOCALEDIR")) eqn:E; [by eapply Henv|done]. Qed.

Lemma fopen_ok : files_ok (fopen fs).
Proof. intros path string H. unfold fopen in H. apply fmap_Some in H as (f & Hf & ->). by eapply Hfs. Qed.

Lemma resolve_name_total filename direction name :
  ∃ r, resolve_name XLOCALEDIR getenv fs filename direction name = Some r ∧ ∀ x, r = Some x → Forall is_byte x.
Proof.
  unfold resolve_name. case_step; [by exists None|]. set (path := get_xlocaledir_path XLOCALEDIR getenv ++ [47] ++ filename). destruct (fopen fs path) as [[|c s]|] eqn:E; cbn [mbind option_bind map_file];
    [by exists None| |by exists None]. rewrite (resolve_loop_text _ _ 0 (c :: s)) by (by split; [lia|]). apply resolve_text_total; [by eapply fopen_ok|lia].
Qed.

Lemma locale_path_total locale :
  ∃ r, get_locale_compose_file_path XLOCALEDIR getenv fs locale = Some r ∧ ∀ x, r = Some x → Forall is_byte x.
Proof.
  unfold get_locale_compose_file_path. set (l := if bool_decide (locale = chars "C") then chars "en_US.UTF-8" else locale).
  destruct (resolve_name_total (chars "compose.dir") RIGHT_TO_LEFT l) as (r & -> & Hr). cbn [mbind option_bind]. eexists. split; [done|].
  intros x. destruct r as [path|]; [|done]. specialize (Hr path eq_refl). pose proof xlocaledir_bytes.
  assert (Forall is_byte (get_xlocaledir_path XLOCALEDIR getenv ++ [47] ++ path)) by (rewrite !Forall_app; split_and!; [done|by repeat constructor|done]).
  intros [= <-]. by repeat case_step.
Qed.

Lemma table_env_total locale : ∃ e, table_env XLOCALEDIR getenv fs locale = Some e ∧ env_ok e.
Proof.
  unfold table_env. destruct (locale_path_total locale) as (r & -> & Hr). cbn [mbind option_bind]. eexists. split; [done|].
  split; [cbn; by apply Henv|]. split; [done|apply xlocaledir_bytes].
Qed.

Lemma parse_file_safe e file :
  env_ok e → Forall is_byte file → ∃ r, parse_file e (fopen fs) xkb_compose_table_new file = Some r ∧ extended xkb_compose_table_new r.2.
Proof.
  intros He Hb. unfold parse_file. destruct file as [|c file]; [exists (false, xkb_compose_table_new); split; [done|apply extended_refl]|].
  destruct (parse_total e (fopen fs) MAX_INCLUDE_DEPTH xkb_compose_table_new (c :: file) He fopen_ok) as (ok & T & E & _ & Hx); [eexists; apply table_new_rep|done|].
  by exists (ok, T).
Qed.

Lemma first_file_bytes paths file : first_file fs paths = Some file → Forall is_byte file.
Proof.
  induction paths as [|p paths IH]; cbn; [done|]. destruct (open_file fs p) as [f|] eqn:E; [|done]. intros [= <-]. unfold open_file in E.
  destruct p as [p|]; [|done]. cbn in E. destruct (fs p) as [g|] eqn:Eg; [|done]. cbn in E. case_step_in E; [|done]. injection E as <-. by eapply Hfs.
Qed.

Lemma from_locale_safe locale flags :
  ∃ r, xkb_compose_table_new_from_locale XLOCALEDIR getenv fs locale flags = Some r ∧ ∀ T, r = Some T → extended xkb_compose_table_new T.
Proof.
  unfold xkb_compose_table_new_from_locale. case_step; [by exists None|]. unfold resolve_locale.
  destruct (resolve_name_total (chars "locale.alias") LEFT_TO_RIGHT locale) as (alias & -> & _). cbn [mbind option_bind].
  destruct (table_env_total (default locale alias)) as (e & -> & He). cbn [mbind option_bind].
  destruct (locale_path_total (default locale alias)) as (path & -> & _). cbn [mbind option_bind].
  destruct (first_file _ _) as [file|] eqn:Ef; [|by exists None]. destruct (parse_file_safe e file He (first_file_bytes _ _ Ef)) as ([ok T] & -> & Hx).
  cbn [mbind option_bind]. eexists. split; [done|]. intros T'. unfold table_of. cbn. case_step; [|done]. by intros [= <-].
Qed.
End tables.

(** ** The documented search *)

(** A path that is not absolute is below the directory of the locales. *)
Definition below_dir (dir path : list Z) : list Z := match path with 47 :: _ => path | _ => dir ++ [47] ++ path end.

(** The files of the directory of locales as lists of pairs. *)
Definition locale_dir (fs : list Z → option os_file) (dir : list Z) (aliases dirs : list (list Z * list Z)) : Prop :=
  fopen fs (dir ++ chars "/locale.alias") = Some (concat (map pair_line aliases)) ∧
  fopen fs (dir ++ chars "/compose.dir") = Some (concat (map pair_line dirs)) ∧
  Forall pair_ok aliases ∧ Forall pair_ok dirs ∧ Z.of_nat (length dir) < 490.

(** The name of a locale, and its Compose file; the C locale is taken as
    en_US.UTF-8. *)
Definition locale_name (aliases : list (list Z * list Z)) (locale : list Z) : list Z := default locale (lookup_pair aliases LEFT_TO_RIGHT locale).
Definition system_file (dir : list Z) (dirs : list (list Z * list Z)) (locale : list Z) : option (list Z) :=
  below_dir dir <$> lookup_pair dirs RIGHT_TO_LEFT (if bool_decide (locale = chars "C") then chars "en_US.UTF-8" else locale).

Lemma locale_file_found XLOCALEDIR getenv fs aliases dirs locale :
  let dir := get_xlocaledir_path XLOCALEDIR getenv in
  locale_dir fs dir aliases dirs → locale ≠ [] →
  resolve_locale XLOCALEDIR getenv fs locale = Some (locale_name aliases locale) ∧
  get_locale_compose_file_path XLOCALEDIR getenv fs (locale_name aliases locale) = Some (system_file dir dirs (locale_name aliases locale)).
Proof.
  intros dir. subst dir. intros (Ha & Hd & Hpa & Hpd & Hlen) Hl. split.
  - unfold resolve_locale. by rewrite (resolve_name_pairs _ _ _ _ aliases) by (done || (unfold PATH_SIZE; rewrite length_app; cbn; lia)).
  - unfold get_locale_compose_file_path. rewrite (resolve_name_pairs _ _ _ _ dirs); [|done|done| |unfold PATH_SIZE; rewrite length_app; cbn; lia].
    + cbn [mbind option_bind]. done.
    + case_bool_decide; [done|]. unfold locale_name. destruct (lookup_pair aliases LEFT_TO_RIGHT locale) as [x|] eqn:E; [|done]. exact (lookup_pair_word aliases _ _ x Hpa E).
Qed.

(** The files that may be the Compose file, in the order of the documentation. *)
Definition is_absolute (path : list Z) : bool := bool_decide (head path = Some 47).
Definition compose_files (getenv : list Z → option (list Z)) (system : option (list Z)) : list (option (list Z)) :=
  let home := getenv (chars "HOME") in
  [ getenv (chars "XCOMPOSEFILE");
    match getenv (chars "XDG_CONFIG_HOME") with
    | Some xdg => if is_absolute xdg then Some (xdg ++ chars "/XCompose") else (λ h, h ++ chars "/.config/XCompose") <$> home
    | None => (λ h, h ++ chars "/.config/XCompose") <$> home
    end;
    (λ h, h ++ chars "/.XCompose") <$> home;
    system ].

Lemma search_order getenv system :
  [get_xcomposefile_path getenv; get_xdg_xcompose_file_path getenv; get_home_xcompose_file_path getenv; system] = compose_files getenv system.
Proof.
  assert (∀ o : option (list Z), (x ← o; Some (x ++ chars "/.XCompose")) = (λ h, h ++ chars "/.XCompose") <$> o) as H1 by (by intros []).
  assert (∀ o : option (list Z), (x ← o; Some (x ++ chars "/.config/XCompose")) = (λ h, h ++ chars "/.config/XCompose") <$> o) as H2 by (by intros []).
  unfold compose_files, get_xcomposefile_path, get_xdg_xcompose_file_path, get_home_xcompose_file_path. rewrite H1, H2. do 2 f_equal.
  destruct (getenv (chars "XDG_CONFIG_HOME")) as [[|c xdg]|]; [done| |done]. unfold is_absolute. cbn [head].
  destruct (decide (c = 47)) as [->|Hc]; [done|]. rewrite bool_decide_eq_false_2 by congruence.
  destruct c as [|c|c]; [done| |done]. repeat (destruct c as [c|c|]; try done).
Qed.

Lemma first_file_none fs paths : (∀ p, p ∈ paths → open_file fs p = None) → first_file fs paths = None.
Proof.
  induction paths as [|p paths IH]; intros H; [done|]. cbn. rewrite (H p) by constructor. apply IH. intros q Hq. apply H. by constructor.
Qed.
Lemma first_file_at fs paths i p file :
  paths !! i = Some p → open_file fs p = Some file → (∀ j q, (j < i)%nat → paths !! j = Some q → open_file fs q = None) → first_file fs paths = Some file.
Proof.
  revert i. induction paths as [|q paths IH]; intros [|i] Hi Hp Hj; try done; cbn.
  - injection Hi as ->. by rewrite Hp.
  - rewrite (Hj 0%nat q) by (done || lia). apply (IH i); [done..|]. intros j q' Hlt Hq. by apply (Hj (S j)); [lia|].
Qed.

(** ** The theorem *)

(** C37: with the directory of locales given as lists of pairs, a table for a
    locale is made without undefined behaviour whatever the environment and
    the files hold.  The locale is resolved through the aliases and the file of
    the locale through compose.dir.  Of XCOMPOSEFILE, the file in
    XDG_CONFIG_HOME or ~/.config, ~/.XCompose and the file of the locale, the
    first that opens is parsed, and its table is the result; there is none when
    no file opens or the file has an error. *)
Theorem compose_from_locale XLOCALEDIR getenv fs aliases dirs locale :
  let dir := get_xlocaledir_path XLOCALEDIR getenv in
  let system := system_file dir dirs (locale_name aliases locale) in
  let files := compose_files getenv system in
  Forall is_byte XLOCALEDIR → (∀ name value, getenv name = Some value → Forall is_byte value) →
  (∀ path f, fs path = Some f → Forall is_byte (fl_bytes f)) →
  locale_dir fs dir aliases dirs → locale ≠ [] →
  ∃ r, xkb_compose_table_new_from_locale XLOCALEDIR getenv fs locale 0 = Some r ∧
    ((∀ path, path ∈ files → open_file fs path = None) → r = None) ∧
    (∀ i path file, files !! i = Some path → open_file fs path = Some file →
       (∀ j path', (j < i)%nat → files !! j = Some path' → open_file fs path' = None) →
       ∃ ok T ps, parse_file (mk_include_env (getenv (chars "HOME")) system dir) (fopen fs) xkb_compose_table_new file = Some (ok, T) ∧
         Forall production_ok ps ∧ add_all xkb_compose_table_new ps = Some T ∧ r = if ok then Some T else None).
Proof.
  intros dir system files Hdir Henv Hfs Hlocale Hne. destruct (locale_file_found XLOCALEDIR getenv fs aliases dirs locale Hlocale Hne) as [Er Ef].
  destruct (table_env_total XLOCALEDIR getenv fs Hdir Henv Hfs (locale_name aliases locale)) as (e & Ee & He).
  unfold xkb_compose_table_new_from_locale. cbn [Z.eqb negb]. rewrite Er. cbn [mbind option_bind]. rewrite Ee. cbn [mbind option_bind]. rewrite Ef. cbn [mbind option_bind].
  unfold table_env in Ee. rewrite Ef in Ee. cbn [mbind option_bind] in Ee. injection Ee as <-. rewrite search_order. fold dir system files in He |- *.
  destruct (first_file fs files) as [file|] eqn:E1.
  - destruct (parse_file_safe fs Hfs _ file He (first_file_bytes fs Hfs _ _ E1)) as ([ok T] & Ep & ps & Hps & Ea). rewrite Ep. cbn [mbind option_bind table_of fst snd] in *.
    eexists. split; [done|]. split; [intros Hn%first_file_none; congruence|]. intros i path file' Hi Ho Hj. rewrite (first_file_at _ _ _ _ _ Hi Ho Hj) in E1.
    injection E1 as ->. by exists ok, T, ps.
  - eexists. split; [done|]. split; [done|]. intros i path file Hi Ho Hj. rewrite (first_file_at _ _ _ _ _ Hi Ho Hj) in E1. done.
Qed.

(** A directory of locales with the file of one of them. *)
Definition demo_pairs : list (list Z * list Z) := [(chars "en", chars "en_US.UTF-8")].
Definition demo_dir_pairs : list (list Z * list Z) := [(chars "x/Compose", chars "C"); (chars "y/Compose", chars "en_US.UTF-8")].
Definition demo_fs (path : list Z) : option os_file :=
  if bool_decide (path = chars "/l/locale.alias") then Some (mk_file true (concat (map pair_line demo_pairs)))
  else if bool_decide (path = chars "/l/compose.dir") then Some (mk_file true (concat (map pair_line demo_dir_pairs)))
  else if bool_decide (path = chars "/l/y/Compose") then Some (mk_file true (chars "<a> : b" ++ [10]))
  else None.

Lemma demo_fs_bytes path f : demo_fs path = Some f → Forall is_byte (fl_bytes f).
Proof. unfold demo_fs. repeat case_step; intros [= <-]; unfold is_byte; apply (bool_decide_unpack _); vm_compute; exact I. Qed.
Lemma demo_locale_dir : locale_dir demo_fs (chars "/l") demo_pairs demo_dir_pairs.
Proof. split; [reflexivity|]. split; [reflexivity|]. unfold pair_ok. split_and!; [apply (bool_decide_unpack _); vm_compute; exact I..|reflexivity]. Qed.

Lemma compose_from_locale_witness :
  ∃ T ps, xkb_compose_table_new_from_locale (chars "/l") (λ _, None) demo_fs (chars "en") 0 = Some (Some T) ∧
    Forall production_ok ps ∧ add_all xkb_compose_table_new ps = Some T ∧ num_nodes T = 2.
Proof.
  destruct (compose_from_locale (chars "/l") (λ _, None) demo_fs demo_pairs demo_dir_pairs (chars "en")) as (r & E & _ & Hr);
    [unfold is_byte; apply (bool_decide_unpack _); vm_compute; exact I|done|exact demo_fs_bytes|exact demo_locale_dir|done|].
  destruct (Hr 3%nat (Some (chars "/l/y/Compose")) (chars "<a> : b" ++ [10]) eq_refl eq_refl) as (ok & T & ps & Ep & Hps & Ea & Ert).
  { intros [|[|[|j]]] q Hj Hq; [injection Hq as <-; reflexivity..|lia]. }
  match type of Ep with ?parsed = _ => assert ((λ x : bool * xkb_compose_table, (x.1, num_nodes x.2)) <$> parsed = Some (true, 2)) as Hc by (vm_compute; reflexivity) end.
  rewrite Ep in Hc. injection Hc as -> Hn. exists T, ps. refine (conj _ (conj Hps (conj Ea Hn))). rewrite E, Ert. reflexivity.
Defined.
