(* ===== verification/K1Color.v ===== *)
(** * The colours of the K1OS console

    Models the palette and the colour reduction of k1de/src/main.rs: [rgb],
    [ansi256_to_rgb] and [nearest_16].  A colour is an XRGB8888 [u32]. *)

From S2P Require Import Prelude.
Open Scope Z_scope.

Definition FG : Z := 0x00C0C0C0.
Definition BG : Z := 0x00101014.

Definition PALETTE : list Z :=
  [0x00000000; 0x00AA0000; 0x0000AA00; 0x00AA5500; 0x000000AA; 0x00AA00AA; 0x0000AAAA; 0x00AAAAAA;
   0x00555555; 0x00FF5555; 0x0055FF55; 0x00FFFF55; 0x005555FF; 0x00FF55FF; 0x0055FFFF; 0x00FFFFFF].

Definition rgb (r g b : Z) : Z :=
  Z.lor (Z.lor (Z.shiftl r 16) (Z.shiftl g 8)) b.

Definition levels : list Z := [0; 95; 135; 175; 215; 255].

(** [idx] is a [u8]; an index out of range panics. *)
Definition ansi256_to_rgb (idx : Z) : option Z :=
  if idx <=? 15 then PALETTE !! Z.to_nat idx
  else if idx <=? 231 then
    let i := idx - 16 in
    r ← levels !! Z.to_nat (i / 36 mod 6);
    g ← levels !! Z.to_nat (i / 6 mod 6);
    b ← levels !! Z.to_nat (i mod 6);
    Some (rgb r g b)
  else
    let v := 8 + (idx - 232) * 10 in Some (rgb v v v).

Definition red (c : Z) : Z := Z.land (Z.shiftr c 16) 0xff.
Definition green (c : Z) : Z := Z.land (Z.shiftr c 8) 0xff.
Definition blue (c : Z) : Z := Z.land c 0xff.

(** The squared distance, at most 3 * 255^2, fits an [i32]. *)
Definition dist (a b : Z) : Z := (red a - red b) ^ 2 + (green a - green b) ^ 2 + (blue a - blue b) ^ 2.

Definition I32_MAX : Z := 2 ^ 31 - 1.

Fixpoint nearest_loop (color i best best_dist : Z) (ps : list Z) : Z :=
  match ps with
  | [] => best
  | p :: ps =>
      let d := dist color p in
      if d <? best_dist then nearest_loop color (i + 1) i d ps
      else nearest_loop color (i + 1) best best_dist ps
  end.
Definition nearest_16 (color : Z) : Z := nearest_loop color 0 0 I32_MAX PALETTE.

(** ** The nearest colour *)

Lemma component_bound c s : 0 <= Z.land (Z.shiftr c s) 0xff < 256.
Proof.
  change 0xff with (Z.ones 8). rewrite Z.land_ones by lia. apply Z.mod_pos_bound. lia.
Qed.

Lemma square_bound x y : 0 <= x < 256 → 0 <= y < 256 → 0 <= (x - y) ^ 2 <= 65025.
Proof.
  intros Hx Hy. rewrite Z.pow_2_r. pose proof (Z.square_nonneg (x - y)).
  assert (0 <= (255 - (x - y)) * (255 + (x - y))) by (apply Z.mul_nonneg_nonneg; lia). lia.
Qed.

Lemma dist_bound a b : 0 <= dist a b <= 195075.
Proof.
  unfold dist, red, green, blue.
  pose proof (square_bound _ _ (component_bound a 16) (component_bound b 16)).
  pose proof (square_bound _ _ (component_bound a 8) (component_bound b 8)).
  pose proof (square_bound _ _ (component_bound a 0) (component_bound b 0)) as Hb. rewrite !Z.shiftr_0_r in Hb. lia.
Qed.

(** [k] is the first index at which [f] is minimal, [m] the minimum. *)
Definition first_min (f : Z → Z) (l : list Z) (k : nat) : Prop :=
  ∃ p, l !! k = Some p ∧ (∀ j q, l !! j = Some q → f p <= f q) ∧ (∀ j q, (j < k)%nat → l !! j = Some q → f p < f q).

Lemma nearest_loop_spec color pre ps best :
  first_min (dist color) pre best →
  ∃ k, nearest_loop color (Z.of_nat (length pre)) (Z.of_nat best) (dist color (default 0 (pre !! best))) ps = Z.of_nat k ∧
    first_min (dist color) (pre ++ ps) k.
Proof.
  revert pre best. induction ps as [|p ps IH]; intros pre best Hm; cbn [nearest_loop].
  { exists best. by rewrite app_nil_r. }
  destruct Hm as (b & Hb & Hmin & Hfirst). rewrite Hb. cbn [default from_option id].
  replace (Z.of_nat (length pre) + 1) with (Z.of_nat (length (pre ++ [p]))) by (rewrite length_app; cbn; lia).
  assert (∀ j q, (pre ++ [p]) !! j = Some q → pre !! j = Some q ∨ (j = length pre ∧ q = p)) as Hcase.
  { intros j q Hq. apply lookup_app_Some in Hq as [?|[Hj Hq]]; [by left|right].
    apply list_lookup_singleton_Some in Hq as [? ->]. split; [lia|done]. }
  assert (pre ++ p :: ps = (pre ++ [p]) ++ ps) as -> by (by rewrite <- app_assoc). destruct (Z.ltb_spec (dist color p) (dist color b)) as [Hlt|Hge].
  - assert ((pre ++ [p]) !! length pre = Some p) as Hp by (by rewrite list_lookup_middle).
    destruct (IH (pre ++ [p]) (length pre)) as (k & Hk & Hm').
    { exists p. split; [done|]. split.
      - intros j q [Hq|[_ ->]]%Hcase; [specialize (Hmin j q Hq)|]; lia.
      - intros j q Hj [Hq|[? _]]%Hcase; [specialize (Hmin j q Hq)|]; lia. }
    exists k. rewrite Hp in Hk. split; [exact Hk|exact Hm'].
  - assert ((pre ++ [p]) !! best = Some b) as Hb' by (by apply lookup_app_l_Some).
    destruct (IH (pre ++ [p]) best) as (k & Hk & Hm').
    { exists b. split; [done|]. split.
      - intros j q [Hq|[_ ->]]%Hcase; [by apply Hmin in Hq|done].
      - intros j q Hj Hq. apply (Hfirst j q Hj). apply lookup_lt_Some in Hb.
        rewrite lookup_app_l in Hq by lia. done. }
    exists k. rewrite Hb' in Hk. split; [exact Hk|exact Hm'].
Qed.

Lemma nearest_loop_first color ps :
  nearest_loop color 0 0 I32_MAX (0 :: ps) = nearest_loop color 1 0 (dist color 0) ps.
Proof.
  cbn [nearest_loop]. pose proof (dist_bound color 0) as Hd.
  by rewrite (proj2 (Z.ltb_lt (dist color 0) I32_MAX)) by (unfold I32_MAX; lia).
Qed.

Lemma nearest_first_min color : ∃ k, nearest_16 color = Z.of_nat k ∧ first_min (dist color) PALETTE k.
Proof.
  destruct (nearest_loop_spec color [0] (tail PALETTE) 0) as (k & Hk & Hm).
  { exists 0. split; [done|]. split; [|lia]. intros j q Hq. apply list_lookup_singleton_Some in Hq as [_ <-]. lia. }
  exists k. split; [|exact Hm]. rewrite <- Hk. apply (nearest_loop_first color (tail PALETTE)).
Qed.

Lemma nearest_16_range color : 0 <= nearest_16 color < 16.
Proof.
  destruct (nearest_first_min color) as (k & -> & p & Hp & _). apply lookup_lt_Some in Hp. cbn in Hp. lia.
Qed.

Lemma ansi256_ok idx : 0 <= idx < 256 → ∃ c, ansi256_to_rgb idx = Some c.
Proof.
  intros Hi. unfold ansi256_to_rgb. destruct (Z.leb_spec idx 15).
  { apply lookup_lt_is_Some_2. cbn. lia. }
  destruct (Z.leb_spec idx 231); [|eauto].
  assert (∀ x, is_Some (levels !! Z.to_nat (x mod 6))) as Hl.
  { intros x. apply lookup_lt_is_Some_2. pose proof (Z.mod_pos_bound x 6). cbn. lia. }
  destruct (Hl ((idx - 16) / 36)) as [r ->], (Hl ((idx - 16) / 6)) as [g ->], (Hl (idx - 16)) as [b ->]. cbn. eauto.
Qed.

(** [nearest_16] returns the palette index of least squared distance, the
    first one of equally near ones; a palette colour is its own. *)
Theorem nearest_16_nearest color :
  ∃ k p, nearest_16 color = Z.of_nat k ∧ PALETTE !! k = Some p ∧
    (∀ j q, PALETTE !! j = Some q → dist color p <= dist color q) ∧
    (∀ j q, (j < k)%nat → PALETTE !! j = Some q → dist color p < dist color q) ∧
    map nearest_16 PALETTE = seqZ 0 16.
Proof.
  destruct (nearest_first_min color) as (k & Hk & p & Hp & Hmin & Hfirst). by exists k, p.
Qed.
