(* ===== verification/K1Term.v ===== *)
(** * The terminal of the K1OS console

    Models [Terminal] of k1de/src/main.rs: the grid of cells, the cursor, the
    colours, and the automaton for control bytes and escape sequences.
    [None] is a panic: an index or range outside a vector, or a vector of more
    than [isize::MAX] bytes.  The release build wraps machine integers, and a
    [usize] has 64 bits.  The index arithmetic on a grid that could be allocated
    stays below 2^63; the product of its sides and the parameters of control
    sequences may wrap. *)

From S2P Require Import Prelude Decimal K1Color.
Open Scope Z_scope.

(** ** Data *)

Record Cell : Type := mk_cell { ch : Z; fg : option Z; bg : option Z }.
#[export] Instance cell_eq_dec : EqDecision Cell.
Proof. solve_decision. Defined.

Definition BLANK : Cell := mk_cell 32 None None.

Inductive EscState : Type := EscNone | Esc | Csi | Osc | OscEsc | Dcs | DcsEsc | Charset.

Record Terminal : Type := mk_term {
  cols : Z; rows : Z; cells : list Cell; cursor_row : Z; cursor_col : Z; esc : EscState; dirty : bool;
  csi_params : list Z; csi_cur : option Z; cur_fg : option Z; cur_bg : option Z; bold : bool
}.

Definition set_cells (l : list Cell) (t : Terminal) : Terminal :=
  mk_term (cols t) (rows t) l (cursor_row t) (cursor_col t) (esc t) (dirty t) (csi_params t) (csi_cur t) (cur_fg t) (cur_bg t) (bold t).
Definition set_cursor (r c : Z) (t : Terminal) : Terminal :=
  mk_term (cols t) (rows t) (cells t) r c (esc t) (dirty t) (csi_params t) (csi_cur t) (cur_fg t) (cur_bg t) (bold t).
Definition set_col (c : Z) (t : Terminal) : Terminal := set_cursor (cursor_row t) c t.
Definition set_esc (e : EscState) (t : Terminal) : Terminal :=
  mk_term (cols t) (rows t) (cells t) (cursor_row t) (cursor_col t) e (dirty t) (csi_params t) (csi_cur t) (cur_fg t) (cur_bg t) (bold t).
Definition set_dirty (d : bool) (t : Terminal) : Terminal :=
  mk_term (cols t) (rows t) (cells t) (cursor_row t) (cursor_col t) (esc t) d (csi_params t) (csi_cur t) (cur_fg t) (cur_bg t) (bold t).
Definition set_csi (ps : list Z) (c : option Z) (t : Terminal) : Terminal :=
  mk_term (cols t) (rows t) (cells t) (cursor_row t) (cursor_col t) (esc t) (dirty t) ps c (cur_fg t) (cur_bg t) (bold t).
Definition set_colors (f b : option Z) (bo : bool) (t : Terminal) : Terminal :=
  mk_term (cols t) (rows t) (cells t) (cursor_row t) (cursor_col t) (esc t) (dirty t) (csi_params t) (csi_cur t) f b bo.
Definition set_fg (f : option Z) (t : Terminal) : Terminal := set_colors f (cur_bg t) (bold t) t.
Definition set_bg (b : option Z) (t : Terminal) : Terminal := set_colors (cur_fg t) b (bold t) t.
Definition set_bold (bo : bool) (t : Terminal) : Terminal := set_colors (cur_fg t) (cur_bg t) bo t.

(** ** Vectors and integers *)

Definition len (t : Terminal) : Z := Z.of_nat (length (cells t)).
(** A subtraction of [usize], which wraps below zero. *)
Definition usize_sub (a b : Z) : Z := if b <=? a then a - b else a - b + 2 ^ 64.
Definition saturating_sub (a b : Z) : Z := Z.max 0 (a - b).

(** [cells[a..b].fill(BLANK)]. *)
Definition fill_blank (a b : Z) (t : Terminal) : option Terminal :=
  if (0 <=? a) && (a <=? b) && (b <=? len t)
  then Some (set_cells (take (Z.to_nat a) (cells t) ++ replicate (Z.to_nat (b - a)) BLANK ++ drop (Z.to_nat b) (cells t)) t)
  else None.

(** ** The operations *)

(** A [Cell] has five bytes, a byte and two optional bytes. *)
Definition CELL_SIZE : Z := 5.
Definition isize_max : Z := 2 ^ 63 - 1.

(** [vec![BLANK; cols * rows]]: the product wraps, and a capacity of more than
    [isize::MAX] bytes panics. *)
Definition vec_blank (cols rows : Z) : option (list Cell) :=
  let n := u64 (cols * rows) in
  if CELL_SIZE * n <=? isize_max then Some (replicate (Z.to_nat n) BLANK) else None.

Definition new (cols rows : Z) : option Terminal :=
  cells ← vec_blank cols rows;
  Some (mk_term cols rows cells 0 0 EscNone true [] None None None false).

Definition csi_param (t : Terminal) (i : nat) (default : Z) : Z :=
  match csi_params t !! i with
  | None => default
  | Some v => if v =? 0 then default else v
  end.

Definition resize (c r : Z) (t : Terminal) : option Terminal :=
  if (c =? cols t) && (r =? rows t) then Some t
  else
    let c := Z.max c 1 in
    let r := Z.max r 1 in
    cells ← vec_blank c r;
    Some (mk_term c r cells 0 0 (esc t) true (csi_params t) (csi_cur t) (cur_fg t) (cur_bg t) (bold t)).

Definition newline (t : Terminal) : option Terminal :=
  let t := set_col 0 t in
  if rows t <=? cursor_row t + 1 then
    if cols t <=? len t then
      let moved := drop (Z.to_nat (cols t)) (cells t) in
      let t := set_cells (moved ++ drop (length moved) (cells t)) t in
      let last := usize_sub (len t) (cols t) in
      fill_blank last (len t) t
    else None
  else Some (set_cursor (cursor_row t + 1) (cursor_col t) t).

Definition extended_color (c : Z) (target_fg : bool) (t : Terminal) : Terminal :=
  if target_fg then set_fg (Some c) t else set_bg (Some c) t.

(** One parameter at index [i]: the new terminal and the index to go on with,
    before [i += 1]. *)
Definition sgr_param (p : Z) (i : nat) (t : Terminal) : option (Terminal * nat) :=
  if p =? 0 then Some (set_colors None None false t, i)
  else if p =? 1 then Some (set_bold true t, i)
  else if p =? 22 then Some (set_bold false t, i)
  else if (30 <=? p) && (p <=? 37) then Some (set_fg (Some (p - 30)) t, i)
  else if p =? 39 then Some (set_fg None t, i)
  else if (40 <=? p) && (p <=? 47) then Some (set_bg (Some (p - 40)) t, i)
  else if p =? 49 then Some (set_bg None t, i)
  else if (90 <=? p) && (p <=? 97) then Some (set_fg (Some (p - 90 + 8)) t, i)
  else if (100 <=? p) && (p <=? 107) then Some (set_bg (Some (p - 100 + 8)) t, i)
  else if (p =? 38) || (p =? 48) then
    let target_fg := p =? 38 in
    match csi_params t !! (i + 1)%nat with
    | Some 5 =>
        match csi_params t !! (i + 2)%nat with
        | Some idx =>
            c ← ansi256_to_rgb (idx mod 256);
            Some (extended_color (nearest_16 c) target_fg t, (i + 2)%nat)
        | None => Some (t, (i + 2)%nat)
        end
    | Some 2 =>
        let at_ k := default 0 (csi_params t !! (i + k)%nat) mod 256 in
        Some (extended_color (nearest_16 (rgb (at_ 2%nat) (at_ 3%nat) (at_ 4%nat))) target_fg t, (i + 4)%nat)
    | _ => Some (t, i)
    end
  else Some (t, i).

Fixpoint sgr_loop (fuel i : nat) (t : Terminal) : option Terminal :=
  match csi_params t !! i with
  | None => Some t
  | Some p =>
      match fuel with
      | O => None
      | S fuel => '(t, i) ← sgr_param p i t; sgr_loop fuel (S i) t
      end
  end.

Definition apply_sgr (t : Terminal) : option Terminal :=
  match csi_params t with
  | [] => Some (set_colors None None false t)
  | ps => sgr_loop (length ps) 0 t
  end.

(** The final bytes are named by their ASCII codes. *)
Definition apply_csi (final_byte : Z) (t : Terminal) : option Terminal :=
  let row_start := cursor_row t * cols t in
  if final_byte =? 75 (* K *) then
    let p := csi_param t 0 0 in
    if p =? 0 then fill_blank (row_start + cursor_col t) (row_start + cols t) t
    else if p =? 1 then fill_blank row_start (row_start + Z.min (cursor_col t) (usize_sub (cols t) 1) + 1) t
    else if p =? 2 then fill_blank row_start (row_start + cols t) t
    else Some t
  else if final_byte =? 74 (* J *) then
    let p := csi_param t 0 0 in
    if p =? 0 then fill_blank (row_start + cursor_col t) (len t) t
    else if p =? 1 then fill_blank 0 (Z.min (row_start + cursor_col t) (usize_sub (len t) 1) + 1) t
    else if (p =? 2) || (p =? 3) then
      t ← fill_blank 0 (len t) t; Some (set_cursor 0 0 t)
    else Some t
  else if final_byte =? 67 (* C *) then
    Some (set_col (Z.min (cursor_col t + csi_param t 0 1) (saturating_sub (cols t) 1)) t)
  else if final_byte =? 68 (* D *) then
    Some (set_col (saturating_sub (cursor_col t) (csi_param t 0 1)) t)
  else if final_byte =? 71 (* G *) then
    Some (set_col (Z.min (saturating_sub (csi_param t 0 1) 1) (saturating_sub (cols t) 1)) t)
  else if (final_byte =? 72) || (final_byte =? 102) (* H, f *) then
    let row := csi_param t 0 1 in
    let col := csi_param t 1 1 in
    Some (set_cursor (Z.min (saturating_sub row 1) (saturating_sub (rows t) 1))
                     (Z.min (saturating_sub col 1) (saturating_sub (cols t) 1)) t)
  else if final_byte =? 109 (* m *) then apply_sgr t
  else Some t.

Definition put (c : Z) (t : Terminal) : option Terminal :=
  t ← (if cols t <=? cursor_col t then newline t else Some t);
  let f := (λ x, if bold t then Z.lor x 8 else x) <$> cur_fg t in
  let idx := cursor_row t * cols t + cursor_col t in
  if (0 <=? idx) && (idx <? len t) then
    Some (set_col (cursor_col t + 1) (set_cells (<[Z.to_nat idx := mk_cell c f (cur_bg t)]> (cells t)) t))
  else None.

(** A tab stop is at most eight columns away. *)
Fixpoint tab_loop (fuel : nat) (next : Z) (t : Terminal) : option Terminal :=
  if (cursor_col t <? next) && (cursor_col t <? cols t) then
    match fuel with
    | O => None
    | S fuel => t ← put 32 t; tab_loop fuel next t
    end
  else Some t.

Definition process_plain (b : Z) (t : Terminal) : option Terminal :=
  if b =? 10 then newline t
  else if b =? 13 then Some (set_col 0 t)
  else if b =? 9 then tab_loop 8 ((cursor_col t / 8 + 1) * 8) t
  else if (b =? 8) || (b =? 127) then
    Some (if 0 <? cursor_col t then set_col (cursor_col t - 1) t else t)
  else if b =? 27 then Some (set_esc Esc t)
  else if (32 <=? b) && (b <=? 126) then put b t
  else Some t.

Definition process_esc (b : Z) (t : Terminal) : Terminal :=
  if b =? 91 then set_esc Csi (set_csi [] None t)
  else if b =? 93 then set_esc Osc t
  else if b =? 80 then set_esc Dcs t
  else if (b =? 40) || (b =? 41) || (b =? 42) || (b =? 43) then set_esc Charset t
  else set_esc EscNone t.

Definition process_csi (b : Z) (t : Terminal) : option Terminal :=
  if (48 <=? b) && (b <=? 57) then
    Some (set_csi (csi_params t) (Some (u32 (u32 (default 0 (csi_cur t) * 10) + (b - 48)))) t)
  else if b =? 59 then Some (set_csi (csi_params t ++ [default 0 (csi_cur t)]) None t)
  else if (64 <=? b) && (b <=? 126) then
    let t := match csi_cur t with Some v => set_csi (csi_params t ++ [v]) None t | None => t end in
    t ← apply_csi b t;
    Some (set_esc EscNone t)
  else Some t.

Definition process_byte (b : Z) (t : Terminal) : option Terminal :=
  let t := set_dirty true t in
  match esc t with
  | EscNone => process_plain b t
  | Esc => Some (process_esc b t)
  | Csi => process_csi b t
  | Osc => Some (if b =? 7 then set_esc EscNone t else if b =? 27 then set_esc OscEsc t else t)
  | OscEsc => Some (set_esc (if b =? 92 then EscNone else Osc) t)
  | Dcs => Some (if b =? 27 then set_esc DcsEsc t else t)
  | DcsEsc => Some (set_esc (if b =? 92 then EscNone else Dcs) t)
  | Charset => Some (set_esc EscNone t)
  end.

Fixpoint process_bytes (bs : list Z) (t : Terminal) : option Terminal :=
  match bs with
  | [] => Some t
  | b :: bs => t ← process_byte b t; process_bytes bs t
  end.

(** ** The invariant *)

Definition color_ok (c : option Z) : Prop := ∀ x, c = Some x → 0 <= x < 16.
Definition cell_ok (c : Cell) : Prop := 0 <= ch c < 256 ∧ color_ok (fg c) ∧ color_ok (bg c).
Definition u32_ok (x : Z) : Prop := 0 <= x < 2 ^ 32.

Record term_ok (t : Terminal) : Prop := mk_term_ok {
  ok_cols : 1 <= cols t;
  ok_rows : 1 <= rows t;
  ok_len : len t = cols t * rows t;
  ok_row : 0 <= cursor_row t < rows t;
  ok_col : 0 <= cursor_col t <= cols t;
  ok_cells : Forall cell_ok (cells t);
  ok_fg : color_ok (cur_fg t);
  ok_bg : color_ok (cur_bg t);
  ok_params : Forall u32_ok (csi_params t);
  ok_cur : u32_ok (default 0 (csi_cur t))
}.

Lemma color_none : color_ok None.
Proof. by intros x. Qed.

Lemma color_some x : 0 <= x < 16 → color_ok (Some x).
Proof. by intros ? y [= <-]. Qed.

Lemma blank_ok : cell_ok BLANK.
Proof. split; [cbn; lia|split; apply color_none]. Qed.
#[local] Hint Resolve color_none color_some blank_ok : k1.

Lemma ok_set_cells t l :
  term_ok t → length l = length (cells t) → Forall cell_ok l → term_ok (set_cells l t).
Proof. intros [] Hl Hf. split; try done. unfold len in *. cbn. by rewrite Hl. Qed.

Lemma ok_set_cursor t r c :
  term_ok t → 0 <= r < rows t → 0 <= c <= cols t → term_ok (set_cursor r c t).
Proof. by intros [] Hr Hc; split. Qed.

Lemma ok_set_col t c : term_ok t → 0 <= c <= cols t → term_ok (set_col c t).
Proof. intros Ht Hc. apply ok_set_cursor; [done|apply Ht|done]. Qed.

Lemma ok_set_esc t e : term_ok t → term_ok (set_esc e t).
Proof. by intros []; split. Qed.

Lemma ok_set_dirty t d : term_ok t → term_ok (set_dirty d t).
Proof. by intros []; split. Qed.

Lemma ok_set_csi t ps c : term_ok t → Forall u32_ok ps → u32_ok (default 0 c) → term_ok (set_csi ps c t).
Proof. by intros [] Hp Hc; split. Qed.

Lemma ok_set_colors t f b bo : term_ok t → color_ok f → color_ok b → term_ok (set_colors f b bo t).
Proof. by intros [] Hf Hb; split. Qed.

Lemma ok_set_fg t f : term_ok t → color_ok f → term_ok (set_fg f t).
Proof. intros Ht Hf. apply ok_set_colors; [done|done|apply Ht]. Qed.

Lemma ok_set_bg t b : term_ok t → color_ok b → term_ok (set_bg b t).
Proof. intros Ht Hb. apply ok_set_colors; [done|apply Ht|done]. Qed.

Lemma ok_set_bold t bo : term_ok t → term_ok (set_bold bo t).
Proof. intros Ht. apply ok_set_colors; [done|apply Ht|apply Ht]. Qed.

Lemma zero_u32 : u32_ok 0.
Proof. unfold u32_ok. lia. Qed.

#[local] Hint Resolve ok_set_cursor ok_set_col ok_set_esc ok_set_dirty ok_set_colors ok_set_fg ok_set_bg ok_set_bold zero_u32 : k1.

(** ** Allocating the grid *)

(** A grid of [c] by [r] cells, each at least one, can be allocated. *)
Definition small_grid (c r : Z) : Prop := CELL_SIZE * (Z.max c 1 * Z.max r 1) <= isize_max.

Definition blank_cells_of (c r : Z) : list Cell := replicate (Z.to_nat (c * r)) BLANK.

Lemma vec_blank_small c r : 1 <= c → 1 <= r → small_grid c r → vec_blank c r = Some (blank_cells_of c r).
Proof.
  intros Hc Hr Hs. unfold small_grid, CELL_SIZE, isize_max in Hs. rewrite !Z.max_l in Hs by lia.
  unfold vec_blank, CELL_SIZE, isize_max. rewrite u64_small by nia. by rewrite (proj2 (Z.leb_le _ _)) by lia.
Qed.

(** A new terminal and a resized one. *)
Definition blank_term (c r : Z) : Terminal :=
  mk_term c r (blank_cells_of c r) 0 0 EscNone true [] None None None false.
Definition resized (c r : Z) (t : Terminal) : Terminal :=
  if (c =? cols t) && (r =? rows t) then t
  else mk_term (Z.max c 1) (Z.max r 1) (blank_cells_of (Z.max c 1) (Z.max r 1)) 0 0 (esc t) true
    (csi_params t) (csi_cur t) (cur_fg t) (cur_bg t) (bold t).

Lemma new_small c r : 1 <= c → 1 <= r → small_grid c r → new c r = Some (blank_term c r).
Proof. intros Hc Hr Hs. unfold new. by rewrite vec_blank_small. Qed.

Lemma small_grid_max c r : small_grid c r → small_grid (Z.max c 1) (Z.max r 1).
Proof. unfold small_grid. by rewrite !(Z.max_l (Z.max _ 1) 1) by lia. Qed.

Lemma resize_small c r t : small_grid c r → resize c r t = Some (resized c r t).
Proof.
  intros Hs%small_grid_max. unfold resize, resized. case_step; [done|]. by rewrite vec_blank_small by (done || lia).
Qed.

Lemma length_blank_cells c r : 1 <= c → 1 <= r → Z.of_nat (length (blank_cells_of c r)) = c * r.
Proof. intros Hc Hr. unfold blank_cells_of. rewrite length_replicate. nia. Qed.

Lemma blank_cells_ok c r : Forall cell_ok (blank_cells_of c r).
Proof. apply Forall_replicate. auto with k1. Qed.

Lemma ok_new c r : 1 <= c → 1 <= r → term_ok (blank_term c r).
Proof.
  intros Hc Hr. split; cbn; try lia; auto with k1; [by apply length_blank_cells|apply blank_cells_ok].
Qed.

Lemma ok_resize t c r : term_ok t → term_ok (resized c r t).
Proof.
  intros Ht. unfold resized. case_step; [done|].
  destruct Ht. split; cbn; try lia; try done; [apply length_blank_cells; lia|apply blank_cells_ok].
Qed.

(** ** Erasing and scrolling *)

(** Cells [a] to [b] are blank in [l'], the others as in [l]. *)
Definition blanked (a b : Z) (l l' : list Cell) : Prop :=
  length l' = length l ∧
  ∀ i, l' !! i = if decide (a <= Z.of_nat i < b) then (if decide (i < length l)%nat then Some BLANK else None) else l !! i.

Lemma fill_blank_spec t a b :
  0 <= a <= b → b <= len t →
  ∃ l, fill_blank a b t = Some (set_cells l t) ∧ blanked a b (cells t) l ∧ (Forall cell_ok (cells t) → Forall cell_ok l).
Proof.
  intros Hab Hb. unfold fill_blank. rewrite (proj2 (Z.leb_le 0 a)), (proj2 (Z.leb_le a b)), (proj2 (Z.leb_le b _)) by lia.
  cbn [andb]. unfold len in Hb. eexists. split; [done|]. split; [split|].
  - rewrite !length_app, length_take, length_replicate, length_drop. lia.
  - intros i. destruct (decide (a <= Z.of_nat i < b)) as [Hi|Hi].
    + rewrite decide_True by lia. rewrite lookup_app_r by (rewrite length_take; lia).
      rewrite lookup_app_l by (rewrite length_take, length_replicate; lia).
      apply lookup_replicate_2. rewrite length_take. lia.
    + destruct (decide (Z.of_nat i < a)).
      * rewrite lookup_app_l by (rewrite length_take; lia). apply lookup_take_lt. lia.
      * rewrite !lookup_app_r; rewrite ?length_take, ?length_replicate; try lia.
        rewrite lookup_drop. f_equal. lia.
  - intros Hf. apply Forall_app. split; [by apply Forall_take|]. apply Forall_app.
    split; [apply Forall_replicate; auto with k1|by apply Forall_drop].
Qed.

Lemma fill_blank_ok t a b :
  term_ok t → 0 <= a <= b → b <= len t → ∃ t', fill_blank a b t = Some t' ∧ term_ok t'.
Proof.
  intros Ht Ha Hb. destruct (fill_blank_spec t a b Ha Hb) as (l & -> & [Hl _] & Hf).
  eexists. split; [done|]. apply ok_set_cells; [done|done|apply Hf, Ht].
Qed.

(** The cell in row [r] and column [c]. *)
Definition cell_at (t : Terminal) (r c : Z) : option Cell := cells t !! Z.to_nat (r * cols t + c).

(** The grid moves up by one row and its last row is blank. *)
Definition scrolled (t t' : Terminal) : Prop :=
  ∀ r c, 0 <= r < rows t → 0 <= c < cols t →
    cell_at t' r c = if decide (r + 1 < rows t) then cell_at t (r + 1) c else Some BLANK.

Lemma usize_sub_le a b : b <= a → usize_sub a b = a - b.
Proof. intros H. unfold usize_sub. by rewrite (proj2 (Z.leb_le _ _)) by done. Qed.

Lemma row_index t r c :
  0 <= r < rows t → 0 <= c < cols t → 0 <= r * cols t + c < cols t * rows t.
Proof. nia. Qed.

(** The two steps of scrolling: the rows move up, and the last row is filled. *)
Lemma scroll_spec t :
  term_ok t → let moved := drop (Z.to_nat (cols t)) (cells t) in
  let t1 := set_cells (moved ++ drop (length moved) (cells t)) t in
  ∃ l, fill_blank (usize_sub (len t1) (cols t)) (len t1) t1 = Some (set_cells l t) ∧
    length l = length (cells t) ∧ Forall cell_ok l ∧ scrolled t (set_cells l t).
Proof.
  intros Ht moved t1. pose proof (ok_len t Ht) as Hlen. pose proof (ok_cols t Ht) as Hc. pose proof (ok_rows t Ht) as Hr.
  assert (cols t <= len t) as Hcl by nia.
  assert (length moved = (length (cells t) - Z.to_nat (cols t))%nat) as Hm by apply length_drop.
  assert (len t1 = len t) as Hl1.
  { unfold len in *. unfold t1. cbn. rewrite length_app, length_drop, Hm. lia. }
  rewrite Hl1, usize_sub_le by done.
  destruct (fill_blank_spec t1 (len t - cols t) (len t)) as (l & -> & [Hll Hlk] & Hf); [lia|lia|].
  assert (length (cells t1) = length (cells t)) as Hlt by (unfold len in Hl1; lia).
  exists l. split; [done|]. split; [congruence|]. split.
  { apply Hf. unfold t1. cbn. apply Forall_app. split; apply Forall_drop, Ht. }
  intros r c Hrr Hcc. unfold cell_at. cbn. rewrite Hlk, Hlt. unfold len in *.
  pose proof (row_index t r c Hrr Hcc). destruct (decide (r + 1 < rows t)) as [Hin|Hin].
  - rewrite decide_False by nia. unfold t1. cbn. rewrite lookup_app_l by (rewrite Hm; nia).
    unfold moved. rewrite lookup_drop. f_equal. nia.
  - rewrite decide_True by nia. by rewrite decide_True by lia.
Qed.

Lemma newline_spec t :
  term_ok t →
  ∃ t', newline t = Some t' ∧ term_ok t' ∧ cursor_col t' = 0 ∧ cols t' = cols t ∧ rows t' = rows t ∧
    (cursor_row t + 1 < rows t → t' = set_cursor (cursor_row t + 1) 0 t) ∧
    (cursor_row t + 1 = rows t → t' = set_cells (cells t') (set_col 0 t) ∧ scrolled t t').
Proof.
  intros Ht. unfold newline. cbn [rows cursor_row set_col set_cursor].
  pose proof (ok_cols t Ht). destruct (Z.leb_spec (rows t) (cursor_row t + 1)) as [Hge|Hlt].
  - pose proof (ok_len t Ht). pose proof (ok_rows t Ht). assert (term_ok (set_col 0 t)) as Ht0 by (apply ok_set_col; [done|lia]).
    destruct (scroll_spec (set_col 0 t) Ht0) as (l & Hfill & Hl & Hf & Hs).
    assert (cols t <= len t) as Hcl by nia.
    change (len (set_cursor _ _ _)) with (len t). change (cols (set_cursor _ _ _)) with (cols t).
    rewrite (proj2 (Z.leb_le _ _)) by done.
    exists (set_cells l (set_col 0 t)). split; [exact Hfill|].
    split; [by apply ok_set_cells|]. do 3 (split; [done|]). split; [lia|]. intros _. by split.
  - eexists. split; [done|]. split; [apply ok_set_cursor; [apply ok_set_cursor|..]; [done|apply Ht|lia|cbn; pose proof (ok_row t Ht); lia|cbn; lia]|].
    do 3 (split; [done|]). split; [done|lia].
Qed.

(** ** Writing cells *)

(** The cell [put] writes for a character. *)
Definition styled (c : Z) (t : Terminal) : Cell :=
  mk_cell c ((λ x, if bold t then Z.lor x 8 else x) <$> cur_fg t) (cur_bg t).

Lemma lor_8 x : 0 <= x < 16 → 0 <= Z.lor x 8 < 16.
Proof.
  intros Hx.
  assert (x = 0 ∨ x = 1 ∨ x = 2 ∨ x = 3 ∨ x = 4 ∨ x = 5 ∨ x = 6 ∨ x = 7 ∨ x = 8 ∨ x = 9 ∨ x = 10 ∨ x = 11 ∨
    x = 12 ∨ x = 13 ∨ x = 14 ∨ x = 15) as Hc by lia.
  by repeat destruct Hc as [->|Hc]; [..|subst x].
Qed.

Lemma styled_ok c t : term_ok t → 0 <= c < 256 → cell_ok (styled c t).
Proof.
  intros Ht Hc. split; [done|]. split; [|apply Ht]. intros x Hx. cbn in Hx.
  destruct (cur_fg t) as [y|] eqn:Ey; [|done]. injection Hx as <-. pose proof (ok_fg t Ht y Ey).
  destruct (bold t); [by apply lor_8|done].
Qed.

Definition write_cell (c : Z) (t : Terminal) : Terminal :=
  set_col (cursor_col t + 1)
    (set_cells (<[Z.to_nat (cursor_row t * cols t + cursor_col t) := styled c t]> (cells t)) t).

Lemma put_in_row c t :
  term_ok t → cursor_col t < cols t → 0 <= c < 256 → put c t = Some (write_cell c t) ∧ term_ok (write_cell c t).
Proof.
  intros Ht Hcol Hc. pose proof (row_index t _ _ (ok_row t Ht) (conj (proj1 (ok_col t Ht)) Hcol)) as Hi.
  rewrite <- (ok_len t Ht) in Hi. split.
  - unfold put. rewrite (proj2 (Z.leb_gt _ _)) by done. cbn [mbind option_bind].
    rewrite (proj2 (Z.leb_le _ _)), (proj2 (Z.ltb_lt _ _)) by lia. done.
  - apply ok_set_col; [|cbn; pose proof (ok_col t Ht); lia]. apply ok_set_cells; [done|by rewrite length_insert|].
    apply Forall_insert; [apply Ht|by apply styled_ok].
Qed.

Lemma put_ok c t : term_ok t → 0 <= c < 256 → ∃ t', put c t = Some t' ∧ term_ok t'.
Proof.
  intros Ht Hc. destruct (Z.lt_ge_cases (cursor_col t) (cols t)) as [Hlt|Hge].
  - destruct (put_in_row c t Ht Hlt Hc) as [-> ?]. eauto.
  - destruct (newline_spec t Ht) as (t1 & En & Ht1 & Hc1 & Hcs & _). pose proof (ok_cols t Ht).
    destruct (put_in_row c t1 Ht1 ltac:(lia) Hc) as [Ep Ht2]. exists (write_cell c t1). split; [|done].
    rewrite <- Ep. unfold put at 1. rewrite (proj2 (Z.leb_le _ _)) by done. rewrite En. cbn [mbind option_bind].
    unfold put. rewrite (proj2 (Z.leb_gt (cols t1) (cursor_col t1))) by lia. done.
Qed.

Lemma tab_loop_ok fuel next t :
  term_ok t → next - cursor_col t <= Z.of_nat fuel → ∃ t', tab_loop fuel next t = Some t' ∧ term_ok t'.
Proof.
  revert t. induction fuel as [|fuel IH]; intros t Ht Hf; cbn [tab_loop].
  - rewrite (proj2 (Z.ltb_ge _ _)) by lia. cbn. eauto.
  - destruct ((cursor_col t <? next) && (cursor_col t <? cols t)) eqn:E; [|eauto]. zbool.
    destruct (put_in_row 32 t Ht ltac:(lia) ltac:(lia)) as [-> Ht']. cbn [mbind option_bind].
    apply IH; [done|]. cbn. lia.
Qed.

(** ** Colours *)

Lemma extended_color_ok c f t : term_ok t → 0 <= c < 16 → term_ok (extended_color c f t).
Proof. intros Ht Hc. unfold extended_color. destruct f; auto with k1. Qed.

Lemma params_extended_color c f t : csi_params (extended_color c f t) = csi_params t.
Proof. by destruct f. Qed.

Lemma sgr_param_ok p i t :
  term_ok t → u32_ok p →
  ∃ t' j, sgr_param p i t = Some (t', j) ∧ term_ok t' ∧ csi_params t' = csi_params t ∧ (i <= j)%nat.
Proof.
  intros Ht Hp. unfold sgr_param.
  repeat (case_step; [zbool; (eexists _, i; split; [reflexivity|]; split;
    [first [solve [auto with k1] | apply ok_set_fg; [done|apply color_some; lia] | apply ok_set_bg; [done|apply color_some; lia]]
    |split; [reflexivity|apply Nat.le_refl]])|]).
  case_step; [|by exists t, i].
  assert (∀ v, ∃ c, ansi256_to_rgb (v mod 256) = Some c) as Hansi.
  { intros v. apply ansi256_ok. apply Z.mod_pos_bound. lia. }
  pose proof nearest_16_range as Hn.
  destruct (csi_params t !! (i + 1)%nat) as [q|]; [|by exists t, i].
  destruct (decide (q = 5)) as [->|H5].
  { destruct (csi_params t !! (i + 2)%nat) as [idx|]; [|exists t, (i + 2)%nat; split; [done|split; [done|split; [done|lia]]]].
    destruct (Hansi idx) as [c ->]. eexists _, _. split; [done|].
    rewrite params_extended_color. split; [by apply extended_color_ok|split; [done|lia]]. }
  destruct (decide (q = 2)) as [->|H2].
  { eexists _, _. split; [done|]. rewrite params_extended_color. split; [by apply extended_color_ok|split; [done|lia]]. }
  exists t, i. split; [|done].
  destruct q as [|[[q|[q|q|]|]|[q|q|]|]|q]; try reflexivity; congruence.
Qed.

Lemma sgr_loop_ok fuel i t :
  term_ok t → (length (csi_params t) <= fuel + i)%nat → ∃ t', sgr_loop fuel i t = Some t' ∧ term_ok t'.
Proof.
  revert i t. induction fuel as [|fuel IH]; intros i t Ht Hf; cbn [sgr_loop].
  - rewrite lookup_ge_None_2 by lia. eauto.
  - destruct (csi_params t !! i) as [p|] eqn:Ep; [|eauto].
    assert (u32_ok p) as Hp by (eapply Forall_lookup_1; [apply (ok_params t Ht)|done]).
    destruct (sgr_param_ok p i t Ht Hp) as (t' & j & -> & Ht' & Eps & Hj). cbn [mbind option_bind].
    apply IH; [done|]. rewrite Eps. lia.
Qed.

Lemma apply_sgr_ok t : term_ok t → ∃ t', apply_sgr t = Some t' ∧ term_ok t'.
Proof.
  intros Ht. unfold apply_sgr. destruct (csi_params t) as [|p ps] eqn:E; [eauto with k1|].
  rewrite <- E. apply sgr_loop_ok; [done|lia].
Qed.

(** ** Control sequences *)

Lemma csi_param_bound t i d : term_ok t → u32_ok d → u32_ok (csi_param t i d).
Proof.
  intros Ht Hd. unfold csi_param. destruct (csi_params t !! i) as [v|] eqn:E; [|done]. case_step; [done|].
  eapply Forall_lookup_1; [apply (ok_params t Ht)|done].
Qed.

Lemma apply_csi_ok b t : term_ok t → ∃ t', apply_csi b t = Some t' ∧ term_ok t'.
Proof.
  intros Ht. pose proof (ok_cols t Ht) as Hc. pose proof (ok_rows t Ht) as Hr. pose proof (ok_row t Ht) as Hcr.
  pose proof (ok_col t Ht) as Hcc. pose proof (ok_len t Ht) as Hlen.
  assert (cursor_row t * cols t + cols t <= len t) as Hend by nia.
  assert (0 <= cursor_row t * cols t) as Hstart by nia.
  assert (1 <= len t) as Hl1 by nia.
  assert (∀ i, 0 <= csi_param t i 1) as Hp.
  { intros i. pose proof (csi_param_bound t i 1 Ht ltac:(unfold u32_ok; lia)). unfold u32_ok in *. lia. }
  unfold apply_csi, saturating_sub. rewrite !usize_sub_le by lia.
  case_step; [repeat case_step; [apply fill_blank_ok; [done|lia|lia]..|eauto]|].
  case_step.
  { case_step; [apply fill_blank_ok; [done|lia|lia]|]. case_step; [apply fill_blank_ok; [done|lia|lia]|].
    case_step; [|eauto]. destruct (fill_blank_spec t 0 (len t)) as (l & -> & [Hl _] & Hf); [lia|lia|].
    cbn [mbind option_bind]. eexists. split; [done|].
    apply ok_set_cursor; [apply ok_set_cells; [done|done|apply Hf, Ht]|cbn; lia|cbn; lia]. }
  case_step; [eexists; split; [done|]; apply ok_set_col; [done|specialize (Hp 0%nat); lia]|].
  case_step; [eexists; split; [done|]; apply ok_set_col; [done|specialize (Hp 0%nat); lia]|].
  case_step; [eexists; split; [done|]; apply ok_set_col; [done|lia]|].
  case_step; [eexists; split; [done|]; apply ok_set_cursor; [done|lia|lia]|].
  case_step; [by apply apply_sgr_ok|eauto].
Qed.

(** ** Bytes *)

Definition byte_ok (b : Z) : Prop := 0 <= b < 256.

Lemma process_plain_ok b t : term_ok t → byte_ok b → ∃ t', process_plain b t = Some t' ∧ term_ok t'.
Proof.
  intros Ht Hb. pose proof (ok_col t Ht). pose proof (ok_cols t Ht). unfold process_plain.
  case_step; [destruct (newline_spec t Ht) as (t' & ? & ? & _); eauto|].
  case_step; [eexists; split; [done|]; apply ok_set_col; [done|lia]|].
  case_step; [apply tab_loop_ok; [done|]; mlia|].
  case_step; [eexists; split; [done|]; case_step; [apply ok_set_col; [done|zbool; lia]|done]|].
  case_step; [eauto with k1|]. case_step; [by apply put_ok|eauto].
Qed.

Lemma process_csi_ok b t : term_ok t → byte_ok b → ∃ t', process_csi b t = Some t' ∧ term_ok t'.
Proof.
  intros Ht Hb. unfold process_csi.
  case_step; [eexists; split; [done|]; apply ok_set_csi; [done|apply Ht|apply u32_bound]|].
  case_step.
  { eexists. split; [done|]. apply ok_set_csi; [done| |apply zero_u32]. apply Forall_app. split; [apply Ht|].
    constructor; [apply Ht|constructor]. }
  case_step; [|eauto].
  assert (term_ok (match csi_cur t with Some v => set_csi (csi_params t ++ [v]) None t | None => t end)) as Ht'.
  { pose proof (ok_cur t Ht) as Hcur. destruct (csi_cur t) as [v|]; [|done].
    apply ok_set_csi; [done| |apply zero_u32]. apply Forall_app. split; [apply Ht|]. constructor; [done|constructor]. }
  destruct (apply_csi_ok b _ Ht') as (t' & -> & ?). cbn [mbind option_bind]. eauto with k1.
Qed.

Lemma process_byte_ok b t : term_ok t → byte_ok b → ∃ t', process_byte b t = Some t' ∧ term_ok t'.
Proof.
  intros Ht%(ok_set_dirty t true) Hb. unfold process_byte. change (esc t) with (esc (set_dirty true t)).
  revert Ht. generalize (set_dirty true t). clear t. intros t Ht.
  destruct (esc t); eauto with k1.
  - by apply process_plain_ok.
  - eexists. split; [done|]. unfold process_esc. repeat case_step; auto with k1. apply ok_set_esc, ok_set_csi; [done|done|apply zero_u32].
  - by apply process_csi_ok.
  - eexists. split; [done|]. repeat case_step; auto with k1.
  - eexists. split; [done|]. repeat case_step; auto with k1.
Qed.
