(* ===== verification/K1TermSpec.v ===== *)
(** * What the terminal shows

    The contract of [Terminal] of k1de/src/main.rs: no input makes it panic,
    printable text appears at the cursor, wrapped and scrolled as it needs,
    control sequences are parsed back to
    the numbers they were printed from, erasing blanks exactly the cells it
    names, and the strings it does not act on leave the screen alone. *)

From S2P Require Import Prelude Decimal K1Color K1Term.
Open Scope Z_scope.

(** ** Any input *)

Inductive term_op : Type := OpBytes (bs : list Z) | OpResize (c r : Z).

Fixpoint run_ops (ops : list term_op) (t : Terminal) : option Terminal :=
  match ops with
  | [] => Some t
  | OpBytes bs :: ops => t ← process_bytes bs t; run_ops ops t
  | OpResize c r :: ops => t ← resize c r t; run_ops ops t
  end.

(** Bytes are bytes, and a grid asked for can be allocated. *)
Definition op_ok (o : term_op) : Prop :=
  match o with OpBytes bs => Forall byte_ok bs | OpResize c r => small_grid c r end.

Lemma process_bytes_ok bs t : term_ok t → Forall byte_ok bs → ∃ t', process_bytes bs t = Some t' ∧ term_ok t'.
Proof.
  intros Ht Hb. revert t Ht. induction Hb as [|b bs Hb Hbs IH]; intros t Ht; [by exists t|]. cbn [process_bytes].
  destruct (process_byte_ok b t Ht Hb) as (t1 & -> & Ht1). cbn [mbind option_bind]. by apply IH.
Qed.

Lemma run_ops_ok ops t : term_ok t → Forall op_ok ops → ∃ t', run_ops ops t = Some t' ∧ term_ok t'.
Proof.
  intros Ht Ho. revert t Ht. induction Ho as [|[bs|c r] ops Ho Hops IH]; intros t Ht; [by exists t|..]; cbn [run_ops].
  - destruct (process_bytes_ok bs t Ht Ho) as (t1 & -> & Ht1). cbn [mbind option_bind]. by apply IH.
  - rewrite resize_small by done. cbn [mbind option_bind]. by apply IH, ok_resize.
Qed.

Lemma process_bytes_app bs cs t :
  process_bytes (bs ++ cs) t = t' ← process_bytes bs t; process_bytes cs t'.
Proof.
  revert t. induction bs as [|b bs IH]; intros t; [done|]. cbn [app process_bytes].
  destruct (process_byte b t); cbn [mbind option_bind]; [apply IH|done].
Qed.

(** ** The size of the grid *)

(** Nothing the program receives changes the size; only [resize] does. *)
Definition grid (t : Terminal) : Z * Z := (cols t, rows t).
Definition keeps (g : Z * Z) (o : option Terminal) : Prop := ∀ t, o = Some t → grid t = g.

Lemma keeps_none g : keeps g None.
Proof. by intros t. Qed.

Lemma keeps_some g t : grid t = g → keeps g (Some t).
Proof. by intros Hg t' [= <-]. Qed.

Lemma keeps_bind g o f : keeps g o → (∀ t, grid t = g → keeps g (f t)) → keeps g (o ≫= f).
Proof. intros Ho Hf t. destruct o as [t1|]; [|done]. cbn. apply Hf. by apply Ho. Qed.

Lemma keeps_fill_blank a b t : keeps (grid t) (fill_blank a b t).
Proof. unfold fill_blank. case_step; [by apply keeps_some|apply keeps_none]. Qed.

Lemma keeps_newline t : keeps (grid t) (newline t).
Proof.
  unfold newline. cbv zeta. repeat case_step; [|apply keeps_none|by apply keeps_some].
  match goal with |- keeps _ (fill_blank ?a ?b ?u) => exact (keeps_fill_blank a b u) end.
Qed.

Lemma keeps_put c t : keeps (grid t) (put c t).
Proof.
  unfold put. apply keeps_bind; [case_step; [apply keeps_newline|by apply keeps_some]|].
  intros u <-. case_step; [by apply keeps_some|apply keeps_none].
Qed.

Lemma keeps_tab_loop fuel next t : keeps (grid t) (tab_loop fuel next t).
Proof.
  revert t. induction fuel as [|fuel IH]; intros t; cbn [tab_loop]; (case_step; [|by apply keeps_some]).
  - apply keeps_none.
  - apply keeps_bind; [apply keeps_put|]. intros u <-. apply IH.
Qed.

Lemma sgr_param_grid p i t t' j : sgr_param p i t = Some (t', j) → grid t' = grid t.
Proof.
  unfold sgr_param, extended_color. cbv zeta. intros H.
  repeat (case_step_in H; cbn [mbind option_bind] in H; try done); simplify_eq/=; try done.
  all: destruct (ansi256_to_rgb _); cbn [mbind option_bind] in H; simplify_eq/=; done.
Qed.

Lemma keeps_sgr_loop fuel i t : keeps (grid t) (sgr_loop fuel i t).
Proof.
  revert i t. induction fuel as [|fuel IH]; intros i t; cbn [sgr_loop]; (case_step; [|by apply keeps_some]).
  - apply keeps_none.
  - destruct (sgr_param _ i t) as [[u j]|] eqn:E; [|apply keeps_none]. cbn [mbind option_bind].
    rewrite <- (sgr_param_grid _ _ _ _ _ E). apply IH.
Qed.

Lemma keeps_apply_csi b t : keeps (grid t) (apply_csi b t).
Proof.
  unfold apply_csi, apply_sgr. cbv zeta.
  repeat case_step;
    first [apply keeps_fill_blank|apply keeps_sgr_loop|by apply keeps_some|idtac].
  apply keeps_bind; [apply keeps_fill_blank|]. intros u <-. by apply keeps_some.
Qed.

Lemma keeps_process_byte b t : keeps (grid t) (process_byte b t).
Proof.
  unfold process_byte. change (esc t) with (esc (set_dirty true t)). change (grid t) with (grid (set_dirty true t)).
  generalize (set_dirty true t). clear t. intros t. destruct (esc t); try (apply keeps_some; repeat case_step; done).
  - unfold process_plain. repeat case_step; first [apply keeps_newline|apply keeps_tab_loop|apply keeps_put|by apply keeps_some].
  - apply keeps_some. unfold process_esc. repeat case_step; done.
  - unfold process_csi. cbv zeta. repeat (case_step; [by apply keeps_some|]). case_step; [|by apply keeps_some].
    apply keeps_bind; [|intros u <-; by apply keeps_some]. destruct (csi_cur t) as [v|]; [|apply keeps_apply_csi].
    match goal with |- keeps _ (apply_csi b ?u) => exact (keeps_apply_csi b u) end.
Qed.

Lemma keeps_process_bytes bs t : keeps (grid t) (process_bytes bs t).
Proof.
  revert t. induction bs as [|b bs IH]; intros t; cbn [process_bytes]; [by apply keeps_some|].
  apply keeps_bind; [apply keeps_process_byte|]. intros u <-. apply IH.
Qed.

Lemma dirty_id t : dirty t = true → set_dirty true t = t.
Proof. destruct t. cbn. by intros ->. Qed.

(** ** Text *)

Definition printable (b : Z) : Prop := 32 <= b <= 126.

Lemma index_inj n q q' c c' : 0 <= c < n → 0 <= c' < n → q * n + c = q' * n + c' → q' = q ∧ c' = c.
Proof.
  intros Hc Hc' E. destruct (Z.div_mod_unique n q q' c c') as [-> ->]; [by left|by left|lia|done].
Qed.

Lemma write_cell_at b t r c :
  term_ok t → cursor_col t < cols t → 0 <= r < rows t → 0 <= c < cols t →
  cell_at (write_cell b t) r c =
    if decide (r = cursor_row t ∧ c = cursor_col t) then Some (styled b t) else cell_at t r c.
Proof.
  intros Ht Hcol Hr Hc. unfold cell_at. cbn. pose proof (ok_len t Ht) as Hl. unfold len in Hl.
  pose proof (ok_row t Ht). pose proof (ok_col t Ht). pose proof (row_index t r c Hr Hc).
  destruct (decide (r = cursor_row t ∧ c = cursor_col t)) as [[-> ->]|Hne].
  - apply list_lookup_insert_eq. lia.
  - apply list_lookup_insert_ne. intros E. apply Hne. apply Z2Nat.inj in E; [|nia|nia].
    destruct (index_inj (cols t) (cursor_row t) r (cursor_col t) c); [lia|done|done|done].
Qed.

(** The cursor as an index into the cells; right behind a row it is the start
    of the next one. *)
Definition position (t : Terminal) : Z := cursor_row t * cols t + cursor_col t.

(** The cells of [t] followed by endless blank rows, with [text] written over
    them from the cursor on, in the current colours. *)
Definition tape (text : list Z) (t : Terminal) (i : Z) : option Cell :=
  if decide (position t <= i < position t + Z.of_nat (length text))
  then (λ b, styled b t) <$> text !! Z.to_nat (i - position t)
  else if decide (i < cols t * rows t) then cells t !! Z.to_nat i else Some BLANK.

(** [t'] shows the tape from row [k] on, with the cursor behind the text; it
    has scrolled only as far as the cursor needs. *)
Record shows (text : list Z) (t t' : Terminal) (k : Z) : Prop := mk_shows {
  sh_frame : ∃ l r c, t' = set_cells l (set_cursor r c t);
  sh_scrolled : 0 <= k;
  sh_last : k = 0 ∨ cursor_row t' + 1 = rows t;
  sh_cursor : (cursor_row t' + k) * cols t + cursor_col t' = position t + Z.of_nat (length text);
  sh_cells : ∀ r c, 0 <= r < rows t → 0 <= c < cols t → cell_at t' r c = tape text t ((r + k) * cols t + c)
}.

Lemma shows_nothing t : term_ok t → shows [] t t 0.
Proof.
  intros Ht. split; [exists (cells t), (cursor_row t), (cursor_col t); by destruct t|lia|by left|unfold position; cbn; lia|].
  intros r c Hr Hc. pose proof (row_index t r c Hr Hc). unfold tape. rewrite decide_False by (cbn; lia).
  rewrite Z.add_0_r. by rewrite decide_True by lia.
Qed.

Lemma shows_grid text t t' k : shows text t t' k → cols t' = cols t ∧ rows t' = rows t.
Proof. intros [(l & r & c & ->) _ _ _ _]. done. Qed.

(** Behind the last column a new row is started before a character is put. *)
Lemma shows_wrap text t t1 k :
  term_ok t1 → shows text t t1 k →
  ∃ t2 k2, (if cols t1 <=? cursor_col t1 then newline t1 else Some t1) = Some t2 ∧ term_ok t2 ∧
    shows text t t2 k2 ∧ cursor_col t2 < cols t2.
Proof.
  intros Ht1 Hs. destruct (shows_grid _ _ _ _ Hs) as [Ec Er]. pose proof (ok_col t1 Ht1). pose proof (ok_row t1 Ht1).
  pose proof (ok_cols t1 Ht1). destruct (Z.leb_spec (cols t1) (cursor_col t1)) as [Hge|Hlt]; [|by exists t1, k].
  destruct (newline_spec t1 Ht1) as (t2 & -> & Ht2 & C2 & Ec2 & Er2 & Hdown & Hscroll).
  destruct Hs as [(l & r0 & c0 & E1) Hk Hl Hcur Hcells].
  destruct (decide (cursor_row t1 + 1 < rows t1)) as [Hin|Hin].
  - specialize (Hdown Hin). exists t2, k. split; [done|]. split; [done|]. split; [|lia]. subst t2. split.
    + rewrite E1. by exists l, (r0 + 1), 0.
    + done.
    + left. lia.
    + cbn. nia.
    + exact Hcells.
  - destruct (Hscroll ltac:(lia)) as [E2 Hsc]. exists t2, (k + 1). split; [done|]. split; [done|]. split; [|lia].
    assert (cursor_row t2 = cursor_row t1) as R2 by (by rewrite E2). split.
    + rewrite E2, E1. by exists (cells t2), r0, 0.
    + lia.
    + right. lia.
    + rewrite R2, C2. nia.
    + intros r c Hr Hc. rewrite Hsc by lia. destruct (decide (r + 1 < rows t1)).
      * rewrite Hcells by lia. f_equal. lia.
      * unfold tape. rewrite !decide_False by nia. done.
Qed.

(** A character put on the grid is the next one of the text. *)
Lemma shows_put text b t t1 k :
  term_ok t1 → cursor_col t1 < cols t1 → shows text t t1 k → shows (text ++ [b]) t (write_cell b t1) k.
Proof.
  intros Ht1 Hcol Hs. destruct (shows_grid _ _ _ _ Hs) as [Ec Er]. pose proof (ok_col t1 Ht1). pose proof (ok_row t1 Ht1).
  destruct Hs as [(l & r0 & c0 & E1) Hk Hl Hcur Hcells].
  assert (∀ x, styled x t1 = styled x t) as Hst by (by rewrite E1).
  split.
  - rewrite E1. by eexists _, r0, _.
  - done.
  - by destruct Hl; [left|right].
  - rewrite length_app. cbn. lia.
  - intros r c Hr Hc. rewrite write_cell_at by (done || lia). unfold tape. rewrite length_app. cbn [length].
    destruct (decide (r = cursor_row t1 ∧ c = cursor_col t1)) as [[-> ->]|Hne].
    + rewrite Hcur, decide_True, lookup_app_r by lia. rewrite Z.add_simpl_l, Nat2Z.id, Nat.sub_diag. cbn. by rewrite Hst.
    + rewrite Hcells by done. unfold tape.
      assert ((r + k) * cols t + c ≠ position t + Z.of_nat (length text)) as Hi.
      { rewrite <- Hcur. intros E. apply Hne.
        destruct (index_inj (cols t) (cursor_row t1 + k) (r + k) (cursor_col t1) c); lia. }
      destruct (decide (position t <= (r + k) * cols t + c < position t + Z.of_nat (length text))).
      * rewrite (decide_True (P := _ <= _ < _ + Z.of_nat (_ + _))) by lia. by rewrite lookup_app_l by lia.
      * by rewrite (decide_False (P := _ <= _ < _ + Z.of_nat (_ + _))) by lia.
Qed.

Lemma process_printable b t :
  esc t = EscNone → dirty t = true → printable b → process_byte b t = put b t.
Proof.
  intros He Hd Hb. unfold process_byte. rewrite dirty_id by done. rewrite He. unfold process_plain, printable in *.
  rewrite !(proj2 (Z.eqb_neq b _)) by lia. cbn [orb]. by rewrite !(proj2 (Z.leb_le _ _)) by lia.
Qed.

(** A character that may have to start a new row. *)
Lemma shows_char text b t t1 k :
  esc t = EscNone → dirty t = true → term_ok t1 → printable b → shows text t t1 k →
  ∃ t2 k2, process_byte b t1 = Some t2 ∧ term_ok t2 ∧ shows (text ++ [b]) t t2 k2 ∧ 1 <= cursor_col t2.
Proof.
  intros He Hd Ht1 Hb Hs. assert (byte_ok b) as Hbyte by (unfold byte_ok, printable in *; lia).
  pose proof Hs as [(l & r0 & c0 & E1) _ _ _ _]. rewrite process_printable by (done || by rewrite E1).
  destruct (shows_wrap _ _ _ _ Ht1 Hs) as (t2 & k2 & E2 & Ht2 & Hs2 & Hc2).
  destruct (put_in_row b t2 Ht2 Hc2 Hbyte) as [Ep Ht3]. exists (write_cell b t2), k2. split.
  - rewrite <- Ep. unfold put. rewrite E2. cbn [mbind option_bind]. by rewrite (proj2 (Z.leb_gt (cols t2) (cursor_col t2))) by lia.
  - split; [done|]. split; [by apply shows_put|]. cbn. pose proof (ok_col t2 Ht2). lia.
Qed.

Lemma text_shown text t :
  term_ok t → esc t = EscNone → dirty t = true → Forall printable text →
  ∃ t' k, process_bytes text t = Some t' ∧ term_ok t' ∧ shows text t t' k ∧ (text ≠ [] → 1 <= cursor_col t').
Proof.
  intros Ht He Hd. induction text as [|b text IH] using rev_ind; intros Hp.
  - exists t, 0. split; [done|]. split; [done|]. by split; [apply shows_nothing|].
  - apply Forall_app in Hp as [Hp Hb]. apply Forall_cons in Hb as [Hb _]. destruct (IH Hp) as (t1 & k & E & Ht1 & Hs & _).
    destruct (shows_char text b t t1 k He Hd Ht1 Hb Hs) as (t2 & k2 & E2 & Ht2 & Hs2 & H1). exists t2, k2.
    rewrite process_bytes_app, E. cbn [mbind option_bind process_bytes]. rewrite E2. done.
Qed.

(** How far the screen has scrolled and where the cursor is follow from the
    index of the last character. *)
Lemma shows_scrolled text t t' k :
  term_ok t → term_ok t' → text ≠ [] → 1 <= cursor_col t' → shows text t t' k →
  let last := position t + Z.of_nat (length text) - 1 in
  k = Z.max 0 (last / cols t - (rows t - 1)) ∧
  cursor_row t' = last / cols t - k ∧ cursor_col t' = last mod cols t + 1.
Proof.
  intros Ht Ht' Hne H1 Hs last. destruct (shows_grid _ _ _ _ Hs) as [Ec Er]. pose proof (ok_col t' Ht'). pose proof (ok_row t' Ht').
  pose proof (sh_cursor _ _ _ _ Hs) as Hcur. pose proof (sh_last _ _ _ _ Hs). pose proof (sh_scrolled _ _ _ _ Hs).
  assert (last / cols t = cursor_row t' + k) as Hq by (symmetry; apply (Z.div_unique _ _ _ (cursor_col t' - 1)); lia).
  assert (last mod cols t = cursor_col t' - 1) as Hm by (symmetry; apply (Z.mod_unique _ _ (cursor_row t' + k)); lia).
  rewrite Hq, Hm. lia.
Qed.

(** ** Control sequences *)

(** A control sequence with the parameters in decimal. *)
Definition csi_text (ps : list Z) (b : Z) : list Z :=
  27 :: 91 :: (match ps with [] => [] | p :: ps => fmt_u p ++ concat (map (λ q, 59 :: fmt_u q) ps) end) ++ [b].

Definition in_csi (t : Terminal) : Prop := esc t = Csi ∧ dirty t = true.

Lemma process_in_csi b t : in_csi t → process_byte b t = process_csi b t.
Proof. intros [He Hd]. unfold process_byte. by rewrite dirty_id, He. Qed.

Lemma csi_digit d t :
  in_csi t → is_digit d = true → default 0 (csi_cur t) * 10 + (d - 48) < 2 ^ 32 → 0 <= default 0 (csi_cur t) →
  process_byte d t = Some (set_csi (csi_params t) (Some (default 0 (csi_cur t) * 10 + (d - 48))) t).
Proof.
  intros Hin Hd Hv H0. rewrite process_in_csi by done. unfold process_csi, is_digit in *. rewrite Hd. zbool.
  rewrite (u32_small (default 0 (csi_cur t) * 10)) by lia. by rewrite u32_small by lia.
Qed.

Lemma csi_digits ds t :
  in_csi t → Forall (λ c, is_digit c = true) ds → ds ≠ [] → 0 <= default 0 (csi_cur t) →
  foldl (λ v c, v * 10 + (c - 48)) (default 0 (csi_cur t)) ds < 2 ^ 32 →
  process_bytes ds t =
    Some (set_csi (csi_params t) (Some (foldl (λ v c, v * 10 + (c - 48)) (default 0 (csi_cur t)) ds)) t).
Proof.
  intros Hin Hds. revert t Hin. induction Hds as [|d ds Hd Hds IH]; intros t Hin Hne H0 Hv; [done|].
  cbn [foldl] in Hv |- *. cbn [process_bytes].
  assert (∀ v l, 0 <= v → Forall (λ c, is_digit c = true) l → v <= foldl (λ v c, v * 10 + (c - 48)) v l) as Hmono.
  { intros v l Hv0 Hl. revert v Hv0. induction Hl as [|x l Hx Hl IHl]; intros v Hv0; cbn [foldl]; [lia|].
    unfold is_digit in Hx. zbool. specialize (IHl (v * 10 + (x - 48)) ltac:(lia)). lia. }
  pose proof Hd as Hd'. unfold is_digit in Hd'. zbool.
  pose proof (Hmono (default 0 (csi_cur t) * 10 + (d - 48)) ds ltac:(lia) Hds).
  rewrite csi_digit by (done || lia). cbn [mbind option_bind].
  destruct ds as [|d' ds']; [done|]. rewrite IH; [done|done|done|cbn; lia|exact Hv].
Qed.

Lemma csi_number p t :
  in_csi t → csi_cur t = None → u32_ok p → process_bytes (fmt_u p) t = Some (set_csi (csi_params t) (Some p) t).
Proof.
  intros Hin Hc Hp. unfold u32_ok in Hp. destruct (fmt_u_spec p) as (Hd & Hne & Hv & _); [lia|].
  unfold digits_value in Hv. rewrite csi_digits; rewrite ?Hc; cbn [default from_option]; rewrite ?Hv; try done. lia.
Qed.

Lemma last_cons_default (p v : Z) ps : List.last (p :: ps) v = List.last ps p.
Proof. revert p v. induction ps as [|q ps IH]; intros p v; [done|]. exact (eq_trans (IH q v) (eq_sym (IH q p))). Qed.

Lemma csi_more ps t v :
  in_csi t → csi_cur t = Some v → Forall u32_ok ps →
  process_bytes (concat (map (λ q, 59 :: fmt_u q) ps)) t =
    Some (set_csi (csi_params t ++ removelast (v :: ps)) (Some (List.last ps v)) t).
Proof.
  intros Hin Hc Hps. revert t v Hin Hc. induction Hps as [|p ps Hp Hps IH]; intros t v Hin Hc; cbn [map concat].
  - cbn. rewrite app_nil_r. by destruct t; cbn in *; subst.
  - cbn [app process_bytes]. rewrite process_in_csi by done. unfold process_csi. rewrite Hc. cbn [default from_option].
    change ((48 <=? 59) && (59 <=? 57)) with false. change (59 =? 59) with true. cbn [mbind option_bind].
    rewrite process_bytes_app, csi_number by done. cbn [mbind option_bind].
    rewrite (IH _ p) by done. cbn [csi_params set_csi]. rewrite <- app_assoc.
    change (removelast (v :: p :: ps)) with (v :: removelast (p :: ps)). cbn [app].
    by rewrite last_cons_default.
Qed.

(** The terminal when the final byte of a sequence with parameters [ps] comes. *)
Definition with_params (ps : list Z) (t : Terminal) : Terminal := set_csi ps None (set_esc Csi (set_dirty true t)).

Lemma csi_final b t :
  in_csi t → 64 <= b <= 126 →
  process_bytes [b] t =
    t' ← apply_csi b (match csi_cur t with Some v => set_csi (csi_params t ++ [v]) None t | None => t end);
    Some (set_esc EscNone t').
Proof.
  intros Hin Hb. cbn [process_bytes]. rewrite process_in_csi by done. unfold process_csi.
  rewrite (proj2 (Z.leb_gt b 57)), andb_false_r by lia. rewrite (proj2 (Z.eqb_neq _ _)) by lia.
  rewrite !(proj2 (Z.leb_le _ _)) by lia. cbn [andb].
  destruct (apply_csi b _); done.
Qed.

Lemma csi_parsed ps b t :
  esc t = EscNone → Forall u32_ok ps → 64 <= b <= 126 →
  process_bytes (csi_text ps b) t = t' ← apply_csi b (with_params ps t); Some (set_esc EscNone t').
Proof.
  intros He Hps Hb. unfold csi_text.
  assert (∀ bs, process_bytes (27 :: 91 :: bs) t = process_bytes bs (with_params [] t)) as Hstart.
  { intros bs. destruct t. cbn in He. subst. reflexivity. }
  assert (in_csi (with_params [] t)) as Hin by done.
  rewrite Hstart, process_bytes_app. destruct Hps as [|p ps Hp Hps]; [exact (csi_final b _ Hin Hb)|].
  rewrite process_bytes_app, csi_number by done. cbn [mbind option_bind].
  rewrite (csi_more ps _ p) by done. cbn [mbind option_bind]. rewrite csi_final by done. cbn [csi_cur csi_params set_csi].
  cbn [app with_params csi_params set_csi]. replace (removelast (p :: ps) ++ [List.last ps p]) with (p :: ps); [done|].
  rewrite <- last_cons_default with (v := p). by apply app_removelast_last.
Qed.

(** ** Erasing *)

(** The cells the sequences [K] and [J] blank: the index is counted along the
    rows, and the cursor may stand behind the last column. *)
Definition erased (b p : Z) (t : Terminal) (r c : Z) : Prop :=
  let i := r * cols t + c in
  let cur := cursor_row t * cols t + cursor_col t in
  (b = 75 ∧ r = cursor_row t ∧ (p = 0 ∧ cursor_col t <= c ∨ p = 1 ∧ c <= cursor_col t ∨ p = 2)) ∨
  (b = 74 ∧ (p = 0 ∧ cur <= i ∨ p = 1 ∧ i <= cur ∨ p = 2 ∨ p = 3)).

Lemma blank_cells t a b r c P :
  term_ok t → 0 <= a <= b → b <= len t → 0 <= r < rows t → 0 <= c < cols t →
  (P ↔ a <= r * cols t + c < b) →
  ∃ t', fill_blank a b t = Some t' ∧ (P → cell_at t' r c = Some BLANK) ∧ (¬ P → cell_at t' r c = cell_at t r c).
Proof.
  intros Ht Ha Hb Hr Hc HP. destruct (fill_blank_spec t a b Ha Hb) as (l & -> & [Hl Hlk] & _).
  eexists. split; [done|]. unfold cell_at. cbn. pose proof (row_index t r c Hr Hc). pose proof (ok_len t Ht) as Hln.
  unfold len in Hln. rewrite Hlk, HP, Z2Nat.id by lia. split; intros Hd.
  - by rewrite !decide_True by lia.
  - by rewrite decide_False by done.
Qed.

Lemma erase_cells b p t r c :
  term_ok t → b = 75 ∨ b = 74 → csi_param t 0 0 = p → 0 <= r < rows t → 0 <= c < cols t →
  ∃ t', apply_csi b t = Some t' ∧ (erased b p t r c → cell_at t' r c = Some BLANK) ∧
    (¬ erased b p t r c → cell_at t' r c = cell_at t r c).
Proof.
  intros Ht Hb Hp Hr Hc. pose proof (ok_cols t Ht). pose proof (ok_rows t Ht). pose proof (ok_row t Ht).
  pose proof (ok_col t Ht). pose proof (ok_len t Ht) as Hlen. pose proof (row_index t r c Hr Hc).
  assert (cursor_row t * cols t + cols t <= len t) by nia. assert (0 <= cursor_row t * cols t) by nia.
  assert (1 <= len t) by nia.
  assert (cursor_row t * cols t <= r * cols t + c < cursor_row t * cols t + cols t ↔ r = cursor_row t) as Hrow by (split; nia).
  unfold apply_csi. rewrite Hp, !usize_sub_le by lia. unfold erased.
  destruct Hb as [-> | ->]; [change (75 =? 75) with true | change (74 =? 75) with false; change (74 =? 74) with true]; cbv iota.
  - repeat (case_step; [zbool; subst p; apply blank_cells; [done|lia|lia|done|done|split; [|intros ?; left]; nia]|]).
    zbool. exists t. split; [done|]. split; [intros [?|?]; lia|done].
  - repeat (case_step; [zbool; subst p; apply blank_cells; [done|lia|lia|done|done|split; [|intros ?; right]; nia]|]).
    case_step; [|zbool; exists t; split; [done|]; split; [intros [?|?]; lia|done]].
    destruct (blank_cells t 0 (len t) r c True) as (t' & -> & Hbl & _); [done|lia|lia|done|done|split; [lia|done]|].
    eexists. split; [done|]. zbool; (split; [intros _; exact (Hbl I)|intros []; lia]).
Qed.

(** ** Strings the terminal does not act on *)

Lemma swallow payload t e :
  esc t = e → dirty t = true → (e = Osc ∧ Forall (λ b, b ≠ 7 ∧ b ≠ 27) payload) ∨ (e = Dcs ∧ Forall (λ b, b ≠ 27) payload) →
  process_bytes payload t = Some t.
Proof.
  intros He Hd [[-> Hp]|[-> Hp]]; induction Hp as [|b payload Hb Hp IH]; try done; cbn [process_bytes];
    unfold process_byte; rewrite dirty_id, He by done.
  - rewrite !(proj2 (Z.eqb_neq b _)) by lia. exact IH.
  - rewrite (proj2 (Z.eqb_neq b 27)) by lia. exact IH.
Qed.

(** The strings [ESC ] ... BEL], [ESC ] ... ESC \] and [ESC P ... ESC \]. *)
Inductive ignored : list Z → Prop :=
  | ignored_osc_bel payload : Forall (λ b, b ≠ 7 ∧ b ≠ 27) payload → ignored (27 :: 93 :: payload ++ [7])
  | ignored_osc_st payload : Forall (λ b, b ≠ 7 ∧ b ≠ 27) payload → ignored (27 :: 93 :: payload ++ [27; 92])
  | ignored_dcs_st payload : Forall (λ b, b ≠ 27) payload → ignored (27 :: 80 :: payload ++ [27; 92]).

Lemma ignored_no_effect bs t : esc t = EscNone → ignored bs → process_bytes bs t = Some (set_dirty true t).
Proof.
  intros He Hi. destruct t as [? ? ? ? ? e ? ? ? ? ? ?]. cbn in He. subst e.
  destruct Hi as [payload Hp|payload Hp|payload Hp]; cbn [process_bytes]; unfold process_byte at 1; cbn [set_dirty esc];
    cbn [process_plain]; cbn; rewrite process_bytes_app.
  - erewrite swallow; [reflexivity|reflexivity|reflexivity|by left].
  - erewrite swallow; [reflexivity|reflexivity|reflexivity|by left].
  - erewrite swallow; [reflexivity|reflexivity|reflexivity|by right].
Qed.

(** ** The theorems *)

(** C9: in the release build, a terminal of at least one cell never panics,
    whatever bytes it is sent and whatever grids that can be allocated it is
    resized to: the cursor stays on the grid or right behind its row, the grid
    has the cells of its size, every colour is one of the sixteen, and every
    parameter of a control sequence is a 32-bit number, wrapped if the sequence
    spells a larger one. *)
Theorem terminal_never_panics c r ops :
  1 <= c → 1 <= r → small_grid c r → Forall op_ok ops → ∃ t, (t ← new c r; run_ops ops t) = Some t ∧ term_ok t.
Proof. intros Hc Hr Hs Ho. rewrite new_small by done. apply run_ops_ok; [by apply ok_new|done]. Qed.

Lemma terminal_never_panics_witness :
  ∃ t, (t ← new 2 1;
    run_ops [OpBytes [27; 91; 57; 57; 57; 72; 65; 66; 67; 10; 9; 27; 91; 74]; OpResize 0 7; OpBytes [65; 8; 8; 27; 80; 200]] t)
    = Some t ∧ term_ok t.
Proof. apply (terminal_never_panics 2 1); [lia|lia|by vm_compute|]. repeat constructor; cbn; (lia || by vm_compute). Defined.

(** C24: printable text, sent when no escape sequence is pending, appears from
    the cursor on in the current colours, going on in the next row behind the
    last column and scrolling up, with blank rows coming in, as far as its last
    character needs.  All other cells stay, moved by the scrolling, the cursor
    is behind the text, and but for being dirty the rest of the terminal is
    unchanged. *)
Theorem text_appears text t :
  term_ok t → esc t = EscNone → text ≠ [] → Forall printable text →
  let last := position t + Z.of_nat (length text) - 1 in
  let k := Z.max 0 (last / cols t - (rows t - 1)) in
  ∃ l, process_bytes text t = Some (set_cells l (set_cursor (last / cols t - k) (last mod cols t + 1) (set_dirty true t))) ∧
    length l = length (cells t) ∧
    ∀ r c, 0 <= r < rows t → 0 <= c < cols t → l !! Z.to_nat (r * cols t + c) = tape text t ((r + k) * cols t + c).
Proof.
  intros Ht He Hne Hp last k. pose proof (ok_set_dirty t true Ht) as Htd.
  destruct (text_shown text (set_dirty true t)) as (t' & k' & Hrun & Ht' & Hs & H1); [done..|]. specialize (H1 Hne).
  destruct (shows_scrolled _ _ _ _ Htd Ht' Hne H1 Hs) as (Ek & Er & Ec). change (k' = k) in Ek. subst k'.
  pose proof (shows_grid _ _ _ _ Hs) as [Gc Gr]. destruct Hs as [(l & r0 & c0 & E1) _ _ _ Hcells]. rewrite E1 in Er, Ec.
  cbn in Er, Ec. subst r0 c0. exists l. split.
  { destruct text as [|b text]; [done|]. rewrite E1 in Hrun. exact Hrun. }
  split; [pose proof (ok_len t' Ht'); pose proof (ok_len t Ht); unfold len in *; rewrite E1 in *; cbn in *; lia|].
  intros r c Hr Hc. specialize (Hcells r c Hr Hc). unfold cell_at in Hcells. rewrite E1 in Hcells. exact Hcells.
Qed.

(** Five letters on a grid of three by two, the cursor in the last column. *)
Lemma text_appears_witness :
  let t := set_cursor 1 2 (blank_term 3 2) in
  ∃ l, process_bytes [75; 49; 79; 83; 33] t = Some (set_cells l (set_cursor 1 1 (set_dirty true t))) ∧ length l = length (cells t) ∧
    ∀ r c, 0 <= r < 2 → 0 <= c < 3 → l !! Z.to_nat (r * 3 + c) = tape [75; 49; 79; 83; 33] t ((r + 2) * 3 + c).
Proof.
  apply (text_appears [75; 49; 79; 83; 33] (set_cursor 1 2 (blank_term 3 2))); [|reflexivity|discriminate|].
  - apply ok_set_cursor; [apply ok_new; lia|cbn; lia|cbn; lia].
  - repeat constructor; unfold printable; lia.
Defined.

(** A parameter above 2^32 wraps: [ESC [ 4294967297 G] moves to column 1. *)
Lemma csi_parameter_wraps :
  process_bytes (csi_text [4294967297] 71) (blank_term 3 2) = process_bytes (csi_text [1] 71) (blank_term 3 2).
Proof. by vm_compute. Qed.

(** A control sequence with parameters printed in decimal is parsed back
    to exactly these parameters, and its final byte is applied to them. *)
Theorem csi_roundtrip ps b t :
  esc t = EscNone → Forall u32_ok ps → 64 <= b <= 126 →
  process_bytes (csi_text ps b) t = t' ← apply_csi b (with_params ps t); Some (set_esc EscNone t').
Proof. apply csi_parsed. Qed.

Lemma csi_roundtrip_witness :
  process_bytes (csi_text [12; 4294967295] 72) (blank_term 80 25) =
    t' ← apply_csi 72 (with_params [12; 4294967295] (blank_term 80 25)); Some (set_esc EscNone t').
Proof. apply (csi_roundtrip [12; 4294967295] 72 (blank_term 80 25)); [reflexivity|repeat constructor; unfold u32_ok; lia|lia]. Defined.

(** The sequences that erase in the line ([K]) and in the display ([J])
    blank exactly the cells they name. *)
Theorem erase_exact b p t :
  term_ok t → esc t = EscNone → b = 75 ∨ b = 74 → 0 <= p <= 3 →
  ∃ t', process_bytes (csi_text [p] b) t = Some t' ∧
    ∀ r c, 0 <= r < rows t → 0 <= c < cols t →
      (erased b p t r c → cell_at t' r c = Some BLANK) ∧ (¬ erased b p t r c → cell_at t' r c = cell_at t r c).
Proof.
  intros Ht He Hb Hp. rewrite csi_parsed; [|done|constructor; [unfold u32_ok; lia|constructor]|lia].
  set (t0 := with_params [p] t).
  assert (term_ok t0) as Ht0.
  { apply ok_set_csi; [by apply ok_set_esc, ok_set_dirty|constructor; [unfold u32_ok; lia|constructor]|unfold u32_ok; cbn; lia]. }
  assert (csi_param t0 0 0 = p) as Hcp by (unfold csi_param; cbn; case_step; zbool; lia).
  destruct (apply_csi_ok b t0 Ht0) as (t' & Ea & _). rewrite Ea. eexists. split; [done|]. intros r c Hr Hc.
  destruct (erase_cells b p t0 r c Ht0 Hb Hcp Hr Hc) as (t'' & Ea' & Her). rewrite Ea in Ea'. injection Ea' as <-. exact Her.
Qed.

Lemma erase_exact_witness :
  ∃ t', process_bytes (csi_text [1] 75) (blank_term 3 2) = Some t' ∧
    ∀ r c, 0 <= r < rows (blank_term 3 2) → 0 <= c < cols (blank_term 3 2) →
      (erased 75 1 (blank_term 3 2) r c → cell_at t' r c = Some BLANK) ∧
      (¬ erased 75 1 (blank_term 3 2) r c → cell_at t' r c = cell_at (blank_term 3 2) r c).
Proof. apply (erase_exact 75 1 (blank_term 3 2)); [apply ok_new; lia|reflexivity|by left|lia]. Defined.

(** Operating-system commands and device-control strings, terminated as
    the standard says, leave the terminal as it was. *)
Theorem strings_ignored bs t :
  esc t = EscNone → ignored bs → process_bytes bs t = Some (set_dirty true t).
Proof. apply ignored_no_effect. Qed.

Lemma strings_ignored_witness :
  process_bytes [27; 93; 48; 59; 104; 105; 7] (blank_term 80 25) = Some (blank_term 80 25).
Proof. apply (strings_ignored _ (blank_term 80 25)); [reflexivity|]. apply (ignored_osc_bel [48; 59; 104; 105]). repeat constructor; lia. Defined.

(** A sequence with a private marker, such as the one that sets the keyboard
    reporting of xterm ([ESC [ > 4 ; 1 m]), is taken for the one without: it
    makes the text bold. *)
Lemma private_marker_ignored :
  ∃ t, process_bytes [27; 91; 62; 52; 59; 49; 109] (blank_term 80 25) = Some t ∧ bold t = true.
Proof. eexists. split; [vm_compute; reflexivity|done]. Qed.
