(* ===== verification/K1Render.v ===== *)
(** * Drawing the console

    Models the drawing of k1de/src/main.rs ([Terminal::render], [fill_cell],
    [blit_glyph], [draw_string], [render_screensaver]) and the font of
    k1de/src/font.rs.  The framebuffer is a list of bytes; [None] is a panic.
    [flush] and the choice of the font are calls to the kernel. *)

From S2P Require Import Prelude K1Color K1Term.
Open Scope Z_scope.

(** ** Data *)

Record Font : Type := mk_font { f_width : Z; f_height : Z; f_data : list Z }.

Definition fallback : Font := mk_font 8 8 (replicate (256 * 32) 0xFF).

(** The answer to [KDFONTOP] on one device: the return value, the size, and the
    glyph buffer of 256 times 32 bytes it fills. *)
Record ConsoleFontOp : Type := mk_fontop { fo_ret : Z; fo_width : Z; fo_height : Z; fo_data : list Z }.

(** [None] for a device that cannot be opened. *)
Definition load_from (answer : option ConsoleFontOp) : option Font :=
  op ← answer;
  if (fo_ret op <? 0) || (fo_height op =? 0) || (fo_width op =? 0) then None
  else Some (mk_font (fo_width op) (fo_height op) (fo_data op)).

(** The devices are tried in order. *)
Fixpoint load (answers : list (option ConsoleFontOp)) : Font :=
  match answers with
  | [] => fallback
  | a :: answers => match load_from a with Some f => f | None => load answers end
  end.

(** What [Drm::framebuffer] returns: the mapped bytes, pitch, width, height. *)
Record framebuffer : Type := mk_fb { fb_buf : list Z; fb_pitch : Z; fb_width : Z; fb_height : Z }.

(** [color.to_le_bytes()]. *)
Definition px (color : Z) : list Z := le_split 4 color.

(** ** Loops *)

(** [for i in lo..lo+n], the body says whether to go on or to break. *)
Fixpoint for_upto {A} (n : nat) (i : Z) (body : Z → A → option (A * bool)) (s : A) : option A :=
  match n with
  | O => Some s
  | S n =>
      '(s, go) ← body i s;
      if go : bool then for_upto n (i + 1) body s else Some s
  end.

(** ** Operations *)

(** [data[c * 32 + y]] may be out of range; the release build takes the shift
    modulo eight. *)
Definition pixel (f : Font) (c x y : Z) : option bool :=
  if (f_width f <=? x) || (f_height f <=? y) then Some false
  else
    row ← f_data f !! Z.to_nat (c * 32 + y);
    Some (negb (Z.land (Z.shiftr row ((7 - x) mod 8)) 1 =? 0)).

Definition fill_px (bytes : list Z) (row_off ox : Z) (x : Z) (buf : list Z) : option (list Z * bool) :=
  buf ← write_range buf (u64 (row_off + (ox + x) * 4)) bytes; Some (buf, true).

Definition fill_row (bytes : list Z) (pitch ox oy w : Z) (y : Z) (buf : list Z) : option (list Z * bool) :=
  let row_off := u64 (u64 (oy + y) * pitch) in
  if Z.of_nat (length buf) <? u64 (row_off + w * 4) then Some (buf, false)
  else buf ← for_upto (Z.to_nat w) 0 (fill_px bytes row_off ox) buf; Some (buf, true).

Definition fill_cell (buf : list Z) (pitch color ox oy w h : Z) : option (list Z) :=
  for_upto (Z.to_nat h) 0 (fill_row (px color) pitch ox oy w) buf.

Definition blit_px (font : Font) (c : Z) (bytes : list Z) (row_off ox y : Z) (x : Z) (buf : list Z)
    : option (list Z * bool) :=
  set ← pixel font c x y;
  if set : bool then
    let off := u64 (row_off + u64 (ox + x) * 4) in
    if u64 (off + 4) <=? Z.of_nat (length buf)
    then buf ← write_range buf off bytes; Some (buf, true) else Some (buf, true)
  else Some (buf, true).

Definition blit_row (font : Font) (c : Z) (bytes : list Z) (pitch ox oy : Z) (y : Z) (buf : list Z)
    : option (list Z * bool) :=
  let row_off := u64 (u64 (oy + y) * pitch) in
  if Z.of_nat (length buf) <? u64 (row_off + 4) then Some (buf, false)
  else buf ← for_upto (Z.to_nat (f_width font)) 0 (blit_px font c bytes row_off ox y) buf; Some (buf, true).

Definition blit_glyph (buf : list Z) (pitch : Z) (font : Font) (c color ox oy : Z) : option (list Z) :=
  for_upto (Z.to_nat (f_height font)) 0 (blit_row font c (px color) pitch ox oy) buf.

(** One row of the background: whole pixels of the visible part. *)
Definition clear_row (row_bytes color : Z) (row : list Z) : list Z :=
  let n := Z.to_nat (Z.min row_bytes (Z.of_nat (length row)) / 4) in
  concat (replicate n (px color)) ++ drop (4 * n) row.

(** The loop over [buf.chunks_mut(pitch)], which panics for a pitch of 0. *)
Fixpoint clear_chunks (fuel : nat) (pitch : nat) (row_bytes color : Z) (buf : list Z) : list Z :=
  match fuel, buf with
  | O, _ | _, [] => buf
  | S fuel, _ =>
      clear_row row_bytes color (take pitch buf) ++ clear_chunks fuel pitch row_bytes color (drop pitch buf)
  end.
Definition clear (fb : framebuffer) (color : Z) : option (list Z) :=
  if fb_pitch fb =? 0 then None
  else Some (clear_chunks (length (fb_buf fb)) (Z.to_nat (fb_pitch fb)) (fb_width fb * 4) color (fb_buf fb)).

(** The body of the loop over the columns. *)
Definition render_cell (t : Terminal) (font : Font) (pitch : Z) (r : Z) (c : Z) (buf : list Z)
    : option (list Z * bool) :=
  cell ← cells t !! Z.to_nat (r * cols t + c);
  let ox := c * f_width font in
  let oy := r * f_height font in
  buf ← match bg cell with
        | Some b => color ← PALETTE !! Z.to_nat b; fill_cell buf pitch color ox oy (f_width font) (f_height font)
        | None => Some buf
        end;
  buf ← (if negb (ch cell =? 32) then
           color ← match fg cell with None => Some FG | Some i => PALETTE !! Z.to_nat i end;
           blit_glyph buf pitch font (ch cell) color ox oy
         else Some buf);
  Some (buf, true).

Definition render_row (t : Terminal) (font : Font) (pitch : Z) (r : Z) (buf : list Z) : option (list Z * bool) :=
  buf ← for_upto (Z.to_nat (cols t)) 0 (render_cell t font pitch r) buf; Some (buf, true).

(** The drawn bytes and the terminal, no longer dirty; without a framebuffer
    nothing happens. *)
Definition render (t : Terminal) (fb : option framebuffer) (font : Font) : option (option (list Z) * Terminal) :=
  match fb with
  | None => Some (None, t)
  | Some fb =>
      buf ← clear fb BG;
      buf ← for_upto (Z.to_nat (rows t)) 0 (render_row t font (fb_pitch fb)) buf;
      Some (Some buf, set_dirty false t)
  end.

Fixpoint draw_string (buf : list Z) (pitch : Z) (font : Font) (s : list Z) (i : Z) (ox oy : Z) : option (list Z) :=
  match s with
  | [] => Some buf
  | c :: s =>
      buf ← blit_glyph buf pitch font c FG (u64 (ox + i * f_width font)) oy;
      draw_string buf pitch font s (i + 1) ox oy
  end.

(** "K1OS". *)
Definition logo : list Z := [75; 49; 79; 83].
(** "Screensaver active. Press any key to resume..." *)
Definition hint : list Z :=
  [83; 99; 114; 101; 101; 110; 115; 97; 118; 101; 114; 32; 97; 99; 116; 105; 118; 101; 46; 32;
   80; 114; 101; 115; 115; 32; 97; 110; 121; 32; 107; 101; 121; 32; 116; 111; 32; 114; 101; 115; 117; 109; 101; 46; 46; 46].

Definition render_screensaver (fb : option framebuffer) (font : Font) : option (option (list Z)) :=
  match fb with
  | None => Some None
  | Some fb =>
      buf ← clear fb 0;
      let lx := saturating_sub (fb_width fb / 2) (Z.of_nat (length logo) * f_width font * 2 / 2) in
      let ly := usize_sub (fb_height fb / 2) (f_height font * 2) in
      buf ← draw_string buf (fb_pitch fb) font logo 0 lx ly;
      let hx := saturating_sub (fb_width fb / 2) (Z.of_nat (length hint) * f_width font / 2) in
      let hy := fb_height fb / 2 + f_height font in
      buf ← draw_string buf (fb_pitch fb) font hint 0 hx hy;
      Some (Some buf)
  end.
