(* ===== verification/K1Pixels.v ===== *)
(** * What the console draws

    The framebuffer as a picture: which colour each pixel has.  Drawing never
    writes outside the buffer, and after [Terminal::render] every pixel has
    the colour its cell and glyph give it. *)

From S2P Require Import Prelude K1Color K1Term K1Render.
Open Scope Z_scope.

(** ** Loops *)

Lemma for_upto_inv {A} (P : Z → A → Prop) (body : Z → A → option (A * bool)) n i s :
  (∀ j s, i <= j < i + Z.of_nat n → P j s → ∃ s', body j s = Some (s', true) ∧ P (j + 1) s') →
  P i s → ∃ s', for_upto n i body s = Some s' ∧ P (i + Z.of_nat n) s'.
Proof.
  revert i s. induction n as [|n IH]; intros i s Hb HP; cbn [for_upto].
  - exists s. by rewrite Z.add_0_r.
  - destruct (Hb i s ltac:(lia) HP) as (s1 & -> & HP1). cbn [mbind option_bind].
    destruct (IH (i + 1) s1) as (s' & Hs' & HP'); [intros j s2 Hj; apply Hb; lia|done|].
    exists s'. split; [done|]. by replace (i + Z.of_nat (S n)) with (i + 1 + Z.of_nat n) by lia.
Qed.

(** A loop that may break: [Q] holds throughout. *)
Lemma for_upto_safe {A} (Q : A → Prop) (body : Z → A → option (A * bool)) n i s :
  (∀ j s, i <= j < i + Z.of_nat n → Q s → ∃ s' go, body j s = Some (s', go) ∧ Q s') →
  Q s → ∃ s', for_upto n i body s = Some s' ∧ Q s'.
Proof.
  revert i s. induction n as [|n IH]; intros i s Hb HQ; cbn [for_upto]; [by exists s|].
  destruct (Hb i s ltac:(lia) HQ) as (s1 & go & -> & HQ1). cbn [mbind option_bind].
  destruct go; [|by exists s1]. apply IH; [|done]. intros j s2 Hj. apply Hb. lia.
Qed.

(** ** Pictures *)

Lemma length_px c : length (px c) = 4%nat.
Proof. apply length_le_split. Qed.

Section picture.
Context (pitch width height size : Z).

(** The geometry of a framebuffer of [size] bytes. *)
Record geometry : Prop := mk_geometry {
  geo_pitch : 0 < pitch < 2 ^ 32;
  geo_width : 0 <= width;
  geo_height : 0 <= height;
  geo_fit : width * 4 <= pitch;
  geo_size : pitch * height <= size;
  geo_max : size < 2 ^ 62
}.

Definition visible (X Y : Z) : Prop := 0 <= X < width ∧ 0 <= Y < height.
#[local] Instance visible_dec X Y : Decision (visible X Y).
Proof. unfold visible. apply _. Defined.

(** The buffer shows the picture [f]. *)
Definition pictures (f : Z → Z → Z) (buf : list Z) : Prop :=
  Z.of_nat (length buf) = size ∧
  ∀ X Y, visible X Y → read_range buf (Y * pitch + X * 4) 4 = Some (px (f X Y)).

Lemma pictures_ext f g buf : (∀ X Y, visible X Y → f X Y = g X Y) → pictures f buf → pictures g buf.
Proof. intros He [Hl Hp]. split; [done|]. intros X Y Hv. rewrite <- He by done. by apply Hp. Qed.

Hypothesis Hgeo : geometry.

Lemma offset_bound X Y : visible X Y → 0 <= Y * pitch + X * 4 ∧ Y * pitch + X * 4 + 4 <= size.
Proof. intros [HX HY]. destruct Hgeo as [? ? ? ? ? _]. nia. Qed.

Lemma offset_apart X Y X' Y' :
  visible X Y → visible X' Y' → (X, Y) ≠ (X', Y') →
  Y * pitch + X * 4 + 4 <= Y' * pitch + X' * 4 ∨ Y' * pitch + X' * 4 + 4 <= Y * pitch + X * 4.
Proof.
  intros [HX HY] [HX' HY'] Hne. destruct Hgeo as [Hp _ _ Hf _ _].
  destruct (Z.lt_trichotomy Y Y') as [Hlt|[->|Hgt]]; [left; nia| |right; nia].
  assert (X ≠ X') by congruence. lia.
Qed.

Lemma write_px f buf x y c :
  pictures f buf → visible x y →
  ∃ buf', write_range buf (y * pitch + x * 4) (px c) = Some buf' ∧
    pictures (λ X Y, if decide (X = x ∧ Y = y) then c else f X Y) buf'.
Proof.
  intros [Hl Hp] Hv. destruct (offset_bound x y Hv) as [H0 H4]. pose proof (length_px c) as Hpx.
  rewrite write_range_Some by lia. eexists. split; [done|].
  assert ((Z.to_nat (y * pitch + x * 4) + length (px c) <= length buf)%nat) as Hfit by lia.
  split; [by rewrite length_splice|]. intros X Y HV. case_decide as Hd.
  - destruct Hd as [-> ->]. pose proof (read_splice_same buf (px c) _ Hfit) as Hr. rewrite Hpx in Hr.
    by rewrite Z2Nat.id in Hr.
  - destruct (offset_bound X Y HV). rewrite read_splice_disjoint; [by apply Hp|done|lia|lia|].
    rewrite Nat2Z.inj_add, Z2Nat.id, Hpx by lia.
    destruct (offset_apart X Y x y HV Hv) as [?|?]; [intros [= -> ->]; tauto|left|right]; lia.
Qed.

(** ** Filling and blitting a cell that is on the screen *)

Definition in_rect (ox oy w h X Y : Z) : Prop := ox <= X < ox + w ∧ oy <= Y < oy + h.
#[local] Instance in_rect_dec ox oy w h X Y : Decision (in_rect ox oy w h X Y).
Proof. unfold in_rect. apply _. Defined.

Definition rect_fits (ox oy w h : Z) : Prop := 0 <= ox ∧ 0 <= oy ∧ 0 <= w ∧ 0 <= h ∧ ox + w <= width ∧ oy + h <= height.

Lemma row_offset oy y : 0 <= oy + y < height → u64 (u64 (oy + y) * pitch) = (oy + y) * pitch.
Proof.
  intros Hy. destruct Hgeo. assert ((oy + y) * pitch < 2 ^ 62) by nia. assert (oy + y < 2 ^ 62) by nia.
  rewrite (u64_small (oy + y)) by lia. apply u64_small. nia.
Qed.

Lemma px_offset X Y : visible X Y → u64 (Y * pitch + X * 4) = Y * pitch + X * 4.
Proof. intros Hv. destruct (offset_bound X Y Hv). destruct Hgeo. apply u64_small. lia. Qed.

Lemma fill_row_pictures f buf color ox oy w h y :
  rect_fits ox oy w h → 0 <= y < h → pictures f buf →
  ∃ buf', fill_row (px color) pitch ox oy w y buf = Some (buf', true) ∧
    pictures (λ X Y, if decide (in_rect ox (oy + y) w 1 X Y) then color else f X Y) buf'.
Proof.
  intros (H1 & H2 & H3 & H4 & H5 & H6) Hy Hp. unfold fill_row. rewrite row_offset by lia.
  assert ((oy + y) * pitch + w * 4 <= size) as Hin by (destruct Hgeo; nia).
  assert (0 <= (oy + y) * pitch) by (destruct Hgeo; nia).
  rewrite u64_small by (destruct Hgeo; lia). destruct Hp as [Hl Hpp]. rewrite (proj2 (Z.ltb_ge _ _)) by lia.
  destruct (for_upto_inv (λ x, pictures (λ X Y, if decide (in_rect ox (oy + y) x 1 X Y) then color else f X Y))
    (fill_px (px color) ((oy + y) * pitch) ox) (Z.to_nat w) 0 buf) as (buf' & -> & Hp').
  - intros x b Hx Hb. unfold fill_px. assert (visible (ox + x) (oy + y)) as Hv by (unfold visible; lia).
    rewrite px_offset by done. destruct (write_px _ b (ox + x) (oy + y) color Hb Hv) as (b' & -> & Hb').
    exists b'. split; [done|]. eapply pictures_ext; [|exact Hb']. intros X Y _. unfold in_rect. cbn beta.
    repeat case_decide; try done; lia.
  - eapply pictures_ext; [|split; [exact Hl|exact Hpp]]. intros X Y _. unfold in_rect. rewrite decide_False by lia. done.
  - exists buf'. split; [done|]. by rewrite Z.add_0_l, Z2Nat.id in Hp' by lia.
Qed.

Lemma fill_cell_pictures f buf color ox oy w h :
  rect_fits ox oy w h → pictures f buf →
  ∃ buf', fill_cell buf pitch color ox oy w h = Some buf' ∧
    pictures (λ X Y, if decide (in_rect ox oy w h X Y) then color else f X Y) buf'.
Proof.
  intros Hr Hp. pose proof Hr as (H1 & H2 & H3 & H4 & H5 & H6).
  destruct (for_upto_inv (λ y, pictures (λ X Y, if decide (in_rect ox oy w y X Y) then color else f X Y))
    (fill_row (px color) pitch ox oy w) (Z.to_nat h) 0 buf) as (buf' & Hf & Hp').
  - intros y b Hy Hb. destruct (fill_row_pictures _ b color ox oy w h y Hr ltac:(lia) Hb) as (b' & -> & Hb').
    exists b'. split; [done|]. eapply pictures_ext; [|exact Hb']. intros X Y _. unfold in_rect. cbn beta.
    repeat case_decide; try done; lia.
  - eapply pictures_ext; [|exact Hp]. intros X Y _. unfold in_rect. rewrite decide_False by lia. done.
  - exists buf'. split; [exact Hf|]. by rewrite Z.add_0_l, Z2Nat.id in Hp' by lia.
Qed.

(** ** Glyphs *)

Record font_ok (f : Font) : Prop := mk_font_ok {
  fok_width : 1 <= f_width f;
  fok_height : 1 <= f_height f <= 32;
  fok_data : Z.of_nat (length (f_data f)) = 256 * 32
}.

Definition glyph (f : Font) (c x y : Z) : bool := default false (pixel f c x y).

Lemma pixel_glyph f c x y : font_ok f → 0 <= c < 256 → 0 <= y < f_height f → pixel f c x y = Some (glyph f c x y).
Proof.
  intros [Hw Hh Hd] Hc Hy. unfold glyph, pixel. case_step; [done|].
  destruct (lookup_lt_is_Some_2 (f_data f) (Z.to_nat (c * 32 + y))) as [row ->]; [lia|done].
Qed.

(** Two conditions on a rectangle and a glyph that differ in the rectangle. *)
Ltac glyph_cases :=
  repeat case_decide; try done; exfalso;
  match goal with H : ¬ (_ ∧ glyph _ _ _ _ = true), H' : _ ∧ glyph _ _ _ _ = true |- _ =>
    apply H; split; [destruct H'; lia|apply H'] end.

Section blit.
Context (font : Font) (c color : Z).
Hypothesis Hfont : font_ok font.
Hypothesis Hchar : 0 <= c < 256.

Lemma blit_row_pictures f buf ox oy y :
  rect_fits ox oy (f_width font) (f_height font) → 0 <= y < f_height font → pictures f buf →
  ∃ buf', blit_row font c (px color) pitch ox oy y buf = Some (buf', true) ∧
    pictures (λ X Y, if decide (in_rect ox (oy + y) (f_width font) 1 X Y ∧ glyph font c (X - ox) (Y - oy) = true)
      then color else f X Y) buf'.
Proof.
  intros (H1 & H2 & H3 & H4 & H5 & H6) Hy Hp. unfold blit_row. rewrite row_offset by lia.
  assert (visible ox (oy + y)) as Hv0 by (unfold visible; destruct Hfont; lia).
  destruct (offset_bound ox (oy + y) Hv0) as [_ Hin].
  assert (0 <= (oy + y) * pitch) by (destruct Hgeo; nia).
  rewrite u64_small by (destruct Hgeo; lia). destruct Hp as [Hl Hpp]. rewrite (proj2 (Z.ltb_ge _ _)) by lia.
  destruct (for_upto_inv (λ x, pictures (λ X Y, if decide (in_rect ox (oy + y) x 1 X Y ∧ glyph font c (X - ox) (Y - oy) = true)
      then color else f X Y))
    (blit_px font c (px color) ((oy + y) * pitch) ox y) (Z.to_nat (f_width font)) 0 buf) as (buf' & -> & Hp').
  - intros x b Hx Hb. unfold blit_px. rewrite pixel_glyph by done. cbn [mbind option_bind].
    assert (visible (ox + x) (oy + y)) as Hv by (unfold visible; lia).
    destruct (glyph font c x y) eqn:Eg.
    + assert (ox + x < 2 ^ 62) by (destruct Hgeo; lia). rewrite (u64_small (ox + x)) by lia.
      rewrite px_offset by done. destruct (offset_bound _ _ Hv).
      rewrite (u64_small (_ + 4)) by (destruct Hgeo; lia). rewrite (proj2 (Z.leb_le _ _)) by (destruct Hb; lia).
      destruct (write_px _ b (ox + x) (oy + y) color Hb Hv) as (b' & -> & Hb').
      exists b'. split; [done|]. eapply pictures_ext; [|exact Hb']. intros X Y _. unfold in_rect. cbn beta.
      destruct (decide (X = ox + x ∧ Y = oy + y)) as [[-> ->]|Hne].
      * rewrite decide_True; [done|]. split; [lia|]. by replace (ox + x - ox) with x by lia; replace (oy + y - oy) with y by lia.
      * glyph_cases.
    + exists b. split; [done|]. eapply pictures_ext; [|exact Hb]. intros X Y _. unfold in_rect. cbn beta.
      destruct (decide (X = ox + x ∧ Y = oy + y)) as [[-> ->]|Hne].
      * rewrite !decide_False; [done| |lia]. replace (ox + x - ox) with x by lia; replace (oy + y - oy) with y by lia. naive_solver congruence.
      * glyph_cases.
  - eapply pictures_ext; [|split; [exact Hl|exact Hpp]]. intros X Y _. unfold in_rect. rewrite decide_False by lia. done.
  - exists buf'. split; [done|]. by rewrite Z.add_0_l, Z2Nat.id in Hp' by lia.
Qed.

Lemma blit_glyph_pictures f buf ox oy :
  rect_fits ox oy (f_width font) (f_height font) → pictures f buf →
  ∃ buf', blit_glyph buf pitch font c color ox oy = Some buf' ∧
    pictures (λ X Y, if decide (in_rect ox oy (f_width font) (f_height font) X Y ∧ glyph font c (X - ox) (Y - oy) = true)
      then color else f X Y) buf'.
Proof.
  intros Hr Hp. pose proof Hr as (H1 & H2 & H3 & H4 & H5 & H6).
  destruct (for_upto_inv (λ y, pictures (λ X Y,
      if decide (in_rect ox oy (f_width font) y X Y ∧ glyph font c (X - ox) (Y - oy) = true) then color else f X Y))
    (blit_row font c (px color) pitch ox oy) (Z.to_nat (f_height font)) 0 buf) as (buf' & Hf & Hp').
  - intros y b Hy Hb. destruct (blit_row_pictures _ b ox oy y Hr ltac:(lia) Hb) as (b' & -> & Hb').
    exists b'. split; [done|]. eapply pictures_ext; [|exact Hb']. intros X Y _. unfold in_rect. cbn beta.
    destruct (decide (Y = oy + y)); glyph_cases.
  - eapply pictures_ext; [|exact Hp]. intros X Y _. unfold in_rect. rewrite decide_False by lia. done.
  - exists buf'. split; [exact Hf|]. by rewrite Z.add_0_l, Z2Nat.id in Hp' by lia.
Qed.
End blit.

(** ** The background *)

Lemma read_range_skip {A} (a b : list A) o n :
  0 <= o → read_range (a ++ b) (Z.of_nat (length a) + o) n = read_range b o n.
Proof.
  intros Ho. unfold read_range. rewrite length_app.
  assert (in_range (Z.of_nat (length a + length b)) (Z.of_nat (length a) + o) n = in_range (Z.of_nat (length b)) o n) as ->.
  { apply eq_true_iff_eq. rewrite !in_range_true. lia. }
  case_step; [|done]. rewrite drop_app_ge by lia. do 3 f_equal. lia.
Qed.

Lemma read_pixels color n X rest :
  0 <= X < Z.of_nat n → read_range (concat (replicate n (px color)) ++ rest) (X * 4) 4 = Some (px color).
Proof.
  intros HX. replace n with (Z.to_nat X + S (n - Z.to_nat X - 1))%nat by lia.
  rewrite replicate_add, concat_app, <- app_assoc. cbn [replicate concat].
  assert (length (concat (replicate (Z.to_nat X) (px color))) = (4 * Z.to_nat X)%nat) as Hl.
  { induction (Z.to_nat X) as [|k IH]; [done|]. cbn [replicate concat]. rewrite length_app, IH, length_px. lia. }
  replace (X * 4) with (Z.of_nat (length (concat (replicate (Z.to_nat X) (px color)))) + 0) by lia.
  rewrite read_range_skip by lia. rewrite <- app_assoc, read_range_app_l by (rewrite ?length_px; lia).
  rewrite read_range_Some by (rewrite ?length_px; lia). change (Z.to_nat 0) with 0%nat. rewrite drop_0.
  by rewrite take_ge by (rewrite length_px; done).
Qed.

Lemma length_pixels color n : length (concat (replicate n (px color))) = (4 * n)%nat.
Proof. induction n as [|n IH]; [done|]. cbn [replicate concat]. rewrite length_app, IH, length_px. lia. Qed.

Lemma length_clear_row color row : length (clear_row (width * 4) color row) = length row.
Proof.
  unfold clear_row. rewrite length_app, length_pixels, length_drop. destruct Hgeo.
  pose proof (Z.div_mod (Z.min (width * 4) (Z.of_nat (length row))) 4). pose proof (Z.mod_pos_bound (Z.min (width * 4) (Z.of_nat (length row))) 4). lia.
Qed.

Lemma length_clear_chunks fuel color buf :
  length (clear_chunks fuel (Z.to_nat pitch) (width * 4) color buf) = length buf.
Proof.
  revert buf. induction fuel as [|fuel IH]; intros buf; [by destruct buf|]. cbn [clear_chunks].
  destruct buf as [|b buf]; [done|]. rewrite length_app, length_clear_row, IH, length_take, length_drop. lia.
Qed.

Lemma read_clear_chunks fuel color buf X Y :
  0 <= X < width → 0 <= Y → (Z.to_nat Y < fuel)%nat → pitch * (Y + 1) <= Z.of_nat (length buf) →
  read_range (clear_chunks fuel (Z.to_nat pitch) (width * 4) color buf) (Y * pitch + X * 4) 4 = Some (px color).
Proof.
  pose proof (geo_pitch Hgeo) as Hp. pose proof (geo_fit Hgeo) as Hf.
  revert buf Y. induction fuel as [|fuel IH]; intros buf Y HX HY Hfu Hlen; [lia|]. cbn [clear_chunks].
  destruct buf as [|b0 buf0]; [cbn in Hlen; nia|]. set (buf := b0 :: buf0) in *.
  assert (pitch <= Z.of_nat (length buf)) as Hpl by nia.
  assert (length (clear_row (width * 4) color (take (Z.to_nat pitch) buf)) = Z.to_nat pitch) as Hrow.
  { rewrite length_clear_row, length_take. lia. }
  destruct (decide (Y = 0)) as [->|Hne].
  - unfold clear_row at 1. rewrite <- app_assoc. rewrite Z.add_0_l. apply read_pixels.
    assert (Z.of_nat (length (take (Z.to_nat pitch) buf)) = pitch) as -> by (rewrite length_take; lia).
    rewrite Z.min_l by lia. rewrite Z.div_mul by lia. lia.
  - replace (Y * pitch + X * 4) with
      (Z.of_nat (length (clear_row (width * 4) color (take (Z.to_nat pitch) buf))) + ((Y - 1) * pitch + X * 4)) by (rewrite Hrow; lia).
    rewrite read_range_skip by nia. apply IH; [done|lia|lia|]. rewrite length_drop. nia.
Qed.

Lemma clear_pictures fb color :
  fb_pitch fb = pitch → fb_width fb = width → Z.of_nat (length (fb_buf fb)) = size →
  ∃ buf, clear fb color = Some buf ∧ pictures (λ _ _, color) buf.
Proof.
  intros Ep Ew Es. unfold clear. pose proof (geo_pitch Hgeo). rewrite Ep, Ew, (proj2 (Z.eqb_neq _ _)) by lia.
  eexists. split; [done|]. split; [by rewrite length_clear_chunks|]. intros X Y [HX HY].
  apply read_clear_chunks; [done|lia| |]; pose proof (geo_size Hgeo); nia.
Qed.

(** ** The screen *)

Definition color_of (default_color : Z) (c : option Z) : Z :=
  match c with None => default_color | Some i => default 0 (PALETTE !! Z.to_nat i) end.

(** The colour of the pixel ([x], [y]) of a cell over the colour [under]. *)
Definition cell_px (font : Font) (cell : Cell) (x y under : Z) : Z :=
  if negb (ch cell =? 32) && glyph font (ch cell) x y then color_of FG (fg cell) else color_of under (bg cell).

Section screen.
Context (t : Terminal) (font : Font).
Hypothesis Ht : term_ok t.
Hypothesis Hfont : font_ok font.
Hypothesis Hcols : cols t * f_width font <= width.
Hypothesis Hrows : rows t * f_height font <= height.

Lemma palette_lookup i : 0 <= i < 16 → PALETTE !! Z.to_nat i = Some (default 0 (PALETTE !! Z.to_nat i)).
Proof. intros Hi. destruct (lookup_lt_is_Some_2 PALETTE (Z.to_nat i)) as [x ->]; [cbn; lia|done]. Qed.

Lemma cell_lookup r c : 0 <= r < rows t → 0 <= c < cols t → ∃ cell, cell_at t r c = Some cell ∧ cell_ok cell.
Proof.
  intros Hr Hc. pose proof (row_index t r c Hr Hc). pose proof (ok_len t Ht) as Hl. unfold len in Hl.
  destruct (lookup_lt_is_Some_2 (cells t) (Z.to_nat (r * cols t + c))) as [cell Hcell]; [lia|].
  exists cell. split; [done|]. by eapply Forall_lookup_1; [apply (ok_cells t Ht)|].
Qed.

Lemma cell_fits r c :
  0 <= r < rows t → 0 <= c < cols t →
  rect_fits (c * f_width font) (r * f_height font) (f_width font) (f_height font).
Proof. intros Hr Hc. destruct Hfont as [Hw Hh _]. unfold rect_fits. repeat split; nia. Qed.

Lemma render_cell_pictures f buf r c cell :
  0 <= r < rows t → 0 <= c < cols t → cell_at t r c = Some cell → pictures f buf →
  ∃ buf', render_cell t font pitch r c buf = Some (buf', true) ∧
    pictures (λ X Y, if decide (in_rect (c * f_width font) (r * f_height font) (f_width font) (f_height font) X Y)
      then cell_px font cell (X - c * f_width font) (Y - r * f_height font) (f X Y) else f X Y) buf'.
Proof.
  intros Hr Hc Hcell Hp. unfold render_cell. unfold cell_at in Hcell. rewrite Hcell. cbn [mbind option_bind].
  pose proof (cell_fits r c Hr Hc) as Hfit. pose proof (ok_cells t Ht) as Hcs.
  destruct (Forall_lookup_1 _ _ _ _ Hcs Hcell) as (Hch & Hfg & Hbg).
  set (ox := c * f_width font) in *. set (oy := r * f_height font) in *.
  assert (∃ b1, match bg cell with
    | Some b => color ← PALETTE !! Z.to_nat b; fill_cell buf pitch color ox oy (f_width font) (f_height font)
    | None => Some buf end = Some b1 ∧
    pictures (λ X Y, if decide (in_rect ox oy (f_width font) (f_height font) X Y) then color_of (f X Y) (bg cell) else f X Y) b1)
    as (b1 & -> & Hp1).
  { destruct (bg cell) as [b|].
    - rewrite (palette_lookup b) by (by apply Hbg). exact (fill_cell_pictures f buf _ ox oy _ _ Hfit Hp).
    - exists buf. split; [done|]. eapply pictures_ext; [|exact Hp]. intros X Y _. cbn. by case_decide. }
  cbn [mbind option_bind]. unfold cell_px. destruct (ch cell =? 32) eqn:Esp; cbn [negb andb]; [by exists b1|].
  assert (match fg cell with None => Some FG | Some i => PALETTE !! Z.to_nat i end = Some (color_of FG (fg cell))) as ->.
  { destruct (fg cell) as [i|]; [|done]. apply palette_lookup. by apply Hfg. }
  cbn [mbind option_bind].
  destruct (blit_glyph_pictures font (ch cell) (color_of FG (fg cell)) Hfont Hch _ b1 ox oy Hfit Hp1) as (b2 & -> & Hp2).
  exists b2. split; [done|]. eapply pictures_ext; [|exact Hp2]. intros X Y _. cbn beta.
  destruct (decide (in_rect ox oy _ _ X Y)) as [Hin|Hout].
  - destruct (glyph font (ch cell) (X - ox) (Y - oy)) eqn:Eg; [by rewrite decide_True|]. by rewrite decide_False by naive_solver.
  - by rewrite decide_False by naive_solver.
Qed.

(** The picture with the first [k] cells drawn. *)
Definition partial (k X Y : Z) : Z :=
  let r := Y / f_height font in
  let c := X / f_width font in
  if decide (c < cols t ∧ r < rows t ∧ r * cols t + c < k)
  then cell_px font (default BLANK (cell_at t r c)) (X mod f_width font) (Y mod f_height font) BG else BG.

Lemma rect_div r c X Y :
  in_rect (c * f_width font) (r * f_height font) (f_width font) (f_height font) X Y ↔
  X / f_width font = c ∧ Y / f_height font = r.
Proof.
  destruct Hfont as [Hw Hh _]. unfold in_rect.
  pose proof (Z.div_mod X (f_width font)). pose proof (Z.mod_pos_bound X (f_width font)).
  pose proof (Z.div_mod Y (f_height font)). pose proof (Z.mod_pos_bound Y (f_height font)).
  split; [intros [HX HY]|intros [<- <-]; lia]. split.
  - symmetry. apply (Z.div_unique_pos _ _ _ (X - c * f_width font)); lia.
  - symmetry. apply (Z.div_unique_pos _ _ _ (Y - r * f_height font)); lia.
Qed.

Lemma partial_step r c cell X Y :
  0 <= r < rows t → 0 <= c < cols t → cell_at t r c = Some cell → visible X Y →
  (if decide (in_rect (c * f_width font) (r * f_height font) (f_width font) (f_height font) X Y)
   then cell_px font cell (X - c * f_width font) (Y - r * f_height font) (partial (r * cols t + c) X Y)
   else partial (r * cols t + c) X Y) = partial (r * cols t + c + 1) X Y.
Proof.
  intros Hr Hc Hcell [HX HY]. pose proof Hfont as [Hw Hh _]. unfold partial.
  assert (0 <= X / f_width font) by (apply Z.div_pos; lia). assert (0 <= Y / f_height font) by (apply Z.div_pos; lia).
  destruct (decide (in_rect _ _ _ _ X Y)) as [Hin|Hout].
  - apply rect_div in Hin as [Ec Er]. rewrite Ec, Er, Hcell. rewrite decide_False by lia. rewrite decide_True by lia.
    cbn [default from_option id]. rewrite !Zmod_eq, Ec, Er by lia. done.
  - apply decide_ext. rewrite rect_div in Hout. split; [lia|]. intros (H1 & H2 & H3). repeat split; try done.
    destruct (decide (Y / f_height font * cols t + X / f_width font = r * cols t + c)) as [E|]; [|lia].
    exfalso. apply Hout. pose proof (ok_cols t Ht). symmetry in E.
    assert (c + r * cols t = X / f_width font + Y / f_height font * cols t) as E' by lia.
    assert (c mod cols t = c) as M1 by (apply Z.mod_small; lia).
    assert ((X / f_width font) mod cols t = X / f_width font) as M2 by (apply Z.mod_small; lia).
    assert (c = X / f_width font) by (rewrite <- M1, <- M2, <- (Z.mod_add c r), E', Z.mod_add by lia; done). nia.
Qed.

Lemma render_row_pictures buf r :
  0 <= r < rows t → pictures (partial (r * cols t)) buf →
  ∃ buf', render_row t font pitch r buf = Some (buf', true) ∧ pictures (partial ((r + 1) * cols t)) buf'.
Proof.
  intros Hr Hp. unfold render_row. pose proof (ok_cols t Ht).
  destruct (for_upto_inv (λ c, pictures (partial (r * cols t + c))) (render_cell t font pitch r) (Z.to_nat (cols t)) 0 buf)
    as (buf' & -> & Hp').
  - intros c b Hc Hb. destruct (cell_lookup r c Hr ltac:(lia)) as (cell & Hcell & _).
    destruct (render_cell_pictures _ b r c cell Hr ltac:(lia) Hcell Hb) as (b' & -> & Hb').
    exists b'. split; [done|]. eapply pictures_ext; [|exact Hb']. intros X Y HV. rewrite Z.add_assoc. apply partial_step; [done|lia|done|done].
  - by rewrite Z.add_0_r.
  - exists buf'. split; [done|]. by replace ((r + 1) * cols t) with (r * cols t + (0 + Z.of_nat (Z.to_nat (cols t)))) by lia.
Qed.

(** The colour of every pixel of the screen. *)
Definition screen_px (X Y : Z) : Z :=
  let r := Y / f_height font in
  let c := X / f_width font in
  if decide (c < cols t ∧ r < rows t)
  then cell_px font (default BLANK (cell_at t r c)) (X mod f_width font) (Y mod f_height font) BG else BG.

Lemma render_pictures fb :
  fb_pitch fb = pitch → fb_width fb = width → Z.of_nat (length (fb_buf fb)) = size →
  ∃ buf, render t (Some fb) font = Some (Some buf, set_dirty false t) ∧ pictures screen_px buf.
Proof.
  intros Ep Ew Es. unfold render. destruct (clear_pictures fb BG Ep Ew Es) as (b0 & -> & Hp0). cbn [mbind option_bind].
  pose proof (ok_rows t Ht). rewrite Ep.
  destruct (for_upto_inv (λ r, pictures (partial (r * cols t))) (render_row t font pitch) (Z.to_nat (rows t)) 0 b0)
    as (buf & -> & Hp).
  - intros r b Hr Hb. apply render_row_pictures; [lia|done].
  - eapply pictures_ext; [|exact Hp0]. intros X Y [HX HY]. unfold partial. destruct Hfont as [Hw Hh _].
    assert (0 <= X / f_width font) by (apply Z.div_pos; lia). assert (0 <= Y / f_height font) by (apply Z.div_pos; lia).
    pose proof (ok_cols t Ht). rewrite decide_False by nia. done.
  - exists buf. split; [done|]. eapply pictures_ext; [|exact Hp]. intros X Y [HX HY]. unfold partial, screen_px.
    destruct Hfont as [Hw Hh _]. assert (0 <= X / f_width font) by (apply Z.div_pos; lia).
    rewrite Z.add_0_l, Z2Nat.id by lia. apply decide_ext. split; [tauto|]. intros [? ?]. repeat split; [done..|nia].
Qed.
End screen.

(** ** The screensaver *)

(** The rows a glyph is drawn to do not end at the top of the address space. *)
Definition rows_ok (font : Font) (oy : Z) : Prop :=
  ∀ y, 0 <= y < f_height font → u64 (u64 (oy + y) * pitch) + 4 < 2 ^ 64.

Lemma blit_safe font c color ox oy buf :
  font_ok font → f_width font < 2 ^ 32 → 0 <= c < 256 → 0 <= ox < 2 ^ 60 → rows_ok font oy → Z.of_nat (length buf) = size →
  ∃ buf', blit_glyph buf pitch font c color ox oy = Some buf' ∧ Z.of_nat (length buf') = size.
Proof.
  intros Hf Hfw Hc Hox Hrows Hl. pose proof (geo_max Hgeo) as Hmax. pose proof Hf as [Hw Hh _].
  apply (for_upto_safe (λ b, Z.of_nat (length b) = size)); [|done]. intros y b Hy Hb. unfold blit_row.
  set (row_off := u64 (u64 (oy + y) * pitch)). assert (0 <= row_off) by apply u64_bound.
  specialize (Hrows y ltac:(lia)). fold row_off in Hrows. rewrite (u64_small (row_off + 4)) by lia.
  destruct (Z.ltb_spec (Z.of_nat (length b)) (row_off + 4)) as [Hlt|Hge]; [by exists b, false|].
  destruct (for_upto_safe (λ b, Z.of_nat (length b) = size) (blit_px font c (px color) row_off ox y)
    (Z.to_nat (f_width font)) 0 b) as (b' & -> & Hb'); [|done|by exists b', true].
  intros x b1 Hx Hb1. unfold blit_px. rewrite pixel_glyph by (done || lia). cbn [mbind option_bind].
  destruct (glyph font c x y); [|by exists b1, true]. rewrite (u64_small (ox + x)) by lia.
  rewrite (u64_small (row_off + _)) by lia. rewrite (u64_small (_ + 4)) by lia.
  destruct (Z.leb_spec (row_off + (ox + x) * 4 + 4) (Z.of_nat (length b1))) as [Hle|]; [|by exists b1, true].
  rewrite write_range_Some by (rewrite ?length_px; lia). eexists _, true. split; [done|].
  rewrite length_splice by (rewrite length_px; lia). done.
Qed.

Lemma draw_string_safe font s i ox oy buf :
  font_ok font → f_width font < 2 ^ 32 → Forall (λ c, 0 <= c < 256) s → 0 <= i → 0 <= ox → rows_ok font oy →
  ox + (i + Z.of_nat (length s)) * f_width font < 2 ^ 60 → Z.of_nat (length buf) = size →
  ∃ buf', draw_string buf pitch font s i ox oy = Some buf' ∧ Z.of_nat (length buf') = size.
Proof.
  intros Hf Hfw Hs. pose proof Hf as [Hw _ _]. revert i buf. induction Hs as [|c s Hc Hs IH]; intros i buf Hi Hox Hr Hb Hl; cbn [draw_string].
  - by exists buf.
  - cbn [length] in Hb. rewrite u64_small by nia.
    destruct (blit_safe font c FG (ox + i * f_width font) oy buf Hf Hfw Hc) as (b1 & -> & Hl1); [nia|done|done|].
    cbn [mbind option_bind]. apply IH; [lia|done|done|nia|done].
Qed.

Lemma rows_ok_small font oy : font_ok font → 0 <= oy < 2 ^ 31 → rows_ok font oy.
Proof.
  intros [_ Hh _] Hoy y Hy. pose proof (geo_pitch Hgeo). rewrite (u64_small (oy + y)) by lia. rewrite u64_small by nia. nia.
Qed.

Lemma rows_ok_wrapped font oy : font_ok font → 8 <= pitch → - 2 ^ 10 <= oy < 0 → rows_ok font (oy + 2 ^ 64).
Proof.
  intros Hf Hp8 Hoy y Hy. pose proof Hf as [_ Hh _]. pose proof (geo_pitch Hgeo) as Hp.
  destruct (Z.lt_ge_cases (oy + y) 0) as [Hneg|Hpos].
  - rewrite (u64_small (oy + 2 ^ 64 + y)) by lia. unfold u64.
    replace ((oy + 2 ^ 64 + y) * pitch) with (((oy + y) * pitch + 2 ^ 64) + (pitch - 1) * 2 ^ 64) by ring.
    rewrite Z.mod_add by lia. rewrite Z.mod_small by nia. nia.
  - assert (u64 (oy + 2 ^ 64 + y) = oy + y) as ->.
    { unfold u64. replace (oy + 2 ^ 64 + y) with (oy + y + 1 * 2 ^ 64) by ring. rewrite Z.mod_add by lia. apply Z.mod_small. lia. }
    rewrite u64_small by nia. nia.
Qed.

Lemma screensaver_safe fb font :
  font_ok font → f_width font <= 64 → 8 <= pitch → width < 2 ^ 32 → height < 2 ^ 30 →
  fb_pitch fb = pitch → fb_width fb = width → fb_height fb = height → Z.of_nat (length (fb_buf fb)) = size →
  ∃ buf, render_screensaver (Some fb) font = Some (Some buf) ∧ Z.of_nat (length buf) = size.
Proof.
  intros Hf Hfw Hp8 Hw Hh Ep Ew Eh Es. unfold render_screensaver. pose proof Hf as [Hfw1 Hfh _].
  destruct (clear_pictures fb 0 Ep Ew Es) as (b0 & -> & Hl0 & _). cbn [mbind option_bind]. rewrite Ep, Ew, Eh.
  pose proof (geo_width Hgeo). pose proof (geo_height Hgeo). unfold saturating_sub.
  assert (0 <= width / 2 <= width) by (split; [apply Z.div_pos; lia|apply Z.div_le_upper_bound; lia]).
  assert (0 <= height / 2 <= height) by (split; [apply Z.div_pos; lia|apply Z.div_le_upper_bound; lia]).
  assert (rows_ok font (usize_sub (height / 2) (f_height font * 2))) as Hly.
  { unfold usize_sub. destruct (Z.leb_spec (f_height font * 2) (height / 2)).
    - apply rows_ok_small; [done|lia].
    - apply rows_ok_wrapped; [done|done|lia]. }
  assert (∀ n, 0 <= n <= 64 → 0 <= Z.max 0 (width / 2 - n * f_width font / 2) ∧ Z.max 0 (width / 2 - n * f_width font / 2) < 2 ^ 33) as Hx.
  { intros n Hn. assert (0 <= n * f_width font / 2) by (apply Z.div_pos; nia). lia. }
  destruct (draw_string_safe font logo 0 (Z.max 0 (width / 2 - Z.of_nat (length logo) * f_width font * 2 / 2))
    (usize_sub (height / 2) (f_height font * 2)) b0) as (b1 & -> & Hl1); try done; try lia.
  { repeat constructor; lia. }
  { assert (0 <= Z.of_nat (length logo) * f_width font * 2 / 2) by (apply Z.div_pos; cbn; lia). cbn [length logo] in *. lia. }
  cbn [mbind option_bind].
  destruct (draw_string_safe font hint 0 (Z.max 0 (width / 2 - Z.of_nat (length hint) * f_width font / 2))
    (height / 2 + f_height font) b1) as (b2 & -> & Hl2); try done; try lia.
  { repeat constructor; lia. }
  { apply rows_ok_small; [done|lia]. }
  { specialize (Hx (Z.of_nat (length hint)) ltac:(cbn; lia)). cbn [length hint] in *. lia. }
  by exists b2.
Qed.
End picture.

(** ** The theorems *)

Lemma fallback_ok : font_ok fallback.
Proof. split; cbn [f_width f_height fallback]; [lia|lia|]. cbn [f_data fallback]. by rewrite length_replicate. Qed.

(** The kernel answers within the size asked for, 8 by 32. *)
Definition fontop_ok (op : ConsoleFontOp) : Prop :=
  0 <= fo_width op <= 8 ∧ 0 <= fo_height op <= 32 ∧ Z.of_nat (length (fo_data op)) = 256 * 32.

Lemma load_ok answers :
  (∀ op, Some op ∈ answers → fontop_ok op) → font_ok (load answers) ∧ f_width (load answers) <= 8.
Proof.
  induction answers as [|a answers IH]; intros Ha; cbn [load].
  - split; [apply fallback_ok|done].
  - destruct a as [op|]; cbn [load_from mbind option_bind]; [|apply IH; set_solver].
    destruct (Ha op) as (Hw & Hh & Hd); [set_solver|].
    destruct ((_ || _) || _) eqn:E; [apply IH; set_solver|]. zbool.
    split; [split; cbn; lia|cbn; lia].
Qed.

(** C11: rendering a terminal whose grid fits the framebuffer never writes
    outside it, and afterwards every visible pixel has the colour its cell and
    glyph give it: the foreground where the glyph is set, else the background
    of the cell, else the background of the screen. *)
Theorem render_exact t font fb :
  term_ok t → font_ok font →
  geometry (fb_pitch fb) (fb_width fb) (fb_height fb) (Z.of_nat (length (fb_buf fb))) →
  cols t * f_width font <= fb_width fb → rows t * f_height font <= fb_height fb →
  ∃ buf, render t (Some fb) font = Some (Some buf, set_dirty false t) ∧ length buf = length (fb_buf fb) ∧
    ∀ X Y, 0 <= X < fb_width fb → 0 <= Y < fb_height fb →
      read_range buf (Y * fb_pitch fb + X * 4) 4 = Some (px (screen_px t font X Y)).
Proof.
  intros Ht Hf Hg Hc Hr.
  destruct (render_pictures _ _ _ _ Hg t font Ht Hf Hc Hr fb) as (buf & Hrun & Hl & Hp); [done..|].
  exists buf. split; [done|]. split; [lia|]. intros X Y HX HY. by apply Hp.
Qed.

Lemma render_exact_witness :
  let fb := mk_fb (replicate (64 * 9) 0) 64 16 9 in
  ∃ buf, render (blank_term 2 1) (Some fb) fallback = Some (Some buf, set_dirty false (blank_term 2 1)) ∧
    length buf = length (fb_buf fb) ∧
    ∀ X Y, 0 <= X < 16 → 0 <= Y < 9 →
      read_range buf (Y * 64 + X * 4) 4 = Some (px (screen_px (blank_term 2 1) fallback X Y)).
Proof.
  intros fb. apply (render_exact (blank_term 2 1) fallback fb); [apply ok_new; lia|apply fallback_ok| |cbn; lia|cbn; lia].
  split; cbn; lia.
Defined.

(** Drawing the screensaver never panics, also on a display so low that
    the position of the logo wraps around. *)
Theorem screensaver_never_panics font fb :
  font_ok font → f_width font <= 64 → 8 <= fb_pitch fb → fb_width fb < 2 ^ 32 → fb_height fb < 2 ^ 30 →
  geometry (fb_pitch fb) (fb_width fb) (fb_height fb) (Z.of_nat (length (fb_buf fb))) →
  ∃ buf, render_screensaver (Some fb) font = Some (Some buf) ∧ length buf = length (fb_buf fb).
Proof.
  intros Hf Hfw Hp Hw Hh Hg.
  destruct (screensaver_safe _ _ _ _ Hg fb font) as (buf & Hrun & Hl); [done..|]. exists buf. split; [done|lia].
Qed.

Lemma screensaver_never_panics_witness :
  let fb := mk_fb (replicate (64 * 9) 0) 64 16 9 in
  ∃ buf, render_screensaver (Some fb) fallback = Some (Some buf) ∧ length buf = length (fb_buf fb).
Proof.
  intros fb. apply (screensaver_never_panics fallback fb); [apply fallback_ok|cbn; lia|cbn; lia|cbn; lia|cbn; lia|].
  split; cbn; lia.
Defined.

(** The bound [fill_cell] tests leaves out the column: in a row that is only
    partly in the buffer it writes past the end. *)
Lemma fill_cell_bound_ignores_column :
  fill_cell (replicate 20 0) 16 0 3 1 1 1 = None.
Proof. reflexivity. Qed.

(** A mode lower than the font: on a display of 136 by 7 pixels, whose buffer
    has a page, drawing a cell with a background panics. *)
Lemma low_mode_panics :
  render (set_cells (replicate 17 (mk_cell 32 None (Some 4))) (blank_term 17 1)) (Some (mk_fb (replicate 4096 0) 544 136 7)) fallback
  = None.
Proof. by vm_compute. Qed.
