(* ===== verification/K1Input.v ===== *)
(** * The keyboard of the K1OS console

    Models k1de/src/input.rs: an evdev event as the 24 bytes the kernel
    writes, the US layout of [base_char], and [Decoder::read_event], which
    turns events into the bytes for the shell. *)

From stdpp Require Import strings.
From S2P Require Import Prelude.
Open Scope Z_scope.

(** ** Data *)

Record InputEvent : Type := mk_event { ev_type : Z; code : Z; value : Z }.

(** [transmute] of the bytes: two [i64] of time, then type, code and value. *)
Definition event_of_bytes (raw : list Z) : InputEvent :=
  mk_event (le_combine (take 2 (drop 16 raw))) (le_combine (take 2 (drop 18 raw)))
    (i32 (le_combine (take 4 (drop 20 raw)))).
Definition bytes_of_event (tv_sec tv_usec : Z) (e : InputEvent) : list Z :=
  le_split 8 tv_sec ++ le_split 8 tv_usec ++ le_split 2 (ev_type e) ++ le_split 2 (code e) ++ le_split 4 (value e).

Definition EV_KEY : Z := 1.

Record Decoder : Type := mk_decoder { shift : bool; ctrl : bool }.
#[export] Instance decoder_eq_dec : EqDecision Decoder.
Proof. solve_decision. Defined.
Definition decoder_new : Decoder := mk_decoder false false.

(** ** The US layout *)

(** The unshifted and the shifted character of each key code. *)
Definition base_table : list (Z * (Z * Z)) :=
  [(2, (49, 33)); (3, (50, 64)); (4, (51, 35)); (5, (52, 36)); (6, (53, 37)); (7, (54, 94)); (8, (55, 38));
   (9, (56, 42)); (10, (57, 40)); (11, (48, 41)); (12, (45, 95)); (13, (61, 43)); (15, (9, 9));
   (16, (113, 81)); (17, (119, 87)); (18, (101, 69)); (19, (114, 82)); (20, (116, 84)); (21, (121, 89));
   (22, (117, 85)); (23, (105, 73)); (24, (111, 79)); (25, (112, 80)); (26, (91, 123)); (27, (93, 125));
   (28, (10, 10)); (30, (97, 65)); (31, (115, 83)); (32, (100, 68)); (33, (102, 70)); (34, (103, 71));
   (35, (104, 72)); (36, (106, 74)); (37, (107, 75)); (38, (108, 76)); (39, (59, 58)); (40, (39, 34));
   (41, (96, 126)); (43, (92, 124)); (44, (122, 90)); (45, (120, 88)); (46, (99, 67)); (47, (118, 86));
   (48, (98, 66)); (49, (110, 78)); (50, (109, 77)); (51, (44, 60)); (52, (46, 62)); (53, (47, 63));
   (57, (32, 32)); (96, (10, 10)); (14, (127, 127))].

Definition base_char (c : Z) : option (Z * Z) :=
  (λ e, e.2.2) <$> list_find (λ e, e.1 = c) base_table.

(** The escape sequences of the navigation keys. *)
Definition nav_seq (c : Z) : list Z :=
  if c =? 103 then [27; 91; 65]
  else if c =? 108 then [27; 91; 66]
  else if c =? 106 then [27; 91; 67]
  else if c =? 105 then [27; 91; 68]
  else if c =? 102 then [27; 91; 72]
  else if c =? 107 then [27; 91; 70]
  else if c =? 111 then [27; 91; 51; 126]
  else [].

Definition is_ascii_alphabetic (c : Z) : bool := (65 <=? c) && (c <=? 90) || (97 <=? c) && (c <=? 122).
Definition to_ascii_uppercase (c : Z) : Z := if (97 <=? c) && (c <=? 122) then c - 32 else c.

(** [read] is what the device gives: the bytes of an event, or an error. *)
Definition read_event (d : Decoder) (read : option (list Z)) : Decoder * option (list Z) :=
  match read with
  | None => (d, None)
  | Some raw =>
      let ev := event_of_bytes raw in
      if negb (ev_type ev =? EV_KEY) then (d, Some [])
      else
        let c := code ev in
        let down := negb (value ev =? 0) in
        if (c =? 42) || (c =? 54) then (mk_decoder down (ctrl d), Some [])
        else if (c =? 29) || (c =? 97) then (mk_decoder (shift d) down, Some [])
        else if negb down then (d, Some [])
        else
          match nav_seq c with
          | (_ :: _) as seq => (d, Some seq)
          | [] =>
              match base_char c with
              | Some (lo, hi) =>
                  let x := if shift d then hi else lo in
                  if ctrl d && is_ascii_alphabetic x
                  then (d, Some [to_ascii_uppercase x - 65 + 1])
                  else (d, Some [x])
              | None => (d, Some [])
              end
          end
  end.

(** A sequence of events and all the bytes they give. *)
Fixpoint read_events (d : Decoder) (evs : list (list Z)) : Decoder * list Z :=
  match evs with
  | [] => (d, [])
  | raw :: evs =>
      let '(d, o) := read_event d (Some raw) in
      let '(d, rest) := read_events d evs in
      (d, default [] o ++ rest)
  end.

(** ** Events *)

Definition event_ok (e : InputEvent) : Prop :=
  0 <= ev_type e < 2 ^ 16 ∧ 0 <= code e < 2 ^ 16 ∧ - 2 ^ 31 <= value e < 2 ^ 31.

Lemma drop_take_app {A} (a b c : list A) n k :
  length a = n → length b = k → take k (drop n (a ++ b ++ c)) = b.
Proof. intros <- <-. rewrite drop_app_length. apply take_app_length. Qed.

Lemma event_roundtrip s u e : event_ok e → event_of_bytes (bytes_of_event s u e) = e.
Proof.
  intros (Ht & Hc & Hv). unfold event_of_bytes, bytes_of_event. rewrite !app_assoc.
  pose proof length_le_split as Hl.
  rewrite <- !app_assoc.
  rewrite (app_assoc (le_split 8 s)), (drop_take_app _ (le_split 2 _)) by (rewrite ?length_app, !Hl; done).
  rewrite (app_assoc _ (le_split 2 (ev_type e))), (drop_take_app _ (le_split 2 (code e))) by (rewrite ?length_app, !Hl; done).
  rewrite (app_assoc _ (le_split 2 (code e))), drop_app_length' by (rewrite ?length_app, !Hl; done).
  rewrite take_ge by (rewrite Hl; done). rewrite !le_combine_split.
  change (8 * Z.of_nat 2) with 16. change (8 * Z.of_nat 4) with 32.
  rewrite !(Z.mod_small _ (2 ^ 16)) by lia. change (value e mod 2 ^ 32) with (u32 (value e)). rewrite i32_u32 by done.
  by destruct e.
Qed.

(** ** Typing *)

Definition key (c v : Z) : InputEvent := mk_event EV_KEY c v.
Definition tap (c : Z) : list InputEvent := [key c 1; key c 0].

(** The rows of a US keyboard: the code the kernel gives the first key of the
    row (KEY_1, KEY_Q, KEY_A, KEY_BACKSLASH; the codes count on from there),
    and the characters on the keys without and with Shift. *)
Definition chars (s : string) : list Z := (λ a, Z.of_N (Ascii.N_of_ascii a)) <$> String.list_ascii_of_string s.
Definition us_rows : list (Z * (list Z * list Z)) :=
  [(2, (chars "1234567890-=", chars "!@#$%^&*()_+"));
   (16, (chars "qwertyuiop[]", chars "QWERTYUIOP{}"));
   (30, (chars "asdfghjkl;'`", chars "ASDFGHJKL:" ++ [34] ++ chars "~"));
   (43, (chars "\zxcvbnm,./", chars "|ZXCVBNM<>?"))].
Definition KEY_TAB : Z := 15.
Definition KEY_ENTER : Z := 28.
Definition KEY_LEFTSHIFT : Z := 42.
Definition KEY_SPACE : Z := 57.

(** The key a character is on, and whether it needs Shift. *)
Fixpoint key_of (rows : list (Z * (list Z * list Z))) (c : Z) : option (Z * bool) :=
  match rows with
  | [] => None
  | (first, (plain, shifted)) :: rows =>
      match list_find (λ x, x = c) plain, list_find (λ x, x = c) shifted with
      | Some (i, _), _ => Some (first + Z.of_nat i, false)
      | None, Some (i, _) => Some (first + Z.of_nat i, true)
      | None, None => key_of rows c
      end
  end.

(** The key strokes for a character: its key, with the left Shift if needed. *)
Definition strokes (c : Z) : list InputEvent :=
  if c =? 32 then tap KEY_SPACE
  else if c =? 9 then tap KEY_TAB
  else if c =? 10 then tap KEY_ENTER
  else
    match key_of us_rows c with
    | Some (k, false) => tap k
    | Some (k, true) => key KEY_LEFTSHIFT 1 :: tap k ++ [key KEY_LEFTSHIFT 0]
    | None => []
    end.

(** What the kernel writes for the events, at whatever times they happen. *)
Definition written (evs : list InputEvent) (raws : list (list Z)) : Prop :=
  Forall2 (λ e raw, ∃ s u, raw = bytes_of_event s u e) evs raws.

Fixpoint decode_events (d : Decoder) (evs : list InputEvent) : Decoder * list Z :=
  match evs with
  | [] => (d, [])
  | e :: evs =>
      let '(d, o) := read_event d (Some (bytes_of_event 0 0 e)) in
      let '(d, rest) := decode_events d evs in
      (d, default [] o ++ rest)
  end.

Lemma read_written evs raws d :
  Forall event_ok evs → written evs raws → read_events d raws = decode_events d evs.
Proof.
  intros Hok Hw. revert d. induction Hw as [|e raw evs raws (s & u & ->) Hw IH]; intros d; [done|].
  apply Forall_cons in Hok as [He Hok]. cbn [read_events decode_events].
  assert (read_event d (Some (bytes_of_event s u e)) = read_event d (Some (bytes_of_event 0 0 e))) as ->.
  { unfold read_event. by rewrite !event_roundtrip. }
  destruct (read_event d _) as [d1 o]. by rewrite IH.
Qed.

Lemma decode_app d evs evs' :
  decode_events d (evs ++ evs') =
    let '(d1, bs) := decode_events d evs in let '(d2, bs') := decode_events d1 evs' in (d2, bs ++ bs').
Proof.
  revert d. induction evs as [|e evs IH]; intros d; cbn [app decode_events].
  - by destruct (decode_events d evs').
  - destruct (read_event d _) as [d1 o]. rewrite IH. destruct (decode_events d1 evs) as [d2 bs].
    destruct (decode_events d2 evs') as [d3 bs']. by rewrite app_assoc.
Qed.

Definition typeable (c : Z) : Prop := 32 <= c <= 126 ∨ c = 9 ∨ c = 10.

Lemma strokes_table :
  Forall (λ c, decode_events decoder_new (strokes c) = (decoder_new, [c]) ∧
    Forall (λ e, 0 <= ev_type e < 2 ^ 16 ∧ 0 <= code e < 2 ^ 16 ∧ - 2 ^ 31 <= value e < 2 ^ 31) (strokes c))
    (9 :: 10 :: seqZ 32 95).
Proof.
  apply (bool_decide_unpack _). vm_compute. exact I.
Qed.

Lemma strokes_ok c :
  typeable c → decode_events decoder_new (strokes c) = (decoder_new, [c]) ∧ Forall event_ok (strokes c).
Proof.
  intros Hc. pose proof strokes_table as Ht. rewrite Forall_forall in Ht. apply Ht.
  destruct Hc as [Hc|[->| ->]]; [|set_solver..]. do 2 (apply list_elem_of_further).
  apply elem_of_seqZ. lia.
Qed.

Lemma decode_typing text :
  Forall typeable text → decode_events decoder_new (concat (map strokes text)) = (decoder_new, text).
Proof.
  induction 1 as [|c text Hc Ht IH]; [done|]. cbn [map concat]. rewrite decode_app.
  destruct (strokes_ok c Hc) as [-> _]. by rewrite IH.
Qed.

(** C25: typing a text of printable characters, tabs and newlines on a US
    keyboard, whose keys have the kernel's codes row by row, with the left Shift
    where the character needs it, gives exactly that text, whenever the events
    happen; and every such character can be typed. *)
Theorem typing_roundtrip text raws :
  Forall typeable text → written (concat (map strokes text)) raws →
  read_events decoder_new raws = (decoder_new, text) ∧ Forall (λ c, strokes c ≠ []) text.
Proof.
  intros Ht Hw. split.
  - rewrite (read_written (concat (map strokes text))); [by apply decode_typing| |done].
    apply Forall_concat, Forall_map. eapply Forall_impl; [done|]. intros c Hc. by apply strokes_ok.
  - eapply Forall_impl; [done|]. intros c Hc E. destruct (strokes_ok c Hc) as [Hd _]. by rewrite E in Hd.
Qed.

Lemma typing_roundtrip_witness :
  read_events decoder_new (bytes_of_event 1 2 <$> concat (map strokes [75; 49; 33; 10])) = (decoder_new, [75; 49; 33; 10]) ∧
  Forall (λ c, strokes c ≠ []) [75; 49; 33; 10].
Proof.
  apply (typing_roundtrip [75; 49; 33; 10]).
  - repeat constructor; unfold typeable; lia.
  - unfold written. apply Forall2_fmap_r, Forall_Forall2_diag, Forall_forall. intros e _. by exists 1, 2.
Defined.

(** The release of one Shift key ends the shift of the other: with the right
    key still held the letter is not a capital. *)
Lemma shift_released_by_other_key :
  decode_events decoder_new [key 42 1; key 54 1; key 42 0; key 30 1] = (decoder_new, [97]).
Proof. reflexivity. Qed.

(** Keys that send nothing, such as F1, give no bytes when pressed. *)
Lemma function_key_silent : read_event decoder_new (Some (bytes_of_event 0 0 (key 59 1))) = (decoder_new, Some []).
Proof. reflexivity. Qed.
