(* ===== verification/K1Drm.v ===== *)
(** * The display of the K1OS console

    Models k1de/src/drm.rs: choosing a connector, probing it, choosing a crtc
    and a mode, scanning out a dumb buffer, tearing it down, and [refresh],
    which follows the mode of the display.  The ioctls of the kernel are a
    type class over a world [W]; an [io::Error] is its [errno]. *)

From S2P Require Import Prelude K1Color K1Term K1Render K1Pixels.
Open Scope Z_scope.

(** ** Data *)

(** The fields the program looks at; the others go back to the kernel as they
    came. *)
Record ModeInfo : Type := mk_modeinfo { hdisplay : Z; vdisplay : Z; mode_type : Z; mode_rest : list Z }.
Definition default_mode : ModeInfo := mk_modeinfo 0 0 0 [].

Definition DRM_MODE_TYPE_PREFERRED : Z := 8.
Definition DRM_MODE_CONNECTED : Z := 1.

(** What the ioctls return: counts, and what they write to the arrays. *)
Record CardRes : Type := mk_cardres {
  count_crtcs : nat; count_connectors : nat; crtc_ids : list Z; connector_ids : list Z
}.
Record GetConnector : Type := mk_getconnector {
  connection : Z; count_modes : nat; count_encoders : nat; encoder_id : Z;
  modes_out : list ModeInfo; encoders_out : list Z
}.
Record GetEncoder : Type := mk_getencoder { enc_crtc_id : Z; possible_crtcs : Z }.
Record CreateDumb : Type := mk_dumb { cd_handle : Z; cd_pitch : Z; cd_size : Z }.

Record Mode : Type := mk_mode { m_width : Z; m_height : Z }.
#[export] Instance mode_eq_dec : EqDecision Mode.
Proof. solve_decision. Defined.

Record ScanOut : Type := mk_scanout {
  so_fb_id : Z; so_handle : Z; so_map : Z; so_map_len : Z; so_pitch : Z; so_width : Z; so_height : Z
}.
Record Drm : Type := mk_drm { connector_id : Z; crtc_id : Z; scanout : option ScanOut }.
Definition set_scanout (s : option ScanOut) (d : Drm) : Drm := mk_drm (connector_id d) (crtc_id d) s.
Definition set_crtc (c : Z) (d : Drm) : Drm := mk_drm (connector_id d) c (scanout d).

(** ** Request numbers *)

Definition ioc (dir ty nr size : Z) : Z :=
  Z.lor (Z.lor (Z.lor (Z.shiftl dir 30) (Z.shiftl ty 8)) nr) (Z.shiftl size 16).
Definition iowr (nr size : Z) : Z := ioc (Z.lor 2 1) 0x64 nr size.
Definition io_ (nr : Z) : Z := ioc 0 0x64 nr 0.

(** The size of a [repr(C)] struct from the sizes and alignments of its fields. *)
Definition align_up (x a : Z) : Z := (x + a - 1) / a * a.
Definition sizeof_struct (fields : list (Z * Z)) : Z :=
  align_up (foldl (λ off f, align_up off f.2 + f.1) 0 fields) (foldl (λ m f, Z.max m f.2) 1 fields).
Definition f16 : Z * Z := (2, 2).
Definition f32 : Z * Z := (4, 4).
Definition f64 : Z * Z := (8, 8).
Definition sizeof_ModeInfo : Z :=
  sizeof_struct ([f32] ++ replicate 10 f16 ++ replicate 3 f32 ++ replicate 32 (1, 1)).
Definition DRM_IOCTL_MODE_GETRESOURCES : Z := iowr 0xA0 (sizeof_struct (replicate 4 f64 ++ replicate 8 f32)).
Definition DRM_IOCTL_MODE_GETENCODER : Z := iowr 0xA6 (sizeof_struct (replicate 5 f32)).
Definition DRM_IOCTL_MODE_GETCONNECTOR : Z := iowr 0xA7 (sizeof_struct (replicate 4 f64 ++ replicate 12 f32)).
Definition DRM_IOCTL_MODE_SETCRTC : Z := iowr 0xA2 (sizeof_struct ([f64] ++ replicate 7 f32 ++ [(sizeof_ModeInfo, 4)])).
Definition DRM_IOCTL_MODE_ADDFB : Z := iowr 0xAE (sizeof_struct (replicate 7 f32)).
Definition DRM_IOCTL_MODE_RMFB : Z := iowr 0xAF 4.
Definition DRM_IOCTL_MODE_DIRTYFB : Z := iowr 0xB1 (sizeof_struct (replicate 4 f32 ++ [f64])).
Definition DRM_IOCTL_MODE_CREATE_DUMB : Z := iowr 0xB2 (sizeof_struct (replicate 6 f32 ++ [f64])).
Definition DRM_IOCTL_MODE_MAP_DUMB : Z := iowr 0xB3 (sizeof_struct (replicate 2 f32 ++ [f64])).
Definition DRM_IOCTL_MODE_DESTROY_DUMB : Z := iowr 0xB4 (sizeof_struct [f32]).

(** They are the numbers of the kernel headers. *)
Lemma request_numbers :
  (io_ 0x1e, io_ 0x1f) = (0x641E, 0x641F) ∧ DRM_IOCTL_MODE_GETRESOURCES = 0xC04064A0 ∧
  DRM_IOCTL_MODE_SETCRTC = 0xC06864A2 ∧ DRM_IOCTL_MODE_GETENCODER = 0xC01464A6 ∧
  DRM_IOCTL_MODE_GETCONNECTOR = 0xC05064A7 ∧ DRM_IOCTL_MODE_ADDFB = 0xC01C64AE ∧ DRM_IOCTL_MODE_RMFB = 0xC00464AF ∧
  DRM_IOCTL_MODE_DIRTYFB = 0xC01864B1 ∧ DRM_IOCTL_MODE_CREATE_DUMB = 0xC02064B2 ∧
  DRM_IOCTL_MODE_MAP_DUMB = 0xC01064B3 ∧ DRM_IOCTL_MODE_DESTROY_DUMB = 0xC00464B4.
Proof. by vm_compute. Qed.

(** ** The kernel *)

(** The array capacities are arguments of the queries; an array is its
    contents after the call.  Results the program ignores are not returned. *)
Class OsDrm (W : Type) := {
  drm_getresources : nat → nat → W → cres CardRes * W;      (* crtcs, connectors *)
  drm_getconnector : Z → nat → nat → W → cres GetConnector * W;   (* modes, encoders *)
  drm_getencoder : Z → W → cres GetEncoder * W;
  drm_create_dumb : Z → Z → W → cres CreateDumb * W;
  drm_addfb : Z → Z → Z → Z → W → cres Z * W;               (* width, height, pitch, handle *)
  drm_map_dumb : Z → W → cres Z * W;
  drm_mmap : Z → Z → W → cres Z * W;                        (* length, offset *)
  drm_setcrtc : Z → Z → Z → ModeInfo → W → cres unit * W;   (* crtc, fb, connector *)
  drm_munmap : Z → Z → W → W;
  drm_rmfb : Z → W → W;
  drm_destroy_dumb : Z → W → W;
  drm_mem : Z → W → list Z;                                 (* the bytes mapped at an address *)
  drm_store : Z → list Z → W → W
}.

(** An array of [n] elements of which the kernel wrote a prefix. *)
Definition array_of {A} (n : nat) (d : A) (out : list A) : list A := take n (out ++ replicate n d).

Section drm.
Context {W : Type} {OD : OsDrm W}.

Definition probe_connector (id : Z) (w : W) : cres (bool * list ModeInfo) * W :=
  let '(r, w) := drm_getconnector id 0 0 w in
  match r with
  | Fail e => (Fail e, w)
  | Ret gc =>
      let connected := connection gc =? DRM_MODE_CONNECTED in
      let n_modes := count_modes gc in
      if decide (n_modes = 0%nat) then (Ret (connected, []), w)
      else
        let '(r, w) := drm_getconnector id n_modes (count_encoders gc) w in
        match r with
        | Fail e => (Fail e, w)
        | Ret gc2 => (Ret (connection gc2 =? DRM_MODE_CONNECTED, array_of n_modes default_mode (modes_out gc2)), w)
        end
  end.

Fixpoint find_loop (ids : list Z) (fallback : Z) (w : W) : Z * W :=
  match ids with
  | [] => (fallback, w)
  | id :: ids =>
      let '(r, w) := probe_connector id w in
      match r with
      | Ret (true, _) => (id, w)
      | _ => find_loop ids id w
      end
  end.

Definition find_connector (w : W) : cres Z * W :=
  let '(r, w) := drm_getresources 0 0 w in
  match r with
  | Fail e => (Fail e, w)
  | Ret res =>
      let count := count_connectors res in
      if decide (count = 0%nat) then (Fail EOTHER, w)
      else
        let '(r, w) := drm_getresources 0 count w in
        match r with
        | Fail e => (Fail e, w)
        | Ret res2 =>
            let ids := array_of count 0 (connector_ids res2) in
            let '(id, w) := find_loop ids (default 0 (head ids)) w in (Ret id, w)
        end
  end.

(** The first crtc whose bit is set; [1 << i] of an [u32] in the release build. *)
Fixpoint first_crtc (i : Z) (ids : list Z) (possible : Z) : option Z :=
  match ids with
  | [] => None
  | id :: ids => if negb (Z.land possible (2 ^ (i mod 32)) =? 0) then Some id else first_crtc (i + 1) ids possible
  end.

Fixpoint encoder_loop (encs crtcs : list Z) (w : W) : cres Z * W :=
  match encs with
  | [] => (Fail EOTHER, w)
  | enc :: encs =>
      if enc =? 0 then encoder_loop encs crtcs w
      else
        let '(r, w) := drm_getencoder enc w in
        match r with
        | Fail _ => encoder_loop encs crtcs w
        | Ret ge =>
            if negb (enc_crtc_id ge =? 0) then (Ret (enc_crtc_id ge), w)
            else match first_crtc 0 crtcs (possible_crtcs ge) with
                 | Some id => (Ret id, w)
                 | None => encoder_loop encs crtcs w
                 end
        end
  end.

Definition resolve_crtc (id : Z) (w : W) : cres Z * W :=
  let '(r, w) := drm_getconnector id 0 0 w in
  match r with
  | Fail e => (Fail e, w)
  | Ret gc =>
      let '(r, w) := drm_getconnector id 0 (count_encoders gc) w in
      match r with
      | Fail e => (Fail e, w)
      | Ret gc2 =>
          let '(r, w) := drm_getresources 0 0 w in
          match r with
          | Fail e => (Fail e, w)
          | Ret res =>
              let '(r, w) := drm_getresources (count_crtcs res) 0 w in
              match r with
              | Fail e => (Fail e, w)
              | Ret res2 =>
                  encoder_loop (array_of (count_encoders gc) 0 (encoders_out gc2) ++ [encoder_id gc2])
                    (array_of (count_crtcs res) 0 (crtc_ids res2)) w
              end
          end
      end
  end.

Definition area (m : ModeInfo) : Z := hdisplay m * vdisplay m.

(** [max_by_key] returns the last of the greatest elements. *)
Fixpoint max_by_area (best : ModeInfo) (ms : list ModeInfo) : ModeInfo :=
  match ms with
  | [] => best
  | m :: ms => max_by_area (if area best <=? area m then m else best) ms
  end.

Definition pick_mode (ms : list ModeInfo) : option ModeInfo :=
  match list_find (λ m, Z.land (mode_type m) DRM_MODE_TYPE_PREFERRED ≠ 0) ms with
  | Some (_, m) => Some m
  | None => match ms with [] => None | m :: ms => Some (max_by_area m ms) end
  end.

Definition scanout_mode (d : Drm) (mode : ModeInfo) (w : W) : cres unit * Drm * W :=
  let width := hdisplay mode in
  let height := vdisplay mode in
  let '(r, w) := drm_create_dumb width height w in
  match r with
  | Fail e => (Fail e, d, w)
  | Ret cd =>
      let '(r, w) := drm_addfb width height (cd_pitch cd) (cd_handle cd) w in
      match r with
      | Fail e => (Fail e, d, drm_destroy_dumb (cd_handle cd) w)
      | Ret fb_id =>
          let '(r, w) := drm_map_dumb (cd_handle cd) w in
          match r with
          | Fail e => (Fail e, d, w)
          | Ret offset =>
              let '(r, w) := drm_mmap (cd_size cd) offset w in
              match r with
              | Fail e => (Fail e, d, drm_destroy_dumb (cd_handle cd) w)
              | Ret map =>
                  let w := drm_store map (replicate (Z.to_nat (cd_size cd)) 0) w in
                  let '(r, w) := drm_setcrtc (crtc_id d) fb_id (connector_id d) mode w in
                  match r with
                  | Fail e => (Fail e, d, w)
                  | Ret _ =>
                      (Ret tt, set_scanout (Some (mk_scanout fb_id (cd_handle cd) map (cd_size cd) (cd_pitch cd) width height)) d, w)
                  end
              end
          end
      end
  end.

Definition teardown_scanout (d : Drm) (w : W) : Drm * W :=
  match scanout d with
  | None => (d, w)
  | Some so =>
      (set_scanout None d, drm_destroy_dumb (so_handle so) (drm_rmfb (so_fb_id so) (drm_munmap (so_map so) (so_map_len so) w)))
  end.

(** [None] is the panic of [expect]. *)
Definition refresh (d : Drm) (w : W) : option (cres (option Mode) * Drm * W) :=
  let '(r, w) := probe_connector (connector_id d) w in
  match r with
  | Fail e => Some (Fail e, d, w)
  | Ret (connected, modes) =>
      if negb connected || bool_decide (modes = []) then
        let '(d, w) := teardown_scanout d w in Some (Ret None, d, w)
      else
        mode ← pick_mode modes;
        let m := mk_mode (hdisplay mode) (vdisplay mode) in
        if match scanout d with
           | Some so => (so_width so =? m_width m) && (so_height so =? m_height m)
           | None => false
           end
        then Some (Ret (Some m), d, w)
        else
          let '(r, w) := resolve_crtc (connector_id d) w in
          match r with
          | Fail e => Some (Fail e, d, w)
          | Ret crtc =>
              let '(d, w) := teardown_scanout (set_crtc crtc d) w in
              let '(r, d, w) := scanout_mode d mode w in
              match r with
              | Fail e => Some (Fail e, d, w)
              | Ret _ => Some (Ret (Some m), d, w)
              end
          end
  end.

(** [Drm::open] once the card is open; becoming master is best effort. *)
Definition drm_open (w : W) : cres Drm * W :=
  let '(r, w) := find_connector w in
  match r with Fail e => (Fail e, w) | Ret id => (Ret (mk_drm id 0 None), w) end.

(** [Drm::framebuffer]: the mapped bytes with their geometry. *)
Definition drm_framebuffer (d : Drm) (w : W) : option framebuffer :=
  so ← scanout d; Some (mk_fb (drm_mem (so_map so) w) (so_pitch so) (so_width so) (so_height so)).
End drm.

(** ** What the kernel promises *)

(** The objects of the kernel the program has: buffer handles, framebuffers
    and mappings. *)
Record objects : Type := mk_objects { o_handles : gset Z; o_fbs : gset Z; o_maps : gset Z }.
Definition no_objects : objects := mk_objects ∅ ∅ ∅.
Definition add_handle (h : Z) (o : objects) : objects := mk_objects ({[h]} ∪ o_handles o) (o_fbs o) (o_maps o).
Definition add_fb (f : Z) (o : objects) : objects := mk_objects (o_handles o) ({[f]} ∪ o_fbs o) (o_maps o).
Definition add_map (m : Z) (o : objects) : objects := mk_objects (o_handles o) (o_fbs o) ({[m]} ∪ o_maps o).
Definition del_handle (h : Z) (o : objects) : objects := mk_objects (o_handles o ∖ {[h]}) (o_fbs o) (o_maps o).
Definition del_fb (f : Z) (o : objects) : objects := mk_objects (o_handles o) (o_fbs o ∖ {[f]}) (o_maps o).
Definition del_map (m : Z) (o : objects) : objects := mk_objects (o_handles o) (o_fbs o) (o_maps o ∖ {[m]}).

(** The fields of a mode are 16-bit numbers. *)
Definition mode_ok (m : ModeInfo) : Prop := 0 <= hdisplay m < 2 ^ 16 ∧ 0 <= vdisplay m < 2 ^ 16.

Class OsDrmLaws (W : Type) {OD : OsDrm W} := {
  drm_objects : W → objects;
  getresources_objects n m w : drm_objects (drm_getresources n m w).2 = drm_objects w;
  getconnector_objects id n m w : drm_objects (drm_getconnector id n m w).2 = drm_objects w;
  getconnector_modes id n m w gc : (drm_getconnector id n m w).1 = Ret gc → Forall mode_ok (modes_out gc);
  getencoder_objects id w : drm_objects (drm_getencoder id w).2 = drm_objects w;
  (* a dumb buffer has room for the picture, with a pitch of at least four bytes per pixel *)
  create_dumb_spec width height w :
    match drm_create_dumb width height w with
    | (Fail _, w') => drm_objects w' = drm_objects w
    | (Ret cd, w') => drm_objects w' = add_handle (cd_handle cd) (drm_objects w) ∧ cd_handle cd ∉ o_handles (drm_objects w) ∧
        0 < width ∧ 0 < height ∧ geometry (cd_pitch cd) width height (cd_size cd)
    end;
  addfb_spec width height pitch handle w :
    match drm_addfb width height pitch handle w with
    | (Fail _, w') => drm_objects w' = drm_objects w
    | (Ret fb, w') => drm_objects w' = add_fb fb (drm_objects w) ∧ fb ∉ o_fbs (drm_objects w)
    end;
  map_dumb_objects handle w : drm_objects (drm_map_dumb handle w).2 = drm_objects w;
  mmap_spec length_ offset w :
    match drm_mmap length_ offset w with
    | (Fail _, w') => drm_objects w' = drm_objects w
    | (Ret m, w') => drm_objects w' = add_map m (drm_objects w) ∧ m ∉ o_maps (drm_objects w)
    end;
  setcrtc_objects crtc fb conn mode w : drm_objects (drm_setcrtc crtc fb conn mode w).2 = drm_objects w;
  munmap_objects m l w : drm_objects (drm_munmap m l w) = del_map m (drm_objects w);
  rmfb_objects f w : drm_objects (drm_rmfb f w) = del_fb f (drm_objects w);
  destroy_objects h w : drm_objects (drm_destroy_dumb h w) = del_handle h (drm_objects w);
  store_objects m bs w : drm_objects (drm_store m bs w) = drm_objects w;
  (* memory keeps its contents until it is written; the queries do not write it *)
  mem_store m bs w : drm_mem m (drm_store m bs w) = bs;
  mem_getresources m n k w : drm_mem m (drm_getresources n k w).2 = drm_mem m w;
  mem_getconnector m id n k w : drm_mem m (drm_getconnector id n k w).2 = drm_mem m w;
  mem_getencoder m id w : drm_mem m (drm_getencoder id w).2 = drm_mem m w;
  mem_setcrtc m crtc fb conn mode w : drm_mem m (drm_setcrtc crtc fb conn mode w).2 = drm_mem m w
}.

Section laws.
Context {W : Type} {OD : OsDrm W} {OL : OsDrmLaws W}.

(** ** Queries change nothing *)

Definition same_world (w w' : W) : Prop :=
  drm_objects w' = drm_objects w ∧ ∀ m, drm_mem m w' = drm_mem m w.

Lemma same_world_refl w : same_world w w.
Proof. done. Qed.

Lemma same_world_trans w1 w2 w3 : same_world w1 w2 → same_world w2 w3 → same_world w1 w3.
Proof. intros [A1 B1] [A2 B2]. split; [congruence|]. intros m. by rewrite B2. Qed.

Lemma getconnector_same id n m w : same_world w (drm_getconnector id n m w).2.
Proof. split; [apply getconnector_objects|intros k; apply mem_getconnector]. Qed.
Lemma getresources_same n m w : same_world w (drm_getresources n m w).2.
Proof. split; [apply getresources_objects|intros k; apply mem_getresources]. Qed.
Lemma getencoder_same id w : same_world w (drm_getencoder id w).2.
Proof. split; [apply getencoder_objects|intros k; apply mem_getencoder]. Qed.


Lemma array_of_forall {A} (P : A → Prop) n d out : P d → Forall P out → Forall P (array_of n d out).
Proof. intros Hd Ho. unfold array_of. apply Forall_take, Forall_app. split; [done|by apply Forall_replicate]. Qed.

Lemma probe_spec id w :
  same_world w (probe_connector id w).2 ∧
  ∀ c ms, (probe_connector id w).1 = Ret (c, ms) → Forall mode_ok ms.
Proof.
  unfold probe_connector. pose proof (getconnector_same id 0 0 w) as H1.
  destruct (drm_getconnector id 0 0 w) as [[gc|e] w1]; cbn [fst snd] in H1; [|done].
  case_decide; [split; [done|]; intros c ms [= <- <-]; constructor|].
  pose proof (getconnector_same id (count_modes gc) (count_encoders gc) w1) as H2.
  pose proof (getconnector_modes id (count_modes gc) (count_encoders gc) w1) as Hm.
  destruct (drm_getconnector id (count_modes gc) (count_encoders gc) w1) as [[gc2|e] w2]; cbn [fst snd] in *.
  - split; [by eapply same_world_trans|]. intros c ms [= <- <-]. apply array_of_forall; [|by apply Hm].
    unfold mode_ok. cbn. lia.
  - split; [by eapply same_world_trans|done].
Qed.

Lemma encoder_loop_same encs crtcs w : same_world w (encoder_loop encs crtcs w).2.
Proof.
  revert w. induction encs as [|enc encs IH]; intros w; cbn [encoder_loop]; [done|]. case_step; [apply IH|].
  pose proof (getencoder_same enc w) as H1. destruct (drm_getencoder enc w) as [[ge|e] w1]; cbn [fst snd] in H1.
  - repeat case_step; try done. eapply same_world_trans; [done|apply IH].
  - eapply same_world_trans; [done|apply IH].
Qed.

Lemma resolve_same id w : same_world w (resolve_crtc id w).2.
Proof.
  unfold resolve_crtc. pose proof (getconnector_same id 0 0 w) as H1.
  destruct (drm_getconnector id 0 0 w) as [[gc|e] w1]; cbn [fst snd] in H1; [|done].
  pose proof (getconnector_same id 0 (count_encoders gc) w1) as H2.
  destruct (drm_getconnector id 0 (count_encoders gc) w1) as [[gc2|e] w2]; cbn [fst snd] in H2;
    pose proof (same_world_trans _ _ _ H1 H2) as H12; [|done].
  pose proof (getresources_same 0 0 w2) as H3.
  destruct (drm_getresources 0 0 w2) as [[res|e] w3]; cbn [fst snd] in H3; pose proof (same_world_trans _ _ _ H12 H3) as H13; [|done].
  pose proof (getresources_same (count_crtcs res) 0 w3) as H4.
  destruct (drm_getresources (count_crtcs res) 0 w3) as [[res2|e] w4]; cbn [fst snd] in H4;
    pose proof (same_world_trans _ _ _ H13 H4) as H14; [|done].
  eapply same_world_trans; [exact H14|apply encoder_loop_same].
Qed.

(** ** The objects of a scanout *)

Definition owned (R : objects) (d : Drm) : objects :=
  match scanout d with
  | None => R
  | Some so => add_map (so_map so) (add_fb (so_fb_id so) (add_handle (so_handle so) R))
  end.

(** The program has the objects of its scanout and, from others, [R]. *)
Record drm_inv (R : objects) (d : Drm) (w : W) : Prop := mk_drm_inv {
  di_objects : drm_objects w = owned R d;
  di_scanout : ∀ so, scanout d = Some so →
    so_handle so ∉ o_handles R ∧ so_fb_id so ∉ o_fbs R ∧ so_map so ∉ o_maps R ∧
    0 < so_width so < 2 ^ 16 ∧ 0 < so_height so < 2 ^ 16 ∧
    geometry (so_pitch so) (so_width so) (so_height so) (Z.of_nat (length (drm_mem (so_map so) w)))
}.

Lemma drm_inv_same R d w w' : same_world w w' → drm_inv R d w → drm_inv R d w'.
Proof. intros [Ho Hm] [Hi Hs]. split; [congruence|]. intros so Hso. rewrite Hm. by apply Hs. Qed.

Lemma del_all R h f m :
  h ∉ o_handles R → f ∉ o_fbs R → m ∉ o_maps R →
  del_handle h (del_fb f (del_map m (add_map m (add_fb f (add_handle h R))))) = R.
Proof.
  intros Hh Hf Hm. destruct R as [hs fs ms]. unfold del_handle, del_fb, del_map, add_map, add_fb, add_handle. cbn in *.
  f_equal; set_solver.
Qed.

Lemma teardown_spec R d w :
  drm_inv R d w → ∃ w', teardown_scanout d w = (set_scanout None d, w') ∧ drm_inv R (set_scanout None d) w'.
Proof.
  intros [Ho Hs]. unfold teardown_scanout. destruct (scanout d) as [so|] eqn:Eso.
  - eexists. split; [done|]. split; [|done]. rewrite destroy_objects, rmfb_objects, munmap_objects, Ho. unfold owned. rewrite Eso. cbn.
    destruct (Hs so eq_refl) as (H1 & H2 & H3 & _). by apply del_all.
  - exists w. split; [unfold set_scanout; destruct d; cbn in *; congruence|]. split; [|done]. rewrite Ho. unfold owned. by rewrite Eso.
Qed.

(** ** Scanning out a mode *)

(** What a failed [scanout_mode] leaves behind. *)
Inductive leftover (R : objects) : objects → Prop :=
  | left_nothing : leftover R R
  | left_fb f : leftover R (add_fb f R)
  | left_buffer h f : leftover R (add_fb f (add_handle h R))
  | left_mapping h f m : leftover R (add_map m (add_fb f (add_handle h R))).

Lemma del_add_handle h f R : h ∉ o_handles R → del_handle h (add_fb f (add_handle h R)) = add_fb f R.
Proof.
  intros Hh. destruct R as [hs fs ms]. unfold del_handle, add_fb, add_handle. cbn in *. f_equal. set_solver.
Qed.

Lemma del_add_handle' h R : h ∉ o_handles R → del_handle h (add_handle h R) = R.
Proof. intros Hh. destruct R as [hs fs ms]. unfold del_handle, add_handle. cbn in *. f_equal. set_solver. Qed.

Lemma scanout_mode_spec R d mode w :
  scanout d = None → drm_objects w = R → mode_ok mode →
  match scanout_mode d mode w with
  | (Ret _, d', w') => drm_inv R d' w' ∧ connector_id d' = connector_id d ∧
      ∃ so, scanout d' = Some so ∧ so_width so = hdisplay mode ∧ so_height so = vdisplay mode
  | (Fail _, d', w') => d' = d ∧ leftover R (drm_objects w')
  end.
Proof.
  intros Hd Ho [Hh Hv]. unfold scanout_mode.
  pose proof (create_dumb_spec (hdisplay mode) (vdisplay mode) w) as H1.
  destruct (drm_create_dumb _ _ w) as [[cd|e] w1]; [|split; [done|]; rewrite H1, Ho; constructor].
  destruct H1 as (O1 & F1 & Hw & Hhh & Hgeo). rewrite Ho in O1, F1.
  pose proof (addfb_spec (hdisplay mode) (vdisplay mode) (cd_pitch cd) (cd_handle cd) w1) as H2.
  destruct (drm_addfb _ _ _ _ w1) as [[fb|e] w2].
  2:{ split; [done|]. rewrite destroy_objects, H2, O1, del_add_handle' by done. constructor. }
  destruct H2 as (O2 & F2). rewrite O1 in O2, F2.
  pose proof (map_dumb_objects (cd_handle cd) w2) as O3.
  destruct (drm_map_dumb _ w2) as [[offset|e] w3]; cbn [snd] in O3; [|split; [done|]; rewrite O3, O2; constructor].
  pose proof (mmap_spec (cd_size cd) offset w3) as H4.
  destruct (drm_mmap _ _ w3) as [[map|e] w4].
  2:{ split; [done|]. rewrite destroy_objects, H4, O3, O2, del_add_handle by done. constructor. }
  destruct H4 as (O4 & F4). rewrite O3, O2 in O4, F4.
  set (w5 := drm_store map _ w4).
  pose proof (setcrtc_objects (crtc_id d) fb (connector_id d) mode w5) as O6.
  pose proof (mem_setcrtc map (crtc_id d) fb (connector_id d) mode w5) as M6.
  destruct (drm_setcrtc _ _ _ _ w5) as [[[]|e] w6]; cbn [snd] in O6, M6; unfold w5 in O6, M6; rewrite store_objects, O4 in O6.
  - split; [|split; [done|eexists; split; [done|done]]]. split; [done|]. intros so [= <-]. cbn.
    rewrite M6, mem_store, length_replicate. cbn in F2, F4. pose proof (geo_size _ _ _ _ Hgeo).
    assert (0 <= cd_size cd) by (destruct Hgeo; nia). rewrite Z2Nat.id by done. repeat split; try done; try lia; apply Hgeo.
  - split; [done|]. rewrite O6. constructor.
Qed.

(** ** Choosing a mode *)

Lemma max_by_area_spec best ms :
  max_by_area best ms ∈ best :: ms ∧ Forall (λ m, area m <= area (max_by_area best ms)) (best :: ms).
Proof.
  revert best. induction ms as [|m ms IH]; intros best; cbn [max_by_area].
  - split; [left|by repeat constructor].
  - destruct (Z.leb_spec (area best) (area m)) as [Hle|Hgt]; [destruct (IH m) as [Hin Hall]|destruct (IH best) as [Hin Hall]].
    + split; [set_solver|]. apply Forall_cons in Hall as [Hm Hall]. repeat constructor; [lia|done|done].
    + split; [set_solver|]. apply Forall_cons in Hall as [Hm Hall]. repeat constructor; [done|lia|done].
Qed.

Lemma pick_mode_spec ms :
  ms ≠ [] → ∃ m, pick_mode ms = Some m ∧ m ∈ ms ∧
    (Z.land (mode_type m) DRM_MODE_TYPE_PREFERRED ≠ 0 ∨ Forall (λ x, area x <= area m) ms).
Proof.
  intros Hne. unfold pick_mode. destruct (list_find _ ms) as [[i m]|] eqn:E.
  - apply list_find_Some in E as (Hl & Hp & _). exists m. split; [done|]. split; [by eapply list_elem_of_lookup_2|by left].
  - destruct ms as [|m ms]; [done|]. destruct (max_by_area_spec m ms) as [Hin Hall]. eexists. split; [done|]. split; [done|by right].
Qed.

(** ** Refreshing *)

Lemma refresh_spec R d w :
  drm_inv R d w →
  ∃ r d' w', refresh d w = Some (r, d', w') ∧
    match r with
    | Ret None => scanout d' = None ∧ drm_inv R d' w'
    | Ret (Some m) => drm_inv R d' w' ∧
        ∃ so, scanout d' = Some so ∧ m = mk_mode (so_width so) (so_height so)
    | Fail _ => (scanout d' = scanout d ∧ drm_inv R d' w') ∨ (scanout d' = None ∧ leftover R (drm_objects w'))
    end.
Proof.
  intros Hinv. unfold refresh. destruct (probe_spec (connector_id d) w) as [Hsame Hmodes].
  destruct (probe_connector (connector_id d) w) as [[[connected ms]|e] w1]; cbn [fst snd] in *.
  2:{ do 3 eexists. split; [done|]. left. split; [done|]. by eapply drm_inv_same. }
  pose proof (drm_inv_same _ _ _ _ Hsame Hinv) as Hinv1. case_step.
  { destruct (teardown_spec R d w1 Hinv1) as (w2 & -> & Hinv2). do 3 eexists. split; [done|]. by split. }
  zbool. match goal with H : bool_decide _ = false |- _ => apply bool_decide_eq_false_1 in H as Hne end.
  destruct (pick_mode_spec ms Hne) as (mode & -> & Hin & _). cbn [mbind option_bind].
  assert (mode_ok mode) as Hmode by (by eapply Forall_forall; [eapply Hmodes|]).
  case_step.
  { destruct (scanout d) as [so|] eqn:Eso; [|done]. zbool. do 3 eexists. split; [done|]. split; [done|]. exists so.
    split; [done|]. cbn in *. congruence. }
  pose proof (resolve_same (connector_id d) w1) as Hsame2.
  destruct (resolve_crtc (connector_id d) w1) as [[crtc|e] w2]; cbn [fst snd] in *; pose proof (drm_inv_same _ _ _ _ Hsame2 Hinv1) as Hinv2.
  2:{ do 3 eexists. split; [done|]. by left. }
  destruct (teardown_spec R (set_crtc crtc d) w2) as (w3 & -> & Hinv3); [by destruct Hinv2; split|].
  pose proof (scanout_mode_spec R (set_scanout None (set_crtc crtc d)) mode w3 eq_refl (di_objects _ _ _ Hinv3) Hmode) as Hsm.
  destruct (scanout_mode _ mode w3) as [[[[]|e] d4] w4].
  - destruct Hsm as (Hinv4 & _ & so & Hso & Ew & Eh). do 3 eexists. split; [done|]. split; [done|]. exists so.
    split; [done|]. by rewrite Ew, Eh.
  - destruct Hsm as (-> & Hl). do 3 eexists. split; [done|]. right. split; [done|done].
Qed.
End laws.

(** ** A simulated card *)

Record card : Type := mk_card {
  c_objects : objects; c_mem : gmap Z (list Z); c_connectors : list (Z * bool * list ModeInfo); c_setcrtc_fails : bool
}.
Definition c_set_objects (o : objects) (w : card) : card := mk_card o (c_mem w) (c_connectors w) (c_setcrtc_fails w).
Definition c_set_mem (m : gmap Z (list Z)) (w : card) : card := mk_card (c_objects w) m (c_connectors w) (c_setcrtc_fails w).

Definition unused (X : gset Z) : Z := foldr Z.max 0 (elements X) + 1.

Lemma unused_not_in X : unused X ∉ X.
Proof.
  intros Hin. apply elem_of_elements in Hin. unfold unused in Hin. revert Hin. generalize (elements X). intros l Hin.
  assert (∀ x, x ∈ l → x <= foldr Z.max 0 l) as Hmax; [|specialize (Hmax _ Hin); lia].
  clear Hin. induction l as [|y l IH]; intros x Hx; [by apply elem_of_nil in Hx|]. cbn.
  apply elem_of_cons in Hx as [->|Hx]; [lia|]. specialize (IH x Hx). lia.
Qed.

Definition sized (m : ModeInfo) : bool :=
  (8 <=? hdisplay m) && (hdisplay m <? 2 ^ 16) && (8 <=? vdisplay m) && (vdisplay m <? 2 ^ 16).

#[export] Instance card_drm : OsDrm card := {
  drm_getresources nc nn w :=
    (Ret (mk_cardres 1 (length (c_connectors w)) (take nc [1]) (take nn ((λ c, c.1.1) <$> c_connectors w))), w);
  drm_getconnector id nm ne w :=
    match list_find (λ c, c.1.1 = id) (c_connectors w) with
    | None => (Fail EINVAL, w)
    | Some (_, (_, conn, ms)) =>
        let ms := List.filter sized ms in
        (Ret (mk_getconnector (if conn : bool then 1 else 2) (length ms) 1 7
               (if decide (length ms <= nm)%nat then ms else []) (take ne [7])), w)
    end;
  drm_getencoder id w := (Ret (mk_getencoder 0 1), w);
  drm_create_dumb width height w :=
    if (0 <? width) && (width <? 2 ^ 16) && (0 <? height) && (height <? 2 ^ 16) then
      let h := unused (o_handles (c_objects w)) in
      (Ret (mk_dumb h (4 * width) (4 * width * height)), c_set_objects (add_handle h (c_objects w)) w)
    else (Fail EINVAL, w);
  drm_addfb width height pitch handle w :=
    let f := unused (o_fbs (c_objects w)) in (Ret f, c_set_objects (add_fb f (c_objects w)) w);
  drm_map_dumb handle w := (Ret 0, w);
  drm_mmap length_ offset w :=
    let m := unused (o_maps (c_objects w)) in (Ret m, c_set_objects (add_map m (c_objects w)) w);
  drm_setcrtc crtc fb conn mode w := (if c_setcrtc_fails w then Fail EINVAL else Ret tt, w);
  drm_munmap m l w := c_set_objects (del_map m (c_objects w)) w;
  drm_rmfb f w := c_set_objects (del_fb f (c_objects w)) w;
  drm_destroy_dumb h w := c_set_objects (del_handle h (c_objects w)) w;
  drm_mem m w := default [] (c_mem w !! m);
  drm_store m bs w := c_set_mem (<[m := bs]> (c_mem w)) w
}.

Lemma filter_sized ms : Forall mode_ok (List.filter sized ms).
Proof.
  induction ms as [|m ms IH]; [constructor|]. cbn [List.filter]. destruct (sized m) eqn:E; [|done].
  constructor; [|done]. unfold sized in E. unfold mode_ok. zbool. lia.
Qed.

#[export] Program Instance card_laws : OsDrmLaws card := { drm_objects := c_objects }.
Next Obligation. done. Qed.
Next Obligation. intros id n m w. cbn. by destruct (list_find _ _) as [[? [[]]]|]. Qed.
Next Obligation.
  intros id n m w gc. cbn. destruct (list_find _ _) as [[? [[? conn] ms]]|]; [|done]. intros [= <-]. cbn [modes_out].
  case_decide; [apply filter_sized|constructor].
Qed.
Next Obligation. done. Qed.
Next Obligation.
  intros width height w. unfold drm_create_dumb, card_drm. destruct (_ && _) eqn:E; [|done]. zbool. split; [done|]. split; [apply unused_not_in|].
  split; [done|]. split; [done|]. split; cbn [cd_pitch cd_size]; nia.
Qed.
Next Obligation. intros width height pitch handle w. cbn. split; [done|apply unused_not_in]. Qed.
Next Obligation. done. Qed.
Next Obligation. intros l o w. cbn. split; [done|apply unused_not_in]. Qed.
Next Obligation. done. Qed.
Next Obligation. done. Qed.
Next Obligation. done. Qed.
Next Obligation. done. Qed.
Next Obligation. done. Qed.
Next Obligation. intros m bs w. cbn. by rewrite lookup_insert_eq. Qed.
Next Obligation. done. Qed.
Next Obligation. intros m id n k w. cbn. by destruct (list_find _ _) as [[? [[]]]|]. Qed.
Next Obligation. done. Qed.
Next Obligation. done. Qed.

(** ** The theorems *)

(** C23: after a successful refresh the program holds exactly one scanout, of
    the size it reports, and no other kernel objects; with no display it holds
    none.  A failed refresh either changes nothing, or ends with no scanout and
    possibly with objects left behind. *)
Theorem refresh_follows_display {W} {OD : OsDrm W} {OL : OsDrmLaws W} R d w :
  drm_inv R d w →
  ∃ r d' w', refresh d w = Some (r, d', w') ∧
    match r with
    | Ret None => scanout d' = None ∧ drm_inv R d' w'
    | Ret (Some m) => drm_inv R d' w' ∧
        ∃ so, scanout d' = Some so ∧ m = mk_mode (so_width so) (so_height so)
    | Fail _ => (scanout d' = scanout d ∧ drm_inv R d' w') ∨ (scanout d' = None ∧ leftover R (drm_objects w'))
    end.
Proof. apply refresh_spec. Qed.

Definition demo_mode : ModeInfo := mk_modeinfo 16 9 8 [].
Definition demo_card (fails : bool) : card := mk_card no_objects ∅ [(3, true, [demo_mode])] fails.

Lemma refresh_follows_display_witness :
  ∃ r d' w', refresh (mk_drm 3 0 None) (demo_card false) = Some (r, d', w') ∧
    match r with
    | Ret None => scanout d' = None ∧ drm_inv no_objects d' w'
    | Ret (Some m) => drm_inv no_objects d' w' ∧
        ∃ so, scanout d' = Some so ∧ m = mk_mode (so_width so) (so_height so)
    | Fail _ => (scanout d' = None ∧ drm_inv no_objects d' w') ∨ (scanout d' = None ∧ leftover no_objects (drm_objects w'))
    end.
Proof. apply (refresh_follows_display no_objects (mk_drm 3 0 None) (demo_card false)). split; [reflexivity|intros so Hso; discriminate]. Defined.

(** When the crtc cannot be set, the buffer, the framebuffer and the mapping
    stay: nothing refers to them any more. *)
Lemma failed_scanout_leaks :
  ∃ e d' w', refresh (mk_drm 3 0 None) (demo_card true) = Some (Fail e, d', w') ∧ scanout d' = None ∧
    elements (o_handles (c_objects w')) = [1] ∧ elements (o_fbs (c_objects w')) = [1] ∧ elements (o_maps (c_objects w')) = [1].
Proof. do 3 eexists. split; [vm_compute; reflexivity|]. by vm_compute. Qed.

(** With no connector connected [find_connector] takes the last one. *)
Lemma fallback_connector_is_last :
  (find_connector (mk_card no_objects ∅ [(3, false, []); (4, false, []); (5, false, [])] false)).1 = Ret 5.
Proof. by vm_compute. Qed.
