(* ===== verification/K1Main.v ===== *)
(** * The main loop of the K1OS console

    Models [main] of k1de/src/main.rs: one iteration of the loop follows the
    display, looks for keyboards, reaps the shell, polls, feeds the terminal
    and the shell, and draws.  The display is used through the interface
    [Display], which the module of drm.rs implements.  What the system answers
    in an iteration is a record [tick]; what the program asks of the shell is a
    list of [action]s. *)

From S2P Require Import Prelude K1Color K1Term K1TermSpec K1Render K1Pixels K1Input K1Drm.
Open Scope Z_scope.

(** ** The display as the loop sees it *)

Class Display (D : Type) := {
  d_refresh : D → option (cres (option Mode) * D);
  d_framebuffer : D → option framebuffer;
  (* the mapped bytes after drawing *)
  d_draw : list Z → D → D
}.

(** ** State *)

Record Keyboard : Type := mk_keyboard { kb_path : list Z; kb_fd : Z }.

Record main_state (D : Type) : Type := mk_main {
  ms_drm : D; ms_mode : option Mode; ms_term : option Terminal;
  (* the file descriptor of the pty *)
  ms_pty : option Z;
  ms_decoder : Decoder; ms_keyboards : list Keyboard;
  (* instants, in milliseconds *)
  ms_last_drm_refresh : Z; ms_last_kb_scan : Z; ms_idle_since : Z;
  ms_screensaving : bool
}.
Arguments mk_main {D}.
Arguments ms_drm {D}.
Arguments ms_mode {D}.
Arguments ms_term {D}.
Arguments ms_pty {D}.
Arguments ms_decoder {D}.
Arguments ms_keyboards {D}.
Arguments ms_last_drm_refresh {D}.
Arguments ms_last_kb_scan {D}.
Arguments ms_idle_since {D}.
Arguments ms_screensaving {D}.

Section setters.
Context {D : Type}.
Definition with_drm d (s : main_state D) : main_state D :=
  mk_main d (ms_mode s) (ms_term s) (ms_pty s) (ms_decoder s) (ms_keyboards s) (ms_last_drm_refresh s) (ms_last_kb_scan s) (ms_idle_since s) (ms_screensaving s).
Definition with_mode m (s : main_state D) : main_state D :=
  mk_main (ms_drm s) m (ms_term s) (ms_pty s) (ms_decoder s) (ms_keyboards s) (ms_last_drm_refresh s) (ms_last_kb_scan s) (ms_idle_since s) (ms_screensaving s).
Definition with_term t (s : main_state D) : main_state D :=
  mk_main (ms_drm s) (ms_mode s) t (ms_pty s) (ms_decoder s) (ms_keyboards s) (ms_last_drm_refresh s) (ms_last_kb_scan s) (ms_idle_since s) (ms_screensaving s).
Definition with_pty p (s : main_state D) : main_state D :=
  mk_main (ms_drm s) (ms_mode s) (ms_term s) p (ms_decoder s) (ms_keyboards s) (ms_last_drm_refresh s) (ms_last_kb_scan s) (ms_idle_since s) (ms_screensaving s).
Definition with_decoder c (s : main_state D) : main_state D :=
  mk_main (ms_drm s) (ms_mode s) (ms_term s) (ms_pty s) c (ms_keyboards s) (ms_last_drm_refresh s) (ms_last_kb_scan s) (ms_idle_since s) (ms_screensaving s).
Definition with_keyboards k (s : main_state D) : main_state D :=
  mk_main (ms_drm s) (ms_mode s) (ms_term s) (ms_pty s) (ms_decoder s) k (ms_last_drm_refresh s) (ms_last_kb_scan s) (ms_idle_since s) (ms_screensaving s).
Definition with_last_drm_refresh i (s : main_state D) : main_state D :=
  mk_main (ms_drm s) (ms_mode s) (ms_term s) (ms_pty s) (ms_decoder s) (ms_keyboards s) i (ms_last_kb_scan s) (ms_idle_since s) (ms_screensaving s).
Definition with_last_kb_scan i (s : main_state D) : main_state D :=
  mk_main (ms_drm s) (ms_mode s) (ms_term s) (ms_pty s) (ms_decoder s) (ms_keyboards s) (ms_last_drm_refresh s) i (ms_idle_since s) (ms_screensaving s).
Definition with_idle_since i (s : main_state D) : main_state D :=
  mk_main (ms_drm s) (ms_mode s) (ms_term s) (ms_pty s) (ms_decoder s) (ms_keyboards s) (ms_last_drm_refresh s) (ms_last_kb_scan s) i (ms_screensaving s).
Definition with_screensaving b (s : main_state D) : main_state D :=
  mk_main (ms_drm s) (ms_mode s) (ms_term s) (ms_pty s) (ms_decoder s) (ms_keyboards s) (ms_last_drm_refresh s) (ms_last_kb_scan s) (ms_idle_since s) b.
End setters.

(** What the system answers in one iteration. *)
Record tick : Type := mk_tick {
  tk_now : Z;
  tk_spawn : cres Z;
  tk_scan : list Keyboard;
  tk_exited : bool;
  (* the result of poll and the events of each file descriptor *)
  tk_n : Z;
  tk_revents : Z → Z;
  tk_pty_read : cres (list Z);
  tk_kb_read : Z → option (list Z);
  tk_kb_now : Z → Z;
  tk_idle_now : Z
}.

Inductive action : Type :=
  | Spawn (cols rows : Z)
  | WinSize (fd cols rows : Z)
  | Write (fd : Z) (bytes : list Z).

Definition POLLIN : Z := 1.
Definition IDLE_TIMEOUT : Z := 600 * 1000.
Definition DRM_REFRESH_INTERVAL : Z := 500.
Definition KEYBOARD_RESCAN_INTERVAL : Z := 2 * 1000.

(** [Instant::duration_since] saturates. *)
Definition duration_since (now earlier : Z) : Z := Z.max 0 (now - earlier).

Definition dirtied (t : option Terminal) : option Terminal := set_dirty true <$> t.

(** ** One iteration *)

Section main.
Context {D : Type} {DI : Display D} (font : Font).

Definition grid_cols (m : Mode) : Z := Z.max (m_width m / f_width font) 1.
Definition grid_rows (m : Mode) : Z := Z.max (m_height m / f_height font) 1.

(** A new mode: resize or create the terminal, resize or spawn the shell. *)
Definition select_mode (tk : tick) (m : Mode) (s : main_state D) : option (main_state D * list action) :=
  let s := with_mode (Some m) s in
  let c := grid_cols m in
  let r := grid_rows m in
  t ← match ms_term s with Some t => resize c r t | None => new c r end;
  let s := with_term (Some t) s in
  let '(s, acts) :=
    match ms_pty s with
    | Some fd => (s, [WinSize fd (u16 c) (u16 r)])
    | None => (with_pty (match tk_spawn tk with Ret fd => Some fd | Fail _ => None end) s, [Spawn (u16 c) (u16 r)])
    end in
  Some (with_term (dirtied (ms_term s)) s, acts).

Definition follow_display (tk : tick) (s : main_state D) : option (main_state D * list action) :=
  if DRM_REFRESH_INTERVAL <=? duration_since (tk_now tk) (ms_last_drm_refresh s) then
    let s := with_last_drm_refresh (tk_now tk) s in
    '(r, d) ← d_refresh (ms_drm s);
    let s := with_drm d s in
    match r with
    | Ret (Some m) => if bool_decide (ms_mode s ≠ Some m) then select_mode tk m s else Some (s, [])
    | Ret None => Some (with_mode None s, [])
    | Fail _ => Some (s, [])
    end
  else Some (s, []).

Definition add_keyboard (kbs : list Keyboard) (kb : Keyboard) : list Keyboard :=
  if existsb (λ k, bool_decide (kb_path k = kb_path kb)) kbs then kbs else kbs ++ [kb].

Definition rescan (tk : tick) (s : main_state D) : main_state D :=
  if KEYBOARD_RESCAN_INTERVAL <=? duration_since (tk_now tk) (ms_last_kb_scan s) then
    with_keyboards (foldl add_keyboard (ms_keyboards s) (tk_scan tk)) (with_last_kb_scan (tk_now tk) s)
  else s.

Definition reap (tk : tick) (s : main_state D) : main_state D :=
  match ms_pty s with
  | Some _ => if tk_exited tk then with_pty None s else s
  | None => s
  end.

(** The descriptors polled, with the events poll returned. *)
Definition pollfds_of (tk : tick) (s : main_state D) : list (Z * Z) :=
  (λ fd, (fd, tk_revents tk fd)) <$> (match ms_pty s with Some fd => [fd] | None => [] end) ++ (kb_fd <$> ms_keyboards s).

(** The output of the shell; an end of file gives no bytes. *)
Definition pty_input (tk : tick) (pollfds : list (Z * Z)) (s : main_state D) : option (main_state D) :=
  match ms_pty s with
  | None => Some s
  | Some _ =>
      match pollfds with
      | [] => Some s
      | (_, revents) :: _ =>
          if Z.land revents POLLIN =? 0 then Some s
          else
            match tk_pty_read tk, ms_term s with
            | Ret bytes, Some t => t ← process_bytes bytes t; Some (with_term (Some t) s)
            | _, _ => Some s
            end
      end
  end.

(** The bytes of one key. *)
Definition key_bytes (now : Z) (bytes : list Z) (s : main_state D) : main_state D * list action :=
  let s := with_idle_since now s in
  if ms_screensaving s then (with_term (dirtied (ms_term s)) (with_screensaving false s), [])
  else
    match ms_pty s with
    | Some fd => (s, [Write fd bytes])
    | None => (s, [])
    end.

(** One keyboard with its events. *)
Definition kb_event (tk : tick) (kb : Keyboard) (revents : Z) (s : main_state D) : main_state D * list action :=
  if Z.land revents POLLIN =? 0 then (s, [])
  else
    let '(c, o) := read_event (ms_decoder s) (tk_kb_read tk (kb_fd kb)) in
    let s := with_decoder c s in
    match o with
    | Some ((_ :: _) as bytes) => key_bytes (tk_kb_now tk (kb_fd kb)) bytes s
    | _ => (s, [])
    end.

Fixpoint kb_loop (tk : tick) (pollfds : list (Z * Z)) (slot : nat) (kbs : list Keyboard) (s : main_state D) : option (main_state D * list action) :=
  match kbs with
  | [] => Some (s, [])
  | kb :: kbs =>
      '(_, revents) ← pollfds !! slot;
      let '(s, acts) := kb_event tk kb revents s in
      '(s, rest) ← kb_loop tk pollfds (S slot) kbs s;
      Some (s, acts ++ rest)
  end.

Definition poll_input (tk : tick) (s : main_state D) : option (main_state D * list action) :=
  let pollfds := pollfds_of tk s in
  let kb_start := match ms_pty s with Some _ => 1%nat | None => 0%nat end in
  if 0 <? tk_n tk then
    s ← pty_input tk pollfds s;
    kb_loop tk pollfds kb_start (ms_keyboards s) s
  else Some (s, []).

Definition idle (tk : tick) (s : main_state D) : main_state D :=
  if negb (ms_screensaving s) && (IDLE_TIMEOUT <=? duration_since (tk_idle_now tk) (ms_idle_since s))
  then with_screensaving true s else s.

Definition draw_buf (buf : option (list Z)) (s : main_state D) : main_state D :=
  match buf with Some buf => with_drm (d_draw buf (ms_drm s)) s | None => s end.

Definition draw (s : main_state D) : option (main_state D) :=
  if ms_screensaving s then
    buf ← render_screensaver (d_framebuffer (ms_drm s)) font;
    Some (draw_buf buf s)
  else
    match ms_term s with
    | Some t =>
        if dirty t then
          '(buf, t) ← render t (d_framebuffer (ms_drm s)) font;
          Some (draw_buf buf (with_term (Some t) s))
        else Some s
    | None => Some s
    end.

Definition step (tk : tick) (s : main_state D) : option (main_state D * list action) :=
  '(s, a1) ← follow_display tk s;
  '(s, a2) ← poll_input tk (reap tk (rescan tk s));
  s ← draw (idle tk s);
  Some (s, a1 ++ a2).

Fixpoint run (tks : list tick) (s : main_state D) : option (main_state D * list action) :=
  match tks with
  | [] => Some (s, [])
  | tk :: tks =>
      '(s, a) ← step tk s;
      '(s, rest) ← run tks s;
      Some (s, a ++ rest)
  end.

(** The state before the loop. *)
Definition main_init (d : D) (keyboards : list Keyboard) (now : Z) : main_state D :=
  mk_main d None None None decoder_new keyboards (now - DRM_REFRESH_INTERVAL) now now false.
End main.

(** ** What the loop needs of the display *)

Definition fb_mode (fb : framebuffer) : Mode := mk_mode (fb_width fb) (fb_height fb).

(** [refresh] reports the size of the framebuffer; a failure loses it or leaves
    it as it is. *)
Class DisplayLaws (D : Type) {DI : Display D} := {
  d_ok : D → Prop;
  d_refresh_spec d : d_ok d → ∃ r d', d_refresh d = Some (r, d') ∧ d_ok d' ∧
    match r with
    | Ret m => fb_mode <$> d_framebuffer d' = m
    | Fail _ => d_framebuffer d' = None ∨ fb_mode <$> d_framebuffer d' = fb_mode <$> d_framebuffer d
    end;
  d_framebuffer_spec d fb : d_ok d → d_framebuffer d = Some fb →
    geometry (fb_pitch fb) (fb_width fb) (fb_height fb) (Z.of_nat (length (fb_buf fb))) ∧
    0 < fb_width fb < 2 ^ 16 ∧ 0 < fb_height fb < 2 ^ 16;
  d_draw_spec d fb buf : d_ok d → d_framebuffer d = Some fb → length buf = length (fb_buf fb) →
    d_ok (d_draw buf d) ∧ fb_mode <$> d_framebuffer (d_draw buf d) = Some (fb_mode fb)
}.

(** ** Runs *)

Section runs.
Context {D : Type} {DI : Display D} (font : Font).

(** A cell of the font fits the framebuffer, which is two pixels wide at
    least. *)
Definition display_fits (d : D) : bool :=
  match d_framebuffer d with
  | Some fb => (Z.max 2 (f_width font) <=? fb_width fb) && (f_height font <=? fb_height fb)
  | None => true
  end.

(** In every iteration of the run, the display the loop follows fits. *)
Fixpoint modes_fit (tks : list tick) (s : main_state D) : bool :=
  match tks with
  | [] => true
  | tk :: tks =>
      match follow_display font tk s with Some (s1, _) => display_fits (ms_drm s1) | None => true end &&
      match step font tk s with Some (s', _) => modes_fit tks s' | None => true end
  end.

End runs.

Definition byte_tick (tk : tick) : Prop :=
  match tk_pty_read tk with Ret bytes => Forall byte_ok bytes | Fail _ => True end.

(** ** What changes the mode and the display *)

Section frame.
Context {D : Type} {DI : Display D}.
Implicit Type s : main_state D.

Definition same_display (s s' : main_state D) : Prop := ms_mode s' = ms_mode s ∧ ms_drm s' = ms_drm s.

Lemma rescan_frame tk s : same_display s (rescan tk s).
Proof. unfold rescan. by case_step. Qed.

Lemma reap_frame tk s : same_display s (reap tk s).
Proof. unfold reap. by repeat case_step. Qed.

Lemma idle_frame tk s : same_display s (idle tk s).
Proof. unfold idle. by case_step. Qed.

Lemma kb_event_frame tk kb revents s : same_display s (kb_event tk kb revents s).1.
Proof. unfold kb_event, key_bytes. repeat (case_step; try done). Qed.

Lemma kb_loop_frame tk pollfds slot kbs s s' acts :
  kb_loop tk pollfds slot kbs s = Some (s', acts) → same_display s s'.
Proof.
  revert slot s acts. induction kbs as [|kb kbs IH]; intros slot s acts; cbn [kb_loop]; [by intros [= <- <-]|].
  destruct (pollfds !! slot) as [[fd rev]|]; [|done]. cbn [mbind option_bind].
  destruct (kb_event_frame tk kb rev s) as [M1 D1]. destruct (kb_event tk kb rev s) as [s1 a1].
  destruct (kb_loop tk pollfds (S slot) kbs s1) as [[s2 a2]|] eqn:E; [|done]. cbn [mbind option_bind]. intros [= <- <-].
  destruct (IH _ _ _ E) as [M2 D2]. cbn in *. split; congruence.
Qed.

Lemma pty_input_frame tk pollfds s s1 : pty_input tk pollfds s = Some s1 → ∃ t, s1 = with_term t s.
Proof.
  assert (with_term (ms_term s) s = s) as Hid by (by destruct s).
  unfold pty_input. intros E. repeat case_step_in E; try (exists (ms_term s); congruence).
  destruct (process_bytes _ _); [|done]. injection E as <-. by eexists.
Qed.

Lemma poll_input_frame tk s s' acts : poll_input tk s = Some (s', acts) → same_display s s'.
Proof.
  unfold poll_input. case_step; [|by intros [= <- <-]].
  destruct (pty_input tk (pollfds_of tk s) s) as [s1|] eqn:E; [|done]. cbn [mbind option_bind].
  destruct (pty_input_frame _ _ _ _ E) as [t ->]. intros El. by apply kb_loop_frame in El.
Qed.

End frame.

Section invariant.
Context {D : Type} {DI : Display D} {DL : DisplayLaws D} {font : Font}.
Hypothesis Hfont : font_ok font.
Hypothesis Hnarrow : f_width font <= 64.
Implicit Type s : main_state D.

(** The terminal has the grid of the mode, and the mode is that of the
    framebuffer when there is one. *)
Record main_ok (s : main_state D) : Prop := mk_main_ok {
  mo_drm : d_ok (ms_drm s);
  mo_term : ∀ t, ms_term s = Some t → term_ok t;
  mo_grid : ∀ m, ms_mode s = Some m → grid <$> ms_term s = Some (grid_cols font m, grid_rows font m);
  mo_fb : ∀ fb, d_framebuffer (ms_drm s) = Some fb → ms_mode s = Some (fb_mode fb);
  mo_keyboards : NoDup (kb_path <$> ms_keyboards s)
}.

(** A change that keeps the display, the mode, the grid and the keyboards. *)
Lemma main_ok_term s t :
  main_ok s → (∀ u, t = Some u → term_ok u) → grid <$> t = grid <$> ms_term s → main_ok (with_term t s).
Proof. intros [H1 H2 H3 H4 H5] Ht Hg. split; cbn; try done. intros m Hm. rewrite Hg. by apply H3. Qed.

Lemma main_ok_pty s p : main_ok s → main_ok (with_pty p s).
Proof. by intros []. Qed.

Lemma main_ok_decoder s c : main_ok s → main_ok (with_decoder c s).
Proof. by intros []. Qed.

Lemma main_ok_dirtied s : main_ok s → main_ok (with_term (dirtied (ms_term s)) s).
Proof.
  intros Hs. apply main_ok_term; [done| |by destruct (ms_term s)].
  intros u Hu. destruct (ms_term s) as [t|] eqn:E; [|done]. injection Hu as <-. apply ok_set_dirty, (mo_term s Hs t E).
Qed.

Lemma resized_ok c r o :
  1 <= c < 2 ^ 16 → 1 <= r < 2 ^ 16 → (∀ t, o = Some t → term_ok t) →
  ∃ t, match o with Some t => resize c r t | None => new c r end = Some t ∧ term_ok t ∧ grid t = (c, r).
Proof.
  intros Hc Hr Ho. assert (small_grid c r) as Hs by (unfold small_grid, CELL_SIZE, isize_max; nia).
  destruct o as [t|].
  - rewrite resize_small by done. eexists. split; [done|]. split; [by apply ok_resize, Ho|].
    unfold resized, grid. case_step; zbool; [congruence|cbn; f_equal; lia..].
  - rewrite new_small by (done || lia). eexists. split; [done|]. split; [apply ok_new; lia|done].
Qed.

Lemma grid_bounds m :
  0 <= m_width m < 2 ^ 16 → 0 <= m_height m < 2 ^ 16 → 1 <= grid_cols font m < 2 ^ 16 ∧ 1 <= grid_rows font m < 2 ^ 16.
Proof.
  intros Hw Hh. destruct Hfont as [Hfw Hfh _]. unfold grid_cols, grid_rows.
  assert (∀ a b, 0 <= a < 2 ^ 16 → 1 <= b → 0 <= a / b <= a) as Hd.
  { intros a b Ha Hb. split; [apply Z.div_pos; lia|]. apply Z.div_le_upper_bound; nia. }
  pose proof (Hd (m_width m) (f_width font) Hw ltac:(lia)). pose proof (Hd (m_height m) (f_height font) Hh ltac:(lia)). lia.
Qed.

Lemma select_mode_ok tk m s :
  0 <= m_width m < 2 ^ 16 → 0 <= m_height m < 2 ^ 16 →
  d_ok (ms_drm s) → (∀ t, ms_term s = Some t → term_ok t) → NoDup (kb_path <$> ms_keyboards s) →
  (∀ fb, d_framebuffer (ms_drm s) = Some fb → m = fb_mode fb) →
  ∃ s' acts, select_mode font tk m s = Some (s', acts) ∧ main_ok s'.
Proof.
  intros Hw Hh Hd Ht Hk Hm. unfold select_mode. destruct (grid_bounds m Hw Hh) as [Hc Hr].
  cbn [ms_term with_mode].
  destruct (resized_ok (grid_cols font m) (grid_rows font m) (ms_term s) Hc Hr Ht) as (t & -> & Htok & Hg).
  cbn [mbind option_bind ms_pty with_term with_mode].
  assert (main_ok (with_term (Some t) (with_mode (Some m) s))) as Hok.
  { split; cbn; [done|by intros u [= <-]| | |done].
    - intros m' [= <-]. by rewrite Hg.
    - intros fb Hfb. f_equal. by apply Hm. }
  destruct (ms_pty s); eexists _, _; (split; [done|]); apply main_ok_dirtied; [done|by apply main_ok_pty].
Qed.

Lemma follow_display_ok tk s :
  main_ok s → ∃ s' acts, follow_display font tk s = Some (s', acts) ∧ main_ok s'.
Proof.
  intros Hs. unfold follow_display. case_step; [|by exists s, []].
  destruct (d_refresh_spec (ms_drm s) (mo_drm s Hs)) as (r & d & E & Hd & Hr). cbn [ms_drm with_last_drm_refresh].
  rewrite E. cbn [mbind option_bind]. destruct Hs as [H1 H2 H3 H4 H5].
  destruct r as [[m|]|e].
  - destruct (d_framebuffer d) as [fb|] eqn:Efb; [|done]. injection Hr as <-. case_bool_decide as Hne.
    + destruct (d_framebuffer_spec d fb Hd Efb) as (_ & Hw & Hh).
      apply select_mode_ok; [cbn; lia|cbn; lia|done..|]. cbn. congruence.
    + eexists _, _. split; [done|]. cbn in Hne. split; cbn; try done. congruence.
  - eexists _, _. split; [done|]. split; cbn; try done. intros fb Hfb. by rewrite Hfb in Hr.
  - eexists _, _. split; [done|]. split; cbn; try done. intros fb Hfb. destruct Hr as [Hr|Hr]; [congruence|].
    rewrite Hfb in Hr. destruct (d_framebuffer (ms_drm s)) as [fb'|] eqn:Efb; [|done]. rewrite (H4 fb' eq_refl). by injection Hr.
Qed.

Lemma add_keyboard_nodup kbs kb : NoDup (kb_path <$> kbs) → NoDup (kb_path <$> add_keyboard kbs kb).
Proof.
  intros Hn. unfold add_keyboard. case_step; [done|]. rewrite fmap_app. apply NoDup_app. split; [done|].
  split; [|apply NoDup_singleton]. intros p Hp Hin. apply list_elem_of_singleton in Hin as ->.
  apply list_elem_of_fmap in Hp as (k & Hk & Hink). apply not_true_iff_false in Heqb. apply Heqb, existsb_exists.
  exists k. split; [by apply list_elem_of_In|by apply bool_decide_eq_true_2].
Qed.

Lemma rescan_ok tk s : main_ok s → main_ok (rescan tk s).
Proof.
  intros [H1 H2 H3 H4 H5]. unfold rescan. case_step; [|done]. split; cbn; try done.
  revert H5. generalize (ms_keyboards s). induction (tk_scan tk) as [|kb kbs IH]; intros l Hl; [done|].
  cbn. by apply IH, add_keyboard_nodup.
Qed.

Lemma reap_ok tk s : main_ok s → main_ok (reap tk s).
Proof. intros Hs. unfold reap. repeat case_step; [by apply main_ok_pty|done|done]. Qed.

Lemma pty_input_ok tk pollfds s :
  byte_tick tk → main_ok s →
  ∃ s', pty_input tk pollfds s = Some s' ∧ main_ok s' ∧ ms_keyboards s' = ms_keyboards s.
Proof.
  intros Hb Hs. unfold pty_input. unfold byte_tick in Hb. destruct (ms_pty s); [|by exists s].
  destruct pollfds as [|[fd rev] ?]; [by exists s|]. case_step; [by exists s|].
  destruct (tk_pty_read tk) as [bytes|e]; [|by exists s]. destruct (ms_term s) as [t|] eqn:Et; [|by exists s].
  destruct (process_bytes_ok bytes t (mo_term s Hs t Et) Hb) as (t' & E & Ht'). rewrite E. cbn [mbind option_bind].
  eexists. split; [done|]. split; [|done]. apply main_ok_term; [done|by intros u [= <-]|].
  rewrite Et. cbn. by rewrite (keeps_process_bytes _ _ _ E).
Qed.

Lemma key_bytes_ok now bytes s :
  main_ok s → main_ok (key_bytes now bytes s).1 ∧ ms_keyboards (key_bytes now bytes s).1 = ms_keyboards s.
Proof.
  intros Hs. assert (main_ok (with_idle_since now s)) as Hs1 by (by destruct Hs). unfold key_bytes.
  case_step; [|case_step; done]. split; [|done]. apply (main_ok_dirtied (with_screensaving false (with_idle_since now s))).
  by destruct Hs1.
Qed.

Lemma kb_event_ok tk kb revents s : main_ok s → main_ok (kb_event tk kb revents s).1.
Proof.
  intros Hs. unfold kb_event. case_step; [done|]. destruct (read_event _ _) as [c o]. pose proof (main_ok_decoder s c Hs).
  repeat case_step; try done. by apply key_bytes_ok.
Qed.

Lemma kb_loop_ok tk pollfds slot kbs s :
  (slot + length kbs <= length pollfds)%nat → main_ok s →
  ∃ s' acts, kb_loop tk pollfds slot kbs s = Some (s', acts) ∧ main_ok s'.
Proof.
  revert slot s. induction kbs as [|kb kbs IH]; intros slot s Hl Hs; [by exists s, []|]. cbn [kb_loop length] in *.
  destruct (lookup_lt_is_Some_2 pollfds slot) as [[fd rev] ->]; [lia|]. cbn [mbind option_bind].
  pose proof (kb_event_ok tk kb rev s Hs) as He. destruct (kb_event tk kb rev s) as [s1 acts].
  destruct (IH (S slot) s1) as (s' & rest & -> & Hs'); [lia|done|]. cbn [mbind option_bind]. eauto.
Qed.

Lemma poll_input_ok tk s :
  byte_tick tk → main_ok s → ∃ s' acts, poll_input tk s = Some (s', acts) ∧ main_ok s'.
Proof.
  intros Hb Hs. unfold poll_input. case_step; [|by exists s, []].
  destruct (pty_input_ok tk (pollfds_of tk s) s Hb Hs) as (s1 & -> & Hs1 & Ek). cbn [mbind option_bind].
  apply kb_loop_ok; [|done]. rewrite Ek. unfold pollfds_of. rewrite length_fmap, length_app, length_fmap.
  destruct (ms_pty s); done.
Qed.

Lemma idle_ok tk s : main_ok s → main_ok (idle tk s).
Proof. intros Hs. unfold idle. case_step; [by destruct Hs|done]. Qed.

Lemma draw_buf_ok buf s fb :
  main_ok s → d_framebuffer (ms_drm s) = Some fb → length buf = length (fb_buf fb) → main_ok (draw_buf (Some buf) s).
Proof.
  intros [H1 H2 H3 H4 H5] Hfb Hl. destruct (d_draw_spec (ms_drm s) fb buf H1 Hfb Hl) as [Hd Hm].
  split; cbn; try done. intros fb' Hfb'. rewrite (H4 fb Hfb). by rewrite Hfb' in Hm.
Qed.

(** The grid of a mode fits a framebuffer of that mode. *)
Lemma grid_fits fb t :
  f_width font <= fb_width fb → f_height font <= fb_height fb →
  grid t = (grid_cols font (fb_mode fb), grid_rows font (fb_mode fb)) →
  cols t * f_width font <= fb_width fb ∧ rows t * f_height font <= fb_height fb.
Proof.
  intros Hw Hh [= -> ->]. unfold grid_cols, grid_rows. cbn [m_width m_height fb_mode]. destruct Hfont as [Hfw Hfh _].
  assert (∀ a b, 1 <= b → b <= a → Z.max (a / b) 1 * b <= a) as Hmax.
  { intros a b Hb Hab. assert (1 <= a / b) by (apply Z.div_le_lower_bound; lia).
    rewrite Z.max_l by done. rewrite Z.mul_comm. apply Z.mul_div_le. lia. }
  split; apply Hmax; lia.
Qed.

Lemma draw_ok s : main_ok s → display_fits font (ms_drm s) = true → ∃ s', draw font s = Some s' ∧ main_ok s'.
Proof.
  intros Hs Hfit. unfold display_fits in Hfit. unfold draw. destruct (d_framebuffer (ms_drm s)) as [fb|] eqn:Efb.
  - destruct (d_framebuffer_spec (ms_drm s) fb (mo_drm s Hs) Efb) as (Hg & Hw & Hh). zbool. case_step.
    + destruct (screensaver_safe _ _ _ _ Hg fb font) as (buf & -> & Hl); [done|done| |lia|lia|done..|].
      { pose proof (geo_fit _ _ _ _ Hg). lia. }
      cbn [mbind option_bind]. eexists. split; [done|]. apply (draw_buf_ok buf s fb); [done|done|lia].
    + destruct (ms_term s) as [t|] eqn:Et; [|by exists s]. case_step; [|by exists s].
      pose proof (mo_grid s Hs _ (mo_fb s Hs fb Efb)) as Hgr. rewrite Et in Hgr. injection Hgr as Hc Hr.
      destruct (grid_fits fb t) as [Hfc Hfr]; [lia|lia|unfold grid; congruence|].
      destruct (render_pictures _ _ _ _ Hg t font (mo_term s Hs t Et) Hfont Hfc Hfr fb) as (buf & -> & Hl & _); [done..|].
      cbn [mbind option_bind]. eexists. split; [done|]. apply (draw_buf_ok buf _ fb); [|done|lia].
      apply main_ok_term; [done| |by rewrite Et]. intros u [= <-]. apply ok_set_dirty, (mo_term s Hs t Et).
  - case_step; [by exists s|]. destruct (ms_term s) as [t|] eqn:Et; [|by exists s]. case_step; [|by exists s].
    eexists. split; [done|]. apply main_ok_term; [done| |by rewrite Et]. intros u [= <-]. by apply (mo_term s Hs).
Qed.

Lemma step_ok tk s :
  byte_tick tk → main_ok s →
  match follow_display font tk s with Some (s1, _) => display_fits font (ms_drm s1) | None => true end = true →
  ∃ s' acts, step font tk s = Some (s', acts) ∧ main_ok s'.
Proof.
  intros Hb Hs Hfit. unfold step. destruct (follow_display_ok tk s Hs) as (s1 & a1 & E1 & H1). rewrite E1 in Hfit |- *.
  cbn [mbind option_bind].
  destruct (poll_input_ok tk (reap tk (rescan tk s1)) Hb) as (s2 & a2 & E2 & H2); [by apply reap_ok, rescan_ok|].
  destruct (poll_input_frame _ _ _ _ E2) as [_ Ed]. rewrite E2. cbn [mbind option_bind].
  destruct (draw_ok (idle tk s2)) as (s3 & -> & H3); [by apply idle_ok| |cbn [mbind option_bind]; eauto].
  rewrite (proj2 (idle_frame tk s2)), Ed, (proj2 (reap_frame tk _)), (proj2 (rescan_frame tk s1)). done.
Qed.

Lemma run_ok tks s :
  Forall byte_tick tks → main_ok s → modes_fit font tks s = true → ∃ s' acts, run font tks s = Some (s', acts) ∧ main_ok s'.
Proof.
  intros Hb. revert s. induction Hb as [|tk tks Hb _ IH]; intros s Hs Hfit; [by exists s, []|]. cbn [run modes_fit] in *.
  apply andb_true_iff in Hfit as [Hf1 Hf2]. destruct (step_ok tk s Hb Hs Hf1) as (s1 & a1 & E1 & H1).
  rewrite E1 in Hf2 |- *. cbn [mbind option_bind].
  destruct (IH s1 H1 Hf2) as (s2 & a2 & -> & H2). cbn [mbind option_bind]. eauto.
Qed.

Lemma main_init_ok d kbs now :
  d_ok d → d_framebuffer d = None → NoDup (kb_path <$> kbs) → main_ok (main_init d kbs now).
Proof. intros Hd Hf Hk. split; cbn; try done. congruence. Qed.
End invariant.

(** ** The display of drm.rs *)

Section drm_display.
Context {W : Type} {OD : OsDrm W}.

#[export] Instance drm_display : Display (Drm * W) := {
  d_refresh dw := '(r, d, w) ← refresh dw.1 dw.2; Some (r, (d, w));
  d_framebuffer dw := drm_framebuffer dw.1 dw.2;
  d_draw buf dw :=
    match scanout dw.1 with
    | Some so => (dw.1, drm_store (so_map so) buf dw.2)
    | None => dw
    end
}.

Context {OL : OsDrmLaws W}.

Lemma leftover_inv R d (w : W) : scanout d = None → leftover R (drm_objects w) → drm_inv (drm_objects w) d w.
Proof. intros Hd _. split; [unfold owned; by rewrite Hd|intros so; by rewrite Hd]. Qed.

#[export] Program Instance drm_display_laws : DisplayLaws (Drm * W) := {
  d_ok dw := ∃ R, drm_inv R dw.1 dw.2
}.
Next Obligation.
  intros [d w] [R Hinv]. cbn in *. destruct (refresh_spec R d w Hinv) as (r & d' & w' & E & Hr).
  rewrite E. cbn [mbind option_bind]. exists r, (d', w'). split; [done|]. unfold drm_framebuffer. cbn.
  destruct r as [[m|]|e].
  - destruct Hr as (Hi & so & Hso & ->). split; [by exists R|]. by rewrite Hso.
  - destruct Hr as [Hn Hi]. split; [by exists R|]. by rewrite Hn.
  - destruct Hr as [[Hsame Hi]|[Hn Hl]].
    + split; [by exists R|]. right. rewrite Hsame. by destruct (scanout d).
    + split; [eexists; by eapply leftover_inv|]. left. by rewrite Hn.
Qed.
Next Obligation.
  intros [d w] fb [R [_ Hs]] Hfb. cbn in *. unfold drm_framebuffer in Hfb. destruct (scanout d) as [so|]; [|done].
  injection Hfb as <-. destruct (Hs so eq_refl) as (_ & _ & _ & Hw & Hh & Hg). by cbn.
Qed.
Next Obligation.
  intros [d w] fb buf [R [Ho Hs]] Hfb Hl. cbn in *. unfold drm_framebuffer in *. destruct (scanout d) as [so|] eqn:Eso; [|done].
  injection Hfb as <-. cbn in *. split; [|by rewrite Eso]. exists R. split; cbn; [by rewrite store_objects|].
  intros so' Hso'. rewrite Eso in Hso'. injection Hso' as <-. rewrite mem_store, Hl. by apply Hs.
Qed.
End drm_display.

(** ** What is typed reaches the shell *)









Section typing.
Context {D : Type} {DI : Display D} (font : Font) (fd : Z).
Implicit Type s : main_state D.







End typing.

(** ** A shell that has exited *)


Section respawn.
Context {D : Type} {DI : Display D} (font : Font).
Implicit Type s : main_state D.




End respawn.

(** ** The theorems *)

(** C8: as long as every mode of the display is at least one cell of the font
    large (and two pixels wide), the loop on the display of drm.rs does not
    panic, whatever else the display, the shell and the keyboards do; and it
    keeps its invariant: the grid of the terminal is that of the mode, the
    framebuffer has the size of the mode, and no two keyboards have the same
    path. *)
Theorem main_never_panics {W} {OD : OsDrm W} {OL : OsDrmLaws W} font R d (w : W) kbs now tks :
  font_ok font → f_width font <= 64 → drm_inv R d w → scanout d = None → NoDup (kb_path <$> kbs) →
  Forall byte_tick tks → modes_fit font tks (main_init (d, w) kbs now) = true →
  ∃ s' acts, run font tks (main_init (d, w) kbs now) = Some (s', acts) ∧ main_ok (font := font) s'.
Proof.
  intros Hf Hn Hd Hs Hk Hb Hfit. apply run_ok; [done|done|done| |done]. apply main_init_ok; [by exists R| |done].
  cbn. unfold drm_framebuffer. by rewrite Hs.
Qed.



(** ** Witnesses *)

Definition demo_tick (now : Z) (exited : bool) (raw : list Z) : tick :=
  mk_tick now (Ret 9) [] exited 1 (λ fd, if fd =? 5 then 1 else 0) (Fail EAGAIN) (λ _, Some raw) (λ _, now) now.
Definition demo_kb : Keyboard := mk_keyboard [49] 5.

(** The simulated card before the loop and after its first iteration. *)
Definition demo_init : main_state (Drm * card) := main_init (mk_drm 3 0 None, demo_card false) [demo_kb] 0.
Definition demo_state : main_state (Drm * card) :=
  match run fallback [demo_tick 600 false [0]] demo_init with Some (s, _) => s | None => demo_init end.

Lemma demo_drm_ok : drm_inv no_objects (mk_drm 3 0 None) (demo_card false).
Proof. split; [reflexivity|]. intros so Hso. discriminate. Qed.


Lemma main_never_panics_witness :
  ∃ s' acts, run fallback [demo_tick 600 false [0]; demo_tick 1200 true [0]] demo_init = Some (s', acts) ∧
    main_ok (font := fallback) s'.
Proof.
  apply (main_never_panics (W := card) fallback no_objects).
  - apply fallback_ok.
  - cbn. lia.
  - apply demo_drm_ok.
  - reflexivity.
  - apply NoDup_singleton.
  - repeat constructor.
  - vm_compute. reflexivity.
Defined.




(** ** Corner cases of the code *)

(** A display that comes back with the mode it had does not make the terminal
    dirty, though its new buffer is empty. *)
Lemma same_mode_not_redrawn {D} {DI : Display D} font tk (s : main_state D) m d :
  DRM_REFRESH_INTERVAL <= duration_since (tk_now tk) (ms_last_drm_refresh s) →
  d_refresh (ms_drm s) = Some (Ret (Some m), d) → ms_mode s = Some m →
  ∃ s', follow_display font tk s = Some (s', []) ∧ ms_term s' = ms_term s.
Proof.
  intros Ht Hr Hm. unfold follow_display. rewrite (proj2 (Z.leb_le _ _)) by done. cbn [ms_drm with_last_drm_refresh].
  rewrite Hr. cbn [mbind option_bind]. rewrite bool_decide_eq_false_2 by (cbn; by intros []). by eexists.
Qed.

(** A keyboard plugged in again under a path that is known is ignored: the
    descriptor of the device that is gone stays. *)
Lemma replugged_keyboard_ignored : add_keyboard [demo_kb] (mk_keyboard [49] 6) = [demo_kb].
Proof. reflexivity. Qed.

(** A key that gives no bytes, such as Shift, does not end the screensaver. *)
Lemma modifier_keeps_screensaver :
  ms_screensaving (kb_event (demo_tick 0 false (bytes_of_event 0 0 (key 42 1))) demo_kb 1
    (with_screensaving true demo_state)).1 = true.
Proof. reflexivity. Qed.
